(* ===== verification/_CoqProject ===== *)
-Q . S2P
Prelude.v
Utf8.v
GoJson.v
CanonicalJson.v
CanonicalJsonFacts.v
GoStruct.v
Crypto.v
Event.v
Lines.v
Stored.v
Chain.v
Container.v
ContainerFacts.v
Ledger.v
LedgerFacts.v
Recovery.v
LedgerProps.v
Time.v
SigEnvelope.v
Witness.v
Frame.v
Ring.v
Gate.v
Holds.v
Sections.v
Tar.v
TarFacts.v
TarAccept.v
Regex.v
Manifest.v
ManifestFacts.v
Trust.v
TrustFacts.v
Package.v
PackageFacts.v
PackageRead.v
Marshal.v
ManifestHash.v
PackageSamples.v
GoStrings.v
Prompt.v
PromptFacts.v
Composer.v
ComposerFacts.v
Rewrap.v
RewrapFacts.v
Tables.v
SelfModel.v
Materialize.v
Admission.v
Timeless.v
Projection.v
Steps.v
Graph.v
AdmissionFacts.v
Door.v
DoorFacts.v
StoreSamples.v
WorkQueue.v
WorkQueueFacts.v
Executor.v
ExecutorFacts.v
WorkSamples.v
WitnessKeys.v
WitnessWire.v
Anchor.v
AnchorFacts.v
AnchorInv.v
AnchorRuns.v
AnchorAsk.v
AnchorSamples.v
IdentityEnvelope.v
IdentityFacts.v
IdentitySamples.v
