(* ===== verification/Prelude.v ===== *)
(** * AII OS: a verification library for the signed record and its packages

    AII OS keeps an identity's history as an append-only, signed, hash-linked
    ledger on disk, projects it into tables of beliefs, experiences and
    relationships, composes prompts from them, has an outside witness sign the
    record's head, and installs plugins from signed package archives.  This
    library models the Go code under src/internal that decides what enters the
    record, what the projection makes of it, what is accepted as the record at
    boot, what a prompt says, and what is accepted as a package; and a few
    components around them whose state machines must not go wrong (rings, the
    quiesce gate, foreground holds, interface sections, frames).

    ** How the parts interact

    [canonicaljson] fixes one byte form per JSON value; [crypto] hashes and signs
    those bytes; [sigenvelope] wraps a payload with its signatures.  [ledger]
    stores records whose hashed bytes are canonical JSON, in gzip segments
    followed by a tail file; [witness] verifies the heads a witness signed, and
    the ledger's walk calls it through an interface.  [store] turns each record
    into changes of its tables and holds the rules an event must meet; the door
    of [app] takes an event through those rules, the append and the projection,
    and freezes the ledger when the two part.  [prompt] composes a system text
    from the rings and the projection under a token budget.  [packagefmt] reads an
    archive in one pass, checks manifest, hashes, trust objects ([sigenvelope]
    under pinned roots) and revocation snapshots; [store] remembers the newest
    accepted epoch of each root, which [packagefmt] consults through an
    interface.

    ** Files

    Language and standard library:
    - Prelude: results, bytes, machine integers, decimal and hexadecimal text;
    - Utf8 (unicode/utf8), GoJson (encoding/json's tokens and string encoder),
      GoStruct (decoding into structs), Marshal (json.Marshal of raw messages),
      Time (time.Parse of RFC 3339), Regex (the patterns of regexp), Lines
      (bufio.Scanner over a file).

    Canonical bytes and signatures:
    - CanonicalJson, CanonicalJsonFacts: internal/canonicaljson;
    - Crypto: internal/crypto; SigEnvelope: internal/sigenvelope.

    The ledger (internal/ledger):
    - Event: the record, [EntryBytes], [MarshalJSON], [decodeEvent], payload
      preparation (ledger.go); Stored: the stored line;
    - Chain: [verifyChain] and its refusals (ledger.go, verify_failure.go);
    - Container, ContainerFacts: segments, the tail, their overlap (container.go);
    - Ledger: the [Ledger] with [New], [AppendPrepared], [Seal], [RecoverSeal],
      [Capture], [OpenVerified] (ledger.go, container.go, open_verified.go,
      seal_recovery.go, capture.go);
    - LedgerFacts, Recovery: the representation invariant and that operations
      keep it; LedgerProps: what callers may rely on;
    - Witness: headverify.go, tail.go and protocol.go of internal/witness.

    Anchoring (internal/witness):
    - WitnessKeys: the manifest of a witness's key, the files keys are kept in
      and their loading (client.go, headverify.go); WitnessWire: requests,
      receipts, replies and the pending documents (protocol.go, client.go,
      identity.go, pending.go);
    - Anchor: a pass of the anchorer as a program of the monad [AM] over the
      state [world] (anchor.go, pending.go); AnchorFacts: a small program logic
      for it and the invariant; AnchorInv: the triples of the programs up to
      [AnchorPass]; AnchorRuns, AnchorAsk: runs of passes; AnchorSamples: an
      exchange, evaluated;
    - IdentityEnvelope, IdentityFacts, IdentitySamples: identity.go, the envelope
      a key makes, the template and the goroutines that find a lost one, and
      [EnsureIdentityEnvelope].

    Packages (internal/packagefmt):
    - Tar, TarFacts, TarAccept: tar.go, the header writer of treewriter.go;
    - Manifest, ManifestFacts: manifest.go, hostbound.go, variant_preference.go;
    - Trust, TrustFacts: trust.go, revocation.go, contract.go, shipped.go and the
      table of epochs (store/trustepochs.go, app/adapters.go);
    - Package, PackageFacts, PackageRead, ManifestHash: verify.go, digest.go,
      readmember.go; PackageSamples: a package that verifies.

    The projection (internal/store) and the door (internal/app):
    - Tables: the derived tables of schema.sql, their checks and keys, and the
      decoding of numbers; SelfModel: portraits (ledger/self_model.go,
      store/self_model.go); Materialize: materialize.go, replay.go,
      publicname.go, trustepochs.go; Admission: [ValidateEvent] with
      ledger/cites.go, ledger/dreamed_through.go and memory/trigram;
    - Timeless: clocks, hashes and signatures do not decide anything;
      Projection: foreign keys, replay; Steps: one event as a sequence of steps
      of the relation [event_op]; Graph: the invariants of the tables;
      AdmissionFacts: what admitted events keep;
    - Door: [adapter_admit] and [capture] of app/adapters.go with [PinAt] of
      store/capture.go; DoorFacts: record and projection in step;
      StoreSamples: a small life on which the theorems are evaluated;
    - WorkQueue: the table work_queue and its operations (workqueue.go,
      frozen.go); Executor: the workers of cognitive/workqueue.go over the
      interface [QueueWork]; WorkQueueFacts, ExecutorFacts: their theorems;
      WorkSamples: queues and schedules;
    - Rewrap, RewrapFacts: ledger/rewrap.go.

    Prompts (internal/prompt):
    - GoStrings (package strings), Prompt, PromptFacts: budget.go, gate.go and
      tokenestimate; Composer, ComposerFacts: composer.go, store/rows/rows.go.

    Around them: Frame (bbb/frame.go), Ring (ring/ring.go), Gate
    (quiesce/quiesce.go), Holds (foreground/foreground.go), Sections
    (sections/sections.go).

    ** How code becomes definitions

    A Go function is a Rocq function of the same name.  A struct is a [Record],
    a Go string or byte slice a list of byte values, a [map] a [gmap] or, where
    order or repeated keys matter, an association list.  [(T, error)] is
    [result E T] or [option T]; the texts of errors are left out, their kinds
    ([Reason], the sentinel errors callers test for) are kept.  Code that
    mutates takes its state and returns it.  The ledger's directory is a finite
    map from names to bytes, and every file operation that can fail takes its
    outcome from an argument, so a theorem over all outcomes covers every crash
    and every error path.  Clocks are arguments.  Where goroutines meet under a
    mutex or an atomic (Gate, Holds, Executor, IdentityEnvelope), one step is one
    critical section or one access, and theorems are by induction over reachable
    states.  Rings and sections live in a heap, because callers keep aliases to
    what they hand in.

    Code outside src/ is a parameter: [Primitives] (SHA-256, ML-DSA-87, SLH-DSA;
    laws: 32-byte digests, a signature verifies under its key; no collision
    freedom is assumed, so theorems end in "or two byte strings with one digest
    are at hand"), [Gzip] (law: what was compressed decompresses), [Inflate] (the
    deflate decoder), [Shipped] (files embedded by the build).  Interfaces
    between components: [HeadVerifier] with [HeadVerifierLaws] (what the walk
    asks of the witness code, met by Witness), [EpochGuard] with
    [EpochGuardLaws] (met by the store's table in Trust), [QueueWork] with
    [QueueLaws] (what the executor asks of the queue, met by WorkQueue in
    ExecutorFacts).  Each has a concrete
    instance, on which the witnesses of the theorems are evaluated.

    ** What the theorems show

    - The record: an append adds one linked, signed record or changes nothing
      that was acknowledged, whatever the file system does; a seal interrupted
      anywhere loses no record and the next opening finishes it; a frozen ledger
      stays frozen (LedgerProps).
    - The chain: what the walk accepts is numbered, linked, bound and signed; two
      chains with one head are one record; a refusal reports no more than was
      proved; every honest chain is accepted (Chain).  Heads and receipts: what is
      reported attested was attested, and truncation and forks behind a stored
      receipt are told apart (Witness).
    - Anchoring: the keys heads are verified under stand on the platform root
      (WitnessKeys); what is minted stands at the next boot, a receipt that was
      kept is minted once and not lost (AnchorRuns); a lost answer is asked for
      with the same request, and a conflict silences the anchorer (AnchorAsk).
      These are over runs of passes, landing records and restarts under every
      environment that meets [env_ok]: what the ledger appends reads back and
      only the anchorer mints heads.  The envelope a pass signs for names the
      record's identity; a lost one is found in every interleaving of the search
      or was not made in its window, and the template is the builder
      (IdentityFacts).
    - Bytes: canonical bytes and JSON values correspond one to one, the parser
      always ends, stored lines read back (CanonicalJsonFacts, Event); a signature
      covers one payload and is accepted exactly under its specification
      (SigEnvelope).
    - Packages: nothing in an accepted archive escapes its root, every admissible
      tree has an archive that is accepted, an archive has one form up to a
      documented exception (TarFacts, TarAccept); a verified package holds what
      its manifest says, its tier was proved and not revoked, its hashes bind all
      files and the whole manifest, and what is read back is what was verified
      (PackageFacts, ManifestHash, PackageRead); epochs never roll back and
      revocation is decided by the signed snapshot (TrustFacts); manifests and
      host windows are decided as their grammar says (ManifestFacts).
    - The projection: a replay rebuilds the tables the live run built; rows,
      counts, operators and portraits stay as their rules say; an admitted event
      always materializes, beliefs keep their words and their evidence
      (Projection, Graph, AdmissionFacts).  The door: any run of calls leaves
      record and projection in step or the ledger frozen, and a capture is of one
      moment (DoorFacts).  A re-wrap keeps the history and happens whole or not
      at all (RewrapFacts).
    - The work queue: one live item per key, claims in order and within limits,
      bounded attempts, recovery of abandoned claims (WorkQueueFacts); one worker
      per item under the promptness the schedule [late_forget] shows to be needed,
      and a pass that ends with nothing due (ExecutorFacts).
    - Prompts: the founding rings stand whole at the beginning of every text, a
      prompt over budget gives up what its rule says and lists it (PromptFacts,
      ComposerFacts).
    - State machines: Ring 0 is written once, a paused gate is silent and an open
      one ticks, the subscriber is told the last edge, declarations and frames are
      decided and read back (Ring, Gate, Holds, Sections, Frame).

    ** Fuel and bounds

    The JSON parser runs on twice the input length plus two steps; that this is
    always enough is [CanonicalJsonFacts.parse_never_out_of_fuel].  The loop over
    archive members has two passes more than [maxSemanticMembers], and one member
    takes at most three headers (a pax header, its member, an end block); that
    this suffices is [PackageRead.stream_passes_enough].  Reading a payload runs
    on the declared size.  Other recursion is structural.  Ordinals are 64-bit
    and wrap as in Go where the code adds; lengths are [Z] or [nat] since a Go
    slice cannot exceed them.  [encoding/json]'s limit of 10000 nested levels is
    not modelled.

    ** Not modelled

    Process supervision, HTTP, audio, user interface and language-model calls
    (internal/app, broker, conversation, tools, updates, pluginfacility): I/O
    around the components above.  Of internal/store the transcript, the search
    and listings and the runtime tables but the work queue, whose enqueue with a
    work session is left with them; in the projection a database error other
    than a transaction that does not begin or commit.  What the transcript answers to
    admission is the parameter [Transcript], Unicode's classes are [Unicode],
    SQLite's json_valid is [Sqlite], its LIKE
    [SqlLike].  Key generation, and the placing of files on disk by
    atomicfile, which appears as an operation that succeeds or fails as a whole.
    The transport of the witness's client, of which each reply is an argument; a
    pass takes what [EnsureIdentityEnvelope] returned as one, too.
*)

From Stdlib Require Import DecimalPos DecimalN DecimalFacts.
From stdpp Require Export base tactics list strings numbers option sorting.

Open Scope Z_scope.

(** ** Fallible code: Go's [(T, error)] results *)

Inductive result (E A : Type) : Type :=
| Ok (a : A)
| Err (e : E).
Arguments Ok {E A} a.
Arguments Err {E A} e.

#[export] Instance result_ret E : MRet (result E) := λ A a, Ok a.
#[export] Instance result_bind E : MBind (result E) := λ A B f m,
  match m with Ok a => f a | Err e => Err e end.
#[export] Instance result_map E : FMap (result E) := λ A B f m,
  match m with Ok a => Ok (f a) | Err e => Err e end.

Definition is_ok {E A} (r : result E A) : bool :=
  match r with Ok _ => true | Err _ => false end.

Definition map_err {E F A} (f : E → F) (r : result E A) : result F A :=
  match r with Ok a => Ok a | Err e => Err (f e) end.

Definition of_option {E A} (e : E) (o : option A) : result E A :=
  match o with Some a => Ok a | None => Err e end.

Lemma bind_ok {E A B} (m : result E A) (f : A → result E B) b :
  (m ≫= f) = Ok b ↔ ∃ a, m = Ok a ∧ f a = Ok b.
Proof. destruct m; cbn; split; [eauto|intros (?&[=]&?); congruence|done|intros (?&[=]&?)]. Qed.

Lemma of_option_ok {E A} (e : E) (o : option A) a : of_option e o = Ok a ↔ o = Some a.
Proof. destruct o; cbn; split; congruence. Qed.

(** ** Bytes and Go strings

    A Go [byte] is a [Z] in [0, 256); a Go [string] and a [[]byte] are lists of
    them.  [bs] reads an ASCII literal; [js] does the same with the apostrophe
    standing for the double quote, which JSON texts are full of. *)

Abbreviation bytes := (list Z).

Definition is_byte (c : Z) : Prop := 0 ≤ c < 256.
#[export] Instance is_byte_dec c : Decision (is_byte c).
Proof. unfold is_byte. apply _. Defined.

Definition bs (s : string) : bytes :=
  (λ a, Z.of_N (Ascii.N_of_ascii a)) <$> String.list_ascii_of_string s.

Definition js (s : string) : bytes := (λ c, if c =? 39 then 34 else c) <$> bs s.

(** Character literals: ["a"%gc] is the code of the ASCII character [a]. *)
Definition char_of_bytes (l : list Byte.byte) : option Z :=
  match l with [b] => Some (Z.of_N (Byte.to_N b)) | _ => None end.
Definition bytes_of_char (_ : Z) : option (list Byte.byte) := None.
Declare Scope go_char_scope.
Delimit Scope go_char_scope with gc.
String Notation Z char_of_bytes bytes_of_char : go_char_scope.

(** Equality of Go strings, as the boolean the code branches on. *)
Definition beq (a b : bytes) : bool := bool_decide (a = b).

Lemma beq_true a b : beq a b = true ↔ a = b.
Proof. unfold beq. by rewrite bool_decide_eq_true. Qed.
Lemma beq_false a b : beq a b = false ↔ a ≠ b.
Proof. unfold beq. by rewrite bool_decide_eq_false. Qed.
Lemma beq_refl a : beq a a = true.
Proof. by apply beq_true. Qed.

(** Facts the components rely on without naming them. *)
Create HintDb go discriminated.
#[export] Hint Resolve beq_refl : go.

(** [lia] over quotients and remainders by constants. *)
Ltac zlia := Z.to_euclidean_division_equations; lia.

(** Turn boolean integer tests in the context into propositions. *)
Ltac b2p :=
  repeat match goal with
  | H : (_ && _) = true |- _ => apply andb_true_iff in H; destruct H
  | H : (_ || _) = false |- _ => apply orb_false_iff in H; destruct H
  | H : (_ <=? _) = true |- _ => apply Z.leb_le in H
  | H : (_ <=? _) = false |- _ => apply Z.leb_gt in H
  | H : (_ <? _) = true |- _ => apply Z.ltb_lt in H
  | H : (_ <? _) = false |- _ => apply Z.ltb_ge in H
  | H : (_ =? _) = true |- _ => apply Z.eqb_eq in H
  | H : (_ =? _) = false |- _ => apply Z.eqb_neq in H
  | H : beq _ _ = true |- _ => apply beq_true in H
  | H : beq _ _ = false |- _ => apply beq_false in H
  | H : negb _ = true |- _ => apply negb_true_iff in H
  | H : negb _ = false |- _ => apply negb_false_iff in H
  end.

(** ** Machine integers *)

Definition two64 : Z := 18446744073709551616.
Definition u64 (z : Z) : Z := z mod two64.
Definition int64_ok (z : Z) : bool := (-9223372036854775808 <=? z) && (z <=? 9223372036854775807).
(** [int64(x)] of a [uint64] [x]: two's complement reinterpretation. *)
Definition to_int64 (z : Z) : Z :=
  let w := u64 z in if w <? 9223372036854775808 then w else w - two64.

Lemma u64_small z : 0 ≤ z < two64 → u64 z = z.
Proof. intros. by apply Z.mod_small. Qed.
Lemma u64_range z : 0 ≤ u64 z < two64.
Proof. by apply Z.mod_pos_bound. Qed.
Lemma to_int64_small z : 0 ≤ z < 9223372036854775808 → to_int64 z = z.
Proof.
  intros. unfold to_int64. rewrite u64_small by (unfold two64; lia).
  destruct (Z.ltb_spec z 9223372036854775808); lia.
Qed.

(** ** Decimal text: [strconv.FormatUint]/[Itoa] and [ParseUint]/[ParseInt] *)

Fixpoint uint_bytes (d : Decimal.uint) : bytes :=
  match d with
  | Decimal.Nil => []
  | Decimal.D0 d => 48 :: uint_bytes d | Decimal.D1 d => 49 :: uint_bytes d
  | Decimal.D2 d => 50 :: uint_bytes d | Decimal.D3 d => 51 :: uint_bytes d
  | Decimal.D4 d => 52 :: uint_bytes d | Decimal.D5 d => 53 :: uint_bytes d
  | Decimal.D6 d => 54 :: uint_bytes d | Decimal.D7 d => 55 :: uint_bytes d
  | Decimal.D8 d => 56 :: uint_bytes d | Decimal.D9 d => 57 :: uint_bytes d
  end.

Definition is_digit (c : Z) : bool := (48 <=? c) && (c <=? 57).

Definition push_digit (c : Z) (d : Decimal.uint) : Decimal.uint :=
  if c =? 48 then Decimal.D0 d else if c =? 49 then Decimal.D1 d
  else if c =? 50 then Decimal.D2 d else if c =? 51 then Decimal.D3 d
  else if c =? 52 then Decimal.D4 d else if c =? 53 then Decimal.D5 d
  else if c =? 54 then Decimal.D6 d else if c =? 55 then Decimal.D7 d
  else if c =? 56 then Decimal.D8 d else Decimal.D9 d.

Fixpoint bytes_uint (s : bytes) : option Decimal.uint :=
  match s with
  | [] => Some Decimal.Nil
  | c :: t => if is_digit c then push_digit c <$> bytes_uint t else None
  end.

(** [strconv.FormatUint(z, 10)]. *)
Definition FormatUint (z : Z) : bytes := uint_bytes (N.to_uint (Z.to_N z)).
(** [strconv.Itoa] and [FormatInt(z, 10)]. *)
Definition FormatInt (z : Z) : bytes :=
  if z <? 0 then 45 :: FormatUint (- z) else FormatUint z.

(** [strconv.ParseUint(s, 10, 64)]: digits only, no sign, at most [2^64 - 1]. *)
Definition ParseUint (s : bytes) : option Z :=
  match s with
  | [] => None
  | _ => match bytes_uint s with
         | Some d => let z := Z.of_N (N.of_uint d) in
                     if z <? two64 then Some z else None
         | None => None
         end
  end.

(** [strconv.ParseInt(s, 10, 64)]: an optional sign, then as [ParseUint], within
    the 64-bit two's complement range. *)
Definition ParseInt (s : bytes) : option Z :=
  match s with
  | c :: t =>
      if c =? 45 then
        match ParseUint t with
        | Some z => if int64_ok (- z) then Some (- z) else None | None => None end
      else if c =? 43 then
        match ParseUint t with
        | Some z => if int64_ok z then Some z else None | None => None end
      else match ParseUint s with
        | Some z => if int64_ok z then Some z else None | None => None end
  | [] => None
  end.

Lemma bytes_uint_of d : bytes_uint (uint_bytes d) = Some d.
Proof. induction d; cbn; rewrite ?IHd; done. Qed.

Lemma uint_bytes_digits d : Forall (λ c, is_digit c = true) (uint_bytes d).
Proof. induction d; cbn; constructor; done. Qed.

Lemma uint_bytes_inj d1 d2 : uint_bytes d1 = uint_bytes d2 → d1 = d2.
Proof. intros H. pose proof (bytes_uint_of d1). rewrite H, bytes_uint_of in *. congruence. Qed.

Lemma to_uint_nonnil n : N.to_uint n ≠ Decimal.Nil.
Proof. destruct n; cbn; [done|]. apply DecimalPos.Unsigned.to_uint_nonnil. Qed.

Lemma FormatUint_cons z : ∃ c t, FormatUint z = c :: t ∧ is_digit c = true.
Proof.
  unfold FormatUint. pose proof (uint_bytes_digits (N.to_uint (Z.to_N z))) as Hd.
  pose proof (to_uint_nonnil (Z.to_N z)).
  destruct (N.to_uint (Z.to_N z)); cbn in *; try done; inversion Hd; eauto.
Qed.

Lemma FormatUint_digits z : Forall (λ c, is_digit c = true) (FormatUint z).
Proof. apply uint_bytes_digits. Qed.

Lemma ParseUint_Format z : 0 ≤ z < two64 → ParseUint (FormatUint z) = Some z.
Proof.
  intros Hz. destruct (FormatUint_cons z) as (c & t & E & _).
  unfold ParseUint. rewrite E, <- E. unfold FormatUint.
  rewrite bytes_uint_of, DecimalN.Unsigned.of_to, Z2N.id by lia.
  destruct (Z.ltb_spec z two64); [done|lia].
Qed.

Lemma FormatUint_inj a b : 0 ≤ a → 0 ≤ b → FormatUint a = FormatUint b → a = b.
Proof.
  intros Ha Hb H%uint_bytes_inj. apply Z2N.inj; [done..|].
  rewrite <- (DecimalN.Unsigned.of_to (Z.to_N a)), H. apply DecimalN.Unsigned.of_to.
Qed.

Lemma ParseInt_Format z : int64_ok z = true → ParseInt (FormatInt z) = Some z.
Proof.
  intros Hz. pose proof Hz as Hz'. unfold int64_ok in Hz'.
  apply andb_true_iff in Hz' as [?%Z.leb_le ?%Z.leb_le].
  unfold FormatInt. destruct (Z.ltb_spec z 0).
  - cbn. rewrite ParseUint_Format by (unfold two64; lia). by rewrite Z.opp_involutive, Hz.
  - destruct (FormatUint_cons z) as (c & t & E & Hc). unfold ParseInt. rewrite E, <- E.
    unfold is_digit in Hc. apply andb_true_iff in Hc as [?%Z.leb_le ?%Z.leb_le].
    destruct (Z.eqb_spec c 45); [lia|]. destruct (Z.eqb_spec c 43); [lia|].
    by rewrite ParseUint_Format, Hz by (unfold two64; lia).
Qed.

#[export] Hint Resolve uint_bytes_digits FormatUint_digits u64_range : go.

(** ** Hexadecimal text: [hex.EncodeToString] *)

Definition hex_digit (n : Z) : Z := if n <? 10 then 48 + n else 87 + n.

Fixpoint hex_encode (s : bytes) : bytes :=
  match s with
  | [] => []
  | b :: t => hex_digit (Z.shiftr b 4) :: hex_digit (Z.land b 15) :: hex_encode t
  end.

Lemma hex_digit_inj a b : 0 ≤ a < 16 → 0 ≤ b < 16 → hex_digit a = hex_digit b → a = b.
Proof.
  intros Ha Hb. unfold hex_digit.
  destruct (Z.ltb_spec a 10), (Z.ltb_spec b 10); lia.
Qed.

Lemma nibbles_inj a b : is_byte a → is_byte b →
  Z.shiftr a 4 = Z.shiftr b 4 → Z.land a 15 = Z.land b 15 → a = b.
Proof.
  unfold is_byte. intros Ha Hb. rewrite !Z.shiftr_div_pow2 by lia.
  change 15 with (Z.ones 4). rewrite !Z.land_ones by lia.
  change (2 ^ 4) with 16. intros. zlia.
Qed.

Lemma nibble_bounds b : is_byte b → 0 ≤ Z.shiftr b 4 < 16 ∧ 0 ≤ Z.land b 15 < 16.
Proof.
  unfold is_byte. intros. rewrite Z.shiftr_div_pow2 by lia.
  change 15 with (Z.ones 4). rewrite Z.land_ones by lia. change (2 ^ 4) with 16. zlia.
Qed.

Lemma hex_encode_inj a b : Forall is_byte a → Forall is_byte b →
  hex_encode a = hex_encode b → a = b.
Proof.
  revert b. induction a as [|x a IH]; intros [|y b] Ha Hb; cbn; try done.
  inversion_clear Ha; inversion_clear Hb. intros [= E1 E2 E3].
  pose proof (nibble_bounds x ltac:(done)). pose proof (nibble_bounds y ltac:(done)).
  apply hex_digit_inj in E1; [|tauto..]. apply hex_digit_inj in E2; [|tauto..].
  f_equal; auto using nibbles_inj.
Qed.

(** ** Lists *)

(** The bytes of [s] that precede its suffix [rest]. *)
Definition span_to (s rest : bytes) : bytes := take (length s - length rest) s.

Lemma span_to_app s rest : span_to (s ++ rest) rest = s.
Proof. unfold span_to. rewrite length_app, Nat.add_sub. apply take_app_length. Qed.

Lemma foldr_map {A B C} (f : B → C → C) (g : A → B) c l :
  foldr f c (map g l) = foldr (λ x, f (g x)) c l.
Proof. induction l as [|x l IH]; cbn; [done|]. by rewrite IH. Qed.
