(* ===== verification/Utf8.v ===== *)
(** * UTF-8 as Go's [unicode/utf8] and [range] over a string read it

    [DecodeRune], [EncodeRune], [Valid] and the rune sequence a [for range]
    loop sees, with the facts the JSON codecs rest on: a valid string is the
    encoding of its runes, and every encoded rune sequence is valid. *)

From S2P Require Import Prelude.

Definition RuneError : Z := 65533.

(** Continuation byte in [[lo, hi]]. *)
Definition between (lo hi c : Z) : bool := (lo <=? c) && (c <=? hi).
Definition cont (c : Z) : bool := between 128 191 c.

(** [utf8.DecodeRune]: the rune and its width; an invalid sequence is
    [(RuneError, 1)], the empty one [(RuneError, 0)]. *)
Definition decode2 (b0 b1 : Z) : Z := Z.lor (Z.shiftl (Z.land b0 31) 6) (Z.land b1 63).
Definition decode3 (b0 b1 b2 : Z) : Z :=
  Z.lor (Z.lor (Z.shiftl (Z.land b0 15) 12) (Z.shiftl (Z.land b1 63) 6)) (Z.land b2 63).
Definition decode4 (b0 b1 b2 b3 : Z) : Z :=
  Z.lor (Z.lor (Z.lor (Z.shiftl (Z.land b0 7) 18) (Z.shiftl (Z.land b1 63) 12))
               (Z.shiftl (Z.land b2 63) 6)) (Z.land b3 63).

(** The range the second byte must lie in, by the first byte (the
    [acceptRanges] table): excludes overlong forms, surrogates and runes past
    [U+10FFFF]. *)
Definition accept_lo (b0 : Z) : Z := if b0 =? 224 then 160 else if b0 =? 240 then 144 else 128.
Definition accept_hi (b0 : Z) : Z := if b0 =? 237 then 159 else if b0 =? 244 then 143 else 191.

Definition DecodeRune (s : bytes) : Z * nat :=
  match s with
  | [] => (RuneError, 0%nat)
  | b0 :: t =>
    if between 0 127 b0 then (b0, 1%nat)
    else if between 194 223 b0 then
      match t with
      | b1 :: _ => if cont b1 then (decode2 b0 b1, 2%nat) else (RuneError, 1%nat)
      | _ => (RuneError, 1%nat)
      end
    else if between 224 239 b0 then
      match t with
      | b1 :: b2 :: _ =>
        if between (accept_lo b0) (accept_hi b0) b1 && cont b2
        then (decode3 b0 b1 b2, 3%nat) else (RuneError, 1%nat)
      | _ => (RuneError, 1%nat)
      end
    else if between 240 244 b0 then
      match t with
      | b1 :: b2 :: b3 :: _ =>
        if between (accept_lo b0) (accept_hi b0) b1 && cont b2 && cont b3
        then (decode4 b0 b1 b2 b3, 4%nat) else (RuneError, 1%nat)
      | _ => (RuneError, 1%nat)
      end
    else (RuneError, 1%nat)
  end.

Definition valid_rune (r : Z) : Prop := 0 ≤ r < 55296 ∨ 57344 ≤ r ≤ 1114111.
#[export] Instance valid_rune_dec r : Decision (valid_rune r).
Proof. unfold valid_rune. apply _. Defined.

(** [utf8.AppendRune]/[EncodeRune]: an invalid rune is encoded as [RuneError]. *)
Definition EncodeRune (r0 : Z) : bytes :=
  let r := if bool_decide (valid_rune r0) then r0 else RuneError in
  if r <? 128 then [r]
  else if r <? 2048 then [Z.lor 192 (Z.shiftr r 6); Z.lor 128 (Z.land r 63)]
  else if r <? 65536 then
    [Z.lor 224 (Z.shiftr r 12); Z.lor 128 (Z.land (Z.shiftr r 6) 63); Z.lor 128 (Z.land r 63)]
  else
    [Z.lor 240 (Z.shiftr r 18); Z.lor 128 (Z.land (Z.shiftr r 12) 63);
     Z.lor 128 (Z.land (Z.shiftr r 6) 63); Z.lor 128 (Z.land r 63)].

(** The (rune, width) pairs a [for range] loop over [s] visits; [k] bytes of
    the current rune are still to be stepped over. *)
Fixpoint decode_from (k : nat) (s : bytes) : list (Z * nat) :=
  match s with
  | [] => []
  | b :: t =>
    match k with
    | S k' => decode_from k' t
    | O => let rw := DecodeRune s in rw :: decode_from (pred rw.2) t
    end
  end.

Definition decoded (s : bytes) : list (Z * nat) := decode_from 0 s.
(** [[]rune(s)]. *)
Definition runes (s : bytes) : list Z := (decoded s).*1.
(** [utf8.Valid]. *)
Definition Valid (s : bytes) : bool :=
  forallb (λ '(r, w), negb ((r =? RuneError) && (w =? 1)%nat)) (decoded s).
(** [string(rs)]. *)
Definition encode_runes (rs : list Z) : bytes := concat (EncodeRune <$> rs).

(** ** Bit arithmetic of the continuation scheme *)

Lemma land_shiftl_low a b n : 0 ≤ n → 0 ≤ b < 2 ^ n → Z.land (Z.shiftl a n) b = 0.
Proof.
  intros Hn Hb. apply Z.bits_inj'. intros i Hi. rewrite Z.land_spec, Z.bits_0.
  destruct (Z.lt_ge_cases i n); [by rewrite Z.shiftl_spec_low|].
  rewrite <- (Z.mod_small b (2 ^ n)), <- Z.land_ones by done.
  by rewrite Z.land_spec, Z.ones_spec_high, !andb_false_r by lia.
Qed.

Lemma lor_add_shift a b n : 0 ≤ n → 0 ≤ b < 2 ^ n → Z.lor (Z.shiftl a n) b = a * 2 ^ n + b.
Proof.
  intros. rewrite <- Z.shiftl_mul_pow2 by done. symmetry.
  by apply Z.add_nocarry_lor, land_shiftl_low.
Qed.

Lemma land63 a : Z.land a 63 = a mod 64.
Proof. exact (Z.land_ones a 6 ltac:(lia)). Qed.
Lemma land31 a : Z.land a 31 = a mod 32.
Proof. exact (Z.land_ones a 5 ltac:(lia)). Qed.
Lemma land15 a : Z.land a 15 = a mod 16.
Proof. exact (Z.land_ones a 4 ltac:(lia)). Qed.
Lemma land7 a : Z.land a 7 = a mod 8.
Proof. exact (Z.land_ones a 3 ltac:(lia)). Qed.

Lemma decode2_arith b0 b1 : decode2 b0 b1 = b0 mod 32 * 64 + b1 mod 64.
Proof. unfold decode2. rewrite land31, land63, lor_add_shift; [done|lia|zlia]. Qed.

Lemma decode3_arith b0 b1 b2 :
  decode3 b0 b1 b2 = b0 mod 16 * 4096 + b1 mod 64 * 64 + b2 mod 64.
Proof.
  unfold decode3. rewrite land15, !land63.
  replace (Z.shiftl (b0 mod 16) 12) with (Z.shiftl (Z.shiftl (b0 mod 16) 6) 6)
    by (by rewrite Z.shiftl_shiftl by lia).
  rewrite <- Z.shiftl_lor, !lor_add_shift by zlia. change (2 ^ 6) with 64. ring.
Qed.

Lemma decode4_arith b0 b1 b2 b3 :
  decode4 b0 b1 b2 b3 = b0 mod 8 * 262144 + b1 mod 64 * 4096 + b2 mod 64 * 64 + b3 mod 64.
Proof.
  unfold decode4. rewrite land7, !land63.
  replace (Z.shiftl (b0 mod 8) 18) with (Z.shiftl (Z.shiftl (Z.shiftl (b0 mod 8) 6) 6) 6)
    by (by rewrite !Z.shiftl_shiftl by lia).
  replace (Z.shiftl (b1 mod 64) 12) with (Z.shiftl (Z.shiftl (b1 mod 64) 6) 6)
    by (by rewrite Z.shiftl_shiftl by lia).
  rewrite <- !Z.shiftl_lor, !lor_add_shift by zlia. change (2 ^ 6) with 64. ring.
Qed.

Lemma lor_tag k n x : 0 ≤ n → 0 ≤ x < 2 ^ n → Z.lor (k * 2 ^ n) x = k * 2 ^ n + x.
Proof. intros. rewrite <- Z.shiftl_mul_pow2 at 1 by done. by apply lor_add_shift. Qed.

Lemma tag128 x : 0 ≤ x < 64 → Z.lor 128 x = 128 + x.
Proof. apply (lor_tag 2 6); lia. Qed.
Lemma tag192 x : 0 ≤ x < 32 → Z.lor 192 x = 192 + x.
Proof. apply (lor_tag 6 5); lia. Qed.
Lemma tag224 x : 0 ≤ x < 16 → Z.lor 224 x = 224 + x.
Proof. apply (lor_tag 14 4); lia. Qed.
Lemma tag240 x : 0 ≤ x < 8 → Z.lor 240 x = 240 + x.
Proof. apply (lor_tag 30 3); lia. Qed.

(** [EncodeRune] of a valid rune, in arithmetic. *)
Lemma EncodeRune_arith r : valid_rune r →
  EncodeRune r =
    if r <? 128 then [r]
    else if r <? 2048 then [192 + r / 64; 128 + r mod 64]
    else if r <? 65536 then [224 + r / 4096; 128 + r / 64 mod 64; 128 + r mod 64]
    else [240 + r / 262144; 128 + r / 4096 mod 64; 128 + r / 64 mod 64; 128 + r mod 64].
Proof.
  intros Hr. unfold EncodeRune. rewrite bool_decide_true by done.
  rewrite !land63, !Z.shiftr_div_pow2 by lia.
  change (2 ^ 6) with 64; change (2 ^ 12) with 4096; change (2 ^ 18) with 262144.
  unfold valid_rune in Hr.
  destruct (Z.ltb_spec r 128); [done|].
  destruct (Z.ltb_spec r 2048); [rewrite tag192, tag128 by zlia; done|].
  destruct (Z.ltb_spec r 65536);
    [rewrite tag224, !tag128 by zlia; done|rewrite tag240, !tag128 by zlia; done].
Qed.

Lemma between_true lo hi c : lo ≤ c ≤ hi → between lo hi c = true.
Proof. intros. unfold between. apply andb_true_iff. rewrite !Z.leb_le. lia. Qed.
Lemma between_false lo hi c : c < lo ∨ hi < c → between lo hi c = false.
Proof. intros. unfold between. apply andb_false_iff. rewrite !Z.leb_gt. lia. Qed.
Lemma between_spec lo hi c : between lo hi c = true ↔ lo ≤ c ≤ hi.
Proof. unfold between. rewrite andb_true_iff, !Z.leb_le. done. Qed.

(** Evaluate the range tests of [DecodeRune] from bounds in the context. *)
Ltac eval_ranges :=
  repeat match goal with
  | |- context [?a <? ?b] =>
      first [ rewrite (proj2 (Z.ltb_lt a b)) by zlia | rewrite (proj2 (Z.ltb_ge a b)) by zlia ]
  | |- context [between ?a ?b ?c] =>
      first [ rewrite (between_true a b c) by zlia | rewrite (between_false a b c) by zlia ]
  end.

(** ** Decoding and encoding are inverse *)

Lemma DecodeRune_Encode r t : valid_rune r →
  DecodeRune (EncodeRune r ++ t) = (r, length (EncodeRune r)).
Proof.
  intros Hr. rewrite EncodeRune_arith by done. unfold valid_rune in Hr.
  destruct (Z.ltb_spec r 128); [|destruct (Z.ltb_spec r 2048);
    [|destruct (Z.ltb_spec r 65536)]]; cbn [app DecodeRune length].
  - by eval_ranges.
  - unfold cont. eval_ranges. rewrite decode2_arith. f_equal. zlia.
  - unfold cont, accept_lo, accept_hi.
    destruct (Z.eqb_spec (224 + r / 4096) 224), (Z.eqb_spec (224 + r / 4096) 240),
      (Z.eqb_spec (224 + r / 4096) 237), (Z.eqb_spec (224 + r / 4096) 244); try zlia;
    eval_ranges; cbn; rewrite decode3_arith; f_equal; zlia.
  - unfold cont, accept_lo, accept_hi.
    destruct (Z.eqb_spec (240 + r / 262144) 224), (Z.eqb_spec (240 + r / 262144) 240),
      (Z.eqb_spec (240 + r / 262144) 237), (Z.eqb_spec (240 + r / 262144) 244); try zlia;
    eval_ranges; cbn; rewrite decode4_arith; f_equal; zlia.
Qed.

Lemma DecodeRune_sound s r w : DecodeRune s = (r, w) → s ≠ [] →
  (r = RuneError → w ≠ 1%nat) →
  valid_rune r ∧ s = EncodeRune r ++ drop w s.
Proof.
  intros Hd Hne Hr. destruct s as [|b0 t]; [done|]. clear Hne. cbn [DecodeRune] in Hd.
  assert (∀ e, (RuneError, 1%nat) = (r, w) → e) as Hbad by (intros e [= <- <-]; destruct (Hr eq_refl eq_refl)).
  destruct (between 0 127 b0) eqn:E0; [apply between_spec in E0 | clear E0].
  { injection Hd as <- <-. unfold valid_rune. split; [lia|].
    rewrite EncodeRune_arith by (unfold valid_rune; lia). by eval_ranges. }
  destruct (between 194 223 b0) eqn:E1; [apply between_spec in E1 | clear E1].
  { destruct t as [|b1 t]; [by apply Hbad|]. unfold cont in Hd.
    destruct (between 128 191 b1) eqn:C1; [apply between_spec in C1|by apply Hbad].
    injection Hd as <- <-. rewrite decode2_arith.
    assert (valid_rune (b0 mod 32 * 64 + b1 mod 64)) as V by (unfold valid_rune; zlia).
    split; [done|]. rewrite EncodeRune_arith by done. eval_ranges. cbn.
    repeat (f_equal; try zlia). }
  destruct (between 224 239 b0) eqn:E2; [apply between_spec in E2 | clear E2].
  { destruct t as [|b1 [|b2 t]]; [by apply Hbad..|]. unfold cont in Hd.
    destruct (between (accept_lo b0) (accept_hi b0) b1) eqn:C1; [|by apply Hbad].
    destruct (between 128 191 b2) eqn:C2; [|by apply Hbad].
    apply between_spec in C1, C2. cbn in Hd. injection Hd as <- <-. rewrite decode3_arith.
    unfold accept_lo, accept_hi in C1.
    assert (valid_rune (b0 mod 16 * 4096 + b1 mod 64 * 64 + b2 mod 64) ∧
            2048 ≤ b0 mod 16 * 4096 + b1 mod 64 * 64 + b2 mod 64 < 65536) as [V B].
    { unfold valid_rune. repeat case_match; b2p; zlia. }
    split; [done|]. rewrite EncodeRune_arith by done.
    assert (128 ≤ b1 ≤ 191) by (repeat case_match; b2p; lia). clear C1 V.
    eval_ranges. cbn. repeat (f_equal; try zlia). }
  destruct (between 240 244 b0) eqn:E3; [apply between_spec in E3 | by apply Hbad].
  destruct t as [|b1 [|b2 [|b3 t]]]; [by apply Hbad..|]. unfold cont in Hd.
  destruct (between (accept_lo b0) (accept_hi b0) b1) eqn:C1; [|by apply Hbad].
  destruct (between 128 191 b2) eqn:C2; [|by apply Hbad].
  destruct (between 128 191 b3) eqn:C3; [|by apply Hbad].
  apply between_spec in C1, C2, C3. cbn in Hd. injection Hd as <- <-. rewrite decode4_arith.
  unfold accept_lo, accept_hi in C1.
  assert (valid_rune (b0 mod 8 * 262144 + b1 mod 64 * 4096 + b2 mod 64 * 64 + b3 mod 64) ∧
          65536 ≤ b0 mod 8 * 262144 + b1 mod 64 * 4096 + b2 mod 64 * 64 + b3 mod 64) as [V B].
  { unfold valid_rune. repeat case_match; b2p; zlia. }
  split; [done|]. rewrite EncodeRune_arith by done.
  assert (128 ≤ b1 ≤ 191) by (repeat case_match; b2p; lia). clear C1 V.
  eval_ranges. cbn. repeat (f_equal; try zlia).
Qed.

Lemma EncodeRune_cons r : ∃ b t, EncodeRune r = b :: t.
Proof. unfold EncodeRune. repeat case_match; eauto. Qed.

Lemma EncodeRune_valid r : ∃ r', valid_rune r' ∧ EncodeRune r = EncodeRune r'.
Proof.
  destruct (decide (valid_rune r)); [by exists r|].
  exists RuneError. split; [unfold valid_rune, RuneError; lia|].
  unfold EncodeRune. rewrite bool_decide_false by done. done.
Qed.

Lemma decode_from_skip k s : decode_from k s = decode_from 0 (drop k s).
Proof. revert k; induction s as [|b t IH]; intros [|k]; cbn [drop]; try done. cbn. apply IH. Qed.

Lemma DecodeRune_width s : s ≠ [] → (1 ≤ (DecodeRune s).2)%nat.
Proof. destruct s; [done|]. intros _. unfold DecodeRune. repeat case_match; cbn; lia. Qed.

Lemma decoded_cons s : s ≠ [] →
  decoded s = DecodeRune s :: decoded (drop (DecodeRune s).2 s).
Proof.
  intros Hne. pose proof (DecodeRune_width s Hne) as Hw.
  unfold decoded. destruct s as [|b t]; [done|]. cbn [decode_from]. f_equal.
  rewrite decode_from_skip. destruct ((DecodeRune (b :: t)).2); [lia|done].
Qed.

Lemma decoded_Encode r t : valid_rune r →
  decoded (EncodeRune r ++ t) = (r, length (EncodeRune r)) :: decoded t.
Proof.
  intros Hr. rewrite decoded_cons.
  - rewrite DecodeRune_Encode by done. cbn [snd]. by rewrite drop_app_length.
  - destruct (EncodeRune_cons r) as (b & u & ->). done.
Qed.

Lemma decoded_encode_runes rs : Forall valid_rune rs →
  decoded (encode_runes rs) = (λ r, (r, length (EncodeRune r))) <$> rs.
Proof.
  induction 1 as [|r rs Hr _ IH]; [done|].
  unfold encode_runes in *. cbn [fmap list_fmap concat]. by rewrite decoded_Encode, IH.
Qed.

Lemma runes_encode rs : Forall valid_rune rs → runes (encode_runes rs) = rs.
Proof.
  intros H. unfold runes. rewrite decoded_encode_runes by done.
  rewrite <- list_fmap_compose. by rewrite (list_fmap_id rs) at 1.
Qed.

Lemma Valid_encode rs : Forall valid_rune rs → Valid (encode_runes rs) = true.
Proof.
  intros H. unfold Valid. rewrite decoded_encode_runes by done.
  induction H as [|r rs Hr _ IH]; [done|]. cbn. rewrite IH, andb_true_r.
  destruct (Z.eqb_spec r RuneError) as [->|]; [|done].
  cbv [RuneError]. by rewrite EncodeRune_arith.
Qed.

Lemma Valid_runes s : Valid s = true → Forall valid_rune (runes s) ∧ encode_runes (runes s) = s.
Proof.
  induction s as [s IH] using (induction_ltof1 _ length); unfold ltof in IH.
  destruct (decide (s = [])) as [->|Hne]; [done|].
  unfold Valid, runes. rewrite decoded_cons by done.
  pose proof (DecodeRune_width s Hne). destruct (DecodeRune s) as [r w] eqn:Hd. cbn.
  intros [Hrw Hrest]%andb_true_iff.
  apply DecodeRune_sound in Hd as [Hr Hs]; [|done|].
  2:{ intros -> ->. by cbn in Hrw. }
  cbn in H.
  destruct (IH (drop w s)) as [IH1 IH2]; [|done|].
  { rewrite length_drop. destruct s; [done|cbn; lia]. }
  split; [by constructor|]. unfold encode_runes. cbn. rewrite Hs at 2. f_equal. exact IH2.
Qed.

(** A string is valid UTF-8 exactly when it encodes a sequence of valid runes. *)
Lemma Valid_iff s : Valid s = true ↔ ∃ rs, Forall valid_rune rs ∧ s = encode_runes rs.
Proof.
  split.
  - intros [H1 H2]%Valid_runes. by exists (runes s).
  - intros (rs & H & ->). by apply Valid_encode.
Qed.

Lemma encode_runes_app a b : encode_runes (a ++ b) = encode_runes a ++ encode_runes b.
Proof. unfold encode_runes. by rewrite fmap_app, concat_app. Qed.

Lemma Valid_app a b : Valid a = true → Valid b = true → Valid (a ++ b) = true.
Proof.
  rewrite !Valid_iff. intros (ra & Ha & ->) (rb & Hb & ->).
  exists (ra ++ rb). by rewrite encode_runes_app, Forall_app.
Qed.

Lemma EncodeRune_ascii c : 0 ≤ c < 128 → EncodeRune c = [c].
Proof. intros. rewrite EncodeRune_arith by (unfold valid_rune; lia). by eval_ranges. Qed.

Lemma Valid_ascii s : Forall (λ c, 0 ≤ c < 128) s → Valid s = true.
Proof.
  intros H. apply Valid_iff. exists s. induction H as [|c s Hc Hs [IH1 IH2]]; [done|].
  split; [constructor; [unfold valid_rune; lia|done]|].
  unfold encode_runes in *. cbn. rewrite EncodeRune_ascii by done. cbn. congruence.
Qed.

Lemma Valid_EncodeRune r : Valid (EncodeRune r) = true.
Proof.
  destruct (EncodeRune_valid r) as (r' & Hr & ->). apply Valid_iff. exists [r'].
  split; [constructor; [done|constructor]|].
  unfold encode_runes. cbn. by rewrite app_nil_r.
Qed.

Lemma Valid_bytes s : Valid s = true → Forall is_byte s.
Proof.
  intros (rs & Hrs & ->)%Valid_iff. induction Hrs as [|r rs Hr _ IH]; [constructor|].
  unfold encode_runes in *. cbn. apply Forall_app. split; [|done].
  rewrite EncodeRune_arith by done. unfold valid_rune in Hr.
  repeat case_match; b2p; repeat constructor; zlia.
Qed.
