(* ===== verification/GoJson.v ===== *)
(** * The parts of Go's [encoding/json] the sources use

    [json.Decoder] as the token machine behind [Token] and [More], the string
    unquoting and number scanning under it, and the string encoder behind
    [json.Marshal] and [Encoder.Encode].  The decoder's limit of 10000 nesting
    levels is not modelled. *)

From S2P Require Import Prelude Utf8.

(** ** Lexical level *)

Definition is_space (c : Z) : bool := (c =? 32) || (c =? 9) || (c =? 10) || (c =? 13).

Fixpoint skip_space (s : bytes) : bytes :=
  match s with
  | [] => []
  | c :: t => if is_space c then skip_space t else s
  end.

Definition hex_value (b : Z) : option Z :=
  if between 48 57 b then Some (b - 48)
  else if between 97 102 b then Some (b - 97 + 10)
  else if between 65 70 b then Some (b - 65 + 10)
  else None.

Definition hex4 (h1 h2 h3 h4 : Z) : option Z :=
  match hex_value h1, hex_value h2, hex_value h3, hex_value h4 with
  | Some a, Some b, Some c, Some d => Some (((a * 16 + b) * 16 + c) * 16 + d)
  | _, _, _, _ => None
  end.

Definition is_surrogate (r : Z) : bool := between 55296 57343 r.

(** The second half [\uXXXX] of a surrogate pair at the head of [s]: the rune
    [utf16.DecodeRune] combines, and what follows it. *)
Definition surrogate_pair (hi : Z) (s : bytes) : option (Z * bytes) :=
  match s with
  | c :: e :: h1 :: h2 :: h3 :: h4 :: t =>
    if (c =? 92) && (e =? 117) then
      match hex4 h1 h2 h3 h4 with
      | Some lo => if between 55296 56319 hi && between 56320 57343 lo
                   then Some ((hi - 55296) * 1024 + (lo - 56320) + 65536, t) else None
      | None => None
      end
    else None
  | _ => None
  end.

Definition simple_escape (e : Z) : option Z :=
  if e =? 34 then Some 34 else if e =? 92 then Some 92 else if e =? 47 then Some 47
  else if e =? 98 then Some 8 else if e =? 102 then Some 12 else if e =? 110 then Some 10
  else if e =? 114 then Some 13 else if e =? 116 then Some 9 else None.

Definition push_str (x : bytes) (r : option (bytes * bytes)) : option (bytes * bytes) :=
  match r with Some (a, t) => Some (x ++ a, t) | None => None end.

(** The body of a string literal after its opening quote: its value and what
    follows the closing quote.  Invalid UTF-8 and unpaired surrogates become
    [RuneError], as [unquote] makes them; a raw control character, an unknown
    escape or a missing closing quote is a syntax error. *)
Fixpoint unquote (fuel : nat) (s : bytes) : option (bytes * bytes) :=
  match fuel with
  | O => None
  | S f =>
    match s with
    | [] => None
    | c :: t =>
      if c =? 34 then Some ([], t)
      else if c =? 92 then
        match t with
        | [] => None
        | e :: t1 =>
          if e =? 117 then
            match t1 with
            | h1 :: h2 :: h3 :: h4 :: t2 =>
              match hex4 h1 h2 h3 h4 with
              | Some rr =>
                if is_surrogate rr then
                  match surrogate_pair rr t2 with
                  | Some (r, t3) => push_str (EncodeRune r) (unquote f t3)
                  | None => push_str (EncodeRune RuneError) (unquote f t2)
                  end
                else push_str (EncodeRune rr) (unquote f t2)
              | None => None
              end
            | _ => None
            end
          else
            match simple_escape e with
            | Some b => push_str [b] (unquote f t1)
            | None => None
            end
        end
      else if c <? 32 then None
      else push_str (EncodeRune (DecodeRune s).1) (unquote f (drop (DecodeRune s).2 s))
    end
  end.

Definition lex_string (s : bytes) : option (bytes * bytes) := unquote (S (length s)) s.

Fixpoint digits (s : bytes) : bytes * bytes :=
  match s with
  | c :: t => if is_digit c then let '(d, r) := digits t in (c :: d, r) else ([], s)
  | [] => ([], [])
  end.

Definition lex_int (s : bytes) : option (bytes * bytes) :=
  match s with
  | c :: t => if c =? 48 then Some ([c], t)
              else if between 49 57 c then Some (digits s) else None
  | [] => None
  end.

Definition lex_frac (s : bytes) : option (bytes * bytes) :=
  match s with
  | c :: t => if c =? 46 then
                match digits t with ([], _) => None | (d, r) => Some (c :: d, r) end
              else Some ([], s)
  | [] => Some ([], s)
  end.

Definition lex_exp (s : bytes) : option (bytes * bytes) :=
  match s with
  | c :: t =>
    if (c =? 101) || (c =? 69) then
      let '(sign, t1) := match t with
                         | g :: t' => if (g =? 43) || (g =? 45) then ([g], t') else ([], t)
                         | [] => ([], t) end in
      match digits t1 with ([], _) => None | (d, r) => Some (c :: sign ++ d, r) end
    else Some ([], s)
  | [] => Some ([], s)
  end.

(** A JSON number, scanned as far as the grammar goes. *)
Definition lex_number (s : bytes) : option (bytes * bytes) :=
  let '(sign, s0) := match s with
                     | c :: t => if c =? 45 then ([c], t) else ([], s)
                     | [] => ([], s) end in
  match lex_int s0 with
  | Some (i, s1) =>
    match lex_frac s1 with
    | Some (fr, s2) =>
      match lex_exp s2 with
      | Some (e, s3) => Some (sign ++ i ++ fr ++ e, s3)
      | None => None
      end
    | None => None
    end
  | None => None
  end.

(** [s] after the literal [lit], if it starts with it. *)
Fixpoint strip (lit s : bytes) : option bytes :=
  match lit, s with
  | [], _ => Some s
  | a :: lit', c :: s' => if c =? a then strip lit' s' else None
  | _, [] => None
  end.

(** ** [json.Decoder]: [Token] and [More] *)

Inductive token :=
| TDelim (c : Z)
| TString (s : bytes)
| TNumber (s : bytes)
| TBool (b : bool)
| TNull.

Inductive tstate :=
| TopValue | ArrayStart | ArrayValue | ArrayComma
| ObjectStart | ObjectKey | ObjectColon | ObjectValue | ObjectComma.

Inductive jerr := JEof | JSyntax.

Record decoder := Dec { d_rest : bytes; d_state : tstate; d_stack : list tstate }.

Definition NewDecoder (s : bytes) : decoder := Dec s TopValue [].

Definition tokenValueAllowed (st : tstate) : bool :=
  match st with TopValue | ArrayStart | ArrayValue | ObjectValue => true | _ => false end.

Definition tokenValueEnd (st : tstate) : tstate :=
  match st with
  | ArrayStart | ArrayValue => ArrayComma
  | ObjectValue => ObjectComma
  | _ => st
  end.

(** A scalar value at the head of [c :: t]. *)
Definition lex_scalar (c : Z) (t : bytes) : option (token * bytes) :=
  if c =? 34 then match lex_string t with Some (s, r) => Some (TString s, r) | None => None end
  else if (c =? 45) || is_digit c then
    match lex_number (c :: t) with Some (s, r) => Some (TNumber s, r) | None => None end
  else if c =? 116 then
    match strip [114; 117; 101] t with Some r => Some (TBool true, r) | None => None end
  else if c =? 102 then
    match strip [97; 108; 115; 101] t with Some r => Some (TBool false, r) | None => None end
  else if c =? 110 then
    match strip [117; 108; 108] t with Some r => Some (TNull, r) | None => None end
  else None.

(** The loop of [Token]: white space, and the [,] and [:] the state calls for,
    are stepped over. *)
Fixpoint token_loop (s : bytes) (st : tstate) (stk : list tstate) : result jerr (token * decoder) :=
  match s with
  | [] => Err JEof
  | c :: t =>
    if is_space c then token_loop t st stk
    else if c =? 91 then
      if tokenValueAllowed st then Ok (TDelim c, Dec t ArrayStart (st :: stk)) else Err JSyntax
    else if c =? 93 then
      match st, stk with
      | (ArrayStart | ArrayComma), outer :: stk' => Ok (TDelim c, Dec t (tokenValueEnd outer) stk')
      | _, _ => Err JSyntax
      end
    else if c =? 123 then
      if tokenValueAllowed st then Ok (TDelim c, Dec t ObjectStart (st :: stk)) else Err JSyntax
    else if c =? 125 then
      match st, stk with
      | (ObjectStart | ObjectComma), outer :: stk' => Ok (TDelim c, Dec t (tokenValueEnd outer) stk')
      | _, _ => Err JSyntax
      end
    else if c =? 58 then
      match st with ObjectColon => token_loop t ObjectValue stk | _ => Err JSyntax end
    else if c =? 44 then
      match st with
      | ArrayComma => token_loop t ArrayValue stk
      | ObjectComma => token_loop t ObjectKey stk
      | _ => Err JSyntax
      end
    else
      match st, c =? 34 with
      | (ObjectStart | ObjectKey), true =>
        match lex_string t with
        | Some (k, r) => Ok (TString k, Dec r ObjectColon stk)
        | None => Err JSyntax
        end
      | _, _ =>
        if tokenValueAllowed st then
          match lex_scalar c t with
          | Some (tok, r) => Ok (tok, Dec r (tokenValueEnd st) stk)
          | None => Err JSyntax
          end
        else Err JSyntax
      end
  end.

Definition Token (d : decoder) : result jerr (token * decoder) :=
  token_loop (d_rest d) (d_state d) (d_stack d).

(** [More]: is there another element before the closing delimiter? *)
Definition More (d : decoder) : bool :=
  match skip_space (d_rest d) with
  | [] => false
  | c :: _ => negb (c =? 93) && negb (c =? 125)
  end.

(** ** The string encoder *)

Definition u_escape (r : Z) : bytes :=
  [92; 117; hex_digit (r / 4096 mod 16); hex_digit (r / 256 mod 16);
   hex_digit (r / 16 mod 16); hex_digit (r mod 16)].

Definition short_escape (r : Z) : option Z :=
  if r =? 34 then Some 34 else if r =? 92 then Some 92
  else if r =? 8 then Some 98 else if r =? 12 then Some 102 else if r =? 10 then Some 110
  else if r =? 13 then Some 114 else if r =? 9 then Some 116 else None.

(** One rune of [appendString]; [html] is [SetEscapeHTML]. *)
Definition escape_rune (html : bool) (rw : Z * nat) : bytes :=
  let '(r, w) := rw in
  match short_escape r with
  | Some e => [92; e]
  | None =>
    if r <? 32 then u_escape r
    else if html && ((r =? 60) || (r =? 62) || (r =? 38)) then u_escape r
    else if (r =? RuneError) && (w =? 1)%nat then u_escape RuneError
    else if (r =? 8232) || (r =? 8233) then u_escape r
    else EncodeRune r
  end.

(** A Go string as JSON text, quotes included. *)
Definition json_string (html : bool) (s : bytes) : bytes :=
  34 :: concat (escape_rune html <$> decoded s) ++ [34].

(** ** White space and fuel *)

Lemma push_str_app x y r : push_str (x ++ y) r = push_str x (push_str y r).
Proof. destruct r as [[]|]; cbn; by rewrite ?app_assoc. Qed.

Lemma push_str_Some x r a t : push_str x r = Some (a, t) → ∃ b, r = Some (b, t) ∧ a = x ++ b.
Proof. destruct r as [[]|]; cbn; naive_solver. Qed.

Lemma is_space_false c : c ≠ 32 → c ≠ 9 → c ≠ 10 → c ≠ 13 → is_space c = false.
Proof. intros. unfold is_space. rewrite !orb_false_iff, !Z.eqb_neq. tauto. Qed.

Lemma hex_value_digit n : 0 ≤ n < 16 → hex_value (hex_digit n) = Some n.
Proof.
  intros. unfold hex_value, hex_digit. destruct (Z.ltb_spec n 10); eval_ranges; f_equal; lia.
Qed.

Lemma hex4_u_escape r : 0 ≤ r < 65536 →
  hex4 (hex_digit (r / 4096 mod 16)) (hex_digit (r / 256 mod 16))
       (hex_digit (r / 16 mod 16)) (hex_digit (r mod 16)) = Some r.
Proof. intros. unfold hex4. rewrite !hex_value_digit by zlia. f_equal. zlia. Qed.

(** ** Strings: what is quoted unquotes to the same value *)

(** [e] is a spelling of the rune [r] inside a string literal. *)
Definition spells (e : bytes) (r : Z) : Prop :=
  e ≠ [] ∧ ∀ f t, unquote (S f) (e ++ t) = push_str (EncodeRune r) (unquote f t).

Lemma spells_u_escape r : 0 ≤ r < 65536 → is_surrogate r = false → spells (u_escape r) r.
Proof.
  intros Hr Hs. split; [done|]. intros f t. unfold u_escape.
  cbn -[hex4 Z.div Z.modulo hex_digit]. by rewrite hex4_u_escape, Hs.
Qed.

Lemma spells_short r e : short_escape r = Some e → spells [92; e] r.
Proof.
  intros H. split; [done|]. intros f t.
  unfold short_escape in H. cbn [app].
  repeat match type of H with
  | (if ?a =? ?b then _ else _) = _ => destruct (Z.eqb_spec a b) as [->|];
      [injection H as <-; reflexivity|]
  end; discriminate.
Qed.

Lemma EncodeRune_head r : valid_rune r → 128 ≤ r → ∃ b t, EncodeRune r = b :: t ∧ 128 ≤ b.
Proof.
  intros Hr H. rewrite EncodeRune_arith by done. unfold valid_rune in Hr.
  repeat case_match; b2p; try lia; eexists _, _; (split; [done|zlia]).
Qed.

Lemma spells_raw r : valid_rune r → 32 ≤ r → r ≠ 34 → r ≠ 92 → spells (EncodeRune r) r.
Proof.
  intros Hr H1 H2 H3. destruct (EncodeRune_cons r) as (b & u & E).
  split; [by rewrite E|]. intros f t.
  assert (32 ≤ b ∧ b ≠ 34 ∧ b ≠ 92) as (B1 & B2 & B3).
  { destruct (Z.lt_ge_cases r 128).
    - rewrite EncodeRune_ascii in E by lia. injection E as <- <-. done.
    - destruct (EncodeRune_head r) as (b' & u' & E' & ?); [done..|].
      rewrite E in E'. injection E' as <- <-. lia. }
  pose proof (DecodeRune_Encode r t Hr) as Hd. rewrite E in Hd |- *. cbn [app] in Hd |- *.
  cbn [unquote]. destruct (Z.eqb_spec b 34); [lia|]. destruct (Z.eqb_spec b 92); [lia|].
  destruct (Z.ltb_spec b 32); [lia|]. rewrite Hd. cbn [fst snd length].
  f_equal; [congruence|]. f_equal. exact (drop_app_length (b :: u) t).
Qed.

Lemma unquote_spelled n es rs rest : Forall2 spells es rs → (length es < n)%nat →
  unquote n (concat es ++ 34 :: rest) = Some (encode_runes rs, rest).
Proof.
  intros H. revert n. induction H as [|e r es rs [He1 He] H IH]; intros n Hn.
  - destruct n; [lia|]. done.
  - cbn [concat length] in *. destruct n as [|n]; [lia|].
    rewrite <- app_assoc, He, IH by lia. done.
Qed.

Lemma concat_length_ge {A} (es : list (list A)) :
  Forall (λ e, e ≠ []) es → (length es ≤ length (concat es))%nat.
Proof.
  induction 1 as [|e es He _ IH]; [done|]. cbn. rewrite length_app. destruct e; [done|cbn; lia].
Qed.

Lemma lex_string_spelled es rs rest : Forall2 spells es rs →
  lex_string (concat es ++ 34 :: rest) = Some (encode_runes rs, rest).
Proof.
  intros H. apply unquote_spelled; [done|].
  rewrite length_app. cbn.
  assert (length es ≤ length (concat es))%nat; [|lia].
  apply concat_length_ge. clear rest. induction H as [|? ? ? ? []]; by constructor.
Qed.

Lemma spells_escape_rune html r : valid_rune r →
  spells (escape_rune html (r, length (EncodeRune r))) r.
Proof.
  intros Hr. pose proof Hr as Hr'. unfold valid_rune in Hr'. unfold escape_rune.
  destruct (short_escape r) as [e|] eqn:Hs; [by apply spells_short|].
  assert (r ≠ 34 ∧ r ≠ 92) as [? ?].
  { split; intros ->; discriminate Hs. }
  assert (∀ b, r < b → b ≤ 55296 → spells (u_escape r) r).
  { intros b ? ?. apply spells_u_escape; [lia|]. unfold is_surrogate. by eval_ranges. }
  destruct (Z.ltb_spec r 32); [eauto with lia|].
  destruct (html && _) eqn:E.
  { apply andb_true_iff in E as [_ E]. rewrite !orb_true_iff, !Z.eqb_eq in E.
    apply (H1 64); lia. }
  clear E. destruct ((r =? RuneError) && _) eqn:E; [b2p; subst; by apply spells_u_escape|].
  clear E. destruct ((r =? 8232) || (r =? 8233)) eqn:E.
  { rewrite !orb_true_iff, !Z.eqb_eq in E. apply (H1 9000); lia. }
  by apply spells_raw.
Qed.

Lemma spells_escapes html rs : Forall valid_rune rs →
  Forall2 spells (escape_rune html <$> ((λ r, (r, length (EncodeRune r))) <$> rs)) rs.
Proof.
  induction 1; [constructor|]. rewrite !fmap_cons.
  constructor; [by apply spells_escape_rune|done].
Qed.

(** Reading back a string the encoder wrote. *)
Lemma lex_json_string html s rest : Valid s = true →
  lex_string (concat (escape_rune html <$> decoded s) ++ 34 :: rest) = Some (s, rest).
Proof.
  intros (rs & Hrs & ->)%Valid_iff. rewrite decoded_encode_runes by done.
  apply lex_string_spelled. by apply spells_escapes.
Qed.

(** Every string the decoder yields is valid UTF-8, and consumes its literal. *)
Lemma unquote_valid n s a t : unquote n s = Some (a, t) →
  Valid a = true ∧ (length t < length s)%nat.
Proof.
  revert s a. induction n as [|n IH]; intros s a; [done|]. cbn [unquote].
  assert (Hstep : ∀ x s' a, Valid x = true → push_str x (unquote n s') = Some (a, t) →
            Valid a = true ∧ (length t < length s')%nat).
  { intros x s' a' Hx (b & Hb & ->)%push_str_Some. apply IH in Hb as []. by rewrite Valid_app. }
  destruct s as [|c s]; [done|]. destruct (c =? 34); [intros [= <- <-]; cbn; auto with lia|].
  destruct (c =? 92).
  - destruct s as [|e s]; [done|]. destruct (e =? 117).
    + destruct s as [|h1 [|h2 [|h3 [|h4 s]]]]; try done.
      destruct (hex4 h1 h2 h3 h4); [|done]. destruct (is_surrogate z).
      * destruct (surrogate_pair z s) as [[r s']|] eqn:Hp.
        -- intros H. apply Hstep in H as [? ?]; [|by apply Valid_EncodeRune]. split; [done|].
           unfold surrogate_pair in Hp. repeat case_match; simplify_eq. cbn in *. lia.
        -- intros H. apply Hstep in H as [? ?]; [|by apply Valid_EncodeRune]. split; [done|]. cbn in *. lia.
      * intros H. apply Hstep in H as [? ?]; [|by apply Valid_EncodeRune]. split; [done|]. cbn in *. lia.
    + destruct (simple_escape e) eqn:He; [|done].
      intros H. apply Hstep in H as [? ?]; [split; [done|cbn in *; lia]|].
      apply Valid_ascii. unfold simple_escape in He. repeat case_match; simplify_eq;
        (constructor; [lia|constructor]).
  - destruct (c <? 32); [done|].
    intros H. apply Hstep in H as [? ?]; [|by apply Valid_EncodeRune]. split; [done|].
    rewrite length_drop in *. cbn in *. lia.
Qed.

Lemma lex_string_valid s a t : lex_string s = Some (a, t) → Valid a = true ∧ (length t < length s)%nat.
Proof. apply unquote_valid. Qed.
