(* ===== verification/CanonicalJson.v ===== *)
(** * internal/canonicaljson: AIII-CANONICAL-JSON-V1

    [CanonicalizeV1] of canonical_json.go over the token machine of [GoJson]:
    the UTF-8 and escape checks, the recursive descent with its refusals
    (duplicate keys, NUL, non-canonical numbers), the number grammar, and the
    emitter with its sorted keys and minimal escapes. *)

From S2P Require Import Prelude Utf8 GoJson.

(** ** Data *)

Unset Elimination Schemes.
(** What [parseCanonicalJSONValue] returns: [nil], [bool], [canonicalNumber],
    [string], [[]any] and [map[string]any].  A map is its members in the order
    they were read; the parser refuses a repeated key. *)
Inductive json :=
| JNull
| JBool (b : bool)
| JNum (s : bytes)
| JStr (s : bytes)
| JArr (l : list json)
| JObj (m : list (bytes * json)).
Set Elimination Schemes.

Section json_ind.
Variable P : json → Prop.
Hypothesis Hnull : P JNull.
Hypothesis Hbool : ∀ b, P (JBool b).
Hypothesis Hnum : ∀ s, P (JNum s).
Hypothesis Hstr : ∀ s, P (JStr s).
Hypothesis Harr : ∀ l, Forall P l → P (JArr l).
Hypothesis Hobj : ∀ m, Forall (λ kv, P kv.2) m → P (JObj m).

Fixpoint json_ind (v : json) : P v :=
  match v with
  | JNull => Hnull
  | JBool b => Hbool b
  | JNum s => Hnum s
  | JStr s => Hstr s
  | JArr l => Harr l ((fix go (l : list json) : Forall P l := match l with
                       | [] => Forall_nil_2 _
                       | x :: l' => Forall_cons_2 _ _ _ (json_ind x) (go l') end) l)
  | JObj m => Hobj m ((fix go (m : list (bytes * json)) : Forall (λ kv, P kv.2) m := match m with
                       | [] => Forall_nil_2 _
                       | kv :: m' => Forall_cons_2 (λ kv, P kv.2) kv m' (json_ind kv.2) (go m') end) m)
  end.
End json_ind.

(** The refusals, all wrapping [ErrCanonicalJSONInvalid]. *)
Inductive canon_err :=
| CNotUTF8
| CBadEscape
| CToken (e : jerr)
| CKeyNotString
| CDuplicateKey (k : bytes)
| CClosedBy
| CUnexpectedDelim (c : Z)
| CNul
| CNonCanonicalNumber (s : bytes)
| CExtraToken
| CFuel.

(** ** Numbers *)

Definition isJSONDigit (b : Z) : bool := (48 <=? b) && (b <=? 57).

Definition contains_any (chars s : bytes) : bool := existsb (λ c, existsb (Z.eqb c) chars) s.

(** The digits at the head of [s] and the rest: the [for] loops over
    [isJSONDigit]. *)
Fixpoint json_digits (s : bytes) : bytes * bytes :=
  match s with
  | c :: t => if isJSONDigit c then let '(d, r) := json_digits t in (c :: d, r) else ([], s)
  | [] => ([], [])
  end.

(** From the end of the integer part on. *)
Definition number_tail (negative : bool) (intPart rest : bytes) : bool :=
  match rest with
  | [] => negb (negative && beq intPart [48])
  | c :: t =>
    if c =? 46 then
      match json_digits t with
      | ([], _) => false
      | (frac, rest') => negb (default 0 (last frac) =? 48) && beq rest' []
      end
    else false
  end.

Definition canonicalJSONNumber (s : bytes) : bool :=
  if beq s [] || contains_any [101; 69; 43] s then false
  else
    let '(negative, s1) := match s with
                           | c :: t => if c =? 45 then (true, t) else (false, s)
                           | [] => (false, s) end in
    match s1 with
    | [] => false
    | c :: t =>
      if c =? 48 then
        match t with
        | d :: _ => if isJSONDigit d then false else number_tail negative [c] t
        | [] => number_tail negative [c] t
        end
      else if (49 <=? c) && (c <=? 57) then
        let '(intPart, rest) := json_digits s1 in number_tail negative intPart rest
      else false
    end.

(** ** Escapes *)

Definition jsonHexValue (b : Z) : option Z :=
  if (48 <=? b) && (b <=? 57) then Some (b - 48)
  else if (97 <=? b) && (b <=? 102) then Some (b - 97 + 10)
  else if (65 <=? b) && (b <=? 70) then Some (b - 65 + 10)
  else None.

(** The loop of [parseJSONU16] over the bytes at [offset]. *)
Fixpoint u16_loop (n : nat) (value : Z) (s : bytes) : option Z :=
  match n with
  | O => Some value
  | S n' =>
    match s with
    | [] => None
    | b :: t =>
      match jsonHexValue b with
      | Some nibble => u16_loop n' (Z.lor (Z.shiftl value 4) nibble) t
      | None => None
      end
    end
  end.

(** [parseJSONU16(input, offset)]; [s] is [input[offset:]]. *)
Definition parseJSONU16 (s : bytes) : option Z := u16_loop 4 0 s.

(** [validateJSONUnicodeEscapes], from a position with its loop variables.
    The jumps [i += 4] and [i += 10] are the patterns stepped over. *)
Fixpoint validate_from (inString escaped : bool) (s : bytes) : bool :=
  match s with
  | [] => true
  | c :: t =>
    if negb inString then validate_from (c =? 34) escaped t
    else if escaped then
      if negb (c =? 117) then validate_from true false t
      else
        match parseJSONU16 t, t with
        | Some cp, _ :: _ :: _ :: _ :: t4 =>
          if (55296 <=? cp) && (cp <=? 56319) then
            match t4 with
            | b5 :: b6 :: ((_ :: _ :: _ :: _ :: t10) as t7) =>
              if (b5 =? 92) && (b6 =? 117) then
                match parseJSONU16 t7 with
                | Some low => if (low <? 56320) || (57343 <? low) then false
                              else validate_from true false t10
                | None => false
                end
              else false
            | _ => false
            end
          else if (56320 <=? cp) && (cp <=? 57343) then false
          else validate_from true false t4
        | _, _ => false
        end
    else if c =? 92 then validate_from true true t
    else validate_from (negb (c =? 34)) false t
  end.

Definition validateJSONUnicodeEscapes (s : bytes) : bool := validate_from false false s.

(** ** The parser *)

Definition has_key (k : bytes) (m : list (bytes * json)) : bool := existsb (λ kv, beq kv.1 k) m.

(** [parseCanonicalJSONValue] with the bodies of its two [for dec.More()] loops.
    Every call consumes at least one byte of the input, so the fuel
    [CanonicalizeV1] passes is never used up ([parse_never_out_of_fuel]). *)
Fixpoint parse_value (fuel : nat) (d : decoder) : result canon_err (json * decoder) :=
  match fuel with
  | O => Err CFuel
  | S f =>
    match Token d with
    | Err e => Err (CToken e)
    | Ok (TDelim c, d1) =>
      if c =? 123 then parse_members f d1 []
      else if c =? 91 then parse_elems f d1 []
      else Err (CUnexpectedDelim c)
    | Ok (TString s, d1) => if existsb (Z.eqb 0) s then Err CNul else Ok (JStr s, d1)
    | Ok (TBool b, d1) => Ok (JBool b, d1)
    | Ok (TNull, d1) => Ok (JNull, d1)
    | Ok (TNumber s, d1) =>
      if negb (canonicalJSONNumber s) then Err (CNonCanonicalNumber s) else Ok (JNum s, d1)
    end
  end
with parse_members (fuel : nat) (d : decoder) (obj : list (bytes * json)) : result canon_err (json * decoder) :=
  match fuel with
  | O => Err CFuel
  | S f =>
    if More d then
      match Token d with
      | Err e => Err (CToken e)
      | Ok (TString key, d1) =>
        if has_key key obj then Err (CDuplicateKey key)
        else
          match parse_value f d1 with
          | Err e => Err e
          | Ok (v, d2) => parse_members f d2 (obj ++ [(key, v)])
          end
      | Ok (_, _) => Err CKeyNotString
      end
    else
      match Token d with
      | Err e => Err (CToken e)
      | Ok (TDelim c, d1) => if c =? 125 then Ok (JObj obj, d1) else Err CClosedBy
      | Ok (_, _) => Err CClosedBy
      end
  end
with parse_elems (fuel : nat) (d : decoder) (arr : list json) : result canon_err (json * decoder) :=
  match fuel with
  | O => Err CFuel
  | S f =>
    if More d then
      match parse_value f d with
      | Err e => Err e
      | Ok (v, d1) => parse_elems f d1 (arr ++ [v])
      end
    else
      match Token d with
      | Err e => Err (CToken e)
      | Ok (TDelim c, d1) => if c =? 93 then Ok (JArr arr, d1) else Err CClosedBy
      | Ok (_, _) => Err CClosedBy
      end
  end.

Definition parseCanonicalJSONValue (d : decoder) : result canon_err (json * decoder) :=
  parse_value (2 * length (d_rest d) + 2) d.

(** ** The emitter *)

Definition emit_rune (r : Z) : bytes :=
  if r =? 34 then [92; 34]
  else if r =? 92 then [92; 92]
  else if r =? 8 then [92; 98]
  else if r =? 12 then [92; 102]
  else if r =? 10 then [92; 110]
  else if r =? 13 then [92; 114]
  else if r =? 9 then [92; 116]
  else if r <? 32 then u_escape r
  else EncodeRune r.

Definition emitCanonicalJSONString (s : bytes) : bytes :=
  34 :: concat (emit_rune <$> runes s) ++ [34].

(** Go's order on strings. *)
Fixpoint bytes_leb (a b : bytes) : bool :=
  match a, b with
  | [], _ => true
  | _ :: _, [] => false
  | x :: a', y :: b' => (x <? y) || ((x =? y) && bytes_leb a' b')
  end.

(** [sort.Strings] on the keys, each with what it maps to. *)
Fixpoint insert_key {A} (kv : bytes * A) (m : list (bytes * A)) : list (bytes * A) :=
  match m with
  | [] => [kv]
  | kv' :: m' => if bytes_leb kv.1 kv'.1 then kv :: m else kv' :: insert_key kv m'
  end.
Fixpoint sort_keys {A} (m : list (bytes * A)) : list (bytes * A) :=
  match m with [] => [] | kv :: m' => insert_key kv (sort_keys m') end.

(** The pieces with a comma written before every one but the first. *)
Fixpoint comma_join (l : list bytes) : bytes :=
  match l with
  | [] => []
  | [x] => x
  | x :: l' => x ++ 44 :: comma_join l'
  end.

Definition emit_member (kv : bytes * bytes) : bytes :=
  emitCanonicalJSONString kv.1 ++ 58 :: kv.2.

Fixpoint emitCanonicalJSONValue (v : json) : bytes :=
  match v with
  | JObj m =>
    123 :: comma_join (map emit_member (sort_keys (map (λ kv, (kv.1, emitCanonicalJSONValue kv.2)) m))) ++ [125]
  | JArr l => 91 :: comma_join (map emitCanonicalJSONValue l) ++ [93]
  | JStr s => emitCanonicalJSONString s
  | JNum s => s
  | JBool true => [116; 114; 117; 101]
  | JBool false => [102; 97; 108; 115; 101]
  | JNull => [110; 117; 108; 108]
  end.

(** ** The entry points *)

Definition CanonicalizeV1 (input : bytes) : result canon_err bytes :=
  if negb (Valid input) then Err CNotUTF8
  else if negb (validateJSONUnicodeEscapes input) then Err CBadEscape
  else
    match parseCanonicalJSONValue (NewDecoder input) with
    | Err e => Err e
    | Ok (v, d) =>
      match Token d with
      | Err JEof => Ok (emitCanonicalJSONValue v)
      | Err e => Err (CToken e)
      | Ok _ => Err CExtraToken
      end
    end.

Section Digest.
(** [sha256.Sum256]. *)
Variable sha256 : bytes → bytes.
Definition CanonicalizeV1SHA256 (input : bytes) : result canon_err bytes :=
  canonical ← CanonicalizeV1 input; mret (bs "sha256:" ++ hex_encode (sha256 canonical)).
End Digest.

Example canon_vector1 : CanonicalizeV1 (js "{ 'b':1, 'a':[2.5,{'z':null,'k':'A\u0041/<&'}] }")
  = Ok (js "{'a':[2.5,{'k':'AA/<&','z':null}],'b':1}").
Proof. vm_compute. reflexivity. Qed.
Example canon_vector2 : CanonicalizeV1 (js "{'a':1.50}") = Err (CNonCanonicalNumber (bs "1.50")).
Proof. vm_compute. reflexivity. Qed.
Example canon_vector3 : CanonicalizeV1 (js "['\ud83d\ude00']") = Ok (js "['" ++ [240; 159; 152; 128] ++ js "']").
Proof. vm_compute. reflexivity. Qed.
