(* ===== verification/CanonicalJsonFacts.v ===== *)
(** * Correctness of internal/canonicaljson

    The key order is a sort, the emitted text of a well-formed value parses
    back to that value with its keys sorted, every accepted document denotes a
    well-formed value, and the parser always has fuel left. *)

From S2P Require Import Prelude Utf8 GoJson CanonicalJson.

(** ** The key order *)

Lemma bytes_leb_refl a : bytes_leb a a = true.
Proof. induction a; cbn; [done|]. rewrite Z.eqb_refl, IHa. apply orb_true_r. Qed.

Lemma bytes_leb_total a b : bytes_leb a b = false → bytes_leb b a = true.
Proof.
  revert b. induction a as [|x a IH]; intros [|y b]; cbn; try done.
  rewrite orb_false_iff, andb_false_iff, orb_true_iff, andb_true_iff.
  intros [?%Z.ltb_ge H]. destruct (Z.eqb_spec x y) as [->|]; rewrite ?Z.ltb_lt, ?Z.eqb_eq.
  - right. split; [done|]. apply IH. by destruct H.
  - left. lia.
Qed.

Lemma bytes_leb_antisym a b : bytes_leb a b = true → bytes_leb b a = true → a = b.
Proof.
  revert b. induction a as [|x a IH]; intros [|y b]; cbn; try done.
  rewrite !orb_true_iff, !andb_true_iff, !Z.ltb_lt, !Z.eqb_eq.
  intros [?|[-> ?]] [?|[? ?]]; try lia. f_equal. auto.
Qed.

Lemma bytes_leb_trans a b c : bytes_leb a b = true → bytes_leb b c = true → bytes_leb a c = true.
Proof.
  revert b c. induction a as [|x a IH]; intros [|y b] [|z c]; cbn; try done.
  rewrite !orb_true_iff, !andb_true_iff, !Z.ltb_lt, !Z.eqb_eq.
  intros [?|[-> ?]] [?|[-> ?]]; try (left; lia). right. eauto.
Qed.

Definition key_le {A} (x y : bytes * A) : Prop := bytes_leb x.1 y.1 = true.
Definition key_sorted {A} (m : list (bytes * A)) : Prop := StronglySorted key_le m.

Section Sort.
Context {A B : Type}.
Implicit Types m : list (bytes * A).

Lemma insert_key_perm kv m : insert_key kv m ≡ₚ kv :: m.
Proof. induction m as [|kv' m IH]; cbn; [done|]. case_match; [done|]. rewrite IH. apply Permutation_swap. Qed.

Lemma sort_keys_perm m : sort_keys m ≡ₚ m.
Proof. induction m as [|kv m IH]; cbn; [done|]. by rewrite insert_key_perm, IH. Qed.

Lemma insert_key_sorted kv m : key_sorted m → key_sorted (insert_key kv m).
Proof.
  induction 1 as [|kv' m Hs IH Hle]; cbn; [by repeat constructor|].
  destruct (bytes_leb kv.1 kv'.1) eqn:E.
  - constructor; [by constructor|]. constructor; [done|].
    eapply Forall_impl; [exact Hle|]. intros x. by apply bytes_leb_trans.
  - constructor; [done|]. rewrite insert_key_perm. constructor; [|done].
    by apply bytes_leb_total.
Qed.

Lemma sort_keys_sorted m : key_sorted (sort_keys m).
Proof. induction m; cbn; [constructor|]. by apply insert_key_sorted. Qed.

Lemma insert_key_head kv m : Forall (key_le kv) m → insert_key kv m = kv :: m.
Proof. destruct 1 as [|kv' m H]; cbn; [done|]. by rewrite H. Qed.

Lemma sort_keys_id m : key_sorted m → sort_keys m = m.
Proof. induction 1 as [|kv m Hs IH Hle]; cbn; [done|]. by rewrite IH, insert_key_head. Qed.

Lemma insert_key_map (f : A → B) kv m :
  insert_key (kv.1, f kv.2) (map (λ kv, (kv.1, f kv.2)) m) =
  map (λ kv, (kv.1, f kv.2)) (insert_key kv m).
Proof. induction m as [|kv' m IH]; cbn; [done|]. case_match; cbn; [done|]. by rewrite IH. Qed.

Lemma sort_keys_map (f : A → B) m :
  sort_keys (map (λ kv, (kv.1, f kv.2)) m) = map (λ kv, (kv.1, f kv.2)) (sort_keys m).
Proof. induction m as [|kv m IH]; [done|]. cbn. by rewrite IH, <- insert_key_map. Qed.

(** With distinct keys there is one sorted arrangement. *)
Lemma key_sorted_unique m1 m2 : NoDup m1.*1 → m1 ≡ₚ m2 →
  key_sorted m1 → key_sorted m2 → m1 = m2.
Proof.
  intros Hnd Hp H1. revert m2 Hnd Hp. induction H1 as [|x m1 Hs IH Hle]; intros m2 Hnd Hp H2.
  - by apply Permutation_nil in Hp.
  - destruct H2 as [|y m2 Hs2 Hle2]; [symmetry in Hp; by apply Permutation_nil_cons in Hp|].
    apply NoDup_cons in Hnd as [Hx Hnd].
    assert (x = y) as <-.
    { assert (x ∈ y :: m2) as [->|Hx2]%elem_of_cons by (rewrite <- Hp; constructor); [done|].
      assert (y ∈ x :: m1) as [->|Hy1]%elem_of_cons by (rewrite Hp; constructor); [done|].
      exfalso. apply Hx. rewrite Forall_forall in Hle, Hle2.
      assert (x.1 = y.1) as -> by (apply bytes_leb_antisym; [by apply Hle|by apply Hle2]).
      by apply list_elem_of_fmap_2. }
    f_equal. apply Permutation_cons_inv in Hp. auto.
Qed.
End Sort.

(** ** Well-formed values and their sorted form *)

Fixpoint wf (v : json) : Prop :=
  match v with
  | JNull | JBool _ => True
  | JNum s => canonicalJSONNumber s = true
  | JStr s => Valid s = true ∧ existsb (Z.eqb 0) s = false
  | JArr l => foldr (λ v P, wf v ∧ P) True l
  | JObj m => NoDup m.*1 ∧ foldr (λ kv P, (Valid kv.1 = true ∧ wf kv.2) ∧ P) True m
  end.

Lemma foldr_and {A} (P : A → Prop) l : foldr (λ x Q, P x ∧ Q) True l ↔ Forall P l.
Proof. induction l; cbn; [by split|]. by rewrite Forall_cons, IHl. Qed.

Lemma wf_arr l : wf (JArr l) ↔ Forall wf l.
Proof. apply foldr_and. Qed.
Lemma wf_obj m : wf (JObj m) ↔ NoDup m.*1 ∧ Forall (λ kv, Valid kv.1 = true ∧ wf kv.2) m.
Proof. cbn. by rewrite (foldr_and (λ kv, Valid kv.1 = true ∧ wf kv.2)). Qed.

(** The value with every object's members in key order: the same JSON value,
    since members of an object are unordered. *)
Fixpoint sorted_form (v : json) : json :=
  match v with
  | JObj m => JObj (sort_keys (map (λ kv, (kv.1, sorted_form kv.2)) m))
  | JArr l => JArr (map sorted_form l)
  | _ => v
  end.

Abbreviation over_values f := (map (λ kv, (kv.1, f kv.2))).

Lemma sorted_form_obj m : sorted_form (JObj m) = JObj (over_values sorted_form (sort_keys m)).
Proof. cbn. by rewrite sort_keys_map. Qed.

Lemma emit_obj m : emitCanonicalJSONValue (JObj m) =
  123 :: comma_join (map (λ kv, emitCanonicalJSONString kv.1 ++ 58 :: emitCanonicalJSONValue kv.2)
                         (sort_keys m)) ++ [125].
Proof. cbn. rewrite sort_keys_map. do 3 f_equal. by rewrite map_map. Qed.

Lemma emit_sorted_form v : emitCanonicalJSONValue (sorted_form v) = emitCanonicalJSONValue v.
Proof.
  induction v as [| | | |l IH|m IH] using json_ind; try done.
  - cbn. do 3 f_equal. rewrite map_map. by apply map_ext_Forall.
  - rewrite sorted_form_obj, !emit_obj, sort_keys_map, map_map.
    rewrite (sort_keys_id (sort_keys m)) by apply sort_keys_sorted.
    do 3 f_equal. apply map_ext_Forall. rewrite sort_keys_perm.
    eapply Forall_impl; [exact IH|]. intros kv H. cbn. by rewrite H.
Qed.

(** ** Numbers: a canonical number is one number token *)

(** What may follow a value inside a document the emitter wrote. *)
Definition delim (rest : bytes) : Prop :=
  match rest with [] => True | c :: _ => c = 44 ∨ c = 93 ∨ c = 125 end.

Definition no_digit (s : bytes) : Prop :=
  match s with [] => True | c :: _ => is_digit c = false end.

Lemma delim_no_digit s : delim s → no_digit s.
Proof. destruct s; cbn; [done|]. by intros [->|[->| ->]]. Qed.

Lemma digits_app d s : Forall (λ c, is_digit c = true) d → no_digit s → digits (d ++ s) = (d, s).
Proof.
  intros Hd Hs. induction Hd as [|c d Hc _ IH]; cbn [app].
  - destruct s as [|c t]; cbn in *; [done|]. by rewrite Hs.
  - cbn [digits]. by rewrite Hc, IH.
Qed.

Lemma json_digits_spec s d r : json_digits s = (d, r) →
  s = d ++ r ∧ Forall (λ c, is_digit c = true) d ∧ no_digit r.
Proof.
  revert d r. induction s as [|c t IH]; cbn [json_digits]; [by intros ?? [= <- <-]|].
  intros d r. change (isJSONDigit c) with (is_digit c). destruct (is_digit c) eqn:Hc.
  - destruct (json_digits t) as [d' r'] eqn:E. intros [= <- <-].
    destruct (IH d' r' eq_refl) as (-> & ? & ?). repeat split; auto.
  - intros [= <- <-]. repeat split; auto.
Qed.

(** The fractional part, possibly absent, in lexical terms. *)
Definition frac_text (f : bytes) : Prop :=
  f = [] ∨ ∃ d, f = 46 :: d ∧ d ≠ [] ∧ Forall (λ c, is_digit c = true) d.

Lemma number_tail_frac neg ip rest : number_tail neg ip rest = true → frac_text rest.
Proof.
  unfold number_tail. destruct rest as [|c t]; [by left|].
  destruct (Z.eqb_spec c 46) as [->|]; [|done].
  destruct (json_digits t) as [d r] eqn:E. apply json_digits_spec in E as (-> & Hd & _).
  destruct d as [|x d]; [done|]. intros H. b2p. subst. right.
  exists (x :: d). rewrite app_nil_r. done.
Qed.

Lemma frac_text_no_digit f s : frac_text f → no_digit s → no_digit (f ++ s).
Proof. by intros [->|(d & -> & _)]. Qed.

Lemma lex_frac_text f s : frac_text f → delim s → lex_frac (f ++ s) = Some (f, s).
Proof.
  intros [->|(d & -> & Hne & Hd)] Hs; cbn [app lex_frac].
  - destruct s as [|c t]; cbn; [done|]. by destruct Hs as [->|[->| ->]].
  - rewrite Z.eqb_refl, digits_app by auto using delim_no_digit. by destruct d.
Qed.

Lemma lex_exp_delim s : delim s → lex_exp s = Some ([], s).
Proof. destruct s as [|c t]; cbn; [done|]. by intros [->|[->| ->]]. Qed.

(** The integer part in lexical terms. *)
Definition int_text (i : bytes) : Prop :=
  i = [48] ∨ ∃ c d, i = c :: d ∧ 49 ≤ c ≤ 57 ∧ Forall (λ c, is_digit c = true) (c :: d).

Lemma lex_int_text i s : int_text i → no_digit s → lex_int (i ++ s) = Some (i, s).
Proof.
  intros [->|(c & d & -> & Hc & Hd)] Hs; [done|]. cbn [app lex_int].
  destruct (Z.eqb_spec c 48); [lia|]. rewrite between_true by lia. f_equal.
  exact (digits_app (c :: d) s Hd Hs).
Qed.

Lemma canonical_number_parts s : canonicalJSONNumber s = true →
  ∃ sign i f, s = sign ++ i ++ f ∧ (sign = [] ∨ sign = [45]) ∧ int_text i ∧
    number_tail (bool_decide (sign = [45])) i f = true.
Proof.
  unfold canonicalJSONNumber. destruct (beq s [] || _); [done|].
  set (p := match s with c :: t => if c =? 45 then (true, t) else (false, s) | [] => (false, s) end).
  assert (∃ sign, s = sign ++ p.2 ∧ (sign = [] ∨ sign = [45]) ∧ p.1 = bool_decide (sign = [45]))
    as (sign & Hs & Hsign & Hneg).
  { subst p. destruct s as [|c t]; [by exists []; auto|].
    destruct (Z.eqb_spec c 45) as [->|]; [exists [45]|exists []]; auto. }
  clearbody p. destruct p as [neg [|c t]]; [done|]. cbn [fst snd] in Hs, Hneg. subst s neg.
  destruct (Z.eqb_spec c 48) as [->|].
  - intros H. exists sign, [48], t. repeat split; try done; [by left|].
    destruct t as [|d t]; [done|]. by destruct (isJSONDigit d).
  - destruct ((49 <=? c) && (c <=? 57)) eqn:E; [|done].
    destruct (json_digits (c :: t)) as [i f] eqn:Ei. intros H.
    apply json_digits_spec in Ei as (Ei & Hi & Hnd). rewrite Ei.
    exists sign, i, f. repeat split; try done. right. destruct i as [|c' i].
    { exfalso. cbn in Ei. subst f. cbn in Hnd. unfold is_digit in Hnd. b2p.
      apply andb_false_iff in Hnd as [?%Z.leb_gt|?%Z.leb_gt]; lia. }
    cbn in Ei. injection Ei as <- _. b2p. eauto with lia.
Qed.

Lemma canonical_number_shape s : canonicalJSONNumber s = true →
  ∃ sign i f, s = sign ++ i ++ f ∧ (sign = [] ∨ sign = [45]) ∧ int_text i ∧ frac_text f.
Proof. intros (sign & i & f & ? & ? & ? & ?%number_tail_frac)%canonical_number_parts. by exists sign, i, f. Qed.

Lemma int_text_cons i : int_text i → ∃ c t, i = c :: t ∧ is_digit c = true ∧ c ≠ 45.
Proof.
  intros [->|(c & d & -> & ? & Hd)]; [by exists 48, []|]. exists c, d.
  inversion Hd; subst. repeat split; auto; lia.
Qed.

Lemma lex_canonical_number s rest : canonicalJSONNumber s = true → delim rest →
  lex_number (s ++ rest) = Some (s, rest) ∧
  ∃ c t, s = c :: t ∧ ((c =? 45) || is_digit c) = true.
Proof.
  intros (sign & i & f & -> & Hsign & Hi & Hf)%canonical_number_shape Hr.
  destruct (int_text_cons i Hi) as (c & t & Ei & Hc & Hc45).
  assert (match i ++ f ++ rest with c :: t => if c =? 45 then ([c], t) else ([], i ++ f ++ rest)
          | [] => ([], i ++ f ++ rest) end = ([] : bytes, i ++ f ++ rest)) as Hnosign.
  { rewrite Ei. cbn. by destruct (Z.eqb_spec c 45). }
  assert (lex_int (i ++ f ++ rest) = Some (i, f ++ rest)) as Hint
    by (apply lex_int_text; auto using frac_text_no_digit, delim_no_digit).
  split.
  - unfold lex_number. rewrite <- !app_assoc.
    destruct Hsign as [->| ->]; cbn [app]; [rewrite Hnosign|]; cbn;
      rewrite Hint, lex_frac_text, lex_exp_delim by done; cbn; by rewrite app_nil_r.
  - destruct Hsign as [->| ->]; cbn; [|by eauto].
    rewrite Ei. exists c, (t ++ f). by rewrite Hc, orb_true_r.
Qed.

(** ** Strings *)

Lemma spells_emit_rune r : valid_rune r → spells (emit_rune r) r.
Proof.
  intros Hr. pose proof Hr as Hr'. unfold valid_rune in Hr'.
  destruct (short_escape r) as [e|] eqn:E.
  { replace (emit_rune r) with [92; e]; [by apply spells_short|].
    unfold short_escape, emit_rune in *.
    repeat match type of E with
    | (if ?a =? ?b then _ else _) = _ => destruct (Z.eqb_spec a b) as [->|];
        [injection E as <-; reflexivity|]
    end; discriminate. }
  assert (emit_rune r = if r <? 32 then u_escape r else EncodeRune r) as ->.
  { unfold short_escape, emit_rune in *. repeat case_match; done. }
  assert (r ≠ 34 ∧ r ≠ 92) as [? ?] by (split; intros ->; discriminate E).
  destruct (Z.ltb_spec r 32).
  - apply spells_u_escape; [lia|]. unfold is_surrogate. by eval_ranges.
  - by apply spells_raw.
Qed.

Lemma spells_emit_runes rs : Forall valid_rune rs → Forall2 spells (emit_rune <$> rs) rs.
Proof. induction 1; [constructor|]. rewrite fmap_cons. constructor; auto using spells_emit_rune. Qed.

Lemma lex_emit_string s rest : Valid s = true →
  lex_string (concat (emit_rune <$> runes s) ++ 34 :: rest) = Some (s, rest).
Proof.
  intros [Hr Hs]%Valid_runes. rewrite <- Hs at 2.
  by apply lex_string_spelled, spells_emit_runes.
Qed.

Lemma emit_string_app s rest :
  emitCanonicalJSONString s ++ rest = 34 :: concat (emit_rune <$> runes s) ++ 34 :: rest.
Proof. unfold emitCanonicalJSONString. cbn. by rewrite <- app_assoc. Qed.

Lemma token_string s rest st stk : Valid s = true → tokenValueAllowed st = true →
  Token (Dec (emitCanonicalJSONString s ++ rest) st stk) = Ok (TString s, Dec rest (tokenValueEnd st) stk).
Proof.
  intros Hs Hst. rewrite emit_string_app. unfold Token. cbn -[lex_string].
  destruct st; try done; cbn -[lex_string]; unfold lex_scalar; cbn -[lex_string];
    by rewrite lex_emit_string.
Qed.

Lemma token_key s rest st stk : Valid s = true → st = ObjectStart ∨ st = ObjectKey →
  Token (Dec (emitCanonicalJSONString s ++ rest) st stk) = Ok (TString s, Dec rest ObjectColon stk).
Proof.
  intros Hs Hst. rewrite emit_string_app. unfold Token. cbn -[lex_string].
  destruct Hst as [->| ->]; cbn -[lex_string]; by rewrite lex_emit_string.
Qed.

Lemma token_number s rest st stk : canonicalJSONNumber s = true → delim rest →
  tokenValueAllowed st = true →
  Token (Dec (s ++ rest) st stk) = Ok (TNumber s, Dec rest (tokenValueEnd st) stk).
Proof.
  intros Hs Hr Hst. destruct (lex_canonical_number s rest Hs Hr) as (Hl & c & t & -> & Hc).
  unfold Token. cbn [app] in *. cbn [d_rest d_state d_stack token_loop].
  assert (45 ≤ c ≤ 57 ∧ c ≠ 58 ∧ c ≠ 46 ∧ c ≠ 47 ∧ (c = 45 ∨ 48 ≤ c)) as (? & _).
  { apply orb_true_iff in Hc as [?%Z.eqb_eq|Hc]; [lia|]. unfold is_digit in Hc. b2p. lia. }
  rewrite is_space_false by lia.
  repeat match goal with |- context [c =? ?k] =>
    rewrite (proj2 (Z.eqb_neq c k)) by lia end.
  assert (lex_scalar c (t ++ rest) = Some (TNumber (c :: t), rest)) as ->.
  { unfold lex_scalar. rewrite (proj2 (Z.eqb_neq c 34)) by lia. by rewrite Hc, Hl. }
  by destruct st.
Qed.

(** ** Parsing what was emitted *)

Fixpoint jsize (v : json) : nat :=
  match v with
  | JArr l => S (S (foldr (λ v n, S (jsize v + n))%nat 0%nat l))
  | JObj m => S (S (foldr (λ kv n, S (jsize kv.2 + n))%nat 0%nat m))
  | _ => 1%nat
  end.

Definition tail_text (l : list bytes) : bytes := concat (map (cons 44) l).

Lemma comma_join_cons x l : comma_join (x :: l) = x ++ tail_text l.
Proof.
  revert x. induction l as [|y l IH]; intros x; [by rewrite app_nil_r|].
  change (comma_join (x :: y :: l)) with (x ++ 44 :: comma_join (y :: l)). by rewrite IH.
Qed.

Lemma tail_text_delim l c rest : c = 93 ∨ c = 125 → delim (tail_text l ++ c :: rest).
Proof. destruct l; cbn; intros [->| ->]; auto. Qed.

Lemma parse_value_token n d d' : Token d = Token d' → parse_value n d = parse_value n d'.
Proof. intros H. destruct n; cbn; [done|]. by rewrite H. Qed.

Lemma emit_head v : wf v → ∃ c t, emitCanonicalJSONValue v = c :: t ∧
  is_space c = false ∧ c ≠ 93 ∧ c ≠ 125.
Proof.
  destruct v as [|[]|s|s|l|m]; cbn; intros Hv; try by eexists _, _.
  destruct (lex_canonical_number s [] Hv I) as (_ & c & t & -> & Hc). exists c, t.
  assert (45 ≤ c ≤ 57).
  { apply orb_true_iff in Hc as [?%Z.eqb_eq|Hc]; [lia|]. unfold is_digit in Hc. b2p. lia. }
  rewrite is_space_false by lia. repeat split; lia.
Qed.

Lemma More_head c t st stk : is_space c = false → c ≠ 93 → c ≠ 125 → More (Dec (c :: t) st stk) = true.
Proof.
  intros H1 H2 H3. unfold More. cbn. rewrite H1.
  by rewrite (proj2 (Z.eqb_neq c 93)), (proj2 (Z.eqb_neq c 125)).
Qed.

(** [raw] is a JSON text that the parser reads as [v], given [need] fuel. *)
Definition reads (need : nat) (raw : bytes) (v : json) : Prop := ∀ n st stk rest,
  (need ≤ n)%nat → tokenValueAllowed st = true → delim rest →
  parse_value n (Dec (raw ++ rest) st stk) = Ok (v, Dec rest (tokenValueEnd st) stk).

(** [raw] starts with a byte that neither is white space nor closes a list. *)
Definition starts (raw : bytes) : Prop :=
  ∃ c t, raw = c :: t ∧ is_space c = false ∧ c ≠ 93 ∧ c ≠ 125.

Definition parses (v : json) : Prop := reads (jsize v) (emitCanonicalJSONValue v) (sorted_form v).

Lemma parse_elems_tail l : Forall parses l → ∀ n outer stk rest acc,
  (S (foldr (λ v n, S (jsize v + n)) 0 l) ≤ n)%nat →
  parse_elems n (Dec (tail_text (map emitCanonicalJSONValue l) ++ 93 :: rest) ArrayComma (outer :: stk)) acc =
    Ok (JArr (acc ++ map sorted_form l), Dec rest (tokenValueEnd outer) stk).
Proof.
  induction 1 as [|v l Hv _ IH]; intros n outer stk rest acc Hn; cbn [foldr map] in *.
  - destruct n; [lia|]. cbn. by rewrite app_nil_r.
  - destruct n as [|n]; [lia|].
    change (tail_text (emitCanonicalJSONValue v :: ?l)) with (44 :: emitCanonicalJSONValue v ++ tail_text l).
    cbn [parse_elems app]. rewrite More_head by done. rewrite <- app_assoc.
    rewrite (parse_value_token n _ (Dec (emitCanonicalJSONValue v ++ tail_text (map emitCanonicalJSONValue l) ++ 93 :: rest) ArrayValue (outer :: stk))) by done.
    rewrite Hv by (auto using tail_text_delim; lia). cbn [tokenValueEnd].
    rewrite IH by lia. by rewrite <- app_assoc.
Qed.

Lemma parses_arr l : Forall wf l → Forall parses l → parses (JArr l).
Proof.
  intros Hwf Hl n st stk rest Hn Hst Hr. cbn in Hn. destruct n as [|n]; [lia|].
  cbn [parse_value emitCanonicalJSONValue app].
  unfold Token at 1. cbn [token_loop d_rest d_state d_stack]. cbn. rewrite Hst. cbn.
  rewrite <- app_assoc. destruct Hl as [|v l Hv Hl]; cbn [map foldr] in *.
  - destruct n; [lia|]. done.
  - rewrite comma_join_cons, <- app_assoc. destruct n as [|n]; [lia|]. cbn [parse_elems].
    apply Forall_cons in Hwf as [Hwv _]. destruct (emit_head v Hwv) as (c & t & E & H1 & H2 & H3).
    rewrite E at 1. cbn [app]. rewrite More_head by done.
    rewrite Hv by (auto using tail_text_delim; lia). cbn [tokenValueEnd app].
    rewrite parse_elems_tail by (done || lia). done.
Qed.

(** *** Objects, given by the texts of their members *)

Record member := Member {
  mb_key_text : bytes; mb_key : bytes; mb_raw : bytes; mb_value : json; mb_need : nat }.

(** [kt] is a spelling of the string [k], quotes included. *)
Definition key_text (kt k : bytes) : Prop :=
  (∃ t, kt = 34 :: t) ∧
  ∀ rest st stk, st = ObjectStart ∨ st = ObjectKey →
    Token (Dec (kt ++ rest) st stk) = Ok (TString k, Dec rest ObjectColon stk).

Definition good_member (mb : member) : Prop :=
  key_text (mb_key_text mb) (mb_key mb) ∧ reads (mb_need mb) (mb_raw mb) (mb_value mb).

Definition member_text (mb : member) : bytes := mb_key_text mb ++ 58 :: mb_raw mb.
Definition member_value (mb : member) : bytes * json := (mb_key mb, mb_value mb).
Definition members_need (ms : list member) : nat := foldr (λ mb n, S (mb_need mb + n)) 0%nat ms.
Definition object_text (ms : list member) : bytes := 123 :: comma_join (map member_text ms) ++ [125].

Lemma has_key_false k m : k ∉ m.*1 → has_key k m = false.
Proof.
  intros H. unfold has_key. apply not_true_is_false. rewrite existsb_exists.
  intros (kv & Hin & <-%beq_true). apply H. apply list_elem_of_In in Hin.
  by apply list_elem_of_fmap_2.
Qed.

(** One member: from [ObjectStart] or [ObjectKey], the loop body reads it. *)
Lemma parse_member mb n st stk rest acc : good_member mb →
  st = ObjectStart ∨ st = ObjectKey → (mb_need mb ≤ n)%nat → delim rest → mb_key mb ∉ acc.*1 →
  match Token (Dec (member_text mb ++ rest) st stk) with
  | Err e => Err (CToken e)
  | Ok (TString key, d1) =>
    if has_key key acc then Err (CDuplicateKey key)
    else match parse_value n d1 with
         | Err e => Err e
         | Ok (v, d2) => parse_members n d2 (acc ++ [(key, v)])
         end
  | Ok (_, _) => Err CKeyNotString
  end = parse_members n (Dec rest ObjectComma stk) (acc ++ [member_value mb]).
Proof.
  intros [[_ Hk] Hv] Hst Hn Hr Hacc. unfold member_text. rewrite <- app_assoc. cbn [app].
  rewrite Hk by done. rewrite has_key_false by done.
  rewrite (parse_value_token n _ (Dec (mb_raw mb ++ rest) ObjectValue stk)) by done.
  by rewrite Hv.
Qed.

Lemma parse_members_tail ms : Forall good_member ms → ∀ n outer stk rest acc,
  (S (members_need ms) ≤ n)%nat → NoDup (acc.*1 ++ map mb_key ms) →
  parse_members n (Dec (tail_text (map member_text ms) ++ 125 :: rest) ObjectComma (outer :: stk)) acc =
    Ok (JObj (acc ++ map member_value ms), Dec rest (tokenValueEnd outer) stk).
Proof.
  induction 1 as [|mb ms Hmb _ IH]; intros n outer stk rest acc Hn Hnd; cbn [members_need foldr map] in *.
  - destruct n; [lia|]. cbn. by rewrite app_nil_r.
  - destruct n as [|n]; [lia|]. unfold members_need in IH.
    change (tail_text (member_text mb :: map member_text ms)) with (44 :: member_text mb ++ tail_text (map member_text ms)).
    cbn [parse_members app]. rewrite More_head by done. rewrite <- app_assoc.
    change (Token (Dec (44 :: ?s) ObjectComma ?k)) with (Token (Dec s ObjectKey k)).
    rewrite NoDup_app, NoDup_cons in Hnd. destruct Hnd as (Hn1 & Hn2 & Hn3 & Hn4).
    rewrite parse_member; [|done|by right|lia|by apply tail_text_delim; right|].
    2:{ intros Hin. eapply Hn2; [exact Hin|]. constructor. }
    rewrite IH; [by rewrite <- app_assoc|lia|].
    rewrite fmap_app, <- app_assoc. cbn. rewrite NoDup_app, NoDup_cons. repeat split; auto.
Qed.

Lemma parse_value_open n t st stk : tokenValueAllowed st = true →
  parse_value (S n) (Dec (123 :: t) st stk) = parse_members n (Dec t ObjectStart (st :: stk)) [].
Proof. intros Hst. cbn. by rewrite Hst. Qed.

Lemma reads_object ms : Forall good_member ms → NoDup (map mb_key ms) →
  reads (S (S (members_need ms))) (object_text ms) (JObj (map member_value ms)).
Proof.
  intros Hm Hnd n st stk rest Hn Hst Hr. unfold object_text.
  destruct n as [|n]; [lia|]. cbn [app]. rewrite parse_value_open by done.
  rewrite <- app_assoc. destruct Hm as [|mb ms Hmb Hm]; cbn [map members_need foldr] in *.
  - destruct n; [lia|]. done.
  - rewrite comma_join_cons, <- app_assoc. destruct n as [|n]; [lia|]. cbn [parse_members].
    pose proof Hmb as [[(kt & Hkt) _] _].
    assert (∀ x, More (Dec (member_text mb ++ x) ObjectStart (st :: stk)) = true) as ->.
    { intros x. unfold member_text. rewrite Hkt. cbn [app]. by apply More_head. }
    rewrite parse_member; [|done|by left|lia|by apply tail_text_delim; right|].
    2:{ apply not_elem_of_nil. }
    change ([125] ++ rest) with (125 :: rest).
    rewrite parse_members_tail; [done|done|unfold members_need; lia|]. cbn. done.
Qed.

Lemma foldr_size_perm (m m' : list (bytes * json)) : m ≡ₚ m' →
  foldr (λ kv n, S (jsize kv.2 + n)) 0%nat m = foldr (λ kv n, S (jsize kv.2 + n)) 0%nat m'.
Proof. induction 1; cbn; congruence || lia. Qed.

Definition emitted_member (kv : bytes * json) : member :=
  Member (emitCanonicalJSONString kv.1) kv.1 (emitCanonicalJSONValue kv.2) (sorted_form kv.2) (jsize kv.2).

Lemma key_text_emit k : Valid k = true → key_text (emitCanonicalJSONString k) k.
Proof. intros Hk. split; [by eexists|]. intros. by apply token_key. Qed.

Lemma emit_obj_text m : emitCanonicalJSONValue (JObj m) = object_text (map emitted_member (sort_keys m)).
Proof. rewrite emit_obj. unfold object_text. by rewrite map_map. Qed.

Lemma parses_obj m : NoDup m.*1 → Forall (λ kv, Valid kv.1 = true ∧ parses kv.2) m → parses (JObj m).
Proof.
  intros Hnd Hm. unfold parses. rewrite emit_obj_text, sorted_form_obj.
  assert (reads (S (S (members_need (map emitted_member (sort_keys m)))))
    (object_text (map emitted_member (sort_keys m)))
    (JObj (map member_value (map emitted_member (sort_keys m))))) as H.
  { apply reads_object.
    - apply Forall_map. rewrite sort_keys_perm. eapply Forall_impl; [exact Hm|].
      intros kv [Hk Hv]. split; [by apply key_text_emit|done].
    - rewrite map_map. cbn. change (NoDup (sort_keys m).*1). by rewrite sort_keys_perm. }
  rewrite map_map in H. unfold members_need in H. rewrite foldr_map in H. cbn in H.
  rewrite (foldr_size_perm _ _ (sort_keys_perm m)) in H. exact H.
Qed.

Lemma wf_parses v : wf v → parses v.
Proof.
  induction v as [|[]|s|s|l IH|m IH] using json_ind; intros Hv.
  1-3: intros n st stk rest Hn Hst Hr; destruct n; [cbn in Hn; lia|]; by destruct st.
  - intros n st stk rest Hn Hst Hr. destruct n; [cbn in Hn; lia|].
    cbn [emitCanonicalJSONValue parse_value]. rewrite token_number by done. cbn in Hv. by rewrite Hv.
  - intros n st stk rest Hn Hst Hr. destruct n; [cbn in Hn; lia|]. destruct Hv as [Hs H0].
    cbn [emitCanonicalJSONValue parse_value]. rewrite token_string by done. by rewrite H0.
  - apply wf_arr in Hv. apply parses_arr; [done|].
    apply Forall_forall. rewrite Forall_forall in IH, Hv. auto.
  - apply wf_obj in Hv as [Hnd Hm]. apply parses_obj; [done|].
    apply Forall_forall. rewrite Forall_forall in IH, Hm. intros kv Hkv.
    destruct (Hm kv Hkv). split; [done|]. by apply IH.
Qed.

(** ** The emitted text is long enough for the fuel *)

Lemma emit_nonempty v : wf v → (1 ≤ length (emitCanonicalJSONValue v))%nat.
Proof. intros H. destruct (emit_head v H) as (c & t & -> & _). cbn. lia. Qed.

Lemma tail_text_size l : Forall (λ v, jsize v ≤ 2 * length (emitCanonicalJSONValue v))%nat l →
  (foldr (λ v n, S (jsize v + n)) 0 l ≤ 2 * length (tail_text (map emitCanonicalJSONValue l)))%nat.
Proof.
  induction 1 as [|v l Hv _ IH]; [done|]. unfold tail_text in *. cbn.
  rewrite length_app. lia.
Qed.

Lemma member_text_length mb : (length (mb_raw mb) ≤ length (member_text mb))%nat.
Proof. unfold member_text. rewrite length_app. cbn. lia. Qed.

Lemma members_text_size ms : Forall (λ mb, mb_need mb ≤ 2 * length (mb_raw mb))%nat ms →
  (members_need ms ≤ 2 * length (tail_text (map member_text ms)))%nat.
Proof.
  induction 1 as [|mb ms Hv _ IH]; [done|]. unfold tail_text, members_need in *. cbn [foldr map concat].
  pose proof (member_text_length mb). rewrite length_app. cbn [length]. lia.
Qed.

Lemma comma_join_length l : (length (tail_text l) ≤ length (comma_join l) + 1)%nat.
Proof. destruct l; [cbn; lia|]. rewrite comma_join_cons. unfold tail_text. cbn. rewrite !length_app. lia. Qed.

Lemma object_text_size ms : Forall (λ mb, mb_need mb ≤ 2 * length (mb_raw mb))%nat ms →
  (S (S (members_need ms)) ≤ 2 * length (object_text ms))%nat.
Proof.
  intros H%members_text_size. pose proof (comma_join_length (map member_text ms)).
  unfold object_text. cbn [length]. rewrite length_app. cbn [length]. lia.
Qed.

Lemma jsize_emit v : wf v → (jsize v ≤ 2 * length (emitCanonicalJSONValue v))%nat.
Proof.
  induction v as [|[]|s|s|l IH|m IH] using json_ind; intros Hv; try (cbn; lia).
  - pose proof (emit_nonempty _ Hv). cbn in *. lia.
  - apply wf_arr in Hv.
    pose proof (tail_text_size l). pose proof (comma_join_length (map emitCanonicalJSONValue l)).
    cbn. rewrite length_app. cbn. apply Nat.le_trans with
      (S (S (2 * length (tail_text (map emitCanonicalJSONValue l)))))%nat; [|lia].
    do 2 apply le_n_S. apply H. rewrite Forall_forall in *. auto.
  - apply wf_obj in Hv as [_ Hv]. rewrite emit_obj_text. cbn [jsize].
    rewrite <- (foldr_size_perm _ _ (sort_keys_perm m)).
    pose proof (object_text_size (map emitted_member (sort_keys m))) as H.
    unfold members_need in H. rewrite foldr_map in H. cbn [emitted_member mb_need] in H. apply H.
    apply Forall_map. rewrite sort_keys_perm. apply Forall_forall. rewrite Forall_forall in IH, Hv.
    intros kv Hkv. apply IH; [done|]. by apply Hv.
Qed.

(** ** Every token consumes input *)

Lemma digits_length s d r : digits s = (d, r) → (length r ≤ length s)%nat ∧ (d ≠ [] → length r < length s)%nat.
Proof.
  revert d r. induction s as [|c t IH]; cbn; intros d r; [intros [= <- <-]; split; done|].
  destruct (is_digit c).
  - destruct (digits t) as [d' r'] eqn:E. destruct (IH d' r' eq_refl). intros [= <- <-]. lia.
  - intros [= <- <-]. done.
Qed.

Lemma lex_number_length s a r : lex_number s = Some (a, r) → (length r < length s)%nat.
Proof.
  unfold lex_number.
  set (p := match s with c :: t => if c =? 45 then ([c], t) else ([], s) | [] => ([], s) end).
  assert (length p.2 ≤ length s)%nat as Hp.
  { subst p. destruct s as [|c t]; [done|]. destruct (c =? 45); cbn; lia. }
  destruct p as [sign s0]. cbn in Hp.
  destruct (lex_int s0) as [[i s1]|] eqn:E1; [|done].
  assert (length s1 < length s0)%nat.
  { destruct s0 as [|c t]; [done|]. cbn [lex_int] in E1.
    destruct (c =? 48); [injection E1 as <- <-; cbn; lia|].
    destruct (between 49 57 c) eqn:B; [|done].
    assert (digits (c :: t) = (i, s1)) as D by congruence. clear E1.
    destruct (digits_length _ _ _ D) as [_ H]. apply H. intros ->. apply between_spec in B.
    cbn [digits] in D. assert (is_digit c = true) as Hc by (apply between_spec; lia).
    rewrite Hc in D. by destruct (digits t). }
  destruct (lex_frac s1) as [[f s2]|] eqn:E2; [|done].
  assert (length s2 ≤ length s1)%nat.
  { destruct s1 as [|c t]; cbn in E2; [by simplify_eq|].
    destruct (c =? 46); [|by simplify_eq].
    destruct (digits t) as [[|x d] r'] eqn:D; [done|]. simplify_eq.
    apply digits_length in D as [? _]. cbn. lia. }
  destruct (lex_exp s2) as [[e s3]|] eqn:E3; [|done]. intros [= _ <-].
  assert (length s3 ≤ length s2)%nat; [|lia].
  destruct s2 as [|c t]; cbn in E3; [by simplify_eq|].
  destruct ((c =? 101) || (c =? 69)); [|by simplify_eq].
  destruct t as [|g t']; [done|].
  destruct ((g =? 43) || (g =? 45));
    match type of E3 with context [digits ?x] => destruct (digits x) as [[|x0 d0] r0] eqn:D end;
    try done; simplify_eq; apply digits_length in D as [? _]; cbn in *; lia.
Qed.

Lemma strip_length lit s r : strip lit s = Some r → (length r ≤ length s)%nat.
Proof.
  revert s. induction lit as [|a lit IH]; intros s; [by intros [= ->]|].
  destruct s; [done|]. cbn. case_match; [|done]. intros Hs%IH. lia.
Qed.

Lemma lex_scalar_length c t tok r : lex_scalar c t = Some (tok, r) → (length r ≤ length t)%nat.
Proof.
  unfold lex_scalar. intros H. repeat case_match; simplify_eq;
  try (match goal with H : strip _ _ = _ |- _ => by apply strip_length in H end).
  - match goal with H : lex_string _ = _ |- _ => apply lex_string_valid in H as [_ H] end. lia.
  - match goal with H : lex_number _ = _ |- _ => apply lex_number_length in H end. cbn in *. lia.
Qed.

Lemma token_loop_ok s st stk tok d : token_loop s st stk = Ok (tok, d) →
  (length (d_rest d) < length s)%nat ∧ (∀ x, tok = TString x → Valid x = true).
Proof.
  revert st stk. induction s as [|c t IH]; intros st stk; cbn [token_loop length]; [done|].
  assert (Hrec : ∀ st stk, token_loop t st stk = Ok (tok, d) →
    (length (d_rest d) < S (length t))%nat ∧ (∀ x, tok = TString x → Valid x = true))
    by (intros st' stk' H%IH; destruct H; split; [lia|done]).
  assert (Hsc : ∀ d', (length (d_rest d') ≤ length t)%nat → ∀ k, Ok (E := jerr) (TDelim k, d') = Ok (tok, d) →
    (length (d_rest d) < S (length t))%nat ∧ (∀ x, tok = TString x → Valid x = true)).
  { intros d' Hd k [= <- <-]. split; [cbn in *; lia|done]. }
  destruct (is_space c); [apply Hrec|].
  destruct (c =? 91); [case_match; [|done]; by apply Hsc|].
  destruct (c =? 93); [repeat case_match; try done; by apply Hsc|].
  destruct (c =? 123); [case_match; [|done]; by apply Hsc|].
  destruct (c =? 125); [repeat case_match; try done; by apply Hsc|].
  destruct (c =? 58); [case_match; try done; by apply Hrec|].
  destruct (c =? 44); [case_match; try done; by apply Hrec|].
  assert (Hval : ∀ st, (if tokenValueAllowed st then
        match lex_scalar c t with
        | Some (tok, r) => Ok (tok, Dec r (tokenValueEnd st) stk) | None => Err JSyntax end
      else Err JSyntax) = Ok (tok, d) →
      (length (d_rest d) < S (length t))%nat ∧ (∀ x, tok = TString x → Valid x = true)).
  { intros st'. case_match; [|done]. destruct (lex_scalar c t) as [[tk r]|] eqn:E; [|done].
    intros [= <- <-]. split; [apply lex_scalar_length in E; cbn; lia|]. intros x ->.
    unfold lex_scalar in E. repeat case_match; simplify_eq.
    match goal with H : lex_string _ = _ |- _ => by apply lex_string_valid in H as [? _] end. }
  assert (Hkey : match lex_string t with
      | Some (k, r) => Ok (TString k, Dec r ObjectColon stk) | None => Err JSyntax end = Ok (tok, d) →
      (length (d_rest d) < S (length t))%nat ∧ (∀ x, tok = TString x → Valid x = true)).
  { destruct (lex_string t) as [[k r]|] eqn:E; [|done]. intros [= <- <-].
    apply lex_string_valid in E as [? ?]. split; [cbn; lia|]. by intros x [= <-]. }
  destruct st, (c =? 34); auto; apply Hval.
Qed.

Lemma Token_shorter d tok d' : Token d = Ok (tok, d') → (length (d_rest d') < length (d_rest d))%nat.
Proof. intros H. by apply token_loop_ok in H as [? _]. Qed.
Lemma Token_string d s d' : Token d = Ok (TString s, d') → Valid s = true.
Proof. intros H. apply token_loop_ok in H as [_ H]. by apply H. Qed.

(** ** The parser: fuel, consumption and well-formedness of what it returns *)

Lemma parse_shorter n :
  (∀ d v d', parse_value n d = Ok (v, d') → (length (d_rest d') < length (d_rest d))%nat) ∧
  (∀ d acc v d', parse_members n d acc = Ok (v, d') → (length (d_rest d') < length (d_rest d))%nat) ∧
  (∀ d acc v d', parse_elems n d acc = Ok (v, d') → (length (d_rest d') < length (d_rest d))%nat).
Proof.
  induction n as [|n (IHv & IHm & IHe)]; [done|].
  repeat split; intros d; [intros v d'|intros acc v d'..]; cbn [parse_value parse_members parse_elems];
    intros H; repeat case_match; simplify_eq;
    repeat match goal with
    | H : Token _ = Ok _ |- _ => apply Token_shorter in H
    | H : parse_value _ _ = Ok _ |- _ => apply IHv in H
    | H : parse_members _ _ _ = Ok _ |- _ => apply IHm in H
    | H : parse_elems _ _ _ = Ok _ |- _ => apply IHe in H
    end; lia.
Qed.

Lemma parse_fuel n :
  (∀ d, (2 * length (d_rest d) + 1 ≤ n)%nat → parse_value n d ≠ Err CFuel) ∧
  (∀ d acc, (2 * length (d_rest d) + 2 ≤ n)%nat → parse_members n d acc ≠ Err CFuel) ∧
  (∀ d acc, (2 * length (d_rest d) + 2 ≤ n)%nat → parse_elems n d acc ≠ Err CFuel).
Proof.
  induction n as [|n (IHv & IHm & IHe)]; [repeat split; intros; lia|].
  destruct (parse_shorter n) as (Sv & _ & _).
  repeat split; intros d; [intros Hn|intros acc Hn..]; cbn [parse_value parse_members parse_elems].
  - destruct (Token d) as [[[] d1]|] eqn:E; try done; try (by case_match).
    apply Token_shorter in E. repeat case_match; try done; [apply IHm|apply IHe]; lia.
  - case_match; [|by repeat case_match].
    destruct (Token d) as [[[] d1]|] eqn:E; try done. apply Token_shorter in E.
    case_match; [done|]. destruct (parse_value n d1) as [[v d2]|e] eqn:P.
    + apply Sv in P. apply IHm. lia.
    + intros [= ->]. apply (IHv d1); [lia|done].
  - case_match; [|by repeat case_match].
    destruct (parse_value n d) as [[v d2]|e] eqn:P.
    + apply Sv in P. apply IHe. lia.
    + intros [= ->]. apply (IHv d); [lia|done].
Qed.

Lemma has_key_true k m : has_key k m = false → k ∉ m.*1.
Proof.
  intros H (kv & -> & Hin)%list_elem_of_fmap.
  assert (has_key kv.1 m = true); [|congruence].
  apply existsb_exists. exists kv. rewrite <- list_elem_of_In. by rewrite beq_refl.
Qed.

Lemma parse_wf n :
  (∀ d v d', parse_value n d = Ok (v, d') → wf v) ∧
  (∀ d acc v d', wf (JObj acc) → parse_members n d acc = Ok (v, d') → wf v) ∧
  (∀ d acc v d', wf (JArr acc) → parse_elems n d acc = Ok (v, d') → wf v).
Proof.
  induction n as [|n (IHv & IHm & IHe)]; [done|].
  repeat split; intros d; [intros v d'|intros acc v d' Hacc..]; cbn [parse_value parse_members parse_elems].
  - destruct (Token d) as [[[] d1]|] eqn:E; try done; intros H; repeat case_match; simplify_eq.
    + eapply IHm; [|done]. apply wf_obj. split; constructor.
    + eapply (IHe d1 []); done.
    + cbn. by apply Token_string in E.
    + cbn. b2p. done.
    + done.
    + done.
  - case_match; [|intros H'; repeat case_match; by simplify_eq].
    destruct (Token d) as [[[] d1]|] eqn:E; try done. destruct (has_key _ _) eqn:Hk; [done|].
    destruct (parse_value n d1) as [[w d2]|e] eqn:P; [|done]. apply IHm.
    apply wf_obj in Hacc as [Hnd Hm]. apply wf_obj. rewrite fmap_app. split.
    + apply NoDup_app. split; [done|]. split; [|by apply NoDup_singleton].
      intros x Hx ->%list_elem_of_singleton. by apply has_key_true in Hk.
    + apply Forall_app. split; [done|]. apply Forall_singleton. cbn.
      split; [by eapply Token_string|by eapply IHv].
  - case_match; [|intros H'; repeat case_match; by simplify_eq].
    destruct (parse_value n d) as [[w d2]|e] eqn:P; [|done]. apply IHe.
    apply wf_arr. apply wf_arr in Hacc. apply Forall_app. split; [done|].
    apply Forall_singleton. by eapply IHv.
Qed.

(** ** The emitted text passes the two checks on the raw input *)

Lemma Valid_cons c s : 0 ≤ c < 128 → Valid s = true → Valid (c :: s) = true.
Proof. intros. apply (Valid_app [c] s); [|done]. apply Valid_ascii. by constructor. Qed.

Lemma hex_digit_ascii n : 0 ≤ n < 16 → 0 ≤ hex_digit n < 128.
Proof. unfold hex_digit. case_match; lia. Qed.

Lemma Valid_u_escape r : Valid (u_escape r) = true.
Proof. apply Valid_ascii. unfold u_escape. repeat constructor; try lia; apply hex_digit_ascii; zlia. Qed.

Lemma Valid_emit_rune r : Valid (emit_rune r) = true.
Proof. unfold emit_rune. repeat case_match; auto using Valid_u_escape, Valid_EncodeRune. Qed.

Lemma Valid_concat l : Forall (λ s, Valid s = true) l → Valid (concat l) = true.
Proof. induction 1; [done|]. by apply Valid_app. Qed.

Lemma Valid_emit_string s : Valid (emitCanonicalJSONString s) = true.
Proof.
  apply Valid_cons; [lia|]. apply Valid_app; [|done]. apply Valid_concat, Forall_fmap, Forall_true.
  apply Valid_emit_rune.
Qed.

Lemma Valid_comma_join l : Forall (λ s, Valid s = true) l → Valid (comma_join l) = true.
Proof.
  intros H. destruct H as [|x l Hx Hl]; [done|]. rewrite comma_join_cons. apply Valid_app; [done|].
  apply Valid_concat. apply Forall_map. eapply Forall_impl; [exact Hl|].
  intros. apply Valid_cons; [lia|done].
Qed.

Lemma Valid_number s : canonicalJSONNumber s = true → Valid s = true.
Proof.
  intros (sign & i & f & -> & Hs & Hi & Hf)%canonical_number_shape.
  assert (∀ d, Forall (λ c, is_digit c = true) d → Forall (λ c, 0 ≤ c < 128) d) as Hd.
  { intros d H. eapply Forall_impl; [exact H|]. intros c ?. unfold is_digit in *. b2p. lia. }
  apply Valid_ascii. rewrite !Forall_app. repeat split.
  - by destruct Hs as [->| ->]; repeat constructor.
  - destruct Hi as [->|(c & d & -> & ? & ?)]; [by repeat constructor|]. auto.
  - destruct Hf as [->|(d & -> & ? & ?)]; [constructor|]. constructor; [lia|]. auto.
Qed.

Lemma Valid_emit v : wf v → Valid (emitCanonicalJSONValue v) = true.
Proof.
  induction v as [|[]|s|s|l IH|m IH] using json_ind; intros Hv; try done.
  - by apply Valid_number.
  - apply Valid_emit_string.
  - apply wf_arr in Hv. cbn [emitCanonicalJSONValue]. apply Valid_cons; [lia|]. apply Valid_app; [|done].
    apply Valid_comma_join, Forall_map. rewrite Forall_forall in *. auto.
  - apply wf_obj in Hv as [_ Hv]. rewrite emit_obj. apply Valid_cons; [lia|]. apply Valid_app; [|done].
    apply Valid_comma_join, Forall_map. rewrite sort_keys_perm. rewrite Forall_forall in *.
    intros kv Hkv. apply Valid_app; [apply Valid_emit_string|]. apply Valid_cons; [lia|].
    apply IH; [done|]. by apply Hv.
Qed.

(** [e] leaves the escape validator inside a string. *)
Definition plain_inside (e : bytes) : Prop := ∀ t, validate_from true false (e ++ t) = validate_from true false t.
(** [e] leaves it outside one. *)
Definition plain_outside (e : bytes) : Prop := ∀ t, validate_from false false (e ++ t) = validate_from false false t.

Lemma plain_inside_raw e : Forall (λ c, c ≠ 34 ∧ c ≠ 92) e → plain_inside e.
Proof.
  induction 1 as [|c e [H1 H2] _ IH]; intros t; [done|]. cbn.
  rewrite (proj2 (Z.eqb_neq c 92)), (proj2 (Z.eqb_neq c 34)) by done. apply IH.
Qed.

Lemma plain_outside_raw e : Forall (λ c, c ≠ 34) e → plain_outside e.
Proof.
  induction 1 as [|c e H1 _ IH]; intros t; [done|]. cbn.
  rewrite (proj2 (Z.eqb_neq c 34)) by done. apply IH.
Qed.

Lemma plain_outside_app a b : plain_outside a → plain_outside b → plain_outside (a ++ b).
Proof. intros Ha Hb t. by rewrite <- app_assoc, Ha, Hb. Qed.
Lemma plain_outside_cons c e : c ≠ 34 → plain_outside e → plain_outside (c :: e).
Proof. intros Hc He. apply (plain_outside_app [c] e); [|done]. apply plain_outside_raw. by constructor. Qed.

Lemma jsonHexValue_digit n : 0 ≤ n < 16 → jsonHexValue (hex_digit n) = Some n.
Proof. exact (hex_value_digit n). Qed.

Lemma parseJSONU16_u_escape r t : 0 ≤ r < 65536 →
  parseJSONU16 (hex_digit (r / 4096 mod 16) :: hex_digit (r / 256 mod 16) ::
    hex_digit (r / 16 mod 16) :: hex_digit (r mod 16) :: t) = Some r.
Proof.
  intros Hr. unfold parseJSONU16. cbn [u16_loop]. rewrite !jsonHexValue_digit by zlia.
  rewrite !(lor_add_shift _ _ 4) by zlia. f_equal. change (2 ^ 4) with 16. zlia.
Qed.

Lemma plain_inside_u_escape r : 0 ≤ r < 55296 → plain_inside (u_escape r).
Proof.
  intros Hr t. unfold u_escape. cbn -[parseJSONU16 hex_digit Z.div Z.modulo Z.leb].
  rewrite parseJSONU16_u_escape by lia.
  rewrite (proj2 (Z.leb_gt 55296 r)), (proj2 (Z.leb_gt 56320 r)) by lia. done.
Qed.

Lemma plain_inside_emit_rune r : valid_rune r → plain_inside (emit_rune r).
Proof.
  intros Hr. pose proof Hr as Hr'. unfold valid_rune in Hr'. unfold emit_rune.
  repeat case_match; try (intros t; reflexivity); b2p.
  - apply plain_inside_u_escape. lia.
  - apply plain_inside_raw. destruct (Z.lt_ge_cases r 128).
    + rewrite EncodeRune_ascii by lia. by repeat constructor.
    + rewrite EncodeRune_arith by done. repeat case_match; b2p; repeat constructor; zlia.
Qed.

Lemma plain_outside_string s : Valid s = true → plain_outside (emitCanonicalJSONString s).
Proof.
  intros [Hr _]%Valid_runes t. unfold emitCanonicalJSONString. cbn. rewrite <- app_assoc. cbn.
  induction Hr as [|r rs Hr _ IH]; [done|]. rewrite fmap_cons. cbn [concat].
  by rewrite <- app_assoc, plain_inside_emit_rune.
Qed.

Lemma plain_outside_join l : Forall plain_outside l → plain_outside (comma_join l).
Proof.
  intros H. destruct H as [|x l Hx Hl]; [done|]. rewrite comma_join_cons.
  apply plain_outside_app; [done|]. induction Hl as [|y l Hy _ IH]; [done|].
  unfold tail_text in *. cbn [map concat]. by apply plain_outside_cons, plain_outside_app.
Qed.

Lemma plain_outside_emit v : wf v → plain_outside (emitCanonicalJSONValue v).
Proof.
  induction v as [|[]|s|s|l IH|m IH] using json_ind; intros Hv; try (intros t; reflexivity).
  - cbn in Hv. apply canonical_number_shape in Hv as (sign & i & f & -> & Hs & Hi & Hf).
    assert (∀ d, Forall (λ c, is_digit c = true) d → plain_outside d) as Hd.
    { intros d H. apply plain_outside_raw. eapply Forall_impl; [exact H|].
      intros c ?. unfold is_digit in *. b2p. lia. }
    repeat apply plain_outside_app.
    + by destruct Hs as [->| ->].
    + destruct Hi as [->|(c & d & -> & ? & ?)]; [done|]. auto.
    + destruct Hf as [->|(d & -> & ? & ?)]; [done|]. apply plain_outside_cons; auto.
  - by apply plain_outside_string, Hv.
  - apply wf_arr in Hv. apply plain_outside_cons, plain_outside_app; [done| |done].
    apply plain_outside_join, Forall_map. rewrite Forall_forall in *. auto.
  - apply wf_obj in Hv as [_ Hv]. rewrite emit_obj.
    apply plain_outside_cons, plain_outside_app; [done| |done].
    apply plain_outside_join, Forall_map. rewrite sort_keys_perm. rewrite Forall_forall in *.
    intros kv Hkv. destruct (Hv kv Hkv).
    apply plain_outside_app; [by apply plain_outside_string|]. apply plain_outside_cons; auto.
Qed.

(** ** Entry points *)

(** The emitted text of a well-formed value canonicalizes to itself. *)
Lemma canonicalize_emit v : wf v → CanonicalizeV1 (emitCanonicalJSONValue v) = Ok (emitCanonicalJSONValue v).
Proof.
  intros Hv. unfold CanonicalizeV1. rewrite Valid_emit by done.
  pose proof (plain_outside_emit v Hv []) as He. rewrite app_nil_r in He.
  unfold validateJSONUnicodeEscapes. rewrite He. cbn [negb validate_from].
  unfold parseCanonicalJSONValue, NewDecoder. cbn [d_rest].
  pose proof (wf_parses v Hv (2 * length (emitCanonicalJSONValue v) + 2)%nat TopValue [] []) as Hp.
  rewrite app_nil_r in Hp. rewrite Hp; [|pose proof (jsize_emit v Hv); lia|done|done].
  cbn. by rewrite emit_sorted_form.
Qed.

(** What an accepted document denotes. *)
Definition denotes (input : bytes) (v : json) : Prop :=
  ∃ d, parseCanonicalJSONValue (NewDecoder input) = Ok (v, d) ∧ Token d = Err JEof.

Lemma canonicalize_ok input out : CanonicalizeV1 input = Ok out →
  ∃ v, wf v ∧ denotes input v ∧ out = emitCanonicalJSONValue v.
Proof.
  unfold CanonicalizeV1. case_match; [done|]. case_match; [done|].
  destruct (parseCanonicalJSONValue (NewDecoder input)) as [[v d]|] eqn:P; [|done].
  destruct (Token d) as [|[]] eqn:T; try done. intros [= <-].
  exists v. split; [by apply (proj1 (parse_wf _)) in P|]. split; [|done]. by exists d.
Qed.

Lemma denotes_emit v : wf v → denotes (emitCanonicalJSONValue v) (sorted_form v).
Proof.
  intros Hv. unfold denotes, parseCanonicalJSONValue, NewDecoder. cbn [d_rest].
  pose proof (wf_parses v Hv (2 * length (emitCanonicalJSONValue v) + 2)%nat TopValue [] []) as Hp.
  rewrite app_nil_r in Hp. rewrite Hp; [|pose proof (jsize_emit v Hv); lia|done|done].
  by eexists.
Qed.

Lemma denotes_inj input v w : denotes input v → denotes input w → v = w.
Proof. intros (? & H1 & _) (? & H2 & _). congruence. Qed.

Lemma emit_inj v w : wf v → wf w → emitCanonicalJSONValue v = emitCanonicalJSONValue w →
  sorted_form v = sorted_form w.
Proof. intros Hv Hw E. apply denotes_emit in Hv, Hw. rewrite E in Hv. by eapply denotes_inj. Qed.

(** Canonical text: a fixed point of [CanonicalizeV1]. *)
Definition canonical (s : bytes) : Prop := CanonicalizeV1 s = Ok s.

Lemma canonicalize_canonical input out : CanonicalizeV1 input = Ok out → canonical out.
Proof. intros (v & Hv & _ & ->)%canonicalize_ok. by apply canonicalize_emit. Qed.

(** A canonical text is the emission of a well-formed value. *)
Lemma canonical_emit s : canonical s → ∃ v, wf v ∧ s = emitCanonicalJSONValue v.
Proof. intros (v & Hv & _ & Hs)%canonicalize_ok. eauto. Qed.

(** ** Values that differ only in member order *)

Inductive same_value : json → json → Prop :=
| same_atom v : same_value v v
| same_arr l l' : Forall2 same_value l l' → same_value (JArr l) (JArr l')
| same_obj m m1 m' : m ≡ₚ m1 → Forall2 (λ a b, a.1 = b.1 ∧ same_value a.2 b.2) m1 m' →
    same_value (JObj m) (JObj m').

Lemma sorted_form_perm m m' : NoDup m.*1 → m ≡ₚ m' → sorted_form (JObj m) = sorted_form (JObj m').
Proof.
  intros Hnd Hp. rewrite !sorted_form_obj. f_equal. f_equal.
  apply key_sorted_unique; auto using sort_keys_sorted; rewrite ?sort_keys_perm; done.
Qed.

Fixpoint same_value_sorted v w (H : same_value v w) {struct H} : wf v → sorted_form v = sorted_form w.
Proof.
  destruct H as [v|l l' Hl|m m1 m' Hp Hm]; intros Hv; [done| |].
  - apply wf_arr in Hv. cbn. f_equal. induction Hl as [|a b l l' Hab _ IH]; [done|]. cbn.
    apply Forall_cons in Hv as [Ha Hv]. f_equal; [by apply same_value_sorted|by apply IH].
  - apply wf_obj in Hv as [Hnd Hv]. rewrite (sorted_form_perm _ _ Hnd Hp). rewrite Hp in Hv.
    clear Hnd Hp. cbn. f_equal. f_equal. induction Hm as [|a b m1 m' [Hk Hab] _ IH]; [done|]. cbn.
    apply Forall_cons in Hv as [[_ Ha] Hv].
    rewrite Hk, (same_value_sorted _ _ Hab Ha), (IH Hv). done.
Qed.

(** ** Properties *)

(** Canonical form is a fixed point: whatever [CanonicalizeV1] returns, it
    returns unchanged when given it again, so two verifiers that hash the
    canonical form of a document agree. *)
Theorem canonicalize_idempotent input out :
  CanonicalizeV1 input = Ok out → CanonicalizeV1 out = Ok out.
Proof. apply canonicalize_canonical. Qed.

Lemma canonicalize_idempotent_witness :
  CanonicalizeV1 (js "{'b':1,'a':-0.25}") = Ok (js "{'a':-0.25,'b':1}") ∧
  CanonicalizeV1 (js "{'a':-0.25,'b':1}") = Ok (js "{'a':-0.25,'b':1}").
Proof.
  assert (CanonicalizeV1 (js "{'b':1,'a':-0.25}") = Ok (js "{'a':-0.25,'b':1}")) as H
    by (vm_compute; reflexivity).
  split; [exact H|exact (canonicalize_idempotent _ _ H)].
Defined.

(** C31. Canonicalization changes form, never meaning: the output denotes the
    input's value with the members of every object in key order, and that
    value has distinct keys, canonical numbers and valid UTF-8 strings. *)
Theorem canonicalize_preserves_value input out : CanonicalizeV1 input = Ok out →
  ∃ v, wf v ∧ denotes input v ∧ denotes out (sorted_form v).
Proof. intros (v & Hv & Hd & ->)%canonicalize_ok. eauto using denotes_emit. Qed.

Lemma canonicalize_preserves_value_witness :
  ∃ v, wf v ∧ denotes (js " [ {'x':true} ,null] ") v ∧ denotes (js "[{'x':true},null]") (sorted_form v).
Proof.
  apply (canonicalize_preserves_value (js " [ {'x':true} ,null] ") (js "[{'x':true},null]")).
  vm_compute. reflexivity.
Defined.

(** Two well-formed values have the same canonical bytes exactly when they
    are the same JSON value up to the order of object members: the signed bytes
    of a payload determine the payload, and do not depend on how its members
    were ordered. *)
Theorem canonical_bytes_unique v w : wf v → wf w →
  (same_value v w → emitCanonicalJSONValue v = emitCanonicalJSONValue w) ∧
  (emitCanonicalJSONValue v = emitCanonicalJSONValue w → sorted_form v = sorted_form w).
Proof.
  intros Hv Hw. split; [|by apply emit_inj]. intros Hs.
  rewrite <- (emit_sorted_form v), <- (emit_sorted_form w). f_equal. by apply same_value_sorted.
Qed.

Definition sample_ab : json := JObj [(bs "b", JNum (bs "1")); (bs "a", JStr (bs "x"))].
Definition sample_ba : json := JObj [(bs "a", JStr (bs "x")); (bs "b", JNum (bs "1"))].

Lemma canonical_bytes_unique_witness :
  (same_value sample_ab sample_ba → emitCanonicalJSONValue sample_ab = emitCanonicalJSONValue sample_ba) ∧
  (emitCanonicalJSONValue sample_ab = emitCanonicalJSONValue sample_ba → sorted_form sample_ab = sorted_form sample_ba).
Proof.
  apply (canonical_bytes_unique sample_ab sample_ba);
    (split; [apply (bool_decide_unpack _); vm_compute; exact I|]; vm_compute; tauto).
Defined.

(** The parser terminates with an answer on every input: the fuel of the
    model, proportional to the input's length, is never exhausted. *)
Theorem parse_never_out_of_fuel input : CanonicalizeV1 input ≠ Err CFuel.
Proof.
  unfold CanonicalizeV1. repeat case_match; try done.
  intros [= ->]. unfold parseCanonicalJSONValue in *.
  eapply (proj1 (parse_fuel _)); [|eassumption]. cbn. lia.
Qed.

(** The number grammar in one line: an optional sign, an integer without a
    leading zero, an optional fraction that does not end in zero, and not a
    negative zero. *)
Definition canonical_number (s : bytes) : Prop :=
  ∃ sign i f, s = sign ++ i ++ f ∧ (sign = [] ∨ sign = [45]) ∧ int_text i ∧
    frac_text f ∧ last f ≠ Some 48 ∧ ¬ (sign = [45] ∧ i = [48] ∧ f = []).

Lemma json_digits_app d s : Forall (λ c, is_digit c = true) d → no_digit s → json_digits (d ++ s) = (d, s).
Proof.
  intros Hd Hs. induction Hd as [|c d Hc _ IH]; cbn [app].
  - destruct s as [|c t]; [done|]. cbn [json_digits]. cbn in Hs. by change (isJSONDigit c) with (is_digit c); rewrite Hs.
  - cbn [json_digits]. change (isJSONDigit c) with (is_digit c). by rewrite Hc, IH.
Qed.

Lemma number_tail_iff neg ip rest : number_tail neg ip rest = true ↔
  frac_text rest ∧ last rest ≠ Some 48 ∧ ¬ (neg = true ∧ ip = [48] ∧ rest = []).
Proof.
  destruct rest as [|c t].
  { unfold number_tail. cbn. rewrite negb_true_iff, andb_false_iff, beq_false.
    split; [intros H; split; [by left|]; split; [done|]; naive_solver|].
    intros (_ & _ & H). destruct neg; [right|by left]. naive_solver. }
  split.
  - intros H. split; [by eapply number_tail_frac|]. split; [|naive_solver]. revert H. cbn [number_tail].
    destruct (c =? 46); [|done]. destruct (json_digits t) as [d r] eqn:E.
    apply json_digits_spec in E as (-> & Hd & _). destruct d as [|x d]; [done|]. intros H. b2p. subst.
    rewrite app_nil_r. rewrite last_cons_cons. destruct (last (x :: d)) eqn:L; [cbn in *; congruence|done].
  - intros ([[=]|(d & [= -> ->] & Hne & Hd)] & Hl & _). cbn [number_tail]. rewrite Z.eqb_refl.
    rewrite <- (app_nil_r d) at 1. rewrite json_digits_app by done.
    destruct d as [|x d]; [done|]. rewrite last_cons_cons in Hl.
    destruct (last (x :: d)) as [y|] eqn:L; [|by apply last_None in L]. cbn [from_option id].
    rewrite (proj2 (Z.eqb_neq y 48)) by congruence. done.
Qed.

Lemma canonical_number_complete s : canonical_number s → canonicalJSONNumber s = true.
Proof.
  intros (sign & i & f & -> & Hsign & Hi & Hf & Hl & Hz). unfold canonicalJSONNumber.
  destruct (int_text_cons i Hi) as (c & t & Ei & Hc & Hc45).
  assert (beq (sign ++ i ++ f) [] || contains_any [101; 69; 43] (sign ++ i ++ f) = false) as ->.
  { apply orb_false_iff. split; [apply beq_false; rewrite Ei; by destruct sign|].
    apply not_true_is_false. intros (x & Hx & Hin)%existsb_exists.
    apply existsb_exists in Hin as (y & Hy & ->%Z.eqb_eq).
    assert (Forall (λ c, is_digit c = true ∨ c = 45 ∨ c = 46) (sign ++ i ++ f)) as Hall.
    { rewrite !Forall_app. repeat split.
      - destruct Hsign as [->| ->]; [constructor|apply Forall_singleton; auto].
      - destruct Hi as [->|(? & ? & -> & _ & Hd)]; [apply Forall_singleton; by left|].
        eapply Forall_impl; [exact Hd|]; auto.
      - destruct Hf as [->|(d & -> & _ & Hd)]; [constructor|]. constructor; [auto|].
        eapply Forall_impl; [exact Hd|]; auto. }
    rewrite Forall_forall in Hall. apply list_elem_of_In in Hx. specialize (Hall y Hx).
    cbn in Hy. unfold is_digit in Hall. destruct Hall as [Hd|[->| ->]]; [b2p; naive_solver lia|naive_solver..]. }
  assert (match sign ++ i ++ f with c :: t => if c =? 45 then (true, t) else (false, sign ++ i ++ f)
          | [] => (false, sign ++ i ++ f) end = (bool_decide (sign = [45]), i ++ f)) as ->.
  { destruct Hsign as [->| ->]; [|done]. rewrite Ei. cbn. by destruct (Z.eqb_spec c 45). }
  assert (number_tail (bool_decide (sign = [45])) i f = true) as Ht.
  { apply number_tail_iff. split; [done|]. split; [done|]. rewrite bool_decide_eq_true. naive_solver. }
  assert (no_digit f) as Hnf by (destruct Hf as [->|(? & -> & _)]; done).
  destruct Hi as [->|(c' & d & -> & Hc' & Hd)]; cbn [app].
  - destruct f as [|x f]; [done|]. cbn in Hnf. change (isJSONDigit x) with (is_digit x). by rewrite Hnf.
  - destruct (Z.eqb_spec c' 48); [lia|].
    rewrite (proj2 (Z.leb_le 49 c')), (proj2 (Z.leb_le c' 57)) by lia. cbn [andb].
    change (c' :: d ++ f) with ((c' :: d) ++ f). by rewrite json_digits_app.
Qed.

(** [canonicalJSONNumber] accepts exactly the canonical numbers: no
    exponent, no plus sign, no leading zero, no fraction ending in zero, no
    negative zero; every number has one spelling. *)
Theorem canonicalJSONNumber_grammar s : canonicalJSONNumber s = true ↔ canonical_number s.
Proof.
  split; [|apply canonical_number_complete].
  intros (sign & i & f & -> & Hs & Hi & Ht)%canonical_number_parts.
  apply number_tail_iff in Ht as (Hf & Hl & Hz). exists sign, i, f.
  rewrite bool_decide_eq_true in Hz. done.
Qed.

(** The NUL refusal covers string values and not object keys: a document
    with a NUL in a key is accepted and emitted with the key's escape. *)
Theorem nul_accepted_in_keys :
  CanonicalizeV1 (js "{'\u0000':1}") = Ok (js "{'\u0000':1}") ∧
  CanonicalizeV1 (js "'\u0000'") = Err CNul.
Proof. vm_compute. done. Qed.
