(* ===== verification/GoStruct.v ===== *)
(** * Decoding JSON into Go structs

    What [json.Unmarshal] and [Decoder.Decode] do with the destination types
    the sources use: an object's members as raw texts ([json.RawMessage]),
    field names matched exactly and then without case, unknown fields refused
    or skipped, [null] leaving a field as it was. *)

From S2P Require Import Prelude Utf8 GoJson CanonicalJson CanonicalJsonFacts.

(** ** One value, whatever it is *)

(** Step over one value: only the grammar is checked. *)
Fixpoint skip_value (fuel : nat) (d : decoder) : option decoder :=
  match fuel with
  | O => None
  | S f =>
    match Token d with
    | Err _ => None
    | Ok (TDelim c, d1) =>
      if c =? 123 then skip_members f d1 else if c =? 91 then skip_elems f d1 else None
    | Ok (_, d1) => Some d1
    end
  end
with skip_members (fuel : nat) (d : decoder) : option decoder :=
  match fuel with
  | O => None
  | S f =>
    if More d then
      match Token d with
      | Ok (TString _, d1) => match skip_value f d1 with Some d2 => skip_members f d2 | None => None end
      | _ => None
      end
    else match Token d with
         | Ok (TDelim c, d1) => if c =? 125 then Some d1 else None
         | _ => None end
  end
with skip_elems (fuel : nat) (d : decoder) : option decoder :=
  match fuel with
  | O => None
  | S f =>
    if More d then match skip_value f d with Some d1 => skip_elems f d1 | None => None end
    else match Token d with
         | Ok (TDelim c, d1) => if c =? 93 then Some d1 else None
         | _ => None end
  end.

(** What follows the value at the head of [s]. *)
Definition value_end (s : bytes) : option bytes :=
  d_rest <$> skip_value (2 * length s + 2) (NewDecoder s).

(** The one value of [s], without the white space around it: what
    [json.Unmarshal] decodes, or what [Decoder.Decode] reads when [strict] is
    false and text after the value is left unread. *)
Definition one_value (strict : bool) (s : bytes) : option bytes :=
  let s0 := skip_space s in
  match value_end s0 with
  | Some rest =>
    if strict && negb (beq (skip_space rest) []) then None else Some (span_to s0 rest)
  | None => None
  end.

(** ** The members of an object as raw texts *)

Definition after_colon (s : bytes) : bytes :=
  match skip_space s with
  | c :: t => if c =? 58 then skip_space t else s
  | [] => s
  end.

Fixpoint raw_members (fuel : nat) (d : decoder) (acc : list (bytes * bytes)) : option (list (bytes * bytes)) :=
  match fuel with
  | O => None
  | S f =>
    if More d then
      match Token d with
      | Ok (TString key, d1) =>
        let v := after_colon (d_rest d1) in
        match skip_value (2 * length (d_rest d1) + 2) d1 with
        | Some d2 => raw_members f d2 (acc ++ [(key, span_to v (d_rest d2))])
        | None => None
        end
      | _ => None
      end
    else match Token d with
         | Ok (TDelim c, _) => if c =? 125 then Some acc else None
         | _ => None end
  end.

Definition null_text : bytes := [110; 117; 108; 108].

(** The members of the object text [raw]; [null] decodes into a struct or a map
    as no members at all. *)
Definition members_of (raw : bytes) : option (list (bytes * bytes)) :=
  if beq raw null_text then Some []
  else match Token (NewDecoder raw) with
       | Ok (TDelim c, d) => if c =? 123 then raw_members (S (length raw)) d [] else None
       | _ => None
       end.

Fixpoint raw_elems (fuel : nat) (d : decoder) (acc : list bytes) : option (list bytes) :=
  match fuel with
  | O => None
  | S f =>
    if More d then
      let v := match d_state d with
               | ArrayComma => match skip_space (d_rest d) with _ :: t => skip_space t | [] => [] end
               | _ => skip_space (d_rest d) end in
      match skip_value (2 * length (d_rest d) + 2) d with
      | Some d1 => raw_elems f d1 (acc ++ [span_to v (d_rest d1)])
      | None => None
      end
    else match Token d with
         | Ok (TDelim c, _) => if c =? 93 then Some acc else None
         | _ => None end
  end.

(** The elements of the array text [raw]; [null] is the nil slice. *)
Definition elems_of (raw : bytes) : option (option (list bytes)) :=
  if beq raw null_text then Some None
  else match Token (NewDecoder raw) with
       | Ok (TDelim c, d) => if c =? 91 then Some <$> raw_elems (S (length raw)) d [] else None
       | _ => None
       end.

(** ** Fields *)

(** [foldName]: letters without case; the two non-ASCII runes that fold to
    ASCII letters are U+017F (long s) and U+212A (Kelvin sign). *)
Definition fold_rune (r : Z) : Z :=
  if between 97 122 r then r - 32 else if r =? 383 then 83 else if r =? 8490 then 75 else r.
Definition fold_name (s : bytes) : list Z := fold_rune <$> runes s.

Definition match_field (names : list bytes) (key : bytes) : option bytes :=
  if existsb (beq key) names then Some key
  else find (λ n, bool_decide (fold_name n = fold_name key)) names.

(** The members renamed to the struct's fields; an unknown member is refused
    under [DisallowUnknownFields] and skipped otherwise. *)
Fixpoint match_members (disallow : bool) (names : list bytes) (ms : list (bytes * bytes)) :
    option (list (bytes * bytes)) :=
  match ms with
  | [] => Some []
  | (k, raw) :: ms' =>
    match match_field names k with
    | Some n => cons (n, raw) <$> match_members disallow names ms'
    | None => if disallow then None else match_members disallow names ms'
    end
  end.

Definition struct_members (strict disallow : bool) (names : list bytes) (s : bytes) :
    option (list (bytes * bytes)) :=
  raw ← one_value strict s; ms ← members_of raw; match_members disallow names ms.

(** The texts a field was given, in order. *)
Definition occurrences (name : bytes) (ms : list (bytes * bytes)) : list bytes :=
  map snd (filter (λ kv, kv.1 = name) ms).

(** A field of a type with conversion [conv]: later members overwrite, [null]
    leaves the value, a text of another type is an error. *)
Definition field {A} (conv : bytes → option A) (zero : A) (name : bytes) (ms : list (bytes * bytes)) : option A :=
  foldl (λ acc raw, cur ← acc; if beq raw null_text then Some cur else conv raw)
        (Some zero) (occurrences name ms).

(** A [json.RawMessage] field: the text of its last member, [null] included. *)
Definition raw_field (name : bytes) (ms : list (bytes * bytes)) : bytes :=
  default [] (last (occurrences name ms)).
(** A pointer field [*json.RawMessage]: [null] resets it to nil. *)
Definition raw_ptr_field (name : bytes) (ms : list (bytes * bytes)) : option bytes :=
  match last (occurrences name ms) with
  | Some raw => if beq raw null_text then None else Some raw
  | None => None
  end.

Definition conv_string (raw : bytes) : option bytes :=
  match raw with
  | c :: t => if c =? 34 then fst <$> lex_string t else None
  | [] => None
  end.
Definition conv_uint64 (raw : bytes) : option Z := ParseUint raw.
Definition conv_int (raw : bytes) : option Z := ParseInt raw.
Definition conv_bool (raw : bytes) : option bool :=
  if beq raw [116; 114; 117; 101] then Some true
  else if beq raw [102; 97; 108; 115; 101] then Some false else None.

(** ** Slices

    Decoding an array into a slice reuses the elements of its backing array:
    a second member for the same field decodes over what the first one left.
    [slots] is the backing array, [len] how much of it is in view. *)

Record slice (A : Type) := mkSlice { slots : list A; len : nat }.
Arguments mkSlice {A} _ _.
Arguments slots {A} _.
Arguments len {A} _.

Definition nil_slice {A} : slice A := mkSlice [] 0.
Definition slice_items {A} (s : slice A) : list A := take (len s) (slots s).

(** Decode each text over the slot at its index, or over [zero] past the end. *)
Fixpoint fill_slots {A} (elem : A → bytes → option A) (zero : A) (old : list A) (raws : list bytes) : option (list A) :=
  match raws with
  | [] => Some old
  | raw :: raws' =>
    x ← elem (default zero (head old)) raw;
    cons x <$> fill_slots elem zero (tail old) raws'
  end.

Definition slice_conv {A} (elem : A → bytes → option A) (zero : A) (cur : slice A) (raw : bytes) : option (slice A) :=
  match elems_of raw with
  | Some None => Some nil_slice
  | Some (Some []) => Some nil_slice
  | Some (Some raws) => (λ l, mkSlice l (length raws)) <$> fill_slots elem zero (slots cur) raws
  | None => None
  end.

(** A field of slice type, from its members in order. *)
Definition slice_field {A} (elem : A → bytes → option A) (zero : A) (name : bytes) (ms : list (bytes * bytes)) : option (list A) :=
  slice_items <$> foldl (λ acc raw, cur ← acc; slice_conv elem zero cur raw) (Some nil_slice) (occurrences name ms).

(** ** Raw texts the parser reads are delimited values *)

Lemma skip_relaxes n :
  (∀ d v d', parse_value n d = Ok (v, d') → skip_value n d = Some d') ∧
  (∀ d acc v d', parse_members n d acc = Ok (v, d') → skip_members n d = Some d') ∧
  (∀ d acc v d', parse_elems n d acc = Ok (v, d') → skip_elems n d = Some d').
Proof.
  induction n as [|n (IHv & IHm & IHe)]; [done|]. repeat split; intros d; [intros v d'|intros acc v d'..];
    cbn [parse_value parse_members parse_elems skip_value skip_members skip_elems].
  - destruct (Token d) as [[[] d1]|]; try done; intros H; repeat case_match; simplify_eq; eauto.
  - case_match.
    + destruct (Token d) as [[[] d1]|]; try done. case_match; [done|].
      destruct (parse_value n d1) as [[w d2]|] eqn:P; [|done]. rewrite (IHv _ _ _ P). apply IHm.
    + destruct (Token d) as [[[] d1]|]; try done. by case_match; [intros [= _ <-]|].
  - case_match.
    + destruct (parse_value n d) as [[w d2]|] eqn:P; [|done]. rewrite (IHv _ _ _ P). apply IHe.
    + destruct (Token d) as [[[] d1]|]; try done. by case_match; [intros [= _ <-]|].
Qed.

(** A text the parser reads with fuel its length pays for. *)
Definition value_text (raw : bytes) (v : json) : Prop :=
  starts raw ∧ ∃ need, (need ≤ 2 * length raw)%nat ∧ reads need raw v.

Lemma skip_value_text raw v n st stk rest : value_text raw v → (2 * length raw ≤ n)%nat →
  tokenValueAllowed st = true → delim rest →
  skip_value n (Dec (raw ++ rest) st stk) = Some (Dec rest (tokenValueEnd st) stk).
Proof.
  intros (_ & need & Hn & Hr) Hle Hst Hd.
  eapply (proj1 (skip_relaxes n)). apply Hr; [lia|done|done].
Qed.

Lemma value_end_text raw v rest : value_text raw v → delim rest → value_end (raw ++ rest) = Some rest.
Proof.
  intros Hv Hd. unfold value_end, NewDecoder. erewrite skip_value_text; [done|done| |done|done].
  rewrite length_app. lia.
Qed.

Lemma skip_space_starts raw t : starts raw → skip_space (raw ++ t) = raw ++ t.
Proof. intros (c & u & -> & H & _). cbn. by rewrite H. Qed.

Lemma one_value_text strict raw v : value_text raw v → one_value strict raw = Some raw.
Proof.
  intros Hv. pose proof (value_end_text raw v [] Hv I) as He.
  unfold one_value. pose proof (skip_space_starts raw [] (proj1 Hv)) as Hs.
  rewrite app_nil_r in He, Hs. rewrite Hs, He. cbn. rewrite beq_refl, andb_false_r.
  f_equal. rewrite <- (app_nil_r raw) at 1. apply span_to_app.
Qed.

(** ** Members whose texts are delimited values *)

Definition solid (mb : member) : Prop :=
  key_text (mb_key_text mb) (mb_key mb) ∧ starts (mb_raw mb) ∧
  (mb_need mb ≤ 2 * length (mb_raw mb))%nat ∧ reads (mb_need mb) (mb_raw mb) (mb_value mb).

Lemma solid_good ms : Forall solid ms → Forall good_member ms.
Proof. intros H. eapply Forall_impl; [exact H|]. intros mb (? & _ & _ & ?). by split. Qed.

Lemma object_value_text ms : Forall solid ms → NoDup (map mb_key ms) →
  value_text (object_text ms) (JObj (map member_value ms)).
Proof.
  intros Hs Hnd. split; [by eexists _, _|].
  exists (S (S (members_need ms))). split.
  - apply object_text_size. eapply Forall_impl; [exact Hs|]. by intros mb (_ & _ & ? & _).
  - apply reads_object; auto using solid_good.
Qed.

Lemma skip_value_token n d d' : Token d = Token d' → skip_value n d = skip_value n d'.
Proof. intros H. destruct n; cbn; [done|]. by rewrite H. Qed.

Definition raw_member (mb : member) : bytes * bytes := (mb_key mb, mb_raw mb).

Lemma raw_member_step mb rest stk st : solid mb → st = ObjectStart ∨ st = ObjectKey → delim rest →
  ∃ d1, Token (Dec (member_text mb ++ rest) st stk) = Ok (TString (mb_key mb), d1) ∧
    after_colon (d_rest d1) = mb_raw mb ++ rest ∧
    skip_value (2 * length (d_rest d1) + 2) d1 = Some (Dec rest ObjectComma stk).
Proof.
  intros ((_ & Hk) & Hs & Hn & Hr) Hst Hd. unfold member_text. rewrite <- app_assoc. cbn [app].
  eexists. split; [by apply Hk|]. split.
  - cbn. by apply skip_space_starts.
  - rewrite (skip_value_token _ _ (Dec (mb_raw mb ++ rest) ObjectValue stk)) by done.
    erewrite skip_value_text; [done| | |done|done].
    + split; [done|]. by eexists.
    + cbn. rewrite length_app. lia.
Qed.

Lemma raw_members_tail ms : Forall solid ms → ∀ n rest stk acc, (length ms < n)%nat →
  raw_members n (Dec (tail_text (map member_text ms) ++ 125 :: rest) ObjectComma (TopValue :: stk)) acc =
    Some (acc ++ map raw_member ms).
Proof.
  induction 1 as [|mb ms Hmb _ IH]; intros n rest stk acc Hn; (destruct n as [|n]; [cbn in Hn; lia|]).
  - cbn. by rewrite app_nil_r.
  - cbn [map length] in *.
    change (tail_text (member_text mb :: map member_text ms)) with (44 :: member_text mb ++ tail_text (map member_text ms)).
    cbn [raw_members app]. rewrite More_head by done. rewrite <- app_assoc.
    change (Token (Dec (44 :: ?s) ObjectComma ?k)) with (Token (Dec s ObjectKey k)).
    destruct (raw_member_step mb (tail_text (map member_text ms) ++ 125 :: rest) (TopValue :: stk) ObjectKey)
      as (d1 & -> & -> & ->); [done|by right|by apply tail_text_delim; right|].
    cbn [d_rest]. rewrite span_to_app, IH by lia. by rewrite <- app_assoc.
Qed.

Lemma members_of_object ms : Forall solid ms → members_of (object_text ms) = Some (map raw_member ms).
Proof.
  intros Hs. unfold members_of, object_text.
  change (beq (123 :: ?x) null_text) with false. cbn -[raw_members comma_join length].
  pose proof Hs as Hs'. destruct Hs' as [|mb ms Hmb Hm]; [done|]. cbn [map].
  rewrite comma_join_cons, <- app_assoc. cbn [raw_members].
  assert (∀ x, More (Dec (member_text mb ++ x) ObjectStart [TopValue]) = true) as ->.
  { intros x. destruct Hmb as ((( kt & Hkt) & _) & _). unfold member_text. rewrite Hkt. cbn [app].
    by apply More_head. }
  destruct (raw_member_step mb (tail_text (map member_text ms) ++ [125]) [TopValue] ObjectStart)
    as (d1 & -> & -> & ->); [done|by left|by apply tail_text_delim; right|].
  cbn [d_rest]. rewrite span_to_app. rewrite raw_members_tail; [done|done|].
  cbn [length]. rewrite length_app. unfold tail_text.
  pose proof (concat_length_ge (map (cons 44) (map member_text ms))) as Hl.
  rewrite !length_map in Hl. rewrite length_app. cbn [length].
  assert (Forall (λ e : bytes, e ≠ []) (map (cons 44) (map member_text ms)));
    [by apply Forall_map, Forall_true|]. specialize (Hl H). lia.
Qed.

(** ** The texts the encoders write *)

Lemma json_string_app html s rest :
  json_string html s ++ rest = 34 :: concat (escape_rune html <$> decoded s) ++ 34 :: rest.
Proof. unfold json_string. cbn. by rewrite <- app_assoc. Qed.

Lemma key_text_json html k : Valid k = true → key_text (json_string html k) k.
Proof.
  intros Hk. split; [by eexists|]. intros rest st stk Hst. rewrite json_string_app.
  unfold Token. cbn -[lex_string].
  destruct Hst as [->| ->]; cbn -[lex_string]; by rewrite lex_json_string.
Qed.

Lemma conv_json_string html s : Valid s = true → conv_string (json_string html s) = Some s.
Proof.
  intros Hs. pose proof (json_string_app html s []) as E. rewrite app_nil_r in E. rewrite E.
  cbn -[lex_string]. by rewrite lex_json_string.
Qed.

Lemma json_string_value html s : Valid s = true → existsb (Z.eqb 0) s = false →
  value_text (json_string html s) (JStr s).
Proof.
  intros Hs H0. split; [by eexists _, _|]. exists 1%nat.
  split; [cbn; lia|]. intros n st stk rest Hn Hst Hr. destruct n; [lia|]. cbn [parse_value].
  rewrite json_string_app. unfold Token. cbn -[lex_string].
  destruct st; try done; cbn -[lex_string]; unfold lex_scalar; cbn -[lex_string];
    rewrite lex_json_string by done; by rewrite H0.
Qed.

Lemma number_value s : canonicalJSONNumber s = true → value_text s (JNum s).
Proof.
  intros Hs. pose proof (emit_head (JNum s) Hs) as (c & t & E & H1 & H2 & H3). cbn in E.
  split; [by exists c, t|]. exists 1%nat. split; [rewrite E; cbn; lia|].
  intros n st stk rest Hn Hst Hr. destruct n; [lia|]. cbn [parse_value].
  rewrite token_number by done. by rewrite Hs.
Qed.

Lemma nzhead_no_zero d d' : Decimal.nzhead d ≠ Decimal.D0 d'.
Proof. induction d; cbn; done. Qed.

Lemma int_text_format z : int_text (FormatUint z).
Proof.
  unfold FormatUint. set (n := Z.to_N z).
  assert (N.to_uint n = Decimal.unorm (N.to_uint n)) as ->.
  { rewrite <- DecimalN.Unsigned.to_of. by rewrite DecimalN.Unsigned.of_to. }
  unfold Decimal.unorm. pose proof (uint_bytes_digits (Decimal.nzhead (N.to_uint n))) as Hd.
  pose proof (nzhead_no_zero (N.to_uint n)) as Hz.
  destruct (Decimal.nzhead (N.to_uint n)) as [|d|d|d|d|d|d|d|d|d|d]; [by left|by destruct (Hz d)|..];
    right; eexists _, _; (split; [reflexivity|]); (split; [lia|exact Hd]).
Qed.

Lemma FormatUint_number z : canonicalJSONNumber (FormatUint z) = true.
Proof.
  apply canonical_number_complete. exists [], (FormatUint z), [].
  rewrite app_nil_r. repeat split; [by left|apply int_text_format|by left|done|naive_solver].
Qed.

Lemma FormatInt_number z : canonicalJSONNumber (FormatInt z) = true.
Proof.
  unfold FormatInt. destruct (Z.ltb_spec z 0); [|apply FormatUint_number].
  apply canonical_number_complete. exists [45], (FormatUint (- z)), [].
  rewrite app_nil_r. repeat split; [by right|apply int_text_format|by left|done|].
  intros (_ & E & _). change [48] with (FormatUint 0) in E. apply FormatUint_inj in E; lia.
Qed.

Lemma canonical_value s : canonical s → ∃ v, wf v ∧ s = emitCanonicalJSONValue v ∧ value_text s (sorted_form v).
Proof.
  intros (v & Hv & ->)%canonical_emit. exists v. split; [done|]. split; [done|].
  split; [by apply emit_head|]. exists (jsize v). split; [by apply jsize_emit|by apply wf_parses].
Qed.

(** ** Objects as the sources write them: quoted names, then a raw text *)

Definition field_text (kv : bytes * bytes) : bytes := json_string false kv.1 ++ 58 :: kv.2.
Definition field_object (l : list (bytes * bytes)) : bytes := 123 :: comma_join (map field_text l) ++ [125].

(** A text that both readers accept, as the well-formed value [v]. *)
Definition tidy (raw : bytes) (v : json) : Prop :=
  value_text raw v ∧ Valid raw = true ∧ plain_outside raw ∧ wf v.

Definition tidy_fields (l : list (bytes * bytes)) (vs : list json) : Prop :=
  Forall2 (λ kv v, Valid kv.1 = true ∧ tidy kv.2 v) l vs.

Lemma canonicalize_tidy raw v : tidy raw v → CanonicalizeV1 raw = Ok (emitCanonicalJSONValue v).
Proof.
  intros ((_ & need & Hn & Hr) & Hv & Hp & _). unfold CanonicalizeV1. rewrite Hv.
  unfold validateJSONUnicodeEscapes. pose proof (Hp []) as Hp0. rewrite app_nil_r in Hp0. rewrite Hp0.
  cbn [negb validate_from]. unfold parseCanonicalJSONValue, NewDecoder. cbn [d_rest].
  rewrite <- (app_nil_r raw) at 2. rewrite Hr; [done|lia|done|done].
Qed.

Lemma short_escape_ascii r e : short_escape r = Some e → 0 ≤ e < 128.
Proof. unfold short_escape. intros H. repeat case_match; simplify_eq; lia. Qed.

Lemma Valid_json_string html s : Valid s = true → Valid (json_string html s) = true.
Proof.
  intros Hs. apply Valid_cons; [lia|]. apply Valid_app; [|done]. apply Valid_concat, Forall_fmap, Forall_true.
  intros [r w]. change (Valid (escape_rune html (r, w)) = true). unfold escape_rune. destruct (short_escape r) as [e|] eqn:E.
  - apply short_escape_ascii in E. apply Valid_ascii, Forall_cons. split; [lia|]. by apply Forall_singleton.
  - repeat case_match; auto using Valid_u_escape, Valid_EncodeRune.
Qed.

Lemma plain_inside_escape_rune html r : valid_rune r →
  plain_inside (escape_rune html (r, length (EncodeRune r))).
Proof.
  intros Hr. pose proof Hr as Hr'. unfold valid_rune in Hr'. unfold escape_rune.
  destruct (short_escape r) as [e|] eqn:Hs.
  { intros t. unfold short_escape in Hs. repeat case_match; simplify_eq; reflexivity. }
  assert (r ≠ 34 ∧ r ≠ 92) as [H1 H2] by (split; intros ->; discriminate Hs).
  destruct (Z.ltb_spec r 32); [apply plain_inside_u_escape; lia|].
  destruct (html && _) eqn:E.
  { apply andb_true_iff in E as [_ E]. rewrite !orb_true_iff, !Z.eqb_eq in E. apply plain_inside_u_escape. lia. }
  clear E. destruct ((r =? RuneError) && _) eqn:E; [b2p; subst; by intros t|].
  clear E. destruct ((r =? 8232) || (r =? 8233)) eqn:E.
  { rewrite !orb_true_iff, !Z.eqb_eq in E. apply plain_inside_u_escape. lia. }
  pose proof (plain_inside_emit_rune r Hr) as H0. unfold emit_rune in H0.
  unfold short_escape in Hs. repeat case_match; simplify_eq; try done; b2p; lia.
Qed.

Lemma plain_outside_json html s : Valid s = true → plain_outside (json_string html s).
Proof.
  intros (rs & Hrs & ->)%Valid_iff t. rewrite json_string_app, decoded_encode_runes by done. cbn.
  induction Hrs as [|r rs Hr _ IH]; [done|]. rewrite !fmap_cons. cbn [concat].
  by rewrite <- app_assoc, plain_inside_escape_rune.
Qed.

Lemma plain_outside_number s : canonicalJSONNumber s = true → plain_outside s.
Proof. exact (plain_outside_emit (JNum s)). Qed.

Lemma tidy_string html s : Valid s = true → existsb (Z.eqb 0) s = false → tidy (json_string html s) (JStr s).
Proof. intros Hs H0. split; [by apply json_string_value|]. by repeat split; auto using Valid_json_string, plain_outside_json. Qed.

Lemma tidy_number s : canonicalJSONNumber s = true → tidy s (JNum s).
Proof. intros Hs. repeat split; auto using Valid_number, plain_outside_number; by apply number_value. Qed.

Lemma tidy_canonical s : canonical s → ∃ v, tidy s v ∧ s = emitCanonicalJSONValue v ∧ wf v.
Proof.
  intros (v & Hv & E & Ht)%canonical_value. exists (sorted_form v).
  rewrite emit_sorted_form. assert (wf (sorted_form v)).
  { pose proof (denotes_emit v Hv) as (d & P & _). by eapply (proj1 (parse_wf _)). }
  repeat split; try done; try apply Ht; rewrite E; auto using Valid_emit, plain_outside_emit.
Qed.

Lemma tidy_members l vs : tidy_fields l vs →
  ∃ ms, Forall solid ms ∧ object_text ms = field_object l ∧ map raw_member ms = l ∧
    map member_value ms = zip l.*1 vs ∧ map mb_key ms = l.*1.
Proof.
  intros H. cut (∃ ms, Forall solid ms ∧ map member_text ms = map field_text l ∧ map raw_member ms = l ∧
    map member_value ms = zip l.*1 vs ∧ map mb_key ms = l.*1).
  { intros (ms & ? & E & ?). exists ms. split; [done|]. split; [|done]. unfold object_text, field_object. by rewrite E. }
  induction H as [|[k raw] v l vs [Hk ((Hs & need & Hn & Hr) & _)] _ (ms & IH1 & IH2 & IH3 & IH4 & IH5)].
  { by exists []. }
  exists (Member (json_string false k) k raw v need :: ms). cbn in *. rewrite IH2, IH3, IH4, IH5.
  split; [|done]. constructor; [|done]. split; [by apply key_text_json|]. done.
Qed.

Lemma tidy_object l vs : tidy_fields l vs → NoDup l.*1 → tidy (field_object l) (JObj (zip l.*1 vs)).
Proof.
  intros H Hnd. destruct (tidy_members l vs H) as (ms & Hs & E & _ & Hv & Hk). split.
  { rewrite <- E, <- Hv. apply object_value_text; [done|by rewrite Hk]. }
  assert (Forall (λ s, Valid s = true ∧ plain_outside s) (map field_text l)) as Hl.
  { clear -H. induction H as [|kv v l vs (? & _ & ? & ? & _) _ IH]; constructor; auto. unfold field_text. split.
    - apply Valid_app; [by apply Valid_json_string|]. by apply Valid_cons.
    - apply plain_outside_app; [by apply plain_outside_json|]. by apply plain_outside_cons. }
  apply Forall_and in Hl as [Hl1 Hl2]. unfold field_object. split; [|split].
  - apply Valid_cons; [lia|]. apply Valid_app; [by apply Valid_comma_join|done].
  - apply plain_outside_cons; [done|]. apply plain_outside_app; [by apply plain_outside_join|].
    by apply plain_outside_cons; [|intros t].
  - apply wf_obj. rewrite fst_zip by (apply Forall2_length in H; rewrite length_fmap; lia). split; [done|].
    clear -H. induction H as [|kv v l vs (? & ? & ? & ? & ?) _ IH]; cbn; constructor; auto.
Qed.

Lemma members_of_fields l vs : tidy_fields l vs → members_of (field_object l) = Some l.
Proof. intros (ms & Hs & <- & E & _)%tidy_members. by rewrite members_of_object, E. Qed.

Lemma match_members_all d names l : Forall (λ kv, existsb (beq kv.1) names = true) l →
  match_members d names l = Some l.
Proof.
  induction 1 as [|[k raw] l Hk _ IH]; [done|]. cbn in *. unfold match_field. by rewrite Hk, IH.
Qed.

Lemma struct_members_fields strict d names l vs : tidy_fields l vs → NoDup l.*1 →
  Forall (λ kv, existsb (beq kv.1) names = true) l →
  struct_members strict d names (field_object l) = Some l.
Proof.
  intros H Hnd Hn. destruct (tidy_object l vs H Hnd) as [Ht _].
  unfold struct_members. erewrite one_value_text by done. cbn.
  erewrite members_of_fields by done. cbn. by apply match_members_all.
Qed.

Lemma occurrences_none name l : name ∉ l.*1 → occurrences name l = [].
Proof.
  intros H. unfold occurrences. induction l as [|kv l IH]; [done|]. cbn in H.
  apply not_elem_of_cons in H as [Hk H]. rewrite filter_cons, decide_False by congruence. by apply IH.
Qed.

Lemma occurrences_one name l raw : NoDup l.*1 → (name, raw) ∈ l → occurrences name l = [raw].
Proof.
  intros Hnd Hin. unfold occurrences. induction l as [|[k r] l IH]; [by apply elem_of_nil in Hin|].
  apply NoDup_cons in Hnd as [Hk Hnd]. rewrite filter_cons. apply elem_of_cons in Hin as [[= <- <-]|Hin].
  - rewrite decide_True by done. cbn. f_equal. by apply occurrences_none.
  - rewrite decide_False; [auto|]. cbn. intros ->. apply Hk. by apply (list_elem_of_fmap_2 fst _ (name, raw)).
Qed.

Lemma field_at {A} (conv : bytes → option A) zero name l raw a :
  NoDup l.*1 → (name, raw) ∈ l → conv null_text = None → conv raw = Some a →
  field conv zero name l = Some a.
Proof.
  intros Hnd Hin Hnull Hc. unfold field. rewrite (occurrences_one _ _ _ Hnd Hin). cbn.
  destruct (beq raw null_text) eqn:E; [|done]. b2p. congruence.
Qed.

Lemma field_absent {A} (conv : bytes → option A) zero name l : name ∉ l.*1 → field conv zero name l = Some zero.
Proof. intros H. unfold field. by rewrite occurrences_none. Qed.

Lemma raw_field_at name l raw : NoDup l.*1 → (name, raw) ∈ l → raw_field name l = raw.
Proof. intros Hnd Hin. unfold raw_field. by rewrite (occurrences_one _ _ _ Hnd Hin). Qed.


(** A field holds its zero value or what its conversion read. *)
Lemma field_from {A} (conv : bytes → option A) zero name ms a :
  field conv zero name ms = Some a → a = zero ∨ ∃ raw, conv raw = Some a.
Proof.
  unfold field. generalize (occurrences name ms) as l. intros l.
  induction l as [|raw l IH] using rev_ind; cbn; [intros [= <-]; by left|].
  rewrite foldl_app. cbn. destruct (foldl _ _ l) as [cur|] eqn:E; cbn; [|done].
  case_match; [intros [= <-]; by apply IH|eauto].
Qed.

Lemma field_string_valid name ms a : field conv_string [] name ms = Some a → Valid a = true.
Proof.
  intros [->|(raw & H)]%field_from; [done|]. unfold conv_string in H. repeat case_match; try done.
  destruct (lex_string l) as [[s t]|] eqn:E; [|done]. injection H as ->. by apply lex_string_valid in E as [].
Qed.

Lemma field_uint64_range name ms a : field conv_uint64 0 name ms = Some a → 0 ≤ a < two64.
Proof.
  intros [->|(raw & H)]%field_from; [unfold two64; lia|]. unfold conv_uint64, ParseUint in H.
  repeat case_match; simplify_eq. b2p. lia.
Qed.

Lemma field_int_range name ms a : field conv_int 0 name ms = Some a → int64_ok a = true.
Proof.
  intros [->|(raw & H)]%field_from; [done|]. unfold conv_int, ParseInt in H. by repeat case_match; simplify_eq.
Qed.

(** ** Reading back from a prefix *)

Lemma json_string_prefix html s s' r r' : Valid s = true → Valid s' = true →
  json_string html s ++ r = json_string html s' ++ r' → s = s' ∧ r = r'.
Proof.
  intros Hs Hs'. rewrite !json_string_app. intros [= E].
  pose proof (lex_json_string html s r Hs) as H. rewrite E, lex_json_string in H by done. by simplify_eq.
Qed.

Lemma FormatUint_prefix z z' r r' : 0 ≤ z → 0 ≤ z' → no_digit r → no_digit r' →
  FormatUint z ++ r = FormatUint z' ++ r' → z = z' ∧ r = r'.
Proof.
  intros Hz Hz' Hr Hr' E. pose proof (digits_app _ _ (FormatUint_digits z) Hr) as H.
  rewrite E, digits_app in H by (auto using FormatUint_digits). simplify_eq. split; [|done].
  by apply FormatUint_inj.
Qed.

Lemma FormatInt_prefix z z' r r' : no_digit r → no_digit r' →
  FormatInt z ++ r = FormatInt z' ++ r' → z = z' ∧ r = r'.
Proof.
  intros Hr Hr'. unfold FormatInt.
  assert (∀ x s t, 0 ≤ x → FormatUint x ++ s ≠ 45 :: t) as Hne.
  { intros x s t _. destruct (FormatUint_cons x) as (c & u & -> & Hc). cbn. intros [= -> _]. done. }
  destruct (Z.ltb_spec z 0), (Z.ltb_spec z' 0); cbn [app].
  - intros [= E]. apply FormatUint_prefix in E as [? ?]; [split; [lia|done]|lia|lia|done|done].
  - intros E. symmetry in E. by apply Hne in E.
  - intros E. by apply Hne in E.
  - apply FormatUint_prefix; done.
Qed.
