(* ===== verification/Crypto.v ===== *)
(** * internal/crypto: hashes, signatures and key files

    SHA-256, ML-DSA-87 and SLH-DSA are an interface ([Primitives]) whose laws
    are what the sources rely on: a digest is 32 bytes, and a signature made
    with a private key verifies under its public key.  Everything above them
    (fingerprints, base64 texts, the key file format) is modelled. *)

From S2P Require Import Prelude Utf8.

(** ** [base64.StdEncoding] *)

Definition b64_char (n : Z) : Z :=
  if n <? 26 then 65 + n else if n <? 52 then 71 + n else if n <? 62 then n - 4
  else if n =? 62 then 43 else 47.

Definition b64_value (c : Z) : option Z :=
  if between 65 90 c then Some (c - 65)
  else if between 97 122 c then Some (c - 71)
  else if between 48 57 c then Some (c + 4)
  else if c =? 43 then Some 62 else if c =? 47 then Some 63 else None.

Fixpoint b64_encode (s : bytes) : bytes :=
  match s with
  | a :: b :: c :: t =>
    let v := a * 65536 + b * 256 + c in
    b64_char (v / 262144) :: b64_char (v / 4096 mod 64) :: b64_char (v / 64 mod 64) :: b64_char (v mod 64)
      :: b64_encode t
  | [a; b] =>
    let v := a * 65536 + b * 256 in
    [b64_char (v / 262144); b64_char (v / 4096 mod 64); b64_char (v / 64 mod 64); 61]
  | [a] =>
    let v := a * 65536 in [b64_char (v / 262144); b64_char (v / 4096 mod 64); 61; 61]
  | [] => []
  end.

(** Quanta of four characters, line ends already removed; padding only in the
    last quantum, whose spare bits are not checked. *)
Fixpoint b64_quanta (s : bytes) : option bytes :=
  match s with
  | [] => Some []
  | c0 :: c1 :: c2 :: c3 :: t =>
    match b64_value c0, b64_value c1 with
    | Some x0, Some x1 =>
      if (c2 =? 61) && (c3 =? 61) then
        match t with [] => Some [x0 * 4 + x1 / 16] | _ => None end
      else match b64_value c2 with
      | Some x2 =>
        if c3 =? 61 then
          match t with [] => Some [x0 * 4 + x1 / 16; x1 mod 16 * 16 + x2 / 4] | _ => None end
        else match b64_value c3 with
        | Some x3 =>
          match b64_quanta t with
          | Some r => Some (x0 * 4 + x1 / 16 :: x1 mod 16 * 16 + x2 / 4 :: x2 mod 4 * 64 + x3 :: r)
          | None => None
          end
        | None => None
        end
      | None => None
      end
    | _, _ => None
    end
  | _ => None
  end.

(** [DecodeString]: carriage returns and newlines are ignored. *)
Definition b64_decode (s : bytes) : option bytes :=
  b64_quanta (List.filter (λ c, negb ((c =? 10) || (c =? 13))) s).

Lemma b64_value_char n : 0 ≤ n < 64 → b64_value (b64_char n) = Some n.
Proof.
  intros. unfold b64_value, b64_char.
  destruct (Z.ltb_spec n 26); [eval_ranges; f_equal; lia|].
  destruct (Z.ltb_spec n 52); [eval_ranges; f_equal; lia|].
  destruct (Z.ltb_spec n 62); [eval_ranges; f_equal; lia|].
  destruct (Z.eqb_spec n 62) as [->|]; [done|]. by replace n with 63 by lia.
Qed.

Lemma b64_char_range n : 0 ≤ n < 64 → 43 ≤ b64_char n ≤ 122 ∧ b64_char n ≠ 61.
Proof. intros. unfold b64_char. repeat case_match; b2p; lia. Qed.

Lemma list_ind3 {A} (P : list A → Prop) :
  P [] → (∀ a, P [a]) → (∀ a b, P [a; b]) → (∀ a b c t, P t → P (a :: b :: c :: t)) → ∀ l, P l.
Proof.
  intros H0 H1 H2 H3. fix IH 1.
  intros [|a [|b [|c t]]]; [exact H0|exact (H1 a)|exact (H2 a b)|exact (H3 a b c t (IH t))].
Qed.

Lemma b64_encode_chars s : Forall is_byte s → Forall (λ c, 43 ≤ c ≤ 122) (b64_encode s).
Proof.
  induction s as [|a|a b|a b c t IH] using list_ind3; intros Hs; cbn [b64_encode];
    repeat (apply Forall_cons in Hs as [? Hs]); unfold is_byte in *;
    repeat (apply Forall_cons; split; [try lia; apply b64_char_range; zlia|]); auto.
Qed.

Lemma b64_quanta_encode s : Forall is_byte s → b64_quanta (b64_encode s) = Some s.
Proof.
  induction s as [|a|a b|a b c t IH] using list_ind3; intros Hs; [done|..];
    repeat (apply Forall_cons in Hs as [? Hs]); unfold is_byte in *; cbn [b64_encode b64_quanta].
  - rewrite !b64_value_char by zlia. cbn. do 2 f_equal. zlia.
  - rewrite !b64_value_char by zlia.
    destruct (b64_char_range ((a * 65536 + b * 256) / 64 mod 64)) as [_ Hne]; [zlia|].
    rewrite (proj2 (Z.eqb_neq _ _) Hne). cbn. repeat f_equal; zlia.
  - rewrite !b64_value_char by zlia.
    destruct (b64_char_range ((a * 65536 + b * 256 + c) / 64 mod 64)) as [_ Hne]; [zlia|].
    destruct (b64_char_range ((a * 65536 + b * 256 + c) mod 64)) as [_ Hne']; [zlia|].
    rewrite (proj2 (Z.eqb_neq _ _) Hne), (proj2 (Z.eqb_neq _ _) Hne'). cbn.
    rewrite IH by done. repeat f_equal; zlia.
Qed.

Lemma b64_decode_encode s : Forall is_byte s → b64_decode (b64_encode s) = Some s.
Proof.
  intros Hs. unfold b64_decode. etrans; [|exact (b64_quanta_encode s Hs)]. f_equal.
  pose proof (b64_encode_chars s Hs) as Hc. induction Hc as [|c l Hc _ IH]; [done|]. cbn.
  rewrite (proj2 (Z.eqb_neq c 10)), (proj2 (Z.eqb_neq c 13)) by lia. cbn. by rewrite IH.
Qed.

Lemma Valid_b64 s : Forall is_byte s → Valid (b64_encode s) = true ∧ existsb (Z.eqb 0) (b64_encode s) = false.
Proof.
  intros Hs. pose proof (b64_encode_chars s Hs) as Hc. split.
  - apply Valid_ascii. eapply Forall_impl; [exact Hc|]. cbn. lia.
  - apply not_true_is_false. intros (x & Hx & <-%Z.eqb_eq)%existsb_exists.
    rewrite Forall_forall in Hc. apply list_elem_of_In in Hx. specialize (Hc 0 Hx). lia.
Qed.

(** ** The cryptographic primitives *)

Class Primitives := {
  sha256 : bytes → bytes;
  privkey : Type;
  (** [sk.Bytes()] and [mldsa.NewPrivateKey]. *)
  priv_bytes : privkey → bytes;
  priv_parse : bytes → option privkey;
  priv_public : privkey → bytes;
  priv_sign : privkey → bytes → option bytes;
  (** [mldsa.NewPublicKey] followed by [mldsa.Verify]. *)
  mldsa_key_ok : bytes → bool;
  mldsa_verify : bytes → bytes → bytes → bool;
  (** [slh.LoadPublicKey], [LoadSignature] and [Verify]. *)
  slh_verify : bytes → bytes → bytes → bool;
}.

Class PrimitiveLaws (P : Primitives) := {
  sha256_len : ∀ m, length (sha256 m) = 32%nat;
  sha256_bytes : ∀ m, Forall is_byte (sha256 m);
  priv_parse_bytes : ∀ sk, priv_parse (priv_bytes sk) = Some sk;
  priv_sign_verifies : ∀ sk m sig, priv_sign sk m = Some sig →
    mldsa_key_ok (priv_public sk) = true ∧ mldsa_verify (priv_public sk) m sig = true;
  priv_sign_bytes : ∀ sk m sig, priv_sign sk m = Some sig → Forall is_byte sig ∧ sig ≠ [];
}.

Definition SigAlg : bytes := bs "ML-DSA-87".
Definition SLHAlg : bytes := bs "SLH-DSA-SHA2-256s".
Definition ProfileRoot : bytes := bs "AIII-PQ-SIGNATURE-V1-ROOT".

Section Crypto.
Context `{P : Primitives}.

Record KeyPair := { Algorithm : bytes; PublicKey : bytes; PrivateKey : option privkey }.

Inductive crypto_err :=
| ENoPrivateKey | ESignFailed | EInvalidPublicKey | EVerifyFailed
| EKeyTooShort | EKeyTruncated | EBadPrivateKey | EKeyCorrupt | EIncompleteKeyPair
| ESLHFailed.

Definition ContentHash (payload : bytes) : bytes := hex_encode (sha256 payload).
Definition PublicKeyFingerprint (pub : bytes) : bytes := hex_encode (sha256 pub).
Definition Fingerprint (kp : KeyPair) : bytes := hex_encode (sha256 (PublicKey kp)).
Definition VerifyFingerprint (pub fingerprint : bytes) : bool :=
  beq (hex_encode (sha256 pub)) fingerprint.
Definition PublicKeyB64 (kp : KeyPair) : bytes := b64_encode (PublicKey kp).

Definition Sign (kp : KeyPair) (message : bytes) : result crypto_err bytes :=
  match PrivateKey kp with
  | None => Err ENoPrivateKey
  | Some sk => of_option ESignFailed (priv_sign sk message)
  end.

Definition SignB64 (kp : KeyPair) (message : bytes) : result crypto_err bytes :=
  sig ← Sign kp message; mret (b64_encode sig).

Definition Verify (pub message signature : bytes) : result crypto_err unit :=
  if negb (mldsa_key_ok pub) then Err EInvalidPublicKey
  else if mldsa_verify pub message signature then Ok () else Err EVerifyFailed.

Definition VerifySLH (pub message signature : bytes) : result crypto_err unit :=
  if slh_verify pub message signature then Ok () else Err ESLHFailed.

Definition RequiredAlgorithms (profile : bytes) : option (list bytes) :=
  if beq profile ProfileRoot then Some [SigAlg; SLHAlg] else None.

(** The bytes [SaveKeyPair] publishes: the private key's length as four
    big-endian bytes, the private key, the public key. *)
Definition key_file (kp : KeyPair) : result crypto_err bytes :=
  match PrivateKey kp with
  | None => Err EIncompleteKeyPair
  | Some sk =>
    let priv := priv_bytes sk in
    let n := Z.of_nat (length priv) in
    Ok ([Z.land (Z.shiftr n 24) 255; Z.land (Z.shiftr n 16) 255; Z.land (Z.shiftr n 8) 255; Z.land n 255]
        ++ priv ++ PublicKey kp)
  end.

Definition be32 (b0 b1 b2 b3 : Z) : Z := ((b0 * 256 + b1) * 256 + b2) * 256 + b3.

Definition ParseKeyPair (data : bytes) : result crypto_err KeyPair :=
  match data with
  | b0 :: b1 :: b2 :: b3 :: rest =>
    let privLen := be32 b0 b1 b2 b3 in
    if Z.of_nat (length rest) <? privLen then Err EKeyTruncated
    else
      let privBytes := take (Z.to_nat privLen) rest in
      let pubBytes := drop (Z.to_nat privLen) rest in
      match priv_parse privBytes with
      | None => Err EBadPrivateKey
      | Some sk =>
        if negb (beq (priv_public sk) pubBytes) then Err EKeyCorrupt
        else Ok {| Algorithm := SigAlg; PublicKey := pubBytes; PrivateKey := Some sk |}
      end
  | _ => Err EKeyTooShort
  end.

(** [SaveKeyPair] up to the write: [PublishKeyFile] refuses bytes that do not
    parse back. *)
Definition SaveKeyPair (kp : KeyPair) : result crypto_err bytes :=
  data ← key_file kp; _ ← ParseKeyPair data; mret data.

(** A key pair as [GenerateKeyPair] makes it. *)
Definition whole (kp : KeyPair) : Prop :=
  Algorithm kp = SigAlg ∧ ∃ sk, PrivateKey kp = Some sk ∧ PublicKey kp = priv_public sk.

Context `{L : !PrimitiveLaws P}.

Lemma Sign_Verify kp m sig : whole kp → Sign kp m = Ok sig → Verify (PublicKey kp) m sig = Ok ().
Proof.
  intros (_ & sk & Hsk & ->). unfold Sign, Verify. rewrite Hsk. intros H%of_option_ok.
  apply priv_sign_verifies in H as [-> ->]. done.
Qed.

Lemma SignB64_ok kp m t : SignB64 kp m = Ok t →
  ∃ sig, Sign kp m = Ok sig ∧ t = b64_encode sig ∧ b64_decode t = Some sig ∧ t ≠ [].
Proof.
  unfold SignB64. intros (sig & Hs & [= <-])%bind_ok. exists sig. split; [done|]. split; [done|].
  unfold Sign in Hs. destruct (PrivateKey kp); [|done]. apply of_option_ok, priv_sign_bytes in Hs as [Hb Hne].
  split; [by apply b64_decode_encode|]. destruct sig as [|a [|b [|c t]]]; done.
Qed.

Lemma be32_split n : 0 ≤ n < 4294967296 →
  be32 (Z.land (Z.shiftr n 24) 255) (Z.land (Z.shiftr n 16) 255) (Z.land (Z.shiftr n 8) 255) (Z.land n 255) = n.
Proof.
  intros Hn. unfold be32. change 255 with (Z.ones 8). rewrite !Z.land_ones, !Z.shiftr_div_pow2 by lia.
  change (2 ^ 24) with 16777216; change (2 ^ 16) with 65536; change (2 ^ 8) with 256. zlia.
Qed.

Lemma hex_hash_inj a b : hex_encode (sha256 a) = hex_encode (sha256 b) → sha256 a = sha256 b.
Proof. apply hex_encode_inj; apply sha256_bytes. Qed.

(** A key pair written by [SaveKeyPair] reads back as the same key pair:
    the length prefix delimits the private key exactly and the stored public
    key is the one derived from it. *)
Theorem key_file_roundtrip kp : whole kp →
  (∀ sk, PrivateKey kp = Some sk → Z.of_nat (length (priv_bytes sk)) < 4294967296) →
  ∃ data, SaveKeyPair kp = Ok data ∧ ParseKeyPair data = Ok kp.
Proof.
  intros (Halg & sk & Hsk & Hpub) Hlen. specialize (Hlen sk Hsk).
  unfold SaveKeyPair, key_file. rewrite Hsk. cbn [mbind result_bind].
  set (n := Z.of_nat (length (priv_bytes sk))) in *.
  assert (ParseKeyPair ([Z.land (Z.shiftr n 24) 255; Z.land (Z.shiftr n 16) 255; Z.land (Z.shiftr n 8) 255; Z.land n 255]
        ++ priv_bytes sk ++ PublicKey kp) = Ok kp) as H.
  { unfold ParseKeyPair. cbn [app]. rewrite be32_split by lia.
    rewrite (proj2 (Z.ltb_ge _ _)) by (rewrite length_app; lia).
    unfold n. rewrite Nat2Z.id, take_app_length, drop_app_length, priv_parse_bytes.
    rewrite Hpub, beq_refl. cbn. destruct kp. cbn in *. congruence. }
  rewrite H. eexists. split; [reflexivity|done].
Qed.
End Crypto.

(** ** A concrete instance, for evaluation

    Checksums in place of the real primitives: they satisfy the laws, so the
    theorems' hypotheses are met and their definitions run. *)

Definition toy_sum (m : bytes) : Z := foldl (λ h c, (h * 31 + c) mod 65521) 7 m.
Definition toy_hash (m : bytes) : bytes :=
  let h := toy_sum m in h / 256 mod 256 :: h mod 256 :: replicate 30 (Z.of_nat (length m) mod 256).

#[export] Instance toy : Primitives := {|
  sha256 := toy_hash;
  privkey := Z;
  priv_bytes sk := [sk];
  priv_parse b := match b with [x] => Some x | _ => None end;
  priv_public sk := [sk; 1];
  priv_sign sk m := Some (7 :: toy_hash m);
  mldsa_key_ok pk := bool_decide (length pk = 2%nat);
  mldsa_verify pk m sig := beq sig (7 :: toy_hash m);
  slh_verify pk m sig := beq sig (8 :: toy_hash m);
|}.

#[export] Instance toy_laws : PrimitiveLaws toy.
Proof.
  split; cbn.
  - done.
  - intros m. repeat (apply Forall_cons; split; [unfold is_byte; apply Z.mod_pos_bound; done|]). apply Forall_nil_2.
  - done.
  - intros sk m sig [= <-]. split; [done|]. apply beq_refl.
  - intros sk m sig [= <-]. split; [|done]. apply Forall_cons; split; [done|].
    repeat (apply Forall_cons; split; [unfold is_byte; apply Z.mod_pos_bound; done|]). apply Forall_nil_2.
Qed.

Definition toy_pair : KeyPair := {| Algorithm := SigAlg; PublicKey := [9; 1]; PrivateKey := Some 9 |}.

Lemma toy_pair_whole : whole toy_pair.
Proof. split; [done|]. by exists 9. Qed.

Lemma key_file_roundtrip_witness :
  whole toy_pair ∧ ∃ data, SaveKeyPair toy_pair = Ok data ∧ ParseKeyPair data = Ok toy_pair.
Proof.
  split; [exact toy_pair_whole|]. apply (key_file_roundtrip toy_pair toy_pair_whole).
  intros sk [= <-]. reflexivity.
Defined.
