(* ===== verification/Event.v ===== *)
(** * internal/ledger/ledger.go: the record and its stored form

    A record of the ledger, the bytes its hash covers ([EntryBytes]), the line
    it is stored as ([MarshalJSON]), the strict reader of that line
    ([decodeEvent]), the payload's preparation, and the signature over the
    entry hash.  The main facts: the stored line and the record determine each
    other, and the hashed bytes determine every field they cover. *)

From S2P Require Import Prelude Utf8 GoJson CanonicalJson CanonicalJsonFacts GoStruct Crypto.

(** ** Records *)

Record Event := mkEvent {
  Seq : Z;
  Prev : bytes;
  Timestamp : bytes;
  EType : bytes;
  Ring : Z;
  Content : bytes;
  Payload : bytes;
  Sig : bytes;
  readAsPriorShape : bool;
  sealed : bool;
  closing : bool;
  container : bytes;
}.

(** [evt.Sig = sig]. *)
Definition set_Sig (e : Event) (sig : bytes) : Event :=
  mkEvent (Seq e) (Prev e) (Timestamp e) (EType e) (Ring e) (Content e) (Payload e) sig
    (readAsPriorShape e) (sealed e) (closing e) (container e).

Definition EventRing0Genesis : bytes := bs "ring0.genesis".
Definition EventRelationshipUpsert : bytes := bs "relationship.upsert".
Definition EventBeliefPromote : bytes := bs "belief.promote".
Definition EventExperienceCreate : bytes := bs "experience.create".
Definition EventBeliefUpsert : bytes := bs "belief.upsert".
Definition EventEdgeCreate : bytes := bs "edge.create".
Definition EventSelfModelSynthesize : bytes := bs "self_model.synthesize".
Definition EventIntentionCreate : bytes := bs "intention.create".
Definition EventIntentionStateChange : bytes := bs "intention.state_change".
Definition EventCommitmentPromised : bytes := bs "commitment.promised".
Definition EventCommitmentStateChange : bytes := bs "commitment.state_change".
Definition EventBeliefArchive : bytes := bs "belief.archive".
Definition EventBeliefSupersede : bytes := bs "belief.supersede".
Definition EventEdgeArchive : bytes := bs "edge.archive".
Definition EventWorkingStyleUpsert : bytes := bs "working_style.upsert".
Definition EventConsolidationRun : bytes := bs "consolidation.run".
Definition EventDreamRun : bytes := bs "dream.run".
Definition EventSystemWitnessed : bytes := bs "system.witnessed".
Definition EventTrustEpochAccepted : bytes := bs "trust.epoch_accepted".
Definition EventNetworkNameClaimed : bytes := bs "network.name_claimed".

Definition AllEventTypes : list bytes :=
  [EventRing0Genesis; EventRelationshipUpsert; EventBeliefPromote; EventExperienceCreate;
   EventBeliefUpsert; EventEdgeCreate; EventSelfModelSynthesize; EventIntentionCreate;
   EventIntentionStateChange; EventCommitmentPromised; EventCommitmentStateChange;
   EventWorkingStyleUpsert; EventConsolidationRun; EventDreamRun; EventBeliefArchive;
   EventBeliefSupersede; EventEdgeArchive; EventSystemWitnessed; EventTrustEpochAccepted;
   EventNetworkNameClaimed].

(** The rings a type may be recorded on; [nil] for a type the code does not know. *)
Definition CanonicalRings (t : bytes) : list Z :=
  if beq t EventRing0Genesis then [0]
  else if beq t EventRelationshipUpsert then [1]
  else if beq t EventBeliefPromote then [2]
  else if existsb (beq t)
    [EventExperienceCreate; EventBeliefUpsert; EventEdgeCreate; EventSelfModelSynthesize;
     EventIntentionCreate; EventIntentionStateChange; EventCommitmentPromised;
     EventCommitmentStateChange; EventWorkingStyleUpsert; EventBeliefArchive;
     EventBeliefSupersede; EventEdgeArchive; EventConsolidationRun; EventDreamRun] then [3]
  else if beq t EventSystemWitnessed then [0]
  else if beq t EventTrustEpochAccepted then [0]
  else if beq t EventNetworkNameClaimed then [0]
  else [].

(** ** The entry: what the hash covers *)

Definition jsonString (s : bytes) : bytes := json_string false s.

Definition EntryBytes (e : Event) : bytes :=
  js "{'content':" ++ jsonString (Content e) ++
  js ",'prev':" ++ jsonString (Prev e) ++
  js ",'ring':" ++ FormatInt (Ring e) ++
  js ",'seq':" ++ FormatUint (Seq e) ++
  js ",'ts':" ++ jsonString (Timestamp e) ++
  js ",'type':" ++ jsonString (EType e) ++ js "}".

(** ** The stored line *)

Inductive event_err :=
| ENoPayload
| ESyntax                     (** not a record object: a syntax error, an unknown field, a wrong type *)
| EEntrySyntax
| ENotCanonical
| ECanon (e : canon_err).

Definition MarshalJSON (e : Event) : result event_err bytes :=
  if beq (Payload e) [] then Err ENoPayload
  else Ok (js "{'entry':" ++ EntryBytes e ++ js ",'payload':" ++ Payload e ++
           (if negb (beq (Sig e) []) then js ",'sig':" ++ jsonString (Sig e) else []) ++ js "}").

Definition record_fields : list bytes := [bs "entry"; bs "payload"; bs "sig"].
Definition entry_fields : list bytes :=
  [bs "content"; bs "prev"; bs "ring"; bs "seq"; bs "ts"; bs "type"].

Record wireRecord := { w_entry : bytes; w_payload : bytes; w_sig : bytes }.

Definition decode_record (raw : bytes) : option wireRecord :=
  ms ← struct_members false true record_fields raw;
  sig ← field conv_string [] (bs "sig") ms;
  Some {| w_entry := raw_field (bs "entry") ms; w_payload := raw_field (bs "payload") ms; w_sig := sig |}.

(** The fields of the entry text, as an event without payload and signature. *)
Definition decode_entry (raw : bytes) : option Event :=
  ms ← struct_members false true entry_fields raw;
  content ← field conv_string [] (bs "content") ms;
  prev ← field conv_string [] (bs "prev") ms;
  ring ← field conv_int 0 (bs "ring") ms;
  seq ← field conv_uint64 0 (bs "seq") ms;
  ts ← field conv_string [] (bs "ts") ms;
  ty ← field conv_string [] (bs "type") ms;
  Some (mkEvent seq prev ts ty ring content [] [] false false false []).

Definition UnmarshalJSON (raw : bytes) : result event_err Event :=
  match decode_record raw with
  | None => Err ESyntax
  | Some w =>
    if beq (w_entry w) [] || beq (w_payload w) [] then Err ENotCanonical
    else match decode_entry (w_entry w) with
    | None => Err EEntrySyntax
    | Some en =>
      let ev := mkEvent (Seq en) (Prev en) (Timestamp en) (EType en) (Ring en) (Content en)
                  (w_payload w) (w_sig w) false false false [] in
      if negb (beq (EntryBytes ev) (w_entry w)) then Err ENotCanonical
      else if negb (default 0 (head (w_payload w)) =? 123) then Err ENotCanonical
      else match CanonicalizeV1 (w_payload w) with
      | Err e => Err (ECanon e)
      | Ok canon => if negb (beq canon (w_payload w)) then Err ENotCanonical else Ok ev
      end
    end
  end.

Definition decodeEvent (raw : bytes) : result event_err Event :=
  match CanonicalizeV1 raw with
  | Err e => Err (ECanon e)
  | Ok _ => UnmarshalJSON raw
  end.

(** ** Payloads *)

(** [payloadObject]: a Go map, so the last of equal keys is kept. *)
Fixpoint go_map {A} (ms : list (bytes * A)) : list (bytes * A) :=
  match ms with
  | [] => []
  | kv :: ms' => if existsb (λ kv', beq kv'.1 kv.1) ms' then go_map ms' else kv :: go_map ms'
  end.

Definition payloadObject (payload : bytes) : option (list (bytes * bytes)) :=
  raw ← one_value true payload;
  if beq raw null_text then None else go_map <$> members_of raw.

Definition map_get {A} (k : bytes) (m : list (bytes * A)) : option A :=
  snd <$> find (λ kv, beq kv.1 k) m.

Inductive payload_err := PNotObject | PModelNotString | PModelOwned | PMarshal | PCanon (e : canon_err).

(** The model id and whether the payload names one; a [null] decodes into a
    Go string as the empty one. *)
Definition payloadModelID (payload : bytes) : result payload_err (bytes * bool) :=
  match payloadObject payload with
  | None => Err PNotObject
  | Some object =>
    match map_get (bs "model_id") object with
    | None => Ok ([], false)
    | Some raw =>
      if beq raw null_text then Ok ([], true)
      else match conv_string raw with
      | Some modelID => Ok (modelID, true)
      | None => Err PModelNotString
      end
    end
  end.

(** What [json.Marshal] makes of a [json.RawMessage]: white space outside
    strings dropped, HTML characters and the line separators escaped. *)
Fixpoint compact (inString escaped : bool) (s : bytes) : bytes :=
  match s with
  | [] => []
  | c :: t =>
    if (c =? 60) || (c =? 62) || (c =? 38) then u_escape c ++ compact inString false t
    else
      let ordinary :=
        if inString then c :: compact (escaped || negb (c =? 34)) (negb escaped && (c =? 92)) t
        else if is_space c then compact false false t
        else c :: compact (c =? 34) false t in
      match t with
      | x :: y :: t' =>
        if (c =? 226) && (x =? 128) && ((y =? 168) || (y =? 169))
        then u_escape (8232 + (y - 168)) ++ compact inString false t'
        else ordinary
      | _ => ordinary
      end
  end.

Definition marshal_map (m : list (bytes * bytes)) : bytes :=
  123 :: comma_join (map (λ kv, json_string true kv.1 ++ 58 :: compact false false kv.2) (sort_keys m)) ++ [125].

Definition stampModelID (payload modelID : bytes) : result payload_err bytes :=
  match payloadObject payload with
  | None => Err PNotObject
  | Some object =>
    match map_get (bs "model_id") object with
    | Some _ => Err PModelOwned
    | None =>
      if beq modelID [] then Ok payload
      else Ok (marshal_map ((bs "model_id", json_string true modelID) :: object))
    end
  end.

(** [marshalled] is what [json.Marshal] made of the caller's value. *)
Definition preparePayload (marshalled : option bytes) (modelID : bytes) : result payload_err bytes :=
  raw ← of_option PMarshal marshalled;
  stamped ← stampModelID raw modelID;
  map_err PCanon (CanonicalizeV1 stamped).

(** ** Hashes and signatures *)

Definition goldSignatureTag : bytes := bs "AII-LEDGER-LINE-SIGNATURE-GOLD".
Definition goldArtifactKind : bytes := bs "aii.ledger.line".
Definition goldCanonicalization : bytes := bs "aii-canonical-json".
Definition goldSuiteID : bytes := bs "aii-pq-mldsa87".
Definition goldRoleIdentity : bytes := bs "identity".

Definition SignatureInputGold (alg keyID entryHash : bytes) : bytes :=
  goldSignatureTag ++ [10] ++
  bs "artifact_kind:" ++ goldArtifactKind ++ [10] ++
  bs "canonicalization:" ++ goldCanonicalization ++ [10] ++
  bs "suite_id:" ++ goldSuiteID ++ [10] ++
  bs "role:" ++ goldRoleIdentity ++ [10] ++
  bs "alg:" ++ alg ++ [10] ++
  bs "key_id:" ++ keyID ++ [10] ++
  bs "entry_sha256:" ++ entryHash ++ [10].

Inductive sig_err := SUnsigned | SEncoding | SVerify (e : crypto_err).

Section Signatures.
Context `{P : Primitives}.

Definition entrySum (e : Event) : bytes := sha256 (EntryBytes e).
Definition EntryHash (e : Event) : bytes := hex_encode (entrySum e).

Definition verifyEventSignature (e : Event) (pubKey : bytes) : result sig_err unit :=
  if beq (Sig e) [] then Err SUnsigned
  else match b64_decode (Sig e) with
  | None => Err SEncoding
  | Some sig =>
    map_err SVerify (Verify pubKey (SignatureInputGold SigAlg (PublicKeyFingerprint pubKey) (EntryHash e)) sig)
  end.
End Signatures.

(** ** Well-formed records *)

Definition wf_text (s : bytes) : Prop := Valid s = true ∧ existsb (Z.eqb 0) s = false.

Record wf_event (e : Event) : Prop := {
  wf_seq : 0 ≤ Seq e < two64;
  wf_prev : wf_text (Prev e);
  wf_ts : wf_text (Timestamp e);
  wf_type : wf_text (EType e);
  wf_ring : int64_ok (Ring e) = true;
  wf_content : wf_text (Content e);
  wf_payload : canonical (Payload e);
  wf_payload_object : head (Payload e) = Some 123;
  wf_sig : wf_text (Sig e);
}.

(** No reader-side mark: as decoded from a line, before [streamSegment] or
    [streamTail] say where it was found. *)
Definition unmarked (e : Event) : Prop :=
  readAsPriorShape e = false ∧ sealed e = false ∧ closing e = false ∧ container e = [].

Definition entry_list (e : Event) : list (bytes * bytes) :=
  [(bs "content", jsonString (Content e)); (bs "prev", jsonString (Prev e));
   (bs "ring", FormatInt (Ring e)); (bs "seq", FormatUint (Seq e));
   (bs "ts", jsonString (Timestamp e)); (bs "type", jsonString (EType e))].

Definition entry_values (e : Event) : list json :=
  [JStr (Content e); JStr (Prev e); JNum (FormatInt (Ring e)); JNum (FormatUint (Seq e));
   JStr (Timestamp e); JStr (EType e)].

Lemma EntryBytes_object e : EntryBytes e = field_object (entry_list e).
Proof.
  unfold EntryBytes, field_object, entry_list, field_text. cbn [map comma_join fst snd].
  generalize (jsonString (Content e)) (jsonString (Prev e)) (FormatInt (Ring e)) (FormatUint (Seq e))
    (jsonString (Timestamp e)) (jsonString (EType e)). intros a b c d f g.
  repeat (progress (rewrite <- ?app_assoc; cbn [app])). vm_compute. reflexivity.
Qed.

Lemma entry_tidy e : wf_event e → tidy_fields (entry_list e) (entry_values e).
Proof.
  intros [? [] [] [] ? [] _ _ _]. unfold entry_list, entry_values, jsonString.
  repeat apply Forall2_cons_2; try apply Forall2_nil_2; (split; [vm_compute; reflexivity|]);
    cbn [snd]; auto using tidy_string, tidy_number, FormatInt_number, FormatUint_number.
Qed.

Lemma entry_names e : (entry_list e).*1 = entry_fields.
Proof. done. Qed.

Lemma entry_fields_NoDup : NoDup entry_fields.
Proof. apply (bool_decide_unpack _). vm_compute. exact I. Qed.

Lemma decode_entry_bytes e : wf_event e →
  decode_entry (EntryBytes e) =
    Some (mkEvent (Seq e) (Prev e) (Timestamp e) (EType e) (Ring e) (Content e) [] [] false false false []).
Proof.
  intros He. pose proof (entry_tidy e He) as Ht. pose proof entry_fields_NoDup as Hnd.
  unfold decode_entry. rewrite EntryBytes_object.
  erewrite struct_members_fields; [|exact Ht|by rewrite entry_names|].
  2:{ unfold entry_list. repeat (apply Forall_cons; split; [vm_compute; reflexivity|]). apply Forall_nil_2. }
  cbn [mbind option_bind]. destruct He as [? [] [] [] ? [] _ _ _].
  rewrite (field_at conv_string [] (bs "content") _ (jsonString (Content e)) (Content e));
    [|done|by repeat constructor|done|by apply conv_json_string].
  rewrite (field_at conv_string [] (bs "prev") _ (jsonString (Prev e)) (Prev e));
    [|done|by repeat constructor|done|by apply conv_json_string].
  rewrite (field_at conv_int 0 (bs "ring") _ (FormatInt (Ring e)) (Ring e));
    [|done|by repeat constructor|done|by apply ParseInt_Format].
  rewrite (field_at conv_uint64 0 (bs "seq") _ (FormatUint (Seq e)) (Seq e));
    [|done|by repeat constructor|done|by apply ParseUint_Format].
  rewrite (field_at conv_string [] (bs "ts") _ (jsonString (Timestamp e)) (Timestamp e));
    [|done|by repeat constructor|done|by apply conv_json_string].
  rewrite (field_at conv_string [] (bs "type") _ (jsonString (EType e)) (EType e));
    [|done|by repeat constructor|done|by apply conv_json_string].
  done.
Qed.

Definition line_list (e : Event) : list (bytes * bytes) :=
  (bs "entry", EntryBytes e) :: (bs "payload", Payload e) ::
  (if beq (Sig e) [] then [] else [(bs "sig", jsonString (Sig e))]).

Lemma MarshalJSON_object e : Payload e ≠ [] → MarshalJSON e = Ok (field_object (line_list e)).
Proof.
  intros Hp. unfold MarshalJSON, line_list. rewrite (proj2 (beq_false _ _) Hp). f_equal.
  unfold field_object, field_text. destruct (beq (Sig e) []); cbn [negb map comma_join fst snd];
    generalize (EntryBytes e) (Payload e) (jsonString (Sig e)); intros a b c;
    repeat (progress (rewrite <- ?app_assoc; cbn [app])); vm_compute; reflexivity.
Qed.

Lemma payload_nonempty e : wf_event e → Payload e ≠ [].
Proof. intros [] E. by rewrite E in *. Qed.

Lemma line_names e : NoDup (line_list e).*1 ∧ Forall (λ kv, existsb (beq kv.1) record_fields = true) (line_list e).
Proof.
  unfold line_list. destruct (beq (Sig e) []); (split; [apply (bool_decide_unpack _); vm_compute; exact I|]);
    repeat (apply Forall_cons; split; [vm_compute; reflexivity|]); apply Forall_nil_2.
Qed.

Lemma line_tidy e : wf_event e → ∃ vs, tidy_fields (line_list e) vs.
Proof.
  intros He. assert (tidy (EntryBytes e) (JObj (zip entry_fields (entry_values e)))) as Hen.
  { rewrite EntryBytes_object. apply (tidy_object (entry_list e)); [by apply entry_tidy|exact entry_fields_NoDup]. }
  destruct (tidy_canonical _ (wf_payload e He)) as (v & Hv & _).
  destruct (wf_sig e He) as [Hs H0]. unfold line_list. destruct (beq (Sig e) []).
  - exists [JObj (zip entry_fields (entry_values e)); v].
    repeat apply Forall2_cons_2; [by split..|apply Forall2_nil_2].
  - exists [JObj (zip entry_fields (entry_values e)); v; JStr (Sig e)].
    repeat apply Forall2_cons_2; [by split..| |apply Forall2_nil_2]. split; [done|]. by apply tidy_string.
Qed.

Lemma decode_record_line e : wf_event e →
  decode_record (field_object (line_list e)) =
    Some {| w_entry := EntryBytes e; w_payload := Payload e; w_sig := Sig e |}.
Proof.
  intros He. destruct (line_tidy e He) as (vs & Ht), (line_names e) as [Hnd Hn].
  unfold decode_record. erewrite struct_members_fields by done. cbn [mbind option_bind].
  assert (field conv_string [] (bs "sig") (line_list e) = Some (Sig e)) as ->.
  { unfold line_list in *. destruct (beq (Sig e) []) eqn:E.
    - b2p. rewrite E. apply field_absent. apply (bool_decide_unpack _). vm_compute. exact I.
    - eapply field_at; [done|by do 2 right; left|done|]. apply conv_json_string. apply (wf_sig e He). }
  cbn [mbind option_bind]. do 2 f_equal.
  - by apply raw_field_at; [|left].
  - by apply raw_field_at; [|right; left].
Qed.

(** The stored line of a well-formed record reads back as that record. *)
Lemma decode_line e : wf_event e → unmarked e → decodeEvent (field_object (line_list e)) = Ok e.
Proof.
  intros He (H1 & H2 & H3 & H4). destruct (line_tidy e He) as (vs & Ht), (line_names e) as [Hnd _].
  unfold decodeEvent. rewrite (canonicalize_tidy _ _ (tidy_object _ _ Ht Hnd)).
  unfold UnmarshalJSON. rewrite decode_record_line by done. cbn [w_entry w_payload w_sig].
  rewrite (proj2 (beq_false _ _) (payload_nonempty e He)).
  change (beq (EntryBytes e) []) with false. cbn [orb].
  rewrite decode_entry_bytes by done. cbn [Seq Prev Timestamp EType Ring Content].
  rewrite <- H1, <- H4 at 1. rewrite (wf_payload_object e He). cbn [default from_option id negb Z.eqb].
  change (EntryBytes (mkEvent _ _ _ _ _ _ _ _ _ _ _ _)) with (EntryBytes e). rewrite beq_refl. cbn.
  rewrite (wf_payload e He), beq_refl. cbn. destruct e; cbn in *; congruence.
Qed.

(** ** What the reader guarantees of a record it accepts *)

Record decoded (e : Event) : Prop := {
  dec_seq : 0 ≤ Seq e < two64;
  dec_ring : int64_ok (Ring e) = true;
  dec_prev : Valid (Prev e) = true;
  dec_ts : Valid (Timestamp e) = true;
  dec_type : Valid (EType e) = true;
  dec_content : Valid (Content e) = true;
  dec_sig : Valid (Sig e) = true;
  dec_payload : canonical (Payload e);
  dec_object : head (Payload e) = Some 123;
}.

Lemma wf_decoded e : wf_event e → decoded e.
Proof. intros [? [] [] [] ? [] ? ? []]. by split. Qed.

Lemma decode_entry_fields raw en : decode_entry raw = Some en →
  0 ≤ Seq en < two64 ∧ int64_ok (Ring en) = true ∧ Valid (Prev en) = true ∧ Valid (Timestamp en) = true ∧
  Valid (EType en) = true ∧ Valid (Content en) = true.
Proof.
  unfold decode_entry. intros (ms & _ & H)%bind_Some.
  apply bind_Some in H as (content & Hc & H). apply bind_Some in H as (prev & Hp & H).
  apply bind_Some in H as (ring & Hr & H). apply bind_Some in H as (seq & Hq & H).
  apply bind_Some in H as (ts & Ht & H). apply bind_Some in H as (ty & Hy & H). injection H as <-. cbn.
  apply field_uint64_range in Hq. apply field_int_range in Hr.
  repeat split; eauto using field_string_valid; lia.
Qed.

Lemma decodeEvent_decoded raw e : decodeEvent raw = Ok e → decoded e ∧ unmarked e.
Proof.
  unfold decodeEvent, UnmarshalJSON. destruct (CanonicalizeV1 raw); [|done].
  destruct (decode_record raw) as [w|] eqn:Hw; [|done].
  destruct (_ || _); [done|]. destruct (decode_entry (w_entry w)) as [en|] eqn:He; [|done].
  case_match; [done|]. destruct (head (w_payload w)) as [c|] eqn:Hc; [|done]. cbn [default from_option id].
  destruct (Z.eqb_spec c 123) as [->|]; [|done]. cbn [negb].
  destruct (CanonicalizeV1 (w_payload w)) as [p|] eqn:Hp; [|done].
  destruct (beq p (w_payload w)) eqn:E; [|done]. b2p. subst p. cbn [negb]. intros [= <-].
  apply decode_entry_fields in He as (? & ? & ? & ? & ? & ?).
  unfold decode_record in Hw. apply bind_Some in Hw as (ms & _ & Hw). apply bind_Some in Hw as (sig & Hs & [= <-]).
  split; [split; cbn; eauto using field_string_valid|done].
Qed.

Lemma EntryBytes_inj e e' : decoded e → decoded e' → EntryBytes e = EntryBytes e' →
  Content e = Content e' ∧ Prev e = Prev e' ∧ Ring e = Ring e' ∧ Seq e = Seq e' ∧
  Timestamp e = Timestamp e' ∧ EType e = EType e'.
Proof.
  intros [] []. unfold EntryBytes, jsonString.
  intros H%app_inv_head. apply json_string_prefix in H as [? H]; [|done..].
  apply app_inv_head, json_string_prefix in H as [? H]; [|done..].
  apply app_inv_head, FormatInt_prefix in H as [? H]; [|done..].
  apply app_inv_head, FormatUint_prefix in H as [? H]; [|by try lia..].
  apply app_inv_head, json_string_prefix in H as [? H]; [|done..].
  apply app_inv_head, json_string_prefix in H as [? _]; [|done..]. done.
Qed.

(** ** Preparation *)

Definition opens_object (s : bytes) : Prop := head (skip_space s) = Some 123.

Lemma token_opens s d : Token (NewDecoder s) = Ok (TDelim 123, d) → opens_object s.
Proof.
  unfold opens_object, Token, NewDecoder. cbn. induction s as [|c t IH]; cbn; [done|].
  destruct (is_space c); [done|]. intros H. cbn.
  repeat (case_match; simplify_eq; try done; b2p; try congruence).
  unfold lex_scalar in *. repeat case_match; simplify_eq.
Qed.

Lemma opens_token s : opens_object s → ∃ d, Token (NewDecoder s) = Ok (TDelim 123, d).
Proof.
  unfold opens_object, Token, NewDecoder. cbn. induction s as [|c t IH]; cbn; [done|].
  destruct (is_space c); [done|]. intros [= ->]. cbn. eauto.
Qed.

Lemma skip_space_head s c t : skip_space s = c :: t → is_space c = false.
Proof. induction s as [|x s IH]; cbn; [done|]. destruct (is_space x) eqn:E; [done|]. by intros [= <- _]. Qed.

Lemma payloadObject_opens payload m : payloadObject payload = Some m → opens_object payload.
Proof.
  unfold payloadObject, one_value. destruct (value_end _) as [rest|] eqn:Hv; cbn; [|done].
  case_match; [done|]. cbn. destruct (beq _ null_text) eqn:Hn; [done|]. unfold members_of. rewrite Hn.
  destruct (Token (NewDecoder (span_to _ _))) as [[[] d]|] eqn:Ht; try done.
  destruct (Z.eqb_spec c 123) as [->|]; [|done].
  intros _. apply token_opens in Ht. revert Ht. unfold opens_object, span_to.
  destruct (skip_space payload) as [|c t] eqn:Hs; [done|]. apply skip_space_head in Hs.
  destruct (length (c :: t) - length rest)%nat; [done|]. cbn. by rewrite Hs.
Qed.

Lemma parse_members_object n d acc v d' : parse_members n d acc = Ok (v, d') → ∃ m, v = JObj m.
Proof.
  revert d acc. induction n as [|n IH]; intros d acc; cbn [parse_members]; [done|]. intros H.
  repeat case_match; simplify_eq; eauto.
Qed.

Lemma canonicalize_opens s out : opens_object s → CanonicalizeV1 s = Ok out → head out = Some 123.
Proof.
  intros (d & Ht)%opens_token (v & _ & (d' & Hp & _) & ->)%canonicalize_ok. revert Hp.
  unfold parseCanonicalJSONValue. rewrite Nat.add_comm. cbn [Nat.add parse_value]. rewrite Ht.
  cbn [Z.eqb Pos.eqb]. by intros (m & ->)%parse_members_object.
Qed.

Lemma preparePayload_ok m modelID p : preparePayload m modelID = Ok p → canonical p ∧ head p = Some 123.
Proof.
  unfold preparePayload. intros (raw & _ & H)%bind_ok. apply bind_ok in H as (st & Hst & H).
  destruct (CanonicalizeV1 st) as [c|] eqn:Hc; [|done]. injection H as <-.
  split; [by eapply canonicalize_canonical|]. eapply canonicalize_opens; [|done].
  unfold stampModelID in Hst. destruct (payloadObject raw) as [o|] eqn:Ho; [|done].
  destruct (map_get _ o); [done|]. destruct (beq modelID []); injection Hst as <-; [|done].
  by eapply payloadObject_opens.
Qed.

(** ** Properties *)

(** The stored line of a record reads back as the record: for every
    well-formed record [MarshalJSON] succeeds and [decodeEvent] of its bytes is
    the record itself, all eight stored fields and no reader mark. *)
Theorem stored_line_roundtrip e : wf_event e → unmarked e →
  ∃ line, MarshalJSON e = Ok line ∧ decodeEvent line = Ok e.
Proof.
  intros He Hu. exists (field_object (line_list e)).
  split; [apply MarshalJSON_object, payload_nonempty, He|by apply decode_line].
Qed.

Definition sample_event : Event :=
  mkEvent 2 (bs "ab") (bs "2026-01-02T03:04:05Z") EventBeliefUpsert 3 (bs "c0") (js "{'a':[1,-2.5],'b':'x'}")
    (bs "c2ln") false false false [].

Lemma sample_wf : wf_event sample_event.
Proof. split; cbn; repeat split; vm_compute; done. Qed.

Lemma stored_line_roundtrip_witness :
  wf_event sample_event ∧ ∃ line, MarshalJSON sample_event = Ok line ∧ decodeEvent line = Ok sample_event.
Proof.
  split; [exact sample_wf|]. apply (stored_line_roundtrip sample_event sample_wf).
  repeat split; reflexivity.
Defined.

(** What the strict reader accepts is in range and canonical: sequence
    number and ring fit their machine types, every text is valid UTF-8, and the
    payload is a JSON object equal to its own canonical form. *)
Theorem decodeEvent_accepts_canonical raw e : decodeEvent raw = Ok e →
  0 ≤ Seq e < two64 ∧ int64_ok (Ring e) = true ∧ CanonicalizeV1 (Payload e) = Ok (Payload e) ∧
  head (Payload e) = Some 123 ∧
  Forall (λ s, Valid s = true) [Prev e; Timestamp e; EType e; Content e; Sig e] ∧ unmarked e.
Proof. intros [[] Hu]%decodeEvent_decoded. split; [done|]. repeat split; auto; repeat constructor; done || apply Hu. Qed.

Lemma decodeEvent_accepts_canonical_witness :
  decodeEvent (js "{'sig':'','entry':{'content':'c','prev':'','ring':0,'seq':1,'ts':'t','type':'x'},'payload':{'k':0}}") =
    Ok (mkEvent 1 [] (bs "t") (bs "x") 0 (bs "c") (js "{'k':0}") [] false false false []) ∧
  CanonicalizeV1 (js "{'k':0}") = Ok (js "{'k':0}").
Proof.
  assert (decodeEvent (js "{'sig':'','entry':{'content':'c','prev':'','ring':0,'seq':1,'ts':'t','type':'x'},'payload':{'k':0}}") =
    Ok (mkEvent 1 [] (bs "t") (bs "x") 0 (bs "c") (js "{'k':0}") [] false false false [])) as H by (vm_compute; reflexivity).
  split; [exact H|]. destruct (decodeEvent_accepts_canonical _ _ H) as (_ & _ & Hc & _). exact Hc.
Defined.

(** The hashed bytes determine the entry: two records the reader accepted
    with equal [EntryBytes] agree on content hash, previous hash, ring,
    sequence number, timestamp and type. *)
Theorem EntryBytes_determines_entry l l' e e' : decodeEvent l = Ok e → decodeEvent l' = Ok e' →
  EntryBytes e = EntryBytes e' →
  Content e = Content e' ∧ Prev e = Prev e' ∧ Ring e = Ring e' ∧ Seq e = Seq e' ∧
  Timestamp e = Timestamp e' ∧ EType e = EType e'.
Proof. intros [? _]%decodeEvent_decoded [? _]%decodeEvent_decoded. by apply EntryBytes_inj. Qed.

Definition sample_line : bytes :=
  js "{'entry':{'content':'c','prev':'','ring':0,'seq':1,'ts':'t','type':'x'},'payload':{'k':0}}".
Definition sample_line2 : bytes :=
  js "{'entry':{'content':'c','prev':'','ring':0,'seq':1,'ts':'t','type':'x'},'payload':{'k':1}}".

Lemma EntryBytes_determines_entry_witness :
  ∃ e e', decodeEvent sample_line = Ok e ∧ decodeEvent sample_line2 = Ok e' ∧ Seq e = Seq e'.
Proof.
  eexists _, _. split; [vm_compute; reflexivity|]. split; [vm_compute; reflexivity|].
  refine (proj1 (proj2 (proj2 (proj2 (EntryBytes_determines_entry sample_line sample_line2 _ _ _ _ _)))));
    vm_compute; reflexivity.
Defined.

(** A prepared payload is storable: whatever [preparePayload] returns is a
    canonical JSON object, and it refuses a payload that names a [model_id] of
    its own. *)
Theorem prepared_payload_canonical raw modelID p : preparePayload (Some raw) modelID = Ok p →
  CanonicalizeV1 p = Ok p ∧ head p = Some 123 ∧
  ∃ object, payloadObject raw = Some object ∧ map_get (bs "model_id") object = None.
Proof.
  intros H. destruct (preparePayload_ok _ _ _ H) as [? ?]. split; [done|]. split; [done|].
  unfold preparePayload in H. cbn in H. apply bind_ok in H as (st & Hst & _). unfold stampModelID in Hst.
  destruct (payloadObject raw) as [o|]; [|done]. exists o. split; [done|]. by destruct (map_get _ o).
Qed.

Lemma prepared_payload_canonical_witness :
  preparePayload (Some (js "{'z':'<', 'a':1}")) (bs "m-1") = Ok (js "{'a':1,'model_id':'m-1','z':'<'}") ∧
  head (js "{'a':1,'model_id':'m-1','z':'<'}") = Some 123.
Proof.
  assert (preparePayload (Some (js "{'z':'<', 'a':1}")) (bs "m-1") = Ok (js "{'a':1,'model_id':'m-1','z':'<'}")) as H
    by (vm_compute; reflexivity).
  split; [exact H|]. exact (proj1 (proj2 (prepared_payload_canonical _ _ _ H))).
Defined.

(** Every declared event type has exactly one canonical ring, between 0 and
    3, and any other type has none. *)
Theorem CanonicalRings_total t :
  (t ∈ AllEventTypes → ∃ r, CanonicalRings t = [r] ∧ 0 ≤ r ≤ 3) ∧
  (t ∉ AllEventTypes → CanonicalRings t = []).
Proof.
  split.
  - intros Ht. assert (Forall (λ t, ∃ r, CanonicalRings t = [r] ∧ 0 ≤ r ≤ 3) AllEventTypes) as H.
    { repeat (apply Forall_cons; split; [eexists; split; [vm_compute; reflexivity|lia]|]). apply Forall_nil_2. }
    rewrite Forall_forall in H. by apply H.
  - intros Ht. unfold CanonicalRings. unfold AllEventTypes in Ht.
    repeat (apply not_elem_of_cons in Ht as [?%beq_false Ht]). cbn [existsb].
    by repeat match goal with H : beq t _ = false |- _ => rewrite H; clear H end.
Qed.
