(* ===== verification/Lines.v ===== *)
(** * Line-structured files

    How the ledger cuts a file into lines: [bytes.TrimSpace], the
    [bufio.Scanner] of [scanLines] (container.go) with its limit on a token, and
    the facts that a file of stored lines is cut back into those lines. *)

From S2P Require Import Prelude Utf8.

(** [unicode.IsSpace]. *)
Definition IsSpace (r : Z) : bool :=
  between 9 13 r || (r =? 32) || (r =? 133) || (r =? 160) || (r =? 5760) || between 8192 8202 r
  || (r =? 8232) || (r =? 8233) || (r =? 8239) || (r =? 8287) || (r =? 12288).

(** The string cut at its rune boundaries, each piece with its rune. *)
Fixpoint cut_runes (ws : list (Z * nat)) (s : bytes) : list (Z * bytes) :=
  match ws with
  | [] => []
  | (r, w) :: ws' => (r, take w s) :: cut_runes ws' (drop w s)
  end.

Fixpoint drop_spaces (l : list (Z * bytes)) : list (Z * bytes) :=
  match l with
  | (r, b) :: t => if IsSpace r then drop_spaces t else l
  | [] => []
  end.

Definition TrimSpace (s : bytes) : bytes :=
  concat (snd <$> reverse (drop_spaces (reverse (drop_spaces (cut_runes (decoded s) s))))).

(** The pieces that [IndexByte(data, '\n')] cuts: each with its newline, the
    last one without when the file does not end in one. *)
Fixpoint tokens (s : bytes) : list bytes :=
  match s with
  | [] => []
  | c :: t =>
    if c =? 10 then [c] :: tokens t
    else match tokens t with [] => [[c]] | l :: ls => (c :: l) :: ls end
  end.

Definition MaxEventLineBytes : Z := 33554432.

Inductive scan_err (E : Type) :=
| ScanFn (e : E)                (** the error [fn] returned *)
| ScanTooLong                   (** [bufio.ErrTooLong] *)
| ScanRead.                     (** the reader failed *)
Arguments ScanFn {E} e.
Arguments ScanTooLong {E}.
Arguments ScanRead {E}.

(** The scanner's buffer holds at most [MaxEventLineBytes]: a token with its
    newline must fit in it; one without must leave room for the read that finds
    the end of the file. *)
Definition too_long (tok : bytes) : bool :=
  if bool_decide (last tok = Some 10)
  then MaxEventLineBytes <? Z.of_nat (length tok)
  else MaxEventLineBytes <=? Z.of_nat (length tok).

Section Scan.
Context {St E : Type}.
(** [fn st line offset size at]. *)
Variable fn : St → bytes → Z → Z → Z → St * option E.

Fixpoint scan_loop (toks : list bytes) (offset at_ : Z) (st : St) : St * option (scan_err E) :=
  match toks with
  | [] => (st, None)
  | tok :: rest =>
    if too_long tok then (st, Some ScanTooLong)
    else
      let size := Z.of_nat (length tok) in
      let line := TrimSpace tok in
      if beq line [] then scan_loop rest (offset + size) (at_ + 1) st
      else match fn st line offset size (at_ + 1) with
           | (st', Some e) => (st', Some (ScanFn e))
           | (st', None) => scan_loop rest (offset + size) (at_ + 1) st'
           end
  end.

(** [scanLines] over a reader that yields [data] and then end of file, or an
    error when [broken]. *)
Definition scanLines (data : bytes) (broken : bool) (st : St) : St * option (scan_err E) :=
  match scan_loop (tokens data) 0 0 st with
  | (st', None) => (st', if broken then Some ScanRead else None)
  | r => r
  end.
End Scan.

(** ** Facts *)

Lemma concat_tokens s : concat (tokens s) = s.
Proof.
  induction s as [|c t IH]; [done|]. cbn. destruct (c =? 10); [cbn; by rewrite IH|].
  destruct (tokens t); cbn in *; by rewrite <- IH.
Qed.

(** A line: no newline in it. *)
Definition one_line (l : bytes) : Prop := Forall (λ c, c ≠ 10) l.

Lemma tokens_line l rest : one_line l → tokens (l ++ 10 :: rest) = (l ++ [10]) :: tokens rest.
Proof.
  induction 1 as [|c l Hc _ IH]; [done|]. cbn. rewrite (proj2 (Z.eqb_neq c 10) Hc). by rewrite IH.
Qed.

Lemma tokens_partial l : one_line l → l ≠ [] → tokens l = [l].
Proof.
  induction 1 as [|c l Hc _ IH]; [done|]. intros _. cbn. rewrite (proj2 (Z.eqb_neq c 10) Hc).
  destruct l as [|d l]; [done|]. by rewrite IH.
Qed.

(** The stored form of a sequence of lines. *)
Definition unlines (ls : list bytes) : bytes := concat (map (λ l, l ++ [10]) ls).

Lemma tokens_unlines ls : Forall one_line ls → tokens (unlines ls) = map (λ l, l ++ [10]) ls.
Proof.
  induction 1 as [|l ls Hl _ IH]; [done|]. unfold unlines in *. cbn. rewrite <- app_assoc. cbn.
  by rewrite tokens_line, IH.
Qed.

Lemma unlines_app a b : unlines (a ++ b) = unlines a ++ unlines b.
Proof. unfold unlines. by rewrite map_app, concat_app. Qed.

Lemma tokens_unlines_partial ls l : Forall one_line ls → one_line l → l ≠ [] →
  tokens (unlines ls ++ l) = map (λ l, l ++ [10]) ls ++ [l].
Proof.
  intros H Hl Hne. induction H as [|x ls Hx _ IH]; [by apply tokens_partial|].
  unfold unlines in *. cbn. rewrite <- app_assoc, <- app_assoc. cbn. by rewrite tokens_line, IH.
Qed.

Lemma unlines_inj ls ls' : Forall one_line ls → Forall one_line ls' → unlines ls = unlines ls' → ls = ls'.
Proof.
  intros H H' E. apply (f_equal tokens) in E. rewrite !tokens_unlines in E by done.
  revert ls' H' E. induction H as [|l ls Hl _ IH]; intros [|l' ls'] H' E; try done.
  cbn in E. injection E as E1 E2. apply app_inj_tail in E1 as [-> _]. f_equal. inversion H'. eauto.
Qed.

(** ** Trimming *)

Lemma cut_runes_encode rs rest : Forall valid_rune rs →
  cut_runes ((λ r, (r, length (EncodeRune r))) <$> rs) (encode_runes rs ++ rest) = (λ r, (r, EncodeRune r)) <$> rs.
Proof.
  intros H. induction H as [|r rs Hr _ IH]; [done|].
  rewrite !fmap_cons. unfold encode_runes in *. rewrite fmap_cons. cbn [concat cut_runes].
  rewrite <- app_assoc, take_app_length, drop_app_length. by rewrite IH.
Qed.

Lemma TrimSpace_runes rs : Forall valid_rune rs →
  TrimSpace (encode_runes rs) = concat (snd <$> reverse (drop_spaces (reverse (drop_spaces ((λ r, (r, EncodeRune r)) <$> rs))))).
Proof.
  intros H. unfold TrimSpace. rewrite decoded_encode_runes by done.
  pose proof (cut_runes_encode rs [] H) as E. rewrite app_nil_r in E. by rewrite E.
Qed.

(** A line that opens and closes with braces loses its newline and nothing else. *)
Lemma TrimSpace_braces body : Valid body = true →
  TrimSpace ((123 :: body ++ [125]) ++ [10]) = 123 :: body ++ [125] ∧
  TrimSpace (123 :: body ++ [125]) = 123 :: body ++ [125].
Proof.
  intros (rs & Hrs & ->)%Valid_iff.
  assert (∀ sp, Forall valid_rune sp → Forall (λ r, IsSpace r = true) sp →
    TrimSpace (encode_runes (123 :: rs ++ 125 :: sp)) = 123 :: encode_runes rs ++ [125]) as H.
  { intros sp Hv Hsp. rewrite TrimSpace_runes.
    2:{ constructor; [unfold valid_rune; lia|]. apply Forall_app. split; [done|]. constructor; [unfold valid_rune; lia|done]. }
    rewrite fmap_cons. cbn [drop_spaces]. change (IsSpace 123) with false.
    rewrite fmap_app, fmap_cons. rewrite reverse_cons, reverse_app, reverse_cons, <- !app_assoc.
    assert (∀ l, drop_spaces (reverse ((λ r, (r, EncodeRune r)) <$> sp) ++ [(125, EncodeRune 125)] ++ l) = (125, EncodeRune 125) :: l) as ->.
    { intros l. clear Hv. induction sp as [|r sp IH] using rev_ind; [done|].
      apply Forall_app in Hsp as [Hsp [Hr _]%Forall_cons]. specialize (IH Hsp). rewrite fmap_app. cbn. rewrite reverse_snoc. cbn. by rewrite Hr. }
    rewrite reverse_cons, reverse_app, reverse_involutive, reverse_singleton. cbn.
    rewrite fmap_app, concat_app, <- list_fmap_compose. cbn. done. }
  split.
  - etrans; [|apply (H [10]); repeat constructor; unfold valid_rune; lia]. f_equal.
    change (123 :: rs ++ [125; 10]) with ([123] ++ rs ++ [125; 10]). rewrite !encode_runes_app. cbn.
    by rewrite <- app_assoc.
  - etrans; [|by apply (H [])]. f_equal.
    change (123 :: rs ++ [125]) with ([123] ++ rs ++ [125]). by rewrite !encode_runes_app.
Qed.
