(* ===== verification/Stored.v ===== *)
(** * Stored lines

    The line a well-formed record is stored as: it holds no newline, survives
    trimming, and fits the scanner's buffer when it is short enough, so a file
    of stored lines is read back line by line. *)

From S2P Require Import Prelude Utf8 GoJson CanonicalJson CanonicalJsonFacts GoStruct Crypto Event Lines.

(** No control characters: in particular no newline. *)
Definition visible (s : bytes) : Prop := Forall (λ c, 32 ≤ c) s.

Lemma visible_one_line s : visible s → one_line s.
Proof. intros H. eapply Forall_impl; [exact H|]. cbn. lia. Qed.

Lemma visible_app a b : visible a → visible b → visible (a ++ b).
Proof. intros. by apply Forall_app. Qed.
Lemma visible_cons c s : 32 ≤ c → visible s → visible (c :: s).
Proof. by constructor. Qed.
Lemma visible_concat l : Forall visible l → visible (concat l).
Proof. induction 1; [constructor|]. by apply visible_app. Qed.

Lemma visible_join l : Forall visible l → visible (comma_join l).
Proof.
  intros H. destruct H as [|x l Hx Hl]; [constructor|]. rewrite comma_join_cons. apply visible_app; [done|].
  unfold tail_text. apply visible_concat, Forall_map. eapply Forall_impl; [exact Hl|].
  intros. by apply visible_cons.
Qed.

Lemma hex_digit_visible n : 0 ≤ n < 16 → 32 ≤ hex_digit n.
Proof. unfold hex_digit. case_match; lia. Qed.

Lemma visible_u_escape r : visible (u_escape r).
Proof.
  unfold u_escape. repeat (apply visible_cons; [try lia; apply hex_digit_visible, Z.mod_pos_bound; lia|]). constructor.
Qed.

Lemma visible_EncodeRune r : valid_rune r → 32 ≤ r → visible (EncodeRune r).
Proof.
  intros Hr H. rewrite EncodeRune_arith by done. unfold valid_rune in Hr.
  repeat case_match; b2p; repeat (apply visible_cons; [zlia|]); constructor.
Qed.

Lemma short_escape_visible r e : short_escape r = Some e → 32 ≤ e.
Proof. unfold short_escape. intros H. repeat case_match; simplify_eq; lia. Qed.

Lemma visible_escape html r w : valid_rune r → visible (escape_rune html (r, w)).
Proof.
  intros Hr. unfold escape_rune. destruct (short_escape r) as [e|] eqn:E.
  { apply short_escape_visible in E. repeat (apply visible_cons; [lia|]). constructor. }
  destruct (Z.ltb_spec r 32); [apply visible_u_escape|].
  repeat case_match; auto using visible_u_escape, visible_EncodeRune.
Qed.

Lemma visible_json_string html s : Valid s = true → visible (json_string html s).
Proof.
  intros (rs & Hrs & ->)%Valid_iff. unfold json_string. rewrite decoded_encode_runes by done.
  apply visible_cons; [lia|]. apply visible_app; [|repeat constructor; lia]. apply visible_concat.
  rewrite <- list_fmap_compose. apply Forall_fmap. eapply Forall_impl; [exact Hrs|].
  intros r Hr. by apply visible_escape.
Qed.

Lemma visible_emit_rune r : valid_rune r → visible (emit_rune r).
Proof.
  intros Hr. unfold emit_rune. repeat case_match; try (repeat (apply visible_cons; [lia|]); constructor; fail);
    b2p; auto using visible_u_escape, visible_EncodeRune.
Qed.

Lemma visible_emit_string s : Valid s = true → visible (emitCanonicalJSONString s).
Proof.
  intros [Hr _]%Valid_runes. unfold emitCanonicalJSONString. apply visible_cons; [lia|].
  apply visible_app; [|repeat constructor; lia]. apply visible_concat, Forall_fmap.
  eapply Forall_impl; [exact Hr|]. apply visible_emit_rune.
Qed.

Lemma visible_digits d : Forall (λ c, is_digit c = true) d → visible d.
Proof. intros H. eapply Forall_impl; [exact H|]. intros c Hc. unfold is_digit in Hc. b2p. lia. Qed.

Lemma visible_number s : canonicalJSONNumber s = true → visible s.
Proof.
  intros (sign & i & f & -> & Hs & Hi & Hf)%canonical_number_shape.
  apply visible_app; [destruct Hs as [->| ->]; repeat constructor; lia|]. apply visible_app.
  - destruct Hi as [->|(c & d & -> & _ & Hd)]; [repeat constructor; lia|by apply visible_digits].
  - destruct Hf as [->|(d & -> & _ & Hd)]; [constructor|]. apply visible_cons; [lia|by apply visible_digits].
Qed.

Lemma visible_emit v : wf v → visible (emitCanonicalJSONValue v).
Proof.
  induction v as [|[]|s|s|l IH|m IH] using json_ind; intros Hv.
  1-3: repeat (apply visible_cons; [lia|]); constructor.
  - by apply visible_number.
  - apply visible_emit_string, Hv.
  - apply wf_arr in Hv. cbn. apply visible_cons; [lia|]. apply visible_app; [|repeat constructor; lia].
    apply visible_join, Forall_map. rewrite Forall_forall in *. eauto.
  - apply wf_obj in Hv as [_ Hv]. rewrite emit_obj. apply visible_cons; [lia|].
    apply visible_app; [|repeat constructor; lia]. apply visible_join, Forall_map.
    rewrite sort_keys_perm. rewrite Forall_forall in *. intros kv Hin. destruct (Hv kv Hin).
    apply visible_app; [by apply visible_emit_string|]. apply visible_cons; [lia|]. by apply (IH kv).
Qed.

Lemma visible_canonical s : canonical s → visible s.
Proof. intros (v & Hv & ->)%canonical_emit. by apply visible_emit. Qed.

(** ** Stored lines *)

Definition stored_line (e : Event) : bytes := field_object (line_list e).

Lemma visible_field_object l : Forall (λ kv, Valid kv.1 = true ∧ visible kv.2) l → visible (field_object l).
Proof.
  intros H. unfold field_object. apply visible_cons; [lia|]. apply visible_app; [|repeat constructor; lia].
  apply visible_join, Forall_map. eapply Forall_impl; [exact H|]. intros kv [Hk Hv]. unfold field_text.
  apply visible_app; [by apply visible_json_string|]. by apply visible_cons.
Qed.

Lemma visible_entry e : wf_event e → visible (EntryBytes e).
Proof.
  intros [? [] [] [] ? [] _ _ _]. rewrite EntryBytes_object. apply visible_field_object. unfold entry_list.
  repeat (apply Forall_cons; split; [split; [vm_compute; reflexivity|]; cbn [snd];
    first [by apply visible_json_string|apply visible_number; first [apply FormatInt_number|apply FormatUint_number]]|]).
  apply Forall_nil_2.
Qed.

Lemma visible_line e : wf_event e → visible (stored_line e).
Proof.
  intros He. unfold stored_line. apply visible_field_object. unfold line_list.
  apply Forall_cons. split; [split; [done|by apply visible_entry]|].
  apply Forall_cons. split; [split; [done|apply visible_canonical, He]|].
  destruct (beq (Sig e) []); [apply Forall_nil_2|]. apply Forall_singleton. split; [done|].
  apply visible_json_string, (wf_sig e He).
Qed.

Lemma field_object_body l vs : tidy_fields l vs →
  ∃ body, field_object l = 123 :: body ++ [125] ∧ Valid body = true.
Proof.
  intros H. exists (comma_join (map field_text l)). split; [done|]. apply Valid_comma_join, Forall_map.
  induction H as [|kv v l vs (Hk & _ & Hv & _) _ IH]; constructor; [|done]. unfold field_text.
  apply Valid_app; [by apply Valid_json_string|]. by apply Valid_cons.
Qed.

Lemma TrimSpace_line e : wf_event e →
  TrimSpace (stored_line e ++ [10]) = stored_line e ∧ TrimSpace (stored_line e) = stored_line e.
Proof.
  intros He. destruct (line_tidy e He) as (vs & Ht). destruct (field_object_body _ _ Ht) as (body & E & Hb).
  unfold stored_line. rewrite E. by apply TrimSpace_braces.
Qed.

(** [l] is a line of a file, newline excluded, that the readers decode as [e]. *)
Record line_of (e : Event) (l : bytes) : Prop := {
  lo_line : one_line l;
  lo_trim : TrimSpace (l ++ [10]) = l;
  lo_trim0 : TrimSpace l = l;
  lo_ne : l ≠ [];
  lo_size : Z.of_nat (length l) < MaxEventLineBytes;
  lo_decode : decodeEvent l = Ok e;
}.

Definition storable (e : Event) : Prop :=
  wf_event e ∧ unmarked e ∧ Z.of_nat (length (stored_line e)) < MaxEventLineBytes.

Lemma storable_line e : storable e → line_of e (stored_line e).
Proof.
  intros (He & Hu & Hl). split.
  - by apply visible_one_line, visible_line.
  - exact (proj1 (TrimSpace_line e He)).
  - exact (proj2 (TrimSpace_line e He)).
  - discriminate.
  - exact Hl.
  - exact (decode_line e He Hu).
Qed.

Lemma storable_marshal e : storable e → MarshalJSON e = Ok (stored_line e).
Proof. intros (He & _). by apply MarshalJSON_object, payload_nonempty. Qed.

Lemma lo_not_long e l : line_of e l → too_long (l ++ [10]) = false.
Proof.
  intros [_ _ _ _ H _]. unfold too_long. rewrite last_snoc, bool_decide_true by done.
  rewrite length_app. cbn. apply Z.ltb_ge. lia.
Qed.

(** The file that holds the records [evts], one stored line each. *)
Definition store (evts : list Event) : bytes := unlines (map stored_line evts).

Lemma store_app a b : store (a ++ b) = store a ++ store b.
Proof. unfold store. by rewrite map_app, unlines_app. Qed.

Lemma store_cons e evts : store (e :: evts) = stored_line e ++ 10 :: store evts.
Proof. unfold store, unlines. cbn [map concat]. by rewrite <- app_assoc. Qed.

Lemma store_one e : store [e] = stored_line e ++ [10].
Proof. by rewrite store_cons. Qed.

(** ** Reading a file of lines *)

Definition ended (ls : list bytes) : list bytes := map (λ l, l ++ [10]) ls.
Definition lines_of (evts : list Event) (ls : list bytes) : Prop := Forall2 line_of evts ls.

Lemma lines_of_store evts : Forall storable evts → lines_of evts (map stored_line evts).
Proof. induction 1; constructor; auto using storable_line. Qed.

Lemma lines_of_one_line evts ls : lines_of evts ls → Forall one_line ls.
Proof. induction 1 as [|e l evts ls [] _ IH]; constructor; auto. Qed.

Lemma tokens_lines evts ls : lines_of evts ls → tokens (unlines ls) = ended ls.
Proof. intros H. by apply tokens_unlines, (lines_of_one_line evts). Qed.

Section Scan.
Context {St E : Type}.
Variable fn : St → bytes → Z → Z → Z → St * option E.

(** One line of a file: the scanner hands it to [fn] as it stands. *)
Lemma scan_line e l rest offset at_ st : line_of e l →
  scan_loop fn ((l ++ [10]) :: rest) offset at_ st =
    match fn st l offset (Z.of_nat (length l) + 1) (at_ + 1) with
    | (st', Some err) => (st', Some (ScanFn err))
    | (st', None) => scan_loop fn rest (offset + (Z.of_nat (length l) + 1)) (at_ + 1) st'
    end.
Proof.
  intros Hl. cbn [scan_loop]. rewrite (lo_not_long e l Hl), (lo_trim e l Hl).
  rewrite (proj2 (beq_false _ _) (lo_ne e l Hl)). rewrite length_app. cbn [length].
  by replace (Z.of_nat (length l + 1)) with (Z.of_nat (length l) + 1) by lia.
Qed.

(** When every line is passed, the scan is a fold over the records; [step]
    says what one line does to the state. *)
Lemma scan_lines (step : St → Event → bytes → Z → Z → Z → St) evts ls : lines_of evts ls →
  ∀ rest offset at_ st,
  (∀ st e l off sz n, line_of e l → e ∈ evts → fn st l off sz n = (step st e l off sz n, None)) →
  ∃ st' offset' at', scan_loop fn (ended ls ++ rest) offset at_ st = scan_loop fn rest offset' at' st' ∧
    offset' = offset + Z.of_nat (length (unlines ls)) ∧ at' = at_ + Z.of_nat (length ls) ∧
    ((∀ st e l off sz n, step st e l off sz n = step st e [] 0 0 0) →
      st' = foldl (λ st e, step st e [] 0 0 0) st evts).
Proof.
  induction 1 as [|e l evts ls Hl _ IH]; intros rest offset at_ st Hfn.
  - exists st, offset, at_. cbn. repeat split; lia.
  - change (ended (l :: ls) ++ rest) with ((l ++ [10]) :: ended ls ++ rest).
    rewrite (scan_line e), (Hfn _ e) by (done || by left).
    destruct (IH rest (offset + (Z.of_nat (length l) + 1)) (at_ + 1) (step st e l offset (Z.of_nat (length l) + 1) (at_ + 1)))
      as (st' & off' & at' & -> & -> & -> & Hst). { intros. apply Hfn; [done|by right]. }
    eexists _, _, _. split; [reflexivity|]. unfold unlines. cbn [map concat length]. rewrite !length_app. cbn [length].
    split; [unfold unlines in *; lia|]. split; [lia|]. intros Hu. rewrite Hst by done. cbn. by rewrite Hu.
Qed.
End Scan.
