(* ===== verification/Chain.v ===== *)
(** * internal/ledger/ledger.go: walking the chain

    [verifyChain] over a source of records, with the window of entry hashes
    kept for late witness heads ([recordsSince]), the boundaries a refusal
    reports (verify_failure.go) and the interface of the head verifier
    (implemented in Witness.v). *)

From S2P Require Import Prelude Utf8 GoJson CanonicalJson CanonicalJsonFacts GoStruct Crypto Event.

Record Boundary := mkBoundary { b_seq : Z; b_hash : bytes }.

Definition no_boundary : Boundary := mkBoundary 0 [].

(** ** [recordsSince]: the entry hashes after the last attested record *)

Record recordsSince := mkSince { first : Z; sums : list bytes }.

Definition since_empty : recordsSince := mkSince 0 [].

Definition hashAt (w : recordsSince) (seq : Z) : option bytes :=
  if (seq <? first w) || (Z.of_nat (length (sums w)) <=? u64 (seq - first w)) then None
  else hex_encode <$> sums w !! Z.to_nat (u64 (seq - first w)).

Definition keep (w : recordsSince) (seq : Z) (sum : bytes) : recordsSince :=
  mkSince (match sums w with [] => seq | _ => first w end) (sums w ++ [sum]).

Definition forget (w : recordsSince) (through : Z) : recordsSince :=
  match sums w with
  | [] => w
  | _ =>
    if through <? first w then w
    else
      let k := u64 (through - first w + 1) in
      if k <? Z.of_nat (length (sums w))
      then mkSince (u64 (through + 1)) (drop (Z.to_nat k) (sums w))
      else mkSince (first w) []
  end.

(** ** The head verifier, as the ledger sees it

    [VerifyHead] may change the verifier's state and always says through which
    record the witness has attested the chain. *)

Class HeadVerifier := {
  heads_state : Type;
  head_error : Type;
  (** [errors.Is(err, ErrWitnessKeyUnknown)] *)
  is_key_unknown : head_error → bool;
  VerifyHead : heads_state → Event → (Z → option bytes) → heads_state * Z * option head_error;
}.

(** The attested ordinal is a [uint64]. *)
Class HeadVerifierLaws (HV : HeadVerifier) :=
  attested_u64 : ∀ h e at_, 0 ≤ (VerifyHead h e at_).1.2 < two64.

(** ** Failures *)

Section Failures.
Context `{HV : HeadVerifier}.

(** The requirement that did not hold, and the error behind it. *)
Inductive requirement (S : Type) :=
| ReqSeq                        (** seq mismatch *)
| ReqPrev                       (** prev mismatch *)
| ReqContent                    (** content mismatch *)
| ReqSealedWithoutWitness
| ReqSignature (e : sig_err)
| ReqUnsigned
| ReqHead (e : head_error)
| ReqSource (e : S).            (** the source could not be read on *)

Record VerifyFailure (S : Type) := mkFailure {
  Requirement : requirement S;
  f_Seq : Z;
  Container : bytes;
  Expected : bytes;
  Observed : bytes;
  NextSeq : Z;
  Proved : Boundary;
  Traversed : Boundary;
}.
End Failures.

Arguments ReqSeq {HV S}.
Arguments ReqPrev {HV S}.
Arguments ReqContent {HV S}.
Arguments ReqSealedWithoutWitness {HV S}.
Arguments ReqSignature {HV S} e.
Arguments ReqUnsigned {HV S}.
Arguments ReqHead {HV S} e.
Arguments ReqSource {HV S} e.
Arguments mkFailure {HV S} _ _ _ _ _ _ _ _.
Arguments Requirement {HV S} _.
Arguments f_Seq {HV S} _.
Arguments NextSeq {HV S} _.
Arguments Proved {HV S} _.
Arguments Traversed {HV S} _.

Definition orNone (s : bytes) : bytes := if beq s [] then bs "nothing" else s.
Definition shortEntryHash (h : bytes) : bytes := if (12 <? length h)%nat then take 12 h else h.

Section Established.
Context `{HV : HeadVerifier}.

(** [established]: what the walk had shown when it stopped. *)
Definition established {S} (f : VerifyFailure S) : bytes :=
  let p := Proved f in let t := Traversed f in
  if (b_seq p =? 0) && (b_seq t =? 0) then bs "nothing was established"
  else if b_seq p =? 0 then
    bs "nothing proved; links checked through record " ++ FormatUint (b_seq t) ++
    bs ", which no verified proof covers"
  else if b_seq p <? b_seq t then
    bs "proved through record " ++ FormatUint (b_seq p) ++ bs " (" ++ shortEntryHash (b_hash p) ++
    bs "); links checked through record " ++ FormatUint (b_seq t) ++ bs ", which no verified proof covers yet"
  else bs "proved through record " ++ FormatUint (b_seq p) ++ bs " (" ++ shortEntryHash (b_hash p) ++ bs ")".
End Established.

(** ** The walk *)

Section Walk.
Context `{P : Primitives} `{HV : HeadVerifier}.
(** What a source fails with, the visitor's own state, and its error. *)
Context {S V VE : Type}.
Variable pubKey : bytes.
Variable visit : option (V → Event → V * option VE).

Record walk := mkWalk {
  expectedPrev : bytes;
  expectedSeq : Z;
  proved : Boundary;
  traversed : Boundary;
  since : recordsSince;
  heads : option heads_state;
  count : Z;
  visited : V;
}.

Inductive walk_err :=
| VisitStopped (e : VE)
| Failed (f : VerifyFailure S).

Definition refuse (pr tr : Boundary) (seq : Z) (cont : bytes) (req : requirement S) (expected observed : bytes) : walk_err :=
  Failed (mkFailure req seq cont expected observed 0 pr tr).

(** The signature requirement: [proved] moves to the record when its own
    signature verifies; an unsigned record passes only when it is sealed. *)
Definition check_signature (evt : Event) (pr tr : Boundary) : result walk_err Boundary :=
  if negb (beq (Sig evt) []) then
    match verifyEventSignature evt pubKey with
    | Err e => Err (refuse pr tr (Seq evt) (container evt) (ReqSignature e) [] [])
    | Ok _ => Ok tr
    end
  else if negb (sealed evt) then Err (refuse pr tr (Seq evt) (container evt) ReqUnsigned [] [])
  else Ok pr.

(** The witness head requirement, for a [system.witnessed] record when a
    verifier is at hand. *)
Definition check_head (evt : Event) (pr tr : Boundary) (w : recordsSince) (hs : option heads_state) :
    result walk_err (recordsSince * option heads_state) :=
  match hs with
  | Some h =>
    if beq (EType evt) EventSystemWitnessed then
      let '(h', attested, err) := VerifyHead h evt (hashAt w) in
      match err with
      | Some e =>
        if negb (sealed evt) && is_key_unknown e then Ok (forget w attested, Some h')
        else Err (refuse pr tr (Seq evt) (container evt) (ReqHead e) [] [])
      | None => Ok (forget w attested, Some h')
      end
    else Ok (w, hs)
  | None => Ok (w, hs)
  end.

Definition run_visit (v : V) (evt : Event) : V * option VE :=
  match visit with Some f => f v evt | None => (v, None) end.

(** The function [verifyChain] hands to its source, for one record. *)
Definition walk_step (s : walk) (evt : Event) : result walk_err walk :=
  let want := u64 (expectedSeq s + 1) in
  if negb (Seq evt =? want) then
    Err (refuse (proved s) (traversed s) want (container evt) ReqSeq
           (bs "record " ++ FormatUint want) (bs "a record numbered " ++ FormatUint (Seq evt)))
  else if negb (beq (Prev evt) (expectedPrev s)) then
    Err (refuse (proved s) (traversed s) (Seq evt) (container evt) ReqPrev (expectedPrev s) (Prev evt))
  else if negb (beq (ContentHash (Payload evt)) (Content evt)) then
    Err (refuse (proved s) (traversed s) (Seq evt) (container evt) ReqContent (Content evt) (ContentHash (Payload evt)))
  else
    let sum := entrySum evt in
    let entryHash := hex_encode sum in
    let tr := mkBoundary (Seq evt) entryHash in
    if sealed evt && bool_decide (heads s = None) then
      Err (refuse (proved s) tr (Seq evt) (container evt) ReqSealedWithoutWitness [] [])
    else
      pr ← check_signature evt (proved s) tr;
      wh ← check_head evt pr tr (since s) (heads s);
      match run_visit (visited s) evt with
      | (_, Some e) => Err (VisitStopped e)
      | (v', None) =>
        let w' := match wh.2 with Some _ => keep wh.1 (Seq evt) sum | None => wh.1 end in
        mret (mkWalk entryHash want pr tr w' wh.2 (count s + 1) v')
      end.

Fixpoint walk_all (s : walk) (evts : list Event) : result walk_err walk :=
  match evts with
  | [] => Ok s
  | evt :: rest => s' ← walk_step s evt; walk_all s' rest
  end.

Definition walk_init (hs : option heads_state) (v : V) : walk :=
  mkWalk [] 0 no_boundary no_boundary since_empty hs 0 v.

(** A source delivers records in order until the function it was given
    returns an error, and may then fail itself. *)
Definition verifyChain (source : list Event * option S) (hs : option heads_state) (v : V) :
    result walk_err (Z * walk) :=
  match walk_all (walk_init hs v) source.1 with
  | Err e => Err e
  | Ok s =>
    match source.2 with
    | Some e =>
      Err (Failed (mkFailure (ReqSource e) 0 [] [] [] (u64 (expectedSeq s + 1)) (proved s) (traversed s)))
    | None => Ok (count s, s)
    end
  end.
End Walk.

(** ** What an accepted chain is *)

Section Spec.
Context `{P : Primitives}.

(** Records numbered on from [seq], each naming the hash of the one before it
    and the hash of its own payload. *)
Fixpoint linked (seq : Z) (prev : bytes) (evts : list Event) : Prop :=
  match evts with
  | [] => True
  | e :: rest =>
    Seq e = seq + 1 ∧ Prev e = prev ∧ ContentHash (Payload e) = Content e ∧
    linked (seq + 1) (EntryHash e) rest
  end.

Definition last_hash (prev : bytes) (evts : list Event) : bytes :=
  match last evts with Some e => EntryHash e | None => prev end.

(** The proof a record carries: a signature that verifies, or none when it is
    sealed and a witness stands behind the segment. *)
Definition proven (pubKey : bytes) (witnessed : bool) (e : Event) : Prop :=
  (sealed e = true → witnessed = true) ∧
  if beq (Sig e) [] then sealed e = true else verifyEventSignature e pubKey = Ok ().

(** [b] is nothing, or a record of [evts] and its entry hash. *)
Definition boundary_of (evts : list Event) (b : Boundary) : Prop :=
  b = no_boundary ∨ ∃ e i, evts !! i = Some e ∧ b = mkBoundary (Z.of_nat i + 1) (EntryHash e).

Definition since_ok (w : recordsSince) (evts : list Event) : Prop :=
  sums w = [] ∨ ∃ k, first w = Z.of_nat k + 1 ∧ sums w = entrySum <$> drop k evts.

Lemma last_hash_snoc prev evts e : last_hash prev (evts ++ [e]) = EntryHash e.
Proof. unfold last_hash. by rewrite last_snoc. Qed.

Lemma last_hash_cons prev e evts : last_hash prev (e :: evts) = last_hash (EntryHash e) evts.
Proof. unfold last_hash. destruct evts as [|x l]; [done|]. by rewrite last_cons_cons; destruct (last (x :: l)) eqn:E; [|apply last_None in E]. Qed.

Lemma linked_app seq prev l1 l2 : linked seq prev (l1 ++ l2) ↔
  linked seq prev l1 ∧ linked (seq + Z.of_nat (length l1)) (last_hash prev l1) l2.
Proof.
  revert seq prev. induction l1 as [|e l1 IH]; intros seq prev; cbn [app linked length].
  - rewrite Z.add_0_r. unfold last_hash. cbn. tauto.
  - rewrite IH, last_hash_cons.
    replace (seq + 1 + Z.of_nat (length l1)) with (seq + Z.of_nat (S (length l1))) by lia. tauto.
Qed.

Lemma linked_seq seq prev l i e : linked seq prev l → l !! i = Some e → Seq e = seq + Z.of_nat i + 1.
Proof.
  revert seq prev i. induction l as [|x l IH]; intros seq prev i; [done|]. intros (? & _ & _ & H).
  destruct i as [|i]; cbn; [intros [= <-]; lia|]. intros He. rewrite (IH _ _ _ H He). lia.
Qed.

Lemma boundary_app l1 l2 b : boundary_of l1 b → boundary_of (l1 ++ l2) b.
Proof. intros [->|(e & i & H & ->)]; [by left|]. right. exists e, i. split; [|done]. by apply lookup_app_l_Some. Qed.

Lemma boundary_last l e : boundary_of (l ++ [e]) (mkBoundary (Z.of_nat (length l) + 1) (EntryHash e)).
Proof. right. exists e, (length l). split; [|done]. by rewrite lookup_app_r, Nat.sub_diag. Qed.

(** ** The window of hashes always tells the truth *)

Lemma hashAt_ok w evts seq h : since_ok w evts → Z.of_nat (length evts) < two64 → 0 ≤ seq < two64 →
  hashAt w seq = Some h → ∃ e i, seq = Z.of_nat i + 1 ∧ evts !! i = Some e ∧ h = EntryHash e.
Proof.
  intros Hw Hl Hs. unfold hashAt. destruct (_ || _) eqn:E; [done|]. apply orb_false_iff in E as [E1 E2]. b2p.
  destruct Hw as [Hw|(k & Hf & Hw)]; rewrite Hw in *; [done|]. rewrite u64_small in * by lia.
  intros (s & Hs' & ->)%fmap_Some. apply list_lookup_fmap_Some in Hs' as (e & -> & Hd).
  rewrite lookup_drop in Hd. exists e, (k + Z.to_nat (seq - first w))%nat. split; [lia|done].
Qed.

Lemma keep_ok w evts e : since_ok w evts → since_ok (keep w (Z.of_nat (length evts) + 1) (entrySum e)) (evts ++ [e]).
Proof.
  intros Hw. right. unfold keep. cbn. destruct (sums w) as [|s ss] eqn:Es.
  - exists (length evts). split; [done|]. cbn. by rewrite drop_app_length.
  - destruct Hw as [Hw|(k & Hf & Hw)]; [congruence|]. exists k. split; [done|]. cbn.
    rewrite drop_app_le, fmap_app, <- Hw, Es; [done|].
    apply (f_equal length) in Hw. rewrite Es, length_fmap, length_drop in Hw. cbn in Hw. lia.
Qed.

Lemma forget_ok w evts t : since_ok w evts → Z.of_nat (length evts) < two64 → 0 ≤ t < two64 → since_ok (forget w t) evts.
Proof.
  intros Hw Hl Ht. unfold forget. destruct (sums w) as [|s ss] eqn:Es; [done|]. rewrite <- Es.
  destruct (Z.ltb_spec t (first w)); [done|]. destruct Hw as [Hw|(k & Hf & Hw)]; [by rewrite Es in Hw|].
  assert (length (sums w) = length evts - k)%nat as Hlen by (rewrite Hw, length_fmap, length_drop; done).
  rewrite u64_small by lia. destruct (Z.ltb_spec (t - first w + 1) (Z.of_nat (length (sums w)))); [|by left].
  right. exists (Z.to_nat t). cbn. rewrite u64_small by lia. split; [lia|].
  rewrite Hw, <- fmap_drop, drop_drop. do 2 f_equal. lia.
Qed.
End Spec.

(** ** The walk's invariant *)

Section WalkFacts.
Context `{P : Primitives} `{HV : HeadVerifier} `{HL : !HeadVerifierLaws HV}.
Context {S V VE : Type}.
Variable pubKey : bytes.
Variable visit : option (V → Event → V * option VE).
Implicit Types (s : walk (V := V)) (evts seen : list Event).

Definition witnessed (hs : option heads_state) : bool := bool_decide (hs ≠ None).

(** [b] names a record of [evts] whose own signature verifies. *)
Definition proven_boundary evts (b : Boundary) : Prop :=
  b = no_boundary ∨ ∃ e i, evts !! i = Some e ∧ b = mkBoundary (Z.of_nat i + 1) (EntryHash e) ∧
    verifyEventSignature e pubKey = Ok ().

Record walk_inv (hs0 : option heads_state) s seen : Prop := {
  inv_seq : expectedSeq s = Z.of_nat (length seen);
  inv_prev : expectedPrev s = last_hash [] seen;
  inv_count : count s = Z.of_nat (length seen);
  inv_linked : linked 0 [] seen;
  inv_proven : Forall (proven pubKey (witnessed hs0)) seen;
  inv_trav : boundary_of seen (traversed s);
  inv_trav_seq : b_seq (traversed s) = Z.of_nat (length seen);
  inv_prov : proven_boundary seen (proved s);
  inv_since : since_ok (since s) seen;
  inv_heads : witnessed (heads s) = witnessed hs0;
  inv_none : heads s = None → sums (since s) = [];
}.

Lemma walk_init_inv hs v : walk_inv hs (walk_init hs v) [].
Proof. by split; try done; left. Qed.

(** The facts a step rests on when it passes a record. *)
Lemma walk_step_ok s evt s' : walk_step (S := S) pubKey visit s evt = Ok s' →
  ∃ pr wh v', Seq evt = u64 (expectedSeq s + 1) ∧ Prev evt = expectedPrev s ∧
    ContentHash (Payload evt) = Content evt ∧ (sealed evt = true → heads s ≠ None) ∧
    check_signature (S := S) (VE := VE) pubKey evt (proved s) (mkBoundary (Seq evt) (EntryHash evt)) = Ok pr ∧
    check_head (S := S) (VE := VE) evt pr (mkBoundary (Seq evt) (EntryHash evt)) (since s) (heads s) = Ok wh ∧
    s' = mkWalk (EntryHash evt) (u64 (expectedSeq s + 1)) pr (mkBoundary (Seq evt) (EntryHash evt))
           (match wh.2 with Some _ => keep wh.1 (Seq evt) (entrySum evt) | None => wh.1 end) wh.2 (count s + 1) v'.
Proof.
  unfold walk_step. fold (EntryHash evt). destruct (Z.eqb_spec (Seq evt) (u64 (expectedSeq s + 1))) as [E1|]; [|done].
  cbn [negb]. destruct (beq (Prev evt) _) eqn:E2; [|done]. destruct (beq (ContentHash _) _) eqn:E3; [|done].
  cbn [negb]. destruct (sealed evt && _) eqn:E4; [done|].
  intros (pr & Hp & H)%bind_ok. apply bind_ok in H as (wh & Hwh & H).
  destruct (run_visit _ _ _) as [v' [e|]]; [done|]. injection H as <-. b2p.
  exists pr, wh, v'. repeat split; try done. intros Hs. rewrite Hs in E4. cbn in E4.
  by apply bool_decide_eq_false in E4.
Qed.

Lemma check_signature_ok evt pr tr pr' :
  check_signature (S := S) (VE := VE) pubKey evt pr tr = Ok pr' →
  (Sig evt ≠ [] ∧ verifyEventSignature evt pubKey = Ok () ∧ pr' = tr) ∨
  (Sig evt = [] ∧ sealed evt = true ∧ pr' = pr).
Proof.
  unfold check_signature. destruct (beq (Sig evt) []) eqn:E; b2p; cbn [negb].
  - destruct (sealed evt); [|done]. intros [= <-]. by right.
  - destruct (verifyEventSignature evt pubKey) as [[]|]; [|done]. intros [= <-]. by left.
Qed.

Lemma check_head_ok evt pr tr w hs wh seen :
  check_head (S := S) (VE := VE) evt pr tr w hs = Ok wh → since_ok w seen → Z.of_nat (length seen) < two64 →
  since_ok wh.1 seen ∧ witnessed wh.2 = witnessed hs ∧ (wh.2 = None → wh = (w, None)).
Proof.
  unfold check_head. intros H Hw Hl. destruct hs as [h|]; [|by injection H as <-].
  destruct (beq _ _); [|by injection H as <-].
  destruct (VerifyHead h evt (hashAt w)) as [[h' att] err] eqn:E.
  assert (0 ≤ att < two64) as Ha by (pose proof (attested_u64 h evt (hashAt w)) as A; by rewrite E in A).
  destruct err as [er|]; [destruct (_ && _); [|done]|]; injection H as <-; cbn;
    (split; [by apply forget_ok|done]).
Qed.

Lemma walk_step_inv hs s seen evt s' : walk_inv hs s seen → Z.of_nat (length seen) + 1 < two64 →
  walk_step (S := S) pubKey visit s evt = Ok s' → walk_inv hs s' (seen ++ [evt]).
Proof.
  intros [I1 I2 I3 I4 I5 I6 I7 I8 I9 I10 I11] Hl (pr & wh & v' & H1 & H2 & H3 & H4 & Hp & Hh & ->)%walk_step_ok.
  rewrite I1, u64_small in H1 by lia.
  destruct (check_head_ok _ _ _ _ _ _ seen Hh I9 ltac:(lia)) as (Hw & Hwit & Hnone).
  assert (Z.of_nat (length (seen ++ [evt])) = Z.of_nat (length seen) + 1) as Hlen by (rewrite length_app; cbn; lia).
  apply check_signature_ok in Hp. destruct wh as [w1 h1]. cbn in Hw, Hwit, Hnone. split; cbn.
  - by rewrite I1, u64_small by lia.
  - by rewrite last_hash_snoc.
  - lia.
  - apply linked_app. split; [done|]. cbn. rewrite <- I2. repeat split; [lia|done|done].
  - apply Forall_app. split; [done|]. apply Forall_singleton. split; [intros; rewrite <- I10; by apply bool_decide_true, H4|].
    destruct Hp as [(Hs & ? & _)|(-> & ? & _)]; [by rewrite (proj2 (beq_false _ _) Hs)|done].
  - rewrite H1. apply boundary_last.
  - lia.
  - destruct Hp as [(_ & Hv & ->)|(_ & _ & ->)].
    + right. exists evt, (length seen). rewrite lookup_app_r, Nat.sub_diag, H1 by done. done.
    + destruct I8 as [->|(e & i & ? & -> & ?)]; [by left|]. right. exists e, i.
      split; [by apply lookup_app_l_Some|done].
  - destruct h1 as [h1|]; [rewrite H1; by apply keep_ok|]. specialize (Hnone eq_refl).
    left. replace w1 with (since s) by congruence. apply I11. by destruct (heads s).
  - by rewrite Hwit.
  - intros ->. specialize (Hnone eq_refl). replace w1 with (since s) by congruence. apply I11. by destruct (heads s).
Qed.

Lemma walk_all_inv hs evts : ∀ s seen s', walk_inv hs s seen → Z.of_nat (length seen + length evts) < two64 →
  walk_all (S := S) pubKey visit s evts = Ok s' → walk_inv hs s' (seen ++ evts).
Proof.
  induction evts as [|e evts IH]; intros s seen s' Hi Hl; cbn [walk_all].
  - intros [= <-]. by rewrite app_nil_r.
  - intros (s1 & H1 & H)%bind_ok. replace (seen ++ e :: evts) with ((seen ++ [e]) ++ evts) by (by rewrite <- app_assoc).
    cbn [length] in Hl. eapply IH; [eapply walk_step_inv; [done| |done]; lia|rewrite length_app; cbn; lia|done].
Qed.

(** What a refusal at a record reports. *)
Definition honest_failure evts (f : VerifyFailure S) : Prop :=
  linked 0 [] (take (Z.to_nat (b_seq (Traversed f))) evts) ∧
  boundary_of evts (Traversed f) ∧ proven_boundary evts (Proved f) ∧
  b_seq (Proved f) ≤ b_seq (Traversed f) ≤ Z.of_nat (length evts).

Lemma proven_boundary_app l1 l2 b : proven_boundary l1 b → proven_boundary (l1 ++ l2) b.
Proof.
  intros [->|(e & i & H & -> & ?)]; [by left|]. right. exists e, i.
  split; [by apply lookup_app_l_Some|done].
Qed.

Lemma proven_boundary_bound l b : proven_boundary l b → 0 ≤ b_seq b ≤ Z.of_nat (length l).
Proof. intros [->|(e & i & H%lookup_lt_Some & -> & _)]; cbn; lia. Qed.

Lemma honest_app l1 l2 f : honest_failure l1 f → honest_failure (l1 ++ l2) f.
Proof.
  intros (H1 & H2 & H3 & H4). split; [rewrite take_app_le by lia; done|].
  split; [by apply boundary_app|]. split; [by apply proven_boundary_app|]. rewrite length_app. lia.
Qed.

Lemma honest_here hs s seen f : walk_inv hs s seen →
  Proved f = proved s → Traversed f = traversed s → honest_failure seen f.
Proof.
  intros [] Hp Ht. unfold honest_failure. rewrite Hp, Ht, inv_trav_seq0, Nat2Z.id, firstn_all.
  pose proof (proven_boundary_bound _ _ inv_prov0). repeat split; auto; lia.
Qed.

Lemma honest_at hs s seen evt pr f : walk_inv hs s seen → linked 0 [] (seen ++ [evt]) →
  Traversed f = mkBoundary (Z.of_nat (length seen) + 1) (EntryHash evt) → Proved f = pr →
  proven_boundary (seen ++ [evt]) pr → honest_failure (seen ++ [evt]) f.
Proof.
  intros Hi Hl Ht <- Hp. unfold honest_failure. rewrite Ht. cbn [b_seq].
  pose proof (proven_boundary_bound _ _ Hp) as Hb. rewrite length_app in *. cbn [length] in *.
  rewrite firstn_all2 by (rewrite length_app; cbn; lia).
  split; [done|]. split; [apply boundary_last|]. split; [done|lia].
Qed.

Lemma walk_step_refusal hs s seen evt f : walk_inv hs s seen → Z.of_nat (length seen) + 1 < two64 →
  walk_step (S := S) pubKey visit s evt = Err (Failed f) → honest_failure (seen ++ [evt]) f.
Proof.
  intros Hi Hl. unfold walk_step. fold (EntryHash evt).
  assert (∀ req seq c x y, honest_failure (seen ++ [evt]) (mkFailure req seq c x y 0 (proved s) (traversed s))) as Hhere.
  { intros. by eapply honest_app, honest_here. }
  destruct (Z.eqb_spec (Seq evt) (u64 (expectedSeq s + 1))) as [E1|]; [|by intros [= <-]].
  cbn [negb]. destruct (beq (Prev evt) _) eqn:E2; [|by intros [= <-]].
  destruct (beq (ContentHash _) _) eqn:E3; [|by intros [= <-]]. cbn [negb]. b2p.
  rewrite (inv_seq _ _ _ Hi), u64_small in E1 by lia.
  assert (linked 0 [] (seen ++ [evt])) as Hlk.
  { apply linked_app. split; [apply Hi|]. cbn. rewrite <- (inv_prev _ _ _ Hi). repeat split; [lia|done|done]. }
  assert (∀ req c x y pr, proven_boundary (seen ++ [evt]) pr →
    honest_failure (seen ++ [evt]) (mkFailure req (Seq evt) c x y 0 pr (mkBoundary (Seq evt) (EntryHash evt)))) as Hat.
  { intros. by eapply honest_at; [| |cbn; by rewrite E1| |]. }
  pose proof (proven_boundary_app seen [evt] _ (inv_prov _ _ _ Hi)) as Hpr.
  destruct (sealed evt && _); [intros [= <-]; by apply Hat|].
  destruct (check_signature _ _ _ _) as [pr|e] eqn:Hs; cbn.
  2:{ intros [= ->]. unfold check_signature in Hs. repeat case_match; simplify_eq; by apply Hat. }
  assert (proven_boundary (seen ++ [evt]) pr) as Hpr'.
  { apply check_signature_ok in Hs as [(_ & Hv & ->)|(_ & _ & ->)]; [|done]. right. exists evt, (length seen).
    by rewrite lookup_app_r, Nat.sub_diag, E1. }
  destruct (check_head _ _ _ _ _) as [wh|e] eqn:Hh; cbn.
  - destruct (run_visit _ _ _) as [v' [e|]]; done.
  - intros [= ->]. unfold check_head in Hh. repeat case_match; simplify_eq; by apply Hat.
Qed.

Lemma walk_all_refusal hs evts : ∀ s seen f, walk_inv hs s seen → Z.of_nat (length seen + length evts) < two64 →
  walk_all (S := S) pubKey visit s evts = Err (Failed f) → honest_failure (seen ++ evts) f.
Proof.
  induction evts as [|e evts IH]; intros s seen f Hi Hl; cbn [walk_all]; [done|]. cbn [length] in Hl.
  replace (seen ++ e :: evts) with ((seen ++ [e]) ++ evts) by (by rewrite <- app_assoc).
  destruct (walk_step _ _ _ e) as [s1|er] eqn:Hs; cbn.
  - eapply IH; [eapply walk_step_inv; [done| |done]; lia|rewrite length_app; cbn; lia].
  - intros [= ->]. eapply honest_app, walk_step_refusal; [done| |done]. lia.
Qed.

Lemma verifyChain_inv evts src hs v n s : Z.of_nat (length evts) < two64 →
  verifyChain (S := S) pubKey visit (evts, src) hs v = Ok (n, s) →
  src = None ∧ n = Z.of_nat (length evts) ∧ walk_inv hs s evts.
Proof.
  intros Hl. unfold verifyChain. cbn. destruct (walk_all _ _ _ _) as [s'|] eqn:E; [|done].
  destruct src; [done|]. intros [= <- <-].
  apply (walk_all_inv hs evts _ [] _ (walk_init_inv hs v) Hl) in E. cbn in E. destruct E. done.
Qed.
End WalkFacts.

(** ** Completeness and tamper evidence *)

Section Accepted.
Context `{P : Primitives} `{L : !PrimitiveLaws P} `{HV : HeadVerifier} `{HL : !HeadVerifierLaws HV}.
Context {S V VE : Type}.
Variable pubKey : bytes.
Variable visit : option (V → Event → V * option VE).
(** A visitor that never stops the walk. *)
Hypothesis visit_passes : ∀ v e, (run_visit visit v e).2 = None.

Lemma walk_step_pass s seen e : walk_inv pubKey None s seen → Z.of_nat (length seen) + 1 < two64 →
  Seq e = Z.of_nat (length seen) + 1 → Prev e = last_hash [] seen → ContentHash (Payload e) = Content e →
  proven pubKey false e → heads s = None →
  ∃ s', walk_step (S := S) (V := V) (VE := VE) pubKey visit s e = Ok s' ∧ heads s' = None ∧
    visited s' = (run_visit visit (visited s) e).1.
Proof.
  intros Hi Hl K1 K2 K3 [Hse Hpe] Hn.
  assert (sealed e = false) as Hs by (destruct (sealed e); [by discriminate Hse|done]).
  destruct (beq (Sig e) []) eqn:Hsig; [congruence|]. unfold walk_step.
  rewrite (inv_seq _ _ _ _ Hi), u64_small, K1, Z.eqb_refl by lia.
  rewrite (inv_prev _ _ _ _ Hi), K2, K3, !beq_refl, Hs. cbn [negb andb].
  unfold check_signature. rewrite Hsig, Hpe. cbn [negb mbind result_bind]. rewrite Hn. cbn [check_head mbind result_bind].
  pose proof (visit_passes (visited s) e) as Hv. destruct (run_visit visit (visited s) e) as [v' err]. cbn in Hv. rewrite Hv.
  eexists. split; [reflexivity|]. done.
Qed.

(** Without a witness and a visitor the walk passes every proven chain. *)
Lemma walk_all_complete evts : ∀ s seen, walk_inv pubKey None s seen →
  Z.of_nat (length seen + length evts) < two64 →
  linked (Z.of_nat (length seen)) (last_hash [] seen) evts → Forall (proven pubKey false) evts → heads s = None →
  ∃ s', walk_all (S := S) (V := V) (VE := VE) pubKey visit s evts = Ok s' ∧
    visited s' = foldl (λ v e, (run_visit visit v e).1) (visited s) evts.
Proof.
  induction evts as [|e evts IH]; intros s seen Hi Hl Hk Hp Hn; [by eexists|]. cbn [length linked walk_all] in *.
  destruct Hk as (K1 & K2 & K3 & K4). apply Forall_cons in Hp as [Hpe Hp].
  destruct (walk_step_pass s seen e) as (s1 & Hs1 & Hn1 & Hv1); try done; [lia|]. rewrite Hs1. cbn [mbind result_bind foldl].
  rewrite <- Hv1. eapply (IH _ (seen ++ [e])); try done.
  - eapply walk_step_inv; [done|lia|done].
  - rewrite length_app. cbn. lia.
  - rewrite length_app, last_hash_snoc. cbn. by replace (Z.of_nat (length seen + 1)) with (Z.of_nat (length seen) + 1) by lia.
Qed.

Lemma verifyChain_passes evts (v : V) : Z.of_nat (length evts) < two64 →
  linked 0 [] evts → Forall (proven pubKey false) evts →
  ∃ s, verifyChain (S := S) (VE := VE) pubKey visit (evts, None) None v = Ok (Z.of_nat (length evts), s) ∧
    visited s = foldl (λ v e, (run_visit visit v e).1) v evts.
Proof.
  intros Hl Hk Hp. destruct (walk_all_complete evts (walk_init None v) []) as (s' & Hs & Hv); try done.
  { apply walk_init_inv. }
  exists s'. split; [|exact Hv].
  assert (verifyChain (S := S) (VE := VE) pubKey visit (evts, None) None v = Ok (count s', s')) as Hc.
  { unfold verifyChain. cbn [fst snd]. by rewrite Hs. }
  rewrite Hc. by apply verifyChain_inv in Hc as (_ & -> & _).
Qed.

(** Two inputs with one digest. *)
Definition collision : Prop := ∃ a b, a ≠ b ∧ sha256 a = sha256 b.

(** Equal in everything the signer wrote but the signature itself. *)
Definition same_record (e e' : Event) : Prop :=
  Seq e = Seq e' ∧ Prev e = Prev e' ∧ Timestamp e = Timestamp e' ∧ EType e = EType e' ∧
  Ring e = Ring e' ∧ Content e = Content e' ∧ Payload e = Payload e'.

Lemma sha256_determines a b : hex_encode (sha256 a) = hex_encode (sha256 b) → a = b ∨ collision.
Proof. intros H%hex_hash_inj. destruct (decide (a = b)); [by left|]. right. by exists a, b. Qed.

Lemma last_hash_determines evts : ∀ evts' seq prev, linked seq prev evts → linked seq prev evts' →
  Forall decoded evts → Forall decoded evts' → evts ≠ [] → evts' ≠ [] →
  last_hash prev evts = last_hash prev evts' → Forall2 same_record evts evts' ∨ collision.
Proof.
  induction evts as [|e l IH] using rev_ind; [done|]. intros evts' seq prev H H' Hd Hd' _ Hne.
  destruct evts' as [|e' l' _] using rev_ind; [done|]. rewrite !last_hash_snoc. intros Hh.
  apply linked_app in H as [Hl (S1 & P1 & C1 & _)]. apply linked_app in H' as [Hl' (S2 & P2 & C2 & _)].
  apply Forall_app in Hd as [Hd [De _]%Forall_cons]. apply Forall_app in Hd' as [Hd' [De' _]%Forall_cons].
  destruct (sha256_determines _ _ Hh) as [Hb|]; [|by right].
  destruct (EntryBytes_inj e e' De De' Hb) as (Hc & Hp & Hr & Hs & Ht & Hy).
  rewrite <- C1, <- C2 in Hc. destruct (sha256_determines _ _ Hc) as [Hpay|]; [|by right].
  assert (same_record e e') as Hsame by (repeat split; congruence).
  assert (length l = length l') as Hlen by lia.
  destruct (decide (l = [])) as [->|Hl0].
  { destruct l'; [|done]. left. by apply Forall2_cons_2. }
  assert (l' ≠ []) by (intros ->; by destruct l). rewrite P1, P2 in Hp.
  destruct (IH l' seq prev) as [IHl|]; auto. left. apply Forall2_app; [done|]. by apply Forall2_cons_2.
Qed.

End Accepted.

(** ** A concrete chain *)

(** The record that follows [prev] with [payload], signed by the sample key. *)
Definition sample_next (seq : Z) (prev : bytes) (ty payload : bytes) : Event :=
  let e := mkEvent seq prev (bs "2026-01-02T03:04:05Z") ty 0 (ContentHash payload) payload [] false false false [] in
  set_Sig e (b64_encode (7 :: toy_hash (SignatureInputGold SigAlg (PublicKeyFingerprint [9; 1]) (EntryHash e)))).

Definition sample_first : Event := sample_next 1 [] EventRing0Genesis (js "{'name':'a'}").
Definition sample_second : Event := sample_next 2 (EntryHash sample_first) EventSystemWitnessed (js "{'n':2}").
Definition sample_chain : list Event := [sample_first; sample_second].

(** A verifier that accepts every head and has attested nothing. *)
Definition quiet_heads : HeadVerifier := {|
  heads_state := unit; head_error := unit; is_key_unknown _ := false; VerifyHead h _ _ := (h, 0, None) |}.

Lemma quiet_heads_laws : HeadVerifierLaws quiet_heads.
Proof. intros h e at_. cbn. unfold two64. lia. Qed.

Section Properties.
Context `{P : Primitives} `{L : !PrimitiveLaws P} `{HV : HeadVerifier} `{HL : !HeadVerifierLaws HV}.
Context {S V VE : Type}.
Variable pubKey : bytes.

(** C3. A chain [verifyChain] accepts is a chain: its source was read to the
    end, the records are numbered from 1 without a gap, each names the entry
    hash of the one before it and the hash of its own payload, every
    signature that is present verifies, and a record without one is sealed
    under a witness. *)
Theorem verifyChain_sound visit evts src hs (v : V) n s : Z.of_nat (length evts) < two64 →
  verifyChain (S := S) (VE := VE) pubKey visit (evts, src) hs v = Ok (n, s) →
  src = None ∧ n = Z.of_nat (length evts) ∧ linked 0 [] evts ∧ Forall (proven pubKey (witnessed hs)) evts.
Proof. intros Hl (? & ? & Hi)%verifyChain_inv; [|done]. by destruct Hi. Qed.

(** Nothing sound is refused: without a witness, every linked chain of
    signed, unsealed records is accepted and counted, whatever visitor that
    does not stop it looks on. *)
Theorem verifyChain_complete visit evts (v : V) : (∀ v e, (run_visit visit v e).2 = None) →
  Z.of_nat (length evts) < two64 → linked 0 [] evts → Forall (proven pubKey false) evts →
  ∃ s, verifyChain (S := S) (VE := VE) pubKey visit (evts, None) None v = Ok (Z.of_nat (length evts), s).
Proof. intros Hv Hl Hk Hp. destruct (verifyChain_passes (S := S) pubKey visit Hv evts v Hl Hk Hp) as (s & Hs & _). eauto. Qed.


(** A refusal says what it had established and no more: the records
    through [Traversed] are linked, [Traversed] and [Proved] name records of
    the chain by their true hashes, the one under [Proved] carries a
    signature that verifies, and [Proved] never lies beyond [Traversed]. *)
Theorem refusal_is_honest visit evts src hs (v : V) f : Z.of_nat (length evts) < two64 →
  verifyChain (VE := VE) pubKey visit (evts, src) hs v = Err (Failed f) →
  honest_failure (S := S) pubKey evts f.
Proof.
  intros Hl. unfold verifyChain. cbn [fst snd]. destruct (walk_all _ _ _ _) as [s|e] eqn:E.
  - apply (walk_all_inv pubKey visit hs evts _ [] _ (walk_init_inv _ hs v) Hl) in E.
    destruct src; [|done]. intros [= <-]. by eapply honest_here.
  - intros [= ->]. by apply (walk_all_refusal pubKey visit hs evts _ [] _ (walk_init_inv _ hs v) Hl) in E.
Qed.

(** The window of hashes lent to the witness tells the truth: after any
    walk, whatever was kept and forgotten, [hashAt] answers a number only
    with the entry hash of the record that bears it. *)
Theorem hash_window_truthful visit evts hs (v : V) s seq h : Z.of_nat (length evts) < two64 →
  0 ≤ seq < two64 → walk_all (S := S) (VE := VE) pubKey visit (walk_init hs v) evts = Ok s →
  hashAt (since s) seq = Some h →
  ∃ e, e ∈ evts ∧ Seq e = seq ∧ h = EntryHash e.
Proof.
  intros Hl Hs H Hh. apply (walk_all_inv pubKey visit hs evts _ [] _ (walk_init_inv _ hs v) Hl) in H. cbn in H.
  destruct (hashAt_ok _ _ _ _ (inv_since _ _ _ _ H) Hl Hs Hh) as (e & i & -> & He & ->).
  exists e. split; [by eapply list_elem_of_lookup_2|]. split; [|done].
  rewrite (linked_seq _ _ _ _ _ (inv_linked _ _ _ _ H) He). lia.
Qed.
End Properties.

(** ** Witnesses *)

Abbreviation sample_walk evts :=
  (verifyChain (HV := quiet_heads) (S := unit) (V := unit) (VE := unit) [9; 1] None (evts, None) (Some tt) tt).

Lemma sample_accepted : ∃ s, sample_walk sample_chain = Ok (2, s).
Proof. eexists. vm_compute. reflexivity. Qed.

Lemma sample_decoded : Forall decoded sample_chain.
Proof. repeat (apply Forall_cons; split; [split; vm_compute; done|]). apply Forall_nil_2. Qed.

Lemma sample_proven : linked 0 [] sample_chain ∧ Forall (proven [9; 1] false) sample_chain.
Proof.
  split; [vm_compute; tauto|].
  repeat (apply Forall_cons; split; [split; [done|vm_compute; reflexivity]|]). apply Forall_nil_2.
Qed.

Lemma verifyChain_sound_witness : linked 0 [] sample_chain ∧ Forall (proven [9; 1] true) sample_chain.
Proof.
  destruct sample_accepted as [s H].
  exact (proj2 (proj2 (verifyChain_sound (HV := quiet_heads) (HL := quiet_heads_laws)
    [9; 1] None sample_chain None (Some tt) tt 2 s eq_refl H))).
Defined.

Lemma verifyChain_complete_witness :
  ∃ s, verifyChain (HV := quiet_heads) (S := unit) (VE := unit) [9; 1] None (sample_chain, None) None tt = Ok (2, s).
Proof.
  exact (verifyChain_complete (HV := quiet_heads) (HL := quiet_heads_laws) (S := unit) (VE := unit)
    [9; 1] None sample_chain tt (λ _ _, eq_refl) eq_refl (proj1 sample_proven) (proj2 sample_proven)).
Defined.


(** The second record with another payload under the same content hash. *)
Definition sample_forged : Event :=
  mkEvent 2 (Prev sample_second) (Timestamp sample_second) (EType sample_second) 0 (Content sample_second)
    (js "{'n':3}") (Sig sample_second) false false false [].

Definition sample_failure : VerifyFailure (HV := quiet_heads) unit :=
  mkFailure (HV := quiet_heads) ReqContent 2 [] (Content sample_second) (ContentHash (js "{'n':3}")) 0
    (mkBoundary 1 (EntryHash sample_first)) (mkBoundary 1 (EntryHash sample_first)).

Lemma refusal_is_honest_witness :
  sample_walk [sample_first; sample_forged] = Err (Failed sample_failure) ∧
  honest_failure (HV := quiet_heads) [9; 1] [sample_first; sample_forged] sample_failure.
Proof.
  assert (sample_walk [sample_first; sample_forged] = Err (Failed sample_failure)) as H by (vm_compute; reflexivity).
  split; [exact H|].
  exact (refusal_is_honest (HV := quiet_heads) (HL := quiet_heads_laws) [9; 1] None
    [sample_first; sample_forged] None (Some tt) tt sample_failure eq_refl H).
Defined.

Lemma hash_window_truthful_witness : ∃ e, e ∈ sample_chain ∧ Seq e = 2 ∧ EntryHash sample_second = EntryHash e.
Proof.
  assert (∃ s, walk_all (HV := quiet_heads) (S := unit) (V := unit) (VE := unit) [9; 1] None
    (walk_init (HV := quiet_heads) (Some tt) tt) sample_chain = Ok s ∧ hashAt (since s) 2 = Some (EntryHash sample_second)) as (s & H & Hh).
  { eexists. split; [vm_compute; reflexivity|]. vm_compute. reflexivity. }
  eapply (hash_window_truthful (HV := quiet_heads) (HL := quiet_heads_laws) (S := unit) (VE := unit)
    [9; 1] None sample_chain (Some tt) tt s 2 (EntryHash sample_second)).
  - exact eq_refl.
  - split; [lia|exact eq_refl].
  - exact H.
  - exact Hh.
Defined.
