(* ===== verification/Container.v ===== *)
(** * internal/ledger/container.go: segments, the tail and their overlap

    The record is a contiguous run of gzip segments followed by the tail file.
    Here: the names of segments, the directory's segment set, reading a segment
    and the tail line by line, and the overlap that an interrupted seal leaves
    between the newest segment and the tail.  The directory is a finite map;
    gzip is an interface with its round trip as law. *)

From stdpp Require Import gmap.
From S2P Require Import Prelude Utf8 GoJson CanonicalJson CanonicalJsonFacts GoStruct Crypto Event Lines Chain.

(** ** Compression *)

Class Gzip := {
  gzip : bytes → bytes;
  (** [gzip.NewReader] and reading it to the end: [None] when the header is
      refused; otherwise what could be read and whether the stream broke off. *)
  gunzip : bytes → option (bytes * bool);
}.
Class GzipLaws (G : Gzip) := gunzip_gzip : ∀ b, gunzip (gzip b) = Some (b, false).

(** ** Directories *)

Inductive node := NFile (content : bytes) | NDir.
Abbreviation dir := (gmap (list Z) node).

Definition read_file (d : dir) (name : bytes) : option bytes :=
  match d !! name with Some (NFile c) => Some c | _ => None end.

(** ** Names *)

Definition segmentPrefix : bytes := bs "segment-".
Definition segmentSuffix : bytes := bs ".jsonl.gz".
Definition segmentTempPrefix : bytes := bs ".segment-".
Definition tailTempPrefix : bytes := bs ".ledger.tail-".
Definition tempSuffix : bytes := bs ".tmp".

Definition HasPrefix (s p : bytes) : bool := beq (take (length p) s) p.
Definition HasSuffix (s p : bytes) : bool :=
  (length p <=? length s)%nat && beq (drop (length s - length p) s) p.
Definition TrimPrefix (s p : bytes) : bytes := if HasPrefix s p then drop (length p) s else s.
Definition TrimSuffix (s p : bytes) : bytes := if HasSuffix s p then take (length s - length p) s else s.

(** [strings.Cut(s, sep)] for a one-byte separator. *)
Fixpoint Cut (sep : Z) (s : bytes) : option (bytes * bytes) :=
  match s with
  | [] => None
  | c :: t => if c =? sep then Some ([], t)
              else match Cut sep t with Some (a, b) => Some (c :: a, b) | None => None end
  end.

Record segment := mkSegment { seg_first : Z; seg_last : Z; seg_name : bytes }.

Definition segmentName (first last : Z) : bytes :=
  segmentPrefix ++ FormatUint first ++ [45] ++ FormatUint last ++ segmentSuffix.

Definition parseSegmentName (name : bytes) : option (Z * Z) :=
  if negb (HasPrefix name segmentPrefix) || negb (HasSuffix name segmentSuffix) then None
  else
    let body := TrimSuffix (TrimPrefix name segmentPrefix) segmentSuffix in
    match Cut 45 body with
    | None => None
    | Some (a, b) =>
      match ParseUint a with
      | None => None
      | Some first =>
        if negb (beq (FormatUint first) a) then None
        else match ParseUint b with
        | None => None
        | Some last =>
          if negb (beq (FormatUint last) b) then None
          else if (first =? 0) || (last <? first) then None
          else Some (first, last)
        end
      end
    end.

Definition IsSegmentName (name : bytes) : bool :=
  match parseSegmentName name with Some _ => true | None => false end.

(** ** The segment set *)

Inductive cont_err :=
| ESegmentSet | ESegmentWithoutHead | ETailConflict
| EMalformed (e : event_err)          (** a malformed line of a segment *)
| ERecordUnreadable (e : event_err)   (** a malformed line of the tail *)
| EGzip | EOpen | ETooLong | ERead.

Fixpoint insert_segment (s : segment) (l : list segment) : list segment :=
  match l with
  | [] => [s]
  | x :: l' => if seg_first s <=? seg_first x then s :: l else x :: insert_segment s l'
  end.
(** [sort.Slice] by first record. *)
Definition sort_segments (l : list segment) : list segment := foldr insert_segment [] l.

Definition segment_entry (e : bytes * node) : option segment :=
  match e.2 with
  | NDir => None
  | NFile _ =>
    match parseSegmentName e.1 with
    | Some (first, last) => Some (mkSegment first last e.1)
    | None => None
    end
  end.

Definition segmentFiles (d : dir) : list segment := sort_segments (omap segment_entry (map_to_list d)).

Fixpoint contiguous (next : Z) (segs : list segment) : bool :=
  match segs with
  | [] => true
  | s :: rest => if seg_first s =? next then contiguous (u64 (seg_last s + 1)) rest else false
  end.

Definition listSegments (d : dir) : result cont_err (list segment) :=
  let segs := segmentFiles d in if contiguous 1 segs then Ok segs else Err ESegmentSet.

(** [RecordArtifact]: the first trace of a record at [path]. *)
Definition RecordArtifact (d : dir) (path : bytes) : result cont_err bytes :=
  match d !! path with
  | Some _ => Ok path
  | None =>
    segs ← listSegments d;
    match segs with s :: _ => mret (seg_name s) | [] => mret [] end
  end.

(** Temporary files an interrupted seal leaves. *)
Definition is_debris (name : bytes) : bool :=
  HasSuffix name tempSuffix && (HasPrefix name segmentTempPrefix || HasPrefix name tailTempPrefix).

Definition debris (e : bytes * node) : bool :=
  match e.2 with NDir => false | NFile _ => is_debris e.1 end.

Definition sweepDebris (d : dir) : dir := filter (λ e, debris e = false) d.

(** ** Reading *)

(** Why streaming ended early: the callback asked to stop, the callback failed,
    or the container did. *)
Inductive stream_err (E : Type) := SStop | SUser (e : E) | SCont (c : cont_err).
Arguments SStop {E}.
Arguments SUser {E} e.
Arguments SCont {E} c.

Definition scan_result {St E} (r : St * option (scan_err (stream_err E))) : St * option (stream_err E) :=
  match r with
  | (st, None) => (st, None)
  | (st, Some (ScanFn e)) => (st, Some e)
  | (st, Some ScanTooLong) => (st, Some (SCont ETooLong))
  | (st, Some ScanRead) => (st, Some (SCont ERead))
  end.

Definition mark_sealed (seg : segment) (e : Event) : Event :=
  mkEvent (Seq e) (Prev e) (Timestamp e) (EType e) (Ring e) (Content e) (Payload e) (Sig e)
    (readAsPriorShape e) true (Seq e =? seg_last seg) (seg_name seg).

Definition mark_container (name : bytes) (e : Event) : Event :=
  mkEvent (Seq e) (Prev e) (Timestamp e) (EType e) (Ring e) (Content e) (Payload e) (Sig e)
    (readAsPriorShape e) (sealed e) (closing e) name.

Section Stream.
Context `{P : Primitives} `{G : Gzip}.
Context {St E : Type}.
(** [fn evt line at], with the state it closes over. *)
Variable fn : St → Event → bytes → Z → St * option (stream_err E).

(** The line function of [streamSegment]; its own state is [last] and whether
    a record was read. *)
Definition segment_line (seg : segment) (s : St * option Event) (line : bytes) (offset size at_ : Z) :
    (St * option Event) * option (stream_err E) :=
  let '(st, last) := s in
  match decodeEvent line with
  | Err e => (s, Some (SCont (EMalformed e)))
  | Ok e0 =>
    let evt := mark_sealed seg e0 in
    if bool_decide (last = None) && negb (Seq evt =? seg_first seg) then (s, Some (SCont ESegmentSet))
    else let '(st', err) := fn st evt line at_ in ((st', Some evt), err)
  end.

Definition streamSegment (seg : segment) (file : option bytes) (st : St) : St * option (stream_err E) :=
  match file with
  | None => (st, Some (SCont EOpen))
  | Some c =>
    match gunzip c with
    | None => (st, Some (SCont EGzip))
    | Some (data, broken) =>
      match scan_result (scanLines (segment_line seg) data broken (st, None)) with
      | ((st', _), Some e) => (st', Some e)
      | ((st', None), None) => (st', Some (SCont ESegmentWithoutHead))
      | ((st', Some last), None) =>
        if negb (Seq last =? seg_last seg) then (st', Some (SCont ESegmentSet))
        else if negb (beq (EType last) EventSystemWitnessed) || beq (Sig last) []
        then (st', Some (SCont ESegmentWithoutHead))
        else (st', None)
      end
    end
  end.
End Stream.

(** ** The overlap of the newest segment and the tail *)

Section Overlap.
Context `{P : Primitives} `{G : Gzip}.

(** The scanner's remaining tokens, whether its reader broke, the record
    expected next, and a record read ahead. *)
Record overlapChecker := mkOverlap {
  oc_rest : list bytes; oc_broken : bool; oc_seg : segment; oc_next : Z; oc_pending : option Event }.

(** The loop of [read] over the scanner: the next record, and what is left. *)
Fixpoint oc_scan (toks : list bytes) (broken : bool) : result cont_err (option (Event * list bytes)) :=
  match toks with
  | [] => if broken then Err ERead else Ok None
  | tok :: rest =>
    if too_long tok then Err ETooLong
    else
      let line := TrimSpace tok in
      if beq line [] then oc_scan rest broken
      else match decodeEvent line with
      | Err e => Err (EMalformed e)
      | Ok evt => Ok (Some (evt, rest))
      end
  end.

Definition oc_read (oc : overlapChecker) : result cont_err (option (Event * overlapChecker)) :=
  match oc_pending oc with
  | Some e => Ok (Some (e, mkOverlap (oc_rest oc) (oc_broken oc) (oc_seg oc) (oc_next oc) None))
  | None =>
    r ← oc_scan (oc_rest oc) (oc_broken oc);
    mret (match r with
          | Some (e, rest) => Some (e, mkOverlap rest (oc_broken oc) (oc_seg oc) (oc_next oc) None)
          | None => None
          end)
  end.

(** The loop of [newOverlapChecker]: step to the record before [from], or to
    [from] itself when the segment begins there. *)
Fixpoint oc_seek (fuel : nat) (oc : overlapChecker) (from : Z) : result cont_err overlapChecker :=
  match fuel with
  | O => Err ESegmentSet
  | S f =>
    r ← oc_read oc;
    match r with
    | None => Err ESegmentSet
    | Some (evt, oc') =>
      if u64 (Seq evt + 1) =? from then Ok oc'
      else if from <=? Seq evt then
        if Seq evt =? from
        then Ok (mkOverlap (oc_rest oc') (oc_broken oc') (oc_seg oc') (oc_next oc') (Some evt))
        else Err ESegmentSet
      else oc_seek f oc' from
    end
  end.

Definition newOverlapChecker (seg : segment) (file : option bytes) (from : Z) : result cont_err overlapChecker :=
  match file with
  | None => Err EOpen
  | Some c =>
    match gunzip c with
    | None => Err EGzip
    | Some (data, broken) =>
      let toks := tokens data in
      oc_seek (S (length toks)) (mkOverlap toks broken seg from None) from
    end
  end.

Definition oc_check (oc : overlapChecker) (tail : Event) : result cont_err (overlapChecker * bool) :=
  if negb (Seq tail =? oc_next oc) then Err ETailConflict
  else
    r ← oc_read oc;
    match r with
    | None => Err ESegmentSet
    | Some (sealed, oc') =>
      if negb (Seq sealed =? Seq tail) || negb (beq (EntryHash sealed) (EntryHash tail)) then Err ETailConflict
      else Ok (mkOverlap (oc_rest oc') (oc_broken oc') (oc_seg oc') (u64 (oc_next oc' + 1)) (oc_pending oc'),
               Seq tail =? seg_last (oc_seg oc'))
    end.

(** ** The tail *)

Section Tail.
Context {St E : Type}.
Variable fn : St → Event → bytes → Z → St * option (stream_err E).
Variable d : dir.
Variable path : bytes.

(** What [streamTail] keeps between lines: the checker of an overlap under
    way, the newest segment until the overlap is behind, the records seen. *)
Record tail_state := mkTail { t_st : St; t_oc : option overlapChecker; t_newest : option segment; t_n : Z }.

Definition tail_line (s : tail_state) (line : bytes) (offset size at_ : Z) : tail_state * option (stream_err E) :=
  match decodeEvent line with
  | Err e => (s, Some (SCont (ERecordUnreadable e)))
  | Ok e0 =>
    let evt := mark_container path e0 in
    let s := mkTail (t_st s) (t_oc s) (t_newest s) (t_n s + 1) in
    let deliver :=
      match t_oc s with
      | Some _ => (s, Some (SCont ETailConflict))
      | None => let '(st', err) := fn (t_st s) evt line at_ in (mkTail st' None (t_newest s) (t_n s), err)
      end in
    match t_newest s with
    | Some newest =>
      if Seq evt <=? seg_last newest then
        let opened :=
          match t_oc s with
          | Some oc => Ok oc
          | None =>
            if negb (t_n s =? 1) || (Seq evt <? seg_first newest) then Err ETailConflict
            else newOverlapChecker newest (read_file d (seg_name newest)) (Seq evt)
          end in
        match oc ← opened; oc_check oc evt with
        | Err e => (s, Some (SCont e))
        | Ok (oc', true) => (mkTail (t_st s) None None (t_n s), None)
        | Ok (oc', false) => (mkTail (t_st s) (Some oc') (Some newest) (t_n s), None)
        end
      else deliver
    | None => deliver
    end
  end.

Definition streamTail (data : bytes) (newest : option segment) (st : St) : St * option (stream_err E) :=
  let '(s, err) := scan_result (scanLines tail_line data false (mkTail st None newest 0)) in (t_st s, err).

(** ** The whole record *)

Fixpoint stream_segments (segs : list segment) (st : St) : St * option (stream_err E) :=
  match segs with
  | [] => (st, None)
  | seg :: rest =>
    match streamSegment fn seg (read_file d (seg_name seg)) st with
    | (st', None) => stream_segments rest st'
    | r => r
    end
  end.

(** [streamLines]: an [ErrStop] of the callback ends the walk without an
    error.  [tail] overrides the tail file. *)
Definition streamLines (tail : option bytes) (st : St) : St * option (stream_err E) :=
  let unstop (r : St * option (stream_err E)) :=
    match r with (st', Some SStop) => (st', None) | _ => r end in
  match listSegments d with
  | Err e => (st, Some (SCont e))
  | Ok segs =>
    match stream_segments segs st with
    | (st', None) =>
      match tail, read_file d path with
      | Some data, _ | None, Some data => unstop (streamTail data (last segs) st')
      | None, None => (st', Some (SCont EOpen))
      end
    | r => unstop r
    end
  end.
End Tail.

(** [ReadAll]. *)
Definition collect (st : list Event) (e : Event) (line : bytes) (at_ : Z) : list Event * option (stream_err Empty_set) :=
  (st ++ [e], None).

Definition ReadAll (d : dir) (path : bytes) : result (stream_err Empty_set) (list Event) :=
  match streamLines collect d path None [] with
  | (evts, None) => Ok evts
  | (_, Some e) => Err e
  end.

(** [segmentEnd]. *)
Definition segmentEnd (seg : segment) (file : option bytes) : result (stream_err Empty_set) (Z * bytes) :=
  match streamSegment (λ _ e _ _, ((Seq e, EntryHash e), None)) seg file (0, []) with
  | (r, None) => Ok r
  | (_, Some e) => Err e
  end.

(** ** [reconcileTail]: where the tail continues past the newest segment *)

Definition first_line (s : option Event) (line : bytes) (offset size at_ : Z) : option Event * option (stream_err Empty_set) :=
  match decodeEvent line with
  | Err e => (s, Some (SCont (EMalformed e)))
  | Ok e => (Some e, Some SStop)
  end.

Definition overlap_line (s : overlapChecker * Z) (line : bytes) (offset size at_ : Z) :
    (overlapChecker * Z) * option (stream_err Empty_set) :=
  match decodeEvent line with
  | Err e => (s, Some (SCont (EMalformed e)))
  | Ok e =>
    match oc_check s.1 e with
    | Err err => (s, Some (SCont err))
    | Ok (oc', true) => ((oc', offset + size), Some SStop)
    | Ok (oc', false) => ((oc', s.2), None)
    end
  end.

(** The offset to keep the tail from; [None] when the tail needs no rewrite. *)
Definition reconcile_from (d : dir) (tail : bytes) (newest : segment) : result cont_err (option Z) :=
  match scan_result (scanLines first_line tail false None) with
  | (_, Some (SCont e)) => Err e
  | (None, _) => Ok None
  | (Some first, _) =>
    if seg_last newest <? Seq first then Ok None
    else if Seq first <? seg_first newest then Err ETailConflict
    else
      oc ← newOverlapChecker newest (read_file d (seg_name newest)) (Seq first);
      match scan_result (scanLines overlap_line tail false (oc, -1)) with
      | (_, Some (SCont e)) => Err e
      | ((_, keepFrom), _) => Ok (Some (if keepFrom <? 0 then Z.of_nat (length tail) else keepFrom))
      end
  end.
End Overlap.

(** ** Names: facts *)

Lemma HasPrefix_app p s : HasPrefix (p ++ s) p = true.
Proof. unfold HasPrefix. rewrite take_app_length. apply beq_refl. Qed.
Lemma TrimPrefix_app p s : TrimPrefix (p ++ s) p = s.
Proof. unfold TrimPrefix. rewrite HasPrefix_app. apply drop_app_length. Qed.
Lemma HasSuffix_app s p : HasSuffix (s ++ p) p = true.
Proof.
  unfold HasSuffix. rewrite length_app, Nat.add_sub, drop_app_length, beq_refl, andb_true_r.
  apply Nat.leb_le. lia.
Qed.
Lemma TrimSuffix_app s p : TrimSuffix (s ++ p) p = s.
Proof. unfold TrimSuffix. rewrite HasSuffix_app, length_app, Nat.add_sub. apply take_app_length. Qed.

Lemma HasPrefix_split s p : HasPrefix s p = true → s = p ++ TrimPrefix s p.
Proof.
  intros H. unfold TrimPrefix. rewrite H. unfold HasPrefix in H. apply beq_true in H.
  rewrite <- (take_drop (length p) s) at 1. by rewrite H.
Qed.
Lemma HasSuffix_split s p : HasSuffix s p = true → s = TrimSuffix s p ++ p.
Proof.
  intros H. unfold TrimSuffix. rewrite H. unfold HasSuffix in H. apply andb_true_iff in H as [_ H].
  apply beq_true in H. rewrite <- (take_drop (length s - length p) s) at 1. by rewrite H.
Qed.

Lemma Cut_app sep a b : Forall (λ c, c ≠ sep) a → Cut sep (a ++ sep :: b) = Some (a, b).
Proof.
  induction 1 as [|c a Hc _ IH]; cbn; [by rewrite Z.eqb_refl|]. by rewrite (proj2 (Z.eqb_neq c sep) Hc), IH.
Qed.
Lemma Cut_split sep s a b : Cut sep s = Some (a, b) → s = a ++ sep :: b.
Proof.
  revert a b. induction s as [|c t IH]; intros a b; cbn; [done|]. destruct (Z.eqb_spec c sep) as [->|].
  - by intros [= <- <-].
  - destruct (Cut sep t) as [[x y]|]; [|done]. intros [= <- <-]. cbn. f_equal. auto.
Qed.

Lemma FormatUint_no_dash z : Forall (λ c, c ≠ 45) (FormatUint z).
Proof. eapply Forall_impl; [apply FormatUint_digits|]. intros c Hc ->. done. Qed.

Lemma parse_segmentName first last : 1 ≤ first ≤ last → last < two64 →
  parseSegmentName (segmentName first last) = Some (first, last).
Proof.
  intros H Hl. unfold parseSegmentName.
  assert (segmentName first last = segmentPrefix ++ (FormatUint first ++ 45 :: FormatUint last) ++ segmentSuffix) as E.
  { unfold segmentName. rewrite <- app_assoc. done. }
  rewrite E, HasPrefix_app, TrimPrefix_app. rewrite app_assoc, HasSuffix_app, TrimSuffix_app. cbn [negb orb].
  rewrite Cut_app by apply FormatUint_no_dash. rewrite !ParseUint_Format, !beq_refl by lia. cbn [negb].
  by rewrite (proj2 (Z.eqb_neq first 0)), (proj2 (Z.ltb_ge last first)) by lia.
Qed.

Lemma ParseUint_range s z : ParseUint s = Some z → 0 ≤ z < two64.
Proof. unfold ParseUint. intros H. repeat case_match; simplify_eq. b2p. lia. Qed.

Lemma parseSegmentName_ok name first last : parseSegmentName name = Some (first, last) →
  name = segmentName first last ∧ 1 ≤ first ≤ last ∧ last < two64.
Proof.
  unfold parseSegmentName. destruct (HasPrefix name _) eqn:Hp; [|done]. destruct (HasSuffix name _) eqn:Hs; [|done].
  cbn [negb orb]. destruct (Cut 45 _) as [[a b]|] eqn:Hc; [|done].
  destruct (ParseUint a) as [x|] eqn:Ha; [|done]. destruct (beq (FormatUint x) a) eqn:Ex; [|done]. cbn [negb].
  destruct (ParseUint b) as [y|] eqn:Hb; [|done]. destruct (beq (FormatUint y) b) eqn:Ey; [|done]. cbn [negb].
  destruct (_ || _) eqn:Hr; [done|]. intros [= <- <-]. b2p. subst a b.
  apply ParseUint_range in Ha, Hb. split; [|lia].
  apply HasPrefix_split in Hp.
  assert (HasSuffix (TrimPrefix name segmentPrefix) segmentSuffix = true) as Hs'.
  { unfold TrimSuffix in Hc. destruct (HasSuffix (TrimPrefix name segmentPrefix) segmentSuffix) eqn:E; [done|].
    apply HasSuffix_split in Hs. apply Cut_split in Hc.
    assert (last name = Some 122) as L by (rewrite Hs, last_app; done).
    rewrite Hp, Hc, last_app, last_app in L.
    destruct (FormatUint_cons y) as (c & t & Ec & _). pose proof (FormatUint_digits y) as Hd.
    destruct (last (FormatUint y)) as [z|] eqn:Lz; [|by rewrite Ec in Lz; apply last_None in Lz].
    change (45 :: FormatUint y) with ([45] ++ FormatUint y) in L. rewrite last_app, Lz in L. injection L as ->.
    rewrite Forall_forall in Hd. by specialize (Hd 122 (last_Some_elem_of _ _ Lz)). }
  apply HasSuffix_split in Hs'. apply Cut_split in Hc. rewrite Hp, Hs', Hc. unfold segmentName. by rewrite <- app_assoc.
Qed.
