(* ===== verification/ContainerFacts.v ===== *)
(** * Containers: what the readers return for what the writers store

    A segment and a tail of stored lines are streamed as the records they
    hold; an overlap left by an interrupted seal is recognised record by record
    and skipped; names and segment sets are contiguous. *)

From stdpp Require Import gmap.
From S2P Require Import Prelude Utf8 GoJson CanonicalJson CanonicalJsonFacts GoStruct Crypto Event Lines Stored Chain Container.

Section Facts.
Context `{P : Primitives} `{G : Gzip} `{GL : !GzipLaws G}.

(** ** Segments *)

(** [es] are the records of the segment [seg]. *)
Record closes (seg : segment) (es : list Event) : Prop := {
  cl_first : Seq <$> head es = Some (seg_first seg);
  cl_last : ∃ h, last es = Some h ∧ Seq h = seg_last seg ∧ EType h = EventSystemWitnessed ∧ Sig h ≠ [];
}.

Lemma first_check seg (last0 : option Event) e es :
  (last0 = None → e :: es ≠ [] → Seq <$> head (e :: es) = Some (seg_first seg)) →
  bool_decide (last0 = None) && negb (Seq e =? seg_first seg) = false.
Proof.
  intros Hf. destruct (decide (last0 = None)) as [H0|H0]; [|by rewrite bool_decide_false].
  specialize (Hf H0 ltac:(done)). cbn in Hf. injection Hf as ->. by rewrite Z.eqb_refl, andb_false_r.
Qed.

Lemma segment_scan seg es ls : lines_of es ls → ∀ off n st last0,
  (last0 = None → es ≠ [] → Seq <$> head es = Some (seg_first seg)) →
  ∃ lst, scan_loop (segment_line collect seg) (ended ls) off n (st, last0) =
    ((st ++ map (mark_sealed seg) es, lst), None) ∧
    lst = match last es with Some e => Some (mark_sealed seg e) | None => last0 end.
Proof.
  induction 1 as [|e l es ls Hl _ IH]; intros off n st last0 Hf.
  - exists last0. cbn. by rewrite app_nil_r.
  - change (ended (l :: ls)) with ((l ++ [10]) :: ended ls). rewrite (scan_line _ e) by done.
    unfold segment_line at 1. rewrite (lo_decode e l Hl). change (Seq (mark_sealed seg e)) with (Seq e).
    rewrite (first_check seg last0 e es Hf).
    unfold collect at 1. cbn [fst snd].
    destruct (IH (off + (Z.of_nat (length l) + 1)) (n + 1) (st ++ [mark_sealed seg e]) (Some (mark_sealed seg e)))
      as (lst & -> & ->); [done|].
    eexists. rewrite <- app_assoc. split; [done|].
    destruct (last es) as [x|] eqn:Ex; rewrite last_cons, Ex; done.
Qed.

Lemma streamSegment_collect seg es ls st : lines_of es ls → closes seg es →
  streamSegment collect seg (Some (gzip (unlines ls))) st = (st ++ map (mark_sealed seg) es, None).
Proof.
  intros Hl [Hf (h & Hh & Hs & Ht & Hsig)]. unfold streamSegment. rewrite gunzip_gzip.
  unfold scanLines. rewrite (tokens_lines es ls Hl).
  destruct (segment_scan seg es ls Hl 0 0 st None) as (lst & -> & ->); [done|]. rewrite Hh. cbn.
  rewrite Hs, Z.eqb_refl, Ht, beq_refl. cbn. by rewrite (proj2 (beq_false _ _) Hsig).
Qed.

Lemma segmentEnd_ok seg es ls : lines_of es ls → closes seg es →
  segmentEnd seg (Some (gzip (unlines ls))) = Ok (seg_last seg, last_hash [] es).
Proof.
  intros Hl [Hf (h & Hh & Hs & Ht & Hsig)]. unfold segmentEnd, streamSegment. rewrite gunzip_gzip.
  unfold scanLines. rewrite (tokens_lines es ls Hl).
  assert (∀ off n st last0, (last0 = None → es ≠ [] → Seq <$> head es = Some (seg_first seg)) →
    scan_loop (segment_line (E := Empty_set) (λ _ e _ _, ((Seq e, EntryHash e), None)) seg) (ended ls) off n (st, last0) =
    ((match last es with Some e => (Seq e, EntryHash e) | None => st end,
      match last es with Some e => Some (mark_sealed seg e) | None => last0 end), None)) as H.
  { clear -Hl. induction Hl as [|e l es ls Hl _ IH]; intros off n st last0 Hf; [done|].
    change (ended (l :: ls)) with ((l ++ [10]) :: ended ls). rewrite (scan_line _ e) by done.
    unfold segment_line at 1. rewrite (lo_decode e l Hl). change (Seq (mark_sealed seg e)) with (Seq e).
    rewrite (first_check seg last0 e es Hf).
    rewrite IH by done. rewrite last_cons. by destruct (last es). }
  rewrite H by done. rewrite Hh. cbn. rewrite Hs, Z.eqb_refl, Ht, beq_refl. cbn.
  rewrite (proj2 (beq_false _ _) Hsig). unfold last_hash. by rewrite Hh.
Qed.

(** ** The tail *)

Lemma tail_scan d path es ls : lines_of es ls → ∀ off n st newest cnt,
  (∀ seg, newest = Some seg → Forall (λ e, seg_last seg < Seq e) es) →
  ∃ cnt', scan_loop (tail_line collect d path) (ended ls) off n (mkTail st None newest cnt) =
    (mkTail (st ++ map (mark_container path) es) None newest cnt', None).
Proof.
  induction 1 as [|e l es ls Hl _ IH]; intros off n st newest cnt Hn.
  - exists cnt. cbn. by rewrite app_nil_r.
  - change (ended (l :: ls)) with ((l ++ [10]) :: ended ls). rewrite (scan_line _ e) by done.
    unfold tail_line at 1. rewrite (lo_decode e l Hl). cbn [t_newest t_oc t_st t_n fst snd].
    assert (match newest with Some s => Seq (mark_container path e) <=? seg_last s | None => false end = false) as Hb.
    { destruct newest as [s|]; [|done]. specialize (Hn s eq_refl). inversion Hn; subst. by apply Z.leb_gt. }
    destruct (IH (off + (Z.of_nat (length l) + 1)) (n + 1) (st ++ [mark_container path e]) newest (cnt + 1)) as (cnt' & E).
    { intros seg ->. specialize (Hn seg eq_refl). by inversion Hn. }
    exists cnt'. destruct newest as [s|]; [rewrite Hb|]; unfold collect at 1; cbn [fst snd];
      rewrite E; by rewrite <- app_assoc.
Qed.

Lemma streamTail_collect d path es ls newest st : lines_of es ls →
  (∀ seg, newest = Some seg → Forall (λ e, seg_last seg < Seq e) es) →
  streamTail collect d path (unlines ls) newest st = (st ++ map (mark_container path) es, None).
Proof.
  intros Hl Hn. unfold streamTail, scanLines. rewrite (tokens_lines es ls Hl).
  destruct (tail_scan d path es ls Hl 0 0 st newest 0 Hn) as (c & ->). done.
Qed.

(** ** The overlap *)

Fixpoint numbered (next : Z) (l : list Event) : Prop :=
  match l with [] => True | e :: t => Seq e = next ∧ numbered (next + 1) t end.

Lemma linked_numbered seq prev l : linked seq prev l → numbered (seq + 1) l.
Proof. revert seq prev. induction l as [|e l IH]; intros seq prev; [done|]. intros (? & _ & _ & H). split; eauto. Qed.

Definition agree (e t : Event) : Prop := Seq e = Seq t ∧ EntryHash e = EntryHash t.

(** The checker stands before the records [es] of its segment. *)
Definition oc_at (seg : segment) (next : Z) (es : list Event) (oc : overlapChecker) : Prop :=
  oc_seg oc = seg ∧ oc_next oc = next ∧ oc_broken oc = false ∧
  match oc_pending oc with
  | None => ∃ ls, lines_of es ls ∧ oc_rest oc = ended ls
  | Some e => ∃ es' ls, es = e :: es' ∧ lines_of es' ls ∧ oc_rest oc = ended ls
  end.

Lemma oc_scan_line e l rest broken : line_of e l → oc_scan ((l ++ [10]) :: rest) broken = Ok (Some (e, rest)).
Proof.
  intros Hl. cbn [oc_scan]. rewrite (lo_not_long e l Hl), (lo_trim e l Hl).
  rewrite (proj2 (beq_false _ _) (lo_ne e l Hl)). by rewrite (lo_decode e l Hl).
Qed.

Lemma u64_succ_neq x : 0 ≤ x < two64 → u64 (x + 1) ≠ x.
Proof. unfold u64, two64. intros. zlia. Qed.

Lemma overlap_open seg e es l ls : line_of e l → lines_of es ls →
  ∃ oc, newOverlapChecker seg (Some (gzip (unlines (l :: ls)))) (Seq e) = Ok oc ∧ oc_at seg (Seq e) (e :: es) oc.
Proof.
  intros Hl Hls. unfold newOverlapChecker. rewrite gunzip_gzip.
  rewrite (tokens_lines (e :: es) (l :: ls)) by (by constructor). change (ended (l :: ls)) with ((l ++ [10]) :: ended ls).
  cbn [oc_seek length]. unfold oc_read. cbn [oc_pending oc_rest oc_broken]. rewrite (oc_scan_line e) by done. cbn [mbind result_bind mret result_ret].
  destruct (decodeEvent_decoded _ _ (lo_decode e l Hl)) as [Hd _].
  rewrite (proj2 (Z.eqb_neq _ _) (u64_succ_neq _ (dec_seq e Hd))), Z.leb_refl, Z.eqb_refl.
  eexists. split; [done|]. repeat split. by exists es, ls.
Qed.

Lemma oc_read_at seg next e es oc : oc_at seg next (e :: es) oc →
  ∃ oc', oc_read oc = Ok (Some (e, oc')) ∧ oc_at seg next es oc'.
Proof.
  intros (H1 & H2 & H3 & H4). unfold oc_read. destruct (oc_pending oc) as [p|].
  - destruct H4 as (es' & ls & [= <- <-] & Hl & Hr). eexists. split; [done|]. repeat split; try done. by exists ls.
  - destruct H4 as (ls & Hl & Hr). inversion Hl as [|e' l es' ls' Hl1 Hl2]; subst. rewrite Hr.
    change (ended (l :: ls')) with ((l ++ [10]) :: ended ls'). rewrite (oc_scan_line e) by done.
    eexists. split; [done|]. repeat split; try done. by exists ls'.
Qed.

Lemma oc_check_at seg t e es oc : oc_at seg (Seq t) (e :: es) oc → agree e t →
  ∃ oc', oc_check oc t = Ok (oc', Seq t =? seg_last seg) ∧ oc_at seg (u64 (Seq t + 1)) es oc'.
Proof.
  intros Ho [Hs Hh]. destruct (oc_read_at _ _ _ _ _ Ho) as (oc1 & Hr & Ho1). destruct Ho as (_ & Hn & _).
  unfold oc_check. rewrite Hn, Z.eqb_refl, Hr. cbn [negb mbind result_bind].
  rewrite Hs, Hh, Z.eqb_refl, beq_refl. cbn [negb orb].
  destruct Ho1 as (S1 & N1 & B1 & R1). rewrite S1. eexists. split; [done|]. repeat split; try done. cbn. by rewrite N1.
Qed.

(** A tail record inside the overlap moves the checker on and is not delivered. *)
Lemma tail_line_overlap d path seg st oc cnt e l off sz n : line_of e l → Seq e <= seg_last seg →
  ∀ oc' fin, oc_check oc (mark_container path e) = Ok (oc', fin) →
  tail_line collect d path (mkTail st (Some oc) (Some seg) cnt) l off sz n =
    (if fin then mkTail st None None (cnt + 1) else mkTail st (Some oc') (Some seg) (cnt + 1), None).
Proof.
  intros Hl Hle oc' fin Hc. unfold tail_line. rewrite (lo_decode e l Hl). cbn [t_newest t_oc t_st t_n].
  change (Seq (mark_container path e)) with (Seq e).
  rewrite (proj2 (Z.leb_le _ _) Hle). cbn [mbind result_bind]. rewrite Hc. by destruct fin.
Qed.

Lemma tail_overlap d path seg es O lso : Forall2 agree es O → lines_of O lso → ∀ next rest off n st oc cnt,
  numbered next O → next + Z.of_nat (length O) = seg_last seg + 1 → O ≠ [] → 0 ≤ next → seg_last seg < two64 →
  oc_at seg next es oc →
  ∃ cnt', scan_loop (tail_line collect d path) (ended lso ++ rest) off n (mkTail st (Some oc) (Some seg) cnt) =
    scan_loop (tail_line collect d path) rest (off + Z.of_nat (length (unlines lso))) (n + Z.of_nat (length lso))
      (mkTail st None None cnt').
Proof.
  intros Ha. revert lso. induction Ha as [|e t es O Het Ha IH]; intros lso Hl next rest off n st oc cnt Hn Hlen Hne H0 Hb Hoc; [done|].
  inversion Hl as [|t' l O' ls Hl1 Hls]; subst. destruct Hn as [Hn1 Hn2]. cbn [length] in Hlen.
  change (ended (l :: ls) ++ rest) with ((l ++ [10]) :: ended ls ++ rest). rewrite (scan_line _ t) by done.
  subst next. destruct (oc_check_at seg (mark_container path t) e es oc) as (oc' & Hc & Hoc'); [done|done|].
  rewrite (tail_line_overlap d path seg st oc cnt t l _ _ _ Hl1 ltac:(lia) _ _ Hc).
  change (Seq (mark_container path t)) with (Seq t) in *.
  assert (off + (Z.of_nat (length l) + 1) + Z.of_nat (length (unlines ls)) = off + Z.of_nat (length (unlines (l :: ls)))) as Eo.
  { unfold unlines. cbn. rewrite !length_app. cbn. lia. }
  cbn [length]. destruct O as [|t2 O].
  - inversion Hls; subst. cbn [length] in Hlen. rewrite (proj2 (Z.eqb_eq _ _)) by lia. cbn [ended map app].
    exists (cnt + 1). rewrite <- Eo. cbn [unlines map concat length]. by rewrite Z.add_0_r.
  - cbn [length] in Hlen. rewrite (proj2 (Z.eqb_neq _ _)) by lia.
    rewrite u64_small in Hoc' by lia.
    destruct (IH ls Hls (Seq t + 1) rest (off + (Z.of_nat (length l) + 1)) (n + 1) st oc' (cnt + 1)) as (c & ->);
      try done; [cbn [length]; lia|lia|].
    exists c. rewrite Eo. by replace (n + 1 + Z.of_nat (length ls)) with (n + Z.of_nat (S (length ls))) by lia.
Qed.

(** A tail that repeats the newest segment and goes on is read as what goes on. *)
Lemma streamTail_overlap d path seg es ls O lso B lsb st :
  Forall2 agree es O → lines_of es ls → lines_of O lso → lines_of B lsb → O ≠ [] →
  numbered (seg_first seg) O → seg_first seg + Z.of_nat (length O) = seg_last seg + 1 →
  0 ≤ seg_first seg → seg_last seg < two64 →
  read_file d (seg_name seg) = Some (gzip (unlines ls)) →
  streamTail collect d path (unlines (lso ++ lsb)) (Some seg) st = (st ++ map (mark_container path) B, None).
Proof.
  intros Ha Hls Hlo Hlb Hne Hn Hlen H0 Hb Hf. unfold streamTail, scanLines.
  assert (lines_of (O ++ B) (lso ++ lsb)) as Hob by (by apply Forall2_app).
  rewrite (tokens_lines _ _ Hob). unfold ended at 1. rewrite map_app. fold (ended lso) (ended lsb).
  destruct Ha as [|e t es O Het Ha]; [done|]. inversion Hls as [|e' l es' ls' Hl1 Hl2]; subst.
  destruct (overlap_open seg e es l ls') as (oc & Ho & Hoc); [done..|].
  assert (scan_loop (tail_line collect d path) (ended lso ++ ended lsb) 0 0 (mkTail st None (Some seg) 0) =
    scan_loop (tail_line collect d path) (ended lso ++ ended lsb) 0 0 (mkTail st (Some oc) (Some seg) 0)) as ->.
  { inversion Hlo as [|t' lt O' lso' Hlt Hlo']; subst.
    change (ended (lt :: lso') ++ ended lsb) with ((lt ++ [10]) :: ended lso' ++ ended lsb). rewrite !(scan_line _ t) by done.
    assert (∀ off sz n, tail_line collect d path (mkTail st None (Some seg) 0) lt off sz n =
      tail_line collect d path (mkTail st (Some oc) (Some seg) 0) lt off sz n) as E; [|by rewrite E].
    intros off sz n. unfold tail_line. rewrite (lo_decode t lt Hlt). cbn [t_newest t_oc t_st t_n].
    change (Seq (mark_container path t)) with (Seq t). destruct Hn as [Hn1 _]. destruct Het as [Hs Hh]. cbn [length] in Hlen.
    rewrite (proj2 (Z.leb_le (Seq t) _)) by lia. rewrite (proj2 (Z.ltb_ge (Seq t) (seg_first seg))) by lia. cbn [Z.add Z.eqb negb orb Pos.eqb].
    destruct (oc_check_at seg (mark_container path t) e es oc) as (oc' & Hc & _); [by rewrite Hs in Hoc|done|].
    rewrite Hf, <- Hs, Ho. change (negb (0 + 1 =? 1) || false) with false. cbn [mbind result_bind]. by rewrite Hc. }
  destruct (tail_overlap d path seg (e :: es) (t :: O) lso) with (next := seg_first seg) (rest := ended lsb) (off := 0) (n := 0)
    (st := st) (oc := oc) (cnt := 0) as (c & ->); try done.
  - by constructor.
  - destruct Hn as [<- _]. destruct Het as [<- _]. done.
  - destruct (tail_scan d path B lsb Hlb (0 + Z.of_nat (length (unlines lso))) (0 + Z.of_nat (length lso)) st None c) as (c' & ->); done.
Qed.
End Facts.

(** ** The segment set *)

Definition seg_le (a b : segment) : Prop := seg_first a ≤ seg_first b.
Definition seg_lt (a b : segment) : Prop := seg_first a < seg_first b.

Lemma insert_segment_perm s l : insert_segment s l ≡ₚ s :: l.
Proof. induction l as [|x l IH]; cbn; [done|]. case_match; [done|]. rewrite IH. apply Permutation_swap. Qed.

Lemma sort_segments_perm l : sort_segments l ≡ₚ l.
Proof. induction l as [|s l IH]; cbn; [done|]. by rewrite insert_segment_perm, IH. Qed.

Lemma sort_segments_sorted l : StronglySorted seg_le (sort_segments l).
Proof.
  induction l as [|s l IH]; cbn; [constructor|]. fold (sort_segments l). induction IH as [|x l' Hs IH Hle]; cbn; [by repeat constructor|].
  unfold seg_le in *. destruct (Z.leb_spec (seg_first s) (seg_first x)).
  - constructor; [by constructor|]. constructor; [done|]. eapply Forall_impl; [exact Hle|]. cbn. lia.
  - constructor; [done|]. rewrite insert_segment_perm. constructor; [lia|done].
Qed.

Lemma strictly_le l : StronglySorted seg_lt l → StronglySorted seg_le l.
Proof.
  induction 1 as [|x l _ IH H]; constructor; [done|]. eapply Forall_impl; [exact H|]. unfold seg_lt, seg_le. intros. lia.
Qed.

Lemma strictly_distinct l a b : StronglySorted seg_lt l → a ∈ l → b ∈ l → seg_first a = seg_first b → a = b.
Proof.
  induction 1 as [|x l _ IH H]; [by intros ?%elem_of_nil|]. rewrite Forall_forall in H. unfold seg_lt in H.
  intros [->|Ha]%elem_of_cons [->|Hb]%elem_of_cons E; auto.
  - specialize (H b Hb). lia.
  - specialize (H a Ha). lia.
Qed.

(** With distinct first records there is one sorted arrangement. *)
Lemma sort_segments_unique l sorted : l ≡ₚ sorted → StronglySorted seg_lt sorted → sort_segments l = sorted.
Proof.
  intros Hp Hs. eapply StronglySorted_unique_strong; [|apply sort_segments_sorted|by apply strictly_le|by rewrite sort_segments_perm].
  intros a b Ha Hb H1 H2. unfold seg_le in *. rewrite sort_segments_perm, Hp in Ha.
  eapply strictly_distinct; [done..|lia].
Qed.

Lemma segment_entry_Some name n seg : segment_entry (name, n) = Some seg →
  (∃ c, n = NFile c) ∧ seg_name seg = name ∧ name = segmentName (seg_first seg) (seg_last seg) ∧
  1 ≤ seg_first seg ≤ seg_last seg ∧ seg_last seg < two64.
Proof.
  unfold segment_entry. cbn. destruct n as [c|]; [|done]. destruct (parseSegmentName name) as [[f l]|] eqn:E; [|done].
  intros [= <-]. apply parseSegmentName_ok in E as (? & ? & ?). cbn. eauto 10.
Qed.

Lemma segmentFiles_elem d seg : seg ∈ segmentFiles d ↔ ∃ n, d !! seg_name seg = Some n ∧ segment_entry (seg_name seg, n) = Some seg.
Proof.
  unfold segmentFiles. rewrite sort_segments_perm, list_elem_of_omap. split.
  - intros ([name n] & Hin & He). apply elem_of_map_to_list in Hin.
    pose proof (segment_entry_Some _ _ _ He) as (_ & <- & _). eauto.
  - intros (n & Hd & He). exists (seg_name seg, n). by rewrite elem_of_map_to_list.
Qed.

Definition seg_ok (s : segment) : Prop := 1 ≤ seg_first s ≤ seg_last s ∧ seg_last s < two64.

Lemma segmentFiles_ok d : Forall seg_ok (segmentFiles d).
Proof.
  apply Forall_forall. intros s (n & _ & He)%segmentFiles_elem. by apply segment_entry_Some in He as (_ & _ & _ & ?).
Qed.

(** The run [next .. last] that contiguous segments cover. *)
Fixpoint covers (next : Z) (segs : list segment) : Prop :=
  match segs with
  | [] => True
  | s :: rest => seg_first s = next ∧ seg_first s ≤ seg_last s ∧ covers (seg_last s + 1) rest
  end.

Lemma contiguous_covers segs : ∀ next, Forall seg_ok segs → contiguous next segs = true → covers next segs.
Proof.
  induction segs as [|s segs IH]; intros next Hok; [done|]. cbn. apply Forall_cons in Hok as [[Hs Hl] Hok].
  destruct (Z.eqb_spec (seg_first s) next) as [E|]; [|done]. intros H. split; [done|]. split; [lia|].
  destruct (decide (seg_last s + 1 < two64)) as [Hlt|Hge].
  - rewrite u64_small in H by lia. auto.
  - destruct segs as [|s' segs]; [done|]. cbn in H. apply Forall_cons in Hok as [[Hs' _] _].
    assert (u64 (seg_last s + 1) = 0) as E0 by (unfold u64, two64 in *; zlia). rewrite E0 in H.
    destruct (Z.eqb_spec (seg_first s') 0); [lia|done].
Qed.

Lemma covers_sorted segs : ∀ next, covers next segs →
  StronglySorted seg_lt segs ∧ Forall (λ s, next ≤ seg_first s) segs.
Proof.
  induction segs as [|s segs IH]; intros next; cbn; [by repeat constructor|]. intros (E & Hle & Hc).
  destruct (IH _ Hc) as [Hs Hf]. split.
  - constructor; [done|]. eapply Forall_impl; [exact Hf|]. unfold seg_lt. cbn. lia.
  - constructor; [lia|]. eapply Forall_impl; [exact Hf|]. cbn. lia.
Qed.

Lemma covers_app next segs s : covers next segs → seg_ok s →
  seg_first s = match last segs with Some x => seg_last x + 1 | None => next end → covers next (segs ++ [s]).
Proof.
  revert next. induction segs as [|x segs IH]; intros next; cbn [app covers last].
  - intros _ [[_ ?] _] E. split; [done|]. split; [done|exact I].
  - intros (? & ? & Hc) Hs E. split; [done|]. split; [done|]. apply IH; [done|done|].
    destruct segs as [|y segs]; [done|]. rewrite last_cons_cons in E. by destruct (last (y :: segs)) eqn:L; [|apply last_None in L].
Qed.

Lemma contiguous_of_covers segs : ∀ next, Forall seg_ok segs → covers next segs → contiguous next segs = true.
Proof.
  induction segs as [|s segs IH]; intros next Hok; [done|]. cbn. apply Forall_cons in Hok as [[Hs Hl] Hok].
  intros (-> & _ & Hc). rewrite Z.eqb_refl. destruct segs as [|s' segs]; [done|].
  pose proof Hc as (Hf & _). apply Forall_cons in Hok as Hok'. destruct Hok' as [[? ?] _].
  rewrite u64_small by lia. auto.
Qed.

Lemma listSegments_ok d segs : listSegments d = Ok segs ↔ segs = segmentFiles d ∧ covers 1 segs.
Proof.
  unfold listSegments. split.
  - destruct (contiguous 1 (segmentFiles d)) eqn:E; [|done]. intros [= <-].
    split; [done|]. apply contiguous_covers; [apply segmentFiles_ok|done].
  - intros [-> H]. rewrite (contiguous_of_covers _ _ (segmentFiles_ok d) H). done.
Qed.

(** A name that is no segment name may come, go or change. *)
Lemma listSegments_other d name n segs : parseSegmentName name = None →
  listSegments d = Ok segs → listSegments (<[name:=n]> d) = Ok segs.
Proof.
  intros Hn [-> Hc]%listSegments_ok. apply listSegments_ok. split; [|done]. symmetry.
  destruct (covers_sorted _ _ Hc) as [Hs _]. apply sort_segments_unique; [|done].
  unfold segmentFiles. rewrite sort_segments_perm.
  assert (∀ m, segment_entry (name, m) = None) as He by (intros m; unfold segment_entry; cbn; rewrite Hn; by destruct m).
  destruct (d !! name) as [m|] eqn:Hd.
  - rewrite <- (map_to_list_delete d name m) by done. rewrite <- insert_delete_eq, map_to_list_insert by apply lookup_delete_eq.
    cbn. by rewrite !He.
  - rewrite map_to_list_insert by done. cbn. by rewrite He.
Qed.

Lemma listSegments_delete d name segs : parseSegmentName name = None →
  listSegments d = Ok segs → listSegments (delete name d) = Ok segs.
Proof.
  intros Hn [-> Hc]%listSegments_ok. apply listSegments_ok. split; [|done]. symmetry.
  destruct (covers_sorted _ _ Hc) as [Hs _]. apply sort_segments_unique; [|done].
  unfold segmentFiles. rewrite sort_segments_perm.
  destruct (d !! name) as [m|] eqn:Hd; [|by rewrite delete_id].
  rewrite <- (map_to_list_delete d name m) by done. cbn. unfold segment_entry at 2. cbn. rewrite Hn. by destruct m.
Qed.

(** Publishing the segment that continues the run extends the set by it. *)
Lemma listSegments_publish d segs first last0 c : listSegments d = Ok segs →
  first = match last segs with Some x => seg_last x + 1 | None => 1 end → first ≤ last0 → last0 < two64 →
  d !! segmentName first last0 = None →
  listSegments (<[segmentName first last0 := NFile c]> d) = Ok (segs ++ [mkSegment first last0 (segmentName first last0)]).
Proof.
  intros [-> Hc]%listSegments_ok Hf Hle Hl Hd. set (new := mkSegment _ _ _).
  assert (1 ≤ first) as H1.
  { destruct (last (segmentFiles d)) as [x|] eqn:Ex; [|lia]. apply last_Some_elem_of in Ex.
    pose proof (segmentFiles_ok d) as Hok. rewrite Forall_forall in Hok. destruct (Hok x Ex). lia. }
  assert (covers 1 (segmentFiles d ++ [new])) as Hc' by (apply covers_app; [done|split; cbn; lia|done]).
  apply listSegments_ok. split; [|done]. symmetry. destruct (covers_sorted _ _ Hc') as [Hs _].
  apply sort_segments_unique; [|done]. rewrite map_to_list_insert by done.
  assert (segment_entry (segmentName first last0, NFile c) = Some new) as He.
  { unfold segment_entry. cbn [fst snd]. by rewrite parse_segmentName by lia. }
  cbn [omap list_omap]. rewrite He. unfold segmentFiles. rewrite sort_segments_perm. by rewrite Permutation_app_comm.
Qed.
