(* ===== verification/Ledger.v ===== *)
(** * internal/ledger: the ledger itself

    The in-memory [Ledger] and the directory it owns: opening (with the
    recovery of an interrupted seal), the check of the tail before every
    append, appending, sealing a segment under a witness head, recovering a
    failed seal, capturing, and the verified open at boot.  Operations take the
    ledger and the directory and return both; an [io] argument says which of
    the fallible file operations succeed, so every error path is a value. *)

From stdpp Require Import gmap.
From S2P Require Import Prelude Utf8 GoJson CanonicalJson CanonicalJsonFacts GoStruct Crypto Event Lines Chain Container.

(** ** The tail file *)

(** [bytes.Split(s, "\n")]. *)
Fixpoint split_nl (s : bytes) : list bytes :=
  match s with
  | [] => [[]]
  | c :: t =>
    if c =? 10 then [] :: split_nl t
    else match split_nl t with [] => [[c]] | l :: ls => (c :: l) :: ls end
  end.

Definition count_nl (s : bytes) : nat := length (filter (λ c, c = 10) s).

(** What follows the first newline; the whole when there is none. *)
Fixpoint after_first_nl (s : bytes) : option bytes :=
  match s with [] => None | c :: t => if c =? 10 then Some t else after_first_nl t end.

(** The window [readTailEvents] reads from the end of the file: doubled until it
    holds [k+2] newlines or the whole file, and then cut at a line boundary. *)
Fixpoint tail_window (fuel : nat) (win : nat) (k : nat) (data : bytes) : bytes :=
  match fuel with
  | O => data
  | S f =>
    let win := Nat.min win (length data) in
    let buf := drop (length data - win) data in
    if (win =? length data)%nat || (k + 2 <=? count_nl buf)%nat then
      if (win <? length data)%nat then default buf (after_first_nl buf) else buf
    else tail_window f (2 * win) k data
  end.

Fixpoint decode_lines (ls : list bytes) : result event_err (list Event) :=
  match ls with
  | [] => Ok []
  | l :: rest => e ← decodeEvent l; es ← decode_lines rest; mret (e :: es)
  end.

(** 512 KiB. *)
Definition tail_win : nat := Z.to_nat 524288.
#[global] Opaque tail_win.

Definition readTailEvents (win : nat) (data : bytes) (k : nat) : result event_err (list Event) :=
  match data with
  | [] => Ok []
  | _ =>
    let buf := tail_window (S (length data)) win k data in
    let lines := filter (λ l, l ≠ []) (TrimSpace <$> split_nl buf) in
    decode_lines (drop (length lines - (k + 1)) lines)
  end.

(** [completeTailEnd]: the end of the last complete line; a file whose last
    line is only white space counts as complete. *)
Fixpoint after_last_nl (s : bytes) (acc : bytes) : bytes :=
  match s with [] => acc | c :: t => after_last_nl t (if c =? 10 then t else acc) end.

Definition completeTailEnd (data : bytes) : nat :=
  match last data with
  | None => 0%nat
  | Some c =>
    if c =? 10 then length data
    else
      let suffix := after_last_nl data data in
      if forallb IsSpace (runes suffix) then length data else (length data - length suffix)%nat
  end.

(** ** State *)

Inductive ledger_err :=
| LFrozen | LClosed | LIO
| LSealRecovery (e : ledger_err)          (** [ErrSealRecoveryRequired] *)
| LTailIntegrity (why : tail_fault)
| LPayload (e : payload_err)
| LSign (e : crypto_err)
| LMarshal (e : event_err)
| LTooLarge                               (** [ErrEventTooLarge] *)
| LUncertain                              (** [ErrAppendUncertain] *)
| LInUse                                  (** [ErrLedgerInUse] *)
| LRecordExists (artifact : bytes)
| LContainer (e : cont_err)
| LUnreadable                             (** [ErrRecordUnreadable] *)
| LTailConflict
| LSealRange                              (** beyond the last record, or already sealed *)
| LUnsigned
| LNoRecords
| LRefused                                (** the chain did not verify *)
| LCaptureRefused
| LCheck                                  (** the caller's check refused *)
with tail_fault :=
| TRead (e : event_err)
| TTruncated
| TSealedLink | TSeqGap | TPrevLink | TContent | TSignature (e : sig_err)
| TLastSeq | TLastHash
| TBoundary
| TClosed.

(** Empty, a caller's reason, or the error that froze the ledger. *)
Inductive freeze := NotFrozen | FrozenBy (reason : bytes) | FrozenErr (e : ledger_err).

Record Ledger := mkLedger {
  l_path : bytes;
  l_locked : bool;                        (** [dirLock != nil] *)
  l_file : bool;                          (** [file != nil] *)
  lastSeq : Z;
  lastHash : bytes;
  modelID : bytes;
  sealedSeq : Z;
  sealedHash : bytes;
  segments : list segment;
  sealErr : option ledger_err;
  frozenReason : freeze;
}.

Definition set_last (l : Ledger) (seq : Z) (hash : bytes) : Ledger :=
  mkLedger (l_path l) (l_locked l) (l_file l) seq hash (modelID l) (sealedSeq l) (sealedHash l) (segments l) (sealErr l) (frozenReason l).
Definition set_frozen (l : Ledger) (f : freeze) : Ledger :=
  mkLedger (l_path l) (l_locked l) (l_file l) (lastSeq l) (lastHash l) (modelID l) (sealedSeq l) (sealedHash l) (segments l) (sealErr l) f.
Definition set_file (l : Ledger) (b : bool) : Ledger :=
  mkLedger (l_path l) (l_locked l) b (lastSeq l) (lastHash l) (modelID l) (sealedSeq l) (sealedHash l) (segments l) (sealErr l) (frozenReason l).
Definition set_sealErr (l : Ledger) (e : option ledger_err) : Ledger :=
  mkLedger (l_path l) (l_locked l) (l_file l) (lastSeq l) (lastHash l) (modelID l) (sealedSeq l) (sealedHash l) (segments l) e (frozenReason l).
Definition set_sealed (l : Ledger) (seq : Z) (hash : bytes) (segs : list segment) : Ledger :=
  mkLedger (l_path l) (l_locked l) (l_file l) (lastSeq l) (lastHash l) (modelID l) seq hash segs (sealErr l) (frozenReason l).

Definition SetFrozen (l : Ledger) (reason : bytes) : Ledger :=
  match frozenReason l with
  | NotFrozen => if beq reason [] then l else set_frozen l (FrozenBy reason)
  | _ => l
  end.

Definition SetModelID (l : Ledger) (id : bytes) : Ledger :=
  mkLedger (l_path l) (l_locked l) (l_file l) (lastSeq l) (lastHash l) id (sealedSeq l) (sealedHash l) (segments l) (sealErr l) (frozenReason l).

Definition LastSeq (l : Ledger) : Z := lastSeq l.
Definition LastHash (l : Ledger) : bytes := lastHash l.
Definition Last (l : Ledger) : Boundary := mkBoundary (lastSeq l) (lastHash l).
Definition SealedSeq (l : Ledger) : Z := sealedSeq l.
(** [Close] releases the file and the directory lock; its error paths change
    nothing else. *)
Definition Close (l : Ledger) : Ledger :=
  mkLedger (l_path l) false (l_file l) (lastSeq l) (lastHash l) (modelID l) (sealedSeq l) (sealedHash l) (segments l) (sealErr l) (frozenReason l).

Definition is_frozen (l : Ledger) : bool := match frozenReason l with NotFrozen => false | _ => true end.

(** The file operations that can fail. *)
Inductive io_point :=
| IoDirLock | IoFileLock | IoOpen
| IoFlush | IoSegmentWrite | IoStepSegmentWritten | IoSegmentRename | IoStepSegmentRenamed
| IoSyncDir | IoStepSegmentPublished
| IoTailSync | IoTailClose | IoTailWrite | IoStepTailWritten | IoTailRename | IoStepTailRenamed
| IoTailSyncDir | IoStepTailPublished | IoReopen | IoRelock
| IoRecoverOpen | IoRecoverSync | IoPreserve | IoTruncate | IoCapture.
Definition io := io_point → bool.
Definition all_ok : io := λ _, true.

Section Ledger.
Context `{P : Primitives} `{G : Gzip}.

(** ** Before an append *)

Definition tailCheckDepth : nat := 8.

(** The loop over the events of the tail; [prior] is the one before. *)
Fixpoint check_tail (l : Ledger) (pubKey : bytes) (prior : option Event) (evts : list Event) : result tail_fault unit :=
  match evts with
  | [] => Ok ()
  | evt :: rest =>
    let linkage :=
      match prior with
      | None =>
        if (0 <? sealedSeq l) && (Seq evt =? u64 (sealedSeq l + 1)) && negb (beq (Prev evt) (sealedHash l))
        then Err TSealedLink else Ok ()
      | Some p =>
        if negb (Seq evt =? u64 (Seq p + 1)) then Err TSeqGap
        else if negb (beq (Prev evt) (EntryHash p)) then Err TPrevLink else Ok ()
      end in
    _ ← linkage;
    if negb (beq (ContentHash (Payload evt)) (Content evt)) then Err TContent
    else
      _ ← map_err TSignature (verifyEventSignature evt pubKey);
      check_tail l pubKey (Some evt) rest
  end.

Definition verifyTailBeforeAppend (l : Ledger) (tail : option bytes) (kp : KeyPair) : result tail_fault unit :=
  match tail with
  | None => Err TClosed
  | Some data =>
    evts ← map_err TRead (readTailEvents tail_win data tailCheckDepth);
    match last evts with
    | None =>
      if negb (lastSeq l =? sealedSeq l) || negb (beq (lastHash l) (sealedHash l)) then Err TTruncated else Ok ()
    | Some e =>
      _ ← check_tail l (PublicKey kp) None evts;
      if negb (Seq e =? lastSeq l) then Err TLastSeq
      else if negb (beq (lastHash l) (EntryHash e)) then Err TLastHash
      else Ok ()
    end
  end.

Definition tail_of (l : Ledger) (d : dir) : option bytes :=
  if l_file l then read_file d (l_path l) else None.

(** ** Appending *)

(** How the write of a line went: complete, or broken off by a failed write,
    flush or sync with the first [n] bytes in the file. *)
Inductive append_io := Written | Broken (n : nat).

Definition uncertainAppend (l : Ledger) : Ledger :=
  match frozenReason l with NotFrozen => set_frozen l (FrozenErr LUncertain) | _ => l end.

(** The record [AppendPrepared] builds, before it is signed. *)
Definition next_event (l : Ledger) (eventType : bytes) (ring : Z) (raw now : bytes) : Event :=
  let seq := u64 (lastSeq l + 1) in
  mkEvent seq (if 1 <? seq then lastHash l else []) now eventType ring (ContentHash raw) raw [] false false false [].

Definition append_file (d : dir) (path b : bytes) : dir :=
  <[path := NFile (default [] (read_file d path) ++ b)]> d.

Definition AppendPrepared (l : Ledger) (d : dir) (eventType : bytes) (ring : Z) (raw : bytes) (kp : KeyPair)
    (now : bytes) (w : append_io) : Ledger * dir * result ledger_err Event :=
  if is_frozen l then (l, d, Err LFrozen)
  else if negb (l_locked l) then (l, d, Err LClosed)
  else match sealErr l with
  | Some e => (l, d, Err (LSealRecovery e))
  | None =>
    match verifyTailBeforeAppend l (tail_of l d) kp with
    | Err e => (set_frozen l (FrozenErr (LTailIntegrity e)), d, Err (LTailIntegrity e))
    | Ok _ =>
      match payloadModelID raw with
      | Err e => (l, d, Err (LPayload e))
      | Ok _ =>
        let evt := next_event l eventType ring raw now in
        match SignB64 kp (SignatureInputGold SigAlg (Fingerprint kp) (EntryHash evt)) with
        | Err e => (l, d, Err (LSign e))
        | Ok sig =>
          let evt := set_Sig evt sig in
          match MarshalJSON evt with
          | Err e => (l, d, Err (LMarshal e))
          | Ok line =>
            if MaxEventLineBytes <? Z.of_nat (length line) then (l, d, Err LTooLarge)
            else match w with
            | Broken n => (uncertainAppend l, append_file d (l_path l) (take n (line ++ [10])), Err LUncertain)
            | Written => (set_last l (Seq evt) (EntryHash evt), append_file d (l_path l) (line ++ [10]), Ok evt)
            end
          end
        end
      end
    end
  end.

Definition Append (l : Ledger) (d : dir) (eventType : bytes) (ring : Z) (marshalled : option bytes) (kp : KeyPair)
    (now : bytes) (w : append_io) : Ledger * dir * result ledger_err Event :=
  match preparePayload marshalled (modelID l) with
  | Err e => (l, d, Err (LPayload e))
  | Ok raw => AppendPrepared l d eventType ring raw kp now w
  end.

(** ** Opening *)

(** The loop of [readChainState] over the lines of the tail. *)
Fixpoint chain_state (sealedSeq : Z) (sealedHash : bytes) (first : bool) (toks : list bytes) (seq : Z) (hash : bytes) :
    result ledger_err (Z * bytes) :=
  match toks with
  | [] => Ok (seq, hash)
  | tok :: rest =>
    let line := TrimSpace tok in
    if beq line [] then chain_state sealedSeq sealedHash first rest seq hash
    else if negb (bool_decide (last tok = Some 10)) then Err LUnreadable
    else match decodeEvent line with
    | Err _ => Err LUnreadable
    | Ok evt =>
      if first && (0 <? sealedSeq) && (negb (Seq evt =? u64 (sealedSeq + 1)) || negb (beq (Prev evt) sealedHash))
      then Err LTailConflict
      else chain_state sealedSeq sealedHash false rest (Seq evt) (EntryHash evt)
    end
  end.

Definition readChainState (l : Ledger) (data : bytes) : result ledger_err Ledger :=
  r ← chain_state (sealedSeq l) (sealedHash l) true (tokens data) (lastSeq l) (lastHash l);
  mret (set_last l r.1 r.2).

(** [replaceTail]: the tail from [keepFrom] on, written beside and renamed
    over it. [stamp] is the time in the temporary name.  The directories the
    rewrite passes through are listed: a crash leaves one of them. *)
Definition tail_temp (stamp : bytes) : bytes := tailTempPrefix ++ stamp ++ tempSuffix.

Definition replaceTail (ok : io) (d : dir) (path : bytes) (stamp : bytes) (keepFrom : nat) :
    dir * list dir * result ledger_err unit :=
  let kept := drop keepFrom (default [] (read_file d path)) in
  let tmp := tail_temp stamp in
  if negb (ok IoTailWrite) then (d, [d], Err LIO)
  else
    let d1 := <[tmp := NFile kept]> d in
    if negb (ok IoStepTailWritten) then (delete tmp d1, [d; d1], Err LIO)
    else if negb (ok IoTailRename) then (delete tmp d1, [d; d1], Err LIO)
    else
      let d2 := <[path := NFile kept]> (delete tmp d1) in
      if negb (ok IoStepTailRenamed) || negb (ok IoTailSyncDir) || negb (ok IoStepTailPublished)
      then (d2, [d; d1; d2], Err LIO)
      else (d2, [d; d1; d2], Ok ()).

Definition reconcileTail (ok : io) (d : dir) (path : bytes) (stamp : bytes) (newest : segment) :
    dir * list dir * result ledger_err unit :=
  match read_file d path with
  | None => (d, [d], Ok ())
  | Some data =>
    match reconcile_from d data newest with
    | Err e => (d, [d], Err (LContainer e))
    | Ok None => (d, [d], Ok ())
    | Ok (Some keepFrom) => replaceTail ok d path stamp (Z.to_nat keepFrom)
    end
  end.

(** The state [openLedger] builds over the segments it finds. *)
Definition fresh_ledger (path : bytes) (segs : list segment) (seq : Z) (hash : bytes) : Ledger :=
  mkLedger path true false seq hash [] seq hash segs None NotFrozen.

Definition sealed_end (d : dir) (segs : list segment) : result ledger_err (Z * bytes) :=
  match last segs with
  | None => Ok (0, [])
  | Some newest =>
    match segmentEnd newest (read_file d (seg_name newest)) with
    | Ok r => Ok r
    | Err (SCont e) => Err (LContainer e)
    | Err _ => Err LIO
    end
  end.

(** [openLedger]; [before] is [beforeCleanup], which may itself change the
    directory. *)
Definition openLedger (ok : io) (d : dir) (path stamp : bytes) (before : dir → dir * result ledger_err unit) :
    dir * result ledger_err Ledger :=
  if negb (ok IoDirLock) then (d, Err LInUse)
  else match before d with
  | (d1, Err e) => (d1, Err e)
  | (d1, Ok _) =>
    let d2 := sweepDebris d1 in
    match listSegments d2 with
    | Err e => (d2, Err (LContainer e))
    | Ok segs =>
      match sealed_end d2 segs with
      | Err e => (d2, Err e)
      | Ok (seq, hash) =>
        let '(d3, _, reconciled) :=
          match last segs with
          | Some newest => reconcileTail ok d2 path stamp newest
          | None => (d2, [d2], Ok ())
          end in
        match reconciled with
        | Err e => (d3, Err e)
        | Ok _ =>
          if negb (ok IoOpen) then (d3, Err LIO)
          else
            let d4 := match d3 !! path with None => <[path := NFile []]> d3 | Some _ => d3 end in
            if negb (ok IoFileLock) then (d4, Err LInUse)
            else match read_file d4 path with
            | None => (d4, Err LIO)
            | Some data =>
              match readChainState (fresh_ledger path segs seq hash) data with
              | Err e => (d4, Err e)
              | Ok l => (d4, Ok (set_file l true))
              end
            end
        end
      end
    end
  end.

Definition New (ok : io) (d : dir) (path stamp : bytes) : dir * result ledger_err Ledger :=
  openLedger ok d path stamp (λ d, (d, Ok ())).

Definition NewForBirth (ok : io) (d : dir) (path stamp : bytes) : dir * result ledger_err Ledger :=
  openLedger ok d path stamp (λ d,
    (d, match RecordArtifact d path with
        | Err e => Err (LContainer e)
        | Ok artifact => if beq artifact [] then Ok () else Err (LRecordExists artifact)
        end)).

(** ** Sealing *)

(** What [writeSegment] keeps while it reads the tail: the bytes written, the
    record expected, the offset after the head ([-1] until it is met) and the
    head's hash. *)
Record seg_state := mkSeg { sg_out : bytes; sg_expect : Z; sg_after : Z; sg_hash : bytes }.

Definition segment_write_line (first head : Z) (s : seg_state) (line : bytes) (offset size at_ : Z) :
    seg_state * option (stream_err ledger_err) :=
  match decodeEvent line with
  | Err e => (s, Some (SUser (LContainer (EMalformed e))))
  | Ok evt =>
    if Seq evt <? first then (s, None)
    else if negb (Seq evt =? sg_expect s) then (s, Some (SUser LSealRange))
    else
      let s := mkSeg (sg_out s) (u64 (sg_expect s + 1)) (sg_after s) (sg_hash s) in
      if Seq evt <? head then
        if beq (Sig evt) [] then (s, Some (SUser LUnsigned))
        else match MarshalJSON (set_Sig evt []) with
        | Err e => (s, Some (SUser (LMarshal e)))
        | Ok b => (mkSeg (sg_out s ++ b ++ [10]) (sg_expect s) (sg_after s) (sg_hash s), None)
        end
      else if negb (beq (EType evt) EventSystemWitnessed) || beq (Sig evt) []
      then (s, Some (SUser (LContainer ESegmentWithoutHead)))
      else (mkSeg (sg_out s ++ line ++ [10]) (sg_expect s) (offset + size) (EntryHash evt), Some SStop)
  end.

(** The segment's bytes before compression, where the tail goes on, and the
    head's hash. *)
Definition writeSegment (tail : bytes) (first head : Z) : result ledger_err (bytes * Z * bytes) :=
  match scan_result (scanLines (segment_write_line first head) tail false (mkSeg [] first (-1) [])) with
  | (_, Some (SUser e)) => Err e
  | (_, Some (SCont e)) => Err (LContainer e)
  | (s, _) => if sg_after s <? 0 then Err LSealRange else Ok (sg_out s, sg_after s, sg_hash s)
  end.

(** A rename does not replace a directory. *)
Definition is_dir (d : dir) (name : bytes) : bool :=
  match d !! name with Some NDir => true | _ => false end.

Definition segment_temp (first head : Z) (stamp : bytes) : bytes :=
  segmentTempPrefix ++ FormatUint first ++ [45] ++ FormatUint head ++ [45] ++ stamp ++ tempSuffix.

(** [replaceTailFrom]: the tail file is closed for the rewrite and opened
    again after it. *)
Definition replaceTailFrom (ok : io) (l : Ledger) (d : dir) (stamp : bytes) (keepFrom : nat) :
    Ledger * dir * list dir * result ledger_err unit :=
  if negb (ok IoOpen) || (l_file l && negb (ok IoTailSync)) then (l, d, [d], Err LIO)
  else
    let l1 := set_file l false in
    if l_file l && negb (ok IoTailClose) then (l1, d, [d], Err LIO)
    else
      match replaceTail ok d (l_path l) stamp keepFrom with
      | (d2, ds, Err e) => (l1, d2, ds, Err e)
      | (d2, ds, Ok _) =>
        if negb (ok IoReopen) || negb (ok IoRelock) then (l1, d2, ds, Err LIO)
        else (set_file l1 true, d2, ds, Ok ())
      end.

(** [Seal], from the rename of the segment on: an error is kept in [sealErr]
    and the ledger appends nothing until [RecoverSeal]. *)
Definition seal_published (ok : io) (l : Ledger) (d : dir) (stamp : bytes) (first head : Z)
    (afterHead : Z) (headHash : bytes) : Ledger * dir * list dir * result ledger_err unit :=
  let fail (l : Ledger) (d : dir) (ds : list dir) (e : ledger_err) :=
    (set_sealErr l (Some e), d, ds, Err (LSealRecovery e)) in
  if negb (ok IoStepSegmentRenamed) || negb (ok IoSyncDir) || negb (ok IoStepSegmentPublished) then fail l d [d] LIO
  else match replaceTailFrom ok l d stamp (Z.to_nat afterHead) with
  | (l1, d1, ds, Err e) => fail l1 d1 ds e
  | (l1, d1, ds, Ok _) =>
    (set_sealed l1 head headHash (segments l1 ++ [mkSegment first head (segmentName first head)]), d1, ds, Ok ())
  end.

Definition Seal (ok : io) (l : Ledger) (d : dir) (stamp : bytes) (head : Z) :
    Ledger * dir * list dir * result ledger_err unit :=
  if is_frozen l then (l, d, [d], Err LFrozen)
  else if negb (l_locked l) then (l, d, [d], Err LClosed)
  else match sealErr l with
  | Some e => (l, d, [d], Err (LSealRecovery e))
  | None =>
    if lastSeq l <? head then (l, d, [d], Err LSealRange)
    else if head <=? sealedSeq l then (l, d, [d], Err LSealRange)
    else
      let first := u64 (sealedSeq l + 1) in
      if negb (ok IoFlush) then (l, d, [d], Err LIO)
      else match read_file d (l_path l) with
      | None => (l, d, [d], Err LIO)
      | Some data =>
        match writeSegment data first head with
        | Err e => (l, d, [d], Err e)
        | Ok (content, afterHead, headHash) =>
          let tmp := segment_temp first head stamp in
          let final := segmentName first head in
          if negb (ok IoSegmentWrite) then (l, d, [d], Err LIO)
          else
            let d1 := <[tmp := NFile (gzip content)]> d in
            if negb (ok IoStepSegmentWritten) || negb (ok IoSegmentRename) || is_dir d final then (l, delete tmp d1, [d; d1], Err LIO)
            else
              let d2 := <[final := NFile (gzip content)]> (delete tmp d1) in
              let '(l', d', ds, r) := seal_published ok l d2 stamp first head afterHead headHash in
              (l', d', d :: d1 :: ds, r)
        end
      end
  end.

(** ** Capture *)

Record Capture := mkCapture { c_LastSeq : Z; c_LastHash : bytes; c_SealedSeq : Z; c_Segments : list bytes; c_tail : bytes }.

(** The copy of the tail is taken under the ledger's lock and must end in the
    record the ledger last acknowledged. *)
Definition TakeCapture (ok : io) (l : Ledger) (d : dir) : result ledger_err Capture :=
  if negb (l_locked l) then Err LCaptureRefused
  else if negb (l_file l) then
    match sealErr l with Some e => Err (LSealRecovery e) | None => Err LCaptureRefused end
  else if negb (ok IoFlush) || negb (ok IoCapture) then Err LIO
  else match read_file d (l_path l) with
  | None => Err LIO
  | Some data =>
    match readTailEvents tail_win data 0 with
    | Err _ => Err LCaptureRefused
    | Ok evts =>
      let refused :=
        match last evts with
        | None => negb (lastSeq l =? sealedSeq l) || negb (beq (lastHash l) (sealedHash l))
        | Some e => negb (beq (EntryHash e) (lastHash l))
        end in
      if refused then Err LCaptureRefused
      else Ok (mkCapture (lastSeq l) (lastHash l) (sealedSeq l) (map seg_name (segments l)) data)
    end
  end.
End Ledger.

(** ** The verified open and the recovery of a seal *)

Section Verified.
Context `{P : Primitives} `{G : Gzip} `{HV : HeadVerifier}.

(** [VerifyChain] and [VerifyChainVisiting]: the walk over the record at
    [path], streamed. *)
Definition record_source (d : dir) (path : bytes) (tail : option bytes) : list Event * option (stream_err Empty_set) :=
  streamLines collect d path tail [].

Definition VerifyChainVisiting {V VE : Type} (d : dir) (path pubKey : bytes) (hs : option heads_state)
    (visit : option (V → Event → V * option VE)) (v : V) : result (walk_err (S := stream_err Empty_set)) (Z * walk) :=
  verifyChain pubKey visit (record_source d path None) hs v.

Definition torn_name (path suffix : bytes) : bytes := path ++ bs ".torn-" ++ hex_encode (sha256 suffix).

(** [trimPreservedSuffix]: the bytes past [end_] are kept in a file named by
    their hash before the tail is cut. *)
Definition trimPreservedSuffix (ok : io) (d : dir) (path data : bytes) (end_ : nat) : dir * list dir * result ledger_err unit :=
  if negb (ok IoPreserve) then (d, [d], Err LIO)
  else
    let suffix := drop end_ data in
    let d1 := <[torn_name path suffix := NFile suffix]> d in
    if negb (ok IoTruncate) then (d1, [d; d1], Err LIO)
    else let d2 := <[path := NFile (take end_ data)]> d1 in (d2, [d; d1; d2], Ok ()).

(** The visitor that remembers the last record. *)
Definition at_boundary {V : Type} (visit : option (V → Event → V * option ledger_err)) (s : Boundary * V) (e : Event) :
    (Boundary * V) * option ledger_err :=
  let b := mkBoundary (Seq e) (EntryHash e) in
  match visit with
  | None => ((b, s.2), None)
  | Some f => let '(v, err) := f s.2 e in ((b, v), err)
  end.

(** [openVerified]'s function before cleanup. *)
Definition verified_before {V : Type} (ok : io) (d : dir) (path pubKey : bytes) (hs : option heads_state)
    (visit : option (V → Event → V * option ledger_err)) (v : V) (check : Z → bool) :
    dir * result ledger_err (Z * Boundary) :=
  match d !! path with
  | Some NDir => (d, Err LIO)
  | n =>
    let data := match n with Some (NFile c) => c | _ => [] end in
    let end_ := completeTailEnd data in
    match verifyChain pubKey (Some (at_boundary visit)) (record_source d path (Some (take end_ data))) hs (no_boundary, v) with
    | Err (VisitStopped e) => (d, Err e)
    | Err (Failed _) => (d, Err LRefused)
    | Ok (count, s) =>
      let b := (visited s).1 in
      if count =? 0 then (d, Err LNoRecords)
      else if negb (check (b_seq b)) then (d, Err LCheck)
      else if (end_ <? length data)%nat then
        match trimPreservedSuffix ok d path data end_ with
        | (d', _, Err e) => (d', Err e)
        | (d', _, Ok _) => (d', Ok (count, b))
        end
      else (d, Ok (count, b))
    end
  end.

Definition OpenVerified {V : Type} (ok : io) (d : dir) (path stamp pubKey : bytes) (hs : option heads_state)
    (visit : option (V → Event → V * option ledger_err)) (v : V) (check : Z → bool) :
    dir * result ledger_err (Ledger * Z) :=
  let before d := verified_before ok d path pubKey hs visit v check in
  match openLedger ok d path stamp (λ d, let '(d', r) := before d in (d', r ≫= λ _, Ok ())) with
  | (d', Err e) => (d', Err e)
  | (d', Ok l) =>
    match (before d).2 with
    | Err e => (d', Err e)
    | Ok (count, b) =>
      if negb (lastSeq l =? b_seq b) || negb (beq (lastHash l) (b_hash b)) then (d', Err LTailConflict)
      else (d', Ok (l, count))
    end
  end.

(** ** [RecoverSeal] *)

(** A failure that says the containers could not be read or judged, rather
    than that they are wrong. *)
Definition undecided (f : VerifyFailure (stream_err Empty_set)) : bool :=
  match Requirement f with
  | ReqSealedWithoutWitness => true
  | ReqHead e => is_key_unknown e
  | ReqSource (SCont EOpen) => true
  | _ => false
  end.

Definition refuseSealIntegrity (l : Ledger) : Ledger * ledger_err :=
  (set_frozen l (FrozenErr (LTailIntegrity TBoundary)), LTailIntegrity TBoundary).

(** From the sync of the directory on. *)
Definition recover_rest (ok : io) (l : Ledger) (d : dir) (stamp data : bytes) (end_ : nat) :
    Ledger * dir * result ledger_err unit :=
  let '(d1, _, trimmed) :=
    if (end_ <? length data)%nat then trimPreservedSuffix ok d (l_path l) data end_ else (d, [d], Ok ()) in
  match trimmed with
  | Err e => (l, d1, Err e)
  | Ok _ =>
    match listSegments d1 with
    | Err e => (l, d1, Err (LContainer e))
    | Ok segs =>
      match sealed_end d1 segs with
      | Err e => (l, d1, Err e)
      | Ok (seq, hash) =>
        if l_file l && negb (ok IoTailSync) then (l, d1, Err LIO)
        else
          let l1 := set_file l false in
          if l_file l && negb (ok IoTailClose) then (l1, d1, Err LIO)
          else
            let d2 := sweepDebris d1 in
            let '(d3, _, reconciled) :=
              match last segs with
              | Some newest => reconcileTail ok d2 (l_path l) stamp newest
              | None => (d2, [d2], Ok ())
              end in
            match reconciled with
            | Err e => (l1, d3, Err e)
            | Ok _ =>
              if negb (ok IoReopen) || negb (ok IoRelock) then (l1, d3, Err LIO)
              else
                let d4 := match d3 !! (l_path l) with None => <[l_path l := NFile []]> d3 | Some _ => d3 end in
                (set_sealErr (set_sealed (set_file l1 true) seq hash segs) None, d4, Ok ())
            end
      end
    end
  end.

Definition RecoverSeal (ok : io) (l : Ledger) (d : dir) (stamp pubKey : bytes) (hs : option heads_state) :
    Ledger * dir * result ledger_err unit :=
  if is_frozen l then (l, d, Err LFrozen)
  else if negb (l_locked l) then (l, d, Err LClosed)
  else match sealErr l with
  | None => (l, d, Ok ())
  | Some _ =>
    match read_file d (l_path l) with
    | None => (l, d, Err LIO)
    | Some data =>
      if negb (ok IoRecoverOpen) then (l, d, Err LIO)
      else
        let end_ := completeTailEnd data in
        match verifyChain pubKey (Some (at_boundary (V := unit) None)) (record_source d (l_path l) (Some (take end_ data))) hs (no_boundary, tt) with
        | Err (VisitStopped e) => (l, d, Err e)
        | Err (Failed f) =>
          if undecided f then (l, d, Err LRefused)
          else let '(l', e) := refuseSealIntegrity l in (l', d, Err e)
        | Ok (_, s) =>
          let b := (visited s).1 in
          if negb (b_seq b =? lastSeq l) || negb (beq (b_hash b) (lastHash l)) then
            let '(l', e) := refuseSealIntegrity l in (l', d, Err e)
          else if negb (ok IoRecoverSync) then (l, d, Err LIO)
          else recover_rest ok l d stamp data end_
        end
    end
  end.
End Verified.
