(* ===== verification/LedgerFacts.v ===== *)
(** * The ledger: invariants of its operations

    [repr] ties the in-memory ledger to the directory: the sealed run, the
    records of the tail, and the boundary between and after them.  Appending
    extends it by one record, a failed append freezes the ledger and leaves a
    torn line that recovery cuts off, and sealing keeps the record at every
    point where it can be interrupted. *)

From stdpp Require Import gmap relations.
From S2P Require Import Prelude Utf8 GoJson CanonicalJson CanonicalJsonFacts GoStruct Crypto Event Lines Stored Chain Container ContainerFacts Ledger.

(** Every element of a concrete list, from the context. *)
Ltac each := repeat (apply Forall_cons; split; [assumption|]); apply Forall_nil_2.

(** ** The window on the tail *)

Lemma split_nl_unlines ls : Forall one_line ls → split_nl (unlines ls) = ls ++ [[]].
Proof.
  induction 1 as [|l ls Hl _ IH]; [done|]. unfold unlines in *. cbn. rewrite <- app_assoc. cbn.
  induction Hl as [|c l Hc _ IHl]; cbn; [by rewrite IH|]. by rewrite (proj2 (Z.eqb_neq c 10) Hc), IHl.
Qed.

Lemma unlines_cons l ls : unlines (l :: ls) = l ++ 10 :: unlines ls.
Proof. unfold unlines. cbn. by rewrite <- app_assoc. Qed.

(** A suffix of a file of lines starts inside a line, or is empty. *)
Lemma suffix_lines ls m : Forall one_line ls →
  drop m (unlines ls) = [] ∨
  ∃ p j, one_line p ∧ drop m (unlines ls) = p ++ 10 :: unlines (drop j ls) ∧ (0 < j ≤ length ls)%nat.
Proof.
  intros H. revert m. induction H as [|l ls Hl _ IH]; intros m; [left; by destruct m|]. rewrite unlines_cons.
  destruct (decide (m ≤ length l)%nat) as [Hm|Hm].
  - right. exists (drop m l), 1%nat. split; [by apply Forall_drop|]. rewrite drop_app_le by done. split; [done|cbn; lia].
  - rewrite drop_app_ge by lia. destruct (m - length l)%nat as [|m'] eqn:E; [lia|]. cbn [drop].
    destruct (IH m') as [->|(p & j & Hp & -> & Hj)]; [by left|]. right. exists p, (S j). cbn. repeat split; [done|lia..].
Qed.

Lemma after_first_nl_line p rest : one_line p → after_first_nl (p ++ 10 :: rest) = Some rest.
Proof. induction 1 as [|c p Hc _ IH]; cbn; [done|]. by rewrite (proj2 (Z.eqb_neq c 10) Hc). Qed.

Lemma count_nl_app a b : count_nl (a ++ b) = (count_nl a + count_nl b)%nat.
Proof. unfold count_nl. by rewrite filter_app, length_app. Qed.

Lemma count_nl_line p : one_line p → count_nl p = 0%nat.
Proof. induction 1 as [|c p Hc _ IH]; [done|]. unfold count_nl in *. by rewrite filter_cons, decide_False. Qed.

Lemma count_nl_unlines ls : Forall one_line ls → count_nl (unlines ls) = length ls.
Proof.
  induction 1 as [|l ls Hl _ IH]; [done|]. rewrite unlines_cons. change (10 :: unlines ls) with ([10] ++ unlines ls).
  by rewrite !count_nl_app, (count_nl_line l Hl), IH.
Qed.

Lemma tail_window_lines ls k : Forall one_line ls → ∀ fuel win,
  ∃ j, tail_window fuel win k (unlines ls) = unlines (drop j ls) ∧
    (j = 0%nat ∨ (k + 1 ≤ length ls - j)%nat).
Proof.
  intros H fuel. induction fuel as [|fuel IH]; intros win; cbn [tail_window]; [by exists 0%nat; auto|].
  set (w := Nat.min win (length (unlines ls))). destruct ((w =? _)%nat || _) eqn:E; [|apply IH].
  destruct (Nat.ltb_spec w (length (unlines ls))) as [Hlt|Hge].
  - apply orb_true_iff in E as [E%Nat.eqb_eq|E%Nat.leb_le]; [lia|].
    destruct (suffix_lines ls (length (unlines ls) - w) H) as [E0|(p & j & Hp & Es & Hj)]; [rewrite E0 in E; cbn in E; lia|].
    rewrite Es in E |- *. rewrite after_first_nl_line by done. exists j. split; [done|]. right.
    change (10 :: unlines (drop j ls)) with ([10] ++ unlines (drop j ls)) in E.
    rewrite !count_nl_app, (count_nl_line p Hp), (count_nl_unlines (drop j ls)), length_drop in E by (by apply Forall_drop).
    change (count_nl [10]) with 1%nat in E. lia.
  - exists 0%nat. split; [|by left]. assert (w = length (unlines ls)) as -> by lia. by rewrite Nat.sub_diag.
Qed.

Lemma trim_lines evts ls : lines_of evts ls →
  filter (λ l : bytes, l ≠ []) (TrimSpace <$> (ls ++ [[]])) = ls.
Proof.
  induction 1 as [|e l evts ls Hl _ IH]; [done|]. cbn [app]. rewrite fmap_cons, (lo_trim0 e l Hl).
  rewrite filter_cons, decide_True by apply (lo_ne e l Hl). by rewrite IH.
Qed.

Lemma decode_lines_ok evts ls : lines_of evts ls → decode_lines ls = Ok evts.
Proof. induction 1 as [|e l evts ls Hl _ IH]; [done|]. cbn. rewrite (lo_decode e l Hl). cbn. by rewrite IH. Qed.

Lemma readTailEvents_lines win evts ls k : lines_of evts ls →
  readTailEvents win (unlines ls) k = Ok (drop (length evts - (k + 1)) evts).
Proof.
  intros H. assert (length evts = length ls) as Hlen by (by eapply Forall2_length). unfold readTailEvents.
  destruct (unlines ls) as [|c t] eqn:E.
  { destruct H as [|e l evts ls Hl _]; [done|]. rewrite unlines_cons in E. by destruct l. }
  rewrite <- E. clear c t E. destruct (tail_window_lines ls k (lines_of_one_line _ _ H) (S (length (unlines ls))) win) as (j & -> & Hj).
  assert (lines_of (drop j evts) (drop j ls)) as Hd by (by apply Forall2_drop).
  rewrite split_nl_unlines by (eapply lines_of_one_line; exact Hd). rewrite (trim_lines _ _ Hd).
  rewrite drop_drop, length_drop. apply decode_lines_ok. rewrite <- Hlen in *.
  assert (j + (length evts - j - (k + 1)) = length evts - (k + 1))%nat as -> by lia. by apply Forall2_drop.
Qed.

(** ** The representation *)

Section Repr.
Context `{P : Primitives} `{L : !PrimitiveLaws P} `{G : Gzip} `{GL : !GzipLaws G}.

Definition stored_segment (d : dir) (x : segment * list Event) : Prop :=
  closes x.1 x.2 ∧ ∃ ls, lines_of x.2 ls ∧ read_file d (seg_name x.1) = Some (gzip (unlines ls)).

(** The segments of [d] and their records. *)
Definition sealed_ok (d : dir) (S : list (segment * list Event)) : Prop :=
  listSegments d = Ok S.*1 ∧ Forall (stored_segment d) S.

Definition sealed_events (S : list (segment * list Event)) : list Event := concat S.*2.
Definition sealed_marked (S : list (segment * list Event)) : list Event :=
  concat (map (λ x, map (mark_sealed x.1) x.2) S).

Record repr (pubKey : bytes) (l : Ledger) (d : dir) (S : list (segment * list Event)) (T : list Event) : Prop := {
  r_locked : l_locked l = true;
  r_file : l_file l = true;
  r_sealErr : sealErr l = None;
  r_frozen : frozenReason l = NotFrozen;
  r_path : parseSegmentName (l_path l) = None ∧ is_debris (l_path l) = false;
  r_tail : read_file d (l_path l) = Some (store T);
  r_storable : Forall storable T;
  r_signed : Forall (proven pubKey false) T;
  r_sealed : sealed_ok d S;
  r_segments : segments l = S.*1;
  r_chain : linked 0 [] (sealed_events S ++ T);
  r_sealedSeq : sealedSeq l = Z.of_nat (length (sealed_events S));
  r_sealedHash : sealedHash l = last_hash [] (sealed_events S);
  r_lastSeq : lastSeq l = Z.of_nat (length (sealed_events S ++ T));
  r_lastHash : lastHash l = last_hash [] (sealed_events S ++ T);
  r_bound : lastSeq l < two64;
}.

Lemma repr_linked pubKey l d S T : repr pubKey l d S T → linked (sealedSeq l) (sealedHash l) T.
Proof. intros []. rewrite r_sealedSeq0, r_sealedHash0. by apply linked_app in r_chain0 as [_ ?]. Qed.

Lemma last_hash_app prev a b : last_hash prev (a ++ b) = last_hash (last_hash prev a) b.
Proof. unfold last_hash. rewrite last_app. by destruct (last b), (last a). Qed.

(** ** The check before an append *)

Lemma check_tail_some l pubKey p evts : linked (Seq p) (EntryHash p) evts → Forall (proven pubKey false) evts →
  0 ≤ Seq p → Seq p + Z.of_nat (length evts) < two64 → check_tail l pubKey (Some p) evts = Ok ().
Proof.
  revert p. induction evts as [|e evts IH]; intros p Hl Hp H0 Hb; [done|]. cbn [check_tail length] in *.
  destruct Hl as (H1 & H2 & H3 & Hl). apply Forall_cons in Hp as [[Hs Hv] Hp].
  rewrite H1, u64_small, Z.eqb_refl, H2, beq_refl by lia. cbn [negb mbind result_bind]. rewrite H3, beq_refl. cbn [negb].
  destruct (beq (Sig e) []); [by specialize (Hs Hv)|]. rewrite Hv. cbn [map_err mbind result_bind].
  apply IH; [by rewrite H1|done|lia|lia].
Qed.

Lemma linked_drop seq prev l n : linked seq prev l →
  linked (seq + Z.of_nat (length (take n l))) (last_hash prev (take n l)) (drop n l).
Proof. intros H. rewrite <- (take_drop n l) in H. by apply linked_app in H as [_ ?]. Qed.

Lemma check_tail_none pubKey l evts n : linked (sealedSeq l) (sealedHash l) evts → Forall (proven pubKey false) evts →
  0 ≤ sealedSeq l → sealedSeq l + Z.of_nat (length evts) < two64 → check_tail l pubKey None (drop n evts) = Ok ().
Proof.
  intros Hl Hp H0 Hb. pose proof (linked_drop _ _ _ n Hl) as Hd.
  assert (Forall (proven pubKey false) (drop n evts)) as Hpd by (by apply Forall_drop).
  pose proof (length_drop evts n) as Hlen. pose proof (length_take evts n) as Hlt.
  destruct (drop n evts) as [|e rest] eqn:E; [done|]. cbn [length] in Hlen.
  destruct Hd as (H1 & H2 & H3 & Hd). apply Forall_cons in Hpd as [[Hs Hv] Hpd]. cbn [check_tail].
  assert ((0 <? sealedSeq l) && (Seq e =? u64 (sealedSeq l + 1)) && negb (beq (Prev e) (sealedHash l)) = false) as ->.
  { rewrite u64_small by lia. destruct (Z.eqb_spec (Seq e) (sealedSeq l + 1)) as [Es|]; [|by rewrite andb_false_r].
    rewrite H2. replace (take n evts) with (@nil Event) by (symmetry; apply length_zero_iff_nil; lia).
    cbn. unfold last_hash. cbn. rewrite beq_refl. by rewrite andb_false_r. }
  cbn [mbind result_bind]. rewrite H3, beq_refl. cbn [negb].
  destruct (beq (Sig e) []); [by specialize (Hs Hv)|]. rewrite Hv. cbn [map_err mbind result_bind].
  apply check_tail_some; [by rewrite H1|done|lia|lia].
Qed.

Lemma last_drop {A} (l : list A) n : (n < length l)%nat → last (drop n l) = last l.
Proof.
  intros H. rewrite <- (take_drop n l) at 2. rewrite last_app.
  destruct (last (drop n l)) eqn:E; [done|]. apply last_None in E. apply (f_equal length) in E.
  rewrite length_drop in E. cbn in E. lia.
Qed.

Lemma tail_check_passes pubKey l d S T kp : repr pubKey l d S T → PublicKey kp = pubKey →
  verifyTailBeforeAppend l (tail_of l d) kp = Ok ().
Proof.
  intros Hr Hk. unfold verifyTailBeforeAppend, tail_of. rewrite (r_file _ _ _ _ _ Hr), (r_tail _ _ _ _ _ Hr).
  unfold store. rewrite (readTailEvents_lines tail_win T) by (apply lines_of_store, Hr). cbn [map_err mbind result_bind].
  pose proof (r_bound _ _ _ _ _ Hr) as Hb. rewrite (r_lastSeq _ _ _ _ _ Hr), length_app in Hb.
  destruct (decide (T = [])) as [->|HT].
  - rewrite drop_nil. cbn [last]. rewrite (r_lastSeq _ _ _ _ _ Hr), (r_sealedSeq _ _ _ _ _ Hr), (r_lastHash _ _ _ _ _ Hr),
      (r_sealedHash _ _ _ _ _ Hr), !app_nil_r, Z.eqb_refl, beq_refl. done.
  - rewrite last_drop by (destruct T; [done|cbn; lia]).
    destruct (last T) as [e|] eqn:El; [|by apply last_None in El].
    rewrite Hk, (check_tail_none pubKey); [|by eapply repr_linked|apply Hr|rewrite (r_sealedSeq _ _ _ _ _ Hr); lia|rewrite (r_sealedSeq _ _ _ _ _ Hr); lia].
    cbn [mbind result_bind]. rewrite (r_lastHash _ _ _ _ _ Hr), (r_lastSeq _ _ _ _ _ Hr), last_hash_app.
    unfold last_hash at 1. rewrite El, beq_refl. cbn [negb].
    assert (Seq e = Z.of_nat (length (sealed_events S ++ T))) as ->.
    { rewrite last_lookup in El. pose proof (linked_seq _ _ _ _ _ (repr_linked _ _ _ _ _ Hr) El) as ->.
      rewrite (r_sealedSeq _ _ _ _ _ Hr), length_app. destruct T; [done|]. cbn [length pred]. lia. }
    by rewrite Z.eqb_refl.
Qed.

(** ** Files that are no segments do not touch the sealed run *)

Lemma read_file_insert d name c : read_file (<[name := NFile c]> d) name = Some c.
Proof. unfold read_file. by rewrite lookup_insert_eq. Qed.
Lemma read_file_other d name name' n : name ≠ name' → read_file (<[name := n]> d) name' = read_file d name'.
Proof. intros. unfold read_file. by rewrite lookup_insert_ne. Qed.
Lemma read_file_deleted d name name' : name ≠ name' → read_file (delete name d) name' = read_file d name'.
Proof. intros. unfold read_file. by rewrite lookup_delete_ne. Qed.

Lemma segment_names d segs s : listSegments d = Ok segs → s ∈ segs →
  parseSegmentName (seg_name s) = Some (seg_first s, seg_last s).
Proof.
  intros [-> _]%listSegments_ok (n & _ & He)%segmentFiles_elem.
  apply segment_entry_Some in He as (_ & _ & -> & ? & ?). by apply parse_segmentName.
Qed.

Lemma sealed_ok_frame d d' S : sealed_ok d S → listSegments d' = Ok S.*1 →
  (∀ name, parseSegmentName name ≠ None → read_file d' name = read_file d name) → sealed_ok d' S.
Proof.
  intros [Hl Hs] Hl' Hf. split; [done|]. rewrite Forall_forall in *. intros x Hx.
  destruct (Hs x Hx) as (Hc & ls & Hls & Hr). split; [done|]. exists ls. split; [done|]. rewrite Hf; [done|].
  rewrite (segment_names _ _ x.1 Hl); [done|]. by apply list_elem_of_fmap_2.
Qed.

Lemma sealed_ok_insert d name n S : parseSegmentName name = None → sealed_ok d S → sealed_ok (<[name := n]> d) S.
Proof.
  intros Hn Hs. eapply sealed_ok_frame; [done|apply listSegments_other; [done|apply Hs]|].
  intros x Hx. apply read_file_other. by intros <-.
Qed.
Lemma sealed_ok_delete d name S : parseSegmentName name = None → sealed_ok d S → sealed_ok (delete name d) S.
Proof.
  intros Hn Hs. eapply sealed_ok_frame; [done|apply listSegments_delete; [done|apply Hs]|].
  intros x Hx. apply read_file_deleted. by intros <-.
Qed.

(** ** The record an append builds *)

Lemma hex_encode_ascii s : Forall is_byte s → Forall (λ c, 48 ≤ c ≤ 102) (hex_encode s).
Proof.
  induction 1 as [|b s Hb _ IH]; [constructor|]. cbn. pose proof (nibble_bounds b Hb).
  assert (∀ n, 0 ≤ n < 16 → 48 ≤ hex_digit n ≤ 102) by (intros; unfold hex_digit; case_match; lia).
  repeat (apply Forall_cons; split; [apply H0; tauto|]). done.
Qed.

Lemma wf_text_ascii s : Forall (λ c, 1 ≤ c < 128) s → wf_text s.
Proof.
  intros H. split; [apply Valid_ascii; eapply Forall_impl; [exact H|]; cbn; lia|].
  induction H as [|c s Hc _ IH]; [done|]. cbn [existsb]. by rewrite IH, (proj2 (Z.eqb_neq 0 c)) by lia.
Qed.

Lemma wf_text_hex s : Forall is_byte s → wf_text (hex_encode s).
Proof. intros H. apply wf_text_ascii. eapply Forall_impl; [by apply hex_encode_ascii|]. cbn. lia. Qed.

Lemma wf_text_last_hash evts : wf_text (last_hash [] evts).
Proof. unfold last_hash. destruct (last evts); [apply wf_text_hex, sha256_bytes|done]. Qed.

(** What a caller may append: a text for type and time, a ring of its width, a
    prepared payload, a key that signs, and a line that fits. *)
Record appendable (l : Ledger) (ty : bytes) (ring : Z) (raw now : bytes) (kp : KeyPair) : Prop := {
  ap_type : wf_text ty;
  ap_now : wf_text now;
  ap_ring : int64_ok ring = true;
  ap_canonical : canonical raw;
  ap_object : head raw = Some 123;
  ap_model : is_ok (payloadModelID raw) = true;
  ap_key : whole kp;
  ap_signs : ∃ sig, SignB64 kp (SignatureInputGold SigAlg (Fingerprint kp) (EntryHash (next_event l ty ring raw now))) = Ok sig ∧
    Z.of_nat (length (stored_line (set_Sig (next_event l ty ring raw now) sig))) < MaxEventLineBytes;
  ap_room : lastSeq l + 1 < two64;
}.

Lemma b64_text kp m t : SignB64 kp m = Ok t → wf_text t ∧ t ≠ [] ∧ ∃ sig, b64_decode t = Some sig ∧ Sign kp m = Ok sig.
Proof.
  intros (sig & Hs & -> & Hd & Hne)%SignB64_ok. split; [|split; [done|by exists sig]].
  apply Valid_b64. unfold Sign in Hs. destruct (PrivateKey kp); [|done]. by apply of_option_ok, priv_sign_bytes in Hs as [? _].
Qed.

Lemma next_wf_of pubKey l d S T ty ring raw now kp sig : repr pubKey l d S T → wf_text ty → wf_text now → int64_ok ring = true →
  canonical raw → head raw = Some 123 →
  SignB64 kp (SignatureInputGold SigAlg (Fingerprint kp) (EntryHash (next_event l ty ring raw now))) = Ok sig →
  wf_event (set_Sig (next_event l ty ring raw now) sig).
Proof.
  intros Hr ? ? ? ? ? Hs. pose proof (r_bound _ _ _ _ _ Hr). split; cbn; try done.
  - apply u64_range.
  - destruct (1 <? _); [|done]. rewrite (r_lastHash _ _ _ _ _ Hr). apply wf_text_last_hash.
  - apply wf_text_hex, sha256_bytes.
  - by apply b64_text in Hs as [? _].
Qed.

Lemma next_wf pubKey l d S T ty ring raw now kp sig : repr pubKey l d S T → appendable l ty ring raw now kp →
  SignB64 kp (SignatureInputGold SigAlg (Fingerprint kp) (EntryHash (next_event l ty ring raw now))) = Ok sig →
  wf_event (set_Sig (next_event l ty ring raw now) sig).
Proof. intros Hr [] Hs. by eapply next_wf_of. Qed.

Lemma signed_proven kp e : whole kp → sealed e = false →
  SignB64 kp (SignatureInputGold SigAlg (Fingerprint kp) (EntryHash e)) = Ok (Sig e) → proven (PublicKey kp) false e.
Proof.
  intros Hk Hse Hs. destruct (b64_text _ _ _ Hs) as (_ & Hne & raw' & Hd & Hsig). split; [by rewrite Hse|].
  unfold verifyEventSignature. rewrite (proj2 (beq_false _ _) Hne), Hd.
  change (PublicKeyFingerprint (PublicKey kp)) with (Fingerprint kp). by rewrite (Sign_Verify kp _ _ Hk Hsig).
Qed.

Lemma next_proven ty ring raw now kp l sig : whole kp →
  SignB64 kp (SignatureInputGold SigAlg (Fingerprint kp) (EntryHash (next_event l ty ring raw now))) = Ok sig →
  proven (PublicKey kp) false (set_Sig (next_event l ty ring raw now) sig).
Proof. intros. by apply signed_proven. Qed.

Lemma append_repr l d S T ty ring raw now kp : repr (PublicKey kp) l d S T → appendable l ty ring raw now kp →
  ∃ l' d' e, AppendPrepared l d ty ring raw kp now Written = (l', d', Ok e) ∧
    repr (PublicKey kp) l' d' S (T ++ [e]) ∧
    EType e = ty ∧ Ring e = ring ∧ Payload e = raw ∧ Timestamp e = now ∧ Seq e = lastSeq l + 1.
Proof.
  intros Hr Ha. pose proof Ha as [H1 H2 H3 H4 H5 H6 H7 (sig & Hs & Hsz) H9].
  set (e := set_Sig (next_event l ty ring raw now) sig) in *.
  assert (wf_event e) as He by (by eapply next_wf).
  assert (storable e) as Hst by (split; [exact He|split; [by repeat split|exact Hsz]]).
  assert (Seq e = lastSeq l + 1) as Hseq.
  { cbn. apply u64_small. rewrite (r_lastSeq _ _ _ _ _ Hr) in *. lia. }
  assert (Prev e = last_hash [] (sealed_events S ++ T)) as Hprev.
  { change (Prev e) with (if 1 <? Seq e then lastHash l else []). rewrite Hseq, (r_lastHash _ _ _ _ _ Hr).
    destruct (Z.ltb_spec 1 (lastSeq l + 1)) as [|Hle]; [done|].
    rewrite (r_lastSeq _ _ _ _ _ Hr) in Hle. destruct (sealed_events S ++ T); [done|cbn in Hle; lia]. }
  exists (set_last l (Seq e) (EntryHash e)), (append_file d (l_path l) (stored_line e ++ [10])), e.
  split.
  { unfold AppendPrepared, is_frozen. rewrite (r_frozen _ _ _ _ _ Hr), (r_locked _ _ _ _ _ Hr), (r_sealErr _ _ _ _ _ Hr). cbn [negb].
    rewrite (tail_check_passes (PublicKey kp) l d S T) by done. destruct (payloadModelID raw); [|done].
    rewrite Hs. fold e. rewrite (storable_marshal e Hst). by rewrite (proj2 (Z.ltb_ge _ _)) by lia. }
  split; [|done]. assert (sealed_events S ++ T ++ [e] = (sealed_events S ++ T) ++ [e]) as Eapp by (by rewrite app_assoc).
  destruct Hr. split; cbn [set_last l_locked l_file sealErr frozenReason l_path segments sealedSeq sealedHash lastSeq lastHash]; try done.
  - unfold append_file. rewrite read_file_insert, r_tail0. cbn [default from_option id]. by rewrite store_app, store_one.
  - apply Forall_app. split; [done|]. by apply Forall_singleton.
  - apply Forall_app. split; [done|]. apply Forall_singleton. by apply next_proven.
  - apply sealed_ok_insert; [by destruct r_path0|done].
  - rewrite Eapp. apply linked_app. split; [done|]. cbn [linked]. rewrite Hseq, r_lastSeq0. split; [lia|]. split; [exact Hprev|]. split; [reflexivity|exact I].
  - rewrite Eapp, length_app, Hseq, r_lastSeq0. cbn [length]. lia.
  - by rewrite Eapp, last_hash_snoc.
  - by rewrite Hseq.
Qed.

(** ** Reading the record back *)

Lemma stream_sealed d S : Forall (stored_segment d) S → ∀ st,
  stream_segments collect d S.*1 st = (st ++ sealed_marked S, None).
Proof.
  induction 1 as [|[seg es] S (Hc & ls & Hl & Hf) _ IH]; intros st; cbn; [by rewrite app_nil_r|].
  cbn in Hf, Hc, Hl. rewrite Hf, (streamSegment_collect seg es ls st) by done. rewrite IH. unfold sealed_marked. cbn.
  by rewrite app_assoc.
Qed.

Lemma ReadAll_stored d path S T ls : sealed_ok d S → read_file d path = Some (unlines ls) → lines_of T ls →
  (∀ seg, last S.*1 = Some seg → Forall (λ e, seg_last seg < Seq e) T) →
  ReadAll d path = Ok (sealed_marked S ++ map (mark_container path) T).
Proof.
  intros [Hl Hs] Hf HT Hlast. unfold ReadAll, streamLines. rewrite Hl, (stream_sealed d S Hs), Hf.
  rewrite (streamTail_collect d path T ls) by done. done.
Qed.

Lemma sealed_last S seg rest : Forall (λ x, closes x.1 x.2) S → linked 0 [] (sealed_events S ++ rest) →
  last S.*1 = Some seg → seg_last seg = Z.of_nat (length (sealed_events S)).
Proof.
  destruct S as [|[seg' es] S _] using rev_ind; [done|]. intros Hc Hl. rewrite fmap_app. cbn [fmap list_fmap]. rewrite last_snoc. intros [= ->].
  apply Forall_app in Hc as [_ [[_ (h & Hh & Hs & _)] _]%Forall_cons]. cbn in Hh, Hs.
  apply linked_app in Hl as [Hl _]. unfold sealed_events in *. rewrite fmap_app, concat_app in *. cbn in *. rewrite app_nil_r in *.
  rewrite last_lookup in Hh. rewrite <- Hs.
  rewrite (linked_seq _ _ _ (length (concat S.*2) + pred (length es))%nat h Hl) by (rewrite lookup_app_r by lia; by rewrite Nat.add_comm, Nat.add_sub).
  rewrite length_app. destruct es; [done|]. cbn [length pred]. lia.
Qed.

Lemma linked_after seq prev T : linked seq prev T → Forall (λ e, seq < Seq e) T.
Proof.
  revert seq prev. induction T as [|e T IH]; intros seq prev; [constructor|]. intros (H & _ & _ & Hl).
  constructor; [lia|]. eapply Forall_impl; [by eapply IH|]. cbn. lia.
Qed.

Lemma stored_closes d S : Forall (stored_segment d) S → Forall (λ x, closes x.1 x.2) S.
Proof. intros H. eapply Forall_impl; [exact H|]. by intros x [? _]. Qed.

Lemma after_sealed d S T : sealed_ok d S → linked 0 [] (sealed_events S ++ T) →
  ∀ seg, last S.*1 = Some seg → Forall (λ e, seg_last seg < Seq e) T.
Proof.
  intros [_ Hs%stored_closes] Hl seg E. rewrite (sealed_last S seg T Hs Hl E).
  apply linked_app in Hl as [_ Hl]. by eapply linked_after.
Qed.

(** The record at [path] reads as [evs], up to signatures and reader marks. *)
Definition reads_as (d : dir) (path : bytes) (evs : list Event) : Prop :=
  ∃ evs', ReadAll d path = Ok evs' ∧ Forall2 same_record evs evs'.

Lemma same_refl e : same_record e e.
Proof. by repeat split. Qed.

Lemma same_marked S : Forall2 same_record (sealed_events S) (sealed_marked S).
Proof.
  induction S as [|[seg es] S IH]; [constructor|]. unfold sealed_events, sealed_marked in *. cbn.
  apply Forall2_app; [|done]. clear. induction es; constructor; [by repeat split|done].
Qed.

Lemma same_container path T : Forall2 same_record T (map (mark_container path) T).
Proof. induction T; constructor; [by repeat split|done]. Qed.

Lemma reads_stored d path S T : sealed_ok d S → read_file d path = Some (store T) → Forall storable T →
  linked 0 [] (sealed_events S ++ T) → reads_as d path (sealed_events S ++ T).
Proof.
  intros Hs Hf HT Hl. eexists. split.
  - eapply ReadAll_stored; [done|exact Hf|by apply lines_of_store|]. by eapply after_sealed.
  - apply Forall2_app; [apply same_marked|apply same_container].
Qed.

(** ** Sealing: the segment that is written *)

Definition unsig (e : Event) : Event := set_Sig e [].

Lemma unsig_shorter e : (length (stored_line (unsig e)) ≤ length (stored_line e))%nat.
Proof.
  unfold stored_line, line_list, unsig, set_Sig. cbn [Sig Payload].
  change (EntryBytes (mkEvent _ _ _ _ _ _ _ [] _ _ _ _)) with (EntryBytes e). change (beq [] []) with true. cbn [beq].
  destruct (beq (Sig e) []); [done|]. unfold field_object. cbn [map length]. rewrite !length_app, !comma_join_cons.
  rewrite !length_app. unfold tail_text. cbn [map concat length]. rewrite !length_app. lia.
Qed.

Lemma unsig_storable e : storable e → storable (unsig e).
Proof.
  intros ([] & Hu & Hl). split; [by split|]. split; [exact Hu|]. pose proof (unsig_shorter e). lia.
Qed.

Definition sealed_form (A : list Event) (h : Event) : list Event := map unsig A ++ [h].

(** The loop of [writeSegment] over the records before the head. *)
Lemma segment_write_body first head A : Forall storable A → ∀ rest off n out expect,
  numbered expect A → first ≤ expect → 0 ≤ expect → Forall (λ e, Seq e < head) A → head < two64 → Forall (λ e, Sig e ≠ []) A →
  ∃ off' n', scan_loop (segment_write_line first head) (ended (map stored_line A) ++ rest) off n (mkSeg out expect (-1) []) =
    scan_loop (segment_write_line first head) rest off' n' (mkSeg (out ++ store (map unsig A)) (expect + Z.of_nat (length A)) (-1) []) ∧
    off' = off + Z.of_nat (length (store A)).
Proof.
  induction 1 as [|e A He _ IH]; intros rest off n out expect Hn Hf H0 Hlt Hh Hsig.
  - exists off, n. cbn. by rewrite app_nil_r, !Z.add_0_r.
  - destruct Hn as [Hn1 Hn2]. apply Forall_cons in Hlt as [Hlt1 Hlt2]. apply Forall_cons in Hsig as [Hs1 Hs2].
    change (ended (map stored_line (e :: A)) ++ rest) with ((stored_line e ++ [10]) :: ended (map stored_line A) ++ rest).
    rewrite (scan_line _ e) by (by apply storable_line). unfold segment_write_line at 1.
    rewrite (lo_decode e _ (storable_line e He)). rewrite (proj2 (Z.ltb_ge _ _)) by lia.
    cbn [sg_expect sg_out sg_after sg_hash]. rewrite Hn1, Z.eqb_refl. cbn [negb].
    rewrite (proj2 (Z.ltb_lt _ _)) by lia. rewrite (proj2 (beq_false _ _) Hs1).
    change (set_Sig e []) with (unsig e). rewrite (storable_marshal _ (unsig_storable e He)). rewrite u64_small by lia.
    destruct (IH rest (off + (Z.of_nat (length (stored_line e)) + 1)) (n + 1) (out ++ stored_line (unsig e) ++ [10]) (expect + 1))
      as (off' & n' & -> & ->); try done; [lia..|].
    eexists _, _. split.
    + f_equal. f_equal; [|cbn [length]; lia]. cbn [map]. rewrite store_cons. by rewrite <- !app_assoc.
    + rewrite store_cons, length_app. cbn [length]. lia.
Qed.

Lemma writeSegment_ok A h B first : Forall storable (A ++ h :: B) → numbered first (A ++ h :: B) → 0 ≤ first →
  Forall (λ e, Sig e ≠ []) (A ++ [h]) → EType h = EventSystemWitnessed → Seq h < two64 →
  writeSegment (store (A ++ h :: B)) first (Seq h) =
    Ok (store (sealed_form A h), Z.of_nat (length (store (A ++ [h]))), EntryHash h).
Proof.
  intros Hst Hn H0 Hsig Hty Hb. unfold writeSegment, scanLines.
  unfold store at 1. rewrite (tokens_lines (A ++ h :: B)) by (by apply lines_of_store).
  apply Forall_app in Hst as [HA [Hh HB]%Forall_cons]. apply Forall_app in Hsig as [Hs1 [Hs2 _]%Forall_cons].
  rewrite map_app. unfold ended. rewrite map_app. fold (ended (map stored_line A)).
  assert (∀ X Y next, numbered next (X ++ Y) → numbered next X ∧ numbered (next + Z.of_nat (length X)) Y) as Hsplit.
  { clear. induction X as [|x X IH]; intros Y next; cbn; [by rewrite Z.add_0_r|]. intros [? ?%IH].
    replace (next + Z.of_nat (S (length X))) with (next + 1 + Z.of_nat (length X)) by lia. tauto. }
  destruct (Hsplit _ _ _ Hn) as [Hn1 [Hnh _]].
  assert (∀ X next hi, numbered next X → next + Z.of_nat (length X) ≤ hi → Forall (λ e, Seq e < hi) X) as Hlt.
  { clear. induction X as [|x X IH]; intros next hi; cbn; [constructor|]. intros [? ?] ?. constructor; [lia|]. eapply IH; [done|lia]. }
  destruct (segment_write_body first (Seq h) A HA (map (λ l, l ++ [10]) (map stored_line (h :: B))) 0 0 [] first) as (off' & n' & -> & ->); try done.
  { eapply Hlt; [exact Hn1|lia]. }
  change (map (λ l, l ++ [10]) (map stored_line (h :: B))) with ((stored_line h ++ [10]) :: ended (map stored_line B)).
  rewrite (scan_line _ h) by (by apply storable_line). unfold segment_write_line at 1.
  rewrite (lo_decode h _ (storable_line h Hh)), (proj2 (Z.ltb_ge (Seq h) first)) by lia.
  cbn [sg_expect sg_out sg_after sg_hash]. rewrite Hnh, Z.eqb_refl, Z.ltb_irrefl, Hty, beq_refl. cbn [negb orb].
  rewrite (proj2 (beq_false _ _) Hs2). cbn [scan_result sg_after sg_out sg_hash].
  rewrite (proj2 (Z.ltb_ge _ _)) by lia. do 2 f_equal. f_equal.
  - unfold sealed_form. by rewrite store_app, store_one.
  - rewrite store_app, length_app, store_one, length_app. cbn [length]. lia.
Qed.

(** The published segment closes, and agrees with the tail it was cut from. *)
Lemma sealed_form_closes A h first : numbered first (A ++ [h]) → EType h = EventSystemWitnessed → Sig h ≠ [] →
  closes (mkSegment first (Seq h) (segmentName first (Seq h))) (sealed_form A h).
Proof.
  intros Hn Ht Hs. split.
  - unfold sealed_form. destruct A as [|e A]; cbn in *; by destruct Hn as [-> _].
  - exists h. unfold sealed_form. by rewrite last_snoc.
Qed.

Lemma sealed_form_agree A h : Forall2 agree (sealed_form A h) (A ++ [h]).
Proof. unfold sealed_form. apply Forall2_app; [|by repeat constructor]. induction A; constructor; [by split|done]. Qed.

Lemma sealed_form_same A h : Forall2 same_record (A ++ [h]) (sealed_form A h).
Proof. unfold sealed_form. apply Forall2_app; [|by repeat constructor]. induction A; constructor; [by repeat split|done]. Qed.

(** ** Records equal up to signature and marks *)

Lemma same_EntryBytes e e' : same_record e e' → EntryBytes e = EntryBytes e'.
Proof. intros (E1 & E2 & E3 & E4 & E5 & E6 & _). unfold EntryBytes. congruence. Qed.

Lemma same_EntryHash e e' : same_record e e' → EntryHash e = EntryHash e'.
Proof. intros H%same_EntryBytes. unfold EntryHash, entrySum. by rewrite H. Qed.

Lemma same_trans e1 e2 e3 : same_record e1 e2 → same_record e2 e3 → same_record e1 e3.
Proof. unfold same_record. intuition congruence. Qed.

Lemma same_trans_list l1 l2 l3 : Forall2 same_record l1 l2 → Forall2 same_record l2 l3 → Forall2 same_record l1 l3.
Proof.
  intros H. revert l3. induction H as [|a b l1 l2 Hab _ IH]; intros l3 H3; inversion H3; subst; constructor; eauto using same_trans.
Qed.

Lemma linked_same seq prev l l' : Forall2 same_record l l' → linked seq prev l → linked seq prev l'.
Proof.
  intros H. revert seq prev. induction H as [|e e' l l' He _ IH]; intros seq prev; [done|]. intros (H1 & H2 & H3 & H4).
  pose proof (same_EntryHash _ _ He) as Hh. destruct He as (E1 & E2 & _ & _ & _ & E6 & E7). cbn [linked].
  rewrite <- E1, <- E2, <- E6, <- E7, <- Hh. auto.
Qed.

Lemma reads_as_same d path evs evs' : Forall2 same_record evs evs' → reads_as d path evs' → reads_as d path evs.
Proof. intros H (x & Hx & Hs). exists x. split; [done|]. by eapply same_trans_list. Qed.

Lemma last_hash_same prev l l' : Forall2 same_record l l' → last_hash prev l = last_hash prev l'.
Proof.
  intros H. destruct l as [|e l _] using rev_ind; [by inversion H|].
  destruct l' as [|e' l' _] using rev_ind; [apply Forall2_nil_inv_r in H; by destruct l|].
  apply Forall2_app_inv in H as [_ H]; [|apply Forall2_length in H; rewrite !length_app in H; cbn in H; lia].
  inversion H; subst. rewrite !last_hash_snoc. by apply same_EntryHash.
Qed.

(** ** The published segment *)

Lemma covers_bound segs x : ∀ s next, covers next segs → s ∈ segs → last segs = Some x → seg_first s ≤ seg_last x.
Proof.
  induction segs as [|y segs IH]; intros s next; [by intros _ ?%elem_of_nil|]. intros (H1 & H2 & Hc) [->|Hs]%elem_of_cons E.
  - destruct segs as [|z segs]; [injection E as ->; done|]. rewrite last_cons_cons in E.
    pose proof (IH z _ Hc ltac:(by left) E). destruct Hc as (Hz & _). lia.
  - destruct segs as [|z segs]; [by apply elem_of_nil in Hs|]. rewrite last_cons_cons in E. by eapply IH.
Qed.

Definition next_first (segs : list segment) : Z := match last segs with Some x => seg_last x + 1 | None => 1 end.

Lemma not_published d segs head : listSegments d = Ok segs → is_dir d (segmentName (next_first segs) head) = false →
  next_first segs ≤ head → head < two64 → d !! segmentName (next_first segs) head = None.
Proof.
  intros Hl Hd Hle Hb. unfold is_dir in Hd. destruct (d !! segmentName _ head) as [[c|]|] eqn:E; [|done|done].
  pose proof Hl as [Es Hc]%listSegments_ok.
  assert (1 ≤ next_first segs) as H1.
  { unfold next_first. destruct (last segs) as [x|] eqn:Ex; [|lia]. apply last_Some_elem_of in Ex.
    pose proof (segmentFiles_ok d) as Hok. rewrite <- Es, Forall_forall in Hok. destruct (Hok x Ex). lia. }
  assert (mkSegment (next_first segs) head (segmentName (next_first segs) head) ∈ segs) as Hin.
  { rewrite Es. apply segmentFiles_elem. exists (NFile c). rewrite <- Es. split; [done|]. unfold segment_entry. cbn [fst snd seg_name].
    by rewrite parse_segmentName by lia. }
  exfalso. unfold next_first in Hin. destruct (last segs) as [x|] eqn:Ex; [|by apply last_None in Ex as ->; apply elem_of_nil in Hin].
  pose proof (covers_bound _ _ _ _ Hc Hin Ex). cbn in *. lia.
Qed.

Lemma publish_ok d S es head : sealed_ok d S → Forall storable es →
  is_dir d (segmentName (next_first S.*1) head) = false → next_first S.*1 ≤ head → head < two64 →
  closes (mkSegment (next_first S.*1) head (segmentName (next_first S.*1) head)) es →
  sealed_ok (<[segmentName (next_first S.*1) head := NFile (gzip (store es))]> d)
    (S ++ [(mkSegment (next_first S.*1) head (segmentName (next_first S.*1) head), es)]).
Proof.
  intros [Hl Hs] Hes Hd Hle Hb Hc. pose proof (not_published _ _ _ Hl Hd Hle Hb) as Hnone. split.
  - rewrite fmap_app. cbn [fmap list_fmap fst]. by apply listSegments_publish.
  - apply Forall_app. split.
    + rewrite Forall_forall in *. intros x Hx. destruct (Hs x Hx) as (Hcx & ls & Hls & Hf). split; [done|].
      exists ls. split; [done|]. rewrite read_file_other; [done|]. intros E. unfold read_file in Hf. by rewrite <- E, Hnone in Hf.
    + apply Forall_singleton. split; [done|]. exists (map stored_line es). split; [by apply lines_of_store|].
      cbn [fst seg_name]. by rewrite read_file_insert.
Qed.

Lemma parse_dot s : parseSegmentName (46 :: s) = None.
Proof. reflexivity. Qed.

Lemma debris_parse name : is_debris name = true → parseSegmentName name = None.
Proof.
  unfold is_debris. intros [_ [Hp|Hp]%orb_true_iff]%andb_true_iff; apply HasPrefix_split in Hp; rewrite Hp; apply parse_dot.
Qed.

Lemma debris_temp first head stamp : is_debris (segment_temp first head stamp) = true ∧ is_debris (tail_temp stamp) = true.
Proof.
  unfold is_debris, segment_temp, tail_temp. split.
  - rewrite HasPrefix_app, !app_assoc, HasSuffix_app. done.
  - rewrite HasPrefix_app, app_assoc, HasSuffix_app. apply orb_true_r.
Qed.

Lemma numbered_prefix n A h B : numbered n (A ++ h :: B) →
  numbered n (A ++ [h]) ∧ n + Z.of_nat (length (A ++ [h])) = Seq h + 1.
Proof.
  revert n. induction A as [|e A IH]; intros n; cbn; [intros [-> _]; split; [done|lia]|]. intros [? H%IH].
  destruct H as [? H]. split; [done|]. lia.
Qed.

(** ** The states a seal passes through *)

Section Seal.
Variables (path : bytes) (S : list (segment * list Event)) (A : list Event) (h : Event) (B : list Event).
Hypothesis Hpath : parseSegmentName path = None ∧ is_debris path = false.
Hypothesis Hst : Forall storable (A ++ h :: B).
Hypothesis Hchain : linked 0 [] (sealed_events S ++ A ++ h :: B).
Hypothesis Hsig : Forall (λ e, Sig e ≠ []) (A ++ [h]).
Hypothesis Htype : EType h = EventSystemWitnessed.
Hypothesis Hbound : Seq h < two64.

Definition seal_first : Z := Z.of_nat (length (sealed_events S)) + 1.
Definition new_segment : segment := mkSegment seal_first (Seq h) (segmentName seal_first (Seq h)).

(** Nothing published; segment published and the tail still whole; done. *)
Definition before_seal (d : dir) : Prop := sealed_ok d S ∧ read_file d path = Some (store (A ++ h :: B)).
Definition overlapped (d : dir) : Prop :=
  sealed_ok d (S ++ [(new_segment, sealed_form A h)]) ∧ read_file d path = Some (store (A ++ h :: B)).
Definition after_seal (d : dir) : Prop :=
  sealed_ok d (S ++ [(new_segment, sealed_form A h)]) ∧ read_file d path = Some (store B).

Definition seal_state (d : dir) : Prop := before_seal d ∨ overlapped d ∨ after_seal d.

Lemma debris_not_segment name : is_debris name = true → parseSegmentName name = None ∧ name ≠ path.
Proof.
  intros Hd. split; [by apply debris_parse|intros ->; destruct Hpath; congruence].
Qed.

Lemma seal_state_debris d name c : is_debris name = true → seal_state d →
  seal_state (<[name := NFile c]> d) ∧ seal_state (delete name d).
Proof.
  intros [Hn Hne]%debris_not_segment Hs.
  unfold seal_state, before_seal, overlapped, after_seal in *. rewrite !read_file_other, !read_file_deleted by done.
  destruct Hs as [[? ?]|[[? ?]|[? ?]]]; auto 10 using sealed_ok_insert, sealed_ok_delete.
Qed.

Lemma seal_numbered : numbered seal_first (A ++ h :: B).
Proof. apply linked_app in Hchain as [_ H]. by apply linked_numbered in H. Qed.

Lemma seal_numbered_A : numbered seal_first (A ++ [h]) ∧ seal_first + Z.of_nat (length (A ++ [h])) = Seq h + 1.
Proof.
  apply (numbered_prefix _ _ _ B), seal_numbered.
Qed.

Lemma seal_first_next d : sealed_ok d S → seal_first = next_first S.*1.
Proof.
  intros [_ Hs%stored_closes]. unfold seal_first, next_first. destruct (last S.*1) as [x|] eqn:E.
  - by rewrite (sealed_last S x _ Hs Hchain E).
  - apply last_None in E. by destruct S.
Qed.

Lemma sealed_form_storable : Forall storable (sealed_form A h).
Proof.
  apply Forall_app in Hst as [HA [Hh _]%Forall_cons]. unfold sealed_form. apply Forall_app. split; [|by apply Forall_singleton].
  apply Forall_map. eapply Forall_impl; [exact HA|]. apply unsig_storable.
Qed.

Lemma seal_publish d : before_seal d → is_dir d (segmentName seal_first (Seq h)) = false →
  overlapped (<[segmentName seal_first (Seq h) := NFile (gzip (store (sealed_form A h)))]> d).
Proof.
  intros [Hs Hf] Hd. destruct seal_numbered_A as [Hn Hlen]. rewrite length_app in Hlen. cbn [length] in Hlen.
  unfold overlapped, new_segment. rewrite (seal_first_next d Hs) in *. split.
  - apply publish_ok; auto using sealed_form_storable; [lia|]. apply sealed_form_closes; [done|done|].
    by apply Forall_app in Hsig as [_ [? _]%Forall_cons].
  - rewrite read_file_other; [done|]. intros E. destruct Hpath as [Hp _]. rewrite <- E, parse_segmentName in Hp; [done| |done].
    unfold next_first in *. pose proof (seal_first_next d Hs) as E1. unfold seal_first, next_first in E1. lia.
Qed.

Lemma same_sealed : Forall2 same_record (sealed_events S ++ A ++ h :: B)
  (sealed_events (S ++ [(new_segment, sealed_form A h)]) ++ B).
Proof.
  unfold sealed_events. rewrite fmap_app, concat_app. cbn [fmap list_fmap concat snd]. rewrite app_nil_r, <- app_assoc.
  assert (∀ l, Forall2 same_record l l) as Hrefl by (intros l; induction l; constructor; auto using same_refl).
  apply Forall2_app; [done|]. change (A ++ h :: B) with (A ++ [h] ++ B). rewrite app_assoc.
  apply Forall2_app; [apply sealed_form_same|done].
Qed.

Lemma overlapped_reads d : overlapped d → reads_as d path (sealed_events S ++ A ++ h :: B).
Proof.
  intros [[Hl Hs] Hf]. destruct seal_numbered_A as [Hn Hlen].
  pose proof Hs as Hs'. apply Forall_app in Hs' as [_ [(Hc & ls & Hls & Hseg) _]%Forall_cons].
  exists (sealed_marked (S ++ [(new_segment, sealed_form A h)]) ++ map (mark_container path) B). split.
  - unfold ReadAll, streamLines. rewrite Hl, (stream_sealed d _ Hs), Hf. rewrite fmap_app. cbn [fmap list_fmap fst]. rewrite last_snoc.
    unfold store. change (A ++ h :: B) with (A ++ [h] ++ B). rewrite app_assoc, map_app.
    apply Forall_app in Hst as [HA [Hh HB]%Forall_cons].
    rewrite (streamTail_overlap d path new_segment (sealed_form A h) ls (A ++ [h]) _ B); try done.
    + apply sealed_form_agree.
    + apply lines_of_store, Forall_app. split; [done|by apply Forall_singleton].
    + by apply lines_of_store.
    + by destruct A.
    + cbn. unfold seal_first. lia.
  - eapply same_trans_list; [apply same_sealed|]. apply Forall2_app; [apply same_marked|apply same_container].
Qed.

(** Whatever the seal has done, the record reads as it did. *)
Lemma seal_state_reads d : seal_state d → reads_as d path (sealed_events S ++ A ++ h :: B).
Proof.
  intros [[Hs Hf]|[Ho|[Hs Hf]]].
  - by apply reads_stored.
  - by apply overlapped_reads.
  - eapply reads_as_same; [apply same_sealed|]. apply reads_stored; try done.
    + by apply Forall_app in Hst as [_ [_ ?]%Forall_cons].
    + eapply linked_same; [apply same_sealed|done].
Qed.

Lemma replaceTail_states ok d stamp : overlapped d →
  ∀ d' ds r, replaceTail ok d path stamp (length (store (A ++ [h]))) = (d', ds, r) →
  Forall seal_state (d' :: ds) ∧ (r = Ok () → after_seal d').
Proof.
  intros Ho d' ds r. destruct (debris_temp 0 0 stamp) as [_ Ht].
  assert (seal_state d) as Hd by (right; by left).
  pose proof (debris_not_segment _ Ht) as [Hpn Hne].
  pose proof (seal_state_debris d (tail_temp stamp)) as Hdeb. destruct Ho as [Hs Hf].
  unfold replaceTail. rewrite Hf. cbn [default from_option id].
  replace (drop (length (store (A ++ [h]))) (store (A ++ h :: B))) with (store B).
  2:{ change (A ++ h :: B) with (A ++ [h] ++ B). by rewrite app_assoc, (store_app (A ++ [h]) B), drop_app_length. }
  set (d1 := <[tail_temp stamp := NFile (store B)]> d).
  assert (seal_state d1) as Hd1 by (by apply Hdeb).
  assert (seal_state (delete (tail_temp stamp) d1)) as Hd1' by (by apply seal_state_debris).
  set (d2 := <[path := NFile (store B)]> (delete (tail_temp stamp) d1)).
  assert (after_seal d2) as Ha.
  { split; [|apply read_file_insert]. apply sealed_ok_insert; [apply Hpath|]. apply sealed_ok_delete, sealed_ok_insert; done. }
  assert (seal_state d2) as Hd2 by (by right; right).
  repeat case_match; intros [= <- <- <-]; (split; [each|done]).
Qed.
End Seal.

Lemma repr_sigs pubKey l d S A h B : repr pubKey l d S (A ++ h :: B) → Forall (λ e, Sig e ≠ []) (A ++ [h]).
Proof.
  intros Hr. pose proof (r_signed _ _ _ _ _ Hr) as Hs. change (A ++ h :: B) with (A ++ [h] ++ B) in Hs. rewrite app_assoc in Hs.
  apply Forall_app in Hs as [Hs _]. eapply Forall_impl; [exact Hs|]. intros e [H1 H2] E. rewrite E in H2. cbn in H2.
  by specialize (H1 H2).
Qed.

Lemma repr_head_le pubKey l d S A h B : repr pubKey l d S (A ++ h :: B) → Seq h ≤ lastSeq l.
Proof.
  intros Hr. destruct (seal_numbered_A S A h B (r_chain _ _ _ _ _ Hr)) as [_ Hlen]. rewrite (r_lastSeq _ _ _ _ _ Hr).
  unfold seal_first in Hlen. rewrite !length_app in *. cbn [length] in *. lia.
Qed.

(** The ledger after a completed seal. *)
Definition sealed_ledger (l : Ledger) (S : list (segment * list Event)) (h : Event) : Ledger :=
  set_sealed (set_file (set_file l false) true) (Seq h) (EntryHash h) (segments l ++ [new_segment S h]).

Lemma seal_repr pubKey l d S A h B d' : repr pubKey l d S (A ++ h :: B) → after_seal (l_path l) S A h B d' →
  repr pubKey (sealed_ledger l S h) d' (S ++ [(new_segment S h, sealed_form A h)]) B.
Proof.
  intros Hr [Hs Hf]. pose proof (same_sealed S A h B) as Hsame. destruct (seal_numbered_A S A h B (r_chain _ _ _ _ _ Hr)) as [_ Hlen].
  assert (sealed_events (S ++ [(new_segment S h, sealed_form A h)]) = sealed_events S ++ sealed_form A h) as Ee.
  { unfold sealed_events. rewrite fmap_app, concat_app. cbn. by rewrite app_nil_r. }
  destruct Hr. unfold sealed_ledger. split; cbn [set_sealed set_file l_locked l_file sealErr frozenReason l_path segments sealedSeq sealedHash lastSeq lastHash]; try done.
  - by apply Forall_app in r_storable0 as [_ [_ ?]%Forall_cons].
  - by apply Forall_app in r_signed0 as [_ [_ ?]%Forall_cons].
  - by rewrite r_segments0, fmap_app.
  - by eapply linked_same.
  - rewrite Ee. unfold seal_first, sealed_form in *. rewrite !length_app, ?length_map in *. cbn [length] in *. lia.
  - rewrite Ee, last_hash_app. unfold sealed_form. by rewrite last_hash_snoc.
  - rewrite r_lastSeq0. f_equal. by apply Forall2_length in Hsame.
  - rewrite r_lastHash0. by apply last_hash_same.
Qed.

Lemma seal_published_states pubKey ok l d0 S A h B stamp : repr pubKey l d0 S (A ++ h :: B) →
  ∀ d, overlapped (l_path l) S A h B d →
  ∀ l' d' ds r, seal_published ok l d stamp (seal_first S) (Seq h) (Z.of_nat (length (store (A ++ [h])))) (EntryHash h) = (l', d', ds, r) →
  Forall (seal_state (l_path l) S A h B) (d' :: ds) ∧
  (r = Ok () → repr pubKey l' d' (S ++ [(new_segment S h, sealed_form A h)]) B) ∧
  (r ≠ Ok () → l' = l ∧ before_seal (l_path l) S A h B d' ∨ sealErr l' ≠ None ∧ lastSeq l' = lastSeq l ∧ lastHash l' = lastHash l).
Proof.
  intros Hr d Ho l' d' ds r. assert (seal_state (l_path l) S A h B d) as Hd by (right; by left).
  unfold seal_published. destruct (_ || _ || _).
  { intros [= <- <- <- <-]. split; [each|]. split; [done|]. by right. }
  unfold replaceTailFrom. rewrite Nat2Z.id. destruct (_ || _).
  { intros [= <- <- <- <-]. split; [each|]. split; [done|]. by right. }
  destruct (_ && _). { intros [= <- <- <- <-]. split; [each|]. split; [done|]. by right. }
  destruct (replaceTail _ _ _ _ _) as [[d2 ds2] r2] eqn:E.
  destruct (replaceTail_states (l_path l) S A h B (r_path _ _ _ _ _ Hr) ok d stamp Ho _ _ _ E) as [Hall Hdone].
  destruct r2 as [[]|e2]; [|intros [= <- <- <- <-]; split; [done|]; split; [done|]; by right].
  destruct (_ || _); [intros [= <- <- <- <-]; split; [done|]; split; [done|]; by right|].
  intros [= <- <- <- <-]. split; [done|]. split; [|done]. intros _. by eapply seal_repr; [|apply Hdone].
Qed.

(** What a seal of the record [h] of the tail does, whichever of its file
    operations succeed. *)
Lemma Seal_states pubKey ok l d S A h B stamp : repr pubKey l d S (A ++ h :: B) → EType h = EventSystemWitnessed →
  ∀ l' d' ds r, Seal ok l d stamp (Seq h) = (l', d', ds, r) →
  Forall (seal_state (l_path l) S A h B) (d' :: ds) ∧
  (r = Ok () → repr pubKey l' d' (S ++ [(new_segment S h, sealed_form A h)]) B) ∧
  (r ≠ Ok () → l' = l ∧ before_seal (l_path l) S A h B d' ∨ sealErr l' ≠ None ∧ lastSeq l' = lastSeq l ∧ lastHash l' = lastHash l).
Proof.
  intros Hr Ht l' d' ds r.
  pose proof (r_storable _ _ _ _ _ Hr) as Hst. pose proof (r_chain _ _ _ _ _ Hr) as Hch. pose proof (r_path _ _ _ _ _ Hr) as Hp.
  pose proof (repr_sigs _ _ _ _ _ _ _ Hr) as Hsig.
  destruct (seal_numbered_A S A h B Hch) as [Hn Hlen].
  pose proof (repr_head_le _ _ _ _ _ _ _ Hr) as Hle.
  pose proof (r_bound _ _ _ _ _ Hr) as Hb.
  assert (before_seal (l_path l) S A h B d) as H0 by (split; apply Hr).
  assert (seal_state (l_path l) S A h B d) as H0' by (by left).
  unfold Seal, is_frozen. rewrite (r_frozen _ _ _ _ _ Hr), (r_locked _ _ _ _ _ Hr), (r_sealErr _ _ _ _ _ Hr). cbn [negb].
  rewrite (proj2 (Z.ltb_ge (lastSeq l) (Seq h))) by lia.
  assert (sealedSeq l + 1 = seal_first S) as Hfirst by (unfold seal_first; rewrite (r_sealedSeq _ _ _ _ _ Hr); lia).
  rewrite (proj2 (Z.leb_gt (Seq h) (sealedSeq l))) by (rewrite length_app in Hlen; cbn [length] in Hlen; lia).
  assert (u64 (sealedSeq l + 1) = seal_first S) as ->.
  { rewrite <- Hfirst. apply u64_small. rewrite (r_sealedSeq _ _ _ _ _ Hr) in *. rewrite length_app in Hlen. cbn [length] in Hlen. lia. }
  destruct (ok IoFlush); cbn [negb]; [|intros [= <- <- <- <-]; split; [each|split; [done|by left]]].
  rewrite (r_tail _ _ _ _ _ Hr).
  rewrite (writeSegment_ok A h B (seal_first S)); [|done|by eapply seal_numbered|unfold seal_first; lia|done|done|lia].
  destruct (ok IoSegmentWrite); cbn [negb]; [|intros [= <- <- <- <-]; split; [each|split; [done|by left]]].
  destruct (debris_temp (seal_first S) (Seq h) stamp) as [Htmp _].
  set (tmp := segment_temp (seal_first S) (Seq h) stamp) in *.
  set (d1 := <[tmp := NFile (gzip (store (sealed_form A h)))]> d).
  assert (seal_state (l_path l) S A h B d1) as H1 by (by apply seal_state_debris).
  destruct (debris_not_segment (l_path l) Hp _ Htmp) as [Htn Htne].
  assert (before_seal (l_path l) S A h B (delete tmp d1)) as H2.
  { destruct H0 as [Hs Hf]. split; [by apply sealed_ok_delete, sealed_ok_insert|].
    unfold d1. rewrite read_file_deleted, read_file_other by done. done. }
  assert (seal_state (l_path l) S A h B (delete tmp d1)) as H2' by (by left).
  destruct (negb (ok IoStepSegmentWritten) || negb (ok IoSegmentRename) || is_dir d _) eqn:Eok.
  { intros [= <- <- <- <-]. split; [each|split; [done|by left]]. }
  b2p. assert (is_dir (delete tmp d1) (segmentName (seal_first S) (Seq h)) = false) as Hdir.
  { unfold is_dir, d1. assert (tmp ≠ segmentName (seal_first S) (Seq h)).
    { intros E. rewrite E, parse_segmentName in Htn; [done| |lia]. rewrite length_app in Hlen. unfold seal_first in *. cbn [length] in Hlen. lia. }
    by rewrite lookup_delete_ne, lookup_insert_ne. }
  assert (overlapped (l_path l) S A h B (<[segmentName (seal_first S) (Seq h) := NFile (gzip (store (sealed_form A h)))]> (delete tmp d1))) as Hov.
  { apply seal_publish; try done. lia. }
  destruct (seal_published _ _ _ _ _ _ _ _) as [[[l1 d2] ds1] r1] eqn:E. intros [= <- <- <- <-].
  destruct (seal_published_states pubKey ok l d S A h B stamp Hr _ Hov _ _ _ _ E) as (Hall & Hok & Herr).
  split; [|done]. apply Forall_cons in Hall as [? ?]. by repeat (apply Forall_cons; split; [done|]).
Qed.
End Repr.
