(* ===== verification/Recovery.v ===== *)
(** * Recovery: torn lines, interrupted seals, reopening

    The complete prefix of a tail that an append left torn, and the ledger
    [openLedger] builds over any directory a seal can leave: the same records,
    with the interrupted seal finished. *)

From stdpp Require Import gmap.
From S2P Require Import Prelude Utf8 GoJson CanonicalJson CanonicalJsonFacts GoStruct Crypto Event Lines Stored Chain Container ContainerFacts Ledger LedgerFacts.

(** ** The complete prefix of the tail *)

Lemma after_last_nl_line p acc : one_line p → after_last_nl p acc = acc.
Proof. intros H. revert acc. induction H as [|c p Hc _ IH]; intros acc; [done|]. cbn. by rewrite (proj2 (Z.eqb_neq c 10) Hc). Qed.

Lemma after_last_nl_step l rest acc : one_line l → after_last_nl (l ++ 10 :: rest) acc = after_last_nl rest rest.
Proof. intros H. revert acc. induction H as [|c l Hc _ IH]; intros acc; cbn; [done|]. by rewrite (proj2 (Z.eqb_neq c 10) Hc). Qed.

Lemma after_last_nl_unlines ls p : Forall one_line ls → one_line p → after_last_nl (unlines ls ++ p) (unlines ls ++ p) = p.
Proof.
  intros H Hp. induction H as [|l ls Hl _ IH]; [by apply after_last_nl_line|].
  rewrite unlines_cons, <- app_assoc. cbn [app]. rewrite after_last_nl_step by done. exact IH.
Qed.

Lemma last_unlines ls : ls ≠ [] → last (unlines ls) = Some 10.
Proof.
  destruct ls as [|l ls _] using rev_ind; [done|]. intros _. rewrite unlines_app. unfold unlines at 2. cbn.
  rewrite app_nil_r, app_assoc. apply last_snoc.
Qed.

Lemma completeTailEnd_unlines ls : completeTailEnd (unlines ls) = length (unlines ls).
Proof.
  unfold completeTailEnd. destruct (decide (ls = [])) as [->|H]; [done|]. by rewrite last_unlines.
Qed.

Lemma completeTailEnd_torn ls t : Forall one_line ls → one_line (123 :: t) →
  completeTailEnd (unlines ls ++ 123 :: t) = length (unlines ls).
Proof.
  intros Hl Ht. unfold completeTailEnd.
  assert (∃ c, last (unlines ls ++ 123 :: t) = Some c ∧ c ≠ 10) as (c & -> & Hc).
  { destruct (last (123 :: t)) as [c|] eqn:E; [|by apply last_None in E]. exists c. rewrite last_app, E. split; [done|].
    unfold one_line in Ht. rewrite Forall_forall in Ht. apply Ht. by apply last_Some_elem_of. }
  rewrite (proj2 (Z.eqb_neq c 10) Hc), after_last_nl_unlines by done.
  assert (forallb IsSpace (runes (123 :: t)) = false) as ->; [|rewrite length_app; lia].
  unfold runes. rewrite decoded_cons by done. done.
Qed.

Section Torn.
Context `{P : Primitives} `{L : !PrimitiveLaws P} `{G : Gzip} `{GL : !GzipLaws G}.

Lemma stored_line_open e : ∃ t, stored_line e = 123 :: t.
Proof. by eexists. Qed.

(** A torn append: whatever part of the line reached the file, the complete
    prefix is the records before it, or those and the whole record. *)
Lemma torn_prefix T e n : Forall storable T → storable e →
  let data := store T ++ take n (stored_line e ++ [10]) in
  take (completeTailEnd data) data = store (if (n <=? length (stored_line e))%nat then T else T ++ [e]).
Proof.
  intros HT He data. assert (Forall one_line (map stored_line T)) as Hl.
  { eapply lines_of_one_line, lines_of_store, HT. }
  destruct (Nat.leb_spec n (length (stored_line e))) as [Hle|Hgt].
  - assert (take n (stored_line e ++ [10]) = take n (stored_line e)) as Etk by (by rewrite take_app_le).
    unfold data. rewrite Etk. clear data Etk. destruct n as [|n].
    { rewrite take_0, app_nil_r. unfold store. by rewrite completeTailEnd_unlines, firstn_all. }
    pose proof (lo_line e _ (storable_line e He)) as Ho. destruct (stored_line_open e) as (t & Et). rewrite Et in *. cbn [take].
    unfold store. rewrite completeTailEnd_torn; [by rewrite take_app_length|done|].
    inversion Ho; subst. constructor; [done|]. by apply Forall_take.
  - assert (take n (stored_line e ++ [10]) = stored_line e ++ [10]) as Etk by (apply firstn_all2; rewrite length_app; cbn [length]; lia).
    unfold data. rewrite Etk. clear data Etk. rewrite <- store_one, <- store_app.
    unfold store. by rewrite completeTailEnd_unlines, firstn_all.
Qed.

(** ** Reopening *)

Lemma chain_state_ok sseq shash T ls : lines_of T ls → ∀ first seq hash,
  (first = true → 0 < sseq → ∀ e, head T = Some e → Seq e = u64 (sseq + 1) ∧ Prev e = shash) →
  chain_state sseq shash first (ended ls) seq hash =
    Ok (match last T with Some e => (Seq e, EntryHash e) | None => (seq, hash) end).
Proof.
  induction 1 as [|e l T ls Hl _ IH]; intros first seq hash Hf; [done|].
  change (ended (l :: ls)) with ((l ++ [10]) :: ended ls). cbn [chain_state].
  rewrite (lo_trim e l Hl), (proj2 (beq_false _ _) (lo_ne e l Hl)), last_snoc, bool_decide_true by done. cbn [negb].
  rewrite (lo_decode e l Hl).
  assert (first && (0 <? sseq) && (negb (Seq e =? u64 (sseq + 1)) || negb (beq (Prev e) shash)) = false) as ->.
  { destruct first; [|done]. destruct (Z.ltb_spec 0 sseq) as [H0|]; [|done].
    destruct (Hf eq_refl H0 e eq_refl) as [-> ->]. by rewrite Z.eqb_refl, beq_refl. }
  rewrite IH by done. rewrite last_cons. by destruct (last T).
Qed.

Lemma listSegments_sweep d segs : listSegments d = Ok segs → listSegments (sweepDebris d) = Ok segs.
Proof.
  intros [-> Hc]%listSegments_ok. apply listSegments_ok. split; [|done]. symmetry.
  destruct (covers_sorted _ _ Hc) as [Hs _]. apply sort_segments_unique; [|done].
  unfold segmentFiles. rewrite sort_segments_perm. unfold sweepDebris. clear Hc Hs.
  assert (∀ name n, debris (name, n) = true → segment_entry (name, n) = None) as Hd.
  { intros name n Hn. unfold debris in Hn. destruct n as [c|]; [|done]. cbn [fst snd] in Hn. unfold segment_entry. cbn [fst snd].
    by rewrite debris_parse. }
  induction d as [|name n d Hn IH] using map_ind; [done|]. rewrite (map_to_list_insert d) by done.
  destruct (debris (name, n)) eqn:E.
  - rewrite map_filter_insert_False by (by rewrite E). rewrite delete_id by done. rewrite IH. cbn [omap list_omap]. by rewrite (Hd _ _ E).
  - rewrite map_filter_insert_True by done. rewrite map_to_list_insert by (apply map_lookup_filter_None; by left).
    cbn [omap list_omap]. by destruct (segment_entry (name, n)); rewrite IH.
Qed.

Lemma read_file_sweep d name : is_debris name = false → read_file (sweepDebris d) name = read_file d name.
Proof.
  intros H. unfold read_file, sweepDebris. destruct (d !! name) as [n|] eqn:E.
  - assert (filter (λ e, debris e = false) d !! name = Some n) as ->; [|done].
    apply map_lookup_filter_Some. split; [done|]. unfold debris. cbn. by destruct n.
  - assert (filter (λ e, debris e = false) d !! name = None) as ->; [|done]. apply map_lookup_filter_None. by left.
Qed.

Lemma sealed_ok_sweep d S : sealed_ok d S → sealed_ok (sweepDebris d) S.
Proof.
  intros Hs. eapply sealed_ok_frame; [done|by apply listSegments_sweep, Hs|]. intros name Hn. apply read_file_sweep.
  destruct (is_debris name) eqn:E; [|done]. by apply debris_parse in E.
Qed.

(** ** Reconciling the tail *)

Lemma reconcile_none d T newest : Forall storable T → Forall (λ e, seg_last newest < Seq e) T →
  reconcile_from d (store T) newest = Ok None.
Proof.
  intros HT Hlt. unfold reconcile_from, scanLines, store. rewrite (tokens_lines T) by (by apply lines_of_store).
  destruct HT as [|e T He HT]; [done|]. inversion Hlt; subst. cbn [map].
  change (ended (stored_line e :: ?x)) with ((stored_line e ++ [10]) :: ended x).
  rewrite (scan_line _ e) by (by apply storable_line). unfold first_line. rewrite (lo_decode e _ (storable_line e He)).
  cbn [scan_result]. by rewrite (proj2 (Z.ltb_lt _ _)).
Qed.

Lemma overlap_scan seg es O lso : Forall2 agree es O → lines_of O lso → ∀ next rest off n oc,
  numbered next O → next + Z.of_nat (length O) = seg_last seg + 1 → O ≠ [] → 0 ≤ next → seg_last seg < two64 →
  oc_at seg next es oc →
  ∃ oc', scan_loop overlap_line (ended lso ++ rest) off n (oc, -1) =
    ((oc', off + Z.of_nat (length (unlines lso))), Some (ScanFn SStop)).
Proof.
  intros Ha. revert lso. induction Ha as [|e t es O Het Ha IH]; intros lso Hl next rest off n oc Hn Hlen Hne H0 Hb Hoc; [done|].
  inversion Hl as [|t' l O' ls Hl1 Hls]; subst. destruct Hn as [Hn1 Hn2]. cbn [length] in Hlen.
  change (ended (l :: ls) ++ rest) with ((l ++ [10]) :: ended ls ++ rest). rewrite (scan_line _ t) by done.
  subst next. destruct (oc_check_at seg t e es oc) as (oc' & Hc & Hoc'); [done|done|].
  unfold overlap_line at 1. rewrite (lo_decode t l Hl1). cbn [fst snd]. rewrite Hc.
  assert (off + (Z.of_nat (length l) + 1) + Z.of_nat (length (unlines ls)) = off + Z.of_nat (length (unlines (l :: ls)))) as Eo.
  { rewrite unlines_cons, length_app. cbn [length]. lia. }
  destruct O as [|t2 O].
  - inversion Hls; subst. cbn [length] in Hlen. rewrite (proj2 (Z.eqb_eq _ _)) by lia.
    exists oc'. rewrite <- Eo. cbn [unlines map concat length]. by rewrite Z.add_0_r.
  - cbn [length] in Hlen. rewrite (proj2 (Z.eqb_neq _ _)) by lia. rewrite u64_small in Hoc' by lia.
    destruct (IH ls Hls (Seq t + 1) rest (off + (Z.of_nat (length l) + 1)) (n + 1) oc') as (o & ->); try done; [cbn [length]; lia|lia|].
    exists o. by rewrite Eo.
Qed.

Lemma reconcile_overlap d path S A h B : Forall storable (A ++ h :: B) → linked 0 [] (sealed_events S ++ A ++ h :: B) →
  Seq h < two64 → overlapped path S A h B d →
  reconcile_from d (store (A ++ h :: B)) (new_segment S h) = Ok (Some (Z.of_nat (length (store (A ++ [h]))))).
Proof.
  intros Hst Hch Hb [[Hl Hs] Hf]. destruct (seal_numbered_A S A h B Hch) as [Hn Hlen].
  apply Forall_app in Hs as [_ [(Hc & ls & Hls & Hseg) _]%Forall_cons]. cbn [fst snd] in *.
  unfold reconcile_from, scanLines, store. rewrite (tokens_lines (A ++ h :: B)) by (by apply lines_of_store).
  assert (∃ e0 A', A ++ h :: B = e0 :: A' ∧ ∃ O, A ++ [h] = e0 :: O) as (e0 & A' & E0 & O & EO).
  { destruct A as [|a A]; [by exists h, B; split; [|exists []]|by exists a, (A ++ h :: B); split; [|exists (A ++ [h])]]. }
  assert (storable e0) as He0 by (rewrite E0 in Hst; by inversion Hst).
  assert (Seq e0 = seal_first S) as Hseq0 by (rewrite EO in Hn; by destruct Hn).
  assert (scan_loop first_line (ended (map stored_line (A ++ h :: B))) 0 0 None = (Some e0, Some (ScanFn SStop))) as ->.
  { rewrite E0. cbn [map]. change (ended (stored_line e0 :: ?x)) with ((stored_line e0 ++ [10]) :: ended x).
    rewrite (scan_line _ e0) by (by apply storable_line). unfold first_line. by rewrite (lo_decode e0 _ (storable_line e0 He0)). }
  cbn [scan_result]. rewrite length_app in Hlen. cbn [length] in Hlen.
  rewrite (proj2 (Z.ltb_ge (seg_last (new_segment S h)) (Seq e0))) by (cbn; lia).
  rewrite (proj2 (Z.ltb_ge (Seq e0) (seg_first (new_segment S h)))) by (cbn; lia).
  pose proof (sealed_form_agree A h) as Hag. rewrite EO in Hag. inversion Hag as [|s0 x es y Has Hag' Es]; subst x y.
  rewrite <- Es in Hls. inversion Hls as [|x l y ls' Hl1 Hl2]; subst x y ls.
  destruct (overlap_open (new_segment S h) s0 es l ls' Hl1 Hl2) as (oc & Ho & Hoc).
  rewrite Hseg. destruct Has as [Hs0 _]. rewrite <- Hs0, Ho. cbn [mbind result_bind].
  change (A ++ h :: B) with (A ++ [h] ++ B). rewrite app_assoc, (map_app stored_line). unfold ended at 1. rewrite map_app.
  fold (ended (map stored_line (A ++ [h]))). pose proof Hst as Hst'. change (A ++ h :: B) with (A ++ [h] ++ B) in Hst'. rewrite app_assoc in Hst'.
  apply Forall_app in Hst' as [HAh _].
  destruct (overlap_scan (new_segment S h) (s0 :: es) (A ++ [h]) (map stored_line (A ++ [h]))) with
    (next := seal_first S) (rest := map (λ l, l ++ [10]) (map stored_line B)) (off := 0) (n := 0) (oc := oc) as (oc' & ->); try done.
  - rewrite Es. apply sealed_form_agree.
  - by apply lines_of_store.
  - cbn. rewrite length_app. cbn [length]. lia.
  - by destruct A.
  - unfold seal_first. lia.
  - by rewrite <- Hseq0, <- Hs0.
  - cbn [scan_result]. rewrite (proj2 (Z.ltb_ge _ _)) by lia. done.
Qed.

(** ** The ledger that [openLedger] builds *)

(** A directory that holds a record: the sealed run and the tail, proven. *)
Record holds_record (pubKey path : bytes) (d : dir) (S : list (segment * list Event)) (T : list Event) : Prop := {
  h_path : parseSegmentName path = None ∧ is_debris path = false;
  h_sealed : sealed_ok d S;
  h_tail : read_file d path = Some (store T);
  h_storable : Forall storable T;
  h_signed : Forall (proven pubKey false) T;
  h_chain : linked 0 [] (sealed_events S ++ T);
  h_bound : Z.of_nat (length (sealed_events S ++ T)) < two64;
}.

Lemma repr_holds pubKey l d S T : repr pubKey l d S T → holds_record pubKey (l_path l) d S T.
Proof. intros Hr. split; try apply Hr. rewrite <- (r_lastSeq _ _ _ _ _ Hr). apply Hr. Qed.

Definition opened_ledger (path : bytes) (S : list (segment * list Event)) (T : list Event) : Ledger :=
  set_file (set_last (fresh_ledger path S.*1 (Z.of_nat (length (sealed_events S))) (last_hash [] (sealed_events S)))
    (Z.of_nat (length (sealed_events S ++ T))) (last_hash [] (sealed_events S ++ T))) true.

Lemma opened_repr pubKey path d S T : holds_record pubKey path d S T → repr pubKey (opened_ledger path S T) d S T.
Proof. intros []. by split. Qed.

Lemma sealed_end_ok d S rest : sealed_ok d S → linked 0 [] (sealed_events S ++ rest) →
  sealed_end d S.*1 = Ok (Z.of_nat (length (sealed_events S)), last_hash [] (sealed_events S)).
Proof.
  intros [Hl Hs] Hch. unfold sealed_end. destruct (last S.*1) as [seg|] eqn:E.
  - rewrite <- (sealed_last S seg rest (stored_closes d S Hs) Hch E).
    destruct S as [|[seg' es] S _] using rev_ind; [done|]. rewrite fmap_app in E. cbn [fmap list_fmap fst] in E. rewrite last_snoc in E.
    injection E as ->. apply Forall_app in Hs as [_ [(Hc & ls & Hls & Hf) _]%Forall_cons]. cbn [fst snd] in *.
    rewrite Hf, (segmentEnd_ok seg es ls) by done. f_equal. f_equal. unfold sealed_events. rewrite fmap_app, concat_app. cbn.
    rewrite app_nil_r, last_hash_app. destruct Hc as [_ (h & Hh & _)]. unfold last_hash. by rewrite Hh.
  - apply last_None in E. by destruct S.
Qed.

Lemma readChainState_ok pubKey path d S T : holds_record pubKey path d S T →
  readChainState (fresh_ledger path S.*1 (Z.of_nat (length (sealed_events S))) (last_hash [] (sealed_events S))) (store T) =
    Ok (set_last (fresh_ledger path S.*1 (Z.of_nat (length (sealed_events S))) (last_hash [] (sealed_events S)))
      (Z.of_nat (length (sealed_events S ++ T))) (last_hash [] (sealed_events S ++ T))).
Proof.
  intros []. unfold readChainState, store. rewrite (tokens_lines T) by (by apply lines_of_store).
  apply linked_app in h_chain0 as [_ Hl]. rewrite length_app in h_bound0.
  rewrite (chain_state_ok _ _ T (map stored_line T)); [|by apply lines_of_store|].
  2:{ intros _ _ e He. destruct T as [|e' T]; [done|]. injection He as ->. destruct Hl as (H1 & H2 & _). cbn [length] in h_bound0.
      cbn [fresh_ledger sealedSeq sealedHash]. rewrite u64_small by lia. by rewrite H1. }
  cbn [mbind result_bind mret result_ret fresh_ledger lastSeq lastHash]. f_equal. f_equal.
  - destruct (last T) as [e|] eqn:E; cbn [fst]; [|apply last_None in E as ->; by rewrite app_nil_r].
    rewrite last_lookup in E. rewrite (linked_seq _ _ _ _ _ Hl E), length_app. destruct T; [done|]. cbn [length pred]. lia.
  - rewrite last_hash_app. symmetry. unfold last_hash at 1. by destruct (last T).
Qed.

(** The end of [openLedger], once the tail is reconciled. *)
Lemma open_reconciled pubKey d d' ds path stamp S T : sealed_ok d S → holds_record pubKey path d' S T →
  (match last S.*1 with
   | Some newest => reconcileTail all_ok (sweepDebris d) path stamp newest
   | None => (sweepDebris d, [sweepDebris d], Ok ())
   end) = (d', ds, Ok ()) →
  New all_ok d path stamp = (d', Ok (opened_ledger path S T)).
Proof.
  intros Hs Hh Hrec. unfold New, openLedger. cbn [all_ok negb].
  pose proof (sealed_ok_sweep d S Hs) as Hs'. rewrite (proj1 Hs').
  rewrite (sealed_end_ok _ S T Hs' (h_chain _ _ _ _ _ Hh)), Hrec.
  pose proof (h_tail _ _ _ _ _ Hh) as Hf. assert (d' !! path = Some (NFile (store T))) as Hd.
  { unfold read_file in Hf. destruct (d' !! path) as [[]|]; congruence. }
  rewrite Hd, Hf. by rewrite (readChainState_ok pubKey path d' S T Hh).
Qed.

Lemma holds_sweep pubKey path d S T : holds_record pubKey path d S T → holds_record pubKey path (sweepDebris d) S T.
Proof. intros []. split; try done; [by apply sealed_ok_sweep|]. rewrite read_file_sweep; [done|apply h_path0]. Qed.

(** Opening a directory that holds a record changes nothing but debris. *)
Lemma open_clean pubKey d path stamp S T : holds_record pubKey path d S T →
  New all_ok d path stamp = (sweepDebris d, Ok (opened_ledger path S T)).
Proof.
  intros Hh. pose proof (holds_sweep _ _ _ _ _ Hh) as Hh'. eapply open_reconciled; [apply Hh|exact Hh'|].
  destruct (last S.*1) as [newest|] eqn:E; [|reflexivity]. unfold reconcileTail. rewrite (h_tail _ _ _ _ _ Hh').
  rewrite reconcile_none; [reflexivity|apply Hh|]. by eapply after_sealed; [apply Hh|apply Hh|].
Qed.

(** Opening over an interrupted seal finishes it. *)
Lemma open_overlapped pubKey d path stamp S A h B : overlapped path S A h B d →
  parseSegmentName path = None ∧ is_debris path = false →
  Forall storable (A ++ h :: B) → Forall (proven pubKey false) (A ++ h :: B) →
  linked 0 [] (sealed_events S ++ A ++ h :: B) → Z.of_nat (length (sealed_events S ++ A ++ h :: B)) < two64 →
  ∃ d', New all_ok d path stamp = (d', Ok (opened_ledger path (S ++ [(new_segment S h, sealed_form A h)]) B)) ∧
    holds_record pubKey path d' (S ++ [(new_segment S h, sealed_form A h)]) B.
Proof.
  intros Ho Hp Hst Hsg Hch Hb. pose proof (same_sealed S A h B) as Hsame.
  destruct (seal_numbered_A S A h B Hch) as [_ Hlen]. rewrite !length_app in Hb. cbn [length] in Hb.
  assert (Seq h < two64) as Hbh by (unfold seal_first in Hlen; rewrite length_app in Hlen; cbn [length] in Hlen; lia).
  assert (overlapped path S A h B (sweepDebris d)) as Ho'.
  { destruct Ho as [Hs Hf]. split; [by apply sealed_ok_sweep|]. rewrite read_file_sweep; [done|apply Hp]. }
  destruct (replaceTail all_ok (sweepDebris d) path stamp (length (store (A ++ [h])))) as [[d' ds] r] eqn:E.
  destruct (replaceTail_states path S A h B Hp all_ok (sweepDebris d) stamp Ho' _ _ _ E) as [_ Hdone].
  assert (r = Ok ()) as -> by (unfold replaceTail in E; cbn in E; by injection E as _ _ <-).
  destruct (Hdone eq_refl) as [Hs Hf]. exists d'.
  assert (holds_record pubKey path d' (S ++ [(new_segment S h, sealed_form A h)]) B) as Hh.
  { split; try done.
    - by apply Forall_app in Hst as [_ [_ ?]%Forall_cons].
    - by apply Forall_app in Hsg as [_ [_ ?]%Forall_cons].
    - by eapply linked_same.
    - apply Forall2_length in Hsame. rewrite <- Hsame, !length_app. cbn [length]. lia. }
  split; [|done]. eapply open_reconciled; [apply Ho|exact Hh|].
  rewrite fmap_app. cbn [fmap list_fmap fst]. rewrite last_snoc. unfold reconcileTail. rewrite (proj2 Ho').
  rewrite (reconcile_overlap _ path S A h B) by done. by rewrite Nat2Z.id.
Qed.
End Torn.
