(* ===== verification/LedgerProps.v ===== *)
(** * The ledger's properties

    What the ledger promises its callers, on every branch: appends extend the
    record by exactly one linked, signed line; a frozen ledger is final; a torn
    append and an interrupted seal lose nothing that was acknowledged. *)

From stdpp Require Import gmap relations.
From S2P Require Import Prelude Utf8 GoJson CanonicalJson CanonicalJsonFacts GoStruct Crypto Event Lines Stored Chain Container ContainerFacts Ledger LedgerFacts Recovery.

(** ** The boot after a torn append *)

Section Boot.
Context `{P : Primitives} `{L : !PrimitiveLaws P} `{G : Gzip} `{GL : !GzipLaws G} `{HV : HeadVerifier} `{HL : !HeadVerifierLaws HV}.

Lemma proven_container pubKey path T : Forall (proven pubKey false) T → Forall (proven pubKey false) (map (mark_container path) T).
Proof. intros H. apply Forall_map. eapply Forall_impl; [exact H|]. by intros e. Qed.

Lemma parse_last name r : parseSegmentName name = Some r → last name = Some 122.
Proof. destruct r as [f l]. intros [-> _]%parseSegmentName_ok. unfold segmentName. rewrite !app_assoc, last_app. done. Qed.

Lemma torn_name_last path suffix : ∃ c, last (torn_name path suffix) = Some c ∧ c ≤ 102.
Proof.
  pose proof (hex_encode_ascii _ (sha256_bytes suffix)) as Ha. unfold torn_name. rewrite app_assoc, last_app.
  destruct (last (hex_encode (sha256 suffix))) as [c|] eqn:El.
  - exists c. split; [done|]. rewrite Forall_forall in Ha. specialize (Ha c (last_Some_elem_of _ _ El)). lia.
  - apply last_None in El. pose proof (sha256_len suffix) as Hl. by destruct (sha256 suffix).
Qed.

(** The sidecar is neither a segment, nor debris, nor the tail. *)
Lemma torn_name_ok path suffix : parseSegmentName (torn_name path suffix) = None ∧ torn_name path suffix ≠ path ∧
  is_debris (torn_name path suffix) = false.
Proof.
  destruct (torn_name_last path suffix) as (c & El & Hc). split; [|split].
  - destruct (parseSegmentName _) as [r|] eqn:E; [|done]. apply parse_last in E. rewrite E in El. injection El. lia.
  - intros E. apply (f_equal length) in E. unfold torn_name in E. rewrite !length_app in E. cbn in E. lia.
  - destruct (is_debris _) eqn:E; [|done]. unfold is_debris in E. apply andb_true_iff in E as [E _].
    apply HasSuffix_split in E. rewrite E, last_app in El. injection El. lia.
Qed.

(** Without segments the source is the tail's records. *)
Lemma record_source_tail d path T : sealed_ok d [] → Forall storable T →
  record_source d path (Some (store T)) = (map (mark_container path) T, None).
Proof.
  intros [Hl _] HT. unfold record_source, streamLines. rewrite Hl. cbn [stream_segments fmap list_fmap last]. unfold store.
  by rewrite (streamTail_collect d path T) by (done || by apply lines_of_store).
Qed.

Lemma boundary_fold (T : list Event) (b : Boundary) (path : bytes) :
  (foldl (λ v e, (run_visit (Some (at_boundary (V := unit) None)) v e).1) (b, tt) (map (mark_container path) T)).1 =
    match last T with Some e => mkBoundary (Seq e) (EntryHash e) | None => b end.
Proof.
  revert b. induction T as [|e T IH]; intros b; [done|]. cbn [map foldl]. cbn [run_visit at_boundary fst snd]. rewrite IH.
  rewrite last_cons. by destruct (last T).
Qed.

(** [verified_before] on a tail whose complete prefix is [store T]. *)
Lemma verified_before_ok pubKey d path data T : sealed_ok d [] → d !! path = Some (NFile data) →
  take (completeTailEnd data) data = store T → T ≠ [] → Forall storable T → Forall (proven pubKey false) T →
  linked 0 [] T → Z.of_nat (length T) < two64 →
  verified_before (V := unit) all_ok d path pubKey None None tt (λ _, true) =
    (if (completeTailEnd data <? length data)%nat
     then <[path := NFile (store T)]> (<[torn_name path (drop (completeTailEnd data) data) := NFile (drop (completeTailEnd data) data)]> d)
     else d,
     Ok (Z.of_nat (length T), mkBoundary (Z.of_nat (length T)) (last_hash [] T))).
Proof.
  intros Hs Hd Ht HT Hst Hp Hl Hb. unfold verified_before. rewrite Hd, Ht, (record_source_tail d path T) by done.
  destruct (verifyChain_passes (S := stream_err Empty_set) pubKey (Some (at_boundary (V := unit) None)) ltac:(done)
    (map (mark_container path) T) (no_boundary, tt)) as (s & -> & Hv).
  { by rewrite length_map. }
  { by eapply linked_same; [apply same_container|]. }
  { by apply proven_container. }
  rewrite Hv, boundary_fold, length_map.
  destruct (last T) as [e|] eqn:E; [|by apply last_None in E].
  assert (Seq e = Z.of_nat (length T)) as Hseq.
  { rewrite last_lookup in E. rewrite (linked_seq _ _ _ _ _ Hl E). destruct T; [done|]. cbn [length pred]. lia. }
  rewrite (proj2 (Z.eqb_neq _ _)) by (destruct T; [done|cbn [length]; lia]). cbn [negb b_seq].
  assert (EntryHash e = last_hash [] T) as <- by (unfold last_hash; by rewrite E). rewrite <- Hseq.
  destruct (_ <? _)%nat; [|done]. unfold trimPreservedSuffix. cbn [all_ok negb]. by rewrite Ht.
Qed.

(** The boot over a tail whose complete prefix is [store T]: the ledger stands
    after [T], and cut-off bytes are kept beside it. *)
Lemma boot_prefix pubKey d path stamp data T : sealed_ok d [] → d !! path = Some (NFile data) →
  parseSegmentName path = None ∧ is_debris path = false →
  take (completeTailEnd data) data = store T → T ≠ [] → Forall storable T → Forall (proven pubKey false) T →
  linked 0 [] T → Z.of_nat (length T) < two64 →
  ∃ d', OpenVerified (V := unit) all_ok d path stamp pubKey None None tt (λ _, true) = (d', Ok (opened_ledger path [] T, Z.of_nat (length T))) ∧
    repr pubKey (opened_ledger path [] T) d' [] T ∧
    ((completeTailEnd data < length data)%nat →
      read_file d' (torn_name path (drop (completeTailEnd data) data)) = Some (drop (completeTailEnd data) data)).
Proof.
  intros Hs Hd Hp Ht HT Hst Hpr Hl Hb. pose proof (verified_before_ok pubKey d path data T Hs Hd Ht HT Hst Hpr Hl Hb) as Hv.
  set (sfx := drop (completeTailEnd data) data) in *. destruct (torn_name_ok path sfx) as (Htn & Htne & Hdeb).
  match type of Hv with _ = (?x, _) => set (d1 := x) in * end.
  assert (holds_record pubKey path d1 [] T) as Hh.
  { split; try done.
    - unfold d1. case_match; [|done]. by apply sealed_ok_insert; [apply Hp|]; apply sealed_ok_insert.
    - unfold d1. destruct (Nat.ltb_spec (completeTailEnd data) (length data)); [apply read_file_insert|].
      unfold read_file. rewrite Hd. f_equal. rewrite <- Ht. symmetry. apply firstn_all2. lia. }
  exists (sweepDebris d1). pose proof (open_clean pubKey d1 path stamp [] T Hh) as Ho.
  split; [|split; [apply opened_repr, holds_sweep, Hh|]].
  - unfold OpenVerified. rewrite Hv. cbn [snd].
    assert (openLedger all_ok d path stamp (λ d0, let '(d', r) := verified_before (V := unit) all_ok d0 path pubKey None None tt (λ _, true) in
      (d', r ≫= λ _, Ok ())) = (sweepDebris d1, Ok (opened_ledger path [] T))) as ->.
    { rewrite <- Ho. unfold New, openLedger. rewrite Hv. done. }
    cbn [opened_ledger set_file set_last lastSeq lastHash b_seq b_hash]. cbn [sealed_events fmap list_fmap concat app].
    by rewrite Z.eqb_refl, beq_refl.
  - intros Hlt. rewrite read_file_sweep by done. unfold d1. rewrite (proj2 (Nat.ltb_lt _ _) Hlt).
    rewrite read_file_other by (by apply not_eq_sym). apply read_file_insert.
Qed.
End Boot.

(** ** What a successful append has passed *)

Section Append.
Context `{P : Primitives} `{G : Gzip}.

Lemma AppendPrepared_ok l d ty ring raw kp now w l' d' e : AppendPrepared l d ty ring raw kp now w = (l', d', Ok e) →
  verifyTailBeforeAppend l (tail_of l d) kp = Ok () ∧ w = Written ∧ frozenReason l = NotFrozen ∧
  ∃ sig line, e = set_Sig (next_event l ty ring raw now) sig ∧ MarshalJSON e = Ok line ∧
    l' = set_last l (Seq e) (EntryHash e) ∧ d' = append_file d (l_path l) (line ++ [10]) ∧
    ∀ n, AppendPrepared l d ty ring raw kp now (Broken n) =
      (uncertainAppend l, append_file d (l_path l) (take n (line ++ [10])), Err LUncertain).
Proof.
  unfold AppendPrepared. destruct (is_frozen l) eqn:E0; [intros [=]|]. destruct (l_locked l); [|intros [=]]. cbn [negb].
  destruct (sealErr l); [intros [=]|].
  destruct (verifyTailBeforeAppend l (tail_of l d) kp) as [[]|]; [|intros [=]]. destruct (payloadModelID raw); [|intros [=]].
  destruct (SignB64 _ _) as [sig|]; [|intros [=]].
  destruct (MarshalJSON (set_Sig (next_event l ty ring raw now) sig)) as [line|] eqn:Em; [|intros [=]].
  destruct (_ <? _); [intros [=]|]. destruct w; [|intros [=]]. intros [= <- <- <-].
  split; [done|]. split; [done|]. split; [unfold is_frozen in E0; by destruct (frozenReason l)|].
  exists sig, line. done.
Qed.
End Append.

(** ** Runs of operations *)

Section Steps.
Context `{P : Primitives} `{G : Gzip} `{HV : HeadVerifier}.

(** One call on the ledger, with any arguments and any outcome of its file
    operations. *)
Inductive ledger_step : Ledger * dir → Ledger * dir → Prop :=
| step_append l d ty ring raw kp now w : ledger_step (l, d) (AppendPrepared l d ty ring raw kp now w).1
| step_seal ok l d stamp head : ledger_step (l, d) (Seal ok l d stamp head).1.1
| step_recover ok l d stamp pubKey hs : ledger_step (l, d) (RecoverSeal ok l d stamp pubKey hs).1
| step_freeze l d reason : ledger_step (l, d) (SetFrozen l reason, d)
| step_model l d id : ledger_step (l, d) (SetModelID l id, d)
| step_close l d : ledger_step (l, d) (Close l, d).

Lemma frozen_step l d x : is_frozen l = true → ledger_step (l, d) x →
  is_frozen x.1 = true ∧ x.2 = d ∧ lastSeq x.1 = lastSeq l ∧ lastHash x.1 = lastHash l.
Proof.
  intros Hf Hs. inversion Hs; subst; cbn [fst snd].
  - unfold AppendPrepared. by rewrite Hf.
  - unfold Seal. by rewrite Hf.
  - unfold RecoverSeal. by rewrite Hf.
  - unfold SetFrozen. unfold is_frozen in *. by destruct (frozenReason l) eqn:E; rewrite ?E.
  - done.
  - done.
Qed.
End Steps.

Section Properties.
Context `{P : Primitives} `{L : !PrimitiveLaws P} `{G : Gzip} `{GL : !GzipLaws G} `{HV : HeadVerifier} `{HL : !HeadVerifierLaws HV}.

(** C1. An append extends the record by exactly one record: on a ledger that
    stands over a sound directory, a storable payload is appended, the tail
    grows by that record's line, the ledger stands after it, and the new
    directory is sound again (linked, signed under the key, storable). *)
Theorem append_extends_record l d S T ty ring raw now kp : repr (PublicKey kp) l d S T → appendable l ty ring raw now kp →
  ∃ l' d' e, AppendPrepared l d ty ring raw kp now Written = (l', d', Ok e) ∧
    repr (PublicKey kp) l' d' S (T ++ [e]) ∧
    EType e = ty ∧ Ring e = ring ∧ Payload e = raw ∧ Timestamp e = now ∧ Seq e = lastSeq l + 1.
Proof. apply append_repr. Qed.

(** Every append is guarded by the tail on disk: when [AppendPrepared]
    succeeds, the last record the file held (or the sealed run, when the file
    held none) was the ledger's own boundary, so two writers cannot fork the
    record; the new record names that boundary and takes the next number. *)
Theorem append_guards_tail l d ty ring raw kp now w l' d' e : AppendPrepared l d ty ring raw kp now w = (l', d', Ok e) →
  ∃ data evts, tail_of l d = Some data ∧ readTailEvents tail_win data tailCheckDepth = Ok evts ∧
    match last evts with
    | Some x => Seq x = lastSeq l ∧ EntryHash x = lastHash l
    | None => lastSeq l = sealedSeq l ∧ lastHash l = sealedHash l
    end ∧
    Seq e = u64 (lastSeq l + 1) ∧ (1 < Seq e → Prev e = lastHash l) ∧
    lastSeq l' = Seq e ∧ lastHash l' = EntryHash e.
Proof.
  intros (Hv & _ & _ & sig & line & -> & _ & -> & _ & _)%AppendPrepared_ok. unfold verifyTailBeforeAppend in Hv.
  destruct (tail_of l d) as [data|]; [|done]. apply bind_ok in Hv as (evts & He & Hv). exists data, evts. split; [done|].
  split; [by destruct (readTailEvents _ _ _); cbn in He; simplify_eq|].
  split; [|split; [done|split; [|done]]].
  - destruct (last evts) as [x|]; [|destruct (_ || _) eqn:E; [done|]; b2p; done].
    apply bind_ok in Hv as (_ & _ & Hv). destruct (_ =? _) eqn:E1; [|done]. destruct (beq _ _) eqn:E2; [|done]. b2p. done.
  - intros Hlt. cbn in *. by rewrite (proj2 (Z.ltb_lt _ _) Hlt).
Qed.

(** A frozen ledger is final: from the moment it is frozen no sequence of
    calls, whatever their arguments, writes to the directory, moves the
    boundary or thaws it. *)
Theorem frozen_is_final l d x : is_frozen l = true → rtc ledger_step (l, d) x →
  is_frozen x.1 = true ∧ x.2 = d ∧ lastSeq x.1 = lastSeq l ∧ lastHash x.1 = lastHash l.
Proof.
  intros Hf Hr. remember (l, d) as y eqn:Ey. revert l d Hf Ey. induction Hr as [|y z x Hs Hr IH]; intros l d Hf ->; [done|].
  destruct (frozen_step l d z Hf Hs) as (H1 & H2 & H3 & H4). destruct z as [l1 d1]. cbn in *. subst d1.
  destruct (IH l1 d H1 eq_refl) as (? & -> & -> & ->). auto.
Qed.


(** [d] with temporary files of the ledger's own, whole or partial, added. *)
Definition with_debris (junk : list (bytes * bytes)) (d : dir) : dir :=
  foldr (λ kv d, <[kv.1 := NFile kv.2]> d) d junk.

Lemma seal_state_junk path S A h B d junk : parseSegmentName path = None ∧ is_debris path = false →
  Forall (λ kv, is_debris kv.1 = true) junk → seal_state path S A h B d → seal_state path S A h B (with_debris junk d).
Proof. intros Hp Hj Hs. induction Hj as [|[n c] junk Hn _ IH]; [done|]. cbn. by apply seal_state_debris. Qed.

(** C11. A seal can be interrupted anywhere: whichever of its file operations
    fail, every directory it passes through, with any temporary file beside
    it whole or half written, reads as the record it read as before. *)
Theorem seal_never_loses_record pubKey ok l d S A h B stamp l' d' ds r x junk : repr pubKey l d S (A ++ h :: B) →
  EType h = EventSystemWitnessed → Seal ok l d stamp (Seq h) = (l', d', ds, r) → x ∈ d' :: ds →
  Forall (λ kv, is_debris kv.1 = true) junk →
  reads_as (with_debris junk x) (l_path l) (sealed_events S ++ A ++ h :: B).
Proof.
  intros Hr Ht Hs Hx Hj. destruct (Seal_states pubKey ok l d S A h B stamp Hr Ht _ _ _ _ Hs) as (Hall & _).
  pose proof (repr_head_le _ _ _ _ _ _ _ Hr) as Hle. pose proof (r_bound _ _ _ _ _ Hr) as Hb.
  rewrite Forall_forall in Hall. eapply (seal_state_reads (l_path l) S A h B); [apply Hr|apply Hr|by eapply repr_sigs|lia|..].
  apply seal_state_junk; [apply Hr|done|by apply Hall].
Qed.

(** A completed seal moves the boundary and nothing else: the sealed
    segment holds the records through the head without their signatures but
    the head's, the tail keeps the rest, and the ledger stands where it stood. *)
Theorem seal_moves_boundary pubKey l d S A h B stamp l' d' ds r ok : repr pubKey l d S (A ++ h :: B) →
  EType h = EventSystemWitnessed → Seal ok l d stamp (Seq h) = (l', d', ds, r) →
  (r = Ok () → repr pubKey l' d' (S ++ [(new_segment S h, sealed_form A h)]) B) ∧
  (r ≠ Ok () → l' = l ∧ sealed_ok d' S ∨ sealErr l' ≠ None ∧ lastSeq l' = lastSeq l ∧ lastHash l' = lastHash l).
Proof.
  intros Hr Ht Hs. destruct (Seal_states pubKey ok l d S A h B stamp Hr Ht _ _ _ _ Hs) as (_ & H1 & H2).
  split; [done|]. intros Hne. destruct (H2 Hne) as [[-> [? _]]|?]; auto.
Qed.

(** Opening finishes an interrupted seal: over any directory a seal can
    leave, the ledger opens at the boundary it had acknowledged, over a sound
    directory that holds the same records. *)
Theorem open_finishes_seal pubKey ok l d S A h B stamp stamp' l' d' ds r x junk : repr pubKey l d S (A ++ h :: B) →
  EType h = EventSystemWitnessed → Seal ok l d stamp (Seq h) = (l', d', ds, r) → x ∈ d' :: ds →
  Forall (λ kv, is_debris kv.1 = true) junk →
  ∃ x' l2 S' T', New all_ok (with_debris junk x) (l_path l) stamp' = (x', Ok l2) ∧ repr pubKey l2 x' S' T' ∧
    lastSeq l2 = lastSeq l ∧ lastHash l2 = lastHash l ∧
    Forall2 same_record (sealed_events S ++ A ++ h :: B) (sealed_events S' ++ T').
Proof.
  intros Hr Ht Hs Hx Hj. destruct (Seal_states pubKey ok l d S A h B stamp Hr Ht _ _ _ _ Hs) as (Hall & _).
  rewrite Forall_forall in Hall. pose proof (seal_state_junk _ _ _ _ _ _ junk (r_path _ _ _ _ _ Hr) Hj (Hall x Hx)) as Hst.
  pose proof (repr_holds _ _ _ _ _ Hr) as [Hp Hso Hta Hsto Hsi Hch Hbo].
  rewrite (r_lastSeq _ _ _ _ _ Hr), (r_lastHash _ _ _ _ _ Hr). pose proof (same_sealed S A h B) as Hsame.
  assert (∀ l0, Forall2 same_record l0 l0) as Hrefl by (intros l0; induction l0; constructor; auto using same_refl).
  assert (∀ x', holds_record pubKey (l_path l) x' (S ++ [(new_segment S h, sealed_form A h)]) B →
    let l2 := opened_ledger (l_path l) (S ++ [(new_segment S h, sealed_form A h)]) B in
    lastSeq l2 = Z.of_nat (length (sealed_events S ++ A ++ h :: B)) ∧ lastHash l2 = last_hash [] (sealed_events S ++ A ++ h :: B)) as Hend.
  { intros x' _. cbn. rewrite (last_hash_same [] _ _ Hsame). by rewrite (Forall2_length _ _ _ Hsame). }
  destruct Hst as [[Hs1 Hf1]|[Ho|[Hs1 Hf1]]].
  - assert (holds_record pubKey (l_path l) (with_debris junk x) S (A ++ h :: B)) as Hh by (by split).
    eexists _, _, S, (A ++ h :: B). split; [by apply (open_clean pubKey)|]. split; [apply opened_repr, holds_sweep, Hh|]. auto.
  - destruct (open_overlapped pubKey _ (l_path l) stamp' S A h B Ho) as (x' & Hx' & Hh); try done.
    destruct (Hend _ Hh). eexists x', _, _, B. split; [exact Hx'|]. split; [by apply opened_repr|]. auto.
  - assert (holds_record pubKey (l_path l) (with_debris junk x) (S ++ [(new_segment S h, sealed_form A h)]) B) as Hh.
    { split; try done; [by apply Forall_app in Hsto as [_ [_ ?]%Forall_cons]|by apply Forall_app in Hsi as [_ [_ ?]%Forall_cons]|by eapply linked_same|].
      by rewrite <- (Forall2_length _ _ _ Hsame). }
    destruct (Hend _ Hh). eexists _, _, _, B. split; [by apply (open_clean pubKey)|]. split; [apply opened_repr, holds_sweep, Hh|]. auto.
Qed.

(** A birth never lands on a record: [NewForBirth] succeeds only when the
    directory has neither a tail nor a segment. *)
Theorem birth_requires_empty ok d path stamp d' l : NewForBirth ok d path stamp = (d', Ok l) → path ≠ [] →
  d !! path = None ∧ segmentFiles d = [].
Proof.
  unfold NewForBirth, openLedger. destruct (ok IoDirLock); [|done]. cbn [negb]. intros H Hp. unfold RecordArtifact in H.
  destruct (d !! path) eqn:E.
  { rewrite (proj2 (beq_false path []) Hp) in H. done. }
  split; [done|]. destruct (listSegments d) as [segs|] eqn:El; [|done]. cbn [mbind result_bind] in H.
  destruct segs as [|s segs]; [by apply listSegments_ok in El as [<- _]|].
  cbn [mret result_ret] in H. pose proof (segment_names d (s :: segs) s El ltac:(by left)) as Hn.
  destruct (beq (seg_name s) []) eqn:Eb; [|done]. b2p. by rewrite Eb in Hn.
Qed.

(** The writer's limit is one byte above the reader's: a line of exactly
    [MaxEventLineBytes] bytes passes the size check of [AppendPrepared], and
    the scanner that every later reading uses refuses it with its newline. *)
Theorem longest_line_unreadable {St E} (fn : St → bytes → Z → Z → Z → St * option E) line st : one_line line →
  Z.of_nat (length line) = MaxEventLineBytes →
  (MaxEventLineBytes <? Z.of_nat (length line)) = false ∧ scanLines fn (line ++ [10]) false st = (st, Some ScanTooLong).
Proof.
  intros Hl Hlen. split; [apply Z.ltb_ge; lia|]. unfold scanLines. rewrite (tokens_line line []) by done. cbn [scan_loop tokens].
  assert (too_long (line ++ [10]) = true) as ->; [|done].
  unfold too_long. rewrite last_snoc, bool_decide_true, length_app by done. cbn [length]. apply Z.ltb_lt. lia.
Qed.
End Properties.

(** ** Witnesses *)

(** A compressor that stores, a directory with a tail of two records, and the
    ledger that stands over it. *)
Definition plain_gzip : Gzip := {| gzip b := b; gunzip b := Some (b, false) |}.

Lemma plain_gzip_laws : GzipLaws plain_gzip.
Proof. done. Qed.

Definition sample_path : bytes := bs "ledger.jsonl".
Definition sample_dir : dir := {[ sample_path := NFile (store sample_chain) ]}.
Definition sample_ledger : Ledger := opened_ledger sample_path [] sample_chain.
Definition sample_now : bytes := bs "2026-01-02T03:04:06Z".
Definition sample_payload : bytes := js "{'n':3}".

Lemma wf_sample e : 0 ≤ Seq e < two64 → wf_text (Prev e) → wf_text (Timestamp e) → wf_text (EType e) → int64_ok (Ring e) = true →
  wf_text (Content e) → canonical (Payload e) → head (Payload e) = Some 123 → wf_text (Sig e) → wf_event e.
Proof. by split. Qed.

Lemma sample_storable : Forall storable sample_chain.
Proof.
  repeat (apply Forall_cons; split; [split; [apply wf_sample|split; [by repeat split|vm_compute; reflexivity]]|]); try apply Forall_nil_2;
    try (split; vm_compute; reflexivity); try (vm_compute; reflexivity).
  all: split; [vm_compute; discriminate|vm_compute; reflexivity].
Qed.

Lemma sample_repr : repr (G := plain_gzip) (PublicKey toy_pair) sample_ledger sample_dir [] sample_chain.
Proof.
  apply opened_repr. split.
  - vm_compute. split; reflexivity.
  - split; [vm_compute; reflexivity|apply Forall_nil_2].
  - unfold read_file, sample_dir. by rewrite lookup_singleton_eq.
  - exact sample_storable.
  - exact (proj2 sample_proven).
  - exact (proj1 sample_proven).
  - vm_compute. reflexivity.
Qed.

Lemma sample_appendable : appendable sample_ledger EventRelationshipUpsert 0 sample_payload sample_now toy_pair.
Proof.
  split.
  - split; vm_compute; reflexivity.
  - split; vm_compute; reflexivity.
  - reflexivity.
  - vm_compute. reflexivity.
  - reflexivity.
  - vm_compute. reflexivity.
  - exact toy_pair_whole.
  - eexists. split; [vm_compute; reflexivity|]. vm_compute. reflexivity.
  - vm_compute. reflexivity.
Qed.

Lemma append_extends_record_witness : ∃ l' d' e,
  AppendPrepared sample_ledger sample_dir EventRelationshipUpsert 0 sample_payload toy_pair sample_now Written = (l', d', Ok e) ∧
  repr (G := plain_gzip) (PublicKey toy_pair) l' d' [] (sample_chain ++ [e]) ∧ Payload e = sample_payload ∧ Seq e = 3.
Proof.
  destruct (append_extends_record (G := plain_gzip) sample_ledger sample_dir [] sample_chain
    EventRelationshipUpsert 0 sample_payload sample_now toy_pair sample_repr sample_appendable) as (l' & d' & e & H1 & H2 & _ & _ & H3 & _ & H4).
  exists l', d', e. split; [exact H1|]. split; [exact H2|]. split; [exact H3|exact H4].
Defined.

Lemma append_guards_tail_witness : ∃ e data evts,
  tail_of sample_ledger sample_dir = Some data ∧ readTailEvents tail_win data tailCheckDepth = Ok evts ∧
  match last evts with
  | Some x => Seq x = lastSeq sample_ledger ∧ EntryHash x = lastHash sample_ledger
  | None => lastSeq sample_ledger = sealedSeq sample_ledger ∧ lastHash sample_ledger = sealedHash sample_ledger
  end ∧ Seq e = 3 ∧ (1 < Seq e → Prev e = lastHash sample_ledger).
Proof.
  destruct (append_repr (G := plain_gzip) sample_ledger sample_dir [] sample_chain
    EventRelationshipUpsert 0 sample_payload sample_now toy_pair sample_repr sample_appendable) as (l' & d' & e & H1 & _).
  destruct (append_guards_tail sample_ledger sample_dir EventRelationshipUpsert 0 sample_payload toy_pair sample_now
    Written l' d' e H1) as (data & evts & H2 & H3 & H4 & H5 & H6 & _).
  exists e, data, evts. split; [exact H2|]. split; [exact H3|]. split; [exact H4|]. split; [exact H5|exact H6].
Defined.

(** A frozen ledger, and two calls on it. *)
Definition sample_frozen : Ledger := SetFrozen sample_ledger (bs "stop").

Lemma frozen_is_final_witness :
  let x := (SetModelID (SetFrozen sample_frozen (bs "again")) (bs "m"), sample_dir) in
  is_frozen x.1 = true ∧ x.2 = sample_dir ∧ lastSeq x.1 = 2 ∧ lastHash x.1 = lastHash sample_frozen.
Proof.
  apply (frozen_is_final (G := plain_gzip) (HV := quiet_heads) sample_frozen sample_dir).
  - reflexivity.
  - eapply rtc_l; [apply step_freeze|]. eapply rtc_l; [apply step_model|]. apply rtc_refl.
Defined.


Lemma seal_never_loses_record_witness : ∃ d',
  (Seal (G := plain_gzip) all_ok sample_ledger sample_dir (bs "1") 2).1.1.2 = d' ∧
  reads_as (G := plain_gzip) (with_debris [] d') sample_path sample_chain.
Proof.
  destruct (Seal (G := plain_gzip) all_ok sample_ledger sample_dir (bs "1") 2) as [[[l' d'] ds] r] eqn:E.
  exists d'. split; [reflexivity|].
  exact (seal_never_loses_record (G := plain_gzip) (GL := plain_gzip_laws) (PublicKey toy_pair) all_ok sample_ledger sample_dir
    [] [sample_first] sample_second [] (bs "1") l' d' ds r d' [] sample_repr eq_refl E (list_elem_of_here _ _) (Forall_nil_2 _)).
Defined.

Lemma seal_moves_boundary_witness : ∃ l' d' ds,
  Seal (G := plain_gzip) all_ok sample_ledger sample_dir (bs "1") 2 = (l', d', ds, Ok ()) ∧
  repr (G := plain_gzip) (PublicKey toy_pair) l' d' [(new_segment [] sample_second, sealed_form [sample_first] sample_second)] [].
Proof.
  destruct (Seal (G := plain_gzip) all_ok sample_ledger sample_dir (bs "1") 2) as [[[l' d'] ds] r] eqn:E.
  assert (r = Ok ()) as Hr.
  { change r with (l', d', ds, r).2. rewrite <- E. vm_compute. reflexivity. }
  exists l', d', ds. split; [by rewrite Hr|].
  exact (proj1 (seal_moves_boundary (G := plain_gzip) (PublicKey toy_pair) sample_ledger sample_dir
    [] [sample_first] sample_second [] (bs "1") l' d' ds r all_ok sample_repr eq_refl E) Hr).
Defined.

Lemma open_finishes_seal_witness : ∃ x x' l2 S' T',
  New (G := plain_gzip) all_ok (with_debris [(tail_temp (bs "9"), [1])] x) sample_path (bs "2") = (x', Ok l2) ∧
  repr (G := plain_gzip) (PublicKey toy_pair) l2 x' S' T' ∧ lastSeq l2 = 2.
Proof.
  destruct (Seal (G := plain_gzip) all_ok sample_ledger sample_dir (bs "1") 2) as [[[l' d'] ds] r] eqn:E.
  assert (Forall (λ kv : bytes * bytes, is_debris kv.1 = true) [(tail_temp (bs "9"), [1])]) as Hj.
  { apply Forall_cons. split; [vm_compute; reflexivity|apply Forall_nil_2]. }
  destruct (open_finishes_seal (G := plain_gzip) (GL := plain_gzip_laws) (PublicKey toy_pair) all_ok sample_ledger sample_dir
    [] [sample_first] sample_second [] (bs "1") (bs "2") l' d' ds r d' _ sample_repr eq_refl E (list_elem_of_here _ _) Hj)
    as (x' & l2 & S' & T' & H1 & H2 & H3 & _).
  exists d', x', l2, S', T'. split; [exact H1|]. split; [exact H2|exact H3].
Defined.

Lemma birth_requires_empty_witness : (∅ : dir) !! sample_path = None ∧ segmentFiles ∅ = [].
Proof.
  destruct (NewForBirth (G := plain_gzip) all_ok ∅ sample_path (bs "1")) as [d' [l|e]] eqn:E.
  - refine (birth_requires_empty (G := plain_gzip) all_ok ∅ sample_path (bs "1") d' l E _). discriminate.
  - apply (f_equal (λ x, is_ok x.2)) in E. vm_compute in E. discriminate.
Defined.

Lemma longest_line_unreadable_witness :
  let line := replicate (Z.to_nat MaxEventLineBytes) 120 in
  scanLines (λ (st : unit) _ _ _ _, (st, @None unit)) (line ++ [10]) false tt = (tt, Some ScanTooLong).
Proof.
  refine (proj2 (longest_line_unreadable _ _ tt _ _)).
  - apply Forall_replicate. discriminate.
  - rewrite length_replicate. apply Z2Nat.id. discriminate.
Defined.
