(* ===== verification/Time.v ===== *)
(** * Go's time: RFC 3339 texts and instants

    [time.Parse(time.RFC3339, s)] as the sources use it, through the general
    layout parser: an hour of one digit, a fraction after the seconds and an
    offset of up to 24:60 are accepted, as they are there.  An instant is the
    number of nanoseconds since the start of the year 1, the zero [time.Time]. *)

From S2P Require Import Prelude.

Definition digit_at (s : bytes) (i : nat) : bool :=
  match s !! i with Some c => is_digit c | None => false end.

(** [getnum]: two digits, or one when [fixed] is false. *)
Definition getnum (fixed : bool) (s : bytes) : option (Z * bytes) :=
  match s with
  | c :: t =>
    if negb (is_digit c) then None
    else match t with
    | c' :: t' => if is_digit c' then Some (10 * (c - 48) + (c' - 48), t') else if fixed then None else Some (c - 48, t)
    | [] => if fixed then None else Some (c - 48, [])
    end
  | [] => None
  end.

(** The digits of a year. *)
Definition get_year (s : bytes) : option (Z * bytes) :=
  match s with
  | a :: b :: c :: d :: t =>
    if is_digit a && is_digit b && is_digit c && is_digit d
    then Some ((a - 48) * 1000 + (b - 48) * 100 + (c - 48) * 10 + (d - 48), t) else None
  | _ => None
  end.

Definition skip_char (c : Z) (s : bytes) : option bytes :=
  match s with x :: t => if x =? c then Some t else None | [] => None end.

(** The digits at the head of [s]. *)
Fixpoint leading_digits (s : bytes) : bytes :=
  match s with c :: t => if is_digit c then c :: leading_digits t else [] | [] => [] end.

Definition digits_value (ds : bytes) : Z := foldl (λ acc c, acc * 10 + (c - 48)) 0 ds.

(** A fraction of a second after [.] or [,]; only nine digits count. *)
Definition get_fraction (s : bytes) : Z * bytes :=
  match s with
  | c :: t =>
    if ((c =? 46) || (c =? 44)) && digit_at t 0 then
      let ds := leading_digits t in
      let kept := take 9 ds in
      (digits_value kept * 10 ^ (9 - Z.of_nat (length kept)), drop (length ds) t)
    else (0, s)
  | [] => (0, s)
  end.

(** [Z] or a signed offset, in seconds. *)
Definition get_zone (s : bytes) : option (Z * bytes) :=
  match s with
  | 90 :: t => Some (0, t)
  | sg :: h1 :: h2 :: colon :: m1 :: m2 :: t =>
    if negb (colon =? 58) then None
    else match getnum true [h1; h2], getnum true [m1; m2] with
    | Some (hr, _), Some (mm, _) =>
      if (24 <? hr) || (60 <? mm) then None
      else if sg =? 43 then Some ((hr * 60 + mm) * 60, t)
      else if sg =? 45 then Some (- ((hr * 60 + mm) * 60), t)
      else None
    | _, _ => None
    end
  | _ => None
  end.

Definition is_leap (y : Z) : bool := (y mod 4 =? 0) && (negb (y mod 100 =? 0) || (y mod 400 =? 0)).

Definition days_in (m y : Z) : Z :=
  if m =? 2 then if is_leap y then 29 else 28
  else if (m =? 4) || (m =? 6) || (m =? 9) || (m =? 11) then 30 else 31.

(** Days from 0001-01-01 to the first of January of [y], and to a date. *)
Definition days_before_year (y : Z) : Z := let p := y - 1 in 365 * p + p / 4 - p / 100 + p / 400.
Definition days_before_month (m y : Z) : Z :=
  foldr Z.add 0 (map (λ i, days_in (Z.of_nat i) y) (seq 1 (Z.to_nat (m - 1)))).

Definition instant (year month day hour minute sec nsec zone : Z) : Z :=
  let days := days_before_year year + days_before_month month year + (day - 1) in
  ((days * 86400 + hour * 3600 + minute * 60 + sec - zone) * 1000000000) + nsec.

Definition time_Parse (s : bytes) : option Z :=
  '(year, s) ← get_year s;
  s ← skip_char 45 s;
  '(month, s) ← getnum true s;
  if (month <? 1) || (12 <? month) then None else
  s ← skip_char 45 s;
  '(day, s) ← getnum true s;
  s ← skip_char 84 s;
  '(hour, s) ← getnum false s;
  if 24 <=? hour then None else
  s ← skip_char 58 s;
  '(minute, s) ← getnum true s;
  if 60 <=? minute then None else
  s ← skip_char 58 s;
  '(sec, s) ← getnum true s;
  if 60 <=? sec then None else
  let '(nsec, s) := get_fraction s in
  '(zone, s) ← get_zone s;
  match s with
  | [] => if (day <? 1) || (days_in month year <? day) then None
          else Some (instant year month day hour minute sec nsec zone)
  | _ => None
  end.

(** [Time.IsZero] and [Time.Before]. *)
Definition time_zero : Z := 0.
Definition IsZero (t : Z) : bool := t =? time_zero.
Definition Before (t u : Z) : bool := t <? u.

(** Unix times of known instants, in seconds from year 1 (62135596800 s before
    the epoch). *)
Example time_epoch : time_Parse (bs "1970-01-01T00:00:00Z") = Some (62135596800 * 1000000000).
Proof. reflexivity. Qed.
Example time_offset : time_Parse (bs "2026-03-01T01:30:00.25+01:30") = Some ((62135596800 + 1772323200) * 1000000000 + 250000000).
Proof. reflexivity. Qed.
Example time_zero_text : time_Parse (bs "0001-01-01T00:00:00Z") = Some time_zero.
Proof. reflexivity. Qed.
Example time_no_such_day : time_Parse (bs "2026-02-29T00:00:00Z") = None.
Proof. reflexivity. Qed.
