(* ===== verification/SigEnvelope.v ===== *)
(** * internal/sigenvelope: signed envelopes

    Envelopes as they are decoded, the text a signature covers, and
    [VerifyPayload]: every algorithm the profile requires has signed the
    payload under the authority's key, and nothing else has. *)

From stdpp Require Import gmap.
From S2P Require Import Prelude Utf8 GoJson CanonicalJson CanonicalJsonFacts GoStruct Crypto Event Lines Chain Time Container.

Definition CanonicalizationV1 : bytes := bs "AIII-CANONICAL-JSON-V1".

Record SignatureEntry := mkSigEntry {
  se_Alg : bytes;
  se_KeyID : bytes;
  se_PublicKeyFingerprint : bytes;
  se_SignatureInputSHA256 : bytes;
  se_SigB64 : bytes;
}.

Record Envelope := mkEnvelope {
  ArtifactKind : bytes;
  env_Payload : bytes;
  PayloadSHA256 : bytes;
  Canonicalization : bytes;
  SignatureProfile : bytes;
  Signatures : list SignatureEntry;
}.

Record PublicKeyMaterial := mkKeyMaterial {
  pkm_Alg : bytes;
  pkm_PublicKeyB64 : bytes;
  pkm_PublicKeyFingerprint : bytes;
}.

Record PublicKeyEnvelope := mkKeyEnvelope {
  pke_V : Z;
  pke_Kind : bytes;
  pke_KeyID : bytes;
  pke_KeyType : bytes;
  pke_Profile : bytes;
  pke_CreatedAt : bytes;
  pke_NotBefore : bytes;
  pke_ExpiresAt : bytes;
  pke_Keys : list PublicKeyMaterial;
}.

(** ** Decoding

    A struct decoded over an earlier value keeps the fields no member names. *)

Definition decode_sig_entry (prior : SignatureEntry) (raw : bytes) : option SignatureEntry :=
  ms ← struct_members true false [bs "alg"; bs "key_id"; bs "public_key_fingerprint"; bs "signature_input_sha256"; bs "sig_b64"] raw;
  alg ← field conv_string (se_Alg prior) (bs "alg") ms;
  key ← field conv_string (se_KeyID prior) (bs "key_id") ms;
  fp ← field conv_string (se_PublicKeyFingerprint prior) (bs "public_key_fingerprint") ms;
  sum ← field conv_string (se_SignatureInputSHA256 prior) (bs "signature_input_sha256") ms;
  sig ← field conv_string (se_SigB64 prior) (bs "sig_b64") ms;
  Some (mkSigEntry alg key fp sum sig).

Definition decode_key_material (prior : PublicKeyMaterial) (raw : bytes) : option PublicKeyMaterial :=
  ms ← struct_members true false [bs "alg"; bs "public_key_b64"; bs "public_key_fingerprint"] raw;
  alg ← field conv_string (pkm_Alg prior) (bs "alg") ms;
  key ← field conv_string (pkm_PublicKeyB64 prior) (bs "public_key_b64") ms;
  fp ← field conv_string (pkm_PublicKeyFingerprint prior) (bs "public_key_fingerprint") ms;
  Some (mkKeyMaterial alg key fp).

Definition decode_envelope (raw : bytes) : option Envelope :=
  ms ← struct_members true false [bs "artifact_kind"; bs "payload"; bs "payload_sha256"; bs "canonicalization"; bs "signature_profile"; bs "signatures"] raw;
  kind ← field conv_string [] (bs "artifact_kind") ms;
  sum ← field conv_string [] (bs "payload_sha256") ms;
  canon ← field conv_string [] (bs "canonicalization") ms;
  profile ← field conv_string [] (bs "signature_profile") ms;
  sigs ← slice_field decode_sig_entry (mkSigEntry [] [] [] [] []) (bs "signatures") ms;
  Some (mkEnvelope kind (raw_field (bs "payload") ms) sum canon profile sigs).

Definition decode_key_envelope (raw : bytes) : option PublicKeyEnvelope :=
  ms ← struct_members true false [bs "v"; bs "kind"; bs "key_id"; bs "key_type"; bs "profile"; bs "created_at"; bs "not_before"; bs "expires_at"; bs "keys"] raw;
  v ← field conv_int 0 (bs "v") ms;
  kind ← field conv_string [] (bs "kind") ms;
  key ← field conv_string [] (bs "key_id") ms;
  ty ← field conv_string [] (bs "key_type") ms;
  profile ← field conv_string [] (bs "profile") ms;
  created ← field conv_string [] (bs "created_at") ms;
  nb ← field conv_string [] (bs "not_before") ms;
  ex ← field conv_string [] (bs "expires_at") ms;
  keys ← slice_field decode_key_material (mkKeyMaterial [] [] []) (bs "keys") ms;
  Some (mkKeyEnvelope v kind key ty profile created nb ex keys).

Definition FindPublicKey (e : PublicKeyEnvelope) (alg : bytes) : option PublicKeyMaterial :=
  find (λ k, beq (pkm_Alg k) alg) (pke_Keys e).

Definition profileAccepted (profile : bytes) (accepted : list bytes) : bool := existsb (beq profile) accepted.

Inductive envelope_err :=
| VParse | VKind | VCanonicalization | VProfile | VNoSignatures | VPayloadHashForm | VPayloadCanon (e : canon_err)
| VPayloadHash | VUnknownProfile | VDuplicateSignature (alg : bytes) | VNotRequired (alg : bytes) | VDuplicateKey (alg : bytes)
| VMissingSignature (alg : bytes) | VMissingKey (alg : bytes) | VKeyID | VFingerprint (alg : bytes) | VInputHash (alg : bytes)
| VKeyEncoding (alg : bytes) | VSigEncoding (alg : bytes) | VVerify (e : crypto_err) | VUnsupported (alg : bytes)
| VVersion | VKeyIDMissing | VNoKeys | VNotBefore | VExpiresAt | VKeyFields | VKeyFingerprint (alg : bytes)
| VOutsideWindow.

(** [hex.DecodeString] accepts both cases. *)
Definition is_hex (c : Z) : bool := match hex_value c with Some _ => true | None => false end.

Definition ValidatePayloadSHA256 (value : bytes) : result envelope_err unit :=
  if negb (HasPrefix value (bs "sha256:")) then Err VPayloadHashForm
  else
    let raw := TrimPrefix value (bs "sha256:") in
    if negb (length raw =? 64)%nat then Err VPayloadHashForm
    else if forallb is_hex raw then Ok () else Err VPayloadHashForm.

(** [ValidWindow] at an instant. *)
Definition ValidWindow (env : PublicKeyEnvelope) (at_ : Z) : result envelope_err unit :=
  _ ← (if beq (pke_NotBefore env) [] then Ok () else
       match time_Parse (pke_NotBefore env) with
       | None => Err VNotBefore
       | Some nb => if Before at_ nb then Err VOutsideWindow else Ok ()
       end);
  if beq (pke_ExpiresAt env) [] then Ok () else
  match time_Parse (pke_ExpiresAt env) with
  | None => Err VExpiresAt
  | Some ex => if negb (Before at_ ex) then Err VOutsideWindow else Ok ()
  end.

Definition SignatureInput (artifactKind profile alg keyID pubKeyFingerprint payloadSHA256 : bytes) : bytes :=
  bs "AIII-SIGNATURE-V1" ++ [10] ++
  bs "artifact_kind:" ++ artifactKind ++ [10] ++
  bs "canonicalization:" ++ CanonicalizationV1 ++ [10] ++
  bs "signature_profile:" ++ profile ++ [10] ++
  bs "alg:" ++ alg ++ [10] ++
  bs "key_id:" ++ keyID ++ [10] ++
  bs "public_key_fingerprint:" ++ pubKeyFingerprint ++ [10] ++
  bs "payload_sha256:" ++ payloadSHA256 ++ [10].

Section Envelopes.
Context `{P : Primitives}.

Definition SHA256Prefixed (data : bytes) : bytes := bs "sha256:" ++ hex_encode (sha256 data).

Definition EnvelopeKeyFingerprint (alg keyID publicKeyB64 : bytes) : bytes :=
  SHA256Prefixed (bs "AIII-PUBLIC-KEY-FINGERPRINT-V1" ++ [10] ++ bs "alg:" ++ alg ++ [10] ++
                  bs "key_id:" ++ keyID ++ [10] ++ bs "public_key_b64:" ++ publicKeyB64 ++ [10]).

(** The loop of [ValidatePublicKeyEnvelopeShape] over the keys. *)
Fixpoint validate_keys (keyID : bytes) (seen : gset (list Z)) (keys : list PublicKeyMaterial) : result envelope_err unit :=
  match keys with
  | [] => Ok ()
  | key :: rest =>
    if bool_decide (pkm_Alg key ∈ seen) then Err (VDuplicateKey (pkm_Alg key))
    else if beq (pkm_Alg key) [] || beq (pkm_PublicKeyB64 key) [] || beq (pkm_PublicKeyFingerprint key) [] then Err VKeyFields
    else if negb (beq (pkm_PublicKeyFingerprint key) (EnvelopeKeyFingerprint (pkm_Alg key) keyID (pkm_PublicKeyB64 key)))
         then Err (VKeyFingerprint (pkm_Alg key))
    else validate_keys keyID ({[ pkm_Alg key ]} ∪ seen) rest
  end.

Definition ValidatePublicKeyEnvelopeShape (env : PublicKeyEnvelope) (accepted : list bytes) : result envelope_err unit :=
  if negb (pke_V env =? 1) then Err VVersion
  else if negb (profileAccepted (pke_Profile env) accepted) then Err VProfile
  else if beq (pke_KeyID env) [] then Err VKeyIDMissing
  else if bool_decide (pke_Keys env = []) then Err VNoKeys
  else if negb (beq (pke_NotBefore env) []) && bool_decide (time_Parse (pke_NotBefore env) = None) then Err VNotBefore
  else if negb (beq (pke_ExpiresAt env) []) && bool_decide (time_Parse (pke_ExpiresAt env) = None) then Err VExpiresAt
  else validate_keys (pke_KeyID env) ∅ (pke_Keys env).

(** [now] is the clock. *)
Definition ValidatePublicKeyEnvelope (env : PublicKeyEnvelope) (accepted : list bytes) (now : Z) : result envelope_err unit :=
  _ ← ValidatePublicKeyEnvelopeShape env accepted; ValidWindow env now.

(** A map by algorithm; a second entry for one is refused. *)
Fixpoint by_alg {A} (alg : A → bytes) (dup : bytes → envelope_err) (m : gmap (list Z) A) (entries : list A) :
    result envelope_err (gmap (list Z) A) :=
  match entries with
  | [] => Ok m
  | x :: rest => if bool_decide (is_Some (m !! alg x)) then Err (dup (alg x)) else by_alg alg dup (<[alg x := x]> m) rest
  end.

(** The loop over the bundle's signatures against the required set. *)
Fixpoint only_required (required : list bytes) (sigs : list SignatureEntry) : result envelope_err unit :=
  match sigs with
  | [] => Ok ()
  | sig :: rest => if existsb (beq (se_Alg sig)) required then only_required required rest else Err (VNotRequired (se_Alg sig))
  end.

(** The body of the loop over the required algorithms. *)
Definition verify_required (bundle : Envelope) (pubkey : PublicKeyEnvelope) (sigs : gmap (list Z) SignatureEntry)
    (keys : gmap (list Z) PublicKeyMaterial) (alg : bytes) : result envelope_err unit :=
  sig ← of_option (VMissingSignature alg) (sigs !! alg);
  key ← of_option (VMissingKey alg) (keys !! alg);
  if negb (beq (se_KeyID sig) (pke_KeyID pubkey)) then Err VKeyID
  else if negb (beq (se_PublicKeyFingerprint sig) (pkm_PublicKeyFingerprint key)) then Err (VFingerprint alg)
  else
    let input := SignatureInput (ArtifactKind bundle) (SignatureProfile bundle) (se_Alg sig) (se_KeyID sig)
                   (se_PublicKeyFingerprint sig) (PayloadSHA256 bundle) in
    if negb (beq (SHA256Prefixed input) (se_SignatureInputSHA256 sig)) then Err (VInputHash alg)
    else
      pub ← of_option (VKeyEncoding alg) (b64_decode (pkm_PublicKeyB64 key));
      raw ← of_option (VSigEncoding alg) (b64_decode (se_SigB64 sig));
      if beq alg SigAlg then map_err VVerify (Verify pub input raw)
      else if beq alg SLHAlg then map_err VVerify (VerifySLH pub input raw)
      else Err (VUnsupported alg).

Fixpoint verify_all (bundle : Envelope) (pubkey : PublicKeyEnvelope) (sigs : gmap (list Z) SignatureEntry)
    (keys : gmap (list Z) PublicKeyMaterial) (required : list bytes) : result envelope_err unit :=
  match required with
  | [] => Ok ()
  | alg :: rest => _ ← verify_required bundle pubkey sigs keys alg; verify_all bundle pubkey sigs keys rest
  end.

(** [VerifyPayload] after the bundle is decoded. *)
Definition verify_bundle (bundle : Envelope) (pubkey : PublicKeyEnvelope) (expectedKind : bytes) (accepted : list bytes) :
    result envelope_err bytes :=
  if negb (beq (ArtifactKind bundle) expectedKind) then Err VKind
  else if negb (beq (Canonicalization bundle) CanonicalizationV1) then Err VCanonicalization
  else if negb (profileAccepted (SignatureProfile bundle) accepted) then Err VProfile
  else if bool_decide (Signatures bundle = []) then Err VNoSignatures
  else
    _ ← ValidatePayloadSHA256 (PayloadSHA256 bundle);
    canonicalPayload ← map_err VPayloadCanon (CanonicalizeV1 (env_Payload bundle));
    if negb (beq (SHA256Prefixed canonicalPayload) (PayloadSHA256 bundle)) then Err VPayloadHash
    else
      required ← of_option VUnknownProfile (RequiredAlgorithms (SignatureProfile bundle));
      sigs ← by_alg se_Alg VDuplicateSignature ∅ (Signatures bundle);
      _ ← only_required required (Signatures bundle);
      keys ← by_alg pkm_Alg VDuplicateKey ∅ (pke_Keys pubkey);
      _ ← verify_all bundle pubkey sigs keys required;
      mret (env_Payload bundle).

Definition VerifyPayload (bundleBytes : bytes) (pubkey : PublicKeyEnvelope) (expectedKind : bytes) (accepted : list bytes) :
    result envelope_err bytes :=
  _ ← map_err (λ _, VParse) (CanonicalizeV1 bundleBytes);
  bundle ← of_option VParse (decode_envelope bundleBytes);
  verify_bundle bundle pubkey expectedKind accepted.
End Envelopes.

(** ** The text a signature covers determines its fields *)

Lemma line_cut v v' r r' : one_line v → one_line v' → v ++ 10 :: r = v' ++ 10 :: r' → v = v' ∧ r = r'.
Proof.
  intros H. revert v'. induction H as [|c v Hc _ IH]; intros [|c' v'] H' E; cbn in E.
  - by simplify_eq.
  - injection E as <- _. by apply Forall_cons in H' as [? _].
  - injection E as -> _. done.
  - injection E as <- E. apply Forall_cons in H' as [_ H']. by destruct (IH v' H' E) as [-> ->].
Qed.

(** Split an equation between two texts of labelled lines into its fields. *)
Ltac split_lines :=
  repeat match goal with
  | H : ?a ++ _ = ?a ++ _ |- _ => apply app_inv_head in H
  | H : ?v ++ [10] ++ ?r = ?v' ++ [10] ++ ?r' |- _ => apply (line_cut v v' r r') in H; [destruct H as [? H]|assumption..]
  | H : ?v ++ [10] = ?v' ++ [10] |- _ => apply app_inv_tail in H
  end.

Section Properties.
Context `{P : Primitives}.

Lemma by_alg_ok {A} (alg : A → bytes) dup l : ∀ m m', by_alg alg dup m l = Ok m' →
  NoDup (alg <$> l) ∧ (∀ a, is_Some (m !! a) → a ∉ (alg <$> l)) ∧
  (∀ a, m' !! a = match find (λ x, beq (alg x) a) l with Some x => Some x | None => m !! a end).
Proof.
  induction l as [|x l IH]; intros m m' H; cbn in *.
  - simplify_eq. split; [constructor|]. split; [|done]. intros a _ Ha. by apply elem_of_nil in Ha.
  - destruct (bool_decide _) eqn:E; [done|]. apply bool_decide_eq_false in E. apply IH in H as (Hnd & Hm & Hl).
    assert (alg x ∉ alg <$> l) as Hx by (apply Hm; rewrite lookup_insert_eq; by eexists).
    split; [by constructor|]. split.
    + intros a Ha. apply not_elem_of_cons. split; [by intros ->|]. apply Hm.
      destruct (decide (alg x = a)) as [->|]; [rewrite lookup_insert_eq; by eexists|by rewrite lookup_insert_ne].
    + intros a. rewrite Hl. destruct (beq (alg x) a) eqn:Ea; b2p.
      * subst a. rewrite lookup_insert_eq. destruct (find _ l) as [y|] eqn:Ef; [|done].
        apply find_some in Ef as [Hy Hb]. b2p. destruct Hx. rewrite <- Hb. apply list_elem_of_fmap_2, list_elem_of_In, Hy.
      * by rewrite lookup_insert_ne.
Qed.

Lemma by_alg_total {A} (alg : A → bytes) dup l : ∀ m, NoDup (alg <$> l) → (∀ a, is_Some (m !! a) → a ∉ (alg <$> l)) →
  ∃ m', by_alg alg dup m l = Ok m'.
Proof.
  induction l as [|x l IH]; intros m Hnd Hm; cbn in *; [by eexists|]. apply NoDup_cons in Hnd as [Hx Hnd].
  rewrite bool_decide_false by (intros Hs; apply (Hm _ Hs); by left). apply IH; [done|]. intros a.
  destruct (decide (alg x = a)) as [<-|Hne]; [by intros _|]. rewrite lookup_insert_ne by done. intros Ha. specialize (Hm a Ha). by apply not_elem_of_cons in Hm as [_ ?].
Qed.

Lemma only_required_ok required sigs : only_required required sigs = Ok () ↔ Forall (λ s, se_Alg s ∈ required) sigs.
Proof.
  induction sigs as [|s sigs IH]; cbn; [split; [constructor|done]|]. rewrite Forall_cons, <- IH.
  destruct (existsb _ _) eqn:E.
  - apply existsb_exists in E as (a & Ha & Hb). b2p. rewrite Hb. apply list_elem_of_In in Ha. tauto.
  - split; [done|]. intros [Hs _]. apply list_elem_of_In in Hs. rewrite <- not_true_iff_false, existsb_exists in E. destruct E.
    exists (se_Alg s). by rewrite beq_refl.
Qed.

(** [alg] has signed the canonical payload under the authority's key. *)
Definition signed_by (bundle : Envelope) (pubkey : PublicKeyEnvelope) (canonicalPayload alg : bytes) : Prop :=
  ∃ sig key pub raw, find (λ s, beq (se_Alg s) alg) (Signatures bundle) = Some sig ∧ FindPublicKey pubkey alg = Some key ∧
    se_KeyID sig = pke_KeyID pubkey ∧ se_PublicKeyFingerprint sig = pkm_PublicKeyFingerprint key ∧
    b64_decode (pkm_PublicKeyB64 key) = Some pub ∧ b64_decode (se_SigB64 sig) = Some raw ∧
    let input := SignatureInput (ArtifactKind bundle) (SignatureProfile bundle) alg (pke_KeyID pubkey)
                   (pkm_PublicKeyFingerprint key) (SHA256Prefixed canonicalPayload) in
    se_SignatureInputSHA256 sig = SHA256Prefixed input ∧
    (alg = SigAlg ∧ Verify pub input raw = Ok () ∨ alg = SLHAlg ∧ VerifySLH pub input raw = Ok ()).

(** What an envelope promises: the expected kind, an accepted root profile,
    the hash of its payload, and exactly the two signatures the profile
    requires, each over that hash. *)
Record valid_envelope (bundle : Envelope) (pubkey : PublicKeyEnvelope) (kind : bytes) (accepted : list bytes) : Prop := {
  ve_kind : ArtifactKind bundle = kind;
  ve_canon : Canonicalization bundle = CanonicalizationV1;
  ve_profile : SignatureProfile bundle = ProfileRoot;
  ve_accepted : ProfileRoot ∈ accepted;
  ve_algs : Forall (λ s, se_Alg s = SigAlg ∨ se_Alg s = SLHAlg) (Signatures bundle);
  ve_once : NoDup (se_Alg <$> Signatures bundle);
  ve_keys : NoDup (pkm_Alg <$> pke_Keys pubkey);
  ve_signed : ∃ canonicalPayload, CanonicalizeV1 (env_Payload bundle) = Ok canonicalPayload ∧
    PayloadSHA256 bundle = SHA256Prefixed canonicalPayload ∧
    signed_by bundle pubkey canonicalPayload SigAlg ∧ signed_by bundle pubkey canonicalPayload SLHAlg;
}.

Lemma map_err_ok {E F A} (f : E → F) (r : result E A) a : map_err f r = Ok a ↔ r = Ok a.
Proof. destruct r; cbn; split; congruence. Qed.

Lemma verify_required_ok bundle pubkey sigs keys alg payload : 
  (∀ a, sigs !! a = find (λ s, beq (se_Alg s) a) (Signatures bundle)) → (∀ a, keys !! a = FindPublicKey pubkey a) →
  PayloadSHA256 bundle = SHA256Prefixed payload → alg = SigAlg ∨ alg = SLHAlg →
  verify_required bundle pubkey sigs keys alg = Ok () ↔ signed_by bundle pubkey payload alg.
Proof.
  intros Hs Hk Hp Ha. unfold verify_required, signed_by. rewrite Hs, Hk, Hp. split.
  - intros (sig & H1%of_option_ok & H)%bind_ok. apply bind_ok in H as (key & H2%of_option_ok & H).
    destruct (beq (se_KeyID sig) _) eqn:E1; [|done]. destruct (beq (se_PublicKeyFingerprint sig) _) eqn:E2; [|done]. cbn [negb] in H.
    pose proof (find_some _ _ H1) as [_ E0]. b2p. rewrite E0, E1, E2 in H.
    destruct (beq (SHA256Prefixed _) _) eqn:E3; [|done]. cbn [negb] in H. b2p.
    apply bind_ok in H as (pub & H3%of_option_ok & H). apply bind_ok in H as (raw & H4%of_option_ok & H).
    exists sig, key, pub, raw. do 6 (split; [done|]). cbn zeta. split; [done|]. destruct Ha as [->| ->].
    + left. by apply map_err_ok in H.
    + right. by apply map_err_ok in H.
  - intros (sig & key & pub & raw & H1 & H2 & H3 & H4 & H5 & H6 & H7 & H8). cbn zeta in *.
    pose proof (find_some _ _ H1) as [_ E0]. b2p. rewrite H1, H2. cbn [of_option mbind result_bind].
    rewrite E0, H3, H4, !beq_refl, H7, beq_refl, H5, H6. cbn [negb of_option mbind result_bind].
    destruct H8 as [[-> H8]|[-> H8]]; cbn [beq]; by apply map_err_ok.
Qed.

Context `{L : !PrimitiveLaws P}.

Lemma hex_encode_hex s : Forall is_byte s → length (hex_encode s) = (2 * length s)%nat ∧ forallb is_hex (hex_encode s) = true.
Proof.
  assert (∀ n, 0 ≤ n < 16 → is_hex (hex_digit n) = true) as Hd.
  { intros n Hn. unfold is_hex, hex_value, hex_digit, between.
    destruct (Z.ltb_spec n 10); [rewrite (proj2 (Z.leb_le 48 _)), (proj2 (Z.leb_le _ 57)) by lia; done|].
    rewrite (proj2 (Z.leb_gt (_ + _) 57)), andb_false_r by lia. rewrite (proj2 (Z.leb_le 97 _)), (proj2 (Z.leb_le _ 102)) by lia. done. }
  induction 1 as [|b s Hb _ [IHl IHh]]; [done|]. pose proof (nibble_bounds b Hb) as [? ?].
  cbn [hex_encode length forallb]. rewrite IHl, IHh, !Hd by done. split; [lia|done].
Qed.

Lemma payload_hash_form data : ValidatePayloadSHA256 (SHA256Prefixed data) = Ok ().
Proof.
  unfold ValidatePayloadSHA256, SHA256Prefixed, TrimPrefix.
  assert (HasPrefix (bs "sha256:" ++ hex_encode (sha256 data)) (bs "sha256:") = true) as ->.
  { unfold HasPrefix. by rewrite take_app_length, beq_refl. }
  cbn [negb]. rewrite drop_app_length. destruct (hex_encode_hex _ (sha256_bytes data)) as [Hl Hh].
  by rewrite Hl, Hh, sha256_len.
Qed.

Lemma sha_prefixed_determines a b : SHA256Prefixed a = SHA256Prefixed b → a = b ∨ collision.
Proof. intros H. by apply app_inv_head, sha256_determines in H. Qed.

Lemma sha_prefixed_line a : one_line (SHA256Prefixed a).
Proof.
  apply Forall_app. split; [by repeat constructor|]. destruct (hex_encode_hex _ (sha256_bytes a)) as [_ Hh].
  rewrite forallb_forall in Hh. apply Forall_forall. intros c Hc%list_elem_of_In ->. by apply Hh in Hc.
Qed.

Lemma verify_bundle_valid bundle pubkey kind accepted payload :
  verify_bundle bundle pubkey kind accepted = Ok payload ↔ valid_envelope bundle pubkey kind accepted ∧ payload = env_Payload bundle.
Proof.
  split.
  - unfold verify_bundle. destruct (beq (ArtifactKind _) _) eqn:E1; [|done]. destruct (beq (Canonicalization _) _) eqn:E2; [|done].
    destruct (profileAccepted _ _) eqn:E3; [|done]. destruct (bool_decide _) eqn:E4; [done|]. cbn [negb].
    intros (_ & _ & H)%bind_ok. apply bind_ok in H as (canon & H1%map_err_ok & H).
    destruct (beq (SHA256Prefixed _) _) eqn:E5; [|done]. cbn [negb] in H.
    apply bind_ok in H as (req & H2%of_option_ok & H). unfold RequiredAlgorithms in H2.
    destruct (beq (SignatureProfile _) _) eqn:E6; [|done]. injection H2 as <-. b2p.
    apply bind_ok in H as (sigs & H3 & H). apply bind_ok in H as ([] & H4 & H). apply bind_ok in H as (keys & H5 & H).
    apply bind_ok in H as ([] & H6 & [= <-]). split; [|done].
    apply by_alg_ok in H3 as (Hn & _ & Hl), H5 as (Hn' & _ & Hl'). apply only_required_ok in H4.
    cbn [verify_all] in H6. apply bind_ok in H6 as ([] & H6 & H7). apply bind_ok in H7 as ([] & H7 & _).
    assert (∀ a, sigs !! a = find (λ s, beq (se_Alg s) a) (Signatures bundle)) as Hs by (intros a; rewrite Hl; by destruct (find _ _)).
    assert (∀ a, keys !! a = FindPublicKey pubkey a) as Hk by (intros a; rewrite Hl'; unfold FindPublicKey; by destruct (find _ _)).
    split; try done.
    + unfold profileAccepted in E3. apply existsb_exists in E3 as (p & Hp & E). b2p. subst p. rewrite E6 in Hp. by apply list_elem_of_In.
    + eapply Forall_impl; [exact H4|]. intros s Hi. set_solver.
    + exists canon. split; [done|]. split; [done|]. split; by eapply verify_required_ok; eauto.
  - intros [[H1 H2 H3 H4 H5 H6 H7 (canon & Hc & Hp & Hs1 & Hs2)] ->]. unfold verify_bundle. rewrite H1, H2, !beq_refl, H3. cbn [negb].
    assert (profileAccepted ProfileRoot accepted = true) as ->.
    { apply existsb_exists. exists ProfileRoot. split; [by apply list_elem_of_In|apply beq_refl]. }
    rewrite bool_decide_false by (intros E; destruct Hs1 as (? & ? & ? & ? & Hf & _); by rewrite E in Hf). cbn [negb].
    rewrite Hp, payload_hash_form. cbn [mbind result_bind]. rewrite Hc. cbn [map_err mbind result_bind]. rewrite beq_refl. cbn [negb].
    unfold RequiredAlgorithms. rewrite beq_refl. cbn [of_option mbind result_bind].
    destruct (by_alg_total se_Alg VDuplicateSignature (Signatures bundle) ∅ H6) as [sigs Hs]; [intros a; rewrite lookup_empty; by intros [? ?]|].
    destruct (by_alg_total pkm_Alg VDuplicateKey (pke_Keys pubkey) ∅ H7) as [keys Hk]; [intros a; rewrite lookup_empty; by intros [? ?]|].
    rewrite Hs. cbn [mbind result_bind]. rewrite (proj2 (only_required_ok _ _)) by (eapply Forall_impl; [exact H5|]; set_solver).
    cbn [mbind result_bind]. rewrite Hk. cbn [mbind result_bind verify_all].
    apply by_alg_ok in Hs as (_ & _ & Hl), Hk as (_ & _ & Hl').
    assert (∀ a, sigs !! a = find (λ s, beq (se_Alg s) a) (Signatures bundle)) as Hs by (intros a; rewrite Hl; by destruct (find _ _)).
    assert (∀ a, keys !! a = FindPublicKey pubkey a) as Hk by (intros a; rewrite Hl'; unfold FindPublicKey; by destruct (find _ _)).
    rewrite (proj2 (verify_required_ok bundle pubkey sigs keys SigAlg canon Hs Hk Hp (or_introl eq_refl)) Hs1).
    rewrite (proj2 (verify_required_ok bundle pubkey sigs keys SLHAlg canon Hs Hk Hp (or_intror eq_refl)) Hs2). done.
Qed.

(** The keys the loop of the shape check accepts. *)
Definition key_entry_ok (keyID : bytes) (k : PublicKeyMaterial) : Prop :=
  pkm_Alg k ≠ [] ∧ pkm_PublicKeyB64 k ≠ [] ∧ pkm_PublicKeyFingerprint k ≠ [] ∧
  pkm_PublicKeyFingerprint k = EnvelopeKeyFingerprint (pkm_Alg k) keyID (pkm_PublicKeyB64 k).

Lemma validate_keys_ok keyID keys : ∀ seen, validate_keys keyID seen keys = Ok () ↔
  NoDup (pkm_Alg <$> keys) ∧ Forall (key_entry_ok keyID) keys ∧ Forall (λ k, pkm_Alg k ∉ seen) keys.
Proof.
  induction keys as [|k keys IH]; intros seen; cbn; [split; [by repeat constructor|done]|].
  rewrite NoDup_cons, !Forall_cons. unfold key_entry_ok at 1. destruct (bool_decide _) eqn:E1; b2p.
  { apply bool_decide_eq_true in E1. split; [done|tauto]. }
  apply bool_decide_eq_false in E1. destruct (_ || _) eqn:E2.
  { split; [done|]. intros (_ & ((? & ? & ? & _) & _) & _). rewrite !orb_true_iff, !beq_true in E2. tauto. }
  b2p. destruct (beq _ _) eqn:E3; b2p; [|split; [done|tauto]]. cbn [negb]. rewrite IH.
  assert (Forall (λ k', pkm_Alg k' ∉ {[pkm_Alg k]} ∪ seen) keys ↔ pkm_Alg k ∉ pkm_Alg <$> keys ∧ Forall (λ k', pkm_Alg k' ∉ seen) keys) as ->.
  { rewrite !Forall_forall. split.
    - intros Hk. split; [intros (k' & E & Hk')%list_elem_of_fmap; specialize (Hk k' Hk'); set_solver|intros k' Hk'; specialize (Hk k' Hk'); set_solver].
    - intros [Hn Hk] k' Hk'. specialize (Hk k' Hk'). apply not_elem_of_union. split; [|done]. intros E%elem_of_singleton. destruct Hn.
      rewrite <- E. by apply list_elem_of_fmap_2. }
  tauto.
Qed.

(** An optional bound of a validity window holds at [now]. *)
Definition bound_ok (text : bytes) (holds : Z → Prop) : Prop := text = [] ∨ ∃ t, time_Parse text = Some t ∧ holds t.

Lemma ValidWindow_ok env now : ValidWindow env now = Ok () ↔
  bound_ok (pke_NotBefore env) (λ nb, nb ≤ now) ∧ bound_ok (pke_ExpiresAt env) (λ ex, now < ex).
Proof.
  unfold ValidWindow, bound_ok, Before. destruct (beq (pke_NotBefore env) []) eqn:E1; b2p; cbn [mbind result_bind].
  2: destruct (time_Parse (pke_NotBefore env)) as [nb|]; [destruct (Z.ltb_spec now nb)|]; cbn [mbind result_bind].
  all: destruct (beq (pke_ExpiresAt env) []) eqn:E2; b2p; [|destruct (time_Parse (pke_ExpiresAt env)) as [ex|]; [destruct (Z.ltb_spec now ex)|]]; cbn [negb].
  all: split; [intros Hok; try discriminate Hok; eauto 8|intros [[?|(? & [=] & ?)] [?|(? & [=] & ?)]]; subst; try done; lia].
Qed.

(** C32. [VerifyPayload] accepts exactly the signed envelopes: the bundle is
    canonicalizable JSON that decodes to an envelope of the expected kind with
    an accepted profile, whose payload hash is the payload's, and which holds
    one signature per algorithm the profile requires, no other, each valid
    over kind, profile, key and payload hash under the authority's keys; what
    it returns is that envelope's payload. *)
Theorem VerifyPayload_accepts_signed bundleBytes pubkey kind accepted payload :
  VerifyPayload bundleBytes pubkey kind accepted = Ok payload ↔
  ∃ bundle, is_ok (CanonicalizeV1 bundleBytes) = true ∧ decode_envelope bundleBytes = Some bundle ∧
    valid_envelope bundle pubkey kind accepted ∧ payload = env_Payload bundle.
Proof.
  unfold VerifyPayload. split.
  - intros (c & H1%map_err_ok & H)%bind_ok. apply bind_ok in H as (bundle & H2%of_option_ok & H).
    apply verify_bundle_valid in H as [? ->]. exists bundle. by rewrite H1.
  - intros (bundle & H1 & H2 & H3). destruct (CanonicalizeV1 bundleBytes); [|done]. cbn. rewrite H2. cbn. by apply verify_bundle_valid.
Qed.

(** A signature speaks for one payload: when two accepted envelopes are
    signed over the same text by [alg], with key names that hold no line
    break, they are of one kind and profile, and carry the same payload up to
    canonical form, unless two byte strings with one digest are at hand. *)
Theorem signature_covers_one_payload b b' pk pk' kind kind' acc acc' c c' alg fp fp' :
  valid_envelope b pk kind acc → valid_envelope b' pk' kind' acc' →
  CanonicalizeV1 (env_Payload b) = Ok c → CanonicalizeV1 (env_Payload b') = Ok c' →
  Forall one_line [kind; kind'; pke_KeyID pk; pke_KeyID pk'; fp; fp'; alg] →
  SignatureInput kind (SignatureProfile b) alg (pke_KeyID pk) fp (PayloadSHA256 b) =
    SignatureInput kind' (SignatureProfile b') alg (pke_KeyID pk') fp' (PayloadSHA256 b') →
  kind = kind' ∧ pke_KeyID pk = pke_KeyID pk' ∧ fp = fp' ∧ (c = c' ∨ collision).
Proof.
  intros Hb Hb' Hc Hc' Hl. rewrite (ve_profile _ _ _ _ Hb), (ve_profile _ _ _ _ Hb').
  destruct (ve_signed _ _ _ _ Hb) as (c0 & E0 & -> & _), (ve_signed _ _ _ _ Hb') as (c0' & E0' & -> & _).
  rewrite Hc in E0. injection E0 as <-. rewrite Hc' in E0'. injection E0' as <-.
  pose proof (sha_prefixed_line c). pose proof (sha_prefixed_line c').
  repeat match type of Hl with Forall _ (_ :: _) => apply Forall_cons in Hl as [? Hl] end.
  unfold SignatureInput. intros E. split_lines. subst. do 3 (split; [done|]). by apply sha_prefixed_determines.
Qed.

(** [ValidatePublicKeyEnvelope] accepts exactly the key envelopes of
    version 1 with an accepted profile and a key id, whose keys name each
    algorithm once under the fingerprint of that algorithm, key id and key,
    and whose validity window, where it names a bound, contains the clock. *)
Theorem ValidatePublicKeyEnvelope_accepts env accepted now :
  ValidatePublicKeyEnvelope env accepted now = Ok () ↔
  pke_V env = 1 ∧ pke_Profile env ∈ accepted ∧ pke_KeyID env ≠ [] ∧ pke_Keys env ≠ [] ∧
  NoDup (pkm_Alg <$> pke_Keys env) ∧ Forall (key_entry_ok (pke_KeyID env)) (pke_Keys env) ∧
  bound_ok (pke_NotBefore env) (λ nb, nb ≤ now) ∧ bound_ok (pke_ExpiresAt env) (λ ex, now < ex).
Proof.
  unfold ValidatePublicKeyEnvelope. rewrite bind_ok. unfold ValidatePublicKeyEnvelopeShape.
  assert (profileAccepted (pke_Profile env) accepted = true ↔ pke_Profile env ∈ accepted) as Hp.
  { unfold profileAccepted. rewrite existsb_exists. setoid_rewrite beq_true. setoid_rewrite <- list_elem_of_In. naive_solver. }
  split.
  - intros ([] & H & Hw%ValidWindow_ok). destruct (_ =? _) eqn:E1; [|done]. destruct (profileAccepted _ _) eqn:E2; [|done].
    cbn [negb] in H. destruct (beq (pke_KeyID env) []) eqn:E3; [done|]. destruct (bool_decide (pke_Keys env = [])) eqn:E4; [done|].
    apply bool_decide_eq_false in E4. do 2 (destruct (_ && _); [done|]). apply validate_keys_ok in H as (? & ? & _). b2p. tauto.
  - intros (H1 & H2 & H3 & H4 & H5 & H6 & H7 & H8). exists (). split; [|by apply ValidWindow_ok].
    rewrite H1, (proj2 Hp H2), (proj2 (beq_false _ _) H3), bool_decide_false by done. cbn [negb Z.eqb Pos.eqb].
    assert (∀ t f, bound_ok t f → negb (beq t []) && bool_decide (time_Parse t = None) = false) as Hb.
    { intros t f [->|(x & -> & _)]; [done|]. by rewrite andb_false_r. }
    rewrite (Hb _ _ H7), (Hb _ _ H8). apply validate_keys_ok. split; [done|]. split; [done|]. apply Forall_forall. set_solver.
Qed.
End Properties.

(** ** Witnesses *)

Definition sample_key (alg : bytes) (pub : bytes) : PublicKeyMaterial :=
  mkKeyMaterial alg (b64_encode pub) (EnvelopeKeyFingerprint alg (bs "root-1") (b64_encode pub)).
Definition sample_authority : PublicKeyEnvelope :=
  mkKeyEnvelope 1 (bs "aiii.server_key.public") (bs "root-1") [] ProfileRoot [] [] [] [sample_key SigAlg [9; 1]; sample_key SLHAlg [9; 2]].
Definition sample_kind : bytes := bs "aii.sample".
Definition sample_signed (alg pub : bytes) (mark : Z) (payload : bytes) : SignatureEntry :=
  let fp := EnvelopeKeyFingerprint alg (bs "root-1") (b64_encode pub) in
  let input := SignatureInput sample_kind ProfileRoot alg (bs "root-1") fp (SHA256Prefixed payload) in
  mkSigEntry alg (bs "root-1") fp (SHA256Prefixed input) (b64_encode (mark :: toy_hash input)).
Definition sample_bundle : Envelope :=
  mkEnvelope sample_kind (js "{ 'n' : 1 }") (SHA256Prefixed (js "{'n':1}")) CanonicalizationV1 ProfileRoot
    [sample_signed SigAlg [9; 1] 7 (js "{'n':1}"); sample_signed SLHAlg [9; 2] 8 (js "{'n':1}")].

Example sample_bundle_verifies : verify_bundle sample_bundle sample_authority sample_kind [ProfileRoot] = Ok (js "{ 'n' : 1 }").
Proof. vm_compute. reflexivity. Qed.

Lemma sample_bundle_valid : valid_envelope sample_bundle sample_authority sample_kind [ProfileRoot].
Proof. apply (verify_bundle_valid sample_bundle sample_authority sample_kind [ProfileRoot] (js "{ 'n' : 1 }")), sample_bundle_verifies. Qed.

Lemma signature_covers_one_payload_witness : js "{'n':1}" = js "{'n':1}" ∨ collision.
Proof.
  refine (proj2 (proj2 (proj2 (signature_covers_one_payload sample_bundle sample_bundle sample_authority sample_authority sample_kind sample_kind
    [ProfileRoot] [ProfileRoot] (js "{'n':1}") (js "{'n':1}") SigAlg (bs "f") (bs "f") sample_bundle_valid sample_bundle_valid _ _ _ eq_refl)))).
  - vm_compute. reflexivity.
  - vm_compute. reflexivity.
  - repeat (apply Forall_cons; split; [repeat (apply Forall_cons; split; [discriminate|]); apply Forall_nil_2|]). apply Forall_nil_2.
Defined.

(** The text of [sample_bundle]. *)
Definition sample_sig_text (s : SignatureEntry) : bytes :=
  field_object [(bs "alg", json_string true (se_Alg s)); (bs "key_id", json_string true (se_KeyID s));
    (bs "public_key_fingerprint", json_string true (se_PublicKeyFingerprint s));
    (bs "signature_input_sha256", json_string true (se_SignatureInputSHA256 s)); (bs "sig_b64", json_string true (se_SigB64 s))].
Definition sample_bundle_text : bytes :=
  field_object [(bs "artifact_kind", json_string true sample_kind); (bs "payload", env_Payload sample_bundle);
    (bs "payload_sha256", json_string true (PayloadSHA256 sample_bundle));
    (bs "canonicalization", json_string true CanonicalizationV1); (bs "signature_profile", json_string true ProfileRoot);
    (bs "signatures", 91 :: comma_join (map sample_sig_text (Signatures sample_bundle)) ++ [93])].

Lemma VerifyPayload_accepts_signed_witness :
  ∃ bundle, decode_envelope sample_bundle_text = Some bundle ∧ valid_envelope bundle sample_authority sample_kind [ProfileRoot].
Proof.
  destruct (proj1 (VerifyPayload_accepts_signed sample_bundle_text sample_authority sample_kind [ProfileRoot] (js "{ 'n' : 1 }")))
    as (bundle & _ & H1 & H2 & _); [vm_compute; reflexivity|].
  exists bundle. split; [exact H1|exact H2].
Defined.

Lemma ValidatePublicKeyEnvelope_accepts_witness :
  NoDup (pkm_Alg <$> pke_Keys sample_authority) ∧ Forall (key_entry_ok (pke_KeyID sample_authority)) (pke_Keys sample_authority).
Proof.
  destruct (proj1 (ValidatePublicKeyEnvelope_accepts sample_authority [ProfileRoot] 0)) as (_ & _ & _ & _ & H1 & H2 & _); [vm_compute; reflexivity|].
  split; [exact H1|exact H2].
Defined.
