(* ===== verification/Witness.v ===== *)
(** * internal/witness: heads and the tail beside the ledger

    The verifier of witness heads (headverify.go), which the ledger's walk asks
    about every [system.witnessed] record, the texts the witness and the
    identity sign (protocol.go), and the check of a walked chain against the
    last receipt kept beside it (tail.go). *)

From stdpp Require Import gmap.
From S2P Require Import Prelude Utf8 GoJson CanonicalJson CanonicalJsonFacts GoStruct Crypto Event Lines Chain Time Container SigEnvelope.

Definition ZeroLedgerHash : bytes := replicate 64 48.

(** ** The signed texts *)

Record WitnessReceipt := mkReceipt {
  IdentityID : bytes;
  PreviousWitnessedLedgerOrdinal : Z;
  PreviousWitnessedLedgerHash : bytes;
  LedgerOrdinal : Z;
  LedgerHash : bytes;
  WitnessedAt : bytes;
}.

Definition ReceiptSignatureInput (r : WitnessReceipt) : bytes :=
  bs "AIII-WITNESS-RECEIPT" ++ [10] ++
  bs "identity_id:" ++ IdentityID r ++ [10] ++
  bs "previous_witnessed_ledger_ordinal:" ++ FormatInt (PreviousWitnessedLedgerOrdinal r) ++ [10] ++
  bs "previous_witnessed_ledger_hash:" ++ PreviousWitnessedLedgerHash r ++ [10] ++
  bs "ledger_ordinal:" ++ FormatInt (LedgerOrdinal r) ++ [10] ++
  bs "ledger_hash:" ++ LedgerHash r ++ [10] ++
  bs "witnessed_at:" ++ WitnessedAt r ++ [10].

Definition RequestSignatureInput (identityID canonicalPublicKey : bytes) (ledgerOrdinal : Z) (ledgerHash : bytes) : bytes :=
  bs "AIII-WITNESS-REQUEST" ++ [10] ++
  bs "identity_id:" ++ identityID ++ [10] ++
  bs "identity_public_key:" ++ canonicalPublicKey ++ [10] ++
  bs "ledger_ordinal:" ++ FormatInt ledgerOrdinal ++ [10] ++
  bs "ledger_hash:" ++ ledgerHash ++ [10].

Definition IdentityIDMaterial (mlDsaFingerprint canonicalKeyHash : bytes) : bytes :=
  bs "AIII-WITNESS-IDENTITY-ID" ++ [10] ++
  bs "identity_public_key_fingerprint:" ++ mlDsaFingerprint ++ [10] ++
  bs "identity_public_key_hash:" ++ canonicalKeyHash ++ [10].

(** ** Key ids as file names *)

Definition name_rune (r : Z) : bool :=
  between 97 122 r || between 65 90 r || between 48 57 r || (r =? 95) || (r =? 45) || (r =? 46).

Definition validKeyIDFilename (keyID : bytes) : bool :=
  if beq keyID [] || (200 <? length keyID)%nat || HasPrefix keyID [46] then false
  else forallb name_rune (runes keyID).

(** ** The head verifier *)

Record WitnessKeyMaterial := mkWitnessKey {
  km_KeyID : bytes;
  km_Fingerprint : bytes;
  km_PublicKey : bytes;
  km_NotBefore : Z;
  km_ExpiresAt : Z;
  km_envelope : PublicKeyEnvelope;
}.

Record Heads := mkHeads {
  keys : gmap (list Z) WitnessKeyMaterial;
  prevOrdinal : Z;
  prevHash : bytes;
  identityID : bytes;
  verified : Z;
  unverified : Z;
  footnotes : Z;
  attestedOrdinal : Z;
  attestedHash : bytes;
}.

Definition NewHeadVerifier (ks : gmap (list Z) WitnessKeyMaterial) : Heads :=
  mkHeads ks (-1) ZeroLedgerHash [] 0 0 0 (-1) [].

Definition Attested (h : Heads) : Z * bytes * bool :=
  if attestedOrdinal h <? 0 then (0, [], false) else (u64 (attestedOrdinal h), attestedHash h, true).

Definition chainAt (h : Heads) : Z := if prevOrdinal h <? 0 then 0 else u64 (prevOrdinal h).

Definition set_identity (h : Heads) (id : bytes) : Heads :=
  mkHeads (keys h) (prevOrdinal h) (prevHash h) id (verified h) (unverified h) (footnotes h) (attestedOrdinal h) (attestedHash h).
Definition set_prev (h : Heads) (ord : Z) (hash : bytes) : Heads :=
  mkHeads (keys h) ord hash (identityID h) (verified h) (unverified h) (footnotes h) (attestedOrdinal h) (attestedHash h).
Definition count_unverified (h : Heads) : Heads :=
  mkHeads (keys h) (prevOrdinal h) (prevHash h) (identityID h) (verified h) (unverified h + 1) (footnotes h) (attestedOrdinal h) (attestedHash h).
Definition count_footnote (h : Heads) : Heads :=
  mkHeads (keys h) (prevOrdinal h) (prevHash h) (identityID h) (verified h) (unverified h) (footnotes h + 1) (attestedOrdinal h) (attestedHash h).
Definition set_attested (h : Heads) (ord : Z) (hash : bytes) : Heads :=
  mkHeads (keys h) (prevOrdinal h) (prevHash h) (identityID h) (verified h + 1) (unverified h) (footnotes h) ord hash.

(** [headReceipt]: the receipt as a head's payload carries it. *)
Record headReceipt := mkHeadReceipt { hr_receipt : WitnessReceipt; hr_WitnessKeyID : bytes; hr_WitnessSigB64 : bytes }.

Definition decode_receipt (raw : bytes) : option headReceipt :=
  ms ← struct_members false true [bs "identity_id"; bs "previous_witnessed_ledger_ordinal"; bs "previous_witnessed_ledger_hash";
        bs "ledger_ordinal"; bs "ledger_hash"; bs "witnessed_at"; bs "witness_key_id"; bs "witness_sig_b64"] raw;
  id ← field conv_string [] (bs "identity_id") ms;
  pord ← field conv_int 0 (bs "previous_witnessed_ledger_ordinal") ms;
  phash ← field conv_string [] (bs "previous_witnessed_ledger_hash") ms;
  ord ← field conv_int 0 (bs "ledger_ordinal") ms;
  hash ← field conv_string [] (bs "ledger_hash") ms;
  at_ ← field conv_string [] (bs "witnessed_at") ms;
  key ← field conv_string [] (bs "witness_key_id") ms;
  sig ← field conv_string [] (bs "witness_sig_b64") ms;
  Some (mkHeadReceipt (mkReceipt id pord phash ord hash at_) key sig).

Inductive head_err :=
| HNotHead | HPayload | HNoReceipt | HReceipt
| HBeforeHead            (** the hash attested is not the record before the head *)
| HLateCloses            (** a late head closes its segment *)
| HOrdinal               (** neither the record before the head nor one after the last attested *)
| HHashNotAtHand | HHashDiffers
| HIdentity | HContinues
| HKeyUnknown (keyID : bytes)
| HWitnessedAt | HBeforeKey | HAfterKey | HKeyWindow (e : envelope_err) | HSigEncoding | HSignature (e : crypto_err).

(** [headPlace]: where in the chain a head stands. *)
Record headPlace := mkPlace {
  p_seq : Z;
  p_prev : bytes;
  p_sealed : bool;
  p_closing : bool;
  p_hashAt : option (Z → option bytes);
}.

(** The first switch of [verifyReceipt]: which record the receipt attests. *)
Definition check_attested (h : Heads) (place : headPlace) (r : WitnessReceipt) : option head_err :=
  let seq := p_seq place in
  if (0 <? seq) && (LedgerOrdinal r =? to_int64 (to_int64 seq - 1)) then
    if beq (LedgerHash r) (p_prev place) then None else Some HBeforeHead
  else if p_closing place then Some HLateCloses
  else if (LedgerOrdinal r <=? prevOrdinal h) || (to_int64 seq <=? LedgerOrdinal r) then Some HOrdinal
  else match (hashAt ← p_hashAt place; hashAt (u64 (LedgerOrdinal r))) with
       | None => Some HHashNotAtHand
       | Some hash => if beq (LedgerHash r) hash then None else Some HHashDiffers
       end.

Section Witness.
Context `{P : Primitives}.

(** The checks under a known key. *)
Definition check_under_key (km : WitnessKeyMaterial) (hr : headReceipt) : result head_err unit :=
  at_ ← of_option HWitnessedAt (time_Parse (WitnessedAt (hr_receipt hr)));
  if negb (IsZero (km_NotBefore km)) && Before at_ (km_NotBefore km) then Err HBeforeKey
  else if negb (Before at_ (km_ExpiresAt km)) then Err HAfterKey
  else
    _ ← map_err HKeyWindow (ValidWindow (km_envelope km) at_);
    sig ← of_option HSigEncoding (b64_decode (hr_WitnessSigB64 hr));
    map_err HSignature (Verify (km_PublicKey km) (ReceiptSignatureInput (hr_receipt hr)) sig).

Definition verifyReceipt (h : Heads) (place : headPlace) (hr : headReceipt) : Heads * option head_err :=
  let r := hr_receipt hr in
  match check_attested h place r with
  | Some e => (h, Some e)
  | None =>
    if negb (beq (identityID h) []) && negb (beq (IdentityID r) (identityID h)) then (h, Some HIdentity)
    else
      let h := if beq (identityID h) [] then set_identity h (IdentityID r) else h in
      if negb (PreviousWitnessedLedgerOrdinal r =? prevOrdinal h) || negb (beq (PreviousWitnessedLedgerHash r) (prevHash h))
      then (h, Some HContinues)
      else
        let h := set_prev h (LedgerOrdinal r) (LedgerHash r) in
        match keys h !! hr_WitnessKeyID hr with
        | None => (if p_sealed place then h else count_unverified h, Some (HKeyUnknown (hr_WitnessKeyID hr)))
        | Some km =>
          match check_under_key km hr with
          | Err e => (h, Some e)
          | Ok _ => (set_attested h (LedgerOrdinal r) (LedgerHash r), None)
          end
        end
  end.

Definition VerifyWitnessHead (h : Heads) (evt : Event) (at_ : Z → option bytes) : Heads * Z * option head_err :=
  if negb (beq (EType evt) EventSystemWitnessed) then (h, chainAt h, Some HNotHead)
  else match struct_members true false [bs "receipt"; bs "receipt_before_rewrap"] (Payload evt) with
  | None => (h, chainAt h, Some HPayload)
  | Some ms =>
    let receipt := raw_field (bs "receipt") ms in
    if beq receipt [] then
      if beq (raw_field (bs "receipt_before_rewrap") ms) [] then (h, chainAt h, Some HNoReceipt)
      else let h := count_footnote h in (h, chainAt h, None)
    else match decode_receipt receipt with
    | None => (h, chainAt h, Some HReceipt)
    | Some hr =>
      let '(h', err) := verifyReceipt h (mkPlace (Seq evt) (Prev evt) (sealed evt) (closing evt) (Some at_)) hr in
      (h', chainAt h', err)
    end
  end.

(** The verifier the ledger is given. *)
#[export] Instance witness_heads : HeadVerifier := {|
  heads_state := Heads;
  head_error := head_err;
  is_key_unknown e := match e with HKeyUnknown _ => true | _ => false end;
  VerifyHead := VerifyWitnessHead;
|}.

Lemma chainAt_u64 h : 0 ≤ chainAt h < two64.
Proof. unfold chainAt. case_match; [split; [lia|done]|apply u64_range]. Qed.

#[export] Instance witness_heads_laws : HeadVerifierLaws witness_heads.
Proof.
  intros h e at_. cbn. unfold VerifyWitnessHead. repeat case_match; cbn [fst snd]; apply chainAt_u64.
Qed.
End Witness.

(** ** The tail beside the ledger *)

Record LocalTail := mkTail { t_LedgerOrdinal : Z; t_LedgerHash : bytes; t_WitnessedAt : bytes; t_Fingerprint : bytes }.

Inductive tail_err := TailUnreadable | TailCorrupt | TailMalformed.

(** [ReadLocalTail], of what reading the file gives: no file, an error, or its
    content. *)
Definition ReadLocalTail (file : result unit (option bytes)) : result tail_err (option LocalTail) :=
  match file with
  | Err _ => Err TailUnreadable
  | Ok None => Ok None
  | Ok (Some raw) =>
    tail ← of_option TailCorrupt (
      ms ← struct_members true false [bs "ledger_ordinal"; bs "ledger_hash"; bs "witnessed_at"; bs "witness_key_fingerprint"] raw;
      ord ← field conv_int 0 (bs "ledger_ordinal") ms;
      hash ← field conv_string [] (bs "ledger_hash") ms;
      at_ ← field conv_string [] (bs "witnessed_at") ms;
      fp ← field conv_string [] (bs "witness_key_fingerprint") ms;
      Some (mkTail ord hash at_ fp));
    if (t_LedgerOrdinal tail <? 1) || beq (t_LedgerHash tail) [] then Err TailMalformed else Ok (Some tail)
  end.

(** [writeLocalTail]: the document it publishes. *)
Definition tail_document (t : LocalTail) : bytes :=
  field_object [(bs "ledger_ordinal", FormatInt (t_LedgerOrdinal t)); (bs "ledger_hash", json_string true (t_LedgerHash t));
                (bs "witnessed_at", json_string true (t_WitnessedAt t)); (bs "witness_key_fingerprint", json_string true (t_Fingerprint t))].

(** [TailCheck]; [None] is the nil pointer, which checks nothing. *)
Record TailCheck := mkTailCheck { tc_tail : LocalTail; tc_lastSeq : Z; tc_observed : bytes; tc_held : bool }.

Definition NewTailCheck (tail : option LocalTail) : option TailCheck := (λ t, mkTailCheck t 0 [] false) <$> tail.

Inductive TailRefusal := Truncation (tail : LocalTail) (lastSeq : Z) | Fork (tail : LocalTail) (lastSeq : Z) (observed : bytes).

Section Tail.
Context `{P : Primitives}.

Definition Visit (c : option TailCheck) (evt : Event) : option TailCheck :=
  (λ c, mkTailCheck (tc_tail c) (Seq evt)
     (if to_int64 (Seq evt) =? t_LedgerOrdinal (tc_tail c) then EntryHash evt else tc_observed c) (tc_held c)) <$> c.

Definition Held (c : option TailCheck) : option TailCheck * option TailRefusal :=
  match c with
  | None => (None, None)
  | Some k =>
    if to_int64 (tc_lastSeq k) <? t_LedgerOrdinal (tc_tail k) then (c, Some (Truncation (tc_tail k) (tc_lastSeq k)))
    else if negb (beq (tc_observed k) (t_LedgerHash (tc_tail k))) then (c, Some (Fork (tc_tail k) (tc_lastSeq k) (tc_observed k)))
    else (Some (mkTailCheck (tc_tail k) (tc_lastSeq k) (tc_observed k) true), None)
  end.
End Tail.

(** ** What the verifier establishes *)

Section HeadFacts.
Context `{P : Primitives}.
Variable ks : gmap (list Z) WitnessKeyMaterial.
Implicit Types (seen : list Event) (h : Heads).

(** [hash] is the hash the chain has at ordinal [ord]: of record [ord], or
    none at 0. *)
Definition attests seen (ord : Z) (hash : bytes) : Prop :=
  0 ≤ ord ≤ Z.of_nat (length seen) ∧ hash = last_hash [] (take (Z.to_nat ord) seen).

(** A receipt for that ordinal and hash verifies under a key of [ks]. *)
Definition receipt_stands (hr : headReceipt) : Prop :=
  ∃ km, ks !! hr_WitnessKeyID hr = Some km ∧ check_under_key km hr = Ok ().
Definition attested_by (ord : Z) (hash : bytes) : Prop :=
  ∃ hr, receipt_stands hr ∧ LedgerOrdinal (hr_receipt hr) = ord ∧ LedgerHash (hr_receipt hr) = hash.

(** The receipt in a head's payload, and the footnote a re-wrap leaves. *)
Definition head_receipt (e : Event) : option headReceipt :=
  ms ← struct_members true false [bs "receipt"; bs "receipt_before_rewrap"] (Payload e);
  let receipt := raw_field (bs "receipt") ms in
  if beq receipt [] then None else decode_receipt receipt.
Definition is_footnote (e : Event) : Prop :=
  ∃ ms, struct_members true false [bs "receipt"; bs "receipt_before_rewrap"] (Payload e) = Some ms ∧
    raw_field (bs "receipt") ms = [] ∧ raw_field (bs "receipt_before_rewrap") ms ≠ [].
Definition head_verified (e : Event) : Prop := is_footnote e ∨ ∃ hr, head_receipt e = Some hr ∧ receipt_stands hr.

Record heads_inv h seen : Prop := {
  hi_keys : keys h = ks;
  hi_prev : prevOrdinal h = -1 ∨ prevOrdinal h < Z.of_nat (length seen) ∧ attests seen (prevOrdinal h) (prevHash h);
  hi_attested : attestedOrdinal h = -1 ∨
    attests seen (attestedOrdinal h) (attestedHash h) ∧ attested_by (attestedOrdinal h) (attestedHash h);
}.

Lemma attests_app seen l ord hash : attests seen ord hash → attests (seen ++ l) ord hash.
Proof. intros [H ->]. split; [rewrite length_app; lia|]. by rewrite take_app_le by lia. Qed.

Lemma heads_inv_app h seen e : heads_inv h seen → heads_inv h (seen ++ [e]).
Proof.
  intros [H1 H2 H3]. split; [done|..].
  - destruct H2 as [?|[? ?]]; [by left|]. right. split; [rewrite length_app; lia|by apply attests_app].
  - destruct H3 as [?|[? ?]]; [by left|]. right. split; [by apply attests_app|done].
Qed.

Lemma new_heads_inv : heads_inv (NewHeadVerifier ks) [].
Proof. by split; [|left..]. Qed.

Lemma attests_last seen : attests seen (Z.of_nat (length seen)) (last_hash [] seen).
Proof. split; [lia|]. by rewrite Nat2Z.id, firstn_all. Qed.

Lemma attests_record seen i e : seen !! i = Some e → attests seen (Z.of_nat i + 1) (EntryHash e).
Proof.
  intros H. pose proof (lookup_lt_Some _ _ _ H). split; [lia|].
  replace (Z.to_nat (Z.of_nat i + 1)) with (S i) by lia. by rewrite (take_S_r _ _ _ H), last_hash_snoc.
Qed.

(** The first switch of [verifyReceipt] passes only receipts whose hash is the
    chain's, beyond what the last head attested. *)
Lemma check_attested_ok h seen e w sld cls r : heads_inv h seen → Z.of_nat (length seen) + 1 < 9223372036854775808 →
  Seq e = Z.of_nat (length seen) + 1 → Prev e = last_hash [] seen → since_ok w seen →
  check_attested h (mkPlace (Seq e) (Prev e) sld cls (Some (hashAt w))) r = None →
  attests seen (LedgerOrdinal r) (LedgerHash r) ∧ prevOrdinal h < LedgerOrdinal r.
Proof.
  intros Hi Hb Hs Hp Hw. unfold check_attested. cbn [p_seq p_prev p_closing p_hashAt].
  rewrite Hs, (to_int64_small (_ + 1)), (to_int64_small (_ + 1 - 1)) by lia.
  assert (-1 ≤ prevOrdinal h < Z.of_nat (length seen)) as Hprev by (destruct (hi_prev _ _ Hi) as [?|[? [? _]]]; lia).
  destruct (_ && _) eqn:E1; b2p.
  - destruct (beq _ _) eqn:E2; [|done]. b2p. intros _. rewrite E2, Hp. replace (LedgerOrdinal r) with (Z.of_nat (length seen)) by lia.
    split; [apply attests_last|lia].
  - destruct cls; [done|]. destruct (_ || _) eqn:E2; [done|]. b2p. cbn [mbind option_bind].
    rewrite u64_small by (unfold two64; lia).
    destruct (hashAt w (LedgerOrdinal r)) as [hash|] eqn:Eh; [|done]. destruct (beq _ _) eqn:E3; [|done]. b2p. intros _. subst hash.
    split; [|lia]. destruct (hashAt_ok w seen (LedgerOrdinal r) (LedgerHash r)) as (x & i & -> & Hx & ->); try done; [unfold two64; lia..|].
    by apply attests_record.
Qed.

Lemma verifyReceipt_inv h seen e w sld cls hr h' err : heads_inv h seen → Z.of_nat (length seen) + 1 < 9223372036854775808 →
  Seq e = Z.of_nat (length seen) + 1 → Prev e = last_hash [] seen → since_ok w seen →
  verifyReceipt h (mkPlace (Seq e) (Prev e) sld cls (Some (hashAt w))) hr = (h', err) →
  heads_inv h' (seen ++ [e]) ∧ (err = None → receipt_stands hr).
Proof.
  intros Hi Hb Hs Hp Hw. unfold verifyReceipt.
  destruct (check_attested _ _ _) as [er|] eqn:Ec; [intros [= <- <-]; split; [by apply heads_inv_app|done]|].
  destruct (check_attested_ok h seen e w sld cls _ Hi Hb Hs Hp Hw Ec) as [Ha _].
  destruct (_ && _); [intros [= <- <-]; split; [by apply heads_inv_app|done]|].
  set (h1 := if beq (identityID h) [] then _ else h).
  assert (heads_inv h1 seen) as Hi1 by (unfold h1; case_match; [by destruct Hi|done]).
  destruct (_ || _); [intros [= <- <-]; split; [by apply heads_inv_app|done]|].
  set (h2 := set_prev h1 _ _).
  assert (heads_inv h2 (seen ++ [e])) as Hi2.
  { destruct (heads_inv_app _ _ e Hi1) as [K1 K2 K3]. split; [done| |done]. right. cbn [h2 set_prev prevOrdinal prevHash].
    split; [destruct Ha; rewrite length_app; cbn; lia|by apply attests_app]. }
  destruct (keys h2 !! _) as [km|] eqn:Ek.
  - destruct (check_under_key km hr) as [[]|er] eqn:Eu; intros [= <- <-]; [|done].
    assert (receipt_stands hr) as Hr by (exists km; by rewrite <- (hi_keys _ _ Hi2)).
    split; [|done]. destruct Hi2 as [K1 K2 K3]. split; [done|done|]. right. cbn [set_attested attestedOrdinal attestedHash].
    split; [by apply attests_app|]. by exists hr.
  - intros [= <- <-]. split; [|done]. destruct sld; [done|]. by destruct Hi2.
Qed.

Lemma VerifyWitnessHead_inv h seen e w h' a err : heads_inv h seen → Z.of_nat (length seen) + 1 < 9223372036854775808 →
  Seq e = Z.of_nat (length seen) + 1 → Prev e = last_hash [] seen → since_ok w seen →
  VerifyWitnessHead h e (hashAt w) = (h', a, err) →
  heads_inv h' (seen ++ [e]) ∧ (err = None → head_verified e).
Proof.
  intros Hi Hb Hs Hp Hw. pose proof (heads_inv_app _ _ e Hi) as Hi'. unfold VerifyWitnessHead.
  destruct (negb _); [by intros [= <- _ <-]|]. destruct (struct_members _ _ _ _) as [ms|] eqn:Em; [|by intros [= <- _ <-]].
  destruct (beq _ _) eqn:E1; b2p.
  - destruct (beq (raw_field (bs "receipt_before_rewrap") ms) _) eqn:E2; b2p; [by intros [= <- _ <-]|].
    intros [= <- _ <-]. split; [by destruct Hi'|]. intros _. left. by exists ms.
  - destruct (decode_receipt _) as [hr|] eqn:Ed; [|by intros [= <- _ <-]].
    destruct (verifyReceipt _ _ _) as [h1 er] eqn:Ev. intros [= <- _ <-].
    destruct (verifyReceipt_inv h seen e w _ _ _ _ _ Hi Hb Hs Hp Hw Ev) as [? Hst]. split; [done|]. intros ->. right. exists hr. split; [|by apply Hst].
    unfold head_receipt. rewrite Em. cbn [mbind option_bind]. by rewrite (proj2 (beq_false _ _) E1).
Qed.

(** Along the ledger's walk. *)
Context {S V VE : Type}.
Variable pubKey : bytes.
Variable visit : option (V → Event → V * option VE).

Definition sealed_head (e : Event) : Prop := sealed e = true ∧ EType e = EventSystemWitnessed.

Lemma walk_step_heads hs (s : walk (V := V)) seen h e s' : walk_inv pubKey hs s seen → heads s = Some h → heads_inv h seen →
  Z.of_nat (length seen) + 1 < 9223372036854775808 → walk_step (S := S) pubKey visit s e = Ok s' →
  ∃ h', heads s' = Some h' ∧ heads_inv h' (seen ++ [e]) ∧ (sealed_head e → head_verified e).
Proof.
  intros Hw Hh Hi Hb (pr & wh & v' & H1 & H2 & _ & _ & _ & Hc & ->)%walk_step_ok. cbn [heads].
  rewrite (inv_seq _ _ _ _ Hw), u64_small in H1 by (unfold two64; lia). rewrite (inv_prev _ _ _ _ Hw) in H2.
  unfold check_head in Hc. rewrite Hh in Hc. destruct (beq (EType e) _) eqn:Et; b2p.
  2:{ injection Hc as <-. exists h. split; [done|]. split; [by apply heads_inv_app|by intros [_ ?]]. }
  cbn [VerifyHead is_key_unknown witness_heads] in Hc.
  destruct (VerifyWitnessHead h e (hashAt (since s))) as [[h' a] err] eqn:Ev.
  destruct (VerifyWitnessHead_inv h seen e (since s) h' a err Hi Hb H1 H2 (inv_since _ _ _ _ Hw) Ev) as [Hi' Hv].
  destruct err as [er|].
  - destruct (negb (sealed e) && _) eqn:Es; [|done]. injection Hc as <-. exists h'. split; [done|]. split; [done|].
    intros [Hs _]. rewrite Hs in Es. done.
  - injection Hc as <-. exists h'. split; [done|]. split; [done|]. intros _. by apply Hv.
Qed.

Lemma walk_all_heads hs evts : ∀ (s : walk (V := V)) seen h s', walk_inv pubKey hs s seen → heads s = Some h → heads_inv h seen →
  Z.of_nat (length seen + length evts) < 9223372036854775808 → walk_all (S := S) pubKey visit s evts = Ok s' →
  ∃ h', heads s' = Some h' ∧ heads_inv h' (seen ++ evts) ∧ Forall (λ e, sealed_head e → head_verified e) evts.
Proof.
  induction evts as [|e evts IH]; intros s seen h s' Hw Hh Hi Hb; cbn [walk_all length] in *.
  - intros [= <-]. exists h. by rewrite app_nil_r.
  - intros (s1 & H1 & H)%bind_ok. replace (seen ++ e :: evts) with ((seen ++ [e]) ++ evts) by (by rewrite <- app_assoc).
    destruct (walk_step_heads hs s seen h e s1) as (h1 & Hh1 & Hi1 & Hv1); try done; [lia|].
    destruct (IH s1 (seen ++ [e]) h1 s') as (h' & ? & ? & ?); try done.
    + eapply walk_step_inv; [done|unfold two64; lia|done].
    + rewrite length_app. cbn. lia.
    + exists h'. split; [done|]. split; [done|]. by constructor.
Qed.
End HeadFacts.

Section Properties.
Context `{P : Primitives} `{L : !PrimitiveLaws P}.

(** C14. What a verified chain says is attested is true and signed: when
    [verifyChain] accepts a chain with a fresh head verifier, the ordinal and
    hash that [Attested] then reports are those of a record of this chain, and
    a receipt for exactly them verifies under one of the persisted keys, within
    that key's validity. *)
Theorem attested_is_true {S V VE} pubKey ks visit evts src (v : V) n s :
  Z.of_nat (length evts) < 9223372036854775808 →
  verifyChain (S := S) (VE := VE) pubKey visit (evts, src) (Some (NewHeadVerifier ks)) v = Ok (n, s) →
  ∃ h, heads s = Some h ∧
    ∀ ord hash, Attested h = (ord, hash, true) → attests evts ord hash ∧ attested_by ks ord hash.
Proof.
  intros Hl. unfold verifyChain. cbn [fst snd]. destruct (walk_all _ _ _ _) as [s'|] eqn:E; [|done].
  destruct src; [done|]. intros [= _ <-].
  destruct (walk_all_heads ks pubKey visit _ evts _ [] _ _ (walk_init_inv pubKey _ v) eq_refl (new_heads_inv ks) Hl E) as (h & Hh & [_ _ Ha] & _).
  exists h. split; [done|]. intros ord hash. unfold Attested. cbn [app] in Ha. destruct (Z.ltb_spec (attestedOrdinal h) 0); [done|]. intros [= <- <-].
  destruct Ha as [?|[Ha Hb]]; [lia|]. destruct Ha as [? ?]. rewrite u64_small by (unfold two64; lia). done.
Qed.

(** Sealed records stand on a verified head: in a chain that
    [verifyChain] accepts, every witness head inside a sealed segment carries a
    receipt that verifies under a persisted key (an unknown key is tolerated
    in the tail only), or is marked as re-wrapped. *)
Theorem sealed_heads_verified {S V VE} pubKey ks visit evts src (v : V) n s :
  Z.of_nat (length evts) < 9223372036854775808 →
  verifyChain (S := S) (VE := VE) pubKey visit (evts, src) (Some (NewHeadVerifier ks)) v = Ok (n, s) →
  Forall (λ e, sealed_head e → head_verified ks e) evts.
Proof.
  intros Hl. unfold verifyChain. cbn [fst snd]. destruct (walk_all _ _ _ _) as [s'|] eqn:E; [|done]. intros _.
  by destruct (walk_all_heads ks pubKey visit _ evts _ [] _ _ (walk_init_inv pubKey _ v) eq_refl (new_heads_inv ks) Hl E) as (h & _ & _ & ?).
Qed.

(** The state after visiting the records of a chain numbered from 1. *)
Lemma visits_state t evts : linked 0 [] evts → Z.of_nat (length evts) < 9223372036854775808 → 1 ≤ t_LedgerOrdinal t →
  foldl Visit (NewTailCheck (Some t)) evts =
    Some (mkTailCheck t (Z.of_nat (length evts))
      (match evts !! Z.to_nat (t_LedgerOrdinal t - 1) with Some e => EntryHash e | None => [] end) false).
Proof.
  intros Hl Hb Ht. induction evts as [|e evts IH] using rev_ind; [done|]. rewrite length_app in Hb. cbn [length] in Hb.
  pose proof Hl as [Hl0 _]%linked_app. rewrite foldl_app, IH by (done || lia). cbn [foldl Visit fmap option_fmap option_map tc_tail tc_observed tc_held].
  assert (Seq e = Z.of_nat (length evts) + 1) as Hs.
  { pose proof (linked_seq _ _ _ (length evts) e Hl) as H. rewrite lookup_app_r, Nat.sub_diag in H by done. specialize (H eq_refl). lia. }
  rewrite Hs, to_int64_small, length_app by lia. cbn [length]. f_equal. f_equal; [lia|].
  destruct (Z.eqb_spec (Z.of_nat (length evts) + 1) (t_LedgerOrdinal t)) as [E|E].
  - rewrite <- E. replace (Z.to_nat _) with (length evts) by lia. by rewrite lookup_app_r, Nat.sub_diag.
  - destruct (decide (Z.to_nat (t_LedgerOrdinal t - 1) < length evts)%nat); [by rewrite lookup_app_l|].
    rewrite (lookup_ge_None_2 evts), (lookup_ge_None_2 (evts ++ [e])); [done|rewrite length_app; cbn; lia|lia].
Qed.

(** The tail check decides truncation and fork: after visiting a chain
    whose records are numbered from 1, [Held] refuses with a truncation exactly
    when the chain is shorter than the ordinal the receipt beside it names,
    with a fork exactly when that record has another hash, and holds exactly
    when the chain has that record under that hash. *)
Theorem tail_check_decides t evts : linked 0 [] evts → Z.of_nat (length evts) < 9223372036854775808 → 1 ≤ t_LedgerOrdinal t →
  let n := Z.of_nat (length evts) in
  match (Held (foldl Visit (NewTailCheck (Some t)) evts)).2 with
  | Some (Truncation t' last) => t' = t ∧ last = n ∧ n < t_LedgerOrdinal t
  | Some (Fork t' last observed) => t' = t ∧ last = n ∧
      ∃ e, evts !! Z.to_nat (t_LedgerOrdinal t - 1) = Some e ∧ Seq e = t_LedgerOrdinal t ∧
        observed = EntryHash e ∧ EntryHash e ≠ t_LedgerHash t
  | None => ∃ e, evts !! Z.to_nat (t_LedgerOrdinal t - 1) = Some e ∧ Seq e = t_LedgerOrdinal t ∧ EntryHash e = t_LedgerHash t
  end.
Proof.
  intros Hl Hb Ht. cbn zeta. rewrite visits_state by done. unfold Held. cbn [tc_lastSeq tc_tail tc_observed]. rewrite to_int64_small by lia.
  destruct (Z.ltb_spec (Z.of_nat (length evts)) (t_LedgerOrdinal t)); [done|].
  destruct (lookup_lt_is_Some_2 evts (Z.to_nat (t_LedgerOrdinal t - 1))) as [e He]; [lia|]. rewrite He.
  pose proof (linked_seq _ _ _ _ _ Hl He) as Hs. destruct (beq _ _) eqn:E; b2p; cbn [negb snd].
  - exists e. split; [done|]. split; [lia|done].
  - split; [done|]. split; [done|]. exists e. split; [done|]. split; [lia|done].
Qed.

(** The receipt beside the ledger survives its file: what
    [writeLocalTail] publishes reads back as the same tail. *)
Theorem local_tail_roundtrip t : 1 ≤ t_LedgerOrdinal t → int64_ok (t_LedgerOrdinal t) = true → t_LedgerHash t ≠ [] →
  wf_text (t_LedgerHash t) → wf_text (t_WitnessedAt t) → wf_text (t_Fingerprint t) →
  ReadLocalTail (Ok (Some (tail_document t))) = Ok (Some t).
Proof.
  intros Ho Hi Hn [H1 H1'] [H2 H2'] [H3 H3']. unfold ReadLocalTail, tail_document.
  assert (tidy_fields [(bs "ledger_ordinal", FormatInt (t_LedgerOrdinal t)); (bs "ledger_hash", json_string true (t_LedgerHash t));
              (bs "witnessed_at", json_string true (t_WitnessedAt t)); (bs "witness_key_fingerprint", json_string true (t_Fingerprint t))]
    [JNum (FormatInt (t_LedgerOrdinal t)); JStr (t_LedgerHash t); JStr (t_WitnessedAt t); JStr (t_Fingerprint t)]) as Hf.
  { constructor; [split; [done|apply tidy_number, FormatInt_number]|]. repeat (constructor; [split; [done|by apply tidy_string]|]). constructor. }
  rewrite (struct_members_fields true false _ _ _ Hf); [|vm_compute; repeat constructor; set_solver|by repeat constructor].
  cbn [mbind option_bind].
  match goal with |- context [field _ _ (bs "ledger_ordinal") ?l] => assert (NoDup l.*1) as Hnd by (vm_compute; repeat constructor; set_solver) end.
  rewrite (field_at conv_int 0 (bs "ledger_ordinal") _ (FormatInt (t_LedgerOrdinal t)) (t_LedgerOrdinal t));
    [|done|by left|done|by apply ParseInt_Format]. cbn [mbind option_bind].
  rewrite (field_at conv_string [] (bs "ledger_hash") _ (json_string true (t_LedgerHash t)) (t_LedgerHash t));
    [|done|by right; left|done|by apply conv_json_string]. cbn [mbind option_bind].
  rewrite (field_at conv_string [] (bs "witnessed_at") _ (json_string true (t_WitnessedAt t)) (t_WitnessedAt t));
    [|done|by do 2 right; left|done|by apply conv_json_string]. cbn [mbind option_bind].
  rewrite (field_at conv_string [] (bs "witness_key_fingerprint") _ (json_string true (t_Fingerprint t)) (t_Fingerprint t));
    [|done|by do 3 right; left|done|by apply conv_json_string]. cbn [mbind option_bind of_option result_bind t_LedgerOrdinal t_LedgerHash].
  rewrite (proj2 (Z.ltb_ge _ _) Ho), (proj2 (beq_false _ _) Hn). by destruct t.
Qed.

Lemma FormatInt_line z : one_line (FormatInt z).
Proof.
  assert (∀ z, one_line (FormatUint z)) as H.
  { intros y. pose proof (FormatUint_digits y) as H. eapply Forall_impl; [exact H|]. intros c Hc ->. done. }
  unfold FormatInt. case_match; [|apply H]. constructor; [done|apply H].
Qed.

Lemma FormatInt_inj z z' : int64_ok z = true → int64_ok z' = true → FormatInt z = FormatInt z' → z = z'.
Proof. intros H H' E. apply (f_equal ParseInt) in E. rewrite !ParseInt_Format in E by done. congruence. Qed.

(** A witness signature speaks for one receipt: the text it covers
    determines the identity, both ordinals, both hashes and the time, when
    the texts hold no line break. *)
Theorem receipt_text_determines r r' :
  Forall one_line [IdentityID r; IdentityID r'; PreviousWitnessedLedgerHash r; PreviousWitnessedLedgerHash r';
                   LedgerHash r; LedgerHash r'; WitnessedAt r; WitnessedAt r'] →
  Forall (λ z, int64_ok z = true) [PreviousWitnessedLedgerOrdinal r; PreviousWitnessedLedgerOrdinal r'; LedgerOrdinal r; LedgerOrdinal r'] →
  ReceiptSignatureInput r = ReceiptSignatureInput r' → r = r'.
Proof.
  intros Hl Hz. repeat match type of Hl with Forall _ (_ :: _) => apply Forall_cons in Hl as [? Hl] end.
  repeat match type of Hz with Forall _ (_ :: _) => apply Forall_cons in Hz as [? Hz] end.
  unfold ReceiptSignatureInput. pose proof (FormatInt_line (PreviousWitnessedLedgerOrdinal r)). pose proof (FormatInt_line (LedgerOrdinal r)).
  pose proof (FormatInt_line (PreviousWitnessedLedgerOrdinal r')). pose proof (FormatInt_line (LedgerOrdinal r')).
  intros E. split_lines. destruct r, r'; cbn in *. f_equal; try done; by apply FormatInt_inj.
Qed.

(** No signature can be carried from one use to another: whatever their
    fields hold, the texts signed for a ledger line, a witness request, a
    witness receipt and an envelope never coincide. *)
Theorem signature_domains_disjoint alg keyID entryHash id pk ord hash r kind profile fp sum :
  NoDup [SignatureInputGold alg keyID entryHash; RequestSignatureInput id pk ord hash; ReceiptSignatureInput r;
         SignatureInput kind profile alg keyID fp sum].
Proof.
  unfold SignatureInputGold, RequestSignatureInput, ReceiptSignatureInput, SignatureInput.
  repeat (apply NoDup_cons; split; [intros Hin; repeat (apply elem_of_cons in Hin as [Hin|Hin]; [discriminate Hin|]); by apply elem_of_nil in Hin|]).
  apply NoDup_nil_2.
Qed.
End Properties.

(** ** Witnesses *)

(** A key, a receipt for the first record, and a head that carries it. *)
Definition sample_witness_key : WitnessKeyMaterial :=
  mkWitnessKey (bs "k1") (bs "f") [9; 3] time_zero (10 ^ 21) (mkKeyEnvelope 1 [] (bs "k1") [] ProfileRoot [] [] [] []).
Definition sample_keys : gmap (list Z) WitnessKeyMaterial := {[ bs "k1" := sample_witness_key ]}.
Definition sample_receipt : WitnessReceipt :=
  mkReceipt (bs "did:a") (-1) ZeroLedgerHash 1 (EntryHash sample_first) (bs "2026-01-02T03:04:05Z").
Definition sample_receipt_text : bytes :=
  field_object [(bs "identity_id", json_string true (IdentityID sample_receipt)); (bs "previous_witnessed_ledger_ordinal", FormatInt (-1));
    (bs "previous_witnessed_ledger_hash", json_string true ZeroLedgerHash); (bs "ledger_ordinal", FormatInt 1);
    (bs "ledger_hash", json_string true (LedgerHash sample_receipt)); (bs "witnessed_at", json_string true (WitnessedAt sample_receipt));
    (bs "witness_key_id", json_string true (bs "k1"));
    (bs "witness_sig_b64", json_string true (b64_encode (7 :: toy_hash (ReceiptSignatureInput sample_receipt))))].
Definition sample_head : Event := sample_next 2 (EntryHash sample_first) EventSystemWitnessed (field_object [(bs "receipt", sample_receipt_text)]).
(** The head as a sealed segment gives it. *)
Definition sample_sealed_head : Event :=
  mkEvent (Seq sample_head) (Prev sample_head) (Timestamp sample_head) (EType sample_head) (Ring sample_head) (Content sample_head)
    (Payload sample_head) (Sig sample_head) false true true [].

Abbreviation sample_witnessed :=
  (verifyChain (HV := witness_heads) (S := unit) (V := unit) (VE := unit) [9; 1] None ([sample_first; sample_sealed_head], None) (Some (NewHeadVerifier sample_keys)) tt).

Lemma sample_witnessed_ok : ∃ s h, sample_witnessed = Ok (2, s) ∧ heads s = Some h ∧ Attested h = (1, EntryHash sample_first, true).
Proof.
  assert ((match sample_witnessed with Ok (n, s) => Some (n, Attested <$> heads s) | Err _ => None end) =
    Some (2, Some (1, EntryHash sample_first, true))) as E by (vm_compute; reflexivity).
  destruct sample_witnessed as [[n s]|]; [|discriminate E]. injection E as -> E. destruct (heads s) as [h|] eqn:Eh; [|discriminate E].
  injection E as E. exists s, h. split; [reflexivity|]. split; [exact Eh|exact E].
Qed.

Lemma attested_is_true_witness : ∃ h, Attested h = (1, EntryHash sample_first, true) ∧
  attests [sample_first; sample_sealed_head] 1 (EntryHash sample_first) ∧ attested_by sample_keys 1 (EntryHash sample_first).
Proof.
  destruct sample_witnessed_ok as (s & h & H & Hh & Ha).
  destruct (attested_is_true [9; 1] sample_keys None [sample_first; sample_sealed_head] None tt 2 s eq_refl H) as (h' & Hh' & Ht).
  rewrite Hh in Hh'. injection Hh' as <-. exists h. split; [exact Ha|exact (Ht _ _ Ha)].
Defined.

Lemma sealed_heads_verified_witness : head_verified sample_keys sample_sealed_head.
Proof.
  destruct sample_witnessed_ok as (s & h & H & _).
  pose proof (sealed_heads_verified [9; 1] sample_keys None [sample_first; sample_sealed_head] None tt 2 s eq_refl H) as Hf.
  apply Forall_cons in Hf as [_ Hf]. apply Forall_cons in Hf as [Hf _]. apply Hf. split; [exact eq_refl|exact eq_refl].
Defined.

Definition sample_tail : LocalTail := mkTail 2 (EntryHash sample_second) (bs "2026-01-02T03:04:05Z") (bs "f").

Lemma tail_check_decides_witness :
  (Held (foldl Visit (NewTailCheck (Some sample_tail)) sample_chain)).2 = None ∧
  ∃ e, sample_chain !! 1%nat = Some e ∧ Seq e = 2 ∧ EntryHash e = EntryHash sample_second.
Proof.
  pose proof (tail_check_decides sample_tail sample_chain (proj1 sample_proven) eq_refl ltac:(discriminate)) as H.
  assert ((Held (foldl Visit (NewTailCheck (Some sample_tail)) sample_chain)).2 = None) as E by (vm_compute; reflexivity).
  cbn zeta in H. rewrite E in H. split; [exact E|exact H].
Defined.

Lemma local_tail_roundtrip_witness : ReadLocalTail (Ok (Some (tail_document sample_tail))) = Ok (Some sample_tail).
Proof.
  apply local_tail_roundtrip.
  - discriminate.
  - reflexivity.
  - discriminate.
  - split; vm_compute; reflexivity.
  - split; vm_compute; reflexivity.
  - split; vm_compute; reflexivity.
Defined.

Lemma receipt_text_determines_witness : sample_receipt = sample_receipt.
Proof.
  apply receipt_text_determines.
  - repeat (apply Forall_cons; split; [apply Forall_forall; intros c Hc ->; vm_compute in Hc; repeat (apply elem_of_cons in Hc as [Hc|Hc]; [discriminate Hc|]);
      exact (not_elem_of_nil _ Hc)|]). apply Forall_nil_2.
  - repeat (apply Forall_cons; split; [vm_compute; reflexivity|]). apply Forall_nil_2.
  - reflexivity.
Defined.
