(* ===== verification/Frame.v ===== *)
(** * internal/bbb/frame.go: length-prefixed frames

    A frame is the length of its payload as four big-endian bytes and the
    payload.  A writer appends to a stream; a reader is the bytes still to come,
    after which it reports the end. *)

From S2P Require Import Prelude.

Definition FrameHeaderBytes : nat := 4.
Definition MaxControlFrameBytes : Z := Z.shiftl 1 20.
Definition MaxServerFrameBytes : Z := Z.shiftl 16 20.

Inductive frame_err := ELimit | EEmptyPayload | EFrameTooLarge | EWrite | EEOF | EUnexpectedEOF.

Definition checkLimit (maxFrameBytes : Z) : result frame_err unit := if maxFrameBytes <=? 0 then Err ELimit else Ok ().

(** [binary.BigEndian.PutUint32] of [uint32(n)], and [Uint32]. *)
Definition put_uint32 (n : Z) : bytes :=
  let w := n mod 4294967296 in
  [Z.shiftr w 24 mod 256; Z.shiftr w 16 mod 256; Z.shiftr w 8 mod 256; w mod 256].
Definition get_uint32 (h : bytes) : Z :=
  match h with
  | [a; b; c; d] => Z.lor (Z.lor (Z.lor (Z.shiftl a 24) (Z.shiftl b 16)) (Z.shiftl c 8)) d
  | _ => 0
  end.

(** The outcome of each [Write]: how many bytes reach the stream; fewer than
    asked for is an error. *)
Definition write_out (accept : nat) (data : bytes) : bytes * bool := (take accept data, (length data <=? accept)%nat).

(** The bytes that reach the stream, and the error. *)
Definition WriteFrame (accept1 accept2 : nat) (payload : bytes) (maxFrameBytes : Z) : bytes * result frame_err unit :=
  match checkLimit maxFrameBytes with
  | Err e => ([], Err e)
  | Ok _ =>
    if bool_decide (payload = []) then ([], Err EEmptyPayload)
    else if maxFrameBytes <? Z.of_nat (length payload) then ([], Err EFrameTooLarge)
    else
      let '(out1, ok1) := write_out accept1 (put_uint32 (Z.of_nat (length payload))) in
      if negb ok1 then (out1, Err EWrite)
      else
        let '(out2, ok2) := write_out accept2 payload in
        (out1 ++ out2, if ok2 then Ok () else Err EWrite)
  end.

(** [io.ReadFull] of [n] bytes: what was read, what is left. *)
Definition ReadFull (n : nat) (stream : bytes) : result frame_err (bytes * bytes) :=
  if (n <=? length stream)%nat then Ok (take n stream, drop n stream)
  else if bool_decide (stream = []) then Err EEOF else Err EUnexpectedEOF.

Definition ReadFrame (stream : bytes) (maxFrameBytes : Z) : result frame_err (bytes * bytes) :=
  _ ← checkLimit maxFrameBytes;
  '(header, rest) ← ReadFull FrameHeaderBytes stream;
  let declared := get_uint32 header in
  if maxFrameBytes <? declared then Err EFrameTooLarge
  else map_err (λ e, match e with EEOF => EUnexpectedEOF | _ => e end) (ReadFull (Z.to_nat declared) rest).

(** ** Facts *)

(** Bits that do not meet are added. *)
Lemma lor_shiftl a b k : 0 ≤ k → 0 ≤ b < 2 ^ k → Z.lor (Z.shiftl a k) b = a * 2 ^ k + b.
Proof.
  intros Hk Hb. rewrite <- Z.shiftl_mul_pow2 by done. rewrite <- (Z.add_lor_land (Z.shiftl a k) b).
  assert (Z.land (Z.shiftl a k) b = 0) as ->; [|lia]. apply Z.bits_inj'. intros i Hi. rewrite Z.land_spec, Z.bits_0.
  destruct (Z.lt_ge_cases i k); [by rewrite Z.shiftl_spec_low|]. destruct (Z.eq_dec b 0) as [->|]; [by rewrite Z.bits_0, andb_false_r|].
  rewrite (Z.bits_above_log2 b), andb_false_r; [done|lia|]. apply Z.log2_lt_pow2; [lia|]. apply Z.lt_le_trans with (2 ^ k); [lia|]. by apply Z.pow_le_mono_r.
Qed.

Lemma get_put_uint32 n : 0 ≤ n < 4294967296 → get_uint32 (put_uint32 n) = n.
Proof.
  intros Hn. unfold put_uint32, get_uint32. rewrite (Z.mod_small n) by lia. rewrite !Z.shiftr_div_pow2 by lia.
  change (2 ^ 24) with 16777216; change (2 ^ 16) with 65536; change (2 ^ 8) with 256.
  rewrite <- !Z.lor_assoc.
  rewrite (lor_shiftl _ (n mod 256) 8) by (change (2 ^ 8) with 256; zlia). change (2 ^ 8) with 256.
  rewrite (lor_shiftl _ _ 16) by (change (2 ^ 16) with 65536; zlia). change (2 ^ 16) with 65536.
  rewrite (lor_shiftl _ _ 24) by (change (2 ^ 24) with 16777216; zlia). change (2 ^ 24) with 16777216. zlia.
Qed.

Lemma ReadFull_app n a rest : length a = n → ReadFull n (a ++ rest) = Ok (a, rest).
Proof.
  intros <-. unfold ReadFull. rewrite length_app, (proj2 (Nat.leb_le _ _)) by lia. by rewrite take_app_length, drop_app_length.
Qed.

Lemma ReadFull_short n s : (length s < n)%nat → ReadFull n s = Err (if (length s =? 0)%nat then EEOF else EUnexpectedEOF).
Proof. intros H. unfold ReadFull. rewrite (proj2 (Nat.leb_gt _ _)) by done. by destruct s. Qed.

(** The bytes of a frame. *)
Definition frame (payload : bytes) : bytes := put_uint32 (Z.of_nat (length payload)) ++ payload.

Definition fits (limit : Z) (payload : bytes) : Prop := payload ≠ [] ∧ Z.of_nat (length payload) ≤ limit.

Lemma WriteFrame_frame payload limit : fits limit payload → WriteFrame 4 (length payload) payload limit = (frame payload, Ok ()).
Proof.
  intros [Hn Hl]. unfold WriteFrame, checkLimit. destruct payload as [|c t]; [done|]. set (p := c :: t) in *.
  assert (0 < length p)%nat by (cbn; lia). rewrite (proj2 (Z.leb_gt _ _)) by lia. rewrite bool_decide_false by done.
  rewrite (proj2 (Z.ltb_ge _ _)) by lia. unfold write_out. change (length (put_uint32 _)) with 4%nat.
  by rewrite !Nat.leb_refl, !firstn_all2 by (cbn; lia).
Qed.

Lemma ReadFrame_frame payload rest limit : fits limit payload → Z.of_nat (length payload) < 4294967296 →
  ReadFrame (frame payload ++ rest) limit = Ok (payload, rest).
Proof.
  intros [Hn Hl] Hb. assert (0 < length payload)%nat by (destruct payload; [done|cbn; lia]).
  unfold ReadFrame, checkLimit. rewrite (proj2 (Z.leb_gt _ _)) by lia. cbn [mbind result_bind]. unfold frame. rewrite <- app_assoc.
  rewrite (ReadFull_app FrameHeaderBytes) by done. cbn [mbind result_bind]. rewrite get_put_uint32 by lia.
  rewrite (proj2 (Z.ltb_ge _ _)) by lia. by rewrite Nat2Z.id, ReadFull_app.
Qed.

(** Read frames until one fails. *)
Fixpoint read_frames (fuel : nat) (stream : bytes) (limit : Z) : list bytes * option frame_err :=
  match fuel with
  | O => ([], None)
  | S f =>
    match ReadFrame stream limit with
    | Ok (p, rest) => let '(ps, e) := read_frames f rest limit in (p :: ps, e)
    | Err e => ([], Some e)
    end
  end.

(** Frames keep their boundaries: a stream of payloads written one after
    another, each within a limit below 4 GiB, reads back as exactly those
    payloads in order and then as a clean end of stream. *)
Theorem frames_roundtrip payloads limit : 0 < limit < 4294967296 → Forall (fits limit) payloads →
  Forall (λ p, (WriteFrame 4 (length p) p limit).2 = Ok ()) payloads ∧
  read_frames (S (length payloads)) (concat (map (λ p, (WriteFrame 4 (length p) p limit).1) payloads)) limit = (payloads, Some EEOF).
Proof.
  intros Hl Hf. split; [eapply Forall_impl; [exact Hf|]; intros p Hp; by rewrite WriteFrame_frame|].
  assert (∀ n stream, read_frames (S n) stream limit = match ReadFrame stream limit with
    | Ok (p, rest) => let '(ps, e) := read_frames n rest limit in (p :: ps, e) | Err e => ([], Some e) end) as Hstep by done.
  induction Hf as [|p ps Hp _ IH]; rewrite Hstep; cbn [length map concat].
  - unfold ReadFrame, checkLimit. by rewrite (proj2 (Z.leb_gt _ _)) by lia.
  - rewrite WriteFrame_frame by done. cbn [fst]. rewrite ReadFrame_frame; [|done|destruct Hp; lia]. by rewrite IH.
Qed.

(** A frame cut short is never mistaken for one: whatever strict prefix of
    a frame arrives before the stream ends, nothing is returned, and the error
    tells a clean end (no byte) from a torn frame. *)
Theorem torn_frame_refused payload limit n : fits limit payload → Z.of_nat (length payload) < 4294967296 →
  (n < length (frame payload))%nat →
  ReadFrame (take n (frame payload)) limit = Err (if (n =? 0)%nat then EEOF else EUnexpectedEOF).
Proof.
  intros [Hne Hl] Hb Hn. assert (0 < length payload)%nat by (destruct payload; [done|cbn; lia]).
  unfold ReadFrame, checkLimit. rewrite (proj2 (Z.leb_gt _ _)) by lia. cbn [mbind result_bind].
  unfold frame in *. rewrite length_app in Hn. change (length (put_uint32 _)) with 4%nat in Hn.
  destruct (decide (n < 4)%nat) as [H4|H4].
  - rewrite take_app_le by (cbn; lia). rewrite ReadFull_short by (rewrite length_take; unfold FrameHeaderBytes; lia). cbn [mbind result_bind].
    rewrite length_take. change (length (put_uint32 _)) with 4%nat. by replace (n `min` 4)%nat with n by lia.
  - rewrite take_app_ge by (cbn; lia). rewrite (ReadFull_app FrameHeaderBytes) by done. cbn [mbind result_bind].
    rewrite get_put_uint32, (proj2 (Z.ltb_ge _ _)), Nat2Z.id by lia. change (length (put_uint32 _)) with 4%nat.
    rewrite ReadFull_short by (rewrite length_take; lia). rewrite (proj2 (Nat.eqb_neq n 0)) by lia. by case_match.
Qed.

(** A hostile header cannot make the reader allocate or return more than
    its limit, and a returned payload is exactly the bytes after the header. *)
Theorem read_frame_bounded stream limit payload rest : ReadFrame stream limit = Ok (payload, rest) →
  Z.of_nat (length payload) ≤ limit ∧ ∃ header, length header = FrameHeaderBytes ∧ stream = header ++ payload ++ rest.
Proof.
  unfold ReadFrame. intros (u & Hc & H)%bind_ok. apply bind_ok in H as ([header r] & Hh & H).
  unfold checkLimit in Hc. destruct (Z.leb_spec limit 0); [done|].
  assert (∀ n s a b, ReadFull n s = Ok (a, b) → length a = n ∧ s = a ++ b) as Hr.
  { intros n s a b. unfold ReadFull. destruct (Nat.leb_spec n (length s)); [|by destruct (bool_decide _)].
    intros [= <- <-]. rewrite length_take, take_drop. split; [lia|done]. }
  apply Hr in Hh as [Hlen ->]. destruct (Z.ltb_spec limit (get_uint32 header)); [done|].
  destruct (ReadFull _ _) as [[a b]|] eqn:E; [|done]. cbn in H. injection H as <- <-. apply Hr in E as [Ha ->].
  split; [lia|]. exists header. done.
Qed.

(** ** Witnesses *)

Lemma frames_roundtrip_witness :
  read_frames 3 (concat (map (λ p, (WriteFrame 4 (length p) p MaxControlFrameBytes).1) [[1]; [2; 3]])) MaxControlFrameBytes = ([[1]; [2; 3]], Some EEOF).
Proof.
  refine (proj2 (frames_roundtrip [[1]; [2; 3]] MaxControlFrameBytes _ _)).
  - vm_compute. split; reflexivity.
  - repeat (apply Forall_cons; split; [split; [discriminate|vm_compute; discriminate]|]). apply Forall_nil_2.
Defined.

Lemma torn_frame_refused_witness : ReadFrame (take 5 (frame [7; 8])) 10 = Err EUnexpectedEOF.
Proof.
  apply (torn_frame_refused [7; 8] 10 5).
  - split; [discriminate|vm_compute; discriminate].
  - vm_compute. reflexivity.
  - vm_compute. apply le_n.
Defined.

Lemma read_frame_bounded_witness : Z.of_nat (length [7; 8]) ≤ 2.
Proof. exact (proj1 (read_frame_bounded [0; 0; 0; 2; 7; 8; 9] 2 [7; 8] [9] eq_refl)). Defined.
