(* ===== verification/Ring.v ===== *)
(** * internal/ring/ring.go: the rings of an identity

    The manager holds pointers to ring contents, so the contents live in a heap
    and callers keep aliases to what they hand in.  Ring 0 is installed once,
    from a copy. *)

From stdpp Require Import gmap relations.
From S2P Require Import Prelude Utf8 GoJson Crypto.

(** ** Levels *)

Abbreviation RingLevel := Z (only parsing).
Definition Ring0 : RingLevel := 0.
Definition Ring1 : RingLevel := 1.
Definition Ring2 : RingLevel := 2.
Definition Ring3 : RingLevel := 3.
Definition Ring4 : RingLevel := 4.
Definition Ring5 : RingLevel := 5.

Definition RingLevel_String (r : RingLevel) : bytes :=
  if r =? Ring0 then bs "Ring 0 (Constitution)"
  else if r =? Ring1 then bs "Ring 1 (Charter)"
  else if r =? Ring2 then bs "Ring 2 (Identity)"
  else if r =? Ring3 then bs "Ring 3 (Working Truth)"
  else if r =? Ring4 then bs "Ring 4 (Working State)"
  else if r =? Ring5 then bs "Ring 5 (Firewall)"
  else bs "Ring " ++ FormatInt r ++ bs " (Unknown)".

Definition IsEphemeral (r : RingLevel) : bool := r =? Ring4.
Definition IsImmutable (r : RingLevel) : bool := r =? Ring0.

Inductive ring_err :=
| ERing0Authored | ERing4Minted | ERing5Owned | ERingUnknown (r : RingLevel)
| ERing0Immutable | ENoConstitution | ENoIdentityKey | EAttestation (e : ring_sig_err)
with ring_sig_err := ERingAlgorithm | ERingSigEncoding | ERingVerify (e : crypto_err).

Definition CheckGate (target : RingLevel) : result ring_err unit :=
  if target =? Ring0 then Err ERing0Authored
  else if target =? Ring4 then Err ERing4Minted
  else if target =? Ring5 then Err ERing5Owned
  else if (target =? Ring1) || (target =? Ring2) || (target =? Ring3) then Ok ()
  else Err (ERingUnknown target).

(** ** Contents, in a heap *)

Record RingContent := mkRing {
  Level : RingLevel;
  rc_Content : bytes;
  SignedBy : bytes;
  Signature : bytes;
  rc_SigAlg : bytes;
  Updated : bytes;
  SourceSeq : Z;
}.

Abbreviation loc := nat.
Abbreviation heap := (gmap nat RingContent).

Record Section_ := mkSection { s_Name : bytes; s_Content : bytes }.

Record Manager := mkManager {
  rings : gmap Z (option loc);
  sections : gmap Z (list Section_);
  brief : bytes;
  briefWritten : Z;
  ring0Sealed : bool;
  ring0Constitution : bool;
}.

Definition NewManager : Manager := mkManager ∅ ∅ [] 0 false false.

Definition set_rings (m : Manager) (r : gmap Z (option loc)) : Manager :=
  mkManager r (sections m) (brief m) (briefWritten m) (ring0Sealed m) (ring0Constitution m).

(** ** Sections *)

(** The loop that overwrites the first section of that name. *)
Fixpoint put_section (name content : bytes) (l : list Section_) : option (list Section_) :=
  match l with
  | [] => None
  | s :: l' => if beq (s_Name s) name then Some (mkSection (s_Name s) content :: l') else cons s <$> put_section name content l'
  end.

Definition SetSection (m : Manager) (level : RingLevel) (name content : bytes) : Manager * result ring_err unit :=
  if level =? Ring0 then (m, Err ERing0Immutable)
  else
    let list := default [] (sections m !! level) in
    let list' := default (list ++ [mkSection name content]) (put_section name content list) in
    (mkManager (rings m) (<[level := list']> (sections m)) (brief m) (briefWritten m) (ring0Sealed m) (ring0Constitution m), Ok ()).

Definition Section_of (m : Manager) (level : RingLevel) (name : bytes) : bytes :=
  match find (λ s, beq (s_Name s) name) (default [] (sections m !! level)) with Some s => s_Content s | None => [] end.

Definition Sections (m : Manager) (level : RingLevel) : list Section_ := default [] (sections m !! level).

(** ** Rings *)

Definition Set_ (m : Manager) (level : RingLevel) (rc : option loc) : Manager * result ring_err unit :=
  if level =? Ring0 then (m, Err ERing0Immutable) else (set_rings m (<[level := rc]> (rings m)), Ok ()).

(** [SetFrom]; [compose] is called only past the check. *)
Definition SetFrom (m : Manager) (h : heap) (level : RingLevel) (compose : heap → heap * option loc) : Manager * heap * result ring_err unit :=
  if level =? Ring0 then (m, h, Err ERing0Immutable)
  else let '(h', rc) := compose h in (set_rings m (<[level := rc]> (rings m)), h', Ok ()).

Definition Get (m : Manager) (level : RingLevel) : option loc := default None (rings m !! level).

Definition GetContent (m : Manager) (h : heap) (level : RingLevel) : bytes :=
  match Get m level ≫= (h !!.) with Some rc => rc_Content rc | None => [] end.

Definition AllContent (m : Manager) : list loc := omap (Get m) [Ring0; Ring1; Ring2; Ring3; Ring4; Ring5].

Definition RestoreBrief (m : Manager) (content : bytes) (written : Z) : Manager :=
  mkManager (rings m) (sections m) content written (ring0Sealed m) (ring0Constitution m).
(** [SetBrief] at time [now]. *)
Definition SetBrief (m : Manager) (content : bytes) (now : Z) : Manager := RestoreBrief m content now.
Definition Brief (m : Manager) : bytes * Z := (brief m, briefWritten m).

Definition Ring0IsConstitution (m : Manager) : bool := ring0Sealed m && ring0Constitution m.

Definition new_loc (h : heap) : loc := fresh (dom h : gset nat).

(** Install a copy as Ring 0. *)
Definition seal (m : Manager) (h : heap) (rc : RingContent) (constitution : bool) : Manager * heap :=
  let l := new_loc h in
  (mkManager (<[Ring0 := Some l]> (rings m)) (sections m) (brief m) (briefWritten m) true constitution, <[l := rc]> h).

Definition SealSafePosture (m : Manager) (h : heap) (content : bytes) : Manager * heap * result ring_err unit :=
  if ring0Sealed m then (m, h, Err ERing0Immutable)
  else (seal m h (mkRing Ring0 content [] [] [] [] 0) false, Ok ()).

Section Signed.
Context `{P : Primitives}.

Definition VerifySignature (rc : RingContent) (pubKeyBytes : bytes) : result ring_sig_err unit :=
  if negb (beq (rc_SigAlg rc) SigAlg) then Err ERingAlgorithm
  else match b64_decode (Signature rc) with
  | None => Err ERingSigEncoding
  | Some sig => map_err ERingVerify (Verify pubKeyBytes (rc_Content rc) sig)
  end.

Definition SealConstitution (m : Manager) (h : heap) (rc : option loc) (identityPubKey : bytes) : Manager * heap * result ring_err unit :=
  match rc ≫= (h !!.) with
  | None => (m, h, Err ENoConstitution)
  | Some c =>
    if bool_decide (identityPubKey = []) then (m, h, Err ENoIdentityKey)
    else match VerifySignature c identityPubKey with
    | Err e => (m, h, Err (EAttestation e))
    | Ok _ =>
      if ring0Sealed m then (m, h, Err ERing0Immutable)
      else (seal m h (mkRing Ring0 (rc_Content c) (SignedBy c) (Signature c) (rc_SigAlg c) (Updated c) (SourceSeq c)) true, Ok ())
    end
  end.

(** ** Runs: calls on the manager, and what its callers do with their objects *)

(** The manager, the heap, and the objects callers made and may write to. *)
Abbreviation world := (Manager * heap * gset loc)%type.

Inductive ring_step : world → world → Prop :=
| rs_alloc m h own rc : ring_step (m, h, own) (m, <[new_loc h := rc]> h, {[new_loc h]} ∪ own)
| rs_write m h own l rc : l ∈ own → ring_step (m, h, own) (m, <[l := rc]> h, own)
| rs_set m h own level rc : (∀ l, rc = Some l → l ∈ own) → ring_step (m, h, own) ((Set_ m level rc).1, h, own)
| rs_setfrom m h own level rc : (∀ l, rc = Some l → l ∈ own) →
    ring_step (m, h, own) ((SetFrom m h level (λ h, (h, rc))).1, own)
| rs_section m h own level name content : ring_step (m, h, own) ((SetSection m level name content).1, h, own)
| rs_brief m h own content now : ring_step (m, h, own) (SetBrief m content now, h, own)
| rs_constitution m h own l pub : l ∈ own → ring_step (m, h, own) ((SealConstitution m h (Some l) pub).1, own)
| rs_posture m h own content : ring_step (m, h, own) ((SealSafePosture m h content).1, own).

(** What Ring 0 holds once it is sealed, and that no caller can write to it. *)
Definition ring0_holds (w : world) (l : loc) (rc : RingContent) (constitution : bool) : Prop :=
  let '(m, h, own) := w in
  ring0Sealed m = true ∧ ring0Constitution m = constitution ∧ rings m !! Ring0 = Some (Some l) ∧ h !! l = Some rc ∧ l ∉ own.

Lemma new_loc_None (h : heap) : h !! new_loc h = None.
Proof. apply (not_elem_of_dom (D := gset nat)). exact (is_fresh (dom h : gset nat)). Qed.

Lemma set_ring0 m level rc : rings (Set_ m level rc).1 !! Ring0 = rings m !! Ring0.
Proof.
  unfold Set_. destruct (Z.eqb_spec level Ring0); [done|]. cbn [fst set_rings rings]. by rewrite lookup_insert_ne.
Qed.

Lemma Set_sealed m level rc : ring0Sealed (Set_ m level rc).1 = ring0Sealed m ∧ ring0Constitution (Set_ m level rc).1 = ring0Constitution m.
Proof. unfold Set_. by case_match. Qed.

Lemma SetFrom_Set m h level rc : SetFrom m h level (λ h, (h, rc)) = ((Set_ m level rc).1, h, (Set_ m level rc).2).
Proof. unfold SetFrom, Set_. by case_match. Qed.

Lemma SealConstitution_cases m h rc pub : (SealConstitution m h rc pub).1 = (m, h) ∨
  ∃ c, (SealConstitution m h rc pub).1 = seal m h c true ∧ ring0Sealed m = false ∧ Level c = Ring0 ∧ pub ≠ [] ∧ VerifySignature c pub = Ok ().
Proof.
  unfold SealConstitution. destruct (rc ≫= _) as [c|]; [|by left]. destruct (bool_decide _) eqn:Eb; [by left|].
  apply bool_decide_eq_false in Eb. destruct (VerifySignature c pub) as [[]|] eqn:Ev; [|by left].
  destruct (ring0Sealed m) eqn:Es; [by left|]. right. eexists. split; [reflexivity|]. done.
Qed.

Lemma ring0_step w w' l rc c : ring0_holds w l rc c → ring_step w w' → ring0_holds w' l rc c.
Proof.
  destruct w as [[m h] own]. intros (H1 & H2 & H3 & H4 & H5) Hs. inversion Hs; subst; unfold ring0_holds; cbn [fst].
  - assert (new_loc h ≠ l) as Hne by (intros E; pose proof (new_loc_None h); congruence).
    rewrite lookup_insert_ne by done. do 4 (split; [done|]). set_solver.
  - rewrite lookup_insert_ne by (intros ->; set_solver). done.
  - rewrite set_ring0. destruct (Set_sealed m level rc0) as [-> ->]. done.
  - rewrite SetFrom_Set. cbn [fst]. rewrite set_ring0. destruct (Set_sealed m level rc0) as [-> ->]. done.
  - unfold SetSection. by case_match.
  - done.
  - destruct (SealConstitution_cases m h (Some l0) pub) as [->|(c0 & _ & ? & _)]; [done|congruence].
  - unfold SealSafePosture. by rewrite H1.
Qed.

Lemma ring0_steps w w' l rc c : ring0_holds w l rc c → rtc ring_step w w' → ring0_holds w' l rc c.
Proof. intros Hh Hr. induction Hr as [|? ? ? Hst _ IH]; [done|]. by apply IH, (ring0_step _ _ _ _ _ Hh Hst). Qed.

(** Every state reached from a new manager: the heap covers the callers'
    objects, and a sealed Ring 0 holds a content of its own, whose signature
    was checked if it is a constitution. *)
Definition ring_inv (w : world) : Prop :=
  (∀ l, l ∈ w.2 → is_Some (w.1.2 !! l)) ∧
  (ring0Sealed w.1.1 = true → ∃ l rc, ring0_holds w l rc (ring0Constitution w.1.1) ∧ Level rc = Ring0 ∧
     (ring0Constitution w.1.1 = true → ∃ pub, pub ≠ [] ∧ VerifySignature rc pub = Ok ())).

Lemma insert_Some (h : heap) l rc x : is_Some (h !! x) ∨ x = l → is_Some (<[l := rc]> h !! x).
Proof. destruct (decide (l = x)) as [->|]; [by rewrite lookup_insert_eq|rewrite lookup_insert_ne by done]. intros [?|?]; [done|congruence]. Qed.

Lemma own_step w w' : (∀ l, l ∈ w.2 → is_Some (w.1.2 !! l)) → ring_step w w' → ∀ l, l ∈ w'.2 → is_Some (w'.1.2 !! l).
Proof.
  intros Ho Hs. inversion Hs; subst; cbn [fst snd] in *; intros x Hx; try by apply Ho.
  - apply insert_Some. apply elem_of_union in Hx as [->%elem_of_singleton|Hx]; auto.
  - apply insert_Some. auto.
  - rewrite SetFrom_Set. by apply Ho.
  - destruct (SealConstitution_cases m h (Some l) pub) as [->|(c & -> & _)]; [by apply Ho|]. apply insert_Some. auto.
  - unfold SealSafePosture. case_match; cbn; [by apply Ho|]. apply insert_Some. auto.
Qed.

Lemma seal_holds m h own rc c : (∀ l, l ∈ own → is_Some (h !! l)) → ring0_holds (seal m h rc c, own) (new_loc h) rc c.
Proof.
  intros Ho. unfold ring0_holds, seal. cbn [rings ring0Sealed ring0Constitution]. rewrite !lookup_insert_eq. do 4 (split; [done|]). intros [? Hin]%Ho.
  by rewrite new_loc_None in Hin.
Qed.

Lemma ring_inv_step w w' : ring_inv w → ring_step w w' → ring_inv w'.
Proof.
  intros [Ho Hi] Hs. split; [by eapply own_step|]. destruct (ring0Sealed w.1.1) eqn:Es.
  - intros _. destruct (Hi eq_refl) as (l & rc & Hh & Hl & Hc). pose proof (ring0_step _ _ _ _ _ Hh Hs) as Hh'. exists l, rc.
    destruct w' as [[m' h'] own']. destruct Hh' as (K1 & K2 & K3). cbn [fst]. rewrite K2. done.
  - inversion Hs; subst; cbn [fst snd] in *; try (intros E; congruence).
    + destruct (Set_sealed m level rc) as [-> _]. congruence.
    + rewrite SetFrom_Set. cbn [fst]. destruct (Set_sealed m level rc) as [-> _]. congruence.
    + unfold SetSection. case_match; cbn; congruence.
    + cbn; congruence.
    + destruct (SealConstitution_cases m h (Some l) pub) as [->|(c & -> & _ & Hl & Hp)]; [cbn; congruence|]. intros _.
      eexists _, _. split; [by apply seal_holds|]. split; [done|]. intros _. by exists pub.
    + unfold SealSafePosture. rewrite Es. intros _. eexists _, _. split; [by apply seal_holds|]. done.
Qed.

Lemma ring_inv_reachable w own : rtc ring_step (NewManager, ∅, own) w → (∀ l, l ∉ own) → ring_inv w.
Proof.
  intros Hr Ho. assert (ring_inv (NewManager, ∅, own)) as H0 by (split; [intros l Hl; by destruct (Ho l)|done]).
  clear Ho. induction Hr as [|? ? ? Hs _ IH]; [done|]. by apply IH, (ring_inv_step _ _ H0 Hs).
Qed.

(** Ring 0 is written once: once it is sealed, no sequence of calls on the
    manager, and nothing callers do to the objects they handed in (the sealed
    content is a copy), changes what it points to, the content there, or
    whether it counts as the constitution. *)
Theorem ring0_written_once w w' : rtc ring_step (NewManager, ∅, ∅) w → ring0Sealed w.1.1 = true → rtc ring_step w w' →
  ∃ l rc, ring0_holds w l rc (ring0Constitution w.1.1) ∧ ring0_holds w' l rc (ring0Constitution w.1.1).
Proof.
  intros Hw Hs Hr. destruct (ring_inv_reachable w ∅ Hw ltac:(set_solver)) as [_ Hi]. destruct (Hi Hs) as (l & rc & Hh & _).
  exists l, rc. split; [done|]. by apply (ring0_steps w).
Qed.

(** What counts as the constitution was signed: in every reachable state
    in which [Ring0IsConstitution] says so, the content of Ring 0 is at level 0
    and its signature verified under a key. *)
Theorem constitution_was_signed w : rtc ring_step (NewManager, ∅, ∅) w → Ring0IsConstitution w.1.1 = true →
  ∃ l rc pub, Get w.1.1 Ring0 = Some l ∧ w.1.2 !! l = Some rc ∧ Level rc = Ring0 ∧ pub ≠ [] ∧ VerifySignature rc pub = Ok ().
Proof.
  intros Hw [Hs Hc]%andb_true_iff. destruct (ring_inv_reachable w ∅ Hw ltac:(set_solver)) as [_ Hi].
  destruct (Hi Hs) as (l & rc & Hh & Hl & Hv). destruct (Hv Hc) as (pub & Hp & Hv').
  destruct w as [[m h] own]. destruct Hh as (_ & _ & Hr & Hh & _). exists l, rc, pub. unfold Get. cbn in *. rewrite Hr. done.
Qed.
End Signed.

(** ** Sections: a write is what the next reading finds, and nothing else moves *)

Lemma put_section_find name name' content l l' : put_section name content l = Some l' →
  find (λ s, beq (s_Name s) name') l' = if beq name name' then Some (mkSection name content) else find (λ s, beq (s_Name s) name') l.
Proof.
  revert l'. induction l as [|s l IH]; intros l'; cbn; [done|]. destruct (beq (s_Name s) name) eqn:E; b2p.
  - intros [= <-]. subst name. cbn. destruct (beq (s_Name s) name'); done.
  - intros (l2 & H2 & ->)%fmap_Some. cbn. rewrite (IH _ H2). destruct (beq (s_Name s) name') eqn:E1; [|done]. b2p. subst name'.
    rewrite (proj2 (beq_false _ _)) by congruence. done.
Qed.

Lemma put_section_None name content l : put_section name content l = None → find (λ s, beq (s_Name s) name) l = None.
Proof. induction l as [|s l IH]; cbn; [done|]. destruct (beq _ _); [done|]. intros H%fmap_None. auto. Qed.

Lemma find_app {A} (f : A → bool) l1 l2 : find f (l1 ++ l2) = match find f l1 with Some x => Some x | None => find f l2 end.
Proof. induction l1 as [|x l1 IH]; cbn; [done|]. by destruct (f x). Qed.

(** A section written above Ring 0 reads back, and no other section of any
    ring changes; Ring 0 takes no section. *)
Theorem section_roundtrip m level name content level' name' :
  let '(m', r) := SetSection m level name content in
  (level = Ring0 → m' = m ∧ r = Err ERing0Immutable) ∧
  (level ≠ Ring0 → r = Ok () ∧
    Section_of m' level' name' = if (level =? level') && beq name name' then content else Section_of m level' name').
Proof.
  unfold SetSection. destruct (Z.eqb_spec level Ring0) as [->|Hl]; [by split|]. split; [done|]. intros _. split; [done|].
  unfold Section_of. cbn [sections]. destruct (Z.eqb_spec level level') as [<-|Hne]; [|by rewrite lookup_insert_ne].
  rewrite lookup_insert_eq. cbn [from_option id andb]. set (l := default [] (sections m !! level)).
  destruct (put_section name content l) as [l'|] eqn:E; cbn [from_option id].
  - rewrite (put_section_find _ name' _ _ _ E). by destruct (beq name name').
  - rewrite find_app. cbn [find s_Name]. destruct (beq name name') eqn:Eb; b2p.
    + subst name'. by rewrite (put_section_None _ _ _ E).
    + by destruct (find _ l).
Qed.

(** ** Witnesses *)

(** A caller's constitution, sealed, and then scribbled over. *)
Definition sample_constitution : RingContent :=
  mkRing 7 (bs "be kind") [] (b64_encode (7 :: toy_hash (bs "be kind"))) SigAlg [] 1.
Definition sample_sealed_world : Manager * heap * gset loc := ((SealConstitution NewManager {[0%nat := sample_constitution]} (Some 0%nat) [9; 1]).1, {[0%nat]}).

Lemma sample_sealed_reachable : rtc ring_step (NewManager, ∅, ∅) sample_sealed_world.
Proof.
  eapply rtc_l; [exact (rs_alloc NewManager ∅ ∅ sample_constitution)|]. eapply rtc_l; [|apply rtc_refl].
  change (new_loc ∅) with 0%nat. replace ({[0%nat]} ∪ ∅ : gset loc) with ({[0%nat]} : gset loc) by set_solver.
  exact (rs_constitution NewManager {[0%nat := sample_constitution]} {[0%nat]} 0%nat [9; 1] ltac:(set_solver)).
Qed.

Lemma ring0_written_once_witness : ∃ l rc, ring0_holds sample_sealed_world l rc true ∧
  ring0_holds (sample_sealed_world.1.1, <[0%nat := mkRing 0 [] [] [] [] [] 0]> sample_sealed_world.1.2, {[0%nat]}) l rc true.
Proof.
  apply (ring0_written_once sample_sealed_world (sample_sealed_world.1.1, <[0%nat := mkRing 0 [] [] [] [] [] 0]> sample_sealed_world.1.2, {[0%nat]})).
  - exact sample_sealed_reachable.
  - vm_compute. reflexivity.
  - apply rtc_once. exact (rs_write _ _ {[0%nat]} 0%nat _ ltac:(set_solver)).
Defined.

Lemma constitution_was_signed_witness : ∃ l rc pub, Get sample_sealed_world.1.1 Ring0 = Some l ∧ sample_sealed_world.1.2 !! l = Some rc ∧
  Level rc = Ring0 ∧ pub ≠ [] ∧ VerifySignature rc pub = Ok ().
Proof. apply (constitution_was_signed sample_sealed_world sample_sealed_reachable). vm_compute. reflexivity. Defined.

Lemma section_roundtrip_witness : Section_of (SetSection NewManager Ring2 (bs "self") (bs "x")).1 Ring2 (bs "self") = bs "x".
Proof.
  exact (proj2 (proj2 (section_roundtrip NewManager Ring2 (bs "self") (bs "x") Ring2 (bs "self")) ltac:(discriminate))).
Defined.
