(* ===== verification/Gate.v ===== *)
(** * internal/quiesce/quiesce.go: pausing periodic work

    A gate pauses and resumes the tickers registered with it.  The operations
    take the gate's mutex, a ticker's mutex, or the first and then the second;
    each step below is one critical section.  [Pause] and [Resume] hold the
    gate's mutex throughout and touch each ticker once, so they are one step:
    a firing of another ticker in between commutes with them.  A timer that
    expires starts [fire] in a goroutine of its own, which may still wait for
    the ticker's mutex when the timer is stopped: [pending] counts those. *)

From stdpp Require Import gmap relations.
From S2P Require Import Prelude.

(** ** One ticker *)

Record Ticker := mkTicker {
  t_d : Z;
  slot : option Z;            (** the channel of capacity one *)
  timer : option bool;        (** nil, or a timer that is armed or not *)
  pending : nat;              (** expired, waiting to run [fire] *)
  t_paused : bool;
  stopped : bool;
}.

Definition arm (t : Ticker) : Ticker := mkTicker (t_d t) (slot t) (Some true) (pending t) (t_paused t) (stopped t).
(** [timer.Stop] when there is a timer. *)
Definition disarm (t : Ticker) : Ticker := mkTicker (t_d t) (slot t) ((λ _, false) <$> timer t) (pending t) (t_paused t) (stopped t).
(** [select { case c <- now: default: }] and [select { case <-c: default: }]. *)
Definition send (t : Ticker) (now : Z) : Ticker :=
  mkTicker (t_d t) (match slot t with Some x => Some x | None => Some now end) (timer t) (pending t) (t_paused t) (stopped t).
Definition drain (t : Ticker) : Ticker := mkTicker (t_d t) None (timer t) (pending t) (t_paused t) (stopped t).
Definition set_paused (t : Ticker) (p : bool) : Ticker := mkTicker (t_d t) (slot t) (timer t) (pending t) p (stopped t).
Definition set_stopped (t : Ticker) : Ticker := mkTicker (t_d t) (slot t) (timer t) (pending t) (t_paused t) true.
Definition set_pending (t : Ticker) (n : nat) : Ticker := mkTicker (t_d t) (slot t) (timer t) n (t_paused t) (stopped t).

Definition fire (t : Ticker) (now : Z) : Ticker :=
  if stopped t || t_paused t then t else arm (send t now).

Definition pause (t : Ticker) : Ticker :=
  if stopped t || t_paused t then t else drain (disarm (set_paused t true)).

Definition resume (t : Ticker) (now : Z) : Ticker :=
  if stopped t || negb (t_paused t) then t else arm (send (set_paused t false) now).

(** The second half of [Stop], under the ticker's mutex. *)
Definition stop (t : Ticker) : Ticker := disarm (set_stopped t).

(** ** The gate and everything it knows *)

Record Gate := mkGate {
  g_paused : bool;
  registered : gset nat;
  hooks : list nat;
  heap : gmap nat Ticker;      (** every ticker made, by its address *)
  hook_calls : list nat;       (** the transition hooks called, in order *)
}.

Definition NewGate : Gate := mkGate false ∅ [] ∅ [].

Definition on_registered (f : Ticker → Ticker) (g : Gate) : gmap nat Ticker :=
  map_imap (λ i t, Some (if bool_decide (i ∈ registered g) then f t else t)) (heap g).

Definition Pause (g : Gate) : Gate :=
  if g_paused g then g else mkGate true (registered g) (hooks g) (on_registered pause g) (hook_calls g ++ hooks g).

Definition Resume (g : Gate) (now : Z) : Gate :=
  if negb (g_paused g) then g
  else mkGate false (registered g) (hooks g) (on_registered (λ t, resume t now) g) (hook_calls g ++ hooks g).

Definition Paused (g : Gate) : bool := g_paused g.

Definition OnTransition (g : Gate) (fn : option nat) : Gate :=
  match fn with
  | None => g
  | Some f => mkGate (g_paused g) (registered g) (hooks g ++ [f]) (heap g) (hook_calls g)
  end.

Definition set_heap (g : Gate) (h : gmap nat Ticker) : Gate := mkGate (g_paused g) (registered g) (hooks g) h (hook_calls g).

(** [NewTicker] with a gate; [None] is the panic on a non-positive interval. *)
Definition NewTicker (g : Gate) (d : Z) : option (Gate * nat) :=
  if d <=? 0 then None
  else
    let i := fresh (dom (heap g)) in
    let t := mkTicker d None None 0 (g_paused g) false in
    Some (mkGate (g_paused g) ({[i]} ∪ registered g) (hooks g) (<[i := if g_paused g then t else arm t]> (heap g)) (hook_calls g), i).

(** The first half of [Stop], under the gate's mutex. *)
Definition unregister (g : Gate) (i : nat) : Gate :=
  mkGate (g_paused g) (registered g ∖ {[i]}) (hooks g) (heap g) (hook_calls g).

(** ** Steps *)

Inductive gate_step : Gate → Gate → Prop :=
| gs_new g d g' i : NewTicker g d = Some (g', i) → gate_step g g'
| gs_pause g : gate_step g (Pause g)
| gs_resume g now : gate_step g (Resume g now)
| gs_hook g fn : gate_step g (OnTransition g fn)
| gs_unregister g i : gate_step g (unregister g i)
| gs_stop g i t : heap g !! i = Some t → i ∉ registered g → gate_step g (set_heap g (<[i := stop t]> (heap g)))
| gs_expire g i t : heap g !! i = Some t → timer t = Some true →
    gate_step g (set_heap g (<[i := set_pending (mkTicker (t_d t) (slot t) (Some false) (pending t) (t_paused t) (stopped t)) (S (pending t))]> (heap g)))
| gs_fire g i t n now : heap g !! i = Some t → pending t = S n →
    gate_step g (set_heap g (<[i := fire (set_pending t n) now]> (heap g)))
| gs_receive g i t x : heap g !! i = Some t → slot t = Some x → gate_step g (set_heap g (<[i := drain t]> (heap g))).

(** The steps a ticker takes by itself: its timer expires, its firing runs. *)
Inductive ticker_step (i : nat) : Gate → Gate → Prop :=
| ts_expire g t : heap g !! i = Some t → timer t = Some true →
    ticker_step i g (set_heap g (<[i := set_pending (mkTicker (t_d t) (slot t) (Some false) (pending t) (t_paused t) (stopped t)) (S (pending t))]> (heap g)))
| ts_fire g t n now : heap g !! i = Some t → pending t = S n →
    ticker_step i g (set_heap g (<[i := fire (set_pending t n) now]> (heap g))).

Lemma ticker_step_gate i g g' : ticker_step i g g' → gate_step g g'.
Proof. intros [? ? ? ?|? ? ? ? ? ?]; [by eapply gs_expire|by eapply gs_fire]. Qed.

(** ** The invariant *)

(** A paused ticker is silent; a stopped one is not armed; one that runs has a
    timer armed or a firing on its way. *)
Record ticker_ok (t : Ticker) : Prop := {
  ok_silent : t_paused t = true → slot t = None;
  ok_unarmed : t_paused t = true ∨ stopped t = true → timer t ≠ Some true;
  ok_runs : t_paused t = false → stopped t = false → timer t = Some true ∨ (0 < pending t)%nat;
}.

Record gate_ok (g : Gate) : Prop := {
  ok_tickers : ∀ i t, heap g !! i = Some t → ticker_ok t;
  ok_registered : ∀ i, i ∈ registered g → ∃ t, heap g !! i = Some t ∧ stopped t = false ∧ t_paused t = g_paused g;
}.

(** Case analysis on the flags of a ticker. *)
Ltac ticker_cases t := destruct t as [? [?|] [[]|] [|?] [] []]; cbn in *; try done; try (split; cbn; intros; naive_solver lia).

Lemma fire_ok t n now : ticker_ok t → pending t = S n → ticker_ok (fire (set_pending t n) now).
Proof. intros [H1 H2 H3] Hp. unfold fire. ticker_cases t. Qed.

Lemma pause_ok t : ticker_ok t → ticker_ok (pause t).
Proof. intros [H1 H2 H3]. unfold pause. ticker_cases t. Qed.

Lemma resume_ok t now : ticker_ok t → ticker_ok (resume t now).
Proof. intros [H1 H2 H3]. unfold resume. ticker_cases t. Qed.

Lemma stop_ok t : ticker_ok t → ticker_ok (stop t).
Proof. intros [H1 H2 H3]. unfold stop. ticker_cases t. Qed.

Lemma on_registered_lookup f g i : on_registered f g !! i = (λ t, if bool_decide (i ∈ registered g) then f t else t) <$> heap g !! i.
Proof. unfold on_registered. rewrite map_lookup_imap. by destruct (heap g !! i). Qed.

(** Changing one ticker that keeps its flags. *)
Lemma gate_ok_insert g i t t' : gate_ok g → heap g !! i = Some t → ticker_ok t' →
  (i ∈ registered g → stopped t' = stopped t ∧ t_paused t' = t_paused t) → gate_ok (set_heap g (<[i := t']> (heap g))).
Proof.
  intros [Hok Hreg] Ht Ht' Hf. split; cbn.
  - intros j tj. destruct (decide (i = j)) as [<-|]; [rewrite lookup_insert_eq; by intros [= <-]|rewrite lookup_insert_ne by done; apply Hok].
  - intros j Hj. destruct (decide (i = j)) as [<-|]; [|rewrite lookup_insert_ne by done; by apply Hreg].
    rewrite lookup_insert_eq. destruct (Hreg i Hj) as (t0 & Ht0 & Hs & Hp). assert (t0 = t) as -> by congruence.
    destruct (Hf Hj) as [E1 E2]. exists t'. split; [done|]. by rewrite E1, E2.
Qed.

(** Pausing or resuming every registered ticker. *)
Lemma gate_ok_all g f p : gate_ok g → (∀ t, ticker_ok t → ticker_ok (f t)) →
  (∀ t, stopped t = false → t_paused t = g_paused g → stopped (f t) = false ∧ t_paused (f t) = p) →
  gate_ok (mkGate p (registered g) (hooks g) (on_registered f g) (hook_calls g ++ hooks g)).
Proof.
  intros [Hok Hreg] Hf Hp. split; cbn.
  - intros i t. rewrite on_registered_lookup. intros (t0 & Ht0 & ->)%fmap_Some. case_bool_decide; eauto.
  - intros i Hi. destruct (Hreg i Hi) as (t & Ht & Hs & Hpt). exists (f t). rewrite on_registered_lookup, Ht, bool_decide_true by done.
    destruct (Hp t Hs Hpt). done.
Qed.

Lemma gate_ok_step g g' : gate_ok g → gate_step g g' → gate_ok g'.
Proof.
  intros Hg Hs. destruct Hs as [g d g' i H|g|g now|g fn|g i|g i t Ht Hi|g i t Ht Ht'|g i t n now Ht Hp|g i t x Ht Hx].
  - unfold NewTicker in H. destruct (d <=? 0); [done|]. injection H as <- <-. pose proof Hg as [Hok Hreg].
    pose proof (is_fresh (dom (heap g) : gset nat)) as Hf. apply not_elem_of_dom in Hf. set (i := fresh (dom (heap g))) in *. split; cbn.
    + intros j t. destruct (decide (i = j)) as [<-|]; [rewrite lookup_insert_eq; intros [= <-]|rewrite lookup_insert_ne by done; apply Hok].
      destruct (g_paused g); split; cbn; naive_solver.
    + intros j [->%elem_of_singleton|Hj]%elem_of_union; [rewrite lookup_insert_eq; by destruct (g_paused g); eexists|].
      destruct (Hreg j Hj) as (t & Ht & ?). exists t. rewrite lookup_insert_ne; [done|]. congruence.
  - unfold Pause. destruct (g_paused g) eqn:Ep; [done|]. apply gate_ok_all; [done|apply pause_ok|].
    intros t E1 E2. unfold pause. rewrite E1, E2, Ep. done.
  - unfold Resume. destruct (g_paused g) eqn:Ep; [|done]. cbn [negb]. apply gate_ok_all; [done|intros; by apply resume_ok|].
    intros t E1 E2. unfold resume. rewrite E1, E2, Ep. done.
  - destruct fn; [|done]. by destruct Hg.
  - destruct Hg as [Hok Hreg]. split; [exact Hok|]. cbn. intros j Hj. apply Hreg. set_solver.
  - eapply gate_ok_insert; [done|exact Ht|by apply stop_ok, (ok_tickers _ Hg i)|done].
  - eapply gate_ok_insert; [done|exact Ht| |done]. destruct (ok_tickers _ Hg i t Ht) as [H1 H2 H3]. ticker_cases t.
  - eapply gate_ok_insert; [done|exact Ht|by apply fire_ok; [apply (ok_tickers _ Hg i)|]|]. intros _. unfold fire. by destruct (_ || _).
  - eapply gate_ok_insert; [done|exact Ht| |done]. destruct (ok_tickers _ Hg i t Ht) as [H1 H2 H3]. ticker_cases t.
Qed.

Lemma gate_ok_reachable g : rtc gate_step NewGate g → gate_ok g.
Proof.
  assert (gate_ok NewGate) as H0 by (split; [intros i t; cbn; by rewrite lookup_empty|cbn; set_solver]).
  generalize NewGate, H0. clear H0. intros g0 H0 Hr. induction Hr as [|? ? ? Hs _ IH]; [done|]. by apply IH, (gate_ok_step _ _ H0 Hs).
Qed.

(** C39. A paused gate is silent: in every reachable state in which the gate is
    paused, whatever firings were on their way, the channel of every registered
    ticker is empty and its timer is not running, and a firing that still
    arrives changes nothing but its own count. *)
Theorem paused_gate_is_silent g i : rtc gate_step NewGate g → Paused g = true → i ∈ registered g →
  ∃ t, heap g !! i = Some t ∧ slot t = None ∧ timer t ≠ Some true ∧ ∀ n now, fire (set_pending t n) now = set_pending t n.
Proof.
  intros Hr Hp Hi. destruct (gate_ok_reachable g Hr) as [Hok Hreg]. destruct (Hreg i Hi) as (t & Ht & Hs & Hpt).
  unfold Paused in Hp. rewrite Hp in Hpt. destruct (Hok i t Ht) as [H1 H2 _]. exists t. split; [done|]. split; [auto|]. split; [auto|].
  intros n now. unfold fire. cbn. by rewrite Hs, Hpt.
Qed.

(** A running ticker ticks: in every reachable state in which the gate is
    not paused, every registered ticker has a tick in its channel after at most
    two steps of its own (its timer expiring, its firing), so no interleaving of
    pauses, resumes and firings leaves one dead. *)
Theorem running_ticker_ticks g i : rtc gate_step NewGate g → Paused g = false → i ∈ registered g →
  ∃ n g' t', (n ≤ 2)%nat ∧ nsteps (ticker_step i) n g g' ∧ heap g' !! i = Some t' ∧ is_Some (slot t').
Proof.
  intros Hr Hp Hi. destruct (gate_ok_reachable g Hr) as [Hok Hreg]. destruct (Hreg i Hi) as (t & Ht & Hs & Hpt).
  unfold Paused in Hp. rewrite Hp in Hpt. destruct (Hok i t Ht) as [_ _ H3].
  assert (∀ t0 n now, stopped t0 = false → t_paused t0 = false → is_Some (slot (fire (set_pending t0 n) now))) as Hfire.
  { intros t0 n now E1 E2. unfold fire. cbn. rewrite E1, E2. cbn. by destruct (slot t0). }
  destruct (H3 Hpt Hs) as [Ha|Hn].
  - eexists 2%nat, _, _. split; [done|]. split.
    + eapply nsteps_l; [exact (ts_expire i g t Ht Ha)|]. eapply nsteps_l; [|apply nsteps_O].
      eapply ts_fire with (now := 0); [cbn; by rewrite lookup_insert_eq|done].
    + cbn [heap set_heap]. rewrite lookup_insert_eq. split; [done|]. by apply Hfire.
  - destruct (pending t) as [|n] eqn:En; [lia|]. eexists 1%nat, _, _. split; [lia|]. split; [apply nsteps_once; by eapply ts_fire with (now := 0)|].
    cbn [heap set_heap]. rewrite lookup_insert_eq. split; [done|]. by apply Hfire.
Qed.

(** Resuming makes up for the pause: a paused gate's [Resume] puts a tick
    into the channel of every registered ticker at once, arms its timer, and
    calls each transition hook once, in order. *)
Theorem resume_ticks_at_once g i now : rtc gate_step NewGate g → Paused g = true → i ∈ registered g →
  hook_calls (Resume g now) = hook_calls g ++ hooks g ∧
  ∃ t, heap (Resume g now) !! i = Some t ∧ slot t = Some now ∧ timer t = Some true ∧ t_paused t = false.
Proof.
  intros Hr Hp Hi. destruct (gate_ok_reachable g Hr) as [Hok Hreg]. destruct (Hreg i Hi) as (t & Ht & Hs & Hpt).
  unfold Paused in Hp. rewrite Hp in Hpt. unfold Resume. rewrite Hp. cbn [negb hook_calls heap]. split; [done|].
  exists (resume t now). rewrite on_registered_lookup, Ht, bool_decide_true by done. split; [done|].
  unfold resume. rewrite Hs, Hpt. cbn. by rewrite (ok_silent _ (Hok i t Ht) Hpt).
Qed.

(** ** Witnesses *)

(** A gate with one ticker, paused and not. *)
Definition sample_gate : Gate := default NewGate (fst <$> NewTicker NewGate 5).
Definition sample_paused : Gate := Pause sample_gate.

Lemma sample_gate_reachable : rtc gate_step NewGate sample_gate.
Proof. apply rtc_once. eapply (gs_new NewGate 5). reflexivity. Qed.

Lemma sample_paused_reachable : rtc gate_step NewGate sample_paused.
Proof. eapply rtc_r; [exact sample_gate_reachable|apply gs_pause]. Qed.

Lemma paused_gate_is_silent_witness : ∃ t, heap sample_paused !! 0%nat = Some t ∧ slot t = None.
Proof.
  destruct (paused_gate_is_silent sample_paused 0 sample_paused_reachable eq_refl) as (t & H1 & H2 & _); [vm_compute; reflexivity|].
  exists t. split; [exact H1|exact H2].
Defined.

Lemma running_ticker_ticks_witness : ∃ n g' t', (n ≤ 2)%nat ∧ nsteps (ticker_step 0%nat) n sample_gate g' ∧ heap g' !! 0%nat = Some t' ∧ is_Some (slot t').
Proof. apply (running_ticker_ticks sample_gate 0 sample_gate_reachable eq_refl). vm_compute. reflexivity. Defined.

Lemma resume_ticks_at_once_witness : ∃ t, heap (Resume sample_paused 7) !! 0%nat = Some t ∧ slot t = Some 7.
Proof.
  destruct (resume_ticks_at_once sample_paused 0 7 sample_paused_reachable eq_refl) as (_ & t & H1 & H2 & _); [vm_compute; reflexivity|].
  exists t. split; [exact H1|exact H2].
Defined.
