(* ===== verification/Holds.v ===== *)
(** * internal/foreground/foreground.go: who needs the foreground

    Holders acquire and release; a subscriber is told the edges, in order, by a
    goroutine of its own.  Each step below is one critical section of the
    mutex, one receive from the wake channel, or one call of the subscriber,
    which runs outside the mutex. *)

From stdpp Require Import gmap relations.
From S2P Require Import Prelude.

Record edge := mkEdge { needed : bool; reason : bytes }.

(** Where the delivering goroutine is: waiting on the wake channel, about to
    take the mutex, or calling a subscriber. *)
Inductive deliverer := Blocked | Draining | Calling (fn : nat) (e : edge).

#[export] Instance edge_eq_dec : EqDecision edge.
Proof. solve_decision. Defined.
#[export] Instance deliverer_eq_dec : EqDecision deliverer.
Proof. solve_decision. Defined.

Record Holds := mkHolds {
  seq : Z;
  active : gmap Z bytes;
  sub : option nat;
  announced : bool;
  queue : list edge;
  wake : option bool;                 (** nil, or a channel and whether it holds a signal *)
  worker : option deliverer;          (** the goroutine of [deliver], if one runs *)
  unreleased : gset Z;                (** the release functions not called yet *)
  delivered : list (nat * edge);      (** the calls made, in order *)
}.

Definition zero_holds : Holds := mkHolds 0 ∅ None false [] None None ∅ [].

Definition anyone (h : Holds) : bool := bool_decide (active h ≠ ∅).

(** [select { case h.wake <- struct{}{}: default: }]; nothing is sent on a nil
    channel. *)
Definition signal (w : option bool) : option bool := (λ _, true) <$> w.

Definition enqueueEdgeLocked (h : Holds) (why : bytes) : Holds :=
  let n := anyone h in
  if bool_decide (sub h = None) || eqb n (announced h) then h
  else mkHolds (seq h) (active h) (sub h) n (queue h ++ [mkEdge n (if n then why else [])])
         (signal (wake h)) (worker h) (unreleased h) (delivered h).

Definition Acquire (h : Holds) (why : bytes) : Holds * Z :=
  let id := u64 (seq h + 1) in
  (enqueueEdgeLocked (mkHolds id (<[id := why]> (active h)) (sub h) (announced h) (queue h) (wake h) (worker h)
     ({[id]} ∪ unreleased h) (delivered h)) why, id).

(** The function [Acquire] returned, called for the first time ([sync.Once]). *)
Definition release (h : Holds) (id : Z) : Holds :=
  enqueueEdgeLocked (mkHolds (seq h) (delete id (active h)) (sub h) (announced h) (queue h) (wake h) (worker h)
     (unreleased h ∖ {[id]}) (delivered h)) [].

(** [Subscribe]; [why] is the reason the loop over the map breaks at. *)
Definition Subscribe (h : Holds) (fn : option nat) (why : bytes) : Holds :=
  match fn with
  | Some f =>
    let '(w, g) := match wake h with None => (Some false, Some Blocked) | Some b => (Some b, worker h) end in
    enqueueEdgeLocked (mkHolds (seq h) (active h) (Some f) (negb (anyone h)) (queue h) w g (unreleased h) (delivered h))
      (if anyone h then why else [])
  | None => mkHolds (seq h) (active h) None (announced h) [] (signal (wake h)) (worker h) (unreleased h) (delivered h)
  end.

Definition Active (h : Holds) : list bytes := (map_to_list (active h)).*2.

(** ** The goroutine *)

Definition set_worker (h : Holds) (q : list edge) (w : option bool) (g : option deliverer) (log : list (nat * edge)) : Holds :=
  mkHolds (seq h) (active h) (sub h) (announced h) q w g (unreleased h) log.

(** [deliver], one step at a time; [None] when it cannot move. *)
Definition deliver (h : Holds) : option Holds :=
  match worker h with
  | None => None
  | Some Blocked =>
    match wake h with
    | Some true => Some (set_worker h (queue h) (Some false) (Some Draining) (delivered h))
    | _ => None
    end
  | Some Draining =>
    match queue h with
    | [] =>
      match sub h with
      | None => Some (set_worker h [] None None (delivered h))
      | Some _ => Some (set_worker h [] (wake h) (Some Blocked) (delivered h))
      end
    | e :: q =>
      Some (set_worker h q (wake h) (Some match sub h with Some fn => Calling fn e | None => Draining end) (delivered h))
    end
  | Some (Calling fn e) => Some (set_worker h (queue h) (wake h) (Some Draining) (delivered h ++ [(fn, e)]))
  end.

Inductive holds_step : Holds → Holds → Prop :=
| hs_acquire h why : holds_step h (Acquire h why).1
| hs_release h id : id ∈ unreleased h → holds_step h (release h id)
| hs_subscribe h fn why : (active h ≠ ∅ → ∃ id, active h !! id = Some why) → holds_step h (Subscribe h fn why)
| hs_deliver h h' : deliver h = Some h' → holds_step h h'.

(** ** The invariant *)

(** The calls made and the one being made. *)
Definition told (h : Holds) : list (nat * edge) :=
  delivered h ++ match worker h with Some (Calling fn e) => [(fn, e)] | _ => [] end.

(** The newest edge says what holds now: it is queued last, or it was the last
    one told, and to the subscriber of now. *)
Definition newest_true (h : Holds) (fn : nat) : Prop :=
  match last (queue h) with
  | Some e => needed e = announced h
  | None => ∃ e, last (told h) = Some (fn, e) ∧ needed e = announced h
  end.

Record holds_ok (h : Holds) : Prop := {
  ok_announced : ∀ fn, sub h = Some fn → announced h = anyone h ∧ newest_true h fn;
  ok_unqueued : sub h = None → queue h = [];
  ok_wake : wake h = None ↔ worker h = None;
  ok_worker : sub h ≠ None → worker h ≠ None;
  (** no wake-up is lost: a waiting goroutine with work, or without a
      subscriber, has a signal waiting for it *)
  ok_signal : worker h = Some Blocked → queue h ≠ [] ∨ sub h = None → wake h = Some true;
}.

Lemma signal_None w : signal w = None ↔ w = None.
Proof. by destruct w. Qed.

(** What [enqueueEdgeLocked] needs of the state it finds: the invariant, but
    for [announced] being out of date. *)
Lemma enqueue_ok h why : (∀ fn, sub h = Some fn → announced h = anyone h → newest_true h fn) →
  (sub h = None → queue h = []) → (wake h = None ↔ worker h = None) → (sub h ≠ None → worker h ≠ None) →
  (worker h = Some Blocked → queue h ≠ [] ∨ sub h = None → wake h = Some true) → holds_ok (enqueueEdgeLocked h why).
Proof.
  intros H1 H2 H3 H4 H5. unfold enqueueEdgeLocked. destruct (sub h) as [fn|] eqn:Es.
  2:{ rewrite bool_decide_true by done. cbn [orb]. split; rewrite ?Es; try done; auto. }
  rewrite bool_decide_false by done. cbn [orb]. destruct (eqb (anyone h) (announced h)) eqn:E.
  - apply eqb_prop in E. split; rewrite ?Es; auto.
  - split; cbn; try done.
    + intros f [= <-]. split; [done|]. unfold newest_true. cbn. by rewrite last_snoc.
    + by rewrite signal_None.
    + intros Hb _. destruct (wake h) eqn:Ew; [done|]. pose proof (proj1 H3 eq_refl). congruence.
Qed.

Lemma holds_ok_step h h' : holds_ok h → holds_step h h' → holds_ok h'.
Proof.
  intros [H1 H2 H3 H4 H5] Hs. destruct Hs as [h why|h id Hid|h fn why Hw|h h' Hd].
  - apply enqueue_ok; cbn; auto. intros fn Hf _. by apply H1.
  - apply enqueue_ok; cbn; auto. intros fn Hf _. by apply H1.
  - destruct fn as [f|]; cbn.
    + destruct (wake h) as [b|] eqn:Ew.
      * apply enqueue_ok; cbn; try done.
        -- intros ? _ Ha. exfalso. revert Ha. unfold anyone. cbn. by destruct (bool_decide _).
        -- intros _ Hn. pose proof (proj2 H3 Hn). congruence.
        -- intros Hb [Hq|?]; [|done]. by apply H5; [|left].
      * apply enqueue_ok; cbn; try done.
        -- intros ? _ Ha. exfalso. revert Ha. unfold anyone. cbn. by destruct (bool_decide _).
        -- intros _ [Hq|?]; [|done]. destruct (sub h) eqn:Es; [|by rewrite H2 in Hq]. destruct (H4 ltac:(done)). by apply H3.
    + split; cbn; try done.
      * by rewrite signal_None.
      * intros Hb _. destruct (wake h) eqn:Ew; [done|]. pose proof (proj1 H3 eq_refl). congruence.
  - unfold deliver in Hd. destruct (worker h) as [[| |f e]|] eqn:Ew; [| | |done].
    + destruct (wake h) as [[]|] eqn:Ewk; [|done..]. injection Hd as <-. split; cbn; try done.
      intros fn Hf. destruct (H1 fn Hf) as [? Hn]. split; [done|]. unfold newest_true, told in *. cbn. by rewrite Ew in Hn.
    + destruct (queue h) as [|e q] eqn:Eq; [destruct (sub h) as [fn|] eqn:Es|]; injection Hd as <-; split; cbn; rewrite ?Es; try done.
      * intros f [= <-]. destruct (H1 fn eq_refl) as [? Hn]. split; [done|]. unfold newest_true, told in *. cbn. by rewrite Ew, Eq in Hn.
      * split; [intros Ha; by apply H3 in Ha|done].
      * by intros _ [?|?].
      * intros f Hf. destruct (H1 f Hf) as [? Hn]. split; [done|]. unfold newest_true, told in *. cbn. rewrite Ew, Eq in Hn. rewrite Hf.
        rewrite last_cons in Hn. destruct (last q); [done|]. exists e. split; [by rewrite last_snoc|done].
      * intros Hn. by specialize (H2 Hn).
      * split; [intros Ha; by apply H3 in Ha|by destruct (sub h)].
      * by destruct (sub h).
    + injection Hd as <-. split; cbn; try done.
      * intros fn Hf. destruct (H1 fn Hf) as [? Hn]. split; [done|]. unfold newest_true, told in *. cbn. rewrite Ew in Hn. by rewrite app_nil_r.
      * split; [intros Ha; by apply H3 in Ha|done].
Qed.

Lemma holds_ok_reachable h : rtc holds_step zero_holds h → holds_ok h.
Proof.
  assert (holds_ok zero_holds) as H0 by (by split).
  generalize zero_holds, H0. clear H0. intros h0 H0 Hr. induction Hr as [|? ? ? Hs _ IH]; [done|]. by apply IH, (holds_ok_step _ _ H0 Hs).
Qed.

(** Steps the goroutine takes by itself, and how many there can be. *)
Definition deliver_step (h h' : Holds) : Prop := deliver h = Some h'.

Definition to_go (h : Holds) : nat :=
  match worker h with
  | None => 0
  | Some Blocked => match queue h with [] => 0 | q => 2 * length q + 2 end
  | Some Draining => 2 * length (queue h) + 1
  | Some (Calling _ _) => 2 * length (queue h) + 2
  end.

Lemma deliver_keeps h h' : deliver h = Some h' → active h' = active h ∧ sub h' = sub h.
Proof. unfold deliver. intros H. repeat case_match; simplify_eq; done. Qed.

(** Left alone, the goroutine with a subscriber ends up waiting with nothing queued. *)
Lemma deliver_drains n : ∀ h, (to_go h ≤ n)%nat → sub h ≠ None → worker h ≠ None → (worker h = Some Blocked → queue h ≠ [] → wake h = Some true) →
  ∃ k h', (k ≤ n)%nat ∧ nsteps deliver_step k h h' ∧ queue h' = [] ∧ worker h' = Some Blocked ∧ active h' = active h ∧ sub h' = sub h.
Proof.
  induction n as [|n IH]; intros h Hn Hs Hw Hb; destruct (decide (worker h = Some Blocked ∧ queue h = [])) as [[Ew Eq]|Hne];
    try (exists 0%nat, h; split; [lia|]; split; [constructor|]; done).
  { unfold to_go in Hn. destruct (worker h) as [[| |f e]|]; [|lia..|done]. destruct (queue h); [|cbn in Hn; lia]. by destruct Hne. }
  assert (∃ h1, deliver h = Some h1 ∧ (to_go h1 ≤ n)%nat ∧ worker h1 ≠ None ∧ (worker h1 = Some Blocked → queue h1 ≠ [] → wake h1 = Some true))
    as (h1 & Hd & Hn1 & Hw1 & Hb1).
  { unfold deliver, to_go in *. destruct (worker h) as [[| |f e]|] eqn:Ew; [| | |done].
    - rewrite (Hb eq_refl) by naive_solver. eexists. split; [done|]. cbn. destruct (queue h) as [|e q] eqn:Eq; [by destruct Hne|]. cbn in *. split; [lia|done].
    - destruct (queue h) as [|e q] eqn:Eq; cbn in *.
      + destruct (sub h); [|done]. eexists. split; [done|]. cbn. split; [lia|done].
      + eexists. split; [done|]. cbn. destruct (sub h); [|done]. cbn. split; [lia|done].
    - eexists. split; [done|]. cbn. split; [lia|done]. }
  destruct (deliver_keeps h h1 Hd) as [Ea Es]. destruct (IH h1 Hn1) as (k & h' & Hk & Hst & Hq & Hw' & Ha' & Hs'); [by rewrite Es|done|done|].
  exists (S k), h'. split; [lia|]. split; [by eapply nsteps_l|]. rewrite Ha', Hs'. done.
Qed.

Lemma deliver_run_ok k h h' : nsteps deliver_step k h h' → holds_ok h → holds_ok h'.
Proof. induction 1 as [|k h h1 h' Hd _ IH]; [done|]. intros H. by apply IH, (holds_ok_step h), hs_deliver. Qed.

(** C40. The subscriber is told the truth last: from every reachable state with a
    subscriber, the goroutine, left to itself, comes to rest within a bounded
    number of steps with nothing queued, and the last call it then has made was
    to that subscriber and said whether anyone holds the foreground.  No
    interleaving of acquires, releases, changes of subscriber and deliveries
    loses a wake-up. *)
Theorem subscriber_told_last h fn : rtc holds_step zero_holds h → sub h = Some fn →
  ∃ k h' e, (k ≤ 2 * length (queue h) + 2)%nat ∧ nsteps deliver_step k h h' ∧ worker h' = Some Blocked ∧ queue h' = [] ∧
    active h' = active h ∧ last (delivered h') = Some (fn, e) ∧ needed e = anyone h.
Proof.
  intros Hr Hs. pose proof (holds_ok_reachable h Hr) as Hok.
  assert (to_go h ≤ 2 * length (queue h) + 2)%nat as Hb by (unfold to_go; destruct (worker h) as [[| |? ?]|]; [destruct (queue h)|..]; cbn; lia).
  destruct (deliver_drains _ h Hb) as (k & h' & Hk & Hst & Hq & Hw & Ha & Hs').
  - congruence.
  - apply (ok_worker _ Hok). congruence.
  - intros Ew Hne. apply (ok_signal _ Hok); auto.
  - pose proof (deliver_run_ok _ _ _ Hst Hok) as Hok'. rewrite Hs in Hs'. destruct (ok_announced _ Hok' fn Hs') as [He Hn].
    unfold newest_true, told in Hn. rewrite Hq, Hw, app_nil_r in Hn. destruct Hn as (e & Hl & Hne).
    exists k, h', e. do 6 (split; [done|]). rewrite Hne, He. unfold anyone. by rewrite Ha.
Qed.

(** No goroutine outlives its use: from every reachable state without a
    subscriber the delivering goroutine, if there is one, can move, and with
    nothing left to deliver it ends by itself. *)
Theorem idle_goroutine_ends h : rtc holds_step zero_holds h → sub h = None → worker h ≠ None →
  ∃ k h', (k ≤ 3)%nat ∧ nsteps deliver_step k h h' ∧ worker h' = None ∧ wake h' = None.
Proof.
  intros Hr Hs Hw. pose proof (holds_ok_reachable h Hr) as Hok. pose proof (ok_unqueued _ Hok Hs) as Hq.
  assert (∀ h1, sub h1 = None → queue h1 = [] → worker h1 = Some Draining → ∃ h', deliver_step h1 h' ∧ worker h' = None ∧ wake h' = None) as Hend.
  { intros h1 E1 E2 E3. unfold deliver_step, deliver. rewrite E3, E2, E1. by eexists. }
  destruct (worker h) as [[| |f e]|] eqn:Ew; [| | |done].
  - pose proof (ok_signal _ Hok Ew (or_intror Hs)) as Hwk.
    destruct (Hend (set_worker h (queue h) (Some false) (Some Draining) (delivered h))) as (h' & Hd & ?); [done..|].
    exists 2%nat, h'. split; [lia|]. split; [|done]. eapply nsteps_l; [|by apply nsteps_once]. unfold deliver_step, deliver. by rewrite Ew, Hwk.
  - destruct (Hend h) as (h' & Hd & ?); [done..|]. exists 1%nat, h'. split; [lia|]. split; [by apply nsteps_once|done].
  - destruct (Hend (set_worker h (queue h) (wake h) (Some Draining) (delivered h ++ [(f, e)]))) as (h' & Hd & ?); [done..|].
    exists 2%nat, h'. split; [lia|]. split; [|done]. eapply nsteps_l; [|by apply nsteps_once]. unfold deliver_step, deliver. by rewrite Ew.
Qed.

(** ** Witnesses *)

(** A subscriber, and a holder that acquired after it. *)
Definition sample_held : Holds := (Acquire (Subscribe zero_holds (Some 1%nat) []) (bs "voice")).1.

Lemma sample_held_reachable : rtc holds_step zero_holds sample_held.
Proof.
  eapply rtc_l; [apply (hs_subscribe zero_holds (Some 1%nat) []); intros Hb; by destruct Hb|]. apply rtc_once, hs_acquire.
Qed.

Lemma subscriber_told_last_witness : ∃ k h' e, (k ≤ 6)%nat ∧ nsteps deliver_step k sample_held h' ∧ last (delivered h') = Some (1%nat, e) ∧ needed e = true.
Proof.
  destruct (subscriber_told_last sample_held 1 sample_held_reachable eq_refl) as (k & h' & e & H1 & H2 & _ & _ & _ & H3 & H4).
  exists k, h', e. split; [exact H1|]. split; [exact H2|]. split; [exact H3|exact H4].
Defined.

Lemma idle_goroutine_ends_witness : ∃ k h', (k ≤ 3)%nat ∧ nsteps deliver_step k (Subscribe sample_held None (bs "voice")) h' ∧ worker h' = None.
Proof.
  destruct (idle_goroutine_ends (Subscribe sample_held None (bs "voice"))) as (k & h' & H1 & H2 & H3 & _).
  - eapply rtc_r; [exact sample_held_reachable|]. apply hs_subscribe. intros _. exists 1. vm_compute. reflexivity.
  - reflexivity.
  - discriminate.
  - exists k, h'. split; [exact H1|]. split; [exact H2|exact H3].
Defined.
