(* ===== verification/Sections.v ===== *)
(** * internal/sections/sections.go: interface sections

    The declaration a package carries ([ParseDecl]), the paths it may name, and
    the registry of active sections, in which a section is known by its address
    as well as by its id. *)

From stdpp Require Import gmap relations.
From S2P Require Import Prelude Utf8 GoJson CanonicalJson CanonicalJsonFacts GoStruct Container.

(** ** Declarations *)

Definition validSlots : list bytes := [bs "rail"; bs "main-tabs"; bs "panel"; bs "dock"; bs "overlay"].
Definition maxDeclBytes : Z := 16 * 1024.

Record Decl := mkDecl {
  ID : bytes;
  Title : bytes;
  Slot : bytes;
  Commands : list bytes;
  Topics : list bytes;
  Entry : bytes;
}.

(** [DeclError], by the field it names. *)
Inductive decl_err := DSize | DJson | DId | DSlot | DEntry | DCommands | DTopics.

(** The bytes after the first may also be [.], [_] and [-]. *)
Fixpoint token_from (first : bool) (s : bytes) : bool :=
  match s with
  | [] => true
  | c :: t =>
    (between 97 122 c || between 48 57 c || (((c =? 46) || (c =? 95) || (c =? 45)) && negb first)) && token_from false t
  end.

Definition token (s : bytes) : bool :=
  if bool_decide (s = []) || (64 <? length s)%nat then false else token_from true s.

(** [strings.Split(p, "/")]. *)
Fixpoint split_slash (p : bytes) : list bytes :=
  match p with
  | [] => [[]]
  | c :: t =>
    if c =? 47 then [] :: split_slash t
    else match split_slash t with seg :: rest => (c :: seg) :: rest | [] => [[c]] end
  end.

Definition bad_segment (seg : bytes) : bool := beq seg [] || beq seg [46] || beq seg [46; 46].

Definition cleanEntryPath (p : bytes) : bool :=
  if beq p [] || HasPrefix p [47] || existsb (Z.eqb 92) p then false
  else negb (existsb bad_segment (split_slash p)).

(** A string element decoded over an earlier one. *)
Definition string_elem (prior raw : bytes) : option bytes := if beq raw null_text then Some prior else conv_string raw.

Definition decode_decl (raw : bytes) : option Decl :=
  ms ← struct_members true false [bs "id"; bs "title"; bs "slot"; bs "commands"; bs "topics"; bs "entry"] raw;
  id ← field conv_string [] (bs "id") ms;
  title ← field conv_string [] (bs "title") ms;
  slot ← field conv_string [] (bs "slot") ms;
  commands ← slice_field string_elem [] (bs "commands") ms;
  topics ← slice_field string_elem [] (bs "topics") ms;
  entry ← field conv_string [] (bs "entry") ms;
  Some (mkDecl id title slot commands topics entry).

(** The loop over a list of names: tokens, each once. *)
Fixpoint check_names (err : decl_err) (seen : gset (list Z)) (names : list bytes) : result decl_err unit :=
  match names with
  | [] => Ok ()
  | c :: rest =>
    if negb (token c) then Err err
    else if bool_decide (c ∈ seen) then Err err
    else check_names err ({[c]} ∪ seen) rest
  end.

Definition with_defaults (d : Decl) : Decl :=
  mkDecl (ID d) (if beq (Title d) [] then ID d else Title d) (Slot d) (Commands d) (Topics d)
    (if beq (Entry d) [] then bs "index.html" else Entry d).

Definition ParseDecl (raw : bytes) : result decl_err Decl :=
  if maxDeclBytes <? Z.of_nat (length raw) then Err DSize
  else
    d0 ← of_option DJson (decode_decl raw);
    if negb (token (ID d0)) then Err DId
    else if negb (existsb (beq (Slot d0)) validSlots) then Err DSlot
    else
      let d := with_defaults d0 in
      if negb (cleanEntryPath (Entry d)) || negb (HasSuffix (Entry d) (bs ".html")) then Err DEntry
      else
        _ ← check_names DCommands ∅ (Commands d);
        _ ← check_names DTopics ∅ (Topics d);
        mret d.

(** ** The registry *)

Abbreviation loc := nat.

Record Section_ := mkSection { s_Decl : Decl; s_Dir : bytes; s_Dev : bool; s_PackageID : bytes }.

(** Sections by address; they do not change once made. *)
Abbreviation sections_heap := (gmap nat Section_).

Inductive registry_err := EWithdrawn | EDuplicate.

Abbreviation Registry := (gmap (list Z) loc).
Definition NewRegistry : Registry := ∅.

Section Registry.
Variable heap : sections_heap.
(** What [sec.allowed()] answers during a call. *)
Variable allowed : loc → bool.

(** The id a section declares. *)
Definition id_of (sec : loc) : bytes := match heap !! sec with Some s => ID (s_Decl s) | None => [] end.

Definition Register (r : Registry) (sec : loc) : Registry * result registry_err unit :=
  if negb (allowed sec) then (r, Err EWithdrawn)
  else if bool_decide (is_Some (r !! id_of sec)) then (r, Err EDuplicate)
  else (<[id_of sec := sec]> r, Ok ()).

Definition Remove (r : Registry) (id : bytes) : Registry := delete id r.

Definition RemoveOwned (r : Registry) (sec : option loc) : Registry * bool :=
  match sec with
  | None => (r, false)
  | Some s => if bool_decide (r !! id_of s = Some s) then (delete (id_of s) r, true) else (r, false)
  end.

Definition Replace (r : Registry) (prev : option loc) (next : loc) : Registry * result registry_err unit :=
  if negb (allowed next) then (r, Err EWithdrawn)
  else if match r !! id_of next with Some cur => negb (bool_decide (Some cur = prev)) | None => false end then (r, Err EDuplicate)
  else
    let r1 := match prev with
              | Some p => if bool_decide (r !! id_of p = Some p) then delete (id_of p) r else r
              | None => r
              end in
    (<[id_of next := next]> r1, Ok ()).

Definition Get (r : Registry) (id : bytes) : option loc :=
  match r !! id with Some sec => if allowed sec then Some sec else None | None => None end.

Definition List_ (r : Registry) : list loc :=
  snd <$> sort_keys ((λ sec, (id_of sec, sec)) <$> filter (λ sec, allowed sec = true) (map_to_list r).*2).
End Registry.

(** ** What a declaration promises *)

Record valid_decl (d : Decl) : Prop := {
  vd_id : token (ID d) = true;
  vd_slot : Slot d ∈ validSlots;
  vd_entry : cleanEntryPath (Entry d) = true;
  vd_html : HasSuffix (Entry d) (bs ".html") = true;
  vd_commands : NoDup (Commands d) ∧ Forall (λ c, token c = true) (Commands d);
  vd_topics : NoDup (Topics d) ∧ Forall (λ c, token c = true) (Topics d);
}.

Lemma check_names_ok err names : ∀ seen, check_names err seen names = Ok () ↔
  NoDup names ∧ Forall (λ c, token c = true) names ∧ Forall (λ c, c ∉ seen) names.
Proof.
  induction names as [|c names IH]; intros seen; cbn; [split; [by repeat constructor|done]|].
  rewrite NoDup_cons, !Forall_cons. destruct (token c); [|naive_solver]. cbn [negb].
  case_bool_decide as Hc; [naive_solver|]. rewrite IH.
  assert (Forall (λ c', c' ∉ ({[c]} ∪ seen : gset (list Z))) names ↔ c ∉ names ∧ Forall (λ c', c' ∉ seen) names) as ->; [|tauto].
  rewrite !Forall_forall. split; [intros H; split; [intros Hin; specialize (H c Hin)|intros x Hx; specialize (H x Hx)]; set_solver|].
  intros [H1 H2] x Hx. specialize (H2 x Hx). apply not_elem_of_union. split; [|done]. by intros ->%elem_of_singleton.
Qed.

(** [ParseDecl] accepts exactly the valid declarations: at most 16 KiB of
    JSON that decodes, with a known slot, a token for an id, an entry (the
    default one when none is named) that is a clean relative .html path, and
    command and topic names that are tokens, each named once. *)
Theorem ParseDecl_accepts raw d : ParseDecl raw = Ok d ↔
  Z.of_nat (length raw) ≤ maxDeclBytes ∧ ∃ d0, decode_decl raw = Some d0 ∧ d = with_defaults d0 ∧ valid_decl d.
Proof.
  unfold ParseDecl. destruct (Z.ltb_spec maxDeclBytes (Z.of_nat (length raw))); [split; [done|intros [? _]; lia]|].
  rewrite bind_ok. setoid_rewrite of_option_ok. split.
  - intros (d0 & Hd & H0). split; [lia|]. exists d0. split; [done|]. destruct (token (ID d0)) eqn:E1; [|done].
    destruct (existsb _ _) eqn:E2; [|done]. cbn [negb] in H0. destruct (_ || _) eqn:E3; [done|]. b2p.
    apply bind_ok in H0 as ([] & (Hc1 & Hc2 & _)%check_names_ok & H0). apply bind_ok in H0 as ([] & (Ht1 & Ht2 & _)%check_names_ok & [= <-]).
    split; [done|]. split; try done. apply existsb_exists in E2 as (x & Hx & Hb). b2p. subst x. by apply list_elem_of_In.
  - intros (_ & d0 & Hd & -> & [H1 H2 H3 H4 [H5 H6] [H7 H8]]). exists d0. split; [done|]. cbn [ID with_defaults Slot] in H1, H2.
    rewrite H1. cbn [negb]. assert (existsb (beq (Slot d0)) validSlots = true) as ->.
    { apply existsb_exists. exists (Slot d0). split; [by apply list_elem_of_In|apply beq_refl]. }
    cbn [negb]. rewrite H3, H4. cbn [negb orb].
    rewrite (proj2 (check_names_ok DCommands (Commands (with_defaults d0)) ∅)) by (split; [done|split; [done|apply Forall_forall; set_solver]]).
    cbn [mbind result_bind].
    rewrite (proj2 (check_names_ok DTopics (Topics (with_defaults d0)) ∅)) by (split; [done|split; [done|apply Forall_forall; set_solver]]).
    done.
Qed.

(** [filepath.Join]'s cleaning of a path, segment by segment. *)
Definition walk_segment (at_ : list bytes) (seg : bytes) : list bytes :=
  if beq seg [] || beq seg [46] then at_ else if beq seg [46; 46] then removelast at_ else at_ ++ [seg].

Lemma split_slash_nonempty p : split_slash p ≠ [].
Proof. destruct p as [|c p]; cbn; [done|]. destruct (c =? 47); [done|]. by destruct (split_slash p). Qed.

(** Walking segments none of which is empty or dotted only descends. *)
Lemma walk_descends segs : Forall (λ seg, bad_segment seg = false) segs → ∀ dir, foldl walk_segment dir segs = dir ++ segs.
Proof.
  induction 1 as [|seg segs Hs _ IH]; intros dir; cbn [foldl]; [by rewrite app_nil_r|].
  assert (walk_segment dir seg = dir ++ [seg]) as ->.
  { unfold walk_segment, bad_segment in *. apply orb_false_iff in Hs as [Hs ->]. by rewrite Hs. }
  by rewrite IH, <- app_assoc.
Qed.

(** A clean path cannot leave the directory it is joined to: walking its
    segments from any directory, as [filepath.Join] does, only descends, and
    ends at the directory followed by exactly the path's segments. *)
Theorem clean_path_stays_inside p dir : cleanEntryPath p = true →
  foldl walk_segment dir (split_slash p) = dir ++ split_slash p ∧ split_slash p ≠ [] ∧ Forall (λ seg, seg ≠ []) (split_slash p).
Proof.
  unfold cleanEntryPath. destruct (_ || _); [done|]. intros H. apply negb_true_iff in H.
  assert (Forall (λ seg, bad_segment seg = false) (split_slash p)) as Hf.
  { apply Forall_forall. intros seg Hs%list_elem_of_In. destruct (bad_segment seg) eqn:E; [|done].
    rewrite <- not_true_iff_false, existsb_exists in H. destruct H. by exists seg. }
  split; [by apply walk_descends|]. split; [apply split_slash_nonempty|].
  eapply Forall_impl; [exact Hf|]. intros seg Hs ->. done.
Qed.

(** ** The registry's invariant *)

Section RegistryFacts.
Variable heap : sections_heap.
Implicit Types (r : Registry) (sec : loc).

(** Every section stands under the id it declares. *)
Definition registry_ok r : Prop := ∀ id sec, r !! id = Some sec → id_of heap sec = id.

Inductive registry_step : Registry → Registry → Prop :=
| rg_register allowed r sec : registry_step r (Register heap allowed r sec).1
| rg_remove r id : registry_step r (Remove r id)
| rg_owned r (own : option loc) : registry_step r (RemoveOwned heap r own).1
| rg_replace allowed r prev next : registry_step r (Replace heap allowed r prev next).1.

Lemma registry_insert r sec : registry_ok r → registry_ok (<[id_of heap sec := sec]> r).
Proof.
  intros Hr id x. destruct (decide (id_of heap sec = id)) as [E|E]; [rewrite E, lookup_insert_eq; by intros [= <-]|].
  rewrite lookup_insert_ne by done. apply Hr.
Qed.

Lemma registry_delete r id : registry_ok r → registry_ok (delete id r).
Proof. intros Hr i x [_ H]%lookup_delete_Some. by apply Hr. Qed.

Lemma registry_ok_step r r' : registry_ok r → registry_step r r' → registry_ok r'.
Proof.
  intros Hr Hs. destruct Hs as [al r sec|r id|r [sec|]|al r prev next]; cbn.
  - unfold Register. repeat case_match; cbn; auto using registry_insert.
  - by apply registry_delete.
  - case_bool_decide; cbn; auto using registry_delete.
  - done.
  - unfold Replace. destruct (negb (al next)); [done|]. case_match eqn:E; [done|]. cbn. apply registry_insert.
    destruct prev; [|done]. case_bool_decide; auto using registry_delete.
Qed.

Lemma registry_ok_reachable r : rtc registry_step NewRegistry r → registry_ok r.
Proof.
  assert (registry_ok NewRegistry) as H0 by (intros id sec; unfold NewRegistry; by rewrite lookup_empty).
  generalize NewRegistry, H0. clear H0. intros r0 H0 Hr. induction Hr as [|? ? ? Hs _ IH]; [done|]. by apply IH, (registry_ok_step _ _ H0 Hs).
Qed.

(** What is registered is found, once, under its own id: in every reachable
    registry a section stands only under the id it declares, so under one id at
    most, and the listing holds exactly the allowed sections, each once, in the
    order of their ids. *)
Theorem registry_lists_each_once allowed r : rtc registry_step NewRegistry r →
  (∀ sec, sec ∈ List_ heap allowed r ↔ allowed sec = true ∧ r !! id_of heap sec = Some sec) ∧
  NoDup (List_ heap allowed r) ∧ StronglySorted (λ x y, bytes_leb (id_of heap x) (id_of heap y) = true) (List_ heap allowed r).
Proof.
  intros Hr%registry_ok_reachable. unfold List_. set (l := filter _ _).
  assert (∀ sec, sec ∈ l ↔ allowed sec = true ∧ r !! id_of heap sec = Some sec) as Hl.
  { intros sec. unfold l. rewrite list_elem_of_filter. split; intros [Ha H]; (split; [done|]).
    - apply list_elem_of_fmap in H as ([id s] & -> & H%elem_of_map_to_list). cbn. by rewrite (Hr _ _ H).
    - apply list_elem_of_fmap. exists (id_of heap sec, sec). split; [done|]. by apply elem_of_map_to_list. }
  assert (snd <$> sort_keys ((λ sec, (id_of heap sec, sec)) <$> l) ≡ₚ l) as Hp.
  { rewrite sort_keys_perm, <- list_fmap_compose. apply reflexive_eq. rewrite <- (list_fmap_id l) at 2. by apply list_fmap_ext. }
  split; [intros sec; by rewrite Hp|]. split.
  - rewrite Hp. unfold l. apply NoDup_filter. apply (NoDup_fmap_1 (id_of heap)). rewrite <- list_fmap_compose.
    erewrite list_fmap_ext; [apply NoDup_fst_map_to_list|]. intros i [id s] H. cbn. apply Hr, elem_of_map_to_list. by eapply list_elem_of_lookup_2.
  - pose proof (sort_keys_sorted ((λ sec, (id_of heap sec, sec)) <$> l)) as Hs.
    assert (Forall (λ kv : bytes * loc, kv.1 = id_of heap kv.2) (sort_keys ((λ sec, (id_of heap sec, sec)) <$> l))) as Hk.
    { rewrite sort_keys_perm. apply Forall_fmap, Forall_true. done. }
    clear Hp. clearbody l. clear Hl. induction Hs as [|kv m Hs IH Hle]; cbn; [constructor|]. apply Forall_cons in Hk as [Hk1 Hk]. constructor; [by apply IH|]. 
    apply Forall_fmap. eapply Forall_impl; [apply Forall_and; split; [exact Hle|exact Hk]|]. intros x [H1 H2]. cbn. unfold key_le in H1. congruence.
Qed.

(** Replacing a section touches only the two: when [Replace] succeeds the
    new section is registered under its id, the one it replaces is registered
    nowhere, and every other id answers as before; when it fails nothing moves,
    and it fails exactly when the new one is withdrawn or its id is held by a
    section other than the one replaced. *)
Theorem replace_touches_two allowed r prev next : rtc registry_step NewRegistry r →
  let '(r', res) := Replace heap allowed r prev next in
  (res = Ok () → r' !! id_of heap next = Some next ∧
    (∀ p, prev = Some p → p ≠ next → ∀ id, r' !! id ≠ Some p) ∧
    (∀ id, id ≠ id_of heap next → (∀ p, prev = Some p → id ≠ id_of heap p ∨ r !! id ≠ Some p) → r' !! id = r !! id)) ∧
  (res ≠ Ok () → r' = r) ∧
  (res = Ok () ↔ allowed next = true ∧ ∀ cur, r !! id_of heap next = Some cur → prev = Some cur).
Proof.
  intros Hr%registry_ok_reachable. unfold Replace. destruct (allowed next) eqn:Ea; cbn [negb]; [|naive_solver].
  destruct (match r !! id_of heap next with Some cur => _ | None => _ end) eqn:Ec.
  { split; [done|]. split; [done|]. split; [done|]. intros [_ H]. destruct (r !! id_of heap next) as [cur|]; [|done].
    rewrite (H cur eq_refl), bool_decide_true in Ec by done. done. }
  split; [intros _|split; [done|]].
  - set (r1 := match prev with Some p => _ | None => r end). split; [by rewrite lookup_insert_eq|]. split.
    + intros p -> Hne id Hid. destruct (decide (id_of heap next = id)) as [<-|E]; [rewrite lookup_insert_eq in Hid; congruence|].
      rewrite lookup_insert_ne in Hid by done. unfold r1 in Hid. case_bool_decide as Hp.
      * apply lookup_delete_Some in Hid as [Hd Hid]. apply Hd. exact (Hr _ _ Hid).
      * apply Hp. rewrite (Hr _ _ Hid). done.
    + intros id Hne Hp. rewrite lookup_insert_ne by done. unfold r1. destruct prev as [p|]; [|done]. case_bool_decide as Hpr; [|done].
      destruct (Hp p eq_refl) as [H|H]; [by rewrite lookup_delete_ne|]. destruct (decide (id_of heap p = id)) as [<-|]; [done|by rewrite lookup_delete_ne].
  - split; [|done]. intros _. split; [done|]. intros cur Hcur. rewrite Hcur in Ec. apply negb_false_iff, bool_decide_eq_true in Ec. done.
Qed.
End RegistryFacts.

(** ** Witnesses *)

Definition sample_text : bytes :=
  bs "{" ++ [34] ++ bs "id" ++ [34] ++ bs ":" ++ [34] ++ bs "notes" ++ [34] ++ bs "," ++ [34] ++ bs "slot" ++ [34] ++ bs ":" ++ [34] ++ bs "rail" ++ [34]
  ++ bs "," ++ [34] ++ bs "commands" ++ [34] ++ bs ":[" ++ [34] ++ bs "open" ++ [34] ++ bs "]}".
Definition sample_decl : Decl := mkDecl (bs "notes") (bs "notes") (bs "rail") [bs "open"] [] (bs "index.html").
Definition sample_heap : sections_heap := {[ 0%nat := mkSection sample_decl (bs "cache") false (bs "pkg") ]}.

Lemma ParseDecl_accepts_witness : Z.of_nat (length sample_text) ≤ maxDeclBytes ∧ valid_decl sample_decl.
Proof.
  destruct (proj1 (ParseDecl_accepts sample_text sample_decl)) as (H1 & d0 & _ & _ & H2); [vm_compute; reflexivity|].
  split; assumption.
Defined.

Lemma clean_path_stays_inside_witness :
  foldl walk_segment [bs "cache"] (split_slash (bs "a/index.html")) = [bs "cache"; bs "a"; bs "index.html"].
Proof. exact (proj1 (clean_path_stays_inside (bs "a/index.html") [bs "cache"] eq_refl)). Defined.

Lemma sample_reachable : rtc (registry_step sample_heap) NewRegistry (Register sample_heap (λ _, true) NewRegistry 0%nat).1.
Proof. eapply rtc_l; [apply rg_register|]. apply rtc_refl. Qed.

Lemma registry_lists_each_once_witness :
  let r := (Register sample_heap (λ _, true) NewRegistry 0%nat).1 in
  0%nat ∈ List_ sample_heap (λ _, true) r ∧ NoDup (List_ sample_heap (λ _, true) r).
Proof.
  destruct (registry_lists_each_once sample_heap (λ _, true) _ sample_reachable) as (H1 & H2 & _).
  split; [|exact H2]. apply H1. split; [reflexivity|]. vm_compute. reflexivity.
Defined.

Lemma replace_touches_two_witness :
  let r := (Register sample_heap (λ _, true) NewRegistry 0%nat).1 in
  (Replace sample_heap (λ _, true) r (Some 0%nat) 0%nat).2 = Ok () ∧
  (Replace sample_heap (λ _, true) r None 0%nat).1 = r.
Proof.
  pose proof (replace_touches_two sample_heap (λ _, true) _ None 0%nat sample_reachable) as H.
  split; [vm_compute; reflexivity|]. destruct (Replace _ _ _ None 0%nat) as [r' res] eqn:E. destruct H as (_ & H & _). cbn.
  apply H. intros ->. apply (f_equal snd) in E. vm_compute in E. discriminate E.
Defined.
