(* ===== verification/Tar.v ===== *)
(** * internal/packagefmt/tar.go: the canonical package archive

    A package is one gzip member around a tar stream in which every header, pax
    record and padding byte has exactly one admissible form.  The deflate
    decoder is a parameter; the envelope around it, the header grammar and the
    walk over the members are modelled here.  An error is its [Reason]. *)

From S2P Require Import Prelude Utf8 GoJson CanonicalJson Container Sections.

(** ** Reasons and limits *)

(** The reasons of errors.go; [ReasonOther] carries the one the tier contract
    names itself. *)
Inductive Reason :=
| ReasonEnvelopeMalformed | ReasonMemberOrder | ReasonCeilingExceeded | ReasonManifestInvalid | ReasonPackageHashMismatch
| ReasonTrustObjectShape | ReasonTrustRootUnavailable | ReasonPublisherCertInvalid | ReasonPublisherSigInvalid
| ReasonAttestationInvalid | ReasonPlatformSigInvalid | ReasonQuartetMismatch | ReasonTrustPayloadRevoked
| ReasonRevocationStatusUnavailable | ReasonVariantIntegrity | ReasonWASMBaselineMissing | ReasonOther (text : bytes).

Definition tarBlockBytes : Z := 512.
Definition maxComponentBytes : Z := 255.
Definition maxMemberPathBytes : Z := 511.
Definition maxSemanticMembers : Z := 1024.
Definition maxNonEndHeaders : Z := maxSemanticMembers * 2.
Definition maxRegularPayloadBytes : Z := 2147483648.
Definition maxPAXRecordBytes : Z := 521.
Definition maxPAXPaddedBytes : Z := 1024.
Definition maxFilePaddingBytes : Z := (maxSemanticMembers - 1) * (tarBlockBytes - 1).
Definition maxTarBytes : Z :=
  maxRegularPayloadBytes + maxNonEndHeaders * tarBlockBytes + maxSemanticMembers * maxPAXPaddedBytes + maxFilePaddingBytes + 2 * tarBlockBytes.
Definition maxDeflateBytes : Z := 128 + (maxTarBytes * 110) / 100.
Definition gzipEnvelopeBytes : Z := 18.
Definition maxCompressedBytes : Z := maxDeflateBytes + gzipEnvelopeBytes.

Definition tarTypeRegular : Z := 48.
Definition tarTypeRegularLegacy : Z := 0.
Definition tarTypeDirectory : Z := 53.
Definition tarTypePAXLocal : Z := 120.
Definition tarModeDir : Z := 493.
Definition tarModeRegular : Z := 420.
Definition tarModeExecutable : Z := 493.
Definition paxHeaderPath : bytes := bs "PaxHeaders/aiiospkg".
Definition paxMemberPlaceholder : bytes := bs "PaxPayload/aiiospkg".
Definition gzipHeaderCanonical : bytes := [31; 139; 8; 0; 0; 0; 0; 0; 2; 255].

Record tarLimits := mkLimits {
  semanticMembers : Z;
  nonEndHeaders : Z;
  payloadBytes : Z;
  tarBytes : Z;
  compressedBytes : Z;
  firstFile : bytes;
  runtimeNames : bool;
}.

Definition bundleLimits : tarLimits :=
  mkLimits maxSemanticMembers maxNonEndHeaders maxRegularPayloadBytes maxTarBytes maxCompressedBytes [] false.

(** ** The gzip envelope *)

(** What [flate.NewReader] makes of a byte source: the bytes it delivers, and
    how it ends: at the end of the deflate stream with the unread rest of the
    source, for lack of input, or at an invalid code. *)
Inductive inflate_end := Ended (rest : bytes) | Truncated | Corrupt.
Class Inflate := {
  inflate : bytes → bytes * inflate_end;
  (** whether the reader has asked for input past the end of the source by the
      time it delivers the byte at the given offset *)
  reads_past : bytes → nat → bool;
}.

(** [crc32.Update] with the IEEE table, bit by bit. *)
Definition crc_bit (c : Z) : Z := if Z.odd c then Z.lxor (Z.shiftr c 1) 3988292384 else Z.shiftr c 1.
Definition crc_byte (c b : Z) : Z := Nat.iter 8 crc_bit (Z.lxor c b).
Definition crc32_Update (crc : Z) (p : bytes) : Z :=
  Z.lxor (foldl crc_byte (Z.lxor crc 4294967295) p) 4294967295.
Definition u32 (z : Z) : Z := z mod 4294967296.

(** [binary.LittleEndian.Uint32]. *)
Definition le32 (p : bytes) : Z := foldr (λ b acc, b + 256 * acc) 0 (take 4 p).

Record gzipStream := mkGzip {
  g_out : bytes;             (** what the decompressor has still to deliver *)
  g_end : inflate_end;       (** and how it ends *)
  g_more : bool;             (** the source holds bytes past the ceiling *)
  g_past : nat → bool;       (** [reads_past] of the source *)
  g_crc : Z;
  g_isize : Z;
  g_total : Z;
  g_limits : tarLimits;
}.

(** [cappedReader]: the bytes up to the ceiling, and whether there are more. *)
Definition capped (max : Z) (src : bytes) : bytes * bool :=
  if max <? Z.of_nat (length src) then (take (Z.to_nat max) src, true) else (src, false).

(** The reason of a failed read: over the ceiling when the decompressor asked
    for input past it. *)
Definition short_read (g : gzipStream) : Reason :=
  match g_end g with Truncated => if g_more g then ReasonCeilingExceeded else ReasonEnvelopeMalformed | _ => ReasonEnvelopeMalformed end.

Definition newGzipStreamWith `{Inflate} (src : bytes) (limits : tarLimits) : result Reason gzipStream :=
  let '(inp, more) := capped (compressedBytes limits) src in
  if (length inp <? 10)%nat then Err ReasonEnvelopeMalformed
  else if negb (beq (take 10 inp) gzipHeaderCanonical) then Err ReasonEnvelopeMalformed
  else let '(out, e) := inflate (drop 10 inp) in Ok (mkGzip out e more (reads_past (drop 10 inp)) 0 0 0 limits).

Definition newGzipStream `{Inflate} (src : bytes) : result Reason gzipStream := newGzipStreamWith src bundleLimits.

Definition readExact (g : gzipStream) (n : Z) : result Reason (bytes * gzipStream) :=
  if tarBytes (g_limits g) <? g_total g + n then Err ReasonCeilingExceeded
  else if (length (g_out g) <? Z.to_nat n)%nat then Err (short_read g)
  else
    let buf := take (Z.to_nat n) (g_out g) in
    Ok (buf, mkGzip (drop (Z.to_nat n) (g_out g)) (g_end g) (g_more g) (g_past g) (crc32_Update (g_crc g) buf) (u32 (g_isize g + n)) (g_total g + n) (g_limits g)).

Definition finish (g : gzipStream) : result Reason unit :=
  match g_out g, g_end g with
  | [], Ended rest =>
    if (length rest <? 8)%nat then Err ReasonEnvelopeMalformed
    else if negb (le32 rest =? g_crc g) then Err ReasonEnvelopeMalformed
    else if negb (le32 (drop 4 rest) =? g_isize g) then Err ReasonEnvelopeMalformed
    else if (8 <? length rest)%nat then Err ReasonEnvelopeMalformed
    else if g_more g then Err ReasonCeilingExceeded
    else Ok ()
  | [], _ => Err (short_read g)
  | _ :: _, _ => Err (if g_more g && g_past g (Z.to_nat (g_total g)) then ReasonCeilingExceeded else ReasonEnvelopeMalformed)
  end.

(** ** Header fields *)

(** The bytes of an array from [a] on, [n] of them. *)
Definition sub_at (a n : nat) (h : bytes) : bytes := take n (drop a h).

(** [copy(h[a:a+n], b)]. *)
Definition copy_at (h : bytes) (a n : nat) (b : bytes) : bytes :=
  let b := take n b in take a h ++ b ++ drop (a + length b) h.

Fixpoint until_nul (s : bytes) : bytes :=
  match s with [] => [] | c :: t => if c =? 0 then [] else c :: until_nul t end.

Definition tarFieldString (field : bytes) : bytes := until_nul field.

(** The loop of [tarParseOctal]. *)
Fixpoint octal_loop (field : bytes) (value : Z) (sawDigit : bool) : option Z :=
  match field with
  | [] => if sawDigit then Some value else None
  | c :: t =>
    if (c =? 0) || (c =? 32) then octal_loop t value sawDigit
    else if (c <? 48) || (55 <? c) then None
    else if 2 ^ 62 / 8 <? value then None
    else octal_loop t (value * 8 + (c - 48)) true
  end.

Definition tarParseOctal (field : bytes) : option Z :=
  match field with
  | [] => None
  | c :: _ => if negb (Z.land c 128 =? 0) then None else octal_loop field 0 false
  end.

Definition byte_sum (s : bytes) : Z := foldr Z.add 0 s.

(** [tarVerifyChecksum]: the sum with the checksum field read as blanks. *)
Definition tarVerifyChecksum (block : bytes) : bool :=
  match tarParseOctal (sub_at 148 8 block) with
  | None => false
  | Some expected => byte_sum (take 148 block) + 8 * 32 + byte_sum (drop 156 block) =? expected
  end.

(** [tarSplitPath]'s loop, from the last byte down to offset 1. *)
Fixpoint split_down (path : bytes) (split : nat) : option (bytes * bytes) :=
  match split with
  | O => None
  | S rest =>
    if bool_decide (path !! split = Some 47) && (split <=? 155)%nat && (0 <? length path - split - 1)%nat && (length path - split - 1 <=? 100)%nat
    then Some (drop (S split) path, take split path)
    else split_down path rest
  end.

Definition tarSplitPath (path : bytes) : option (bytes * bytes) :=
  if bool_decide (path = []) || (maxMemberPathBytes <? Z.of_nat (length path)) then None
  else if (length path <=? 100)%nat then Some (path, [])
  else split_down path (length path - 1).

Definition tarStoredPath (path : bytes) (typ : Z) : bytes := if typ =? tarTypeDirectory then path ++ [47] else path.

Definition tarPathFitsUSTAR (path : bytes) (typ : Z) : bool :=
  match tarSplitPath (tarStoredPath path typ) with Some _ => true | None => false end.

(** [strconv.FormatInt(value, 8)]. *)
Fixpoint octal_digits (fuel : nat) (v : Z) (acc : bytes) : bytes :=
  match fuel with
  | O => acc
  | S f => let acc := (48 + v mod 8) :: acc in if v / 8 =? 0 then acc else octal_digits f (v / 8) acc
  end.
Definition FormatOctal (v : Z) : bytes := if v <? 0 then 45 :: octal_digits 22 (- v) [] else octal_digits 22 v [].

(** [writeOctal] into a field of [n] bytes: what the field holds then. *)
Definition writeOctal (n : nat) (value : Z) : option bytes :=
  let s := FormatOctal value in
  if (n - 1 <? length s)%nat then None else Some (replicate (n - 1 - length s) 48 ++ s ++ [0]).

(** The header before its checksum: blanks stand in the checksum's field. *)
Definition header_base (name prefix mode size zero8 zero12 : bytes) (typ : Z) : bytes :=
  let h := copy_at (copy_at (replicate 512 0) 0 100 name) 345 155 prefix in
  let h := copy_at (copy_at (copy_at (copy_at h 100 8 mode) 124 12 size) 108 8 zero8) 116 8 zero8 in
  let h := copy_at (copy_at h 136 12 zero12) 148 8 (replicate 8 32) in
  copy_at (copy_at (copy_at h 156 1 [typ]) 257 6 (bs "ustar" ++ [0])) 263 2 (bs "00").

(** The checksum's field. *)
Definition checksum_field (chk : bytes) : bytes := replicate (6 - length chk) 48 ++ chk ++ [0; 32].

Definition buildTarHeader (storedPath : bytes) (size mode typ : Z) : option bytes :=
  '(name, prefix) ← tarSplitPath storedPath;
  m ← writeOctal 8 (Z.land mode 511);
  s ← writeOctal 12 size;
  u ← writeOctal 8 0;
  t ← writeOctal 12 0;
  let h := header_base name prefix m s u t typ in
  let chk := FormatOctal (byte_sum h) in
  if (6 <? length chk)%nat then None else Some (copy_at h 148 8 (checksum_field chk)).

(** ** Member paths *)

Definition asciiLower (b : Z) : Z := if between 65 90 b then b + 32 else b.

Fixpoint until_dot (s : bytes) : bytes :=
  match s with [] => [] | c :: t => if c =? 46 then [] else c :: until_dot t end.

Definition componentMatchesWindowsDeviceStem (component : bytes) : bool :=
  let lower := asciiLower <$> until_dot component in
  if existsb (beq lower) [bs "con"; bs "prn"; bs "aux"; bs "nul"] then true
  else (length lower =? 4)%nat && (beq (take 3 lower) (bs "com") || beq (take 3 lower) (bs "lpt")) &&
       match lower !! 3%nat with Some c => between 49 57 c | None => false end.

Definition admitted_byte (runtime : bool) (c : Z) : bool :=
  between 65 90 c || between 97 122 c || between 48 57 c || (c =? 46) || (c =? 95) || (c =? 43) || (c =? 45)
  || (runtime && ((c =? 32) || (c =? 40) || (c =? 41))).

Definition componentForbiddenUnder (component : bytes) (runtime : bool) : bool :=
  if bool_decide (component = []) || (maxComponentBytes <? Z.of_nat (length component)) then true
  else if beq component [46] || beq component [46; 46] then true
  else if bool_decide (last component = Some 46) || componentMatchesWindowsDeviceStem component then true
  else if runtime && (bool_decide (head component = Some 32) || bool_decide (last component = Some 32)) then true
  else negb (forallb (admitted_byte runtime) component).

Definition componentForbidden (component : bytes) : bool := componentForbiddenUnder component false.

(** [strings.TrimRight(s, "/")]. *)
Fixpoint drop_slashes (r : bytes) : bytes := match r with c :: t => if c =? 47 then drop_slashes t else r | [] => [] end.
Definition trim_slashes (s : bytes) : bytes := reverse (drop_slashes (reverse s)).

(** The path and the top level it leaves. *)
Definition normalizeMemberPathUnder (raw topLevel : bytes) (runtime : bool) : option (bytes * bytes) :=
  match raw with
  | [] => None
  | c :: _ =>
    if maxMemberPathBytes <? Z.of_nat (length raw) then None
    else if (c =? 47) || (c =? 92) then None
    else
      let normalized := trim_slashes raw in
      match split_slash normalized with
      | (first :: _) as components =>
        if beq normalized [] then None
        else if existsb (λ seg, componentForbiddenUnder seg runtime) components then None
        else if beq topLevel [] then Some (normalized, first)
        else if beq topLevel first then Some (normalized, topLevel)
        else None
      | [] => None
      end
  end.

Definition pathIsExactAncestor (ancestor path : bytes) : bool :=
  HasPrefix path ancestor && (length ancestor <? length path)%nat && bool_decide (path !! length ancestor = Some 47).

(** The loop of [pathsCasefoldSiblingCollision], component by component. *)
Fixpoint siblings_collide (ls rs : list bytes) : bool :=
  match ls, rs with
  | lc :: lt, rc :: rt =>
    if negb (length lc =? length rc)%nat then false
    else if negb (beq (asciiLower <$> lc) (asciiLower <$> rc)) then false
    else if negb (beq lc rc) then true
    else siblings_collide lt rt
  | _, _ => false
  end.

Definition pathsCasefoldSiblingCollision (left right : bytes) : bool := siblings_collide (split_slash left) (split_slash right).

(** ** The pax record *)

(** The loop that settles the number of digits of its own length. *)
Fixpoint settle_digits (fuel : nat) (len digits : Z) : option Z :=
  match fuel with
  | O => None
  | S f =>
    let total := len + 7 + digits in
    let nextDigits := Z.of_nat (length (FormatInt total)) in
    if nextDigits =? digits then Some total else settle_digits f len nextDigits
  end.

Definition paxBuildPathRecord (path : bytes) : option bytes :=
  if bool_decide (path = []) || (maxMemberPathBytes <? Z.of_nat (length path)) then None
  else
    total ← settle_digits 4 (Z.of_nat (length path)) 1;
    if maxPAXRecordBytes <? total then None
    else
      let record := FormatInt total ++ bs " path=" ++ path ++ [10] in
      if negb (Z.of_nat (length record) =? total) then None else Some record.

(** The loop over the length: what it declares and how many digits it took. *)
Fixpoint declared_length (record : bytes) (space : nat) (declared : Z) : option (Z * nat) :=
  match record with
  | [] => Some (declared, space)
  | b :: t =>
    if b =? 32 then Some (declared, space)
    else if (b <? 48) || (57 <? b) || ((space =? 0)%nat && (b =? 48)) then None
    else if 2 ^ 31 / 10 <? declared then None
    else declared_length t (S space) (declared * 10 + (b - 48))
  end.

Definition paxParsePathRecord (record : bytes) : option bytes :=
  '(declared, space) ← declared_length record 0 0;
  if (space =? 0)%nat || (length record <? space + 6 + 1)%nat || negb (declared =? Z.of_nat (length record))
     || negb (beq (sub_at space 6 record) (bs " path=")) || negb (bool_decide (last record = Some 10)) then None
  else
    let value := sub_at (space + 6) (length record - 1 - (space + 6)) record in
    if bool_decide (value = []) || (maxMemberPathBytes <? Z.of_nat (length value)) then None
    else
      expected ← paxBuildPathRecord value;
      if beq expected record then Some value else None.

(** ** The walk *)

Record tarMember := mkMember { m_path : bytes; m_size : Z; m_mode : Z; m_typ : Z; m_isDir : bool }.

Record tarWalker := mkWalker {
  w_gz : gzipStream;
  w_seen : list (bytes * bool);      (** the path and whether it is a directory *)
  w_topLevel : bytes;
  w_previous : bytes;
  w_pending : bytes;
  w_headers : Z;
  w_payload : Z;
  w_limits : tarLimits;
}.

Definition newTarWalkerWith (gz : gzipStream) (limits : tarLimits) : tarWalker := mkWalker gz [] [] [] [] 0 0 limits.
Definition newTarWalker (gz : gzipStream) : tarWalker := newTarWalkerWith gz bundleLimits.

Definition isZeroBlock (block : bytes) : bool := forallb (Z.eqb 0) block.

Definition tarModeIsCanonical (typ mode : Z) : bool :=
  if negb (Z.ldiff mode 511 =? 0) then false
  else if typ =? tarTypeDirectory then mode =? tarModeDir
  else if (typ =? tarTypeRegular) || (typ =? tarTypeRegularLegacy) then (mode =? tarModeRegular) || (mode =? tarModeExecutable)
  else false.

Definition padded_size (size : Z) : Z := ((size + tarBlockBytes - 1) / tarBlockBytes) * tarBlockBytes.

Definition consumePAXHeader (w : tarWalker) (block rawName : bytes) (size : Z) : result Reason tarWalker :=
  if negb (beq (w_pending w) []) || negb (beq rawName paxHeaderPath) then Err ReasonEnvelopeMalformed
  else if negb (bool_decide (buildTarHeader paxHeaderPath size tarModeRegular tarTypePAXLocal = Some block)) then Err ReasonEnvelopeMalformed
  else if size <=? 0 then Err ReasonEnvelopeMalformed
  else if maxPAXPaddedBytes <? padded_size size then Err ReasonCeilingExceeded
  else
    '(buf, gz) ← readExact (w_gz w) (padded_size size);
    if negb (isZeroBlock (drop (Z.to_nat size) buf)) then Err ReasonEnvelopeMalformed
    else
      path ← of_option ReasonEnvelopeMalformed (paxParsePathRecord (take (Z.to_nat size) buf));
      mret (mkWalker gz (w_seen w) (w_topLevel w) (w_previous w) path (w_headers w) (w_payload w) (w_limits w)).

(** The path of a member and the form it must be stored in, with the top level. *)
Definition resolve_path (w : tarWalker) (rawName : bytes) (typ : Z) : result Reason (bytes * bytes * bytes) :=
  if negb (beq (w_pending w) []) then
    if negb (beq rawName paxMemberPlaceholder) then Err ReasonEnvelopeMalformed
    else
      '(normalized, top) ← of_option ReasonEnvelopeMalformed (normalizeMemberPathUnder (w_pending w) (w_topLevel w) (runtimeNames (w_limits w)));
      if tarPathFitsUSTAR normalized typ then Err ReasonEnvelopeMalformed
      else mret (normalized, paxMemberPlaceholder, top)
  else
    '(normalized, top) ← of_option ReasonEnvelopeMalformed (normalizeMemberPathUnder rawName (w_topLevel w) (runtimeNames (w_limits w)));
    if negb (beq rawName (tarStoredPath normalized typ)) then Err ReasonEnvelopeMalformed
    else mret (normalized, rawName, top).

Definition resolveMember (w : tarWalker) (block rawName : bytes) (size mode typ : Z) : result Reason (tarMember * tarWalker) :=
  '(path, expectedStored, top) ← resolve_path w rawName typ;
  if negb (bool_decide (buildTarHeader expectedStored size mode typ = Some block)) then Err ReasonEnvelopeMalformed
  else mret (mkMember path size mode typ (typ =? tarTypeDirectory),
             mkWalker (w_gz w) (w_seen w) top (w_previous w) [] (w_headers w) (w_payload w) (w_limits w)).

(** The offset of the last slash: the parent's path. *)
Fixpoint parent_of (path : bytes) : option bytes :=
  match path with
  | [] => None
  | c :: t => match parent_of t with Some p => Some (c :: p) | None => if c =? 47 then Some [] else None end
  end.

Definition parentExists (w : tarWalker) (path : bytes) : bool :=
  match parent_of path with
  | None => bool_decide (w_seen w = [])
  | Some parent => existsb (λ e, e.2 && beq e.1 parent) (w_seen w)
  end.

(** The loop over the members seen: the first conflict. *)
Fixpoint conflict (seen : list (bytes * bool)) (m : tarMember) : option Reason :=
  match seen with
  | [] => None
  | e :: rest =>
    if beq e.1 (m_path m) || pathsCasefoldSiblingCollision e.1 (m_path m) then Some ReasonMemberOrder
    else if (negb e.2 && pathIsExactAncestor e.1 (m_path m)) || (negb (m_isDir m) && pathIsExactAncestor (m_path m) e.1) then Some ReasonEnvelopeMalformed
    else conflict rest m
  end.

(** The one file that may stand out of order, after the top-level directory. *)
Definition leading (w : tarWalker) (m : tarMember) : bool :=
  negb (beq (firstFile (w_limits w)) []) && negb (m_isDir m) &&
  match w_seen w with [e] => beq (m_path m) (e.1 ++ [47] ++ firstFile (w_limits w)) | _ => false end.

Definition admitMember (w : tarWalker) (m : tarMember) : result Reason tarWalker :=
  if semanticMembers (w_limits w) <=? Z.of_nat (length (w_seen w)) then Err ReasonCeilingExceeded
  else match conflict (w_seen w) m with
  | Some e => Err e
  | None =>
    if negb (parentExists w (m_path m)) then Err ReasonEnvelopeMalformed
    else if negb (leading w m) && negb (beq (w_previous w) []) && bytes_leb (m_path m) (w_previous w) then Err ReasonMemberOrder
    else if negb (m_isDir m) && negb (existsb (Z.eqb 47) (m_path m)) then Err ReasonEnvelopeMalformed
    else if negb (m_isDir m) && (payloadBytes (w_limits w) - w_payload w <? m_size m) then Err ReasonCeilingExceeded
    else Ok (mkWalker (w_gz w) (w_seen w ++ [(m_path m, m_isDir m)]) (w_topLevel w) (if leading w m then w_previous w else m_path m)
               (w_pending w) (w_headers w) (if m_isDir m then w_payload w else w_payload w + m_size m) (w_limits w))
  end.

Definition set_gz (w : tarWalker) (gz : gzipStream) : tarWalker :=
  mkWalker gz (w_seen w) (w_topLevel w) (w_previous w) (w_pending w) (w_headers w) (w_payload w) (w_limits w).
Definition count_header (w : tarWalker) : tarWalker :=
  mkWalker (w_gz w) (w_seen w) (w_topLevel w) (w_previous w) (w_pending w) (w_headers w + 1) (w_payload w) (w_limits w).

(** The name a header stores. *)
Definition raw_name (block : bytes) : bytes :=
  let prefix := tarFieldString (sub_at 345 155 block) in
  let name := tarFieldString (sub_at 0 100 block) in
  if beq prefix [] then name else prefix ++ [47] ++ name.

(** [next]: a member, or the end.  One pass reads one header; only a pax header
    makes a second one, and none a third. *)
Fixpoint next_pass (fuel : nat) (w : tarWalker) : result Reason (option tarMember * tarWalker) :=
  match fuel with
  | O => Err ReasonEnvelopeMalformed
  | S f =>
    '(block, gz) ← readExact (w_gz w) tarBlockBytes;
    let w := set_gz w gz in
    if isZeroBlock block then
      if negb (beq (w_pending w) []) then Err ReasonEnvelopeMalformed
      else
        '(second, gz) ← readExact (w_gz w) tarBlockBytes;
        if negb (isZeroBlock second) then Err ReasonEnvelopeMalformed
        else if beq (w_topLevel w) [] then Err ReasonEnvelopeMalformed
        else mret (None, set_gz w gz)
    else if negb (tarVerifyChecksum block) then Err ReasonEnvelopeMalformed
    else
      let w := count_header w in
      if nonEndHeaders (w_limits w) <? w_headers w then Err ReasonCeilingExceeded
      else
        let rawName := raw_name block in
        if beq rawName [] then Err ReasonEnvelopeMalformed
        else
          size ← of_option ReasonEnvelopeMalformed (tarParseOctal (sub_at 124 12 block));
          mode ← of_option ReasonEnvelopeMalformed (tarParseOctal (sub_at 100 8 block));
          let typ := nth 156 block 0 in
          if typ =? tarTypePAXLocal then w ← consumePAXHeader w block rawName size; next_pass f w
          else if negb (tarModeIsCanonical typ mode) || (typ =? tarTypeRegularLegacy) then Err ReasonEnvelopeMalformed
          else if (typ =? tarTypeDirectory) && negb (size =? 0) then Err ReasonEnvelopeMalformed
          else
            '(m, w) ← resolveMember w block rawName size mode typ;
            w ← admitMember w m;
            mret (Some m, w)
  end.

Definition next (w : tarWalker) : result Reason (option tarMember * tarWalker) := next_pass 3 w.

(** [readPayload]: what it hands to its sink.  The chunks of 8192 bytes. *)
Fixpoint read_chunks (fuel : nat) (gz : gzipStream) (remaining : Z) (acc : bytes) : result Reason (bytes * gzipStream) :=
  match fuel with
  | O => Err ReasonEnvelopeMalformed
  | S f =>
    if remaining <=? 0 then Ok (acc, gz)
    else
      let n := Z.min 8192 remaining in
      '(buf, gz) ← readExact gz n;
      read_chunks f gz (remaining - n) (acc ++ buf)
  end.

Definition readPayload (w : tarWalker) (m : tarMember) : result Reason (bytes * tarWalker) :=
  '(data, gz) ← read_chunks (Z.to_nat (m_size m / 8192) + 2) (w_gz w) (m_size m) [];
  let pad := m_size m mod tarBlockBytes in
  if pad =? 0 then mret (data, set_gz w gz)
  else
    '(padding, gz) ← readExact gz (tarBlockBytes - pad);
    if negb (isZeroBlock padding) then Err ReasonEnvelopeMalformed else mret (data, set_gz w gz).

(** ** Writing (treewriter.go) *)

Definition zero_pad (size : Z) : bytes :=
  if size mod tarBlockBytes =? 0 then [] else replicate (Z.to_nat (tarBlockBytes - size mod tarBlockBytes)) 0.

(** [writeTarMemberHeader]: what it writes. *)
Definition writeTarMemberHeader (path : bytes) (size mode typ : Z) : option bytes :=
  if tarPathFitsUSTAR path typ then buildTarHeader (tarStoredPath path typ) size mode typ
  else
    record ← paxBuildPathRecord path;
    paxHdr ← buildTarHeader paxHeaderPath (Z.of_nat (length record)) tarModeRegular tarTypePAXLocal;
    hdr ← buildTarHeader paxMemberPlaceholder size mode typ;
    Some (paxHdr ++ record ++ zero_pad (Z.of_nat (length record)) ++ hdr).
