(* ===== verification/TarFacts.v ===== *)
(** * What an accepted archive is

    The walk accepts exactly one encoding of each sequence of members: what
    [writeTarMemberHeader] writes, with zero padding. *)

From S2P Require Import Prelude Utf8 GoJson CanonicalJson CanonicalJsonFacts Container Sections Tar.

(** ** The whole walk *)

(** A member with its payload. *)
Abbreviation entry := (tarMember * bytes)%type.

(** Every member read to its end. *)
Fixpoint walk_members (fuel : nat) (w : tarWalker) : result Reason (list entry * tarWalker) :=
  match fuel with
  | O => Err ReasonEnvelopeMalformed
  | S f =>
    '(om, w) ← next w;
    match om with
    | None => mret ([], w)
    | Some m =>
      '(data, w) ← (if m_isDir m then mret ([], w) else readPayload w m);
      '(es, w) ← walk_members f w;
      mret ((m, data) :: es, w)
    end
  end.

(** The bytes of a member in the stream. *)
Definition entry_text (e : entry) : option bytes :=
  h ← writeTarMemberHeader (m_path e.1) (m_size e.1) (m_mode e.1) (m_typ e.1);
  Some (h ++ e.2 ++ zero_pad (m_size e.1)).

Fixpoint archive_text (es : list entry) : option bytes :=
  match es with
  | [] => Some (replicate 1024 0)
  | e :: rest => t ← entry_text e; ts ← archive_text rest; Some (t ++ ts)
  end.

(** ** Reading *)

Lemma readExact_ok g n buf g' : 0 ≤ n → readExact g n = Ok (buf, g') →
  g_out g = buf ++ g_out g' ∧ Z.of_nat (length buf) = n ∧ g_limits g' = g_limits g ∧ g_end g' = g_end g ∧ g_more g' = g_more g
  ∧ g_total g' = g_total g + n ∧ g_total g' ≤ tarBytes (g_limits g) ∧ g_crc g' = crc32_Update (g_crc g) buf.
Proof.
  intros Hn. unfold readExact. destruct (Z.ltb_spec (tarBytes (g_limits g)) (g_total g + n)); [done|].
  destruct (Nat.ltb_spec (length (g_out g)) (Z.to_nat n)); [done|]. intros [= <- <-]. cbn.
  rewrite take_drop, length_take. repeat split; try done; lia.
Qed.

Lemma zero_block s : isZeroBlock s = true → s = replicate (length s) 0.
Proof. induction s as [|c s IH]; [done|]. intros [H1 H2]%andb_true_iff. b2p. subst c. cbn. f_equal. by apply IH. Qed.

Lemma zero_block_length s n : isZeroBlock s = true → Z.of_nat (length s) = n → s = replicate (Z.to_nat n) 0.
Proof. intros H <-. rewrite Nat2Z.id. by apply zero_block. Qed.

Lemma read_chunks_ok fuel : ∀ g n acc data g', 0 ≤ n → read_chunks fuel g n acc = Ok (data, g') →
  ∃ d, data = acc ++ d ∧ Z.of_nat (length d) = n ∧ g_out g = d ++ g_out g'.
Proof.
  induction fuel as [|f IH]; intros g n acc data g' Hn; cbn [read_chunks]; [done|].
  destruct (Z.leb_spec n 0).
  - intros [= <- <-]. exists []. rewrite app_nil_r. split; [done|]. cbn. split; [lia|done].
  - intros H0. apply bind_ok in H0 as ([buf g1] & (Ho & Hl & _)%readExact_ok & H0); [|lia].
    apply IH in H0 as (d & -> & Hd & Ho'); [|lia]. exists (buf ++ d). rewrite Ho, Ho', <- !app_assoc, length_app. split; [done|]. split; [lia|done].
Qed.

Lemma readPayload_ok w m data w' : 0 ≤ m_size m → readPayload w m = Ok (data, w') →
  Z.of_nat (length data) = m_size m ∧ g_out (w_gz w) = data ++ zero_pad (m_size m) ++ g_out (w_gz w') ∧ w' = set_gz w (w_gz w').
Proof.
  intros Hs. unfold readPayload. intros H. apply bind_ok in H as ([d gz] & Hd & H).
  apply read_chunks_ok in Hd as (d' & -> & Hl & Ho); [|done]. cbn [app] in H. unfold zero_pad.
  destruct (Z.eqb_spec (m_size m mod tarBlockBytes) 0).
  - injection H as <- <-. done.
  - apply bind_ok in H as ([padding gz'] & Hp & H). destruct (isZeroBlock padding) eqn:Ez; [|done]. injection H as <- <-.
    apply readExact_ok in Hp as (Ho' & Hl' & _); [|unfold tarBlockBytes; zlia]. split; [done|]. split; [|done].
    rewrite Ho, Ho'. cbn. by rewrite <- (zero_block_length _ _ Ez Hl').
Qed.

(** ** One pass *)

Lemma padded_pad size : 0 < size → Z.to_nat (padded_size size) = (Z.to_nat size + length (zero_pad size))%nat.
Proof.
  intros Hs. unfold padded_size, zero_pad, tarBlockBytes. destruct (Z.eqb_spec (size mod 512) 0); cbn [length]; rewrite ?length_replicate; zlia.
Qed.

Lemma zero_pad_of size s : isZeroBlock s = true → length s = length (zero_pad size) → s = zero_pad size.
Proof.
  intros Hz Hl. rewrite (zero_block s Hz), Hl. unfold zero_pad. destruct (_ =? 0); cbn [length replicate]; [done|]. by rewrite length_replicate.
Qed.

Lemma paxParse_build record path : paxParsePathRecord record = Some path → paxBuildPathRecord path = Some record ∧ path ≠ [].
Proof.
  unfold paxParsePathRecord. destruct (declared_length record 0 0) as [[declared space]|]; [|done]. cbn [mbind option_bind].
  destruct (_ || _); [done|]. set (value := sub_at _ _ _). destruct (bool_decide (value = [])) eqn:Ev; [done|]. cbn [orb].
  destruct (_ <? _); [done|]. destruct (paxBuildPathRecord value) as [expected|] eqn:E; [|done]. cbn [mbind option_bind].
  destruct (beq expected record) eqn:Eb; [|done]. b2p. intros [= <-]. subst. apply bool_decide_eq_false in Ev. done.
Qed.

Lemma consumePAX_ok w block raw size w' : consumePAXHeader w block raw size = Ok w' →
  w_pending w = [] ∧ w_pending w' ≠ [] ∧ ∃ record,
    paxBuildPathRecord (w_pending w') = Some record ∧ size = Z.of_nat (length record) ∧
    buildTarHeader paxHeaderPath (Z.of_nat (length record)) tarModeRegular tarTypePAXLocal = Some block ∧
    g_out (w_gz w) = record ++ zero_pad (Z.of_nat (length record)) ++ g_out (w_gz w') ∧
    w_limits w' = w_limits w ∧ w_seen w' = w_seen w ∧ w_topLevel w' = w_topLevel w ∧ w_previous w' = w_previous w ∧ w_payload w' = w_payload w.
Proof.
  unfold consumePAXHeader. destruct (beq (w_pending w) []) eqn:Ep; [|done]. cbn [negb orb]. destruct (beq raw _) eqn:Er; [|done]. b2p. cbn [negb].
  case_bool_decide as Hb; [|done]. cbn [negb]. destruct (Z.leb_spec size 0); [done|]. destruct (_ <? _); [done|].
  intros H0. apply bind_ok in H0 as ([buf gz] & (Ho & Hl & _)%readExact_ok & H0); [|unfold padded_size, tarBlockBytes; zlia].
  destruct (isZeroBlock _) eqn:Ez; [|done]. cbn [negb] in H0. apply bind_ok in H0 as (path & Hp & [= <-]). apply of_option_ok in Hp.
  apply paxParse_build in Hp as [Hp Hne].
  assert (length buf = (Z.to_nat size + length (zero_pad size))%nat) as Hlb by (rewrite <- padded_pad by done; lia).
  assert (size = Z.of_nat (length (take (Z.to_nat size) buf))) as Hsz by (rewrite length_take; lia).
  split; [done|]. split; [done|]. exists (take (Z.to_nat size) buf). rewrite <- Hsz. split; [done|]. split; [done|]. split; [done|]. split; [|done].
  rewrite Ho, <- (zero_pad_of size (drop (Z.to_nat size) buf) Ez) by (rewrite length_drop; lia). by rewrite app_assoc, take_drop.
Qed.

Lemma resolveMember_ok w block raw size mode typ m w' : resolveMember w block raw size mode typ = Ok (m, w') →
  m = mkMember (m_path m) size mode typ (typ =? tarTypeDirectory) ∧
  (if beq (w_pending w) [] then tarPathFitsUSTAR (m_path m) typ = true ∧ buildTarHeader (tarStoredPath (m_path m) typ) size mode typ = Some block
   else tarPathFitsUSTAR (m_path m) typ = false ∧ buildTarHeader paxMemberPlaceholder size mode typ = Some block) ∧
  normalizeMemberPathUnder (if beq (w_pending w) [] then raw else w_pending w) (w_topLevel w) (runtimeNames (w_limits w)) = Some (m_path m, w_topLevel w') ∧
  w' = mkWalker (w_gz w) (w_seen w) (w_topLevel w') (w_previous w) [] (w_headers w) (w_payload w) (w_limits w).
Proof.
  unfold resolveMember. intros H. apply bind_ok in H as ([[path stored] top] & Hr & H). case_bool_decide as Hb; [|done]. injection H as <- <-. cbn.
  unfold resolve_path in Hr. destruct (beq (w_pending w) []) eqn:Ep; cbn [negb] in Hr.
  - apply bind_ok in Hr as ([p t] & Hn%of_option_ok & Hr). destruct (beq raw _) eqn:Er; [|done]. injection Hr as <- <- <-. b2p.
    split; [done|]. split; [|by rewrite Hn]. rewrite <- Er. split; [|done]. unfold tarPathFitsUSTAR. rewrite <- Er.
    unfold buildTarHeader in Hb. by destruct (tarSplitPath raw).
  - destruct (beq raw _); [|done]. cbn [negb] in Hr. apply bind_ok in Hr as ([p t] & Hn%of_option_ok & Hr). destruct (tarPathFitsUSTAR p typ) eqn:Ef; [done|].
    injection Hr as <- <- <-. split; [done|]. split; [done|]. by rewrite Hn.
Qed.

(** What an admitted member satisfies. *)
Record admitted (w : tarWalker) (m : tarMember) : Prop := {
  ad_room : Z.of_nat (length (w_seen w)) < semanticMembers (w_limits w);
  ad_conflict : conflict (w_seen w) m = None;
  ad_parent : parentExists w (m_path m) = true;
  ad_order : leading w m = true ∨ w_previous w = [] ∨ bytes_leb (m_path m) (w_previous w) = false;
  ad_nested : m_isDir m = true ∨ existsb (Z.eqb 47) (m_path m) = true;
  ad_payload : m_isDir m = true ∨ w_payload w + m_size m ≤ payloadBytes (w_limits w);
}.

Lemma admitMember_ok w m w' : admitMember w m = Ok w' ↔ admitted w m ∧
  w' = mkWalker (w_gz w) (w_seen w ++ [(m_path m, m_isDir m)]) (w_topLevel w) (if leading w m then w_previous w else m_path m)
         (w_pending w) (w_headers w) (if m_isDir m then w_payload w else w_payload w + m_size m) (w_limits w).
Proof.
  unfold admitMember. destruct (Z.leb_spec (semanticMembers (w_limits w)) (Z.of_nat (length (w_seen w)))); [split; [done|intros [[] _]; lia]|].
  destruct (conflict (w_seen w) m) eqn:Ec; [split; [done|intros [[] _]; congruence]|].
  destruct (parentExists w (m_path m)) eqn:Ep; cbn [negb]; [|split; [done|intros [[] _]; congruence]].
  destruct (negb (leading w m) && _ && _) eqn:Eo.
  { split; [done|]. intros [[? ? ? Ho ? ?] _]. b2p. destruct Ho as [?|[?|?]]; congruence. }
  destruct (negb (m_isDir m) && negb (existsb (Z.eqb 47) (m_path m))) eqn:En.
  { split; [done|]. intros [[? ? ? ? Hn ?] _]. b2p. destruct Hn; congruence. }
  destruct (negb (m_isDir m) && (payloadBytes (w_limits w) - w_payload w <? m_size m)) eqn:Ey.
  { split; [done|]. intros [[? ? ? ? ? Hn] _]. b2p. destruct Hn; [congruence|lia]. }
  split; [|intros [_ ->]; reflexivity]. intros [= <-]. split; [|reflexivity]. split; try assumption.
  - destruct (leading w m); [by left|]. right. cbn [negb andb] in Eo. destruct (beq (w_previous w) []) eqn:E; [b2p; by left|]. by right.
  - destruct (m_isDir m); [by left|]. right. cbn in En. by apply negb_false_iff in En.
  - destruct (m_isDir m); [by left|]. right. cbn in Ey. b2p. lia.
Qed.

Lemma trim_slashes_app raw : ∃ k, raw = trim_slashes raw ++ replicate k 47.
Proof.
  unfold trim_slashes. assert (∀ r, ∃ k, r = replicate k 47 ++ drop_slashes r) as H.
  { induction r as [|c r [k IH]]; [by exists 0%nat|]. cbn. destruct (Z.eqb_spec c 47) as [->|]; [|by exists 0%nat].
    exists (S k). cbn. by f_equal. }
  destruct (H (reverse raw)) as [k Hk]. exists k. rewrite <- (reverse_involutive raw) at 1. rewrite Hk at 1.
  by rewrite reverse_app, reverse_replicate.
Qed.

Lemma normalize_inv raw top rt path top' : normalizeMemberPathUnder raw top rt = Some (path, top') →
  path = trim_slashes raw ∧ path ≠ [] ∧ Forall (λ seg, componentForbiddenUnder seg rt = false) (split_slash path) ∧
  head (split_slash path) = Some top' ∧ (top = [] ∨ top = top') ∧ Z.of_nat (length raw) ≤ maxMemberPathBytes.
Proof.
  unfold normalizeMemberPathUnder. destruct raw as [|c raw]; [done|]. set (r := c :: raw).
  destruct (Z.ltb_spec maxMemberPathBytes (Z.of_nat (length r))); [done|]. destruct (_ || _); [done|].
  destruct (split_slash (trim_slashes r)) as [|first rest] eqn:Es; [done|]. destruct (beq (trim_slashes r) []) eqn:En; [done|]. b2p.
  destruct (existsb (λ seg, componentForbiddenUnder seg rt) (first :: rest)) eqn:Ex; [done|]. intros H0.
  assert (Forall (λ seg, componentForbiddenUnder seg rt = false) (first :: rest)) as Hf.
  { apply Forall_forall. intros seg Hs. destruct (componentForbiddenUnder seg rt) eqn:E; [|done].
    rewrite <- not_true_iff_false, existsb_exists in Ex. destruct Ex. exists seg. split; [by apply list_elem_of_In|exact E]. }
  destruct (beq top []) eqn:Et; b2p.
  - injection H0 as <- <-. rewrite Es. split; [done|]. split; [done|]. split; [done|]. split; [done|]. split; [by left|done].
  - destruct (beq top first) eqn:Ef; [|done]. injection H0 as <- <-. b2p. subst top. rewrite Es. split; [done|]. split; [done|]. split; [done|]. split; [done|]. split; [by right|done].
Qed.

(** ** The form of a member in an accepted stream

    [stored] is the path as the stream has it: in a pax record it may end in
    slashes that the member's path has not. *)
Definition member_header (stored path : bytes) (size mode typ : Z) : option bytes :=
  if tarPathFitsUSTAR path typ then buildTarHeader (tarStoredPath path typ) size mode typ
  else
    record ← paxBuildPathRecord stored;
    paxHdr ← buildTarHeader paxHeaderPath (Z.of_nat (length record)) tarModeRegular tarTypePAXLocal;
    hdr ← buildTarHeader paxMemberPlaceholder size mode typ;
    Some (paxHdr ++ record ++ zero_pad (Z.of_nat (length record)) ++ hdr).

Lemma member_header_canonical path size mode typ : member_header path path size mode typ = writeTarMemberHeader path size mode typ.
Proof. done. Qed.

(** One pass that ends in a member, from a state with no pax header waiting, and
    with one. *)
Definition pass_form (w : tarWalker) (m : tarMember) (t : bytes) : Prop :=
  if beq (w_pending w) [] then ∃ k, member_header (m_path m ++ replicate k 47) (m_path m) (m_size m) (m_mode m) (m_typ m) = Some t
  else tarPathFitsUSTAR (m_path m) (m_typ m) = false ∧ (∃ k, w_pending w = m_path m ++ replicate k 47) ∧
       buildTarHeader paxMemberPlaceholder (m_size m) (m_mode m) (m_typ m) = Some t.

(** What the walk has checked of a member it delivers. *)
Record delivered_ok (w : tarWalker) (m : tarMember) (w' : tarWalker) : Prop := {
  dl_dir : m_isDir m = (m_typ m =? tarTypeDirectory);
  dl_mode : tarModeIsCanonical (m_typ m) (m_mode m) = true ∧ m_typ m ≠ tarTypeRegularLegacy;
  dl_size : 0 ≤ m_size m ∧ (m_isDir m = true → m_size m = 0);
  dl_path : Forall (λ seg, componentForbiddenUnder seg (runtimeNames (w_limits w)) = false) (split_slash (m_path m)) ∧ m_path m ≠ [];
  dl_top : head (split_slash (m_path m)) = Some (w_topLevel w') ∧ (w_topLevel w = [] ∨ w_topLevel w = w_topLevel w');
  dl_admitted : admitted w m;
  dl_seen : w_seen w' = w_seen w ++ [(m_path m, m_isDir m)];
  dl_previous : w_previous w' = if leading w m then w_previous w else m_path m;
  dl_payload : w_payload w' = if m_isDir m then w_payload w else w_payload w + m_size m;
  dl_limits : w_limits w' = w_limits w;
  dl_pending : w_pending w' = [];
  dl_length : Z.of_nat (length (m_path m)) ≤ maxMemberPathBytes;
}.

Lemma octal_loop_nonneg field : ∀ v saw z, 0 ≤ v → octal_loop field v saw = Some z → 0 ≤ z.
Proof.
  induction field as [|c t IH]; intros v saw z Hv; cbn [octal_loop]; [destruct saw; [congruence|done]|].
  destruct ((c =? 0) || (c =? 32)); [by apply IH|]. destruct ((c <? 48) || (55 <? c)) eqn:E; [done|]. destruct (2 ^ 62 / 8 <? v); [done|].
  apply orb_false_iff in E as [E1 E2]. b2p. apply IH. lia.
Qed.

Lemma tarParseOctal_nonneg field z : tarParseOctal field = Some z → 0 ≤ z.
Proof. unfold tarParseOctal. destruct field; [done|]. destruct (negb _); [done|]. by apply octal_loop_nonneg. Qed.

(** The walk looks at these parts of its state only. *)
Definition same_walk (w w1 : tarWalker) : Prop :=
  w_limits w1 = w_limits w ∧ w_seen w1 = w_seen w ∧ w_topLevel w1 = w_topLevel w ∧ w_previous w1 = w_previous w ∧ w_payload w1 = w_payload w.

Lemma delivered_same w w1 m w' : same_walk w w1 → delivered_ok w1 m w' → delivered_ok w m w'.
Proof.
  intros (E1 & E2 & E3 & E4 & E5) [H1 H2 H3 H4 H5 [A1 A2 A3 A4 A5 A6] H7 H8 H9 H10 H11 H12].
  unfold parentExists in A3. unfold leading in *. rewrite ?E1, ?E2, ?E3, ?E4, ?E5 in *.
  split; try assumption. split; assumption.
Qed.

Lemma next_pass_ok fuel : ∀ w m w', next_pass fuel w = Ok (Some m, w') →
  ∃ t, g_out (w_gz w) = t ++ g_out (w_gz w') ∧ pass_form w m t ∧ delivered_ok w m w'.
Proof.
  induction fuel as [|f IH]; intros w m w'; cbn [next_pass]; [done|]. intros H0.
  apply bind_ok in H0 as ([block gz] & (Ho & _)%readExact_ok & H0); [|done]. destruct (isZeroBlock block).
  { destruct (negb _); [done|]. apply bind_ok in H0 as ([second gz2] & _ & H0). destruct (negb _); [done|]. by destruct (beq _ _). }
  destruct (negb (tarVerifyChecksum block)); [done|]. destruct (nonEndHeaders _ <? _); [done|]. destruct (beq (raw_name block) []); [done|].
  apply bind_ok in H0 as (size & Hsz%of_option_ok & H0). apply bind_ok in H0 as (mode & Hmode%of_option_ok & H0).
  set (typ := nth 156 block 0) in *. destruct (typ =? tarTypePAXLocal).
  - apply bind_ok in H0 as (w1 & Hp & H0). apply consumePAX_ok in Hp as (Hp & Hne & record & Hrec & -> & Hhdr & Ho1 & Hsame).
    apply IH in H0 as (t & Ho2 & Hform & Hdel). cbn [w_gz count_header set_gz w_pending] in *. unfold pass_form in *.
    rewrite Hp. rewrite (proj2 (beq_false _ _) Hne) in Hform. destruct Hform as (Hfit & [k Hk] & Hbuild).
    exists (block ++ record ++ zero_pad (Z.of_nat (length record)) ++ t). split; [by rewrite Ho, Ho1, Ho2, <- !app_assoc|].
    split; [|by eapply delivered_same; [exact Hsame|]]. exists k. unfold member_header. rewrite Hfit, <- Hk, Hrec. cbn [mbind option_bind].
    by rewrite Hhdr, Hbuild.
  - destruct (negb (tarModeIsCanonical typ mode) || (typ =? tarTypeRegularLegacy)) eqn:Em; [done|].
    destruct ((typ =? tarTypeDirectory) && negb (size =? 0)) eqn:Ed; [done|].
    apply bind_ok in H0 as ([m' w1] & Hr & H0). apply bind_ok in H0 as (w2 & Ha & [= -> ->]).
    apply resolveMember_ok in Hr as (Hm & Hform & Hnorm & Hw1). apply admitMember_ok in Ha as [Hadm ->].
    rewrite Hw1 in *. cbn [w_gz count_header set_gz w_pending w_seen w_topLevel w_limits w_previous w_payload w_headers] in *.
    apply normalize_inv in Hnorm as (Hpath & Hne & Hcomp & Htop & Hprev & Hlen).
    exists block. split; [done|]. apply tarParseOctal_nonneg in Hsz. rewrite Hm in *. cbn [m_path m_size m_mode m_typ m_isDir] in *.
    split.
    + unfold pass_form. cbn [m_path m_size m_mode m_typ]. destruct (beq (w_pending w) []) eqn:Ep.
      * destruct Hform as [Hf Hb]. exists 0%nat. unfold member_header. by rewrite Hf.
      * destruct Hform as [Hf Hb]. split; [done|]. split; [|done]. rewrite Hpath. apply trim_slashes_app.
    + apply orb_false_iff in Em as [Em1 Em2]. b2p. split; cbn [m_path m_size m_mode m_typ m_isDir w_limits w_topLevel w_seen w_previous w_payload w_pending]; try done.
      * split; [done|]. intros E. rewrite E in Ed. cbn in Ed. by b2p.
      * destruct Hadm. by split.
      * rewrite Hpath. etransitivity; [|exact Hlen]. destruct (trim_slashes_app (if beq (w_pending w) [] then raw_name block else w_pending w)) as [k Hk].
        rewrite Hk at 2. rewrite length_app. lia.
Qed.

Lemma next_ok w m w' : w_pending w = [] → next w = Ok (Some m, w') →
  ∃ t k, g_out (w_gz w) = t ++ g_out (w_gz w') ∧ delivered_ok w m w' ∧
    member_header (m_path m ++ replicate k 47) (m_path m) (m_size m) (m_mode m) (m_typ m) = Some t.
Proof.
  intros Hp (t & Ho & Hf & Hd)%next_pass_ok. unfold pass_form in Hf. rewrite Hp in Hf. cbn in Hf. destruct Hf as [k Hk]. by exists t, k.
Qed.

Lemma next_pass_end fuel : ∀ w w', next_pass fuel w = Ok (None, w') →
  w_pending w = [] ∧ g_out (w_gz w) = replicate 1024 0 ++ g_out (w_gz w') ∧ w_topLevel w ≠ [].
Proof.
  induction fuel as [|f IH]; intros w w'; cbn [next_pass]; [done|]. intros H0.
  apply bind_ok in H0 as ([block gz] & (Ho & Hl & _)%readExact_ok & H0); [|done]. destruct (isZeroBlock block) eqn:Ez.
  - destruct (beq _ []) eqn:Ep in H0; [|done]. cbn [negb] in H0. b2p. cbn [w_pending set_gz] in Ep.
    apply bind_ok in H0 as ([second gz2] & (Ho2 & Hl2 & _)%readExact_ok & H0); [|done]. destruct (isZeroBlock second) eqn:Ez2; [|done]. cbn [negb] in H0.
    destruct (beq (w_topLevel _) []) eqn:Et; [done|]. injection H0 as <-. b2p. cbn [w_gz set_gz w_topLevel] in *. split; [done|]. split; [|done].
    rewrite Ho, Ho2, (zero_block_length _ _ Ez Hl), (zero_block_length _ _ Ez2 Hl2). rewrite app_assoc, <- replicate_add. done.
  - destruct (negb (tarVerifyChecksum block)); [done|]. destruct (nonEndHeaders _ <? _); [done|]. destruct (beq (raw_name block) []); [done|].
    apply bind_ok in H0 as (size & _ & H0). apply bind_ok in H0 as (mode & _ & H0).
    destruct (_ =? tarTypePAXLocal); [apply bind_ok in H0 as (w1 & (_ & Hne & _)%consumePAX_ok & (E & _)%IH); done|].
    destruct (negb _ || _); [done|]. destruct (_ && _); [done|]. apply bind_ok in H0 as ([m w1] & _ & H0). by apply bind_ok in H0 as (w2 & _ & [=]).
Qed.

(** ** Admissible trees *)

Definition entry_path (e : entry) : bytes := m_path e.1.
Definition entry_isDir (e : entry) : bool := m_isDir e.1.
Definition entry_size (e : entry) : Z := if entry_isDir e then 0 else m_size e.1.

(** Two members that cannot stand in one tree. *)
Definition clash (p e : entry) : Prop :=
  entry_path p = entry_path e ∨ pathsCasefoldSiblingCollision (entry_path p) (entry_path e) = true ∨
  (entry_isDir p = false ∧ pathIsExactAncestor (entry_path p) (entry_path e) = true) ∨
  (entry_isDir e = false ∧ pathIsExactAncestor (entry_path e) (entry_path p) = true).

(** The file that may stand out of order, right after the root. *)
Definition stands_first (lim : tarLimits) (pre : list entry) (e : entry) : bool :=
  negb (beq (firstFile lim) []) && negb (entry_isDir e) &&
  match pre with [r] => beq (entry_path e) (entry_path r ++ [47] ++ firstFile lim) | _ => false end.

(** The member the next one is ordered after. *)
Fixpoint previous_of (lim : tarLimits) (pre es : list entry) (last : bytes) : bytes :=
  match es with
  | [] => last
  | e :: rest => previous_of lim (pre ++ [e]) rest (if stands_first lim pre e then last else entry_path e)
  end.

Definition total_size (es : list entry) : Z := foldr (λ e acc, entry_size e + acc) 0 es.

(** [e] may follow [pre]. *)
Record entry_ok (lim : tarLimits) (pre : list entry) (e : entry) : Prop := {
  eo_room : Z.of_nat (length pre) < semanticMembers lim;
  eo_kind : (entry_isDir e = true ∧ m_typ e.1 = tarTypeDirectory ∧ m_mode e.1 = tarModeDir ∧ m_size e.1 = 0) ∨
            (entry_isDir e = false ∧ m_typ e.1 = tarTypeRegular ∧ (m_mode e.1 = tarModeRegular ∨ m_mode e.1 = tarModeExecutable));
  eo_data : Z.of_nat (length e.2) = m_size e.1;
  eo_components : Forall (λ seg, componentForbiddenUnder seg (runtimeNames lim) = false) (split_slash (entry_path e));
  eo_length : Z.of_nat (length (entry_path e)) ≤ maxMemberPathBytes;
  eo_top : ∀ r, head pre = Some r → head (split_slash (entry_path e)) = head (split_slash (entry_path r));
  eo_fresh : ∀ p, p ∈ pre → ¬ clash p e;
  eo_parent : match parent_of (entry_path e) with
              | None => pre = [] ∧ entry_isDir e = true
              | Some parent => ∃ d, d ∈ pre ∧ entry_isDir d = true ∧ entry_path d = parent
              end;
  eo_order : stands_first lim pre e = true ∨ pre = [] ∨ bytes_leb (entry_path e) (previous_of lim [] pre []) = false;
  eo_payload : total_size pre + entry_size e ≤ payloadBytes lim ∨ entry_isDir e = true;
}.

Definition tree_from (lim : tarLimits) (pre es : list entry) : Prop :=
  ∀ l e r, es = l ++ e :: r → entry_ok lim (pre ++ l) e.
Definition tree_ok (lim : tarLimits) (es : list entry) : Prop := es ≠ [] ∧ tree_from lim [] es.

(** The walker's state after [pre]. *)
Record walked (lim : tarLimits) (pre : list entry) (w : tarWalker) : Prop := {
  wk_limits : w_limits w = lim;
  wk_seen : w_seen w = (λ e, (entry_path e, entry_isDir e)) <$> pre;
  wk_top : match pre with [] => w_topLevel w = [] | r :: _ => head (split_slash (entry_path r)) = Some (w_topLevel w) ∧ w_topLevel w ≠ [] end;
  wk_previous : w_previous w = previous_of lim [] pre [];
  wk_paths : Forall (λ e, entry_path e ≠ []) pre;
  wk_pending : w_pending w = [];
  wk_payload : w_payload w = total_size pre;
}.

Lemma conflict_none pre e : conflict ((λ e, (entry_path e, entry_isDir e)) <$> pre) e.1 = None ↔ ∀ p, p ∈ pre → ¬ clash p e.
Proof.
  induction pre as [|p pre IH]; cbn [fmap list_fmap conflict fst snd]; [split; [intros _ p Hp; by apply not_elem_of_nil in Hp|done]|].
  setoid_rewrite elem_of_cons. unfold clash at 1. fold (entry_path e) (entry_isDir e).
  destruct (beq (entry_path p) (entry_path e)) eqn:E1; b2p; cbn [orb].
  { split; [done|]. intros H. destruct (H p (or_introl eq_refl)). by left. }
  destruct (pathsCasefoldSiblingCollision _ _) eqn:E2; [split; [done|]; intros H; destruct (H p (or_introl eq_refl)); auto|].
  destruct (negb (entry_isDir p) && _) eqn:E3; cbn [orb].
  { split; [done|]. intros H. b2p. destruct (H p (or_introl eq_refl)). auto. }
  destruct (negb (entry_isDir e) && _) eqn:E4.
  { split; [done|]. intros H. b2p. destruct (H p (or_introl eq_refl)). auto. }
  rewrite IH. split; [|intros H q Hq; apply H; auto]. intros H q [->|Hq]; [|by apply H]. intros [?|[?|[[Ha Hb]|[Ha Hb]]]]; [done|congruence|..].
  - rewrite Ha, Hb in E3. done.
  - rewrite Ha, Hb in E4. done.
Qed.

Lemma parent_of_None p : parent_of p = None ↔ existsb (Z.eqb 47) p = false.
Proof.
  induction p as [|c p IH]; [done|]. cbn [parent_of existsb]. rewrite (Z.eqb_sym 47 c). destruct (parent_of p).
  - destruct (existsb _ p); [|discriminate (proj2 IH eq_refl)]. rewrite orb_true_r. done.
  - rewrite (proj1 IH eq_refl), orb_false_r. by destruct (c =? 47).
Qed.

Lemma previous_nonempty lim es : Forall (λ e, entry_path e ≠ []) es → ∀ pre last, last ≠ [] → previous_of lim pre es last ≠ [].
Proof. induction 1 as [|e es He _ IH]; intros pre last Hl; cbn; [done|]. apply IH. by destruct (stands_first _ _ _). Qed.

Lemma previous_nil lim es : Forall (λ e, entry_path e ≠ []) es → previous_of lim [] es [] = [] ↔ es = [].
Proof.
  intros Hf. destruct Hf as [|e es He Hf]; [done|]. cbn [previous_of app]. split; [|done].
  unfold stands_first. rewrite andb_false_r. intros H. by apply previous_nonempty in H.
Qed.

Lemma previous_snoc lim es e : ∀ pre last, previous_of lim pre (es ++ [e]) last =
  if stands_first lim (pre ++ es) e then previous_of lim pre es last else entry_path e.
Proof.
  induction es as [|x es IH]; intros pre last; cbn [previous_of app]; [by rewrite app_nil_r|]. rewrite IH, <- app_assoc. done.
Qed.

Lemma total_size_snoc es e : total_size (es ++ [e]) = total_size es + entry_size e.
Proof. induction es as [|x es IH]; cbn in *; [lia|]. unfold total_size in *. cbn. rewrite IH. lia. Qed.

Lemma leading_stands lim pre w e : walked lim pre w → leading w e.1 = stands_first lim pre e.
Proof.
  intros [H1 H2 _ _ _ _ _]. unfold leading, stands_first. rewrite H1, H2. by destruct pre as [|r [|r' pre]].
Qed.

(** What the walk admits, said of the members before. *)
Lemma admitted_iff lim pre w e : walked lim pre w → admitted w e.1 ↔
  Z.of_nat (length pre) < semanticMembers lim ∧ (∀ p, p ∈ pre → ¬ clash p e) ∧
  match parent_of (entry_path e) with
  | None => pre = [] ∧ entry_isDir e = true
  | Some parent => ∃ d, d ∈ pre ∧ entry_isDir d = true ∧ entry_path d = parent
  end ∧
  (stands_first lim pre e = true ∨ pre = [] ∨ bytes_leb (entry_path e) (previous_of lim [] pre []) = false) ∧
  (total_size pre + entry_size e ≤ payloadBytes lim ∨ entry_isDir e = true).
Proof.
  intros Hw. pose proof (leading_stands lim pre w e Hw) as Hl. destruct Hw as [H1 H2 H3 H4 H5 H6 H7].
  assert (parentExists w (entry_path e) = true ↔ match parent_of (entry_path e) with
    | None => pre = [] | Some parent => ∃ d, d ∈ pre ∧ entry_isDir d = true ∧ entry_path d = parent end) as Hpar.
  { unfold parentExists. rewrite H2. destruct (parent_of _) as [parent|].
    - rewrite existsb_exists. setoid_rewrite <- list_elem_of_In. setoid_rewrite list_elem_of_fmap. split.
      + intros (x & (d & -> & Hd) & Hb). cbn in Hb. b2p. by exists d.
      + intros (d & Hd & Hdir & <-). exists (entry_path d, entry_isDir d). split; [by exists d|]. cbn. by rewrite Hdir, beq_refl.
    - rewrite bool_decide_eq_true. split; [intros E; by apply fmap_nil_inv in E|by intros ->]. }
  split.
  - intros [A1 A2 A3 A4 A5 A6]. rewrite H1, H2, H4, H7, ?length_fmap in *. pose proof (proj1 (conflict_none pre e) A2) as A2'. apply Hpar in A3.
    split; [done|]. split; [done|]. split.
    { destruct (parent_of (entry_path e)) eqn:Ep; [done|]. split; [done|]. apply parent_of_None in Ep. destruct A5 as [A5|A5]; [done|].
      change (m_path e.1) with (entry_path e) in A5. congruence. }
    split; [rewrite <- Hl; destruct A4 as [?|[?%previous_nil|?]]; auto|].
    unfold entry_size. fold (entry_isDir e) in A6. destruct (entry_isDir e); [by right|]. destruct A6; [done|by left].
  - intros (A1 & A2 & A3 & A4 & A5). split; rewrite ?H1, ?H2, ?H4, ?H7, ?length_fmap; try done.
    + by apply conflict_none.
    + apply Hpar. destruct (parent_of _); [done|by destruct A3].
    + rewrite Hl. destruct A4 as [?|[->|?]]; [by left|by right; left|by right; right].
    + fold (entry_isDir e). destruct (entry_isDir e) eqn:Ed; [by left|]. right. destruct (existsb _ _) eqn:Ex; [done|]. apply parent_of_None in Ex.
      change (m_path e.1) with (entry_path e) in Ex. rewrite Ex in A3. by destruct A3.
    + fold (entry_isDir e). unfold entry_size in A5. destruct (entry_isDir e); [by left|]. right. by destruct A5.
Qed.

Lemma component_nonempty seg rt : componentForbiddenUnder seg rt = false → seg ≠ [].
Proof. by intros H ->. Qed.

Lemma head_component p rt : Forall (λ seg, componentForbiddenUnder seg rt = false) (split_slash p) →
  ∀ seg, head (split_slash p) = Some seg → seg ≠ [].
Proof. intros Hf seg Hs. destruct Hf as [|x l Hx _]; [done|]. injection Hs as <-. by eapply component_nonempty. Qed.

Lemma canonical_kind typ mode isdir : isdir = (typ =? tarTypeDirectory) → tarModeIsCanonical typ mode = true → typ ≠ tarTypeRegularLegacy →
  (isdir = true ∧ typ = tarTypeDirectory ∧ mode = tarModeDir) ∨
  (isdir = false ∧ typ = tarTypeRegular ∧ (mode = tarModeRegular ∨ mode = tarModeExecutable)).
Proof.
  intros -> H Hne. unfold tarModeIsCanonical in H. destruct (negb _); [done|]. destruct (Z.eqb_spec typ tarTypeDirectory) as [->|]; b2p; [by left|].
  destruct (Z.eqb_spec typ tarTypeRegular) as [->|]; cbn [orb] in H.
  - right. split; [done|]. split; [done|]. apply orb_true_iff in H as [?|?]; b2p; auto.
  - destruct (Z.eqb_spec typ tarTypeRegularLegacy); [done|]. done.
Qed.

(** A delivered member with its payload may follow those before it. *)
Lemma delivered_entry lim pre w m data w' : walked lim pre w → delivered_ok w m w' → Z.of_nat (length data) = m_size m →
  entry_ok lim pre (m, data) ∧ walked lim (pre ++ [(m, data)]) w'.
Proof.
  intros Hw [D1 [D2 D2'] [D3 D3'] [D4 D4'] [D5 D5'] D6 D7 D8 D9 D10 D11 D12] Hd.
  pose proof (leading_stands lim pre w (m, data) Hw) as Hl. cbn [fst] in Hl.
  pose proof (proj1 (admitted_iff lim pre w (m, data) Hw) D6) as (A1 & A2 & A3 & A4 & A5).
  pose proof (head_component _ _ D4 _ D5) as Hne. destruct Hw as [W1 W2 W3 W4 W5 W6 W7].
  assert (∀ r, head pre = Some r → head (split_slash (m_path m)) = head (split_slash (entry_path r))) as Htop.
  { intros r Hr. destruct pre as [|r0 pre]; [done|]. injection Hr as ->. destruct W3 as [W3 W3']. rewrite W3, D5. destruct D5' as [|E]; [done|]. by rewrite E. }
  split.
  - rewrite W1 in D4. split; try done.
    destruct (canonical_kind _ _ _ D1 D2 D2') as [(E1 & E2 & E3)|(E1 & E2 & E3)]; [left|right]; repeat split; auto.
  - split.
    + by rewrite D10.
    + rewrite D7, W2, fmap_app. done.
    + destruct pre as [|r0 pre]; cbn [app]; [done|]. destruct W3 as [W3 W3']. rewrite W3. split; [|done]. destruct D5' as [|E]; [done|]. by rewrite E.
    + rewrite D8, previous_snoc. cbn [app]. by rewrite <- Hl, W4.
    + apply Forall_app. split; [done|]. by constructor.
    + done.
    + rewrite D9, total_size_snoc, W7. unfold entry_size, entry_isDir. cbn. destruct (m_isDir m); lia.
Qed.

(** The bytes of an entry in an accepted stream, and of a whole archive. *)
Definition entry_form (e : entry) (t : bytes) : Prop :=
  ∃ k h, member_header (entry_path e ++ replicate k 47) (entry_path e) (m_size e.1) (m_mode e.1) (m_typ e.1) = Some h ∧ t = h ++ e.2 ++ zero_pad (m_size e.1).

Lemma tree_from_cons lim pre e es : entry_ok lim pre e → tree_from lim (pre ++ [e]) es → tree_from lim pre (e :: es).
Proof.
  intros He Hes [|x l] y r E; cbn in E; injection E as -> ->; [by rewrite app_nil_r|].
  specialize (Hes l y r eq_refl). by rewrite <- app_assoc in Hes.
Qed.

(** One member of the walk, read to its end. *)
Definition member_data (w : tarWalker) (m : tarMember) : result Reason (bytes * tarWalker) := if m_isDir m then mret ([], w) else readPayload w m.

Lemma member_step lim pre w m w1 data w2 : walked lim pre w → next w = Ok (Some m, w1) → member_data w1 m = Ok (data, w2) →
  entry_ok lim pre (m, data) ∧ walked lim (pre ++ [(m, data)]) w2 ∧ ∃ t, entry_form (m, data) t ∧ g_out (w_gz w) = t ++ g_out (w_gz w2).
Proof.
  intros Hw Hn Hp. apply (next_ok w m w1 (wk_pending _ _ _ Hw)) in Hn as (t & k & Ho & Hd & Hh). unfold member_data in Hp.
  assert (Z.of_nat (length data) = m_size m ∧ g_out (w_gz w1) = data ++ zero_pad (m_size m) ++ g_out (w_gz w2) ∧ w2 = set_gz w1 (w_gz w2)) as (Hl & Ho2 & Hw2).
  { destruct (m_isDir m) eqn:Ed.
    - injection Hp as <- <-. destruct (dl_size _ _ _ Hd) as [_ Hz]. rewrite (Hz Ed). split; [reflexivity|]. split; [reflexivity|]. by destruct w1.
    - apply readPayload_ok; [apply (dl_size _ _ _ Hd)|exact Hp]. }
  destruct (delivered_entry lim pre w m data w1 Hw Hd Hl) as [He Hw1]. split; [done|]. split; [rewrite Hw2; destruct Hw1; by split|].
  exists (t ++ data ++ zero_pad (m_size m)). split; [by exists k, t|]. by rewrite Ho, Ho2, <- !app_assoc.
Qed.

Lemma walk_sound fuel lim : ∀ pre w es w', walked lim pre w → walk_members fuel w = Ok (es, w') →
  tree_from lim pre es ∧ pre ++ es ≠ [] ∧ ∃ ts, Forall2 entry_form es ts ∧ g_out (w_gz w) = concat ts ++ replicate 1024 0 ++ g_out (w_gz w').
Proof.
  induction fuel as [|f IH]; intros pre w es w' Hw; cbn [walk_members]; [done|]. intros H0.
  apply bind_ok in H0 as ([om w1] & Hn & H0). destruct om as [m|].
  - apply bind_ok in H0 as ([data w2] & Hp & H0). apply bind_ok in H0 as ([es' w3] & Hes & [= <- <-]).
    destruct (member_step lim pre w m w1 data w2 Hw Hn Hp) as (He & Hw2 & t & Hf & Ho).
    destruct (IH _ w2 es' w3 Hw2 Hes) as (Ht & _ & ts & Hfs & Ho2).
    split; [by apply tree_from_cons|]. split; [by destruct pre|]. exists (t :: ts). split; [by constructor|]. rewrite Ho, Ho2. cbn. by rewrite <- app_assoc.
  - apply next_pass_end in Hn as (_ & Ho & Ht). injection H0 as <- <-. split; [by intros [|] ? ?|]. split.
    + rewrite app_nil_r. intros ->. by destruct (Ht (wk_top _ _ _ Hw)).
    + exists []. by split; [|rewrite Ho].
Qed.

Lemma walked_new lim gz : walked lim [] (newTarWalkerWith gz lim).
Proof. by split. Qed.

(** ** Paths and their components *)

Lemma split_slash_cons c p : split_slash (c :: p) = if c =? 47 then [] :: split_slash p
  else match split_slash p with seg :: rest => (c :: seg) :: rest | [] => [[c]] end.
Proof. done. Qed.

Lemma split_slash_single p : existsb (Z.eqb 47) p = false → split_slash p = [p].
Proof.
  induction p as [|c p IH]; [done|]. cbn [existsb]. rewrite (Z.eqb_sym 47 c). intros [H1 H2]%orb_false_iff.
  rewrite split_slash_cons, H1, IH; done.
Qed.

Lemma split_slash_several p : existsb (Z.eqb 47) p = true → ∃ a b l, split_slash p = a :: b :: l.
Proof.
  induction p as [|c p IH]; [done|]. cbn [existsb]. rewrite (Z.eqb_sym 47 c), split_slash_cons. destruct (c =? 47).
  - intros _. pose proof (split_slash_nonempty p). destruct (split_slash p) as [|b l]; [done|]. by exists [], b, l.
  - intros H. destruct (IH H) as (a & b & l & ->). by exists (c :: a), b, l.
Qed.

Lemma lower_slash c : (asciiLower c =? 47) = (c =? 47).
Proof. unfold asciiLower, between. destruct (_ && _) eqn:E; b2p; [|done]. transitivity false; [|symmetry]; apply Z.eqb_neq; lia. Qed.

(** A path without the case of its letters. *)
Definition lowered (p : bytes) : bytes := asciiLower <$> p.

Lemma split_slash_lower p : split_slash (lowered p) = lowered <$> split_slash p.
Proof.
  induction p as [|c p IH]; [done|]. change (lowered (c :: p)) with (asciiLower c :: lowered p). rewrite !split_slash_cons, lower_slash, IH.
  destruct (c =? 47); [done|]. by destruct (split_slash p).
Qed.

Lemma split_slash_inj p : ∀ q, split_slash p = split_slash q → p = q.
Proof.
  induction p as [|c p IH]; intros [|d q]; [done|..].
  - rewrite split_slash_cons. pose proof (split_slash_nonempty q). destruct (d =? 47); [cbn; congruence|]. destruct (split_slash q); done.
  - rewrite split_slash_cons. pose proof (split_slash_nonempty p). destruct (c =? 47); [cbn; congruence|]. destruct (split_slash p); done.
  - rewrite !split_slash_cons. pose proof (split_slash_nonempty p). pose proof (split_slash_nonempty q).
    destruct (Z.eqb_spec c 47) as [->|], (Z.eqb_spec d 47) as [->|].
    + intros [= E]. f_equal. auto.
    + by destruct (split_slash q).
    + by destruct (split_slash p).
    + destruct (split_slash p) eqn:Ep, (split_slash q) eqn:Eq; try done. intros [= -> -> ->]. f_equal. apply IH. by rewrite Eq.
Qed.

(** Two different paths that agree but for the case of letters collide. *)
Lemma casefold_collides p q : lowered p = lowered q → p ≠ q → pathsCasefoldSiblingCollision p q = true.
Proof.
  intros Hl Hne. unfold pathsCasefoldSiblingCollision.
  assert (split_slash p ≠ split_slash q) as Hs by (intros E; by apply Hne, split_slash_inj).
  assert (lowered <$> split_slash p = lowered <$> split_slash q) as Hm by (by rewrite <- !split_slash_lower, Hl).
  revert Hs Hm. generalize (split_slash p), (split_slash q). clear. induction l as [|x l IH]; intros [|y l'] Hs Hm; try done.
  rewrite !fmap_cons in Hm. injection Hm as Hx Hm. cbn [siblings_collide].
  assert (length x = length y) as -> by (by rewrite <- (length_fmap asciiLower x), <- (length_fmap asciiLower y); f_equal).
  rewrite Nat.eqb_refl. cbn [negb]. unfold lowered in Hx. rewrite Hx, beq_refl. cbn [negb].
  destruct (beq x y) eqn:E; b2p; cbn [negb]; [|done]. subst. apply IH; [congruence|done].
Qed.

Lemma forbidden_bad seg rt : componentForbiddenUnder seg rt = false → bad_segment seg = false.
Proof.
  unfold componentForbiddenUnder, bad_segment. destruct (bool_decide (seg = [])) eqn:E; [done|]. cbn [orb]. destruct (_ <? _); [done|].
  destruct (beq seg [46] || beq seg [46; 46]) eqn:E2; [done|]. intros _. apply bool_decide_eq_false in E. rewrite (proj2 (beq_false seg []) E).
  apply orb_false_iff in E2 as [-> ->]. done.
Qed.

Lemma tree_from_lookup lim pre es i e : tree_from lim pre es → es !! i = Some e → entry_ok lim (pre ++ take i es) e.
Proof. intros Ht Hi. apply (Ht (take i es) e (drop (S i) es)). by rewrite (take_drop_middle _ _ _ Hi). Qed.

Lemma total_size_bound lim es : tree_from lim [] es → 0 ≤ payloadBytes lim → total_size es ≤ payloadBytes lim.
Proof.
  induction es as [|e es IH] using rev_ind; intros Ht H0; [done|]. rewrite total_size_snoc.
  pose proof (Ht es e [] eq_refl) as He. cbn [app] in He. assert (tree_from lim [] es) as Hes.
  { intros l x r ->. apply (Ht l x (r ++ [e])). by rewrite <- app_assoc. }
  specialize (IH Hes H0). destruct (eo_payload _ _ _ He) as [|Hd]; [done|]. unfold entry_size. rewrite Hd. lia.
Qed.

(** ** The theorems on accepted archives *)

(** What it means for a tree to be safe to unpack: one root directory; every
    other path below it, each walk along it only descending; no two paths equal
    even without case; every parent a directory that came before; and the sizes
    within the limits. *)
Record safe_tree (lim : tarLimits) (es : list entry) : Prop := {
  st_root : ∃ root rest, es = root :: rest ∧ entry_isDir root = true ∧ split_slash (entry_path root) = [entry_path root] ∧
    ∀ e, e ∈ rest → ∃ seg segs, split_slash (entry_path e) = entry_path root :: seg :: segs;
  st_inside : ∀ e dir, e ∈ es → foldl walk_segment dir (split_slash (entry_path e)) = dir ++ split_slash (entry_path e);
  st_distinct : ∀ i j e e', es !! i = Some e → es !! j = Some e' → lowered (entry_path e) = lowered (entry_path e') → i = j;
  st_parent : ∀ i e parent, es !! i = Some e → parent_of (entry_path e) = Some parent →
    ∃ j d, (j < i)%nat ∧ es !! j = Some d ∧ entry_isDir d = true ∧ entry_path d = parent;
  st_count : Z.of_nat (length es) ≤ semanticMembers lim;
  st_total : 0 ≤ payloadBytes lim → total_size es ≤ payloadBytes lim;
}.

Lemma tree_safe lim es : tree_ok lim es → safe_tree lim es.
Proof.
  intros [Hne Ht]. assert (∀ i e, es !! i = Some e → entry_ok lim (take i es) e) as Hat by (intros i e Hi; apply (tree_from_lookup lim [] es i e Ht Hi)).
  assert (∀ i j e e', (i < j)%nat → es !! i = Some e → es !! j = Some e' → lowered (entry_path e) ≠ lowered (entry_path e')) as Hdist.
  { intros i j e e' Hij Hi Hj Hl. destruct (eo_fresh _ _ _ (Hat j e' Hj) e); [by apply list_elem_of_lookup_2 with i; rewrite lookup_take_lt|].
    destruct (decide (entry_path e = entry_path e')); [by left|]. right. left. by apply casefold_collides. }
  split.
  - destruct es as [|root rest]; [done|]. exists root, rest. split; [done|]. pose proof (Hat 0%nat root eq_refl) as H0. cbn [take] in H0.
    assert (parent_of (entry_path root) = None ∧ entry_isDir root = true) as [Hp Hd].
    { pose proof (eo_parent _ _ _ H0) as Hp. destruct (parent_of _); [destruct Hp as (d & Hd & _); by apply not_elem_of_nil in Hd|by destruct Hp]. }
    assert (split_slash (entry_path root) = [entry_path root]) as Hs by (by apply split_slash_single, parent_of_None).
    split; [done|]. split; [done|]. intros e [i Hi]%list_elem_of_lookup. pose proof (Hat (S i) e Hi) as He. cbn [take] in He.
    pose proof (eo_top _ _ _ He root eq_refl) as Htop. rewrite Hs in Htop.
    assert (existsb (Z.eqb 47) (entry_path e) = true) as (a & b & l & E)%split_slash_several.
    { destruct (existsb _ _) eqn:Ex; [done|]. apply parent_of_None in Ex. pose proof (eo_parent _ _ _ He) as Hpe. rewrite Ex in Hpe. by destruct Hpe. }
    rewrite E in *. injection Htop as ->. by exists b, l.
  - intros e dir [i Hi]%list_elem_of_lookup. apply walk_descends. eapply Forall_impl; [apply (eo_components _ _ _ (Hat i e Hi))|]. intros seg. apply forbidden_bad.
  - intros i j e e' Hi Hj Hl. destruct (lt_eq_lt_dec i j) as [[?|?]|?]; [|done|]; exfalso; [by eapply Hdist|by eapply (Hdist j i)].
  - intros i e parent Hi Hp. pose proof (eo_parent _ _ _ (Hat i e Hi)) as H. rewrite Hp in H. destruct H as (d & [j Hj]%list_elem_of_lookup & Hd & Hdp).
    apply lookup_take_Some in Hj as [Hj Hlt]. by exists j, d.
  - destruct es as [|e es _] using rev_ind; [done|]. pose proof (eo_room _ _ _ (Ht es e [] eq_refl)). rewrite length_app. cbn in *. lia.
  - intros H0. by apply total_size_bound.
Qed.

(** C28. Nothing an accepted archive holds escapes its one root directory: there
    is a single root, every other member lies below it on a path that only
    descends, no two members have the same path even on a file system that
    ignores case, every parent is a directory that came before, and neither the
    members nor their payloads exceed the limits. *)
Theorem accepted_tree_safe lim gz fuel es w : walk_members fuel (newTarWalkerWith gz lim) = Ok (es, w) → safe_tree lim es.
Proof.
  intros (Ht & Hne & _)%(walk_sound fuel lim [] _ _ _ (walked_new lim gz)). by apply tree_safe.
Qed.


(** ** Witnesses *)

Definition sample_dir (p : bytes) : entry := (mkMember p 0 tarModeDir tarTypeDirectory true, []).
Definition sample_file (p data : bytes) : entry := (mkMember p (Z.of_nat (length data)) tarModeRegular tarTypeRegular false, data).
Definition sample_tree : list entry := [sample_dir (bs "p-1"); sample_file (bs "p-1/manifest.json") (bs "{}")].
Definition sample_archive : bytes := default [] (archive_text sample_tree).
Definition sample_stream (out : bytes) : gzipStream := mkGzip out (Ended []) false (λ _, false) 0 0 0 bundleLimits.
Definition sample_walk : result Reason (list entry * tarWalker) := walk_members 3 (newTarWalkerWith (sample_stream sample_archive) bundleLimits).

Lemma sample_walk_ok : match sample_walk with Ok (es, w) => es = sample_tree | Err _ => False end.
Proof. vm_compute. reflexivity. Qed.

Lemma accepted_tree_safe_witness : safe_tree bundleLimits sample_tree.
Proof.
  pose proof sample_walk_ok as H. destruct sample_walk as [[es w]|] eqn:E; [|destruct H]. rewrite <- H.
  exact (accepted_tree_safe bundleLimits (sample_stream sample_archive) 3 es w E).
Defined.

