(* ===== verification/TarAccept.v ===== *)
(** * Every admissible tree is accepted

    What the package writer's headers hold, that the walk reads them back, and
    that the ceilings of a bundle leave room for every tree its member and
    payload limits admit. *)

From S2P Require Import Prelude Utf8 GoJson CanonicalJson CanonicalJsonFacts Container Sections Tar TarFacts.

(** ** Fields of an array *)

Lemma sub_at_lookup a n h i : sub_at a n h !! i = if decide (i < n)%nat then h !! (a + i)%nat else None.
Proof. unfold sub_at. destruct (decide (i < n)%nat); [by rewrite lookup_take_lt, lookup_drop|rewrite lookup_take_ge by lia; done]. Qed.

Lemma copy_at_lookup h a n x i : (a + n ≤ length h)%nat →
  copy_at h a n x !! i = if decide (a ≤ i < a + length (take n x))%nat then take n x !! (i - a)%nat else h !! i.
Proof.
  intros Hl. unfold copy_at. assert (length (take a h) = a) as Ha by (rewrite length_take; lia).
  pose proof (length_take x n). destruct (decide (i < a)%nat) as [Hi|Hi].
  - rewrite lookup_app_l by lia. rewrite decide_False by lia. by rewrite lookup_take_lt.
  - rewrite lookup_app_r by lia. rewrite Ha. destruct (decide (i - a < length (take n x))%nat) as [Hi'|Hi'].
    + rewrite decide_True by lia. by rewrite lookup_app_l.
    + rewrite decide_False by lia. rewrite lookup_app_r by lia. rewrite lookup_drop. f_equal. lia.
Qed.

Lemma copy_at_length h a n x : length h = 512%nat → (a + n ≤ 512)%nat → length (copy_at h a n x) = 512%nat.
Proof. intros Hh Hl. unfold copy_at. pose proof (length_take x n). rewrite !length_app, length_drop, !length_take. lia. Qed.

Lemma sub_copy_other h a n x b m : length h = 512%nat → (a + n ≤ 512)%nat → (b + m ≤ a ∨ a + n ≤ b)%nat → sub_at b m (copy_at h a n x) = sub_at b m h.
Proof.
  intros Hh Hl Hd. apply list_eq. intros i. rewrite !sub_at_lookup. destruct (decide (i < m)%nat); [|done].
  rewrite copy_at_lookup by lia. pose proof (length_take x n). by rewrite decide_False by lia.
Qed.

Lemma sub_copy_same h a n x : length h = 512%nat → (a + n ≤ 512)%nat → length x = n → sub_at a n (copy_at h a n x) = x.
Proof.
  intros Hh Hl Hx. apply list_eq. intros i. rewrite sub_at_lookup. destruct (decide (i < n)%nat).
  - rewrite copy_at_lookup by lia. rewrite take_ge by lia. rewrite decide_True by lia. f_equal. lia.
  - symmetry. apply lookup_ge_None_2. lia.
Qed.

(** A field that was all zero before. *)
Lemma sub_copy_zero h a n x : length h = 512%nat → (a + n ≤ 512)%nat → (length x ≤ n)%nat → sub_at a n h = replicate n 0 →
  sub_at a n (copy_at h a n x) = x ++ replicate (n - length x) 0.
Proof.
  intros Hh Hl Hx Hz. apply list_eq. intros i. rewrite sub_at_lookup. destruct (decide (i < n)%nat) as [Hi|Hi].
  - rewrite copy_at_lookup by lia. rewrite (take_ge x) by lia. destruct (decide (i < length x)%nat) as [Hi'|Hi'].
    + rewrite decide_True, lookup_app_l by lia. f_equal. lia.
    + rewrite decide_False, lookup_app_r by lia. pose proof (sub_at_lookup a n h i) as E. rewrite Hz, decide_True in E by done. rewrite <- E.
      rewrite !lookup_replicate_2 by lia. done.
  - symmetry. apply lookup_ge_None_2. rewrite length_app, length_replicate. lia.
Qed.

Lemma sub_at_replicate a n : (a + n ≤ 512)%nat → sub_at a n (replicate 512 0) = replicate n 0.
Proof. intros H. unfold sub_at. rewrite drop_replicate, take_replicate. f_equal. lia. Qed.

(** The block as the three parts around the checksum. *)
Lemma block_parts h : length h = 512%nat → h = take 148 h ++ sub_at 148 8 h ++ drop 156 h.
Proof. intros H. unfold sub_at. rewrite <- (take_drop 148 h) at 1. f_equal. rewrite <- (take_drop 8 (drop 148 h)) at 1. by rewrite drop_drop. Qed.

Lemma byte_sum_app a b : byte_sum (a ++ b) = byte_sum a + byte_sum b.
Proof. induction a as [|x a IH]; [done|]. cbn in *. unfold byte_sum in *. cbn. rewrite IH. lia. Qed.

(** ** Octal text *)

(** One digit more. *)
Lemma octal_loop_digit c t v saw : 48 ≤ c ≤ 55 → 0 ≤ v ≤ 2 ^ 59 → octal_loop (c :: t) v saw = octal_loop t (v * 8 + (c - 48)) true.
Proof.
  intros Hc Hv. cbn [octal_loop]. destruct (Z.eqb_spec c 0), (Z.eqb_spec c 32), (Z.ltb_spec c 48), (Z.ltb_spec 55 c); try lia. cbn [orb].
  change (2 ^ 62 / 8) with (2 ^ 59). destruct (Z.ltb_spec (2 ^ 59) v); [lia|done].
Qed.

Lemma octal_digits_loop fuel : ∀ v acc saw, 0 ≤ v < 8 ^ Z.of_nat (S fuel) → v ≤ 2 ^ 59 →
  octal_loop (octal_digits (S fuel) v acc) 0 saw = octal_loop acc v true.
Proof.
  induction fuel as [|f IH]; intros v acc saw Hv Hb; cbn [octal_digits].
  - assert (v / 8 = 0) as -> by (change (8 ^ Z.of_nat 1) with 8 in Hv; zlia). cbn [Z.eqb].
    rewrite octal_loop_digit by (change (8 ^ Z.of_nat 1) with 8 in Hv; zlia). f_equal. change (8 ^ Z.of_nat 1) with 8 in Hv. zlia.
  - destruct (Z.eqb_spec (v / 8) 0); [rewrite octal_loop_digit by zlia; f_equal; zlia|].
    rewrite Nat2Z.inj_succ, Z.pow_succ_r in Hv by lia. fold (octal_digits (S f)).
    change (octal_loop (octal_digits (S f) (v / 8) ((48 + v mod 8) :: acc)) 0 saw = octal_loop acc v true).
    rewrite IH by zlia. rewrite octal_loop_digit by zlia. f_equal. zlia.
Qed.

Lemma octal_digits_octal fuel : ∀ v acc, Forall (λ c, 48 ≤ c ≤ 55) acc → Forall (λ c, 48 ≤ c ≤ 55) (octal_digits fuel v acc).
Proof.
  induction fuel as [|f IH]; intros v acc Ha; cbn [octal_digits]; [done|]. assert (Forall (λ c, 48 ≤ c ≤ 55) ((48 + v mod 8) :: acc)) by (constructor; [zlia|done]).
  destruct (_ =? 0); auto.
Qed.

Lemma octal_digits_length fuel : ∀ v acc k, 0 ≤ v < 8 ^ Z.of_nat k → (0 < k)%nat → (length (octal_digits fuel v acc) ≤ k + length acc)%nat.
Proof.
  induction fuel as [|f IH]; intros v acc k Hv Hk; cbn [octal_digits]; [lia|]. destruct (Z.eqb_spec (v / 8) 0); [cbn; lia|].
  destruct k as [|[|k]]; [lia|change (8 ^ Z.of_nat 1) with 8 in Hv; zlia|].
  rewrite Nat2Z.inj_succ, Z.pow_succ_r in Hv by lia. specialize (IH (v / 8) ((48 + v mod 8) :: acc) (S k)). cbn [length] in IH.
  etransitivity; [apply IH; [zlia|lia]|lia].
Qed.

Lemma octal_digits_nonempty fuel : ∀ v acc, (0 < fuel)%nat ∨ acc ≠ [] → octal_digits fuel v acc ≠ [].
Proof. induction fuel as [|f IH]; intros v acc H; cbn [octal_digits]; [naive_solver lia|]. destruct (_ =? 0); [done|]. apply IH. by right. Qed.

Lemma octal_zeros k t saw : octal_loop (replicate k 48 ++ t) 0 saw = octal_loop t 0 (saw || (0 <? k)%nat).
Proof. revert saw. induction k as [|k IH]; intros saw; cbn [replicate app]; [by rewrite orb_false_r|]. rewrite octal_loop_digit by lia. rewrite IH. f_equal. by rewrite orb_true_r. Qed.

Lemma octal_blanks t v : Forall (λ c, c = 0 ∨ c = 32) t → octal_loop t v true = Some v.
Proof. induction 1 as [|c t [->| ->] _ IH]; done. Qed.

(** A field of zeros, digits and blanks reads back. *)
Lemma parse_octal_field k v blanks : 0 ≤ v ≤ 2 ^ 59 → Forall (λ c, c = 0 ∨ c = 32) blanks →
  tarParseOctal (replicate k 48 ++ FormatOctal v ++ blanks) = Some v.
Proof.
  intros Hv Hb. unfold FormatOctal. destruct (Z.ltb_spec v 0); [lia|].
  assert (octal_loop (replicate k 48 ++ octal_digits 22 v [] ++ blanks) 0 false = Some v) as Hloop.
  { rewrite octal_zeros. assert (∀ fuel v acc, octal_digits fuel v [] ++ acc = octal_digits fuel v acc) as ->.
    { clear. assert (∀ fuel v a acc, octal_digits fuel v a ++ acc = octal_digits fuel v (a ++ acc)) as H; [|intros; apply H].
      induction fuel as [|f IH]; intros v a acc; cbn [octal_digits]; [done|]. destruct (_ =? 0); [done|]. apply IH. }
    rewrite octal_digits_loop; [by apply octal_blanks|change (8 ^ Z.of_nat 22) with (2 ^ 66); lia|lia]. }
  revert Hloop. pose proof (octal_digits_octal 22 v [] ltac:(constructor)) as Hd.
  assert (∃ c t, replicate k 48 ++ octal_digits 22 v [] ++ blanks = c :: t ∧ 48 ≤ c ≤ 55) as (c & t & -> & Hc).
  { destruct k as [|k]; cbn [replicate app]; [|by eexists _, _]. destruct (octal_digits 22 v []) as [|c t] eqn:E; [|inversion Hd; subst; by eexists c, _].
    by apply octal_digits_nonempty in E; [|left; lia]. }
  unfold tarParseOctal. assert (Z.land c 128 = 0) as ->.
  { assert (c = 48 ∨ c = 49 ∨ c = 50 ∨ c = 51 ∨ c = 52 ∨ c = 53 ∨ c = 54 ∨ c = 55) as Hcs by lia. by destruct Hcs as [->|[->|[->|[->|[->|[->|[->| ->]]]]]]]. }
  done.
Qed.

Lemma writeOctal_inv n v f : writeOctal n v = Some f → 0 ≤ v ≤ 2 ^ 59 → (1 < n)%nat → length f = n ∧ tarParseOctal f = Some v.
Proof.
  unfold writeOctal. destruct (Nat.ltb_spec (n - 1) (length (FormatOctal v))); [done|]. intros [= <-] Hv Hn. split.
  - rewrite !length_app, length_replicate. cbn. lia.
  - apply parse_octal_field; [done|]. constructor; [by left|constructor].
Qed.

Lemma FormatOctal_length v k : 0 ≤ v < 8 ^ Z.of_nat k → (0 < k)%nat → (length (FormatOctal v) ≤ k)%nat.
Proof.
  intros Hv Hk. unfold FormatOctal. destruct (Z.ltb_spec v 0); [lia|]. pose proof (octal_digits_length 22 v [] k Hv Hk). cbn in *. lia.
Qed.

Lemma writeOctal_some n v : 0 ≤ v < 8 ^ Z.of_nat (n - 1) → (1 < n)%nat → is_Some (writeOctal n v).
Proof.
  intros Hv Hn. unfold writeOctal. pose proof (FormatOctal_length v (n - 1) Hv ltac:(lia)).
  destruct (Nat.ltb_spec (n - 1) (length (FormatOctal v))); [lia|]. by eexists.
Qed.

(** ** Headers *)

(** Every array here has the block's length. *)
Ltac len512 := repeat (apply copy_at_length; [|lia]); apply length_replicate.
(** Look through the writes to other fields. *)
Ltac other_fields := repeat (rewrite sub_copy_other; [|len512|lia|lia]).

Lemma buildTarHeader_inv stored size mode typ block : buildTarHeader stored size mode typ = Some block → ∃ name prefix m s u t,
  tarSplitPath stored = Some (name, prefix) ∧ writeOctal 8 (Z.land mode 511) = Some m ∧ writeOctal 12 size = Some s ∧
  writeOctal 8 0 = Some u ∧ writeOctal 12 0 = Some t ∧
  (length (FormatOctal (byte_sum (header_base name prefix m s u t typ))) ≤ 6)%nat ∧
  block = copy_at (header_base name prefix m s u t typ) 148 8 (checksum_field (FormatOctal (byte_sum (header_base name prefix m s u t typ)))).
Proof.
  unfold buildTarHeader. destruct (tarSplitPath stored) as [[name prefix]|]; [|done]. cbn [mbind option_bind].
  destruct (writeOctal 8 (Z.land mode 511)) as [m|]; [|done]. cbn [mbind option_bind].
  destruct (writeOctal 12 size) as [s|]; [|done]. cbn [mbind option_bind].
  destruct (writeOctal 8 0) as [u|]; [|done]. cbn [mbind option_bind]. destruct (writeOctal 12 0) as [t|]; [|done]. cbn [mbind option_bind].
  intros H. exists name, prefix, m, s, u, t. do 5 (split; [reflexivity|]). revert H. generalize (header_base name prefix m s u t typ). intros h. cbv zeta.
  destruct (Nat.ltb_spec 6 (length (FormatOctal (byte_sum h)))); [done|]. intros [= <-]. split; [done|reflexivity].
Qed.

Lemma split_down_inv path n name prefix : (n < length path)%nat → split_down path n = Some (name, prefix) →
  path = prefix ++ [47] ++ name ∧ prefix ≠ [] ∧ (length prefix ≤ 155)%nat ∧ (length name ≤ 100)%nat.
Proof.
  induction n as [|n IH]; intros Hn; cbn [split_down]; [done|]. destruct (_ && _) eqn:E; [|apply IH; lia].
  intros [= <- <-]. apply andb_true_iff in E as [E E3%Nat.leb_le]. apply andb_true_iff in E as [E E2%Nat.ltb_lt].
  apply andb_true_iff in E as [E1 E4%Nat.leb_le]. apply bool_decide_eq_true in E1.
  split; [symmetry; by apply take_drop_middle|]. rewrite length_take, length_drop. split; [|lia]. by destruct path.
Qed.

Lemma tarSplitPath_inv path name prefix : tarSplitPath path = Some (name, prefix) →
  path = (if beq prefix [] then name else prefix ++ [47] ++ name) ∧ (length prefix ≤ 155)%nat ∧ (length name ≤ 100)%nat ∧ path ≠ [].
Proof.
  unfold tarSplitPath. destruct (bool_decide (path = [])) eqn:En; [done|]. cbn [orb]. destruct (_ <? _); [done|]. apply bool_decide_eq_false in En.
  destruct (Nat.leb_spec (length path) 100).
  - intros [= <- <-]. cbn. split; [done|]. split; [lia|done].
  - intros (E & Hne & Hp & Hn)%split_down_inv; [|lia]. rewrite (proj2 (beq_false prefix []) Hne). done.
Qed.

Lemma until_nul_pad s k : Forall (λ c, c ≠ 0) s → until_nul (s ++ replicate k 0) = s.
Proof.
  induction 1 as [|c s Hc _ IH]; cbn; [by destruct k|]. destruct (Z.eqb_spec c 0); [done|]. by rewrite IH.
Qed.

Lemma header_base_length name prefix m s u t typ : length (header_base name prefix m s u t typ) = 512%nat.
Proof. unfold header_base. len512. Qed.

Lemma header_base_fields name prefix m s u t typ : (length name ≤ 100)%nat → (length prefix ≤ 155)%nat → length m = 8%nat → length s = 12%nat →
  let h := header_base name prefix m s u t typ in
  sub_at 0 100 h = name ++ replicate (100 - length name) 0 ∧ sub_at 345 155 h = prefix ++ replicate (155 - length prefix) 0 ∧
  sub_at 100 8 h = m ∧ sub_at 124 12 h = s ∧ sub_at 148 8 h = replicate 8 32 ∧ sub_at 156 1 h = [typ].
Proof.
  intros Hn Hp Hm Hs. unfold header_base. cbv zeta. split; [|split; [|split; [|split; [|split]]]].
  - other_fields. apply sub_copy_zero; [apply length_replicate|lia|done|]. apply sub_at_replicate. lia.
  - other_fields. apply sub_copy_zero; [len512|lia|done|]. other_fields. apply sub_at_replicate. lia.
  - other_fields. apply sub_copy_same; [len512|lia|done].
  - other_fields. apply sub_copy_same; [len512|lia|done].
  - other_fields. apply sub_copy_same; [len512|lia|apply length_replicate].
  - other_fields. apply sub_copy_same; [len512|lia|done].
Qed.

Lemma checksum_field_length chk : (length chk ≤ 6)%nat → length (checksum_field chk) = 8%nat.
Proof. intros H. unfold checksum_field. rewrite !length_app, length_replicate. cbn. lia. Qed.

Lemma nth_sub_at h i : (i < length h)%nat → [nth i h 0] = sub_at i 1 h.
Proof.
  intros Hi. apply list_eq. intros [|k]; rewrite sub_at_lookup; [|rewrite decide_False by lia; done]. rewrite decide_True, Nat.add_0_r by lia.
  destruct (lookup_lt_is_Some_2 h i Hi) as [x Hx]. cbn [lookup list_lookup]. by rewrite nth_lookup, Hx.
Qed.

(** Bytes stay bytes. *)
Lemma copy_at_bytes h a n x : Forall is_byte h → Forall is_byte x → Forall is_byte (copy_at h a n x).
Proof. intros Hh Hx. unfold copy_at. repeat apply Forall_app_2; auto using Forall_take, Forall_drop. Qed.

Lemma writeOctal_bytes n v f : writeOctal n v = Some f → 0 ≤ v → Forall is_byte f.
Proof.
  unfold writeOctal. destruct (_ <? _)%nat; [done|]. intros [= <-] Hv. repeat apply Forall_app_2.
  - apply Forall_replicate. done.
  - unfold FormatOctal. destruct (Z.ltb_spec v 0); [lia|]. eapply Forall_impl; [apply octal_digits_octal; constructor|]. unfold is_byte. cbn. lia.
  - by repeat constructor.
Qed.

Lemma byte_sum_bound s : Forall is_byte s → 0 ≤ byte_sum s ≤ 255 * Z.of_nat (length s).
Proof. induction 1 as [|c s Hc _ IH]; [done|]. unfold byte_sum, is_byte in *. cbn [foldr length]. lia. Qed.

Lemma header_base_bytes name prefix m s u t typ : Forall is_byte name → Forall is_byte prefix → Forall is_byte m → Forall is_byte s → Forall is_byte u →
  Forall is_byte t → is_byte typ → Forall is_byte (header_base name prefix m s u t typ).
Proof.
  intros. unfold header_base. cbv zeta. repeat apply copy_at_bytes; try assumption; try (by apply Forall_replicate);
    repeat (apply Forall_cons_2; [first [assumption|unfold is_byte; cbn; lia]|]); apply Forall_nil_2.
Qed.

Lemma with_checksum_other h chk b k : length h = 512%nat → (b + k ≤ 148 ∨ 156 ≤ b)%nat → sub_at b k (copy_at h 148 8 chk) = sub_at b k h.
Proof. intros. apply sub_copy_other; lia. Qed.

Lemma checksum_verifies h : length h = 512%nat → Forall is_byte h → sub_at 148 8 h = replicate 8 32 → (length (FormatOctal (byte_sum h)) ≤ 6)%nat →
  tarVerifyChecksum (copy_at h 148 8 (checksum_field (FormatOctal (byte_sum h)))) = true.
Proof.
  intros Hlen Hbytes F5 Hchk. pose proof (byte_sum_bound h Hbytes) as Hsum. rewrite Hlen in Hsum. unfold tarVerifyChecksum.
  rewrite sub_copy_same; [|done|lia|by apply checksum_field_length].
  assert (tarParseOctal (checksum_field (FormatOctal (byte_sum h))) = Some (byte_sum h)) as -> by (apply parse_octal_field; [lia|repeat constructor; auto]).
  apply Z.eqb_eq. generalize (checksum_field (FormatOctal (byte_sum h))). intros chk.
  assert (take 148 (copy_at h 148 8 chk) = take 148 h) as ->.
  { pose proof (with_checksum_other h chk 0 148 Hlen ltac:(lia)) as E. unfold sub_at in E. rewrite !drop_0 in E. exact E. }
  assert (drop 156 (copy_at h 148 8 chk) = drop 156 h) as ->.
  { pose proof (with_checksum_other h chk 156 356 Hlen ltac:(lia)) as E. unfold sub_at in E. rewrite !take_ge in E; [exact E|rewrite length_drop, Hlen; lia|].
    rewrite length_drop, copy_at_length; [lia|exact Hlen|lia]. }
  rewrite (block_parts h Hlen) at 3. rewrite !byte_sum_app, F5. change (byte_sum (replicate 8 32)) with 256. lia.
Qed.

(** What a written header reads as. *)
Record header_reads (stored : bytes) (size mode typ : Z) (block : bytes) : Prop := {
  hr_length : length block = 512%nat;
  hr_checksum : tarVerifyChecksum block = true;
  hr_size : tarParseOctal (sub_at 124 12 block) = Some size;
  hr_mode : tarParseOctal (sub_at 100 8 block) = Some mode;
  hr_typ : nth 156 block 0 = typ;
  hr_name : Forall (λ c, c ≠ 0) stored → raw_name block = stored;
}.

Lemma header_reads_back stored size mode typ block : buildTarHeader stored size mode typ = Some block →
  0 ≤ size ≤ 2 ^ 59 → 0 ≤ mode ≤ 511 → Forall is_byte stored → is_byte typ → header_reads stored size mode typ block.
Proof.
  intros Hb Hsz Hmd Hby Htyp. apply buildTarHeader_inv in Hb as (name & prefix & m & s & u & t & Hsplit & Hm & Hs & Hu & Ht & Hchk & ->).
  apply tarSplitPath_inv in Hsplit as (Hst & Hp & Hn & Hne). replace (Z.land mode 511) with mode in Hm by (change 511 with (Z.ones 9); rewrite Z.land_ones by lia; symmetry; apply Z.mod_small; lia).
  assert (Forall is_byte (header_base name prefix m s u t typ)) as Hbytes.
  { assert (Forall is_byte name ∧ Forall is_byte prefix) as [? ?].
    { rewrite Hst in Hby. destruct (beq prefix []) eqn:E; b2p; [by subst|]. apply Forall_app in Hby as [? Hby]. inversion_clear Hby. done. }
    apply header_base_bytes; try done; eapply writeOctal_bytes; try eassumption; lia. }
  apply writeOctal_inv in Hm as [Hml Hmv]; [|lia..]. apply writeOctal_inv in Hs as [Hsl Hsv]; [|lia..].
  pose proof (header_base_length name prefix m s u t typ) as Hlen.
  destruct (header_base_fields name prefix m s u t typ Hn Hp Hml Hsl) as (F1 & F2 & F3 & F4 & F5 & F6).
  pose proof (checksum_field_length _ Hchk) as Hcl.
  set (h := header_base name prefix m s u t typ) in *. clearbody h. set (chk := FormatOctal (byte_sum h)) in *.
  assert (∀ b k, (b + k ≤ 148 ∨ 156 ≤ b)%nat → sub_at b k (copy_at h 148 8 (checksum_field chk)) = sub_at b k h) as Hsub.
  { intros b k. by apply with_checksum_other. }
  split.
  - apply copy_at_length; [done|lia].
  - by apply checksum_verifies.
  - by rewrite Hsub, F4 by lia.
  - by rewrite Hsub, F3 by lia.
  - assert ([nth 156 (copy_at h 148 8 (checksum_field chk)) 0] = [typ]) as [= ->]; [|done].
    rewrite nth_sub_at by (rewrite copy_at_length; [lia|done|lia]). by rewrite Hsub, F6 by lia.
  - intros Hnz. unfold raw_name, tarFieldString. rewrite !Hsub, F1, F2 by lia. rewrite Hst in Hnz. rewrite Hst. destruct (beq prefix []) eqn:E; b2p.
    + subst prefix. rewrite (until_nul_pad []) by constructor. cbn [beq]. rewrite beq_refl. by apply until_nul_pad.
    + apply Forall_app in Hnz as [Hz1 Hz2]. inversion_clear Hz2. rewrite !until_nul_pad by done. by rewrite (proj2 (beq_false prefix []) E).
Qed.

Lemma buildTarHeader_some stored size mode typ : is_Some (tarSplitPath stored) → Forall is_byte stored → is_byte typ →
  0 ≤ size < 8 ^ 11 → 0 ≤ mode ≤ 511 → is_Some (buildTarHeader stored size mode typ).
Proof.
  intros [[name prefix] Hs] Hby Htyp Hsz Hmd. unfold buildTarHeader. rewrite Hs. cbn [mbind option_bind].
  apply tarSplitPath_inv in Hs as (Hst & Hp & Hn & _). assert (0 ≤ Z.land mode 511 < 512) as Hl by (change 511 with (Z.ones 9); rewrite Z.land_ones by lia; change (2 ^ 9) with 512; zlia).
  destruct (writeOctal_some 8 (Z.land mode 511)) as [m Hm]; [change (8 ^ Z.of_nat (8 - 1)) with 2097152; lia|lia|].
  destruct (writeOctal_some 12 size) as [s Hsw]; [done|lia|]. destruct (writeOctal_some 8 0) as [u Hu]; [done|lia|]. destruct (writeOctal_some 12 0) as [t Ht]; [done|lia|].
  rewrite Hm, Hsw, Hu, Ht. cbn [mbind option_bind]. cbv zeta.
  assert (Forall is_byte name ∧ Forall is_byte prefix) as [? ?].
  { rewrite Hst in Hby. destruct (beq prefix []) eqn:E; b2p; [by subst|]. apply Forall_app in Hby as [? Hby]. inversion_clear Hby. done. }
  assert (Forall is_byte (header_base name prefix m s u t typ)) as Hb by (apply header_base_bytes; try done; eapply writeOctal_bytes; try eassumption; lia).
  apply byte_sum_bound in Hb. rewrite header_base_length in Hb. generalize dependent (header_base name prefix m s u t typ). intros h Hb.
  pose proof (FormatOctal_length (byte_sum h) 6 ltac:(change (8 ^ Z.of_nat 6) with 262144; lia) ltac:(lia)).
  destruct (Nat.ltb_spec 6 (length (FormatOctal (byte_sum h)))); [lia|]. by eexists.
Qed.

(** ** Pax records *)

(** The digits settle, and the length reads back, for every path length: the
    lengths are few enough to look at each. *)
Definition pax_length_ok (len : Z) : bool :=
  match settle_digits 4 len 1 with
  | None => false
  | Some total =>
    (total <=? maxPAXRecordBytes) && (Z.of_nat (length (FormatInt total)) + 7 + len =? total) &&
    match declared_length (FormatInt total ++ [32]) 0 0 with
    | Some (d, s) => (d =? total) && (s =? length (FormatInt total))%nat && negb (s =? 0)%nat
    | None => false
    end
  end.

Lemma pax_lengths_ok len : 1 ≤ len ≤ maxMemberPathBytes → pax_length_ok len = true.
Proof.
  intros H. assert (forallb pax_length_ok (Z.of_nat <$> seq 1 511) = true) as Hall by (vm_compute; reflexivity).
  rewrite forallb_forall in Hall. apply Hall, list_elem_of_In, list_elem_of_fmap. exists (Z.to_nat len). unfold maxMemberPathBytes in H.
  split; [lia|]. apply elem_of_seq. lia.
Qed.

Lemma declared_length_stop a r : ∀ space d, declared_length (a ++ 32 :: r) space d = declared_length (a ++ [32]) space d.
Proof.
  induction a as [|b a IH]; intros space d; cbn [app declared_length]; [done|]. destruct (b =? 32); [done|]. destruct (_ || _ || _); [done|].
  destruct (_ <? _); [done|]. apply IH.
Qed.

Lemma pax_record_reads_back path : path ≠ [] → Z.of_nat (length path) ≤ maxMemberPathBytes → ∃ record,
  paxBuildPathRecord path = Some record ∧ paxParsePathRecord record = Some path ∧ (0 < length record ≤ 521)%nat.
Proof.
  intros Hne Hl. assert (1 ≤ Z.of_nat (length path)) as H1 by (destruct path; [done|cbn; lia]).
  pose proof (pax_lengths_ok _ (conj H1 Hl)) as Hok. unfold pax_length_ok in Hok.
  destruct (settle_digits 4 (Z.of_nat (length path)) 1) as [total|] eqn:Es; [|done]. apply andb_true_iff in Hok as [Hok Hd]. b2p.
  destruct (declared_length (FormatInt total ++ [32]) 0 0) as [[d s]|] eqn:Ed; [|done]. apply andb_true_iff in Hd as [Hd Hs0]. apply andb_true_iff in Hd as [Hd Hs].
  b2p. apply Nat.eqb_eq in Hs. apply Nat.eqb_neq in Hs0. subst d s. set (ds := FormatInt total) in *.
  assert (length (ds ++ bs " path=" ++ path ++ [10]) = Z.to_nat total) as Hlen.
  { rewrite !length_app. change (length (bs " path=")) with 6%nat. cbn [length]. lia. }
  assert (paxBuildPathRecord path = Some (ds ++ bs " path=" ++ path ++ [10])) as Hb.
  { unfold paxBuildPathRecord. rewrite bool_decide_false by done. cbn [orb]. destruct (Z.ltb_spec maxMemberPathBytes (Z.of_nat (length path))); [lia|].
    rewrite Es. cbn [mbind option_bind]. destruct (Z.ltb_spec maxPAXRecordBytes total); [lia|]. fold ds. cbv zeta. rewrite Hlen.
    destruct (Z.eqb_spec (Z.of_nat (Z.to_nat total)) total); [done|lia]. }
  exists (ds ++ bs " path=" ++ path ++ [10]). split; [exact Hb|]. unfold maxPAXRecordBytes in *. split; [|lia].
  unfold paxParsePathRecord. assert (declared_length (ds ++ bs " path=" ++ path ++ [10]) 0 0 = Some (total, length ds)) as ->.
  { change (bs " path=" ++ path ++ [10]) with (32 :: bs "path=" ++ path ++ [10]). by rewrite declared_length_stop. }
  cbn [mbind option_bind].
  rewrite Hlen. assert (sub_at (length ds) 6 (ds ++ bs " path=" ++ path ++ [10]) = bs " path=") as -> by (unfold sub_at; by rewrite drop_app_length).
  assert (sub_at (length ds + 6) (Z.to_nat total - 1 - (length ds + 6)) (ds ++ bs " path=" ++ path ++ [10]) = path) as ->.
  { unfold sub_at. rewrite <- drop_drop, drop_app_length. change (drop 6 (bs " path=" ++ path ++ [10])) with (path ++ [10]). apply take_app_length'. lia. }
  rewrite !app_assoc, last_snoc, <- !app_assoc. rewrite (bool_decide_true (Some 10 = Some 10)) by done. rewrite beq_refl.
  destruct (Nat.eqb_spec (length ds) 0); [done|]. destruct (Nat.ltb_spec (Z.to_nat total) (length ds + 6 + 1)); [lia|].
  destruct (Z.eqb_spec total (Z.of_nat (Z.to_nat total))); [|lia]. cbn [orb negb]. rewrite bool_decide_false by done. cbn [orb].
  destruct (Z.ltb_spec maxMemberPathBytes (Z.of_nat (length path))); [lia|]. rewrite Hb. cbn [mbind option_bind]. by rewrite beq_refl.
Qed.

(** ** Admitted paths *)

Lemma admitted_bytes seg rt : componentForbiddenUnder seg rt = false → Forall (λ c, admitted_byte rt c = true) seg.
Proof.
  unfold componentForbiddenUnder. destruct (bool_decide (seg = []) || _); [done|]. destruct (beq seg [46] || _); [done|].
  destruct (bool_decide (last seg = Some 46) || _); [done|]. destruct (rt && _); [done|]. intros H. apply negb_false_iff in H.
  rewrite forallb_forall in H. apply Forall_forall. intros c Hc%list_elem_of_In. by apply H.
Qed.

Lemma admitted_byte_range rt c : admitted_byte rt c = true → 32 ≤ c < 123 ∧ c ≠ 92 ∧ c ≠ 47.
Proof.
  unfold admitted_byte, between. intros H. repeat (apply orb_true_iff in H as [H|H]; [b2p; lia|]). apply andb_true_iff in H as [_ H].
  repeat (apply orb_true_iff in H as [H|H]; [b2p; lia|]). b2p. lia.
Qed.

(** A property of the bytes of all components holds of the path's, but for the slashes. *)
Lemma split_slash_bytes (Q : Z → Prop) p : Forall (Forall Q) (split_slash p) → Forall (λ c, c = 47 ∨ Q c) p.
Proof.
  induction p as [|c p IH]; [constructor|]. rewrite split_slash_cons. destruct (Z.eqb_spec c 47) as [->|].
  - intros H. inversion_clear H. constructor; [by left|auto].
  - pose proof (split_slash_nonempty p). destruct (split_slash p) as [|seg rest] eqn:E; [done|]. intros H0. inversion H0 as [|? ? Hs Hr]; subst. inversion Hs; subst.
    constructor; [by right|]. apply IH. by constructor.
Qed.

Lemma split_slash_snoc p : split_slash (p ++ [47]) = split_slash p ++ [[]].
Proof.
  induction p as [|c p IH]; [done|]. cbn [app]. rewrite !split_slash_cons, IH. destruct (c =? 47); [done|].
  pose proof (split_slash_nonempty p). by destruct (split_slash p).
Qed.

Lemma split_slash_ends p : Forall (λ seg, seg ≠ []) (split_slash p) → last p ≠ Some 47 ∧ head p ≠ Some 47 ∧ p ≠ [].
Proof.
  intros H. split; [|split].
  - intros [q ->]%last_Some. rewrite split_slash_snoc in H. apply Forall_app in H as [_ H]. by inversion H.
  - destruct p as [|c p]; [done|]. intros [= ->]. by inversion H.
  - intros ->. by inversion H.
Qed.

Lemma drop_slashes_id r : head r ≠ Some 47 → drop_slashes r = r.
Proof. destruct r as [|c r]; [done|]. cbn. intros H. destruct (Z.eqb_spec c 47) as [->|]; [done|done]. Qed.

Lemma trim_slashes_id p : last p ≠ Some 47 → trim_slashes p = p.
Proof. intros H. unfold trim_slashes. rewrite drop_slashes_id, reverse_involutive; [done|]. by rewrite <- last_reverse, reverse_involutive. Qed.

Lemma trim_slashes_snoc p : last p ≠ Some 47 → trim_slashes (p ++ [47]) = p.
Proof. intros H. rewrite <- (trim_slashes_id p H) at 2. unfold trim_slashes. by rewrite reverse_snoc. Qed.

(** A path whose components are admitted, as stored, normalizes to itself. *)
Lemma normalize_admitted p slash top rt first : Forall (λ seg, componentForbiddenUnder seg rt = false) (split_slash p) →
  Z.of_nat (length (p ++ slash)) ≤ maxMemberPathBytes → slash = [] ∨ slash = [47] → head (split_slash p) = Some first → top = [] ∨ top = first →
  normalizeMemberPathUnder (p ++ slash) top rt = Some (p, first).
Proof.
  intros Hc Hl Hslash Hh Htop. assert (Forall (λ seg, seg ≠ []) (split_slash p)) as Hne.
  { eapply Forall_impl; [exact Hc|]. intros seg. apply component_nonempty. }
  destruct (split_slash_ends p Hne) as (Hlast & Hhead & Hnil).
  assert (trim_slashes (p ++ slash) = p) as Htrim by (destruct Hslash as [-> | ->]; [rewrite app_nil_r; by apply trim_slashes_id|by apply trim_slashes_snoc]).
  assert (Forall (λ c, c = 47 ∨ admitted_byte rt c = true) p) as Hby.
  { apply split_slash_bytes. eapply Forall_impl; [exact Hc|]. intros seg. apply admitted_bytes. }
  destruct p as [|c p]; [done|]. change ((c :: p) ++ slash) with (c :: p ++ slash) in *. unfold normalizeMemberPathUnder.
  destruct (Z.ltb_spec maxMemberPathBytes (Z.of_nat (length (c :: p ++ slash)))); [lia|]. rewrite Htrim.
  assert ((c =? 47) || (c =? 92) = false) as ->.
  { inversion Hby as [|? ? [->|Hb] _]; subst; [done|]. apply admitted_byte_range in Hb. destruct (Z.eqb_spec c 47), (Z.eqb_spec c 92); lia || done. }
  destruct (split_slash (c :: p)) as [|f rest] eqn:Es; [done|]. injection Hh as ->. cbn [beq]. rewrite (proj2 (beq_false (c :: p) []) Hnil).
  assert (existsb (λ seg, componentForbiddenUnder seg rt) (first :: rest) = false) as ->.
  { apply not_true_iff_false. rewrite existsb_exists. intros (seg & Hin%list_elem_of_In & Hb). rewrite Forall_forall in Hc. specialize (Hc seg Hin). cbn in Hc. congruence. }
  destruct Htop as [-> | ->]; [done|]. destruct (beq first []) eqn:E; b2p; [by subst|]. by rewrite beq_refl.
Qed.

(** ** Reading a text *)

(** The stream [src] with [read] behind it and [rest] ahead. *)
Record reading (src : gzipStream) (read rest : bytes) (g : gzipStream) : Prop := {
  rd_out : g_out g = rest;
  rd_end : g_end g = g_end src;
  rd_more : g_more g = g_more src;
  rd_limits : g_limits g = g_limits src;
  rd_crc : g_crc g = crc32_Update 0 read;
  rd_isize : g_isize g = u32 (Z.of_nat (length read));
  rd_total : g_total g = Z.of_nat (length read);
}.

Lemma crc32_app a b : crc32_Update (crc32_Update 0 a) b = crc32_Update 0 (a ++ b).
Proof. unfold crc32_Update. by rewrite foldl_app, Z.lxor_assoc, Z.lxor_nilpotent, Z.lxor_0_r. Qed.

Lemma reading_step src read buf rest g n : reading src read (buf ++ rest) g → n = Z.of_nat (length buf) →
  Z.of_nat (length (read ++ buf)) ≤ tarBytes (g_limits src) → ∃ g', readExact g n = Ok (buf, g') ∧ reading src (read ++ buf) rest g'.
Proof.
  intros [R1 R2 R3 R4 R5 R6 R7] -> Hb. rewrite length_app in Hb. unfold readExact. rewrite R1, R4, R5, R6, R7, Nat2Z.id.
  destruct (Z.ltb_spec (tarBytes (g_limits src)) (Z.of_nat (length read) + Z.of_nat (length buf))); [lia|].
  rewrite length_app. destruct (Nat.ltb_spec (length buf + length rest) (length buf)); [lia|]. rewrite take_app_length, drop_app_length.
  eexists. split; [reflexivity|]. split; cbn; rewrite ?length_app; try done.
  - apply crc32_app.
  - unfold u32. rewrite Z.add_mod_idemp_l by done. f_equal. lia.
  - lia.
Qed.

(** ** One member *)

Definition clear_pending (w : tarWalker) : tarWalker :=
  mkWalker (w_gz w) (w_seen w) (w_topLevel w) (w_previous w) [] (w_headers w) (w_payload w) (w_limits w).

Lemma not_zero_block block : nth 156 block 0 ≠ 0 → isZeroBlock block = false.
Proof.
  intros H. destruct (isZeroBlock block) eqn:E; [|done]. apply zero_block in E. rewrite E in H. destruct H. rewrite nth_lookup.
  destruct (replicate (length block) 0 !! 156%nat) eqn:El; [|done]. by apply lookup_replicate in El as [-> _].
Qed.

Lemma entry_kind_facts lim pre e : entry_ok lim pre e → let m := e.1 in
  m_isDir m = (m_typ m =? tarTypeDirectory) ∧ tarModeIsCanonical (m_typ m) (m_mode m) = true ∧ m_typ m ≠ tarTypeRegularLegacy ∧ m_typ m ≠ tarTypePAXLocal ∧
  is_byte (m_typ m) ∧ 0 ≤ m_mode m ≤ 511 ∧ (m_typ m = tarTypeDirectory → m_size m = 0) ∧ 0 ≤ m_size m ∧ m_typ m ≠ 0.
Proof.
  intros He. pose proof (eo_data _ _ _ He). cbv zeta. destruct (eo_kind _ _ _ He) as [(Hd & Ht & Hm & Hs)|(Hd & Ht & Hm)]; unfold entry_isDir in Hd.
  - rewrite Hd, Ht, Hm, Hs. unfold is_byte. repeat split; try done.
  - rewrite Hd, Ht. destruct Hm as [-> | ->]; unfold is_byte; repeat split; try done; lia.
Qed.

Lemma entry_path_bytes lim pre e : entry_ok lim pre e → Forall is_byte (entry_path e) ∧ Forall (λ c, c ≠ 0) (entry_path e) ∧ entry_path e ≠ [].
Proof.
  intros He. assert (Forall (λ c, c = 47 ∨ admitted_byte (runtimeNames lim) c = true) (entry_path e)) as H.
  { apply split_slash_bytes. eapply Forall_impl; [apply (eo_components _ _ _ He)|]. intros seg. apply admitted_bytes. }
  split; [|split].
  - eapply Forall_impl; [exact H|]. intros c [->|Hc%admitted_byte_range]; unfold is_byte; lia.
  - eapply Forall_impl; [exact H|]. intros c [->|Hc%admitted_byte_range]; lia.
  - apply split_slash_ends. eapply Forall_impl; [apply (eo_components _ _ _ He)|]. intros seg. apply component_nonempty.
Qed.

(** How the header of an entry stands in the stream: in its own name, or after a
    pax record with the placeholder's. *)
Definition header_stands (w : tarWalker) (e : entry) (stored block : bytes) : Prop :=
  buildTarHeader stored (m_size e.1) (m_mode e.1) (m_typ e.1) = Some block ∧
  ((w_pending w = [] ∧ stored = tarStoredPath (entry_path e) (m_typ e.1)) ∨
   (w_pending w = entry_path e ∧ stored = paxMemberPlaceholder ∧ tarPathFitsUSTAR (entry_path e) (m_typ e.1) = false)).

Lemma stored_bytes lim pre w e stored block : entry_ok lim pre e → header_stands w e stored block → Forall is_byte stored ∧ Forall (λ c, c ≠ 0) stored ∧ stored ≠ [].
Proof.
  intros He [_ H]. destruct (entry_path_bytes lim pre e He) as (H1 & H2 & H3). destruct H as [[_ ->]|(_ & -> & _)].
  - unfold tarStoredPath. destruct (_ =? _); [|done]. split; [apply Forall_app_2; [done|]; by constructor|]. split; [apply Forall_app_2; [done|]; by constructor|]. by destruct (entry_path e).
  - split; [|split; [|done]]; unfold paxMemberPlaceholder; cbn; repeat (apply Forall_cons_2; [unfold is_byte; lia|]); apply Forall_nil_2.
Qed.

(** The path resolves to the entry's, with the top level of its tree. *)
Lemma resolve_entry lim pre w e stored block : walked lim pre (clear_pending w) → entry_ok lim pre e → header_stands w e stored block →
  ∃ top, head (split_slash (entry_path e)) = Some top ∧ (w_topLevel w = [] ∨ w_topLevel w = top) ∧ resolve_path w stored (m_typ e.1) = Ok (entry_path e, stored, top).
Proof.
  intros Hw He [Hb Hst]. destruct (entry_path_bytes lim pre e He) as (_ & _ & Hne).
  destruct (split_slash (entry_path e)) as [|top rest] eqn:Es; [by destruct (split_slash_nonempty (entry_path e))|]. exists top. split; [done|].
  assert (w_topLevel w = [] ∨ w_topLevel w = top) as Htop.
  { pose proof (wk_top _ _ _ Hw) as Ht. destruct pre as [|r pre]; [by left|]. right. pose proof (eo_top _ _ _ He r eq_refl) as Hr. rewrite Es in Hr. destruct Ht as [Ht _].
    rewrite Ht in Hr. by injection Hr. }
  split; [done|]. pose proof (wk_limits _ _ _ Hw) as Hlim. cbn in Hlim. unfold resolve_path. rewrite Hlim.
  assert (head (split_slash (entry_path e)) = Some top) as Hh by (by rewrite Es). pose proof (eo_components _ _ _ He) as Hc.
  destruct Hst as [[-> ->]|(-> & -> & Hfit)].
  - cbn [beq]. rewrite beq_refl. cbn [negb]. unfold tarStoredPath. assert (Z.of_nat (length (tarStoredPath (entry_path e) (m_typ e.1))) ≤ maxMemberPathBytes) as Hlen.
    { apply buildTarHeader_inv in Hb as (name & prefix & ? & ? & ? & ? & Hs & _). unfold tarSplitPath in Hs. destruct (_ || _) eqn:E; [done|]. apply orb_false_iff in E as [_ E]. by b2p. }
    unfold tarStoredPath in *. destruct (m_typ e.1 =? tarTypeDirectory).
    + rewrite (normalize_admitted _ [47] _ _ top Hc Hlen (or_intror eq_refl) Hh Htop). cbn [of_option mbind result_bind]. by rewrite beq_refl.
    + rewrite <- (app_nil_r (entry_path e)) in Hlen. pose proof (normalize_admitted _ [] (w_topLevel w) _ top Hc Hlen (or_introl eq_refl) Hh Htop) as Hn.
      rewrite app_nil_r in Hn. rewrite Hn. cbn [of_option mbind result_bind]. by rewrite beq_refl.
  - rewrite (proj2 (beq_false _ _) Hne), beq_refl. cbn [negb]. pose proof (eo_length _ _ _ He) as Hlen. rewrite <- (app_nil_r (entry_path e)) in Hlen.
    pose proof (normalize_admitted _ [] (w_topLevel w) _ top Hc Hlen (or_introl eq_refl) Hh Htop) as Hn. rewrite app_nil_r in Hn. rewrite Hn.
    cbn [of_option mbind result_bind]. by rewrite Hfit.
Qed.

Lemma admitted_walker w w2 m : admitted w m → w_seen w2 = w_seen w → w_limits w2 = w_limits w → w_previous w2 = w_previous w → w_payload w2 = w_payload w → admitted w2 m.
Proof.
  intros [A1 A2 A3 A4 A5 A6] E1 E2 E3 E4. unfold parentExists, leading in *. split; unfold parentExists, leading; rewrite ?E1, ?E2, ?E3, ?E4; assumption.
Qed.

(** The pass that reads the header of an entry delivers it. *)
Lemma pass_member f lim pre w e stored block rest src read : walked lim pre (clear_pending w) → entry_ok lim pre e → header_stands w e stored block →
  reading src read (block ++ rest) (w_gz w) → Z.of_nat (length (read ++ block)) ≤ tarBytes (g_limits src) → w_headers w + 1 ≤ nonEndHeaders lim → m_size e.1 ≤ 2 ^ 59 →
  ∃ w', next_pass (S f) w = Ok (Some e.1, w') ∧ walked lim (pre ++ [e]) w' ∧ reading src (read ++ block) rest (w_gz w') ∧ w_headers w' = w_headers w + 1.
Proof.
  intros Hw He Hst Hrd Hb Hh Hsz. destruct (entry_kind_facts lim pre e He) as (K1 & K2 & K3 & K4 & K5 & K6 & K7 & K8 & K9).
  destruct (stored_bytes lim pre w e stored block He Hst) as (B1 & B2 & B3). destruct (resolve_entry lim pre w e stored block Hw He Hst) as (top & Htop & Hprev & Hres).
  pose proof Hst as [Hbuild _]. destruct (header_reads_back _ _ _ _ _ Hbuild ltac:(lia) K6 B1 K5) as [R1 R2 R3 R4 R5 R6].
  destruct (reading_step src read block rest (w_gz w) tarBlockBytes Hrd ltac:(by rewrite R1) Hb) as (gz & Hread & Hrd').
  pose proof (wk_limits _ _ _ Hw) as Hlim. cbn in Hlim. cbn [next_pass]. rewrite Hread. cbn [mbind result_bind].
  rewrite not_zero_block by congruence. rewrite R2. cbn [negb]. cbn [count_header set_gz w_limits w_headers]. rewrite Hlim.
  destruct (Z.ltb_spec (nonEndHeaders lim) (w_headers w + 1)); [lia|]. rewrite (R6 B2), (proj2 (beq_false stored []) B3), R3, R4, R5. cbn [of_option mbind result_bind].
  destruct (Z.eqb_spec (m_typ e.1) tarTypePAXLocal); [done|]. rewrite K2. destruct (Z.eqb_spec (m_typ e.1) tarTypeRegularLegacy); [done|]. cbn [negb orb].
  assert ((m_typ e.1 =? tarTypeDirectory) && negb (m_size e.1 =? 0) = false) as ->.
  { destruct (Z.eqb_spec (m_typ e.1) tarTypeDirectory) as [E|]; [|done]. by rewrite (K7 E). }
  unfold resolveMember. change (resolve_path (count_header (set_gz w gz)) stored (m_typ e.1)) with (resolve_path w stored (m_typ e.1)). rewrite Hres. cbn [mbind result_bind].
  rewrite bool_decide_true by exact Hbuild. cbn [negb]. cbn [mbind result_bind mret result_ret].
  assert (mkMember (entry_path e) (m_size e.1) (m_mode e.1) (m_typ e.1) (m_typ e.1 =? tarTypeDirectory) = e.1) as -> by (rewrite <- K1; by destruct e as [[]]).
  set (w2 := mkWalker _ _ _ _ _ _ _ _).
  assert (admitted w2 e.1) as Hadm.
  { apply admitted_walker with (clear_pending w); [|done..]. apply (admitted_iff lim pre _ e Hw). by destruct He. }
  rewrite (proj2 (admitMember_ok w2 e.1 _) (conj Hadm eq_refl)). cbn [mbind result_bind]. eexists. split; [reflexivity|]. split; [|split; [exact Hrd'|done]].
  destruct (delivered_entry lim pre (clear_pending w) e.1 e.2 (mkWalker gz (w_seen w ++ [(m_path e.1, m_isDir e.1)]) top
    (if leading w2 e.1 then w_previous w else m_path e.1) [] (w_headers w + 1) (if m_isDir e.1 then w_payload w else w_payload w + m_size e.1) (w_limits w)) Hw) as [_ Hw'].
  - split; cbn [w_seen w_topLevel w_previous w_pending w_limits w_payload clear_pending]; try done.
    + split; [done|]. intros E. apply K7. rewrite K1 in E. by b2p.
    + rewrite Hlim. split; [apply (eo_components _ _ _ He)|]. apply (entry_path_bytes lim pre e He).
    + apply (admitted_iff lim pre _ e Hw). by destruct He.
    + apply (eo_length _ _ _ He).
  - apply (eo_data _ _ _ He).
  - rewrite <- surjective_pairing in Hw'. exact Hw'.
Qed.

(** The pax header and its record are taken in. *)
Lemma consume_pax w path record block rest src read : w_pending w = [] → path ≠ [] → Z.of_nat (length path) ≤ maxMemberPathBytes → paxBuildPathRecord path = Some record →
  buildTarHeader paxHeaderPath (Z.of_nat (length record)) tarModeRegular tarTypePAXLocal = Some block →
  reading src read (record ++ zero_pad (Z.of_nat (length record)) ++ rest) (w_gz w) →
  Z.of_nat (length (read ++ record ++ zero_pad (Z.of_nat (length record)))) ≤ tarBytes (g_limits src) →
  ∃ gz, consumePAXHeader w block paxHeaderPath (Z.of_nat (length record)) = Ok (mkWalker gz (w_seen w) (w_topLevel w) (w_previous w) path (w_headers w) (w_payload w) (w_limits w)) ∧
    reading src (read ++ record ++ zero_pad (Z.of_nat (length record))) rest gz.
Proof.
  intros Hp Hne Hl Hrec Hblock Hrd Hb. destruct (pax_record_reads_back _ Hne Hl) as (record' & Er' & Hparse & Hlen). assert (record' = record) as -> by congruence.
  set (size := Z.of_nat (length record)) in *. assert (0 < size ≤ 521) as Hs by lia. pose proof (padded_pad size ltac:(lia)) as Hpad. unfold size in Hpad at 2. rewrite Nat2Z.id in Hpad.
  unfold consumePAXHeader. rewrite Hp, !beq_refl. cbn [negb orb]. rewrite bool_decide_true by exact Hblock. cbn [negb].
  destruct (Z.leb_spec size 0); [lia|]. destruct (Z.ltb_spec maxPAXPaddedBytes (padded_size size)) as [Hover|_]; [unfold maxPAXPaddedBytes, padded_size, tarBlockBytes in Hover; zlia|].
  rewrite app_assoc in Hrd. destruct (reading_step src read (record ++ zero_pad size) rest (w_gz w) (padded_size size) Hrd) as (gz & Hread & Hrd'); [|done|].
  { rewrite length_app, <- Hpad, Z2Nat.id; [done|]. unfold padded_size, tarBlockBytes. zlia. }
  rewrite Hread. cbn [mbind result_bind]. assert (Z.to_nat size = length record) as Hn by lia. rewrite Hn, drop_app_length, take_app_length.
  assert (isZeroBlock (zero_pad size) = true) as ->.
  { unfold zero_pad. destruct (_ =? 0); [done|]. generalize (Z.to_nat (tarBlockBytes - size mod tarBlockBytes)). induction n; [done|]. exact IHn. }
  cbn [negb]. rewrite Hparse. exists gz. done.
Qed.

(** The bytes of the whole header, with a pax record when the path needs one. *)
Lemma next_accepts lim pre w e h rest src read : walked lim pre w → entry_ok lim pre e →
  writeTarMemberHeader (entry_path e) (m_size e.1) (m_mode e.1) (m_typ e.1) = Some h →
  reading src read (h ++ rest) (w_gz w) → Z.of_nat (length (read ++ h)) ≤ tarBytes (g_limits src) → w_headers w + 2 ≤ nonEndHeaders lim → m_size e.1 ≤ 2 ^ 59 →
  ∃ w', next w = Ok (Some e.1, w') ∧ walked lim (pre ++ [e]) w' ∧ reading src (read ++ h) rest (w_gz w') ∧ w_headers w' ≤ w_headers w + 2.
Proof.
  intros Hw He Hh Hrd Hb Hhd Hsz. pose proof (wk_pending _ _ _ Hw) as Hp. unfold next, writeTarMemberHeader in *.
  destruct (tarPathFitsUSTAR (entry_path e) (m_typ e.1)) eqn:Ef.
  { destruct (pass_member 2 lim pre w e (tarStoredPath (entry_path e) (m_typ e.1)) h rest src read) as (w' & H1 & H2 & H3 & H4); try done; try lia.
    - destruct Hw. by split.
    - split; [exact Hh|]. by left.
    - exists w'. split; [done|]. split; [done|]. split; [done|]. lia. }
  destruct (paxBuildPathRecord (entry_path e)) as [record|] eqn:Er; [|done]. cbn [mbind option_bind] in Hh.
  destruct (buildTarHeader paxHeaderPath _ _ _) as [paxHdr|] eqn:Ex; [|done]. cbn [mbind option_bind] in Hh.
  destruct (buildTarHeader paxMemberPlaceholder _ _ _) as [hdr|] eqn:Em; [|done]. injection Hh as <-.
  destruct (entry_path_bytes lim pre e He) as (_ & _ & Hne). destruct (pax_record_reads_back _ Hne (eo_length _ _ _ He)) as (record' & Er' & Hparse & Hlen).
  assert (record' = record) as -> by congruence. clear Er'.
  assert (Forall is_byte paxHeaderPath ∧ Forall (λ c, c ≠ 0) paxHeaderPath) as [X1 X2].
  { unfold paxHeaderPath. cbn. split; repeat (apply Forall_cons_2; [unfold is_byte; lia|]); apply Forall_nil_2. }
  destruct (header_reads_back _ _ _ _ _ Ex ltac:(lia) ltac:(by unfold tarModeRegular) X1 ltac:(by unfold is_byte)) as [R1 R2 R3 R4 R5 R6].
  set (pad := zero_pad (Z.of_nat (length record))) in *. rewrite <- !app_assoc in Hrd. rewrite !length_app in Hb.
  destruct (reading_step src read paxHdr _ (w_gz w) tarBlockBytes Hrd) as (gz & Hread & Hrd1); [by rewrite R1|rewrite length_app; lia|].
  destruct (consume_pax (count_header (set_gz w gz)) (entry_path e) record paxHdr (hdr ++ rest) src (read ++ paxHdr)) as (gz2 & Hcons & Hrd2); try done.
  { apply (eo_length _ _ _ He). } { fold pad. rewrite !length_app. lia. }
  set (w1 := mkWalker gz2 (w_seen w) (w_topLevel w) (w_previous w) (entry_path e) (w_headers w + 1) (w_payload w) (w_limits w)).
  assert (walked lim pre (clear_pending w1)) as Hw1 by (destruct Hw; by split).
  assert (header_stands w1 e paxMemberPlaceholder hdr) as Hst by (split; [exact Em|]; by right).
  destruct (pass_member 1 lim pre w1 e paxMemberPlaceholder hdr rest src _ Hw1 He Hst Hrd2) as (w' & H1 & H2 & H3 & H4); [rewrite !length_app; fold pad; lia|cbn; lia|done|].
  exists w'. split; [|split; [done|split; [by rewrite <- !app_assoc in H3|cbn in H4; lia]]].
  rewrite <- H1. clear H1. generalize 2%nat. intros f2. cbn [next_pass]. rewrite Hread. cbn [mbind result_bind]. rewrite not_zero_block by (by rewrite R5). rewrite R2. cbn [negb].
  cbn [count_header set_gz w_limits w_headers]. rewrite (wk_limits _ _ _ Hw). destruct (Z.ltb_spec (nonEndHeaders lim) (w_headers w + 1)); [lia|].
  rewrite (R6 X2), R3, R4, R5. change (beq paxHeaderPath []) with false. cbn [of_option mbind result_bind]. rewrite Z.eqb_refl.
  rewrite Hcons. cbn [mbind result_bind]. reflexivity.
Qed.

(** ** Payloads and the end *)

Lemma read_chunks_accepts fuel : ∀ src read data rest g acc, reading src read (data ++ rest) g →
  Z.of_nat (length (read ++ data)) ≤ tarBytes (g_limits src) → Z.of_nat (length data) ≤ 8192 * (Z.of_nat fuel - 1) →
  ∃ g', read_chunks fuel g (Z.of_nat (length data)) acc = Ok (acc ++ data, g') ∧ reading src (read ++ data) rest g'.
Proof.
  induction fuel as [|f IH]; intros src read data rest g acc Hrd Hb Hf; [lia|]. cbn [read_chunks].
  destruct (Z.leb_spec (Z.of_nat (length data)) 0).
  { destruct data; [|cbn in *; lia]. exists g. rewrite !app_nil_r. done. }
  remember (Z.min 8192 (Z.of_nat (length data))) as n eqn:En. rewrite <- (take_drop (Z.to_nat n) data) in Hrd. rewrite <- app_assoc in Hrd.
  assert (length (take (Z.to_nat n) data) = Z.to_nat n) as Hn by (rewrite length_take; lia). rewrite length_app in Hb.
  destruct (reading_step src read _ _ g n Hrd) as (g1 & Hread & Hrd1); [lia|rewrite length_app; lia|]. rewrite Hread. cbn [mbind result_bind].
  destruct (IH src _ (drop (Z.to_nat n) data) rest g1 (acc ++ take (Z.to_nat n) data) Hrd1) as (g' & Hc & Hrd'); [rewrite !length_app, length_drop; lia|rewrite length_drop; lia|].
  exists g'. rewrite <- !app_assoc, take_drop in *. split; [|done]. rewrite <- Hc. f_equal. rewrite length_drop. lia.
Qed.

Lemma readPayload_accepts w m data rest src read : reading src read (data ++ zero_pad (m_size m) ++ rest) (w_gz w) → Z.of_nat (length data) = m_size m →
  Z.of_nat (length (read ++ data ++ zero_pad (m_size m))) ≤ tarBytes (g_limits src) →
  ∃ gz, readPayload w m = Ok (data, set_gz w gz) ∧ reading src (read ++ data ++ zero_pad (m_size m)) rest gz.
Proof.
  intros Hrd Hl Hb. unfold readPayload. rewrite !length_app in Hb.
  destruct (read_chunks_accepts (Z.to_nat (m_size m / 8192) + 2) src read data _ (w_gz w) [] Hrd) as (g1 & Hc & Hrd1); [rewrite length_app; lia|zlia|].
  rewrite Hl in Hc. rewrite Hc. cbn [mbind result_bind app]. unfold zero_pad in *. destruct (Z.eqb_spec (m_size m mod tarBlockBytes) 0) as [E|E].
  - exists g1. rewrite app_nil_r. done.
  - set (pad := replicate _ 0) in *. destruct (reading_step src _ pad rest g1 (tarBlockBytes - m_size m mod tarBlockBytes) Hrd1) as (g2 & Hread & Hrd2).
    { unfold pad. rewrite length_replicate. unfold tarBlockBytes. zlia. } { rewrite !length_app. lia. }
    rewrite Hread. cbn [mbind result_bind]. assert (isZeroBlock pad = true) as ->.
    { unfold pad. generalize (Z.to_nat (tarBlockBytes - m_size m mod tarBlockBytes)). induction n; [done|]. exact IHn. }
    exists g2. rewrite <- app_assoc in Hrd2. done.
Qed.

Lemma next_ends w rest src read : w_pending w = [] → w_topLevel w ≠ [] → reading src read (replicate 1024 0 ++ rest) (w_gz w) →
  Z.of_nat (length read) + 1024 ≤ tarBytes (g_limits src) →
  ∃ w', next w = Ok (None, w') ∧ reading src (read ++ replicate 1024 0) rest (w_gz w').
Proof.
  intros Hp Ht Hrd Hb. change 1024%nat with (512 + 512)%nat in *. rewrite replicate_add, <- app_assoc in Hrd.
  assert (isZeroBlock (replicate 512 0) = true) as Hz by (vm_compute; reflexivity).
  assert (length (replicate 512 0) = 512%nat) as Hl by apply length_replicate.
  destruct (reading_step src read _ _ (w_gz w) tarBlockBytes Hrd) as (g1 & H1 & Hrd1); [by rewrite Hl|rewrite length_app, Hl; lia|].
  destruct (reading_step src _ _ _ g1 tarBlockBytes Hrd1) as (g2 & H2 & Hrd2); [by rewrite Hl|rewrite !length_app, Hl; lia|].
  unfold next. cbn [next_pass]. rewrite H1. cbn [mbind result_bind]. rewrite Hz. cbn [set_gz w_pending w_gz w_topLevel]. rewrite Hp, beq_refl. cbn [negb].
  rewrite H2. cbn [mbind result_bind]. rewrite Hz. cbn [negb]. rewrite (proj2 (beq_false _ _) Ht). eexists. split; [reflexivity|].
  rewrite replicate_add, app_assoc. exact Hrd2.
Qed.

(** ** The whole walk *)

Lemma tree_from_tail lim pre e es : tree_from lim pre (e :: es) → entry_ok lim pre e ∧ tree_from lim (pre ++ [e]) es.
Proof.
  intros H. split; [rewrite <- (app_nil_r pre); by apply (H [] e es)|]. intros l x r ->. rewrite <- app_assoc. by apply (H (e :: l) x r).
Qed.

Lemma walk_accepts lim src es : ∀ fuel pre w t rest read, walked lim pre w → tree_from lim pre es → archive_text es = Some t →
  reading src read (t ++ rest) (w_gz w) → Z.of_nat (length (read ++ t)) ≤ tarBytes (g_limits src) → w_headers w + 2 * Z.of_nat (length es) ≤ nonEndHeaders lim →
  Forall (λ e : entry, m_size e.1 ≤ 2 ^ 59) es → pre ++ es ≠ [] → (length es < fuel)%nat →
  ∃ w', walk_members fuel w = Ok (es, w') ∧ reading src (read ++ t) rest (w_gz w').
Proof.
  induction es as [|e es IH]; intros [|fuel] pre w t rest read Hw Ht Htext Hrd Hb Hh Hsz Hne Hfuel; try lia; cbn [walk_members archive_text] in *.
  - apply (inj Some) in Htext. subst t. rewrite app_nil_r in Hne. rewrite length_app, length_replicate in Hb.
    destruct (next_ends w rest src read (wk_pending _ _ _ Hw)) as (w' & Hn & Hrd'); [|done|lia|rewrite Hn; by exists w'].
    pose proof (wk_top _ _ _ Hw) as Htop. destruct pre; [done|]. by destruct Htop.
  - apply tree_from_tail in Ht as [He Ht]. apply Forall_cons in Hsz as [Hs Hsz]. unfold entry_text in Htext.
    destruct (writeTarMemberHeader _ _ _ _) as [h|] eqn:Eh; [|done]. cbn [mbind option_bind] in Htext.
    destruct (archive_text es) as [ts|]; [|done]. cbn [mbind option_bind] in Htext. injection Htext as <-. rewrite <- !app_assoc in Hrd. rewrite !length_app in Hb. cbn [length] in Hh, Hfuel.
    destruct (next_accepts lim pre w e h _ src read Hw He Eh Hrd) as (w1 & Hn & Hw1 & Hrd1 & Hh1); [rewrite length_app; lia|lia|done|].
    rewrite Hn. cbn [mbind result_bind].
    assert (∃ w2, (if m_isDir e.1 then mret ([], w1) else readPayload w1 e.1) = (Ok (e.2, w2) : result Reason _) ∧ walked lim (pre ++ [e]) w2 ∧ w_headers w2 = w_headers w1 ∧
      reading src ((read ++ h) ++ e.2 ++ zero_pad (m_size e.1)) (ts ++ rest) (w_gz w2)) as (w2 & -> & Hw2 & Hh2 & Hrd2).
    { pose proof (eo_data _ _ _ He) as Hd. destruct (eo_kind _ _ _ He) as [(Hdir & _ & _ & Hz)|(Hdir & _)]; unfold entry_isDir in Hdir; rewrite Hdir.
      - rewrite Hz in *. destruct e as [m data]. cbn in *. destruct data; [|cbn in Hd; lia]. change (zero_pad 0) with (@nil Z) in *. cbn in *. exists w1. rewrite !app_nil_r. done.
      - destruct (readPayload_accepts w1 e.1 e.2 _ src _ Hrd1 Hd) as (gz & Hp & Hrd2); [rewrite !length_app; lia|]. exists (set_gz w1 gz). split; [done|]. split; [destruct Hw1; by split|]. done. }
    cbn [mbind result_bind]. destruct (IH fuel (pre ++ [e]) w2 ts rest _ Hw2 Ht eq_refl Hrd2) as (w' & Hes & Hrd'); try done; try lia.
    { rewrite !length_app. lia. } { by destruct pre. }
    rewrite Hes. cbn [mbind result_bind]. exists w'. rewrite <- surjective_pairing. split; [done|]. by rewrite <- !app_assoc in *.
Qed.

(** ** Every admissible tree has a text, and room for it *)

Lemma buildTarHeader_length stored size mode typ block : buildTarHeader stored size mode typ = Some block → length block = 512%nat.
Proof. intros (? & ? & ? & ? & ? & ? & _ & _ & _ & _ & _ & _ & ->)%buildTarHeader_inv. apply copy_at_length; [apply header_base_length|lia]. Qed.

Lemma member_header_some lim pre e : entry_ok lim pre e → m_size e.1 < 8 ^ 11 → ∃ h,
  writeTarMemberHeader (entry_path e) (m_size e.1) (m_mode e.1) (m_typ e.1) = Some h ∧ Z.of_nat (length h) ≤ 2 * tarBlockBytes + maxPAXPaddedBytes.
Proof.
  intros He Hs. destruct (entry_kind_facts lim pre e He) as (_ & _ & _ & _ & K5 & K6 & _ & K8 & _). destruct (entry_path_bytes lim pre e He) as (B1 & B2 & B3).
  unfold writeTarMemberHeader, tarBlockBytes, maxPAXPaddedBytes. destruct (tarPathFitsUSTAR (entry_path e) (m_typ e.1)) eqn:Ef.
  - destruct (buildTarHeader_some (tarStoredPath (entry_path e) (m_typ e.1)) (m_size e.1) (m_mode e.1) (m_typ e.1)) as [h Hh]; try done.
    + unfold tarPathFitsUSTAR in Ef. destruct (tarSplitPath _); [by eexists|done].
    + unfold tarStoredPath. destruct (_ =? _); [|done]. apply Forall_app_2; [done|]. by constructor.
    + exists h. split; [done|]. rewrite (buildTarHeader_length _ _ _ _ _ Hh). lia.
  - destruct (pax_record_reads_back _ B3 (eo_length _ _ _ He)) as (record & Hr & _ & Hl). rewrite Hr. cbn [mbind option_bind].
    assert (∀ s, Forall is_byte s → is_Some (tarSplitPath s) → ∀ sz md ty, 0 ≤ sz < 8 ^ 11 → 0 ≤ md ≤ 511 → is_byte ty → is_Some (buildTarHeader s sz md ty)) as Hbuild.
    { intros. by apply buildTarHeader_some. }
    assert (Forall is_byte paxHeaderPath ∧ Forall is_byte paxMemberPlaceholder) as [X1 X2].
    { unfold paxHeaderPath, paxMemberPlaceholder. cbn. split; repeat (apply Forall_cons_2; [unfold is_byte; lia|]); apply Forall_nil_2. }
    destruct (Hbuild paxHeaderPath X1 ltac:(by eexists) (Z.of_nat (length record)) tarModeRegular tarTypePAXLocal) as [p Hp]; [change (8 ^ 11) with 8589934592; lia|done|done|]. rewrite Hp. cbn [mbind option_bind].
    destruct (Hbuild paxMemberPlaceholder X2 ltac:(by eexists) (m_size e.1) (m_mode e.1) (m_typ e.1)) as [h Hh]; [done|done|done|]. rewrite Hh. cbn [mbind option_bind].
    eexists. split; [done|]. rewrite !length_app, (buildTarHeader_length _ _ _ _ _ Hp), (buildTarHeader_length _ _ _ _ _ Hh).
    pose proof (padded_pad (Z.of_nat (length record)) ltac:(lia)) as Hpad. rewrite Nat2Z.id in Hpad. unfold padded_size, tarBlockBytes in Hpad. zlia.
Qed.

Lemma entry_size_nonneg lim pre e : entry_ok lim pre e → 0 ≤ entry_size e.
Proof. intros He. pose proof (eo_data _ _ _ He). unfold entry_size. destruct (entry_isDir e); lia. Qed.

Lemma total_size_nonneg lim es : ∀ pre, tree_from lim pre es → 0 ≤ total_size es.
Proof.
  induction es as [|e es IH]; intros pre Ht; [done|]. apply tree_from_tail in Ht as [He Ht]. specialize (IH _ Ht).
  pose proof (entry_size_nonneg _ _ _ He). change (total_size (e :: es)) with (entry_size e + total_size es). lia.
Qed.

Lemma entry_size_bound lim pre e : entry_ok lim pre e → 0 ≤ total_size pre → 0 ≤ payloadBytes lim → m_size e.1 ≤ payloadBytes lim.
Proof.
  intros He Hp H0. destruct (eo_kind _ _ _ He) as [(_ & _ & _ & ->)|(Hd & _)]; [done|]. destruct (eo_payload _ _ _ He) as [H|H]; [|congruence].
  unfold entry_size in H. rewrite Hd in H. lia.
Qed.

(** The number of files. *)
Definition file_count (es : list entry) : Z := foldr (λ e acc, (if entry_isDir e then 0 else 1) + acc) 0 es.

Lemma archive_text_some lim es : 0 ≤ payloadBytes lim < 8 ^ 11 → ∀ pre, tree_from lim pre es → 0 ≤ total_size pre → ∃ t,
  archive_text es = Some t ∧ Forall (λ e : entry, m_size e.1 ≤ payloadBytes lim) es ∧
  Z.of_nat (length t) ≤ (2 * tarBlockBytes + maxPAXPaddedBytes) * Z.of_nat (length es) + total_size es + (tarBlockBytes - 1) * file_count es + 2 * tarBlockBytes.
Proof.
  intros Hlim. induction es as [|e es IH]; intros pre Ht Hpre; cbn [archive_text].
  - exists (replicate 1024 0). split; [done|]. split; [constructor|]. rewrite length_replicate. cbn. unfold tarBlockBytes. lia.
  - apply tree_from_tail in Ht as [He Ht]. pose proof (entry_size_bound lim pre e He Hpre ltac:(lia)) as Hs.
    destruct (member_header_some lim pre e He ltac:(lia)) as (h & Hh & Hhl). unfold entry_text. change (m_path e.1) with (entry_path e). rewrite Hh. cbn [mbind option_bind].
    destruct (IH (pre ++ [e]) Ht) as (ts & -> & Hf & Hl). { rewrite total_size_snoc. pose proof (entry_size_nonneg _ _ _ He). lia. }
    cbn [mbind option_bind]. eexists. split; [done|]. split; [by constructor|]. rewrite !length_app. change (total_size (e :: es)) with (entry_size e + total_size es).
    change (file_count (e :: es)) with ((if entry_isDir e then 0 else 1) + file_count es). cbn [length]. pose proof (eo_data _ _ _ He) as Hd.
    assert (Z.of_nat (length e.2) + Z.of_nat (length (zero_pad (m_size e.1))) ≤ entry_size e + (tarBlockBytes - 1) * (if entry_isDir e then 0 else 1)) as Hp.
    { unfold entry_size. destruct (eo_kind _ _ _ He) as [(Hdir & _ & _ & Hz)|(Hdir & _)]; rewrite Hdir.
      - rewrite Hd, Hz. change (zero_pad 0) with (@nil Z). cbn. lia.
      - rewrite Hd. unfold zero_pad, tarBlockBytes. destruct (Z.eqb_spec (m_size e.1 mod 512) 0); cbn [length]; rewrite ?length_replicate; zlia. }
    unfold tarBlockBytes in *. lia.
Qed.

Lemma file_count_bound es : file_count es ≤ Z.of_nat (length es).
Proof. induction es as [|e es IH]; [done|]. change (file_count (e :: es)) with ((if entry_isDir e then 0 else 1) + file_count es). cbn [length]. destruct (entry_isDir e); lia. Qed.

(** A stream nothing was read from. *)
Definition fresh_stream (lim : tarLimits) (gz : gzipStream) : Prop := g_crc gz = 0 ∧ g_isize gz = 0 ∧ g_total gz = 0 ∧ g_limits gz = lim.

Lemma fresh_reading lim gz : fresh_stream lim gz → reading gz [] (g_out gz) gz.
Proof. intros (H1 & H2 & H3 & H4). by split. Qed.

Lemma bundle_tree_accepted es : tree_ok bundleLimits es → ∃ t, archive_text es = Some t ∧
  ∀ gz rest, fresh_stream bundleLimits gz → g_out gz = t ++ rest → ∃ w,
    walk_members (S (length es)) (newTarWalkerWith gz bundleLimits) = Ok (es, w) ∧ reading gz t rest (w_gz w).
Proof.
  intros Hok. pose proof (tree_safe _ _ Hok) as Hsafe. destruct Hok as [Hne Ht].
  destruct (archive_text_some bundleLimits es ltac:(done) [] Ht ltac:(done)) as (t & Htext & Hsz & Hl). exists t. split; [done|]. intros gz rest Hfresh Hout.
  pose proof (st_count _ _ Hsafe) as Hc. pose proof (st_total _ _ Hsafe ltac:(done)) as Htot. destruct (st_root _ _ Hsafe) as (root & tl & -> & Hd & _).
  pose proof (file_count_bound tl) as Hf. change (file_count (root :: tl)) with ((if entry_isDir root then 0 else 1) + file_count tl) in Hl. rewrite Hd in Hl.
  pose proof (fresh_reading _ _ Hfresh) as Hrd. rewrite Hout in Hrd. destruct Hfresh as (_ & _ & _ & Hlim).
  apply (walk_accepts bundleLimits gz (root :: tl) (S (length (root :: tl))) [] _ t rest [] (walked_new _ _) Ht Htext); [exact Hrd|..]; try lia.
  - rewrite Hlim. cbn [app]. etransitivity; [exact Hl|]. cbn [length] in *. unfold bundleLimits in *. cbn [tarBytes payloadBytes semanticMembers] in *.
    unfold maxTarBytes, maxNonEndHeaders, maxFilePaddingBytes, maxSemanticMembers, maxPAXPaddedBytes, maxRegularPayloadBytes, tarBlockBytes in *. lia.
  - cbn [newTarWalkerWith w_headers]. unfold bundleLimits in *. cbn [nonEndHeaders semanticMembers] in *. unfold maxNonEndHeaders. lia.
  - eapply Forall_impl; [exact Hsz|]. intros e He. etransitivity; [exact He|]. done.
  - done.
Qed.

(** ** Through the gzip envelope *)

Lemma lxor_range a b n : 0 ≤ n → 0 ≤ a < 2 ^ n → 0 ≤ b < 2 ^ n → 0 ≤ Z.lxor a b < 2 ^ n.
Proof.
  intros Hn Ha Hb. split; [apply Z.lxor_nonneg; lia|]. destruct (Z.eq_dec (Z.lxor a b) 0) as [->|]; [lia|].
  apply Z.log2_lt_cancel. rewrite Z.log2_pow2 by done. pose proof (Z.log2_lxor a b ltac:(lia) ltac:(lia)).
  assert (∀ x, 0 ≤ x < 2 ^ n → x = 0 ∨ Z.log2 x < n) as Hx by (intros x Hx; destruct (Z.eq_dec x 0); [by left|right; apply Z.log2_lt_pow2; lia]).
  destruct (Hx a Ha) as [->|], (Hx b Hb) as [->|]; rewrite ?Z.lxor_0_l, ?Z.lxor_0_r in *; lia.
Qed.

Lemma crc_byte_range c b : 0 ≤ c < 2 ^ 32 → is_byte b → 0 ≤ crc_byte c b < 2 ^ 32.
Proof.
  intros Hc Hb. unfold is_byte in Hb. unfold crc_byte. assert (∀ x, 0 ≤ x < 2 ^ 32 → 0 ≤ crc_bit x < 2 ^ 32) as Hbit.
  { intros x Hx. assert (0 ≤ Z.shiftr x 1 < 2 ^ 32) by (rewrite Z.shiftr_div_pow2 by lia; zlia). unfold crc_bit. destruct (Z.odd x); [|done]. by apply lxor_range. }
  assert (0 ≤ Z.lxor c b < 2 ^ 32) as H by (apply lxor_range; lia). revert H. generalize (Z.lxor c b). generalize 8%nat. induction n as [|n IH]; intros z Hz; [done|]. apply Hbit, IH, Hz.
Qed.

Lemma crc32_range p : Forall is_byte p → 0 ≤ crc32_Update 0 p < 2 ^ 32.
Proof.
  intros Hp. unfold crc32_Update. assert (∀ c, 0 ≤ c < 2 ^ 32 → 0 ≤ foldl crc_byte c p < 2 ^ 32) as H; [|apply lxor_range; [done|by apply H|done]].
  induction Hp as [|b p Hb _ IH]; intros c Hc; [done|]. cbn. by apply IH, crc_byte_range.
Qed.

(** Four bytes, the lowest first. *)
Definition put32 (z : Z) : bytes := [z mod 256; z / 256 mod 256; z / 65536 mod 256; z / 16777216 mod 256].

Lemma le32_put z rest : 0 ≤ z < 2 ^ 32 → le32 (put32 z ++ rest) = z.
Proof.
  intros Hz. unfold le32, put32. cbn [app firstn foldr]. change (2 ^ 32) with 4294967296 in Hz.
  replace (z / 65536) with (z / 256 / 256) by (rewrite Z.div_div by lia; done).
  replace (z / 16777216) with (z / 256 / 256 / 256) by (rewrite !Z.div_div by lia; done).
  rewrite take_0. cbn [foldr]. zlia.
Qed.

(** What follows the deflate stream, and the whole file. *)
Definition gzip_trailer (t : bytes) : bytes := put32 (crc32_Update 0 t) ++ put32 (u32 (Z.of_nat (length t))).
Definition gzip_file (comp t : bytes) : bytes := gzipHeaderCanonical ++ comp ++ gzip_trailer t.

Lemma finish_accepts src t gz : reading src t [] gz → g_end src = Ended (gzip_trailer t) → g_more src = false → Forall is_byte t → finish gz = Ok ().
Proof.
  intros [R1 R2 R3 _ R5 R6 _] He Hm Ht. unfold finish. rewrite R1, R2, R3, R5, R6, He, Hm. unfold gzip_trailer.
  assert (length (put32 (crc32_Update 0 t) ++ put32 (u32 (Z.of_nat (length t)))) = 8%nat) as -> by done. cbn [Nat.ltb Nat.leb].
  rewrite le32_put by (by apply crc32_range). rewrite Z.eqb_refl. cbn [negb].
  assert (drop 4 (put32 (crc32_Update 0 t) ++ put32 (u32 (Z.of_nat (length t)))) = put32 (u32 (Z.of_nat (length t))) ++ []) as -> by (by rewrite app_nil_r).
  rewrite le32_put by (unfold u32; zlia). by rewrite Z.eqb_refl.
Qed.

Lemma zero_pad_bytes n : Forall is_byte (zero_pad n).
Proof. unfold zero_pad. destruct (_ =? 0); [constructor|]. by apply Forall_replicate. Qed.

Lemma FormatUint_bytes z : Forall is_byte (FormatUint z).
Proof. eapply Forall_impl; [apply FormatUint_digits|]. intros c Hc. unfold is_digit in Hc. b2p. unfold is_byte. lia. Qed.

Lemma buildTarHeader_bytes stored size mode typ block : buildTarHeader stored size mode typ = Some block → Forall is_byte stored → is_byte typ → 0 ≤ size →
  0 ≤ mode → Forall is_byte block.
Proof.
  intros Hb Hst Htyp Hsz Hmd. apply buildTarHeader_inv in Hb as (name & prefix & m & s & u & t & Hs & Hm & Hsw & Hu & Ht & _ & ->).
  apply tarSplitPath_inv in Hs as (-> & _). assert (Forall is_byte name ∧ Forall is_byte prefix) as [? ?].
  { destruct (beq prefix []) eqn:E; b2p; [by subst|]. apply Forall_app in Hst as [? Hby]. inversion_clear Hby. done. }
  assert (Forall is_byte (header_base name prefix m s u t typ)) as Hb.
  { apply header_base_bytes; try done; eapply writeOctal_bytes; try eassumption; try lia. apply Z.land_nonneg. by left. }
  apply copy_at_bytes; [done|]. pose proof (byte_sum_bound _ Hb) as Hsum. revert Hsum. generalize (byte_sum (header_base name prefix m s u t typ)). intros z Hz.
  unfold checksum_field. repeat apply Forall_app_2; [by apply Forall_replicate| |repeat (apply Forall_cons_2; [unfold is_byte; lia|]); apply Forall_nil_2].
  unfold FormatOctal. destruct (Z.ltb_spec z 0); [lia|]. eapply Forall_impl; [apply octal_digits_octal; constructor|]. unfold is_byte. cbn. lia.
Qed.

Lemma archive_text_bytes lim es : Forall (λ e : entry, Forall is_byte e.2) es → ∀ pre t, tree_from lim pre es → archive_text es = Some t → Forall is_byte t.
Proof.
  induction 1 as [|e es Hdata _ IH]; intros pre t Ht Htext; cbn [archive_text] in Htext.
  - apply (inj Some) in Htext. subst t. by apply Forall_replicate.
  - apply tree_from_tail in Ht as [He Ht]. destruct (entry_kind_facts lim pre e He) as (_ & _ & _ & _ & K5 & K6 & _ & K8 & _). destruct (entry_path_bytes lim pre e He) as (B1 & _ & _).
    unfold entry_text in Htext. destruct (writeTarMemberHeader _ _ _ _) as [h|] eqn:Eh; [|done]. cbn [mbind option_bind] in Htext.
    destruct (archive_text es) as [ts|]; [|done]. cbn [mbind option_bind] in Htext. injection Htext as <-. specialize (IH _ ts Ht eq_refl).
    repeat apply Forall_app_2; [|done|apply zero_pad_bytes|done]. unfold writeTarMemberHeader in Eh. change (m_path e.1) with (entry_path e) in Eh.
    destruct (tarPathFitsUSTAR _ _).
    + eapply buildTarHeader_bytes; [exact Eh| |done|done|lia]. unfold tarStoredPath. destruct (_ =? _); [|done]. apply Forall_app_2; [done|]. by constructor.
    + destruct (paxBuildPathRecord (entry_path e)) as [record|] eqn:Er; [|done]. cbn [mbind option_bind] in Eh.
      destruct (buildTarHeader paxHeaderPath _ _ _) as [p|] eqn:Ex; [|done]. cbn [mbind option_bind] in Eh.
      destruct (buildTarHeader paxMemberPlaceholder _ _ _) as [b|] eqn:Em; [|done]. injection Eh as <-.
      assert (Forall is_byte paxHeaderPath ∧ Forall is_byte paxMemberPlaceholder) as [X1 X2].
      { unfold paxHeaderPath, paxMemberPlaceholder. cbn. split; repeat (apply Forall_cons_2; [unfold is_byte; lia|]); apply Forall_nil_2. }
      repeat apply Forall_app_2; [|  |apply zero_pad_bytes|].
      * eapply buildTarHeader_bytes; [exact Ex|done|done|lia|done].
      * unfold paxBuildPathRecord in Er. destruct (_ || _); [done|]. destruct (settle_digits _ _ _) as [total|]; [|done]. cbn [mbind option_bind] in Er.
        destruct (_ <? _); [done|]. destruct (negb _); [done|]. apply (inj Some) in Er. rewrite <- Er. apply Forall_app_2; [|apply Forall_app_2; [|apply Forall_app_2; [done|by apply Forall_cons_2]]].
        -- unfold FormatInt. destruct (_ <? _); [apply Forall_cons_2; [done|]|]; apply FormatUint_bytes.
        -- cbn. repeat (apply Forall_cons_2; [unfold is_byte; lia|]); apply Forall_nil_2.
      * eapply buildTarHeader_bytes; [exact Em|done|done|done|lia].
Qed.

(** C29. Round trip through a package file: every tree a bundle may hold, within
    the member and payload limits, has an archive text for which the derived
    ceilings on headers and tar bytes leave room; wrapped into a gzip member
    whose deflate stream inflates to it, and within the size of a package, it
    opens, walks to exactly that tree, and its checksum and length close the
    file. *)
Theorem bundle_roundtrip `{Inflate} es : tree_ok bundleLimits es → Forall (λ e : entry, Forall is_byte e.2) es → ∃ t, archive_text es = Some t ∧
  ∀ comp, inflate (comp ++ gzip_trailer t) = (t, Ended (gzip_trailer t)) → Z.of_nat (length (gzip_file comp t)) ≤ maxCompressedBytes →
  ∃ gz w, newGzipStream (gzip_file comp t) = Ok gz ∧ walk_members (S (length es)) (newTarWalker gz) = Ok (es, w) ∧ finish (w_gz w) = Ok ().
Proof.
  intros Hok Hdata. destruct (bundle_tree_accepted es Hok) as (t & Htext & Hwalk). exists t. split; [done|]. intros comp Hinf Hsize.
  assert (newGzipStream (gzip_file comp t) = Ok (mkGzip t (Ended (gzip_trailer t)) false (reads_past (comp ++ gzip_trailer t)) 0 0 0 bundleLimits)) as Hopen.
  { unfold newGzipStream, newGzipStreamWith, capped. change (compressedBytes bundleLimits) with maxCompressedBytes.
    destruct (Z.ltb_spec maxCompressedBytes (Z.of_nat (length (gzip_file comp t)))); [lia|]. unfold gzip_file.
    change (take 10 (gzipHeaderCanonical ++ comp ++ gzip_trailer t)) with gzipHeaderCanonical. change (drop 10 (gzipHeaderCanonical ++ comp ++ gzip_trailer t)) with (comp ++ gzip_trailer t).
    rewrite length_app. change (length gzipHeaderCanonical) with 10%nat. destruct (Nat.ltb_spec (10 + length (comp ++ gzip_trailer t)) 10); [lia|]. rewrite beq_refl, Hinf. done. }
  rewrite Hopen. set (gz := mkGzip _ _ _ _ _ _ _ _). destruct (Hwalk gz []) as (w & Hw & Hrd); [done|by rewrite app_nil_r|].
  exists gz, w. split; [done|]. split; [exact Hw|]. eapply finish_accepts; [exact Hrd|done|done|]. eapply archive_text_bytes; [exact Hdata|exact (proj2 Hok)|done].
Qed.

(** ** Witnesses *)

(** Deflate streams of one stored block. *)
#[local] Instance stored_blocks : Inflate := {|
  inflate src :=
    match src with
    | 1 :: a :: b :: c :: d :: rest =>
      let n := a + 256 * b in
      if negb (c + 256 * d =? 65535 - n) then ([], Corrupt)
      else if (length rest <? Z.to_nat n)%nat then (rest, Truncated)
      else (take (Z.to_nat n) rest, Ended (drop (Z.to_nat n) rest))
    | _ => ([], Truncated)
    end;
  reads_past _ _ := false;
|}.
Definition stored_block (t : bytes) : bytes :=
  let n := Z.of_nat (length t) in 1 :: n mod 256 :: n / 256 :: (65535 - n) mod 256 :: (65535 - n) / 256 :: t.

Lemma sample_tree_ok : tree_ok bundleLimits sample_tree.
Proof.
  pose proof sample_walk_ok as H. destruct sample_walk as [[es w]|] eqn:E; [|destruct H]. rewrite H in E. clear H.
  unfold sample_walk in E.
  destruct (walk_sound 3 bundleLimits [] _ sample_tree w (walked_new bundleLimits (sample_stream sample_archive)) E) as (Ht & Hne & _). exact (conj Hne Ht).
Qed.

Lemma bundle_roundtrip_witness : ∃ gz w, newGzipStream (gzip_file (stored_block sample_archive) sample_archive) = Ok gz ∧
  walk_members 3 (newTarWalker gz) = Ok (sample_tree, w) ∧ finish (w_gz w) = Ok ().
Proof.
  destruct (bundle_roundtrip sample_tree sample_tree_ok) as (t & Ht & H).
  - repeat (apply Forall_cons_2; [cbn; repeat (apply Forall_cons_2; [split; lia|]); apply Forall_nil_2|]). apply Forall_nil_2.
  - assert (t = sample_archive) as Et by (unfold sample_archive; rewrite Ht; reflexivity). rewrite Et in H. apply (H (stored_block sample_archive)).
    + vm_compute. reflexivity.
    + apply Z.leb_le. vm_compute. reflexivity.
Defined.

(** A path that needs a pax record, stored with [k] slashes behind it. *)
Definition long_path : bytes := bs "p-1/" ++ replicate 120 110.
Definition slashed_archive (k : nat) : bytes :=
  default [] (a ← entry_text (sample_dir (bs "p-1"));
              h ← member_header (long_path ++ replicate k 47) long_path 2 tarModeRegular tarTypeRegular;
              Some (a ++ h ++ bs "{}" ++ zero_pad 2 ++ replicate 1024 0)).

(** The archive of a tree is not unique where a path needs a pax record: two
    different tar streams walk to the same members and payloads, because the
    walk drops slashes at the end of the path in the record without requiring
    the record to be the one the writer writes. *)
Theorem pax_path_not_unique : ∃ gz1 gz2 es w1 w2, fresh_stream bundleLimits gz1 ∧ fresh_stream bundleLimits gz2 ∧ g_out gz1 ≠ g_out gz2 ∧
  walk_members 3 (newTarWalkerWith gz1 bundleLimits) = Ok (es, w1) ∧ walk_members 3 (newTarWalkerWith gz2 bundleLimits) = Ok (es, w2) ∧
  g_out (w_gz w1) = [] ∧ g_out (w_gz w2) = [].
Proof.
  set (walk k := walk_members 3 (newTarWalkerWith (sample_stream (slashed_archive k)) bundleLimits)).
  assert (∀ k, k = 0%nat ∨ k = 1%nat → match walk k with Ok (es, w) => es = [sample_dir (bs "p-1"); sample_file long_path (bs "{}")] ∧ g_out (w_gz w) = [] | Err _ => False end) as H.
  { intros k [-> | ->]; vm_compute; split; reflexivity. }
  pose proof (H 0%nat (or_introl eq_refl)) as H0. pose proof (H 1%nat (or_intror eq_refl)) as H1. clear H.
  destruct (walk 0%nat) as [[es w1]|] eqn:E0; [|destruct H0]. destruct (walk 1%nat) as [[es2 w2]|] eqn:E1; [|destruct H1]. destruct H0 as [-> G1], H1 as [-> G2].
  exists (sample_stream (slashed_archive 0)), (sample_stream (slashed_archive 1)), [sample_dir (bs "p-1"); sample_file long_path (bs "{}")], w1, w2.
  split; [repeat split|]. split; [repeat split|]. split; [|exact (conj E0 (conj E1 (conj G1 G2)))]. cbn [sample_stream g_out]. apply beq_false. vm_compute. reflexivity.
Qed.
