(* ===== verification/Regex.v ===== *)
(** * Regular expressions over bytes

    The [regexp] patterns of the sources, matched by derivatives, with the
    language each denotes and the proof that the matcher decides it. *)

From S2P Require Import Prelude.

(** ** Patterns *)

(** A class is a list of ranges of bytes. *)
Inductive re :=
| RNone
| REps
| RClass (ranges : list (Z * Z))
| RSeq (a b : re)
| RAlt (a b : re)
| RStar (a : re).

#[export] Instance re_eq_dec : EqDecision re.
Proof. solve_decision. Defined.

Definition in_class (ranges : list (Z * Z)) (c : Z) : bool := existsb (λ r, (r.1 <=? c) && (c <=? r.2)) ranges.

(** The strings a pattern denotes. *)
Inductive in_re : re → bytes → Prop :=
| in_eps : in_re REps []
| in_cls ranges c : in_class ranges c = true → in_re (RClass ranges) [c]
| in_seq a b s t : in_re a s → in_re b t → in_re (RSeq a b) (s ++ t)
| in_alt_l a b s : in_re a s → in_re (RAlt a b) s
| in_alt_r a b s : in_re b s → in_re (RAlt a b) s
| in_star_nil a : in_re (RStar a) []
| in_star_app a s t : in_re a s → in_re (RStar a) t → in_re (RStar a) (s ++ t).

(** ** The matcher *)

Fixpoint nullable (r : re) : bool :=
  match r with
  | RNone | RClass _ => false
  | REps | RStar _ => true
  | RSeq a b => nullable a && nullable b
  | RAlt a b => nullable a || nullable b
  end.

(** Sequences and alternatives without what denotes nothing. *)
Definition rseq (a b : re) : re := match a, b with RNone, _ | _, RNone => RNone | REps, _ => b | _, _ => RSeq a b end.
Definition ralt (a b : re) : re :=
  match a, b with RNone, _ => b | _, RNone => a | _, _ => if decide (a = b) then a else RAlt a b end.

Fixpoint deriv (r : re) (c : Z) : re :=
  match r with
  | RNone | REps => RNone
  | RClass ranges => if in_class ranges c then REps else RNone
  | RSeq a b => if nullable a then ralt (rseq (deriv a c) b) (deriv b c) else rseq (deriv a c) b
  | RAlt a b => ralt (deriv a c) (deriv b c)
  | RStar a => rseq (deriv a c) (RStar a)
  end.

Definition re_match (r : re) (s : bytes) : bool := nullable (foldl deriv r s).

(** ** The matcher decides the language *)

Lemma in_seq_inv a b s : in_re (RSeq a b) s ↔ ∃ s1 s2, s = s1 ++ s2 ∧ in_re a s1 ∧ in_re b s2.
Proof. split; [intros H; inversion H; eauto 6|intros (s1 & s2 & -> & ? & ?); by constructor]. Qed.

Lemma in_alt_inv a b s : in_re (RAlt a b) s ↔ in_re a s ∨ in_re b s.
Proof. split; [intros H; inversion H; auto|intros [?|?]; by constructor]. Qed.

Lemma in_none s : ¬ in_re RNone s.
Proof. intros H. inversion H. Qed.

Lemma in_eps_inv s : in_re REps s ↔ s = [].
Proof. split; [intros H; by inversion H|intros ->; constructor]. Qed.

Lemma nullable_ok r : nullable r = true ↔ in_re r [].
Proof.
  induction r as [| |ranges|a IHa b IHb|a IHa b IHb|a IHa]; cbn.
  - split; [done|]. by intros ?%in_none.
  - split; [constructor|done].
  - split; [done|]. intros H. inversion H.
  - rewrite andb_true_iff, IHa, IHb, in_seq_inv. split; [intros [? ?]; by exists [], []|]. by intros (s1 & s2 & [-> ->]%eq_sym%app_nil & ? & ?).
  - by rewrite orb_true_iff, IHa, IHb, in_alt_inv.
  - split; [constructor|done].
Qed.

Lemma rseq_ok a b s : in_re (rseq a b) s ↔ in_re (RSeq a b) s.
Proof.
  assert (∀ s, ¬ in_re (RSeq RNone b) s) as H1 by (intros t (? & ? & _ & ?%in_none & _)%in_seq_inv; done).
  assert (∀ s, ¬ in_re (RSeq a RNone) s) as H2 by (intros t (? & ? & _ & _ & ?%in_none)%in_seq_inv; done).
  assert (∀ s, in_re b s ↔ in_re (RSeq REps b) s) as H3.
  { intros t. rewrite in_seq_inv. setoid_rewrite in_eps_inv. split; [intros ?; by exists [], t|]. by intros (? & ? & -> & -> & ?). }
  pose proof (in_none s). destruct a, b; cbn [rseq]; try done; naive_solver.
Qed.

Lemma ralt_ok a b s : in_re (ralt a b) s ↔ in_re (RAlt a b) s.
Proof.
  rewrite in_alt_inv. pose proof (in_none s). assert (∀ x y, in_re (if decide (x = y) then x else RAlt x y) s ↔ in_re x s ∨ in_re y s) as Hd.
  { intros x y. destruct (decide (x = y)) as [->|]; [tauto|apply in_alt_inv]. }
  unfold ralt. destruct a, b; try tauto; apply Hd.
Qed.

Lemma in_star_cons a c s : in_re (RStar a) (c :: s) ↔ ∃ s1 s2, s = s1 ++ s2 ∧ in_re a (c :: s1) ∧ in_re (RStar a) s2.
Proof.
  split.
  - intros H. remember (RStar a) as r eqn:Er. remember (c :: s) as t eqn:Et. revert s Et. induction H as [| | | | | |a' s1 s2 H1 _ H2 IH]; intros s0 Et; try done.
    injection Er as ->. destruct s1 as [|x s1]; [by apply IH|]. cbn in Et. injection Et as -> <-. by exists s1, s2.
  - intros (s1 & s2 & -> & H1 & H2). by apply (in_star_app a (c :: s1) s2).
Qed.

Lemma deriv_ok r c : ∀ s, in_re (deriv r c) s ↔ in_re r (c :: s).
Proof.
  induction r as [| |ranges|a IHa b IHb|a IHa b IHb|a IHa]; intros s; cbn [deriv].
  - split; intros ?%in_none; done.
  - rewrite in_eps_inv. split; [by intros ?%in_none|done].
  - destruct (in_class ranges c) eqn:E.
    + rewrite in_eps_inv. split; [intros ->; by constructor|]. intros H. by inversion H.
    + split; [by intros ?%in_none|]. intros H. inversion H; congruence.
  - assert (in_re (rseq (deriv a c) b) s ↔ ∃ s1 s2, s = s1 ++ s2 ∧ in_re a (c :: s1) ∧ in_re b s2) as Hs.
    { rewrite rseq_ok, in_seq_inv. by setoid_rewrite IHa. }
    rewrite in_seq_inv. destruct (nullable a) eqn:En.
    + rewrite ralt_ok, in_alt_inv, Hs, IHb. apply nullable_ok in En. split.
      * intros [(s1 & s2 & -> & ? & ?)|?]; [by exists (c :: s1), s2|by exists [], (c :: s)].
      * intros ([|x s1] & s2 & E & H1 & H2); cbn in E; [right; congruence|]. injection E as -> ->. left. by exists s1, s2.
    + rewrite Hs. split; [intros (s1 & s2 & -> & ? & ?); by exists (c :: s1), s2|].
      intros ([|x s1] & s2 & E & H1 & H2); [apply nullable_ok in H1; congruence|]. cbn in E. injection E as -> ->. by exists s1, s2.
  - by rewrite ralt_ok, !in_alt_inv, IHa, IHb.
  - rewrite rseq_ok, in_seq_inv, in_star_cons. by setoid_rewrite IHa.
Qed.

(** The matcher answers yes on exactly the strings of the language. *)
Lemma re_match_ok r s : re_match r s = true ↔ in_re r s.
Proof.
  unfold re_match. revert r. induction s as [|c s IH]; intros r; cbn; [apply nullable_ok|]. by rewrite IH, deriv_ok.
Qed.

(** ** Building patterns *)

Definition RPlus (r : re) : re := RSeq r (RStar r).
Definition ROpt (r : re) : re := RAlt REps r.
Definition RChar (c : Z) : re := RClass [(c, c)].
Fixpoint RStr (s : bytes) : re := match s with [] => REps | c :: t => RSeq (RChar c) (RStr t) end.
Fixpoint RRep (n : nat) (r : re) : re := match n with O => REps | S m => RSeq r (RRep m r) end.
(** [.]: every byte but the newline. *)
Definition RDot : re := RClass [(0, 9); (11, 255)].
Definition RAny : re := RStar (RClass [(0, 255)]).
(** A set of characters, given as ranges and single ones. *)
Definition RSet (ranges : list (Z * Z)) (singles : bytes) : re := RClass (ranges ++ ((λ c, (c, c)) <$> singles)).

Definition cls_lower : Z * Z := (97, 122).
Definition cls_digits : Z * Z := (48, 57).

Lemma in_char c s : in_re (RChar c) s ↔ s = [c].
Proof.
  split.
  - intros H. inversion H as [|? d Hd| | | | |]; subst. unfold in_class in Hd. cbn in Hd. rewrite orb_false_r in Hd. b2p. f_equal. lia.
  - intros ->. constructor. unfold in_class. cbn. by rewrite Z.leb_refl.
Qed.

Lemma in_class_inv ranges s : in_re (RClass ranges) s ↔ ∃ c, s = [c] ∧ in_class ranges c = true.
Proof. split; [intros H; inversion H; eauto|intros (c & -> & ?); by constructor]. Qed.

Lemma in_str l s : in_re (RStr l) s ↔ s = l.
Proof.
  revert s. induction l as [|c l IH]; intros s; cbn; [apply in_eps_inv|]. rewrite in_seq_inv. setoid_rewrite IH. setoid_rewrite in_char.
  split; [by intros (? & ? & -> & -> & ->)|intros ->; by exists [c], l].
Qed.

Lemma in_rep n ranges s : in_re (RRep n (RClass ranges)) s ↔ length s = n ∧ Forall (λ c, in_class ranges c = true) s.
Proof.
  revert s. induction n as [|n IH]; intros s; cbn; [rewrite in_eps_inv; split; [by intros ->|intros [? _]; by destruct s]|].
  rewrite in_seq_inv. setoid_rewrite IH. setoid_rewrite in_class_inv. split.
  - intros (? & s2 & -> & (c & -> & Hc) & <- & Hf). split; [done|]. by constructor.
  - intros [Hl Hf]. destruct s as [|c s]; [done|]. inversion Hf; subst. exists [c], s. split; [done|]. split; [by exists c|]. by injection Hl.
Qed.

Lemma in_star_class ranges s : in_re (RStar (RClass ranges)) s ↔ Forall (λ c, in_class ranges c = true) s.
Proof.
  induction s as [|c s IH]; [split; constructor|]. rewrite in_star_cons, Forall_cons, <- IH. setoid_rewrite in_class_inv. split.
  - intros (s1 & s2 & -> & (d & [= -> ->] & Hd) & Hr). done.
  - intros [Hc H]. exists [], s. split; [done|]. split; [by exists c|done].
Qed.

Lemma in_plus_class ranges s : in_re (RPlus (RClass ranges)) s ↔ s ≠ [] ∧ Forall (λ c, in_class ranges c = true) s.
Proof.
  unfold RPlus. rewrite in_seq_inv. setoid_rewrite in_star_class. setoid_rewrite in_class_inv. split.
  - intros (? & s2 & -> & (c & -> & Hc) & Hf). split; [done|]. by constructor.
  - intros [Hne Hf]. destruct s as [|c s]; [done|]. inversion Hf; subst. exists [c], s. split; [done|]. split; [by exists c|done].
Qed.
