(* ===== verification/Manifest.v ===== *)
(** * internal/packagefmt: the package manifest

    hostbound.go's version bounds, manifest.go's grammar of manifests, and
    variant_preference.go.  Every refusal of a manifest has the one reason
    MANIFEST_SCHEMA_INVALID, so a check here answers with [bool] or [option]. *)

From stdpp Require Import gmap.
From S2P Require Import Prelude Utf8 GoJson CanonicalJson GoStruct Container Sections Regex.

(** ** Version bounds *)

Definition reHostBound : re :=
  let n := RPlus (RSet [cls_digits] []) in RSeq n (RSeq (RChar 46) (RSeq n (RSeq (RChar 46) n))).
Definition ValidHostBound (v : bytes) : bool := re_match reHostBound v.

(** [strings.Split(s, string(sep))]. *)
Fixpoint split_on (sep : Z) (s : bytes) : list bytes :=
  match s with
  | [] => [[]]
  | c :: t =>
    if c =? sep then [] :: split_on sep t
    else match split_on sep t with seg :: rest => (c :: seg) :: rest | [] => [[c]] end
  end.

(** [strings.TrimLeft(s, "0")]. *)
Fixpoint trim_zeros (s : bytes) : bytes := match s with c :: t => if c =? 48 then trim_zeros t else s | [] => [] end.

(** [strings.Compare]. *)
Fixpoint strings_Compare (a b : bytes) : Z :=
  match a, b with
  | [], [] => 0
  | [], _ :: _ => -1
  | _ :: _, [] => 1
  | x :: a', y :: b' => if x <? y then -1 else if y <? x then 1 else strings_Compare a' b'
  end.

Definition compareDecimal (a b : bytes) : Z :=
  let a := trim_zeros a in
  let b := trim_zeros b in
  if negb (length a =? length b)%nat then (if (length a <? length b)%nat then -1 else 1) else strings_Compare a b.

Fixpoint compare_parts (xs ys : list bytes) : Z :=
  match xs, ys with
  | x :: xs', y :: ys' => let c := compareDecimal x y in if negb (c =? 0) then c else compare_parts xs' ys'
  | _, _ => 0
  end.

Definition CompareHostBounds (a b : bytes) : Z := compare_parts (split_on 46 a) (split_on 46 b).

Definition CheckHostWindow (min maxExclusive : bytes) : bool :=
  if (negb (beq min []) && negb (ValidHostBound min)) || (negb (beq maxExclusive []) && negb (ValidHostBound maxExclusive)) then false
  else if negb (beq min []) && negb (beq maxExclusive []) && (0 <=? CompareHostBounds min maxExclusive) then false
  else true.

(** Of the text of a JSON value, which has no white space around it. *)
Definition CheckHostBoundRaw (raw : bytes) : bool :=
  if beq raw null_text then false
  else match conv_string raw with
       | None => false
       | Some s => negb (beq s []) && ValidHostBound s
       end.

(** ** The patterns of manifest.go *)

Definition name_chars : re := RSet [cls_lower; cls_digits] [].
Definition dotted_tail : re := RStar (RSeq (RSet [] [46; 95; 45]) (RPlus name_chars)).
Definition reManifestID : re :=
  RSeq (RPlus name_chars) (RSeq dotted_tail (RStar (RSeq (RChar 46) (RSeq (RPlus name_chars) dotted_tail)))).
Definition reSHA256 : re := RSeq (RStr (bs "sha256:")) (RRep 64 (RSet [cls_digits; (97, 102)] [])).
Definition variant_char : re := RSet [cls_lower; cls_digits] [46; 95; 45].
Definition reVariantID : re := RPlus variant_char.
(** Not anchored at its end: what follows the one character is free. *)
Definition reEntrypoint : re := RSeq (RStr (bs "variants/")) (RSeq (RPlus variant_char) (RSeq (RChar 47) (RSeq RDot RAny))).
Definition interface_word : re := RSeq (RSet [cls_lower] []) (RStar (RSet [cls_lower; cls_digits] [95])).
Definition reInterfaceID : re := RSeq interface_word (RPlus (RSeq (RChar 46) interface_word)).
Definition reInterfaceRef : re := RSeq reInterfaceID (RSeq (RChar 64) (RSeq (RSet [(49, 57)] []) (RStar (RSet [cls_digits] [])))).
Definition reCapability : re := RSeq reInterfaceID (ROpt (RSeq (RChar 58) (RPlus RDot))).
Definition reXExtension : re := RSeq (RStr (bs "x-")) (RPlus variant_char).
Definition rePredicateName : re := RPlus (RSet [cls_lower; cls_digits] [46; 95; 47; 45]).

Definition ValidManifestID (id : bytes) : bool := re_match reManifestID id.
Definition maxRequirementEntries : nat := 16.

Definition topLevelManifestKeys : list bytes :=
  [bs "kind"; bs "id"; bs "version"; bs "package_hash"; bs "aiios_min_version"; bs "aiios_max_exclusive_version"; bs "title"; bs "description";
   bs "publisher"; bs "homepage"; bs "license"; bs "asset_type"; bs "plugin_family"; bs "bbb_protocol_version"; bs "package_mode"; bs "interfaces";
   bs "capability_envelope"; bs "requirements"; bs "default_variant"; bs "variant_preference"; bs "operator_projection"; bs "operation_descriptors";
   bs "heartbeat"; bs "variants"].

(** ** Manifests

    A slice inside a value that may be decoded over keeps its backing array. *)

Record Requirements := mkRequirements { Required : slice bytes; Optional : slice bytes }.
Record InterfaceDecl := mkInterfaceDecl { if_ID : bytes; if_Version : Z; SchemaHash : bytes; Methods : slice bytes }.
Record InterfaceSet := mkInterfaceSet { if_Core : slice InterfaceDecl; if_Optional : slice InterfaceDecl }.
Record Variant := mkVariant {
  VariantID : bytes;
  Platform : bytes;
  Arch : bytes;
  Topology : bytes;
  ExecutionRuntime : bytes;
  AdmissionProfile : bytes;
  Entrypoint : bytes;
  ArtifactHash : bytes;
  Implements : bytes;
  VariantCapabilities : bytes;
  v_Requirements : option Requirements;
}.
Record Manifest := mkManifest {
  m_Kind : bytes;
  m_ID : bytes;
  m_Version : bytes;
  m_PackageHash : bytes;
  AssetType : bytes;
  PluginFamily : bytes;
  AiiosMinVersion : bytes;
  AiiosMaxExclusiveVersion : bytes;
  m_Title : bytes;
  m_Description : bytes;
  BBBProtocolVersion : Z;
  m_Publisher : bytes;
  Interfaces : option InterfaceSet;
  CapabilityEnvelope : bytes;
  m_Requirements : option Requirements;
  DefaultVariant : bytes;
  VariantPreference : list bytes;
  Variants : list Variant;
}.

(** ** Decoding *)

(** A slice field decoded over an earlier value. *)
Definition slice_over {A} (elem : A → bytes → option A) (zero : A) (cur : slice A) (name : bytes) (ms : list (bytes * bytes)) : option (slice A) :=
  foldl (λ acc raw, cur ← acc; slice_conv elem zero cur raw) (Some cur) (occurrences name ms).
(** A pointer field: [null] makes it nil, anything else is decoded over it. *)
Definition ptr_over {A} (dec : A → bytes → option A) (zero : A) (cur : option A) (name : bytes) (ms : list (bytes * bytes)) : option (option A) :=
  foldl (λ acc raw, cur ← acc; if beq raw null_text then Some None else Some <$> dec (default zero cur) raw) (Some cur) (occurrences name ms).
Definition raw_over (cur : bytes) (name : bytes) (ms : list (bytes * bytes)) : bytes := default cur (last (occurrences name ms)).

Definition zero_requirements : Requirements := mkRequirements nil_slice nil_slice.
Definition decode_requirements (prior : Requirements) (raw : bytes) : option Requirements :=
  ms ← struct_members true false [bs "required"; bs "optional"] raw;
  req ← slice_over string_elem [] (Required prior) (bs "required") ms;
  opt ← slice_over string_elem [] (Optional prior) (bs "optional") ms;
  Some (mkRequirements req opt).

Definition zero_interface : InterfaceDecl := mkInterfaceDecl [] 0 [] nil_slice.
Definition decode_interface (prior : InterfaceDecl) (raw : bytes) : option InterfaceDecl :=
  ms ← struct_members true false [bs "id"; bs "version"; bs "schema_hash"; bs "methods"] raw;
  id ← field conv_string (if_ID prior) (bs "id") ms;
  v ← field conv_int (if_Version prior) (bs "version") ms;
  sum ← field conv_string (SchemaHash prior) (bs "schema_hash") ms;
  methods ← slice_over string_elem [] (Methods prior) (bs "methods") ms;
  Some (mkInterfaceDecl id v sum methods).

Definition decode_interfaces (prior : InterfaceSet) (raw : bytes) : option InterfaceSet :=
  ms ← struct_members true false [bs "core"; bs "optional"] raw;
  core ← slice_over decode_interface zero_interface (if_Core prior) (bs "core") ms;
  opt ← slice_over decode_interface zero_interface (if_Optional prior) (bs "optional") ms;
  Some (mkInterfaceSet core opt).

Definition zero_variant : Variant := mkVariant [] [] [] [] [] [] [] [] [] [] None.
Definition decode_variant (prior : Variant) (raw : bytes) : option Variant :=
  ms ← struct_members true false [bs "variant_id"; bs "platform"; bs "arch"; bs "topology"; bs "execution_runtime"; bs "admission_profile"; bs "entrypoint";
         bs "artifact_hash"; bs "implements"; bs "variant_capabilities"; bs "requirements"] raw;
  id ← field conv_string (VariantID prior) (bs "variant_id") ms;
  platform ← field conv_string (Platform prior) (bs "platform") ms;
  arch ← field conv_string (Arch prior) (bs "arch") ms;
  topology ← field conv_string (Topology prior) (bs "topology") ms;
  runtime ← field conv_string (ExecutionRuntime prior) (bs "execution_runtime") ms;
  profile ← field conv_string (AdmissionProfile prior) (bs "admission_profile") ms;
  entry ← field conv_string (Entrypoint prior) (bs "entrypoint") ms;
  sum ← field conv_string (ArtifactHash prior) (bs "artifact_hash") ms;
  req ← ptr_over decode_requirements zero_requirements (v_Requirements prior) (bs "requirements") ms;
  Some (mkVariant id platform arch topology runtime profile entry sum (raw_over (Implements prior) (bs "implements") ms)
          (raw_over (VariantCapabilities prior) (bs "variant_capabilities") ms) req).

Definition manifest_fields : list bytes :=
  [bs "kind"; bs "id"; bs "version"; bs "package_hash"; bs "asset_type"; bs "plugin_family"; bs "aiios_min_version";
   bs "aiios_max_exclusive_version"; bs "title"; bs "description"; bs "bbb_protocol_version"; bs "publisher"; bs "interfaces"; bs "capability_envelope";
   bs "requirements"; bs "default_variant"; bs "variant_preference"; bs "variants"].

Definition decode_manifest (raw : bytes) : option Manifest :=
  ms ← struct_members true false manifest_fields raw;
  kind ← field conv_string [] (bs "kind") ms;
  id ← field conv_string [] (bs "id") ms;
  version ← field conv_string [] (bs "version") ms;
  sum ← field conv_string [] (bs "package_hash") ms;
  asset ← field conv_string [] (bs "asset_type") ms;
  family ← field conv_string [] (bs "plugin_family") ms;
  minv ← field conv_string [] (bs "aiios_min_version") ms;
  maxv ← field conv_string [] (bs "aiios_max_exclusive_version") ms;
  title ← field conv_string [] (bs "title") ms;
  descr ← field conv_string [] (bs "description") ms;
  bbb ← field conv_int 0 (bs "bbb_protocol_version") ms;
  publisher ← field conv_string [] (bs "publisher") ms;
  ifaces ← ptr_over decode_interfaces (mkInterfaceSet nil_slice nil_slice) None (bs "interfaces") ms;
  req ← ptr_over decode_requirements zero_requirements None (bs "requirements") ms;
  dflt ← field conv_string [] (bs "default_variant") ms;
  pref ← slice_field string_elem [] (bs "variant_preference") ms;
  variants ← slice_field decode_variant zero_variant (bs "variants") ms;
  Some (mkManifest kind id version sum asset family minv maxv title descr bbb publisher ifaces (raw_field (bs "capability_envelope") ms) req dflt pref variants).

(** ** The grammar *)

Definition enumHas (value : bytes) (allowed : list bytes) : bool := existsb (beq value) allowed.

(** The bytes before and after the first [:], neither empty. *)
Fixpoint cut_colon (p : bytes) : option (bytes * bytes) :=
  match p with
  | [] => None
  | c :: t => if c =? 58 then Some ([], t) else (λ '(a, b), (c :: a, b)) <$> cut_colon t
  end.

Definition SplitPredicate (p : bytes) : option (bytes * bytes) :=
  match cut_colon p with
  | Some (class, name) => if beq class [] || beq name [] then None else Some (class, name)
  | None => None
  end.

Definition predicate_classes : list bytes :=
  [bs "facility"; bs "runtime"; bs "distribution"; bs "backend"; bs "permission"; bs "topology"].

Definition requirement_ok (entry : bytes) : bool :=
  match SplitPredicate entry with
  | Some (class, name) => re_match rePredicateName name && enumHas class predicate_classes
  | None => false
  end.

(** The loop over one list: each well formed, none twice. *)
Fixpoint each_once (ok : bytes → bool) (seen : gset (list Z)) (l : list bytes) : bool :=
  match l with
  | [] => true
  | x :: rest => ok x && negb (bool_decide (x ∈ seen)) && each_once ok ({[x]} ∪ seen) rest
  end.

Definition requirement_list_ok (l : list bytes) : bool :=
  (length l <=? maxRequirementEntries)%nat && each_once requirement_ok ∅ l.

Definition validateRequirements (r : option Requirements) : bool :=
  match r with
  | None => true
  | Some r => requirement_list_ok (slice_items (Required r)) && requirement_list_ok (slice_items (Optional r))
  end.

(** [parseCapabilityList] with at most 32 entries: what [json.Unmarshal] makes of
    the text of a value, and the checks. *)
Definition string_list (raw : bytes) : option (list bytes) := slice_items <$> slice_conv string_elem [] nil_slice raw.

Definition parseCapabilityList (raw : bytes) : option (list bytes) :=
  caps ← string_list raw;
  if (32 <? length caps)%nat then None
  else if each_once (re_match reCapability) ∅ caps then Some caps else None.

Definition pairingOK (v : Variant) : bool :=
  let rt := ExecutionRuntime v in
  if beq rt (bs "service_process") then enumHas (AdmissionProfile v) [bs "standard"; bs "certified_native"]
  else if beq rt (bs "wasm_component") || beq rt (bs "wasm_aot_component") then beq (AdmissionProfile v) (bs "wasm_sandbox")
  else if beq rt (bs "inprocess_component") then
    beq (AdmissionProfile v) (bs "certified_native") && enumHas (Platform v) [bs "android"; bs "ios"] && beq (Topology v) (bs "mobile_app_host")
  else if beq rt (bs "native_t3_component") then beq (AdmissionProfile v) (bs "platform_reserved")
  else false.

Definition implements_ok (raw : bytes) : bool :=
  match (ms ← struct_members true false [bs "core"; bs "optional"] raw;
         core ← slice_field string_elem [] (bs "core") ms;
         opt ← slice_field string_elem [] (bs "optional") ms;
         Some (core, opt)) with
  | None => false
  | Some (core, opt) =>
    negb (bool_decide (core = [])) && (length core <=? 16)%nat && (length opt <=? 16)%nat && forallb (re_match reInterfaceRef) (core ++ opt)
  end.

Definition validateVariant (v : Variant) : bool :=
  re_match reVariantID (VariantID v)
  && enumHas (Platform v) [bs "linux"; bs "macos"; bs "windows"; bs "android"; bs "ios"]
  && enumHas (Arch v) [bs "x86_64"; bs "arm64"]
  && enumHas (Topology v) [bs "full_identity_host"; bs "mobile_app_host"]
  && enumHas (ExecutionRuntime v) [bs "service_process"; bs "wasm_component"; bs "wasm_aot_component"; bs "inprocess_component"; bs "native_t3_component"]
  && enumHas (AdmissionProfile v) [bs "standard"; bs "wasm_sandbox"; bs "certified_native"; bs "platform_reserved"]
  && re_match reEntrypoint (Entrypoint v)
  && re_match reSHA256 (ArtifactHash v)
  && pairingOK v
  && negb (beq (Implements v) []) && implements_ok (Implements v)
  && negb (beq (VariantCapabilities v) []) && bool_decide (is_Some (parseCapabilityList (VariantCapabilities v)))
  && validateRequirements (v_Requirements v).

(** The loop over the variants, by their ids. *)
Fixpoint variants_ok (seen : gset (list Z)) (vs : list Variant) : bool :=
  match vs with
  | [] => true
  | v :: rest => validateVariant v && negb (bool_decide (VariantID v ∈ seen)) && variants_ok ({[VariantID v]} ∪ seen) rest
  end.

Definition VariantPreferenceMinHost : bytes := bs "0.1.12".

Definition ValidateVariantPreference (raw minHost : bytes) (variants : gset (list Z)) : bool :=
  match string_list raw with
  | None => false
  | Some order =>
    if bool_decide (order = []) || (64 <? length order)%nat then false
    else if negb (ValidHostBound minHost) || (CompareHostBounds minHost VariantPreferenceMinHost <? 0) then false
    else each_once (λ id, bool_decide (id ∈ variants)) ∅ order && (size (list_to_set order : gset (list Z)) =? size variants)%nat
  end.

(** The members of the manifest's object, as [map[string]json.RawMessage]: the
    last of a name counts. *)
Definition manifest_keys (raw : bytes) : option (list (bytes * bytes)) := v ← one_value true raw; members_of v.
Definition has_key (name : bytes) (keys : list (bytes * bytes)) : bool := existsb (λ kv, beq kv.1 name) keys.

Definition validateAssetManifest (m : Manifest) (keys : list (bytes * bytes)) : bool :=
  enumHas (AssetType m) [bs "prompt_pack"; bs "static_template"; bs "skill"; bs "metadata_blob"]
  && negb (existsb (λ k, has_key k keys)
       [bs "plugin_family"; bs "bbb_protocol_version"; bs "interfaces"; bs "capability_envelope"; bs "operator_projection"; bs "operation_descriptors";
        bs "heartbeat"; bs "variants"; bs "variant_preference"]).

Definition interface_ok (d : InterfaceDecl) : bool :=
  re_match reInterfaceID (if_ID d) && (1 <=? if_Version d) && re_match reSHA256 (SchemaHash d)
  && negb (bool_decide (slice_items (Methods d) = [])) && (length (slice_items (Methods d)) <=? 16)%nat.

Definition validatePluginManifest (m : Manifest) (keys : list (bytes * bytes)) : bool :=
  negb (has_key (bs "asset_type") keys)
  && enumHas (PluginFamily m) [bs "channel_adapter"; bs "provider_bridge"; bs "tool_bridge"; bs "voice_interface"]
  && (BBBProtocolVersion m =? 2)
  && match Interfaces m with
     | None => false
     | Some s =>
       let core := slice_items (if_Core s) in
       let opt := slice_items (if_Optional s) in
       negb (bool_decide (length core = 0%nat)) && (length core <=? 16)%nat && (length opt <=? 16)%nat && forallb interface_ok (core ++ opt)
     end
  && has_key (bs "capability_envelope") keys && bool_decide (is_Some (parseCapabilityList (CapabilityEnvelope m)))
  && negb (bool_decide (length (Variants m) = 0%nat)) && variants_ok ∅ (Variants m)
  && (negb (has_key (bs "variant_preference") keys)
      || ValidateVariantPreference (raw_field (bs "variant_preference") keys) (AiiosMinVersion m) (list_to_set (VariantID <$> Variants m))).

Definition parseManifest (raw : bytes) : option Manifest :=
  keys ← manifest_keys raw;
  if negb (forallb (λ kv, enumHas kv.1 topLevelManifestKeys || re_match reXExtension kv.1) keys) then None
  else if existsb (λ name, has_key name keys && negb (CheckHostBoundRaw (raw_field name keys))) [bs "aiios_min_version"; bs "aiios_max_exclusive_version"] then None
  else
    m ← decode_manifest raw;
    if negb (has_key (bs "kind") keys) then None
    else if negb (enumHas (m_Kind m) [bs "asset"; bs "plugin"]) then None
    else if negb (ValidManifestID (m_ID m)) then None
    else if negb (CheckHostWindow (AiiosMinVersion m) (AiiosMaxExclusiveVersion m)) then None
    else if beq (m_Version m) [] then None
    else if negb (re_match reSHA256 (m_PackageHash m)) then None
    else if negb (validateRequirements (m_Requirements m)) then None
    else if negb (beq (DefaultVariant m) []) && negb (re_match reVariantID (DefaultVariant m)) then None
    else if beq (m_Kind m) (bs "asset") then (if validateAssetManifest m keys then Some m else None)
    else (if validatePluginManifest m keys then Some m else None).

(** ** What a manifest requires *)

(** The required predicates of the manifest and then of one variant of it. *)
Definition RequiredPredicates (m : Manifest) (v : option Variant) : list bytes :=
  let reqs r := match r with Some r => slice_items (Required r) | None => [] end in
  reqs (m_Requirements m) ++ match v with Some v => reqs (v_Requirements v) | None => [] end.

Definition is_backend (p : bytes) : bool :=
  match SplitPredicate p with Some (class, _) => beq class (bs "backend") | None => false end.

(** [collect]: what one declaration adds to the list and to the names seen. *)
Definition collect_backends (acc : list bytes * gset (list Z)) (r : option Requirements) : list bytes * gset (list Z) :=
  match r with
  | None => acc
  | Some r =>
    foldl (λ acc p, if is_backend p && negb (bool_decide (p ∈ acc.2)) then (acc.1 ++ [p], {[p]} ∪ acc.2) else acc)
      acc (slice_items (Required r) ++ slice_items (Optional r))
  end.

Definition BackendDeclarations (m : Manifest) (v : option Variant) : list bytes :=
  let acc := collect_backends ([], ∅) (m_Requirements m) in
  (match v with Some v => collect_backends acc (v_Requirements v) | None => acc end).1.
