(* ===== verification/ManifestFacts.v ===== *)
(** * Facts of the package manifest

    Version bounds compare as triples of numbers, and what an accepted manifest
    is known to be. *)

From stdpp Require Import gmap.
From S2P Require Import Prelude Utf8 GoJson CanonicalJson GoStruct Container Sections Regex Manifest.

(** ** Numbers of any length, as their digits *)

Abbreviation all_digits := (Forall (λ c, is_digit c = true)).

(** The number a text of digits spells. *)
Definition dec_value (s : bytes) : Z := foldl (λ n c, 10 * n + (c - 48)) 0 s.

Lemma dec_value_app s t : dec_value (s ++ t) = dec_value s * 10 ^ Z.of_nat (length t) + dec_value t.
Proof.
  unfold dec_value. rewrite foldl_app. generalize (foldl (λ n c, 10 * n + (c - 48)) 0 s) as a.
  induction t as [|c t IH] using rev_ind; intros a; cbn [foldl length]; [rewrite Z.mul_1_r; lia|].
  rewrite !foldl_app, length_app, Nat2Z.inj_add, Z.pow_add_r by lia. cbn [foldl length]. rewrite IH. change (10 ^ Z.of_nat 1) with 10. lia.
Qed.

Lemma dec_value_cons c t : dec_value (c :: t) = (c - 48) * 10 ^ Z.of_nat (length t) + dec_value t.
Proof. change (c :: t) with ([c] ++ t). rewrite dec_value_app. unfold dec_value at 1. cbn [foldl]. lia. Qed.

Lemma dec_value_bound s : all_digits s → 0 ≤ dec_value s < 10 ^ Z.of_nat (length s).
Proof.
  induction 1 as [|c t Hc _ IH]; [done|]. rewrite dec_value_cons. unfold is_digit in Hc. b2p.
  cbn [length]. rewrite Nat2Z.inj_succ, Z.pow_succ_r by lia. nia.
Qed.

Lemma trim_zeros_value s : dec_value (trim_zeros s) = dec_value s.
Proof.
  induction s as [|c s IH]; cbn [trim_zeros]; [done|]. destruct (Z.eqb_spec c 48) as [->|]; [|done]. rewrite IH, dec_value_cons. lia.
Qed.

Lemma trim_zeros_digits s : all_digits s → all_digits (trim_zeros s).
Proof. induction 1 as [|c s Hc Hs IH]; cbn; [done|]. destruct (c =? 48); [done|by constructor]. Qed.

Lemma trim_zeros_head s c t : trim_zeros s = c :: t → c ≠ 48.
Proof. induction s as [|d s IH]; cbn; [done|]. destruct (Z.eqb_spec d 48); [done|]. by intros [= <- _]. Qed.

(** A number with no leading zero is at least the power of ten below it. *)
Lemma dec_value_lead s c t : all_digits s → trim_zeros s = c :: t → 10 ^ Z.of_nat (length t) ≤ dec_value (c :: t).
Proof.
  intros Hd E. pose proof (trim_zeros_digits s Hd) as Ht. rewrite E in Ht. apply trim_zeros_head in E.
  apply Forall_cons in Ht as [Hc Ht]. pose proof (dec_value_bound t Ht). unfold is_digit in Hc. b2p. rewrite dec_value_cons. nia.
Qed.

(** The sign of a comparison, as Go's [Compare] functions answer it. *)
Definition sign (c : comparison) : Z := match c with Lt => -1 | Eq => 0 | Gt => 1 end.

Lemma strings_Compare_value a b : all_digits a → all_digits b → length a = length b →
  strings_Compare a b = sign (dec_value a ?= dec_value b).
Proof.
  intros Ha. revert b. induction Ha as [|x a Hx Ha IH]; intros b Hb; destruct Hb as [|y b Hy Hb]; try done; intros [= Hl]; [].
  cbn [strings_Compare]. rewrite !dec_value_cons. pose proof (dec_value_bound a Ha). pose proof (dec_value_bound b Hb). rewrite Hl in *.
  destruct (Z.ltb_spec x y).
  - by rewrite (proj2 (Z.compare_lt_iff _ _)) by nia.
  - destruct (Z.ltb_spec y x).
    + by rewrite (proj2 (Z.compare_gt_iff _ _)) by nia.
    + assert (x = y) as -> by lia. rewrite IH by done. f_equal. by rewrite Z.add_compare_mono_l.
Qed.

Lemma longer_is_greater s t : all_digits s → all_digits t →
  (length (trim_zeros s) < length (trim_zeros t))%nat → dec_value s < dec_value t.
Proof.
  intros Hs Ht Hl. rewrite <- (trim_zeros_value s), <- (trim_zeros_value t). destruct (trim_zeros t) as [|c u] eqn:E; [cbn in Hl; lia|].
  pose proof (dec_value_lead t c u Ht E). pose proof (dec_value_bound _ (trim_zeros_digits s Hs)) as [_ Hb]. cbn [length] in Hl.
  eapply Z.lt_le_trans; [exact Hb|]. etrans; [|done]. apply Z.pow_le_mono_r; lia.
Qed.

Lemma compareDecimal_value a b : all_digits a → all_digits b → compareDecimal a b = sign (dec_value a ?= dec_value b).
Proof.
  intros Ha Hb. unfold compareDecimal. destruct (Nat.eqb_spec (length (trim_zeros a)) (length (trim_zeros b))) as [E|E]; cbn [negb].
  - rewrite strings_Compare_value by auto using trim_zeros_digits. by rewrite !trim_zeros_value.
  - destruct (Nat.ltb_spec (length (trim_zeros a)) (length (trim_zeros b))).
    + by rewrite (proj2 (Z.compare_lt_iff _ _)) by (by apply longer_is_greater).
    + rewrite (proj2 (Z.compare_gt_iff _ _)); [done|]. apply longer_is_greater; [done..|lia].
Qed.

(** ** Bounds *)

Definition triple : Type := Z * Z * Z.
(** Versions in the order of their numbers, the major one first. *)
Definition triple_compare (x y : triple) : comparison :=
  let '(a, b, c) := x in let '(d, e, f) := y in
  match a ?= d with Eq => match b ?= e with Eq => c ?= f | r => r end | r => r end.

(** [v] spells the version [t]: three numbers with dots between them. *)
Definition spells_version (v : bytes) (t : triple) : Prop :=
  ∃ a b c, v = a ++ 46 :: b ++ 46 :: c ∧ (a ≠ [] ∧ all_digits a) ∧ (b ≠ [] ∧ all_digits b) ∧ (c ≠ [] ∧ all_digits c)
    ∧ t = (dec_value a, dec_value b, dec_value c).

Lemma in_digit_class c : in_class [cls_digits] c = is_digit c.
Proof. unfold in_class, is_digit. cbn. by rewrite orb_false_r. Qed.

Lemma in_number s : in_re (RPlus (RSet [cls_digits] [])) s ↔ s ≠ [] ∧ all_digits s.
Proof.
  unfold RSet. cbn [fmap list_fmap app]. rewrite in_plus_class. f_equiv. apply Forall_iff. intros c. by rewrite in_digit_class.
Qed.

(** The bounds accepted are exactly the spellings of versions. *)
Lemma ValidHostBound_spells v : ValidHostBound v = true ↔ ∃ t, spells_version v t.
Proof.
  unfold ValidHostBound. rewrite re_match_ok. unfold reHostBound. cbv zeta. split.
  - intros (a & r & -> & Ha & (d & r' & -> & ->%in_char & (b & r'' & -> & Hb & (d' & c & -> & ->%in_char & Hc)%in_seq_inv)%in_seq_inv)%in_seq_inv)%in_seq_inv.
    apply in_number in Ha, Hb, Hc. eexists. exists a, b, c. cbn. by eauto 7.
  - intros (t & a & b & c & -> & Ha & Hb & Hc & _). apply in_number in Ha, Hb, Hc.
    change (46 :: b ++ 46 :: c) with ([46] ++ (b ++ ([46] ++ c))). repeat (apply in_seq; [by (apply in_char || done)|]). done.
Qed.

Lemma split_on_last s : all_digits s → split_on 46 s = [s].
Proof. induction 1 as [|c s Hc _ IH]; cbn; [done|]. unfold is_digit in Hc. b2p. destruct (Z.eqb_spec c 46); [lia|]. by rewrite IH. Qed.

Lemma split_on_part s t : all_digits s → split_on 46 (s ++ 46 :: t) = s :: split_on 46 t.
Proof. induction 1 as [|c s Hc _ IH]; cbn; [done|]. unfold is_digit in Hc. b2p. destruct (Z.eqb_spec c 46); [lia|]. by rewrite IH. Qed.

Lemma split_version v t : spells_version v t →
  ∃ a b c, split_on 46 v = [a; b; c] ∧ all_digits a ∧ all_digits b ∧ all_digits c ∧ t = (dec_value a, dec_value b, dec_value c).
Proof.
  intros (a & b & c & -> & [_ Ha] & [_ Hb] & [_ Hc] & ->). exists a, b, c. by rewrite !split_on_part, split_on_last.
Qed.

Lemma compare_spelled v w x y : spells_version v x → spells_version w y → CompareHostBounds v w = sign (triple_compare x y).
Proof.
  intros (a & b & c & E1 & Ha & Hb & Hc & ->)%split_version (d & e & f & E2 & Hd & He & Hf & ->)%split_version.
  unfold CompareHostBounds. rewrite E1, E2. cbn [compare_parts]. rewrite !compareDecimal_value by done. unfold triple_compare.
  repeat match goal with |- context [?x ?= ?y] => destruct (x ?= y); cbn; try done end.
Qed.

(** [s] declares no bound or one that spells a version. *)
Definition bound_ok (s : bytes) : Prop := s = [] ∨ ∃ t, spells_version s t.

(** The window of two bounds: well formed, and not empty when both are given. *)
Definition window_ok (lo hi : bytes) : Prop :=
  bound_ok lo ∧ bound_ok hi ∧ ∀ x y, spells_version lo x → spells_version hi y → triple_compare x y = Lt.

Lemma spells_nonempty v t : spells_version v t → v ≠ [].
Proof. intros (a & b & c & -> & _). by destruct a. Qed.

Lemma bound_ok_iff s : bound_ok s ↔ negb (beq s []) && negb (ValidHostBound s) = false.
Proof.
  unfold bound_ok. rewrite andb_false_iff, !negb_false_iff, beq_true, ValidHostBound_spells. done.
Qed.

Lemma CheckHostWindow_ok lo hi : CheckHostWindow lo hi = true ↔ window_ok lo hi.
Proof.
  unfold CheckHostWindow, window_ok. rewrite !bound_ok_iff.
  destruct (negb (beq lo []) && negb (ValidHostBound lo)) eqn:E1, (negb (beq hi []) && negb (ValidHostBound hi)) eqn:E2; cbn [orb]; try naive_solver.
  apply bound_ok_iff in E1, E2.
  destruct (beq lo []) eqn:L; cbn [negb andb].
  { b2p. split; [|done]. intros _. split; [done|]. split; [done|]. intros x y Hx. by apply spells_nonempty in Hx. }
  destruct (beq hi []) eqn:H; cbn [negb andb].
  { b2p. split; [|done]. intros _. split; [done|]. split; [done|]. intros x y _ Hy. by apply spells_nonempty in Hy. }
  b2p. destruct E1 as [|[x Hx]]; [done|]. destruct E2 as [|[y Hy]]; [done|]. split.
  - intros Hn. split; [done|]. split; [done|]. intros x' y' Hx' Hy'. rewrite (compare_spelled _ _ _ _ Hx' Hy') in Hn. by destruct (triple_compare x' y').
  - intros (_ & _ & Hlt). by rewrite (compare_spelled _ _ _ _ Hx Hy), (Hlt _ _ Hx Hy).
Qed.

(** ** Lists without repetitions *)

Lemma each_once_ok ok seen l : each_once ok seen l = true ↔ Forall (λ x, ok x = true) l ∧ NoDup l ∧ ∀ x, x ∈ l → x ∉ seen.
Proof.
  revert seen. induction l as [|x l IH]; intros seen; cbn [each_once].
  { split; [intros _|done]. repeat split; [constructor..|]. by intros x ?%not_elem_of_nil. }
  rewrite !andb_true_iff, negb_true_iff, bool_decide_eq_false, IH, Forall_cons, NoDup_cons. set_solver.
Qed.

Lemma variants_ok_ok seen vs : variants_ok seen vs = true ↔
  Forall (λ v, validateVariant v = true) vs ∧ NoDup (VariantID <$> vs) ∧ ∀ v, v ∈ vs → VariantID v ∉ seen.
Proof.
  revert seen. induction vs as [|v vs IH]; intros seen; cbn [variants_ok].
  { split; [intros _|done]. repeat split; [constructor..|]. by intros x ?%not_elem_of_nil. }
  rewrite !andb_true_iff, negb_true_iff, bool_decide_eq_false, IH, Forall_cons, fmap_cons, NoDup_cons, list_elem_of_fmap. set_solver.
Qed.

(** ** What the grammar promises *)

Definition is_lower_hex (c : Z) : bool := between 48 57 c || between 97 102 c.
(** [sha256:] and 64 digits. *)
Definition sha_text (s : bytes) : Prop := ∃ h, s = bs "sha256:" ++ h ∧ length h = 64%nat ∧ Forall (λ c, is_lower_hex c = true) h.

Lemma reSHA256_ok s : re_match reSHA256 s = true ↔ sha_text s.
Proof.
  rewrite re_match_ok. unfold reSHA256, sha_text. rewrite in_seq_inv. setoid_rewrite in_str. unfold RSet. setoid_rewrite in_rep.
  assert (∀ h, Forall (λ c, in_class ([cls_digits; (97, 102)] ++ ((λ c, (c, c)) <$> [])) c = true) h ↔ Forall (λ c, is_lower_hex c = true) h) as Hh.
  { intros h. apply Forall_iff. intros c. unfold in_class, is_lower_hex, between. cbn. by rewrite orb_false_r. }
  setoid_rewrite Hh. naive_solver.
Qed.

(** [class:name] of one of the closed set of classes. *)
Definition predicate_text (p : bytes) : Prop := ∃ class name, p = class ++ 58 :: name ∧ class ∈ predicate_classes ∧ in_re rePredicateName name.
Definition requirement_list_valid (l : list bytes) : Prop := (length l ≤ 16)%nat ∧ NoDup l ∧ Forall predicate_text l.
Definition requirements_valid (r : option Requirements) : Prop :=
  ∀ q, r = Some q → requirement_list_valid (slice_items (Required q)) ∧ requirement_list_valid (slice_items (Optional q)).

Lemma enumHas_ok v l : enumHas v l = true ↔ v ∈ l.
Proof.
  unfold enumHas. rewrite existsb_exists, list_elem_of_In. setoid_rewrite beq_true. naive_solver.
Qed.

Lemma elem_of_pair {A} (x a b : A) : x ∈ [a; b] → x = a ∨ x = b.
Proof. rewrite !elem_of_cons. intros [?|[?|[]%not_elem_of_nil]]; auto. Qed.

Lemma cut_colon_app p a b : cut_colon p = Some (a, b) → p = a ++ 58 :: b.
Proof.
  revert a. induction p as [|c p IH]; intros a; cbn; [done|]. destruct (Z.eqb_spec c 58) as [->|]; [by intros [= <- <-]|].
  destruct (cut_colon p) as [[a' b']|]; [|done]. intros [= <- <-]. cbn. f_equal. by apply IH.
Qed.

Lemma requirement_ok_text p : requirement_ok p = true → predicate_text p.
Proof.
  unfold requirement_ok, SplitPredicate. destruct (cut_colon p) as [[class name]|] eqn:E; [|done]. destruct (beq class [] || beq name []); [done|].
  intros [Hn%re_match_ok Hc%enumHas_ok]%andb_true_iff. apply cut_colon_app in E. by exists class, name.
Qed.

Lemma requirement_list_ok_valid l : requirement_list_ok l = true → requirement_list_valid l.
Proof.
  unfold requirement_list_ok. intros [Hl%Nat.leb_le (Hf & Hd & _)%each_once_ok]%andb_true_iff. split; [done|]. split; [done|].
  eapply Forall_impl; [exact Hf|apply requirement_ok_text].
Qed.

Lemma validateRequirements_valid r : validateRequirements r = true → requirements_valid r.
Proof.
  intros H q ->. cbn in H. apply andb_true_iff in H as [H1%requirement_list_ok_valid H2%requirement_list_ok_valid]. done.
Qed.

(** The runtimes and the profiles they may be admitted with. *)
Definition allowed_pairs : list (bytes * bytes) :=
  [(bs "service_process", bs "standard"); (bs "service_process", bs "certified_native"); (bs "wasm_component", bs "wasm_sandbox");
   (bs "wasm_aot_component", bs "wasm_sandbox"); (bs "inprocess_component", bs "certified_native"); (bs "native_t3_component", bs "platform_reserved")].

Record variant_valid (v : Variant) : Prop := {
  vv_id : in_re reVariantID (VariantID v);
  vv_pair : (ExecutionRuntime v, AdmissionProfile v) ∈ allowed_pairs;
  vv_inprocess : ExecutionRuntime v = bs "inprocess_component" → (Platform v = bs "android" ∨ Platform v = bs "ios") ∧ Topology v = bs "mobile_app_host";
  vv_entry : ∃ dir file, Entrypoint v = bs "variants/" ++ dir ++ 47 :: file ∧ dir ≠ [] ∧ file ≠ [];
  vv_hash : sha_text (ArtifactHash v);
  vv_reqs : requirements_valid (v_Requirements v);
}.

Lemma reEntrypoint_ok s : re_match reEntrypoint s = true → ∃ dir file, s = bs "variants/" ++ dir ++ 47 :: file ∧ dir ≠ [] ∧ file ≠ [].
Proof.
  rewrite re_match_ok. unfold reEntrypoint.
  intros (a & r & -> & ->%in_str & (dir & r' & -> & Hd & (d & file & -> & ->%in_char & (x & y & -> & (z & -> & _)%in_class_inv & _)%in_seq_inv)%in_seq_inv)%in_seq_inv)%in_seq_inv.
  apply in_plus_class in Hd as [Hd _]. exists dir, (z :: y). done.
Qed.

Lemma pairingOK_valid v : pairingOK v = true → (ExecutionRuntime v, AdmissionProfile v) ∈ allowed_pairs
  ∧ (ExecutionRuntime v = bs "inprocess_component" → (Platform v = bs "android" ∨ Platform v = bs "ios") ∧ Topology v = bs "mobile_app_host").
Proof.
  unfold pairingOK. rewrite list_elem_of_In. unfold allowed_pairs.
  destruct (beq (ExecutionRuntime v) (bs "service_process")) eqn:E1.
  { intros H%enumHas_ok%elem_of_pair. b2p. rewrite E1. split; [|done]. cbn [In]. destruct H as [->| ->]; tauto. }
  destruct (beq (ExecutionRuntime v) (bs "wasm_component") || beq (ExecutionRuntime v) (bs "wasm_aot_component")) eqn:E2.
  { apply orb_true_iff in E2. intros ->%beq_true. destruct E2 as [->%beq_true| ->%beq_true]; (split; [cbn [In]; tauto|done]). }
  destruct (beq (ExecutionRuntime v) (bs "inprocess_component")) eqn:E3.
  { intros [[->%beq_true H%enumHas_ok]%andb_true_iff ->%beq_true]%andb_true_iff. b2p. rewrite E3. split; [cbn [In]; tauto|]. intros _. split; [by apply elem_of_pair|done]. }
  destruct (beq (ExecutionRuntime v) (bs "native_t3_component")) eqn:E4; [|done].
  intros ->%beq_true. b2p. rewrite E4. split; [cbn [In]; tauto|done].
Qed.

Lemma validateVariant_valid v : validateVariant v = true → variant_valid v.
Proof.
  unfold validateVariant. intros H. rewrite !andb_true_iff in H. destruct H as [[[[[[[[[[[[[Hi%re_match_ok _] _] _] _] _] He] Hh%reSHA256_ok] Hp] _] _] _] _] Hr].
  apply pairingOK_valid in Hp as [? ?]. split; auto using reEntrypoint_ok, validateRequirements_valid.
Qed.

(** ** The closed top level

    Field names match without case, but among the names the top level is closed
    to none stands for another. *)

Definition key_allowed (k : bytes) : bool := enumHas k topLevelManifestKeys || re_match reXExtension k.

Lemma fold_name_head c t : 0 ≤ c < 128 → head (fold_name (c :: t)) = Some (fold_rune c).
Proof.
  intros Hc. unfold fold_name, runes, decoded. cbn [decode_from fmap list_fmap head]. do 2 f_equal. unfold DecodeRune.
  by replace (between 0 127 c) with true by (unfold between; symmetry; apply andb_true_iff; lia).
Qed.

Lemma match_field_x names k : Forall (λ n, head (fold_name n) ≠ Some 88) names → existsb (beq k) names = false →
  re_match reXExtension k = true → match_field names k = None.
Proof.
  intros Hn He Hx. unfold match_field. rewrite He. destruct (find _ names) as [n|] eqn:Ef; [|done]. apply find_some in Ef as [Hin Heq]. rewrite bool_decide_eq_true in Heq.
  rewrite re_match_ok in Hx. apply in_seq_inv in Hx as (s1 & s2 & -> & ->%in_str & _). rewrite Forall_forall in Hn.
  exfalso. apply (Hn n); [by apply list_elem_of_In|]. rewrite Heq. by apply (fold_name_head 120).
Qed.

Lemma match_field_closed k n : key_allowed k = true → match_field manifest_fields k = Some n → k = n.
Proof.
  unfold key_allowed. destruct (existsb (beq k) manifest_fields) eqn:He.
  { intros _. unfold match_field. rewrite He. by intros [= ->]. }
  destruct (enumHas k topLevelManifestKeys) eqn:Ht; cbn [orb].
  - intros _. apply enumHas_ok in Ht.
    assert (Forall (λ k, existsb (beq k) manifest_fields = false → match_field manifest_fields k = None) topLevelManifestKeys) as Hf
      by (repeat constructor; vm_compute; congruence).
    rewrite Forall_forall in Hf. by rewrite (Hf k Ht He).
  - intros Hx. rewrite match_field_x; [done| |done..]. repeat constructor; vm_compute; congruence.
Qed.

Lemma match_members_closed keys ms : forallb (λ kv, key_allowed kv.1) keys = true → match_members false manifest_fields keys = Some ms →
  ∀ n, n ∈ manifest_fields → occurrences n ms = occurrences n keys.
Proof.
  revert ms. induction keys as [|[k raw] keys IH]; intros ms; cbn [forallb match_members fst].
  { by intros _ [= <-]. }
  intros [Hk Hr]%andb_true_iff Hm n Hn. unfold occurrences in *. rewrite filter_cons. cbn [fst].
  destruct (match_field manifest_fields k) as [n'|] eqn:E.
  - destruct (match_members false manifest_fields keys) as [ms'|] eqn:Em; [|done]. injection Hm as <-. apply match_field_closed in E as ->; [|done].
    rewrite filter_cons. cbn [fst]. destruct (decide (n' = n)); cbn [map]; [f_equal|]; by apply IH.
  - destruct (decide (k = n)) as [->|].
    + unfold match_field in E. assert (existsb (beq n) manifest_fields = true) as He by by apply enumHas_ok. by rewrite He in E.
    + by apply IH.
Qed.

Lemma has_key_occurrences n keys : has_key n keys = false → occurrences n keys = [].
Proof.
  unfold has_key, occurrences. induction keys as [|[k raw] keys IH]; cbn [existsb fst]; [done|]. intros [Hk Hr]%orb_false_iff. rewrite filter_cons. cbn [fst].
  b2p. destruct (decide (k = n)); [done|]. by apply IH.
Qed.

(** ** The order of preference *)

(** A string that is not empty did not come from [null], so what it was decoded over does not matter. *)
Lemma fill_slots_fresh old raws xs ys : fill_slots string_elem [] [] raws = Some xs → fill_slots string_elem [] old raws = Some ys →
  Forall (λ x, x ≠ []) xs → take (length raws) ys = xs.
Proof.
  revert old xs ys. induction raws as [|raw raws IH]; intros old xs ys; cbn [fill_slots head tail default length].
  { intros [= <-] _ _. apply take_0. }
  destruct (string_elem [] raw) as [x|] eqn:Ex; [|done]. cbn [mbind option_bind].
  destruct (fill_slots string_elem [] [] raws) as [xs'|] eqn:E1; [|done]. intros [= <-].
  destruct (string_elem (default [] (head old)) raw) as [y|] eqn:Ey; [|done]. cbn [mbind option_bind].
  destruct (fill_slots string_elem [] (tail old) raws) as [ys'|] eqn:E2; [|done]. intros [= <-] [Hx Hxs]%Forall_cons.
  cbn [take]. rewrite (IH _ _ _ eq_refl E2 Hxs). f_equal. unfold string_elem in *. destruct (beq raw null_text); congruence.
Qed.

Lemma fill_slots_length raws xs : fill_slots string_elem [] [] raws = Some xs → length xs = length raws.
Proof.
  revert xs. induction raws as [|raw raws IH]; intros xs; cbn [fill_slots head tail]; [by intros [= <-]|]. intros (y & _ & H)%bind_Some.
  apply fmap_Some in H as (xs' & H & ->). cbn. f_equal. by apply IH.
Qed.

Lemma slice_conv_fresh cur raw s s' : slice_conv string_elem [] nil_slice raw = Some s → slice_conv string_elem [] cur raw = Some s' →
  Forall (λ x, x ≠ []) (slice_items s) → slice_items s' = slice_items s.
Proof.
  unfold slice_conv. destruct (elems_of raw) as [[[|r raws]|]|]; [congruence| |congruence|done].
  intros (xs & E1 & ->)%fmap_Some (ys & E2 & ->)%fmap_Some. unfold slice_items. cbn [len slots].
  rewrite (take_ge xs) by (rewrite (fill_slots_length _ _ E1); done). intros Hf. by eapply fill_slots_fresh.
Qed.

(** The order decoded into the manifest is the one that was validated. *)
Lemma validated_order_decoded keys ms order pref :
  occurrences (bs "variant_preference") ms = occurrences (bs "variant_preference") keys →
  occurrences (bs "variant_preference") keys ≠ [] →
  string_list (raw_field (bs "variant_preference") keys) = Some order → Forall (λ x, x ≠ []) order →
  slice_field string_elem [] (bs "variant_preference") ms = Some pref → pref = order.
Proof.
  unfold string_list, raw_field, slice_field. intros -> Hne. destruct (exists_last Hne) as (raws & raw & ->). rewrite last_snoc. cbn [default].
  intros (s & Es & ->)%fmap_Some Hf (s' & Es' & ->)%fmap_Some. rewrite foldl_app in Es'. cbn [foldl] in Es'.
  apply bind_Some in Es' as (cur & _ & Es'). by eapply slice_conv_fresh.
Qed.

Lemma has_key_present n keys : has_key n keys = true → occurrences n keys ≠ [].
Proof.
  unfold has_key, occurrences. rewrite existsb_exists. intros ([k raw] & Hin & He). cbn in He. b2p. subst k.
  assert ((n, raw) ∈ filter (λ kv : bytes * bytes, kv.1 = n) keys) as H by (apply list_elem_of_filter; split; [done|by apply list_elem_of_In]).
  destruct (filter _ keys); [by apply not_elem_of_nil in H|done].
Qed.

(** A valid order of preference names every variant once. *)
Lemma ValidateVariantPreference_ok raw minHost ids : NoDup ids →
  ValidateVariantPreference raw minHost (list_to_set ids) = true →
  ∃ order, string_list raw = Some order ∧ order ≡ₚ ids ∧ (1 ≤ length order ≤ 64)%nat
    ∧ ∃ t, spells_version minHost t ∧ triple_compare t (0, 1, 12) ≠ Lt.
Proof.
  intros Hnd. unfold ValidateVariantPreference. destruct (string_list raw) as [order|]; [|done].
  destruct (bool_decide (order = []) || (64 <? length order)%nat) eqn:El; [done|]. apply orb_false_iff in El as [Hne%bool_decide_eq_false Hl%Nat.ltb_ge].
  destruct (negb (ValidHostBound minHost) || (CompareHostBounds minHost VariantPreferenceMinHost <? 0)) eqn:Eh; [done|].
  apply orb_false_iff in Eh as [[t Ht]%negb_false_iff%ValidHostBound_spells Hc]. intros [(Hf & Ho & _)%each_once_ok Hs%Nat.eqb_eq]%andb_true_iff.
  exists order. split; [done|]. split.
  - rewrite !size_list_to_set in Hs by done. apply submseteq_length_Permutation; [|lia]. apply NoDup_submseteq; [done|]. intros x Hx.
    rewrite Forall_forall in Hf. specialize (Hf x Hx). rewrite bool_decide_eq_true, elem_of_list_to_set in Hf. done.
  - split; [split; [destruct order; [done|cbn; lia]|done]|]. exists t. split; [done|]. intros Hlt.
    rewrite (compare_spelled minHost VariantPreferenceMinHost t (0, 1, 12) Ht), Hlt in Hc; [done|].
    exists (bs "0"), (bs "1"), (bs "12"). repeat split; (discriminate || (repeat constructor)).
Qed.

(** ** An accepted manifest *)

Definition plugin_valid (m : Manifest) : Prop :=
  Variants m ≠ [] ∧ NoDup (VariantID <$> Variants m) ∧ Forall variant_valid (Variants m)
  ∧ BBBProtocolVersion m = 2
  ∧ (VariantPreference m = [] ∨ VariantPreference m ≡ₚ VariantID <$> Variants m).
(** An asset declares nothing that could run. *)
Definition asset_valid (m : Manifest) : Prop :=
  Variants m = [] ∧ VariantPreference m = [] ∧ Interfaces m = None ∧ PluginFamily m = [] ∧ BBBProtocolVersion m = 0 ∧ CapabilityEnvelope m = [].

Record manifest_valid (m : Manifest) : Prop := {
  mv_id : in_re reManifestID (m_ID m);
  mv_version : m_Version m ≠ [];
  mv_hash : sha_text (m_PackageHash m);
  mv_window : window_ok (AiiosMinVersion m) (AiiosMaxExclusiveVersion m);
  mv_reqs : requirements_valid (m_Requirements m);
  mv_kind : (m_Kind m = bs "plugin" ∧ plugin_valid m) ∨ (m_Kind m = bs "asset" ∧ asset_valid m);
}.

(** Every field of the manifest read from the members of the object. *)
Lemma decode_manifest_fields raw m keys : manifest_keys raw = Some keys → forallb (λ kv, key_allowed kv.1) keys = true →
  decode_manifest raw = Some m → ∃ ms, (∀ n, n ∈ manifest_fields → occurrences n ms = occurrences n keys)
    ∧ field conv_string [] (bs "plugin_family") ms = Some (PluginFamily m)
    ∧ field conv_int 0 (bs "bbb_protocol_version") ms = Some (BBBProtocolVersion m)
    ∧ ptr_over decode_interfaces (mkInterfaceSet nil_slice nil_slice) None (bs "interfaces") ms = Some (Interfaces m)
    ∧ raw_field (bs "capability_envelope") ms = CapabilityEnvelope m
    ∧ slice_field string_elem [] (bs "variant_preference") ms = Some (VariantPreference m)
    ∧ slice_field decode_variant zero_variant (bs "variants") ms = Some (Variants m).
Proof.
  unfold manifest_keys, decode_manifest, struct_members. intros (v & Ev & Ek)%bind_Some Hall (ms & Em & H)%bind_Some.
  rewrite Ev in Em. cbn [mbind option_bind] in Em. rewrite Ek in Em. cbn [mbind option_bind] in Em. exists ms.
  split; [by apply match_members_closed|]. repeat (apply bind_Some in H as (? & ? & H)). injection H as <-. cbn. done.
Qed.

Lemma each_absent l keys : existsb (λ k, has_key k keys) l = false → Forall (λ k, occurrences k keys = []) l.
Proof.
  intros H. apply Forall_forall. intros k Hk. apply has_key_occurrences. destruct (has_key k keys) eqn:E; [|done].
  assert (existsb (λ k, has_key k keys) l = true) as H' by (apply existsb_exists; exists k; split; [by apply list_elem_of_In|done]). congruence.
Qed.

Lemma asset_manifest_valid raw m keys : manifest_keys raw = Some keys → forallb (λ kv, key_allowed kv.1) keys = true →
  decode_manifest raw = Some m → validateAssetManifest m keys = true → asset_valid m.
Proof.
  intros Hk Hall Hd [_ Hv%negb_true_iff]%andb_true_iff. pose proof (each_absent _ _ Hv) as Ha. clear Hv.
  destruct (decode_manifest_fields raw m keys Hk Hall Hd) as (ms & Ho & Hfam & Hbbb & Hif & Hcap & Hpref & Hvar).
  assert (∀ k, k ∈ manifest_fields → occurrences k keys = [] → occurrences k ms = []) as Hms by (intros k Hi <-; by apply Ho).
  repeat match type of Ha with Forall _ (_ :: _) => apply Forall_cons in Ha as [? Ha] end.
  unfold field, ptr_over, raw_field, slice_field in *.
  repeat match goal with H : occurrences ?k keys = [] |- _ =>
    match goal with H' : context [occurrences k ms] |- _ => rewrite (Hms k (proj1 (enumHas_ok k manifest_fields) eq_refl) H) in H' end; clear H end.
  cbn in *. unfold asset_valid. naive_solver.
Qed.

Lemma plugin_manifest_valid raw m keys : manifest_keys raw = Some keys → forallb (λ kv, key_allowed kv.1) keys = true →
  decode_manifest raw = Some m → validatePluginManifest m keys = true → plugin_valid m.
Proof.
  intros Hk Hall Hd Hv. unfold validatePluginManifest in Hv. rewrite !andb_true_iff in Hv.
  destruct Hv as [[[[[[[[_ _] Hbbb%Z.eqb_eq] _] _] _] Hne] (Hf & Hnd & _)%variants_ok_ok] Hp].
  destruct (decode_manifest_fields raw m keys Hk Hall Hd) as (ms & Ho & _ & _ & _ & _ & Hpref & _).
  assert (Forall variant_valid (Variants m)) as Hvv by (eapply Forall_impl; [exact Hf|apply validateVariant_valid]).
  split; [by destruct (Variants m)|]. split; [done|]. split; [done|]. split; [done|].
  specialize (Ho _ (proj1 (enumHas_ok (bs "variant_preference") manifest_fields) eq_refl)).
  destruct (has_key (bs "variant_preference") keys) eqn:Eh.
  - right. cbn [negb orb] in Hp. apply ValidateVariantPreference_ok in Hp as (order & Eo & Hperm & _); [|done].
    assert (Forall (λ x, x ≠ []) order) as Hn.
    { rewrite Hperm. apply Forall_fmap. eapply Forall_impl; [exact Hvv|]. intros v [Hid _ _ _ _ _]. by apply in_plus_class in Hid as [? _]. }
    by rewrite (validated_order_decoded keys ms order (VariantPreference m) Ho (has_key_present _ _ Eh) Eo Hn Hpref).
  - left. unfold slice_field in Hpref. rewrite Ho, (has_key_occurrences _ _ Eh) in Hpref. cbn in Hpref. congruence.
Qed.

Lemma parseManifest_valid raw m : parseManifest raw = Some m → manifest_valid m.
Proof.
  unfold parseManifest. intros (keys & Hk & H)%bind_Some.
  destruct (forallb _ keys) eqn:Hall in H; cbn [negb] in H; [|done].
  destruct (existsb _ _) eqn:Hb in H; [done|]. apply bind_Some in H as (m' & Hd & H).
  destruct (has_key (bs "kind") keys) in H; cbn [negb] in H; [|done].
  destruct (enumHas (m_Kind m') [bs "asset"; bs "plugin"]) eqn:Hkind in H; cbn [negb] in H; [|done].
  destruct (ValidManifestID (m_ID m')) eqn:Hid in H; cbn [negb] in H; [|done].
  destruct (CheckHostWindow (AiiosMinVersion m') (AiiosMaxExclusiveVersion m')) eqn:Hw in H; cbn [negb] in H; [|done].
  destruct (beq (m_Version m') []) eqn:Hver in H; [done|].
  destruct (re_match reSHA256 (m_PackageHash m')) eqn:Hsha in H; cbn [negb] in H; [|done].
  destruct (validateRequirements (m_Requirements m')) eqn:Hreq in H; cbn [negb] in H; [|done].
  destruct (negb (beq (DefaultVariant m') []) && negb (re_match reVariantID (DefaultVariant m'))) in H; [done|].
  assert (m' = m ∧ ((m_Kind m' = bs "plugin" ∧ plugin_valid m') ∨ (m_Kind m' = bs "asset" ∧ asset_valid m'))) as [-> Hvalid].
  { destruct (beq (m_Kind m') (bs "asset")) eqn:Ea.
    - destruct (validateAssetManifest m' keys) eqn:Hv; [|done]. injection H as <-. split; [done|]. right. b2p. split; [done|].
      by eapply asset_manifest_valid.
    - destruct (validatePluginManifest m' keys) eqn:Hv; [|done]. injection H as <-. split; [done|]. left. b2p.
      apply enumHas_ok, elem_of_pair in Hkind as [?|?]; [done|]. split; [done|]. by eapply plugin_manifest_valid. }
  b2p. split; [by apply re_match_ok|done|by apply reSHA256_ok|by apply CheckHostWindow_ok|by apply validateRequirements_valid|done].
Qed.

(** ** The properties *)

(** The window of host versions a manifest declares is accepted exactly when
    each bound given spells three numbers and, where both are given, the lower
    version precedes the upper one in the order of its numbers (major, minor,
    patch), whatever their lengths and leading zeros. *)
Theorem host_window_decides lo hi : CheckHostWindow lo hi = true ↔ window_ok lo hi.
Proof. apply CheckHostWindow_ok. Qed.


Definition zeros64 : string := "0000000000000000000000000000000000000000000000000000000000000000".
Definition sample_manifest : bytes :=
  js ("{'kind':'plugin','id':'demo.tool','version':'1.0','package_hash':'sha256:" ++ zeros64 ++ "','plugin_family':'tool_bridge',"
   ++ "'bbb_protocol_version':2,'aiios_min_version':'0.1.012','aiios_max_exclusive_version':'0.2.0','x-note':1,"
   ++ "'interfaces':{'core':[{'id':'demo.tool','version':1,'schema_hash':'sha256:" ++ zeros64 ++ "','methods':['run']}]},"
   ++ "'capability_envelope':['net.fetch:a'],'requirements':{'required':['backend:gpu/x']},'variant_preference':['b','a'],"
   ++ "'variants':[{'variant_id':'a','platform':'linux','arch':'arm64','topology':'full_identity_host','execution_runtime':'wasm_component',"
   ++ "'admission_profile':'wasm_sandbox','entrypoint':'variants/a/m.wasm','artifact_hash':'sha256:" ++ zeros64 ++ "',"
   ++ "'implements':{'core':['demo.tool@1']},'variant_capabilities':[]},"
   ++ "{'variant_id':'b','platform':'linux','arch':'arm64','topology':'full_identity_host','execution_runtime':'service_process',"
   ++ "'admission_profile':'standard','entrypoint':'variants/b/run','artifact_hash':'sha256:" ++ zeros64 ++ "',"
   ++ "'implements':{'core':['demo.tool@1']},'variant_capabilities':[]}]}")%string.

