(* ===== verification/Trust.v ===== *)
(** * internal/packagefmt: trust roots, trust objects and revocation

    trust.go, revocation.go, contract.go and shipped.go: the pinned roots, the
    signed objects of a package and how each is verified, the signed revocation
    snapshots with their epochs, and the tier contract.  An error of the trust
    objects is its [Reason]; the guard that remembers the highest epoch accepted
    is an interface ([EpochGuard]), met here by the store's table of epochs. *)

From stdpp Require Import gmap.
From S2P Require Import Prelude Utf8 GoJson CanonicalJson GoStruct Crypto Event Container Time SigEnvelope Sections Tar Manifest.

(** ** Names *)

Definition artifactKindPublisherCert : bytes := bs "plugin.publisher_certificate".
Definition artifactKindManifestSig : bytes := bs "plugin.manifest".
Definition artifactKindAttestation : bytes := bs "plugin.attestation".
Definition artifactKindPlatformSig : bytes := bs "plugin.platform_release".
Definition keyTypePublisher : bytes := bs "plugin_publisher".
Definition keyTypePublisherCertifier : bytes := bs "plugin_publisher_certifier".
Definition keyTypeReviewer : bytes := bs "plugin_reviewer".
Definition keyTypePlatformRelease : bytes := bs "platform_release".
Definition ArtifactKindHostRelease : bytes := bs "release.platform_release".
Definition ArtifactKindRevocationStatus : bytes := bs "plugin.revocation_status".

(** ** Tiers and their contract *)

Inductive Tier := TierT0 | TierT1 | TierT2 | TierT3.
#[export] Instance Tier_eq_dec : EqDecision Tier.
Proof. solve_decision. Defined.

Definition tier_index (t : Tier) : Z := match t with TierT0 => 0 | TierT1 => 1 | TierT2 => 2 | TierT3 => 3 end.
Definition Tier_String (t : Tier) : bytes := match t with TierT0 => bs "T0" | TierT1 => bs "T1" | TierT2 => bs "T2" | TierT3 => bs "T3" end.

(** The members of the contract file the code reads; the file is embedded in the
    program, so its values are constants of it. *)
Record tierContract := mkContract {
  WASMBaselineRequiredT0T1T2 : bool;
  T3WASMBaselineRequired : bool;
  PublisherCertRequiredT1T2 : bool;
  CertifiedNativeAtT2Plus : bool;
  T2RequiresValidT1 : bool;
  T3RequiresPlatformReleaseSig : bool;
  T3RequiresPublisherSig : bool;
  NativeBelowT2DeniedReason : bytes;
}.
Definition contract : tierContract := mkContract true false true true true true false (bs "NATIVE_TRUST_TIER_INELIGIBLE").

Definition reasonNativeTierIneligible : Reason := ReasonOther (NativeBelowT2DeniedReason contract).

Definition PublisherProven (t : Tier) : bool :=
  match t with
  | TierT1 | TierT2 => PublisherCertRequiredT1T2 contract
  | TierT3 => T3RequiresPlatformReleaseSig contract
  | TierT0 => false
  end.
Definition ReviewProven (t : Tier) : bool :=
  match t with
  | TierT2 => CertifiedNativeAtT2Plus contract && PublisherProven t
  | TierT3 => T3RequiresPlatformReleaseSig contract
  | _ => false
  end.

(** ** Payloads *)

Record hashPairPayload := mkHashPair { hp_PackageHash : bytes; hp_ManifestHash : bytes }.
Record certPayload := mkCert { cert_PublisherID : bytes; cert_PublisherKey : bytes }.
Record attestationPayload := mkAttestation {
  att_PluginID : bytes;
  att_Version : bytes;
  att_PackageHash : bytes;
  att_ManifestHash : bytes;
  att_ReviewedCapabilities : option (list bytes);   (** [None] is the nil slice *)
}.
Record RevokedEntry := mkRevoked { rv_ArtifactKind : bytes; rv_PayloadSHA256 : bytes }.
Record revocationPayload := mkRevocation { SchemaVersion : option Z; rp_TrustEpoch : option Z; rp_Revoked : option (slice RevokedEntry) }.

(** [dec.More] after the one value of the text: something other than a closing
    bracket follows. *)
Definition trailing_data (raw : bytes) : bool :=
  match value_end (skip_space raw) with
  | Some rest => match skip_space rest with [] => false | c :: _ => negb ((c =? 93) || (c =? 125)) end
  | None => false
  end.

(** [strictDecode] into a struct with the given fields: its members. *)
Definition strict_members (names : list bytes) (raw : bytes) : option (list (bytes * bytes)) :=
  ms ← struct_members false true names raw; if trailing_data raw then None else Some ms.

Definition decode_pair (raw : bytes) : option hashPairPayload :=
  ms ← strict_members [bs "package_hash"; bs "manifest_hash"] raw;
  p ← field conv_string [] (bs "package_hash") ms;
  m ← field conv_string [] (bs "manifest_hash") ms;
  Some (mkHashPair p m).

Definition decode_cert (raw : bytes) : option certPayload :=
  ms ← strict_members [bs "publisher_id"; bs "publisher_key"] raw;
  id ← field conv_string [] (bs "publisher_id") ms;
  Some (mkCert id (raw_field (bs "publisher_key") ms)).

Definition decode_attestation (raw : bytes) : option attestationPayload :=
  ms ← strict_members [bs "plugin_id"; bs "version"; bs "package_hash"; bs "manifest_hash"; bs "reviewed_capabilities"] raw;
  id ← field conv_string [] (bs "plugin_id") ms;
  v ← field conv_string [] (bs "version") ms;
  p ← field conv_string [] (bs "package_hash") ms;
  m ← field conv_string [] (bs "manifest_hash") ms;
  caps ← slice_field string_elem [] (bs "reviewed_capabilities") ms;
  Some (mkAttestation id v p m ((λ _, caps) <$> raw_ptr_field (bs "reviewed_capabilities") ms)).

Definition decode_revoked (prior : RevokedEntry) (raw : bytes) : option RevokedEntry :=
  ms ← struct_members true true [bs "artifact_kind"; bs "payload_sha256"] raw;
  k ← field conv_string (rv_ArtifactKind prior) (bs "artifact_kind") ms;
  d ← field conv_string (rv_PayloadSHA256 prior) (bs "payload_sha256") ms;
  Some (mkRevoked k d).

Definition decode_revocation (raw : bytes) : option revocationPayload :=
  ms ← strict_members [bs "schema_version"; bs "trust_epoch"; bs "revoked"] raw;
  v ← ptr_over (λ _, conv_int) 0 None (bs "schema_version") ms;
  e ← ptr_over (λ _, conv_int) 0 None (bs "trust_epoch") ms;
  r ← ptr_over (slice_conv decode_revoked (mkRevoked [] [])) nil_slice None (bs "revoked") ms;
  Some (mkRevocation v e r).

(** ** Revocation snapshots *)

Record RevocationDomain := mkDomain { RootKeyType : bytes; FileName : bytes; ArtifactKinds : list bytes }.

Definition revocationDomains : list RevocationDomain :=
  [mkDomain keyTypePublisherCertifier (bs "aiii_plugin_publisher_certifier_status.json") [artifactKindPublisherCert; artifactKindManifestSig];
   mkDomain keyTypeReviewer (bs "aiii_plugin_reviewer_status.json") [artifactKindAttestation];
   mkDomain keyTypePlatformRelease (bs "aiii_platform_release_status.json") [artifactKindPlatformSig; ArtifactKindHostRelease]].

(** Why a snapshot is absent. *)
Inductive snap_err :=
| SNoRoot | SUnreadable | SMissing | SNotShipped | SNoneShipped | SRoot (e : envelope_err) | SKeyType | SVerify (e : envelope_err) | SPayload
| SMember | SSchema | SEpoch | SKind | SDigest | SUnsorted | SCanon | SHighWater | SRollback | SFork | SNotRecorded.

Record rootSnapshot := mkSnapshot {
  snap_domain : RevocationDomain;
  trustEpoch : Z;
  payloadSHA256 : bytes;
  revoked : gset (list Z);
}.

(** The set of snapshots, each present or absent with the reason; [None] is the
    nil set. *)
Abbreviation RevocationStatusSet := (option (gmap (list Z) (result snap_err rootSnapshot))).

Record TrustRoots := mkRoots {
  PublisherCertifier : option PublicKeyEnvelope;
  Reviewer : option PublicKeyEnvelope;
  PlatformRelease : option PublicKeyEnvelope;
  Revocation : RevocationStatusSet;
}.

Definition rootForDomain (roots : TrustRoots) (keyType : bytes) : option PublicKeyEnvelope :=
  if beq keyType keyTypePublisherCertifier then PublisherCertifier roots
  else if beq keyType keyTypeReviewer then Reviewer roots
  else if beq keyType keyTypePlatformRelease then PlatformRelease roots
  else None.

Definition lookup_snapshot (s : RevocationStatusSet) (rootKeyType : bytes) : option (result snap_err rootSnapshot) :=
  match s with None => None | Some m => m !! rootKeyType end.

Definition Epoch (s : RevocationStatusSet) (rootKeyType : bytes) : Z * bool :=
  match lookup_snapshot s rootKeyType with Some (Ok snap) => (trustEpoch snap, true) | _ => (0, false) end.

Definition revokedKey (kind digest : bytes) : bytes := kind ++ [10] ++ digest.

(** No upper-case letter in the digits. *)
Definition validateRevokedDigest (v : bytes) : bool :=
  is_ok (ValidatePayloadSHA256 v) && beq (asciiLower <$> TrimPrefix v (bs "sha256:")) (TrimPrefix v (bs "sha256:")).

(** The loop over the revoked entries: of the domain, well formed, strictly
    ascending; the keys they leave. *)
Fixpoint revoked_keys (kinds : list bytes) (prev : option RevokedEntry) (l : list RevokedEntry) (acc : gset (list Z)) : result snap_err (gset (list Z)) :=
  match l with
  | [] => Ok acc
  | e :: rest =>
    if negb (existsb (beq (rv_ArtifactKind e)) kinds) then Err SKind
    else if negb (validateRevokedDigest (rv_PayloadSHA256 e)) then Err SDigest
    else if match prev with
            | Some p => negb (bytes_leb (rv_ArtifactKind p) (rv_ArtifactKind e))
                        || (beq (rv_ArtifactKind p) (rv_ArtifactKind e) && bytes_leb (rv_PayloadSHA256 e) (rv_PayloadSHA256 p))
            | None => false
            end then Err SUnsorted
    else revoked_keys kinds (Some e) rest ({[revokedKey (rv_ArtifactKind e) (rv_PayloadSHA256 e)]} ∪ acc)
  end.

(** What a read of a file in the trust directory gives. *)
Inductive file_read := Found (raw : bytes) | NotExist | ReadFailed.

(** ** The epoch guard

    What the loader asks of whoever remembers epochs, on a state [S]. *)

Class EpochGuard (S : Type) := {
  (** the highest epoch accepted for a root and its payload; [None] on a failed read *)
  TrustEpochHighWater : S → bytes → option (option (Z * bytes));
  (** record an acceptance; [false] when it could not be recorded *)
  AcceptTrustEpoch : S → bytes → Z → bytes → S * bool;
}.

(** What an acceptance does to the marks: on success the root's mark is the one
    accepted, on failure it is that or the one before, and the marks of other
    roots stay. *)
Class EpochGuardLaws (S : Type) `{EpochGuard S} := {
  accept_sets : ∀ s s' root epoch sha, is_Some (TrustEpochHighWater s root) → AcceptTrustEpoch s root epoch sha = (s', true) →
    TrustEpochHighWater s' root = Some (Some (epoch, sha));
  accept_fails : ∀ s s' root epoch sha, is_Some (TrustEpochHighWater s root) → AcceptTrustEpoch s root epoch sha = (s', false) →
    TrustEpochHighWater s' root = TrustEpochHighWater s root ∨ TrustEpochHighWater s' root = Some (Some (epoch, sha));
  accept_others : ∀ s s' root root' epoch sha b, AcceptTrustEpoch s root epoch sha = (s', b) → root' ≠ root →
    TrustEpochHighWater s' root' = TrustEpochHighWater s root';
}.

(** The answer and the state it leaves. *)
Definition applyEpochGuard {S} `{EpochGuard S} (snap : rootSnapshot) (s : S) (record : bool) : S * result snap_err unit :=
  let root := RootKeyType (snap_domain snap) in
  let accept :=
    if negb record then (s, Ok ())
    else let '(s', ok) := AcceptTrustEpoch s root (trustEpoch snap) (payloadSHA256 snap) in (s', if ok then Ok () else Err SNotRecorded) in
  match TrustEpochHighWater s root with
  | None => (s, Err SHighWater)
  | Some (Some (hw, hwSHA)) =>
    if trustEpoch snap <? hw then (s, Err SRollback)
    else if trustEpoch snap =? hw then (s, if beq (payloadSHA256 snap) hwSHA then Ok () else Err SFork)
    else accept
  | Some None => accept
  end.

(** ** The files the program ships *)

Class Shipped := { shipped_file : bytes → option bytes }.

Definition shipped_root_file (keyType : bytes) : option bytes :=
  if beq keyType keyTypePlatformRelease then Some (bs "shipped/platform_release_root.json")
  else if beq keyType keyTypeReviewer then Some (bs "shipped/reviewer_root.json")
  else if beq keyType keyTypePublisherCertifier then Some (bs "shipped/publisher_certifier_root.json")
  else None.

Definition sameRoot (a b : option PublicKeyEnvelope) : bool :=
  match a, b with Some a, Some b => beq (pke_KeyID a) (pke_KeyID b) | _, _ => false end.

Section Trust.
Context `{P : Primitives} `{Sh : Shipped}.

Definition shippedSnapshot (fileName : bytes) : option bytes := shipped_file (bs "shipped/" ++ fileName).

(** A program whose shipped root is missing or unreadable does not run: [None]. *)
Definition shippedRoot (keyType : bytes) : option (option PublicKeyEnvelope) :=
  match shipped_root_file keyType with
  | None => Some None
  | Some name =>
    raw ← shipped_file name;
    env ← decode_key_envelope raw;
    if negb (is_ok (ValidatePublicKeyEnvelopeShape env [ProfileRoot])) then None
    else if negb (beq (pke_KeyType env) keyType) then None
    else Some (Some env)
  end.

Definition ShippedRoots : option TrustRoots :=
  p ← shippedRoot keyTypePlatformRelease; r ← shippedRoot keyTypeReviewer; c ← shippedRoot keyTypePublisherCertifier;
  Some (mkRoots c r p None).

(** [LoadPinnedRoot] of what reading the path gave; the empty path pins nothing. *)
Definition LoadPinnedRoot (path : bytes) (content : file_read) (now : Z) : option (option PublicKeyEnvelope) :=
  if beq path [] then Some None
  else match content with
       | Found raw =>
         env ← decode_key_envelope raw;
         if is_ok (ValidatePublicKeyEnvelope env [ProfileRoot] now) then Some (Some env) else None
       | _ => None
       end.

Definition parseRootSnapshot (raw : bytes) (d : RevocationDomain) (root : PublicKeyEnvelope) (now : Z) : result snap_err rootSnapshot :=
  _ ← map_err SRoot (ValidatePublicKeyEnvelope root [ProfileRoot] now);
  if negb (beq (pke_KeyType root) (RootKeyType d)) then Err SKeyType
  else
    payloadRaw ← map_err SVerify (VerifyPayload raw root ArtifactKindRevocationStatus [ProfileRoot]);
    p ← of_option SPayload (decode_revocation payloadRaw);
    match SchemaVersion p, rp_TrustEpoch p, rp_Revoked p with
    | Some v, Some e, Some r =>
      if negb (v =? 1) then Err SSchema
      else if e <? 1 then Err SEpoch
      else
        keys ← revoked_keys (ArtifactKinds d) None (slice_items r) ∅;
        canonical ← map_err (λ _, SCanon) (CanonicalizeV1 payloadRaw);
        mret (mkSnapshot d e (SHA256Prefixed canonical) keys)
    | _, _, _ => Err SMember
    end.

Definition shippedStandIn (d : RevocationDomain) (root : PublicKeyEnvelope) (now : Z) : option (result snap_err rootSnapshot) :=
  shipped ← shippedRoot (RootKeyType d);
  if negb (sameRoot (Some root) shipped) then Some (Err SNotShipped)
  else match shippedSnapshot (FileName d) with
       | None => Some (Err SNoneShipped)
       | Some raw => Some (parseRootSnapshot raw d root now)
       end.

Section Loading.
Context {S : Type} `{G : EpochGuard S}.

(** The trust directory as its files read. *)
Definition loadRootSnapshot (dir : bytes → file_read) (d : RevocationDomain) (root : option PublicKeyEnvelope) (guard : option S) (now : Z) :
    option (option S * result snap_err rootSnapshot) :=
  match root with
  | None => Some (guard, Err SNoRoot)
  | Some root =>
    match dir (FileName d) with
    | ReadFailed => Some (guard, Err SUnreadable)
    | NotExist =>
      match guard with
      | Some _ => Some (guard, Err SMissing)
      | None => snap ← shippedStandIn d root now; Some (guard, snap)
      end
    | Found raw =>
      match parseRootSnapshot raw d root now, guard with
      | Err e, _ => Some (guard, Err e)
      | Ok snap, None => Some (guard, Ok snap)
      | Ok snap, Some s =>
        shipped ← shippedRoot (RootKeyType d);
        let isShipped := sameRoot (Some root) shipped && beq raw (default [] (shippedSnapshot (FileName d))) in
        let '(s', r) := applyEpochGuard snap s (negb isShipped) in
        Some (Some s', match r with Ok _ => Ok snap | Err e => Err e end)
      end
    end
  end.

(** The loop over the domains; [clock] gives the time at each. *)
Fixpoint load_domains (dir : bytes → file_read) (roots : TrustRoots) (clock : nat → Z) (ds : list RevocationDomain) (i : nat) (guard : option S)
    (acc : gmap (list Z) (result snap_err rootSnapshot)) : option (option S * gmap (list Z) (result snap_err rootSnapshot)) :=
  match ds with
  | [] => Some (guard, acc)
  | d :: rest =>
    '(guard, snap) ← loadRootSnapshot dir d (rootForDomain roots (RootKeyType d)) guard (clock i);
    load_domains dir roots clock rest (i + 1) guard (<[RootKeyType d := snap]> acc)
  end.

Definition LoadRevocationStatus (dir : bytes → file_read) (roots : TrustRoots) (guard : option S) (clock : nat → Z) : option (option S * RevocationStatusSet) :=
  '(guard, m) ← load_domains dir roots clock revocationDomains 0 guard ∅; Some (guard, Some m).
End Loading.

Fixpoint shipped_domains (roots : TrustRoots) (clock : nat → Z) (ds : list RevocationDomain) (i : nat)
    (acc : gmap (list Z) (result snap_err rootSnapshot)) : option (gmap (list Z) (result snap_err rootSnapshot)) :=
  match ds with
  | [] => Some acc
  | d :: rest =>
    snap ← match rootForDomain roots (RootKeyType d) with
           | None => Some (Err SNoRoot)
           | Some root => shippedStandIn d root (clock i)
           end;
    shipped_domains roots clock rest (i + 1) (<[RootKeyType d := snap]> acc)
  end.

Definition ShippedRevocationStatus (roots : TrustRoots) (clock : nat → Z) : option RevocationStatusSet :=
  Some <$> shipped_domains roots clock revocationDomains 0 ∅.

(** [ProvisionShippedStatus] on the files of the directory by name: which names
    were written, which failed, and the files then.  [stat_fails] and
    [write_fails] tell which names the file system refuses. *)
Fixpoint provision_domains (stat_fails write_fails : bytes → bool) (roots : TrustRoots) (ds : list RevocationDomain) (files : gmap (list Z) bytes) :
    option (list bytes * list bytes * gmap (list Z) bytes) :=
  match ds with
  | [] => Some ([], [], files)
  | d :: rest =>
    let go := provision_domains stat_fails write_fails roots rest in
    shipped ← shippedRoot (RootKeyType d);
    if negb (sameRoot (rootForDomain roots (RootKeyType d)) shipped) then go files
    else match shippedSnapshot (FileName d) with
    | None => go files
    | Some raw =>
      if stat_fails (FileName d) then '(w, e, f) ← go files; Some (w, FileName d :: e, f)
      else if bool_decide (is_Some (files !! FileName d)) then go files
      else if write_fails (FileName d) then '(w, e, f) ← go files; Some (w, FileName d :: e, f)
      else '(w, e, f) ← go (<[FileName d := raw]> files); Some (FileName d :: w, e, f)
    end
  end.
Definition ProvisionShippedStatus (stat_fails write_fails : bytes → bool) (roots : TrustRoots) (files : gmap (list Z) bytes) :=
  provision_domains stat_fails write_fails roots revocationDomains files.

(** ** Checking a payload against a snapshot *)

Definition checkRevocation (roots : TrustRoots) (ownerKeyType artifactKind payloadRaw : bytes) : result Reason unit :=
  match lookup_snapshot (Revocation roots) ownerKeyType with
  | None | Some (Err _) => Err ReasonRevocationStatusUnavailable
  | Some (Ok snap) =>
    match CanonicalizeV1 payloadRaw with
    | Err _ => Err ReasonRevocationStatusUnavailable
    | Ok canonical => if bool_decide (revokedKey artifactKind (SHA256Prefixed canonical) ∈ revoked snap) then Err ReasonTrustPayloadRevoked else Ok ()
    end
  end.

Definition CheckReleaseRevocation (roots : TrustRoots) (artifactKind payload : bytes) : result Reason unit :=
  checkRevocation roots keyTypePlatformRelease artifactKind payload.

(** The roots a release is checked against: the snapshots of the trust directory, with no guard. *)
Definition ReleaseTrustRoots {S : Type} `{G : EpochGuard S} (dir : bytes → file_read) (root : option PublicKeyEnvelope) (clock : nat → Z) : option TrustRoots :=
  '(_, set) ← LoadRevocationStatus (S := S) dir (mkRoots None None root None) None clock;
  Some (mkRoots None None root set).

(** The root pinned at a path, or the one the program ships where the path is empty; the inner [None] is an unusable file. *)
Definition PinnedOrShipped (path : bytes) (content : file_read) (keyType : bytes) (now : Z) : option (option (option PublicKeyEnvelope)) :=
  if beq path [] then Some <$> shippedRoot keyType else Some (LoadPinnedRoot path content now).

(** ** The trust objects of a package *)

Definition validatePinnedRoot (root : PublicKeyEnvelope) (wantKeyType : bytes) (reason : Reason) (now : Z) : result Reason unit :=
  if negb (is_ok (ValidatePublicKeyEnvelope root [ProfileRoot] now)) then Err reason
  else if negb (beq (pke_KeyType root) wantKeyType) then Err reason
  else Ok ().

Definition ValidatePlatformReleaseRoot (root : option PublicKeyEnvelope) (now : Z) : bool :=
  match root with
  | None => false
  | Some root => is_ok (validatePinnedRoot root keyTypePlatformRelease ReasonPlatformSigInvalid now)
  end.

(** The publisher the pair of certificate and signature proves; [now] and
    [later] are the two readings of the clock. *)
Definition verifyPublisherChain (certBytes sigBytes : bytes) (roots : TrustRoots) (packageHash manifestHash : bytes) (now later : Z) : result Reason bytes :=
  certifier ← of_option ReasonTrustRootUnavailable (PublisherCertifier roots);
  _ ← validatePinnedRoot certifier keyTypePublisherCertifier ReasonPublisherCertInvalid now;
  certRaw ← map_err (λ _, ReasonPublisherCertInvalid) (VerifyPayload certBytes certifier artifactKindPublisherCert [ProfileRoot]);
  _ ← checkRevocation roots keyTypePublisherCertifier artifactKindPublisherCert certRaw;
  cert ← of_option ReasonPublisherCertInvalid (decode_cert certRaw);
  if beq (cert_PublisherID cert) [] || beq (cert_PublisherKey cert) [] then Err ReasonPublisherCertInvalid
  else
    publisherKey ← of_option ReasonPublisherCertInvalid (decode_key_envelope (cert_PublisherKey cert));
    if negb (is_ok (ValidatePublicKeyEnvelope publisherKey [ProfileRoot] later)) then Err ReasonPublisherCertInvalid
    else if negb (beq (pke_KeyType publisherKey) keyTypePublisher) then Err ReasonPublisherCertInvalid
    else
      sigRaw ← map_err (λ _, ReasonPublisherSigInvalid) (VerifyPayload sigBytes publisherKey artifactKindManifestSig [ProfileRoot]);
      _ ← checkRevocation roots keyTypePublisherCertifier artifactKindManifestSig sigRaw;
      pair ← of_option ReasonPublisherSigInvalid (decode_pair sigRaw);
      if negb (beq (hp_PackageHash pair) packageHash) || negb (beq (hp_ManifestHash pair) manifestHash) then Err ReasonQuartetMismatch
      else mret (cert_PublisherID cert).

(** The capabilities the reviewer attests. *)
Definition verifyAttestation (attBytes : bytes) (roots : TrustRoots) (m : Manifest) (packageHash manifestHash : bytes) (now : Z) : result Reason (list bytes) :=
  reviewer ← of_option ReasonTrustRootUnavailable (Reviewer roots);
  _ ← validatePinnedRoot reviewer keyTypeReviewer ReasonAttestationInvalid now;
  attRaw ← map_err (λ _, ReasonAttestationInvalid) (VerifyPayload attBytes reviewer artifactKindAttestation [ProfileRoot]);
  _ ← checkRevocation roots keyTypeReviewer artifactKindAttestation attRaw;
  att ← of_option ReasonAttestationInvalid (decode_attestation attRaw);
  caps ← of_option ReasonAttestationInvalid (att_ReviewedCapabilities att);
  if negb (beq (att_PluginID att) (m_ID m)) || negb (beq (att_Version att) (m_Version m))
     || negb (beq (att_PackageHash att) packageHash) || negb (beq (att_ManifestHash att) manifestHash) then Err ReasonQuartetMismatch
  else mret caps.

Definition verifyPlatformSig (platBytes : bytes) (roots : TrustRoots) (packageHash manifestHash : bytes) (now : Z) : result Reason unit :=
  root ← of_option ReasonTrustRootUnavailable (PlatformRelease roots);
  _ ← validatePinnedRoot root keyTypePlatformRelease ReasonPlatformSigInvalid now;
  platRaw ← map_err (λ _, ReasonPlatformSigInvalid) (VerifyPayload platBytes root artifactKindPlatformSig [ProfileRoot]);
  _ ← checkRevocation roots keyTypePlatformRelease artifactKindPlatformSig platRaw;
  pair ← of_option ReasonPlatformSigInvalid (decode_pair platRaw);
  if negb (beq (hp_PackageHash pair) packageHash) || negb (beq (hp_ManifestHash pair) manifestHash) then Err ReasonQuartetMismatch
  else Ok ().
End Trust.

(** ** The store's table of accepted epochs

    store/trustepochs.go behind app/adapters.go: an acceptance is appended to the
    ledger and materialized as a row; the mark of a root is its newest row.  What
    becomes of each append is given in advance: an append may be refused, and one
    that reports an error may have left its row all the same. *)

Record TrustEpochPayload := mkEpochRow { te_Root : bytes; te_TrustEpoch : Z; te_PayloadSHA256 : bytes }.
Inductive append_outcome := Appended | Refused | Uncertain.
Record epoch_store := mkEpochStore { es_rows : list TrustEpochPayload; es_outcomes : list append_outcome; es_readable : bool }.

(** [materializeTrustEpochAccepted] of the decoded payload. *)
Definition materializeTrustEpochAccepted (rows : list TrustEpochPayload) (p : TrustEpochPayload) : option (list TrustEpochPayload) :=
  if beq (te_Root p) [] || (te_TrustEpoch p <? 1) || beq (te_PayloadSHA256 p) [] then None else Some (rows ++ [p]).

(** [ORDER BY id DESC LIMIT 1]: the newest row of the root. *)
Definition newest_row (rows : list TrustEpochPayload) (root : bytes) : option (Z * bytes) :=
  (λ r, (te_TrustEpoch r, te_PayloadSHA256 r)) <$> last (filter (λ r, te_Root r = root) rows).

Definition store_high_water (s : epoch_store) (root : bytes) : option (option (Z * bytes)) :=
  if es_readable s then Some (newest_row (es_rows s) root) else None.

Definition store_accept (s : epoch_store) (root : bytes) (epoch : Z) (sha : bytes) : epoch_store * bool :=
  let rest := tail (es_outcomes s) in
  match materializeTrustEpochAccepted (es_rows s) (mkEpochRow root epoch sha), es_outcomes s with
  | Some rows, Appended :: _ => (mkEpochStore rows rest (es_readable s), true)
  | Some rows, Uncertain :: _ => (mkEpochStore rows rest (es_readable s), false)
  | _, _ => (mkEpochStore (es_rows s) rest (es_readable s), false)
  end.

#[export] Instance store_guard : EpochGuard epoch_store := {| TrustEpochHighWater := store_high_water; AcceptTrustEpoch := store_accept |}.
