(* ===== verification/TrustFacts.v ===== *)
(** * Facts of trust roots and revocation

    The store's table meets the guard's interface; epochs accepted never roll
    back; a snapshot revokes exactly what its signed payload lists. *)

From stdpp Require Import gmap relations.
From S2P Require Import Prelude Utf8 GoJson CanonicalJson GoStruct Crypto Event Lines Chain Container Time SigEnvelope Sections Tar Manifest Trust.

(** ** The table is a guard *)

Lemma newest_row_snoc rows p root : newest_row (rows ++ [p]) root =
  if decide (te_Root p = root) then Some (te_TrustEpoch p, te_PayloadSHA256 p) else newest_row rows root.
Proof.
  unfold newest_row. rewrite filter_app, filter_cons, filter_nil. case_decide; [by rewrite last_snoc|by rewrite app_nil_r].
Qed.

(** The rows an acceptance leaves: the ones before it, or those and its own. *)
Lemma store_accept_rows s s' root epoch sha b : store_accept s root epoch sha = (s', b) → es_readable s' = es_readable s ∧
  ((b = false ∧ es_rows s' = es_rows s) ∨ es_rows s' = es_rows s ++ [mkEpochRow root epoch sha]).
Proof.
  unfold store_accept, materializeTrustEpochAccepted. destruct (_ || _ || _); destruct (es_outcomes s) as [|[] ?]; intros [= <- <-]; cbn; auto.
Qed.

#[export] Instance store_guard_laws : EpochGuardLaws epoch_store.
Proof.
  split; cbn; unfold store_high_water.
  - intros s s' root epoch sha [m Hm] [Hr [[[=] _]|E]]%store_accept_rows. rewrite Hr, E, newest_row_snoc. destruct (es_readable s); [|done]. by rewrite decide_True.
  - intros s s' root epoch sha [m Hm] [Hr [[_ E]|E]]%store_accept_rows; rewrite Hr, E; [by left|]. right. rewrite newest_row_snoc.
    destruct (es_readable s); [|done]. by rewrite decide_True.
  - intros s s' root root' epoch sha b [Hr [[_ E]|E]]%store_accept_rows Hne; rewrite Hr, E; [done|]. rewrite newest_row_snoc. by rewrite decide_False.
Qed.

(** ** Marks only move forward *)

(** [b] is a later epoch than [a], or the same with the same payload. *)
Definition mark_le (a b : option (Z * bytes)) : Prop :=
  match a, b with
  | None, _ => True
  | Some _, None => False
  | Some (e, sha), Some (e', sha') => e < e' ∨ (e = e' ∧ sha = sha')
  end.

#[export] Instance mark_le_preorder : PreOrder mark_le.
Proof.
  split.
  - intros [[e sha]|]; cbn; auto.
  - intros [[e sha]|] [[e' sha']|] [[e'' sha'']|]; cbn; try done. intros [?|[-> ->]] [?|[-> ->]]; auto with lia.
Qed.

Section Guard.
Context {S : Type} `{G : EpochGuard S} `{L : !EpochGuardLaws S}.

(** The marks of [s'] are readable where those of [s] are, and not behind them. *)
Definition marks_le (s s' : S) : Prop :=
  ∀ root m, TrustEpochHighWater s root = Some m → ∃ m', TrustEpochHighWater s' root = Some m' ∧ mark_le m m'.

#[global] Instance marks_le_preorder : PreOrder marks_le.
Proof.
  split.
  - intros s root m Hm. by exists m.
  - intros s s' s'' H1 H2 root m Hm. destruct (H1 _ _ Hm) as (m' & Hm' & Hle). destruct (H2 _ _ Hm') as (m'' & Hm'' & Hle'). exists m''. split; [done|by etrans].
Qed.

Definition snap_mark (snap : rootSnapshot) : option (Z * bytes) := Some (trustEpoch snap, payloadSHA256 snap).
Definition snap_root (snap : rootSnapshot) : bytes := RootKeyType (snap_domain snap).

(** Recording a snapshot past the mark of its root moves marks forward. *)
Lemma accept_marks s s' snap b m : TrustEpochHighWater s (snap_root snap) = Some m → mark_le m (snap_mark snap) →
  AcceptTrustEpoch s (snap_root snap) (trustEpoch snap) (payloadSHA256 snap) = (s', b) →
  marks_le s s' ∧ (b = true → TrustEpochHighWater s' (snap_root snap) = Some (snap_mark snap)).
Proof.
  intros Hm Hle Ha. assert (is_Some (TrustEpochHighWater s (snap_root snap))) as Hs by (by eexists). split.
  - intros root m0 H0. destruct (decide (root = snap_root snap)) as [->|Hne].
    + rewrite Hm in H0. injection H0 as <-. destruct b.
      * rewrite (accept_sets _ _ _ _ _ Hs Ha). by eexists.
      * destruct (accept_fails _ _ _ _ _ Hs Ha) as [E|E]; rewrite E; [by exists m|by eexists].
    + rewrite (accept_others _ _ _ _ _ _ _ Ha Hne). by exists m0.
  - intros ->. by apply (accept_sets _ _ _ _ _ Hs Ha).
Qed.

Lemma applyEpochGuard_marks snap s record s' r : applyEpochGuard snap s record = (s', r) →
  marks_le s s' ∧ (r = Ok () → ∃ m, TrustEpochHighWater s (snap_root snap) = Some m ∧ mark_le m (snap_mark snap)
    ∧ (record = true → TrustEpochHighWater s' (snap_root snap) = Some (snap_mark snap))).
Proof.
  unfold applyEpochGuard. fold (snap_root snap).
  destruct (TrustEpochHighWater s (snap_root snap)) as [m|] eqn:Hm; [|by intros [= <- <-]].
  assert (∀ (Hle : mark_le m (snap_mark snap)) (H : (if negb record then (s, Ok ())
      else let '(s', ok) := AcceptTrustEpoch s (snap_root snap) (trustEpoch snap) (payloadSHA256 snap) in (s', if ok then Ok () else Err SNotRecorded)) = (s', r)),
    marks_le s s' ∧ (r = Ok () → ∃ m0, Some m = Some m0 ∧ mark_le m0 (snap_mark snap)
      ∧ (record = true → TrustEpochHighWater s' (snap_root snap) = Some (snap_mark snap)))) as Haccept.
  { intros Hle H. destruct record; cbn [negb] in H; [|injection H as <- <-; split; [done|]; intros _; by exists m].
    destruct (AcceptTrustEpoch _ _ _ _) as [s1 b] eqn:Ha. injection H as <- <-. destruct (accept_marks _ _ _ _ _ Hm Hle Ha) as [Hms Hb].
    split; [done|]. destruct b; [|done]. intros _. exists m. auto. }
  destruct m as [[hw hwSHA]|]; [|by apply Haccept].
  destruct (Z.ltb_spec (trustEpoch snap) hw); [by intros [= <- <-]|]. destruct (Z.eqb_spec (trustEpoch snap) hw) as [E|E].
  - destruct (beq (payloadSHA256 snap) hwSHA) eqn:Eb; intros [= <- <-]; [|done]. b2p. split; [done|]. intros _. exists (Some (hw, hwSHA)).
    rewrite <- Eb, <- E in *. split; [done|]. split; [by right|done].
  - apply Haccept. cbn. left. lia.
Qed.
End Guard.

(** ** Loading *)

Section Loads.
Context `{P : Primitives} `{Sh : Shipped} {S : Type} `{G : EpochGuard S} `{L : !EpochGuardLaws S}.

Lemma parse_domain raw d root now snap : parseRootSnapshot raw d root now = Ok snap → snap_domain snap = d.
Proof.
  unfold parseRootSnapshot. intros (_ & _ & H)%bind_ok. destruct (negb _); [done|]. apply bind_ok in H as (p & _ & H). apply bind_ok in H as (q & _ & H).
  destruct (SchemaVersion q), (rp_TrustEpoch q), (rp_Revoked q); try done. destruct (negb _); [done|]. destruct (_ <? _); [done|].
  apply bind_ok in H as (keys & _ & H). by apply bind_ok in H as (c & _ & [= <-]).
Qed.

(** [raw] is the snapshot the program ships for the root. *)
Definition is_shipped (d : RevocationDomain) (root : PublicKeyEnvelope) (raw : bytes) : bool :=
  match shippedRoot (RootKeyType d) with
  | Some shipped => sameRoot (Some root) shipped && beq raw (default [] (shippedSnapshot (FileName d)))
  | None => false
  end.

(** One load under a guard: the marks move forward; a snapshot it yields is not
    behind the mark of its root, and is the mark then unless it is the shipped one. *)
Lemma load_marks dir d root s now g r : loadRootSnapshot dir d root (Some s) now = Some (g, r) →
  ∃ s', g = Some s' ∧ marks_le s s' ∧ (∀ snap, r = Ok snap → snap_domain snap = d ∧
    ∃ m, TrustEpochHighWater s (RootKeyType d) = Some m ∧ mark_le m (snap_mark snap)
    ∧ ((∀ k raw, root = Some k → dir (FileName d) = Found raw → is_shipped d k raw = false) →
       TrustEpochHighWater s' (RootKeyType d) = Some (snap_mark snap))).
Proof.
  unfold loadRootSnapshot. assert (∀ e, Some (Some s, Err e) = Some (g, r) →
    ∃ s', g = Some s' ∧ marks_le s s' ∧ ∀ snap, r = Ok snap → False) as Herr by (intros e [= <- <-]; by exists s).
  destruct root as [k|]; [|intros H%Herr; naive_solver]. destruct (dir (FileName d)) as [raw| |] eqn:Ed; [|intros H%Herr; naive_solver..].
  destruct (parseRootSnapshot raw d k now) as [snap|e] eqn:Ep; [|intros H%Herr; naive_solver]. apply parse_domain in Ep.
  destruct (shippedRoot (RootKeyType d)) as [shipped|] eqn:Es; [|done]. cbn [mbind option_bind].
  destruct (applyEpochGuard snap s _) as [s' res] eqn:Eg. intros [= <- <-]. apply applyEpochGuard_marks in Eg as [Hms Hok]. exists s'.
  split; [done|]. split; [done|]. intros snap0 Hr. destruct res as [[]|]; [|done]. injection Hr as <-. split; [done|].
  destruct (Hok eq_refl) as (m & Hm & Hle & Hrec). unfold snap_root in *. rewrite Ep in *. exists m. split; [done|]. split; [done|].
  intros Hns. apply Hrec. specialize (Hns k raw eq_refl eq_refl). unfold is_shipped in Hns. rewrite Es in Hns. by rewrite Hns.
Qed.

(** A whole load of the domains, as a step of the guard's state. *)
Definition load_step (s s' : S) : Prop :=
  ∃ dir roots clock set, LoadRevocationStatus dir roots (Some s) clock = Some (Some s', set).

Lemma load_domains_marks dir roots clock ds : ∀ i s acc g m, load_domains dir roots clock ds i (Some s) acc = Some (g, m) →
  ∃ s', g = Some s' ∧ marks_le s s'.
Proof.
  induction ds as [|d ds IH]; intros i s acc g m; cbn [load_domains]; [intros [= <- <-]; by exists s|].
  destruct (loadRootSnapshot dir d _ (Some s) (clock i)) as [[g1 r1]|] eqn:E; [|done]. cbn [mbind option_bind].
  apply load_marks in E as (s1 & -> & Hms & _). intros (s2 & -> & Hms2)%IH. exists s2. split; [done|by etrans].
Qed.

Lemma load_step_marks s s' : load_step s s' → marks_le s s'.
Proof.
  intros (dir & roots & clock & set & H). unfold LoadRevocationStatus in H. destruct (load_domains _ _ _ _ _ _ _) as [[g m]|] eqn:E; [|done].
  cbn [mbind option_bind] in H. injection H as -> _. by apply load_domains_marks in E as (s1 & [= <-] & ?).
Qed.

Lemma rtc_marks s s' : rtc load_step s s' → marks_le s s'.
Proof. induction 1 as [|s s1 s' H _ IH]; [done|]. etrans; [by apply load_step_marks|done]. Qed.

(** C26. Revocation snapshots never roll back: once a snapshot read from the trust
    directory has been accepted for a root (and is not the one the program
    ships), then after any number of further loads a snapshot accepted for that
    root has a later epoch, or the same epoch and the same payload; this holds
    for any guard with the interface's laws, also when recording fails midway. *)
Theorem epochs_never_roll_back dir dir' d root root' now now' s s1 s2 g snap snap' :
  loadRootSnapshot dir d (Some root) (Some s) now = Some (Some s1, Ok snap) →
  (∀ raw, dir (FileName d) = Found raw → is_shipped d root raw = false) →
  rtc load_step s1 s2 →
  loadRootSnapshot dir' d root' (Some s2) now' = Some (g, Ok snap') →
  trustEpoch snap < trustEpoch snap' ∨ (trustEpoch snap = trustEpoch snap' ∧ payloadSHA256 snap = payloadSHA256 snap').
Proof.
  intros (s1' & [= <-] & _ & H1)%load_marks Hns Hrtc%rtc_marks (s3 & _ & _ & H2)%load_marks.
  destruct (H1 snap eq_refl) as (_ & m & _ & _ & Hm1). specialize (Hm1 ltac:(by intros k raw [= <-]; apply Hns)).
  destruct (H2 snap' eq_refl) as (_ & m' & Hm' & Hle & _). destruct (Hrtc _ _ Hm1) as (m'' & Hm'' & Hle').
  rewrite Hm' in Hm''. injection Hm'' as <-. exact (transitivity Hle' Hle).
Qed.
End Loads.

(** ** What a snapshot revokes *)

Section Revocations.
Context `{P : Primitives} `{L : !PrimitiveLaws P}.

Lemma revoked_keys_ok kinds l : ∀ prev acc keys, revoked_keys kinds prev l acc = Ok keys →
  Forall (λ e, rv_ArtifactKind e ∈ kinds) l ∧ ∀ k, k ∈ keys ↔ k ∈ acc ∨ ∃ e, e ∈ l ∧ k = revokedKey (rv_ArtifactKind e) (rv_PayloadSHA256 e).
Proof.
  induction l as [|e l IH]; intros prev acc keys; cbn [revoked_keys].
  { intros [= <-]. split; [constructor|]. intros k. split; [auto|]. intros [?|(e & ?%not_elem_of_nil & _)]; done. }
  destruct (existsb _ kinds) eqn:Ek; [|done]. cbn [negb]. destruct (validateRevokedDigest _); [|done]. cbn [negb]. destruct (match prev with Some _ => _ | None => _ end); [done|].
  intros (Hf & Hk)%IH. apply existsb_exists in Ek as (k0 & Hin & Hk0). b2p. split.
  - constructor; [|done]. rewrite Hk0. by apply list_elem_of_In.
  - intros k. rewrite Hk, elem_of_union, elem_of_singleton. setoid_rewrite elem_of_cons. split.
    + intros [[->|?]|(e' & ? & ->)]; eauto 6.
    + intros [?|(e' & [->|?] & ->)]; eauto 6.
Qed.

Lemma revokedKey_inj k k' d d' : one_line k → one_line k' → revokedKey k d = revokedKey k' d' → k = k' ∧ d = d'.
Proof. unfold revokedKey. intros. by apply line_cut. Qed.

Lemma domain_kinds_lines d : d ∈ revocationDomains → Forall one_line (ArtifactKinds d).
Proof.
  assert (Forall (λ d, forallb (forallb (λ c, negb (c =? 10))) (ArtifactKinds d) = true) revocationDomains) as H by (repeat constructor).
  rewrite Forall_forall in H. intros Hd. specialize (H d Hd). rewrite forallb_forall in H. apply Forall_forall. intros k Hk%list_elem_of_In.
  specialize (H k Hk). rewrite forallb_forall in H. apply Forall_forall. intros c Hc%list_elem_of_In. specialize (H c Hc). by b2p.
Qed.

(** What an accepted snapshot is. *)
Lemma parseRootSnapshot_ok raw d root now snap : parseRootSnapshot raw d root now = Ok snap → ∃ bundle entries,
  decode_envelope raw = Some bundle ∧ valid_envelope bundle root ArtifactKindRevocationStatus [ProfileRoot]
  ∧ (∃ p r, decode_revocation (env_Payload bundle) = Some p ∧ rp_Revoked p = Some r ∧ entries = slice_items r ∧ rp_TrustEpoch p = Some (trustEpoch snap))
  ∧ pke_KeyType root = RootKeyType d ∧ 1 ≤ trustEpoch snap
  ∧ Forall (λ e, rv_ArtifactKind e ∈ ArtifactKinds d) entries
  ∧ (∀ k, k ∈ revoked snap ↔ ∃ e, e ∈ entries ∧ k = revokedKey (rv_ArtifactKind e) (rv_PayloadSHA256 e)).
Proof.
  unfold parseRootSnapshot. intros (_ & _ & H)%bind_ok. destruct (beq (pke_KeyType root) _) eqn:Ek; [|done]. cbn [negb] in H. b2p.
  apply bind_ok in H as (payload & Hv%map_err_ok & H). apply bind_ok in H as (p & Hp%of_option_ok & H).
  destruct (SchemaVersion p) as [v|], (rp_TrustEpoch p) as [e|] eqn:Ee, (rp_Revoked p) as [r|] eqn:Er; try done.
  destruct (negb _); [done|]. destruct (Z.ltb_spec e 1); [done|]. apply bind_ok in H as (keys & (Hf & Hk)%revoked_keys_ok & H).
  apply bind_ok in H as (c & _ & [= <-]). unfold VerifyPayload in Hv. apply bind_ok in Hv as (_ & _ & Hv). apply bind_ok in Hv as (bundle & Hb%of_option_ok & Hv).
  apply verify_bundle_valid in Hv as [Hve ->]. exists bundle, (slice_items r). cbn. split; [done|]. split; [done|]. split; [by exists p, r|].
  split; [done|]. split; [lia|]. split; [done|]. intros k. rewrite Hk. set_solver.
Qed.

(** A payload passes the revocation check exactly when a snapshot of the
    owner's domain is at hand and the signed list it was read from has no entry of the payload's kind
    with the payload's digest; nothing passes without a snapshot, and an entry
    of another domain's kinds cannot be listed. *)
Theorem revocation_decides raw d root now roots kind payload canonical : 
  one_line kind → d ∈ revocationDomains → CanonicalizeV1 payload = Ok canonical →
  lookup_snapshot (Revocation roots) (RootKeyType d) = Some (parseRootSnapshot raw d root now) →
  checkRevocation roots (RootKeyType d) kind payload = Ok () ↔
  ∃ bundle p r, decode_envelope raw = Some bundle ∧ decode_revocation (env_Payload bundle) = Some p ∧ rp_Revoked p = Some r
    ∧ is_ok (parseRootSnapshot raw d root now) = true
    ∧ ∀ e, e ∈ slice_items r → rv_ArtifactKind e = kind → rv_PayloadSHA256 e ≠ SHA256Prefixed canonical.
Proof.
  intros Hk Hd%domain_kinds_lines Hc Hl. unfold checkRevocation. rewrite Hl. destruct (parseRootSnapshot raw d root now) as [snap|e] eqn:Ep.
  2: { split; [done|]. by intros (? & ? & ? & _ & _ & _ & ? & _). }
  rewrite Hc. apply parseRootSnapshot_ok in Ep as (bundle & entries & Hb & Hve & (p & r & Hp & Hr & -> & _) & _ & _ & Hf & Hrev).
  assert (∀ e, e ∈ slice_items r → one_line (rv_ArtifactKind e)) as Hone.
  { intros e He. rewrite Forall_forall in Hf. rewrite Forall_forall in Hd. by apply Hd, Hf. }
  destruct (bool_decide _) eqn:Eb.
  - apply bool_decide_eq_true, Hrev in Eb as (e & He & Heq). split; [done|]. intros (b' & p' & r' & Hb' & Hp' & Hr' & _ & Hno).
    rewrite Hb in Hb'. injection Hb' as <-. rewrite Hp in Hp'. injection Hp' as <-. rewrite Hr in Hr'. injection Hr' as <-.
    apply revokedKey_inj in Heq as [-> Hd']; [|done|by apply Hone]. by destruct (Hno e He eq_refl).
  - apply bool_decide_eq_false in Eb. split; [|done]. intros _. exists bundle, p, r. do 4 (split; [done|]). intros e He Hke Hde. apply Eb, Hrev.
    exists e. by rewrite Hke, Hde.
Qed.
End Revocations.

(** ** Witnesses *)

(** Objects signed under the checksums that stand for the primitives. *)
Definition toy_root (keyType : bytes) : PublicKeyEnvelope :=
  mkKeyEnvelope 1 (bs "aiii.server_key.public") (bs "root-1") keyType ProfileRoot [] [] [] [sample_key SigAlg [9; 1]; sample_key SLHAlg [9; 2]].
Definition toy_signature (kind alg pub : bytes) (mark : Z) (payload : bytes) : SignatureEntry :=
  let fp := EnvelopeKeyFingerprint alg (bs "root-1") (b64_encode pub) in
  let input := SignatureInput kind ProfileRoot alg (bs "root-1") fp (SHA256Prefixed payload) in
  mkSigEntry alg (bs "root-1") fp (SHA256Prefixed input) (b64_encode (mark :: toy_hash input)).
Definition toy_object (kind payload : bytes) : bytes :=
  field_object [(bs "artifact_kind", json_string true kind); (bs "payload", payload); (bs "payload_sha256", json_string true (SHA256Prefixed payload));
    (bs "canonicalization", json_string true CanonicalizationV1); (bs "signature_profile", json_string true ProfileRoot);
    (bs "signatures", 91 :: comma_join (map sample_sig_text [toy_signature kind SigAlg [9; 1] 7 payload; toy_signature kind SLHAlg [9; 2] 8 payload]) ++ [93])].

Definition toy_status (epoch : Z) (entries : bytes) : bytes :=
  toy_object ArtifactKindRevocationStatus (js "{'revoked':[" ++ entries ++ js "],'schema_version':1,'trust_epoch':" ++ FormatInt epoch ++ js "}").
(** A program that ships the reviewer's root under another key, and no snapshot. *)
Definition toy_root_text (keyID keyType : bytes) : bytes :=
  field_object [(bs "v", bs "1"); (bs "key_id", json_string true keyID); (bs "key_type", json_string true keyType); (bs "profile", json_string true ProfileRoot);
    (bs "keys", 91 :: field_object [(bs "alg", json_string true SigAlg); (bs "public_key_b64", json_string true (bs "AA=="));
      (bs "public_key_fingerprint", json_string true (EnvelopeKeyFingerprint SigAlg keyID (bs "AA==")))] ++ [93])].
#[local] Instance toy_shipped : Shipped :=
  {| shipped_file name := if beq name (bs "shipped/reviewer_root.json") then Some (toy_root_text (bs "other") keyTypeReviewer) else None |}.

Definition reviewer_domain : RevocationDomain := mkDomain keyTypeReviewer (bs "aiii_plugin_reviewer_status.json") [artifactKindAttestation].
Definition toy_dir (epoch : Z) : bytes → file_read := λ _, Found (toy_status epoch []).
Definition toy_epochs : epoch_store := mkEpochStore [] [Appended; Appended] true.

Lemma epochs_never_roll_back_witness :
  ∃ s1 s3 snap snap', loadRootSnapshot (toy_dir 3) reviewer_domain (Some (toy_root keyTypeReviewer)) (Some toy_epochs) 0 = Some (Some s1, Ok snap)
    ∧ loadRootSnapshot (toy_dir 4) reviewer_domain (Some (toy_root keyTypeReviewer)) (Some s1) 0 = Some (s3, Ok snap')
    ∧ (trustEpoch snap < trustEpoch snap' ∨ (trustEpoch snap = trustEpoch snap' ∧ payloadSHA256 snap = payloadSHA256 snap')).
Proof.
  destruct (loadRootSnapshot (toy_dir 3) reviewer_domain (Some (toy_root keyTypeReviewer)) (Some toy_epochs) 0) as [[[s1|] [snap|]]|] eqn:E1;
    try (exfalso; vm_compute in E1; discriminate E1).
  destruct (loadRootSnapshot (toy_dir 4) reviewer_domain (Some (toy_root keyTypeReviewer)) (Some s1) 0) as [[s3 [snap'|]]|] eqn:E2.
  - exists s1, s3, snap, snap'. split; [reflexivity|]. split; [exact E2|].
    apply (epochs_never_roll_back (toy_dir 3) (toy_dir 4) reviewer_domain (toy_root keyTypeReviewer) (Some (toy_root keyTypeReviewer)) 0 0 toy_epochs s1 s1 s3 snap snap'
      E1); [|apply rtc_refl|exact E2].
    intros raw [= <-]. vm_compute. reflexivity.
  - exfalso. vm_compute in E1. apply (inj Some) in E1. injection E1 as <- <-. vm_compute in E2. discriminate E2.
  - exfalso. vm_compute in E1. apply (inj Some) in E1. injection E1 as <- <-. vm_compute in E2. discriminate E2.
Defined.

Definition toy_payload : bytes := js "{'a':1}".
Definition toy_entry : bytes :=
  field_object [(bs "artifact_kind", json_string true artifactKindAttestation); (bs "payload_sha256", json_string true (SHA256Prefixed toy_payload))].
Definition toy_roots : TrustRoots :=
  mkRoots None (Some (toy_root keyTypeReviewer)) None
    (Some {[keyTypeReviewer := parseRootSnapshot (toy_status 3 toy_entry) reviewer_domain (toy_root keyTypeReviewer) 0]}).

Lemma revocation_decides_witness :
  checkRevocation toy_roots keyTypeReviewer artifactKindAttestation (js "{ 'a' : 1 }") = Err ReasonTrustPayloadRevoked
  ∧ checkRevocation toy_roots keyTypeReviewer artifactKindAttestation (js "{'a':2}") = Ok ()
  ∧ ∃ bundle p r, decode_envelope (toy_status 3 toy_entry) = Some bundle ∧ decode_revocation (env_Payload bundle) = Some p ∧ rp_Revoked p = Some r
    ∧ is_ok (parseRootSnapshot (toy_status 3 toy_entry) reviewer_domain (toy_root keyTypeReviewer) 0) = true
    ∧ ∀ e, e ∈ slice_items r → rv_ArtifactKind e = artifactKindAttestation → rv_PayloadSHA256 e ≠ SHA256Prefixed (js "{'a':2}").
Proof.
  split; [vm_compute; reflexivity|]. split; [vm_compute; reflexivity|].
  apply (proj1 (revocation_decides (toy_status 3 toy_entry) reviewer_domain (toy_root keyTypeReviewer) 0 toy_roots artifactKindAttestation (js "{'a':2}") (js "{'a':2}")
    ltac:(repeat constructor; discriminate) ltac:(right; left) ltac:(vm_compute; reflexivity) ltac:(apply lookup_singleton_eq))). vm_compute. reflexivity.
Defined.
