(* ===== verification/Package.v ===== *)
(** * internal/packagefmt: verifying a package

    verify.go, digest.go and readmember.go: one pass over the archive collects
    the manifest, the trust objects and the digests of what would be installed;
    then shape, hashes, trust objects, variants and tier are checked in turn. *)

From stdpp Require Import gmap.
From S2P Require Import Prelude Utf8 GoJson CanonicalJson GoStruct Crypto Event Container Time SigEnvelope Sections Tar Regex Manifest Trust.

Definition sigFilePublisherSig : bytes := bs "publisher.sig".
Definition sigFilePublisherCrt : bytes := bs "publisher.cert".
Definition sigFileAttestation : bytes := bs "certifier.attestation".
Definition sigFilePlatformSig : bytes := bs "platform.sig".
Definition trust_objects : list bytes := [sigFilePublisherSig; sigFilePublisherCrt; sigFileAttestation; sigFilePlatformSig].
Definition provenance_records : list bytes := [bs "built-by.json"; bs "source-url.txt"; bs "reproducible-build.txt"].
Definition maxJSONMemberBytes : Z := 1048576.
Definition maxMemberReadBytes : Z := 67108864.

(** The hash of the package as the bytes written to it so far. *)
Record packageDigest := mkDigest { agg : bytes; files : Z; perFile : gmap (list Z) bytes }.

Record bundleContents := mkContents {
  bc_root : bytes;
  manifestRaw : option bytes;
  signatures : gmap (list Z) bytes;
  bc_digest : packageDigest;
  dirs : gset (list Z);
  hasInstallDir : bool;
}.

Record Result := mkResult {
  res_Tier : Tier;
  res_Manifest : Manifest;
  res_PackageHash : bytes;
  res_ManifestHash : bytes;
  PublisherID : bytes;
  ReviewedCapabilities : list bytes;
  FileDigests : gmap (list Z) bytes;
}.

Definition newPackageDigest : packageDigest := mkDigest [] 0 ∅.
(** [addFile] of a path and the digest of its content. *)
Definition addFile (d : packageDigest) (relPath fileSum : bytes) : packageDigest :=
  let hexDigest := hex_encode fileSum in
  mkDigest (agg d ++ relPath ++ [0] ++ hexDigest ++ [10]) (files d + 1) (<[relPath := hexDigest]> (perFile d)).

Definition new_contents : bundleContents := mkContents [] None ∅ newPackageDigest ∅ false.
Definition set_root (c : bundleContents) (root : bytes) : bundleContents :=
  mkContents root (manifestRaw c) (signatures c) (bc_digest c) (dirs c) (hasInstallDir c).
Definition add_dir (c : bundleContents) (rel : bytes) (install : bool) : bundleContents :=
  mkContents (bc_root c) (manifestRaw c) (signatures c) (bc_digest c) ({[rel]} ∪ dirs c) (hasInstallDir c || install).
Definition set_manifest (c : bundleContents) (raw : bytes) : bundleContents :=
  mkContents (bc_root c) (Some raw) (signatures c) (bc_digest c) (dirs c) (hasInstallDir c).
Definition set_digest (c : bundleContents) (d : packageDigest) : bundleContents :=
  mkContents (bc_root c) (manifestRaw c) (signatures c) d (dirs c) (hasInstallDir c).
Definition add_signature (c : bundleContents) (name raw : bytes) : bundleContents :=
  mkContents (bc_root c) (manifestRaw c) (<[name := raw]> (signatures c)) (bc_digest c) (dirs c) (hasInstallDir c).

(** [materializeUpTo]: a member read into memory. *)
Definition materializeUpTo (w : tarWalker) (m : tarMember) (ceiling : Z) : result Reason (bytes * tarWalker) :=
  if ceiling <? m_size m then Err ReasonCeilingExceeded else readPayload w m.
Definition materialize (w : tarWalker) (m : tarMember) : result Reason (bytes * tarWalker) := materializeUpTo w m maxJSONMemberBytes.

Section Package.
Context `{P : Primitives}.

Definition digest_sum (d : packageDigest) : bytes := bs "sha256:" ++ hex_encode (sha256 (agg d)).

Definition consumeMember (w : tarWalker) (m : tarMember) (c : bundleContents) : result Reason (bundleContents * tarWalker) :=
  if beq (bc_root c) [] then mret (set_root c (m_path m), w)
  else
    let rel := TrimPrefix (m_path m) (bc_root c ++ [47]) in
    if m_isDir m then
      if beq rel (bs "install-root") then mret (add_dir c rel true, w)
      else if HasPrefix rel (bs "install-root/") || beq rel (bs "signatures") || beq rel (bs "provenance") then mret (add_dir c rel false, w)
      else Err ReasonEnvelopeMalformed
    else if beq rel (bs "manifest.json") then '(raw, w) ← materialize w m; mret (set_manifest c raw, w)
    else if HasPrefix rel (bs "install-root/") then
      '(data, w) ← readPayload w m;
      mret (set_digest c (addFile (bc_digest c) (TrimPrefix rel (bs "install-root/")) (sha256 data)), w)
    else if HasPrefix rel (bs "signatures/") then
      let name := TrimPrefix rel (bs "signatures/") in
      if negb (existsb (beq name) trust_objects) then Err ReasonEnvelopeMalformed
      else '(raw, w) ← materialize w m; mret (add_signature c name raw, w)
    else if HasPrefix rel (bs "provenance/") then
      if negb (existsb (beq (TrimPrefix rel (bs "provenance/"))) provenance_records) then Err ReasonEnvelopeMalformed
      else '(_, w) ← readPayload w m; mret (c, w)
    else if beq rel (bs "README.md") then '(_, w) ← readPayload w m; mret (c, w)
    else Err ReasonEnvelopeMalformed.

(** The loop of [streamBundle]; a pass admits a member or is the last. *)
Fixpoint stream_members (fuel : nat) (w : tarWalker) (c : bundleContents) : result Reason (bundleContents * tarWalker) :=
  match fuel with
  | O => Err ReasonEnvelopeMalformed
  | S f =>
    '(om, w) ← next w;
    match om with
    | None => mret (c, w)
    | Some m => '(c, w) ← consumeMember w m c; stream_members f w c
    end
  end.

Definition stream_fuel : nat := S (S (Z.to_nat maxSemanticMembers)).

Definition streamBundle `{Inflate} (src : bytes) : result Reason bundleContents :=
  gz ← newGzipStream src;
  '(c, w) ← stream_members stream_fuel (newTarWalker gz) new_contents;
  _ ← finish (w_gz w);
  mret c.

(** [manifestHash]: the hash of the canonical manifest without its package hash. *)
Definition manifestHash (raw : bytes) : result Reason bytes :=
  canonical ← map_err (λ _, ReasonManifestInvalid) (CanonicalizeV1 raw);
  members ← of_option ReasonManifestInvalid (v ← one_value true canonical; members_of v);
  let stripped := if beq canonical null_text then null_text else marshal_map (filter (λ kv, kv.1 ≠ bs "package_hash") (go_map members)) in
  view ← map_err (λ _, ReasonManifestInvalid) (CanonicalizeV1 stripped);
  mret (SHA256Prefixed view).

Definition isNativeRuntime (runtime : bytes) : bool := beq runtime (bs "service_process") || beq runtime (bs "native_t3_component").
Definition is_wasm (v : Variant) : bool := beq (ExecutionRuntime v) (bs "wasm_component") || beq (ExecutionRuntime v) (bs "wasm_aot_component").
Definition is_native (v : Variant) : bool :=
  beq (AdmissionProfile v) (bs "certified_native") || beq (AdmissionProfile v) (bs "platform_reserved") || isNativeRuntime (ExecutionRuntime v).

Definition checkTierEligibility (m : Manifest) (tier : Tier) : result Reason unit :=
  if negb (beq (m_Kind m) (bs "plugin")) then Ok ()
  else if WASMBaselineRequiredT0T1T2 contract && (tier_index tier <=? tier_index TierT2) && negb (existsb is_wasm (Variants m)) then Err ReasonWASMBaselineMissing
  else if existsb is_native (Variants m) && negb (bool_decide (tier = TierT3)) then Err reasonNativeTierIneligible
  else Ok ().

(** The directories and entry points the manifest of a plugin declares; the
    first that is missing. *)
Definition variant_present (c : bundleContents) (v : Variant) : bool :=
  bool_decide (bs "install-root/variants/" ++ VariantID v ∈ dirs c) && bool_decide (is_Some (perFile (bc_digest c) !! Entrypoint v)).
Definition shape_ok (c : bundleContents) (m : Manifest) : bool :=
  beq (bc_root c) (m_ID m ++ [45] ++ m_Version m)
  && (hasInstallDir c && negb (files (bc_digest c) =? 0))
  && (negb (beq (m_Kind m) (bs "plugin")) || (bool_decide (bs "install-root/interfaces" ∈ dirs c) && forallb (variant_present c) (Variants m))).

(** The trust objects: the tier they prove, the publisher and what was reviewed. *)
Definition verify_trust (roots : TrustRoots) (clock : nat → Z) (m : Manifest) (sigs : gmap (list Z) bytes) (packageHash manifestHash : bytes) :
    result Reason (Tier * bytes * list bytes) :=
  match sigs !! sigFilePlatformSig, sigs !! sigFilePublisherCrt, sigs !! sigFilePublisherSig, sigs !! sigFileAttestation with
  | Some plat, None, None, None =>
    if negb (T3RequiresPlatformReleaseSig contract) then Err ReasonPlatformSigInvalid
    else _ ← verifyPlatformSig plat roots packageHash manifestHash (clock 0%nat); mret (TierT3, [], [])
  | None, Some cert, Some sig, None =>
    id ← verifyPublisherChain cert sig roots packageHash manifestHash (clock 0%nat) (clock 1%nat); mret (TierT1, id, [])
  | None, Some cert, Some sig, Some att =>
    id ← verifyPublisherChain cert sig roots packageHash manifestHash (clock 0%nat) (clock 1%nat);
    caps ← verifyAttestation att roots m packageHash manifestHash (clock 2%nat);
    mret (TierT2, id, caps)
  | None, None, None, None => mret (TierT0, [], [])
  | _, _, _, _ => Err ReasonTrustObjectShape
  end.

Definition artifact_matches (d : packageDigest) (v : Variant) : bool :=
  beq (bs "sha256:" ++ default [] (perFile d !! Entrypoint v)) (ArtifactHash v).

(** [Verify] after the pass over the archive. *)
Definition verify_contents (contents : bundleContents) (roots : TrustRoots) (clock : nat → Z) : result Reason Result :=
  raw ← of_option ReasonManifestInvalid (manifestRaw contents);
  m ← of_option ReasonManifestInvalid (parseManifest raw);
  if negb (shape_ok contents m) then Err ReasonEnvelopeMalformed
  else
    manifestHashValue ← manifestHash raw;
    let packageHashValue := digest_sum (bc_digest contents) in
    if negb (beq (m_PackageHash m) packageHashValue) then Err ReasonPackageHashMismatch
    else
      '(tier, id, caps) ← verify_trust roots clock m (signatures contents) packageHashValue manifestHashValue;
      if negb (forallb (artifact_matches (bc_digest contents)) (Variants m)) then Err ReasonVariantIntegrity
      else
        _ ← checkTierEligibility m tier;
        mret (mkResult tier m packageHashValue manifestHashValue id caps ((λ h, bs "sha256:" ++ h) <$> perFile (bc_digest contents))).

Definition VerifyPackage `{Inflate} (src : bytes) (roots : TrustRoots) (clock : nat → Z) : result Reason Result :=
  contents ← streamBundle src; verify_contents contents roots clock.

(** What the result says of a member, and whether these bytes are it. *)
Definition MemberDigest (r : Result) (rel raw : bytes) : bytes * bytes * bool :=
  let want := default [] (FileDigests r !! rel) in
  let got := bs "sha256:" ++ hex_encode (sha256 raw) in
  (want, got, beq got want).
End Package.

(** ** Reading members back (readmember.go)

    The callback is [fn], which answers whether it succeeded; what it was called
    with is kept in order. *)

Inductive read_err := RReason (r : Reason) | RCallback.

(** The loop of [readMembers], while something is wanted. *)
Fixpoint read_loop (fuel : nat) (fn : bytes → bytes → bool) (w : tarWalker) (root : bytes) (wanted : gset (list Z)) (calls : list (bytes * bytes)) :
    list (bytes * bytes) * result read_err unit :=
  match fuel with
  | O => (calls, Err (RReason ReasonEnvelopeMalformed))
  | S f =>
    if bool_decide (wanted = ∅) then (calls, Ok ())
    else match next w with
    | Err e => (calls, Err (RReason e))
    | Ok (None, _) => (calls, Err (RReason ReasonEnvelopeMalformed))
    | Ok (Some m, w) =>
      if beq root [] then read_loop f fn w (m_path m) wanted calls
      else if m_isDir m then read_loop f fn w root wanted calls
      else
        let prefix := root ++ bs "/install-root/" in
        let rel := TrimPrefix (m_path m) prefix in
        if negb (HasPrefix (m_path m) prefix) || negb (bool_decide (rel ∈ wanted)) then
          match readPayload w m with
          | Err e => (calls, Err (RReason e))
          | Ok (_, w) => read_loop f fn w root wanted calls
          end
        else if maxMemberReadBytes <? m_size m then (calls, Err (RReason ReasonCeilingExceeded))
        else match readPayload w m with
        | Err e => (calls, Err (RReason e))
        | Ok (data, w) =>
          if fn rel data then read_loop f fn w root (wanted ∖ {[rel]}) (calls ++ [(rel, data)])
          else (calls ++ [(rel, data)], Err RCallback)
        end
    end
  end.

Definition readMembers `{Inflate} (src : bytes) (installRelPaths : list bytes) (fn : bytes → bytes → bool) : list (bytes * bytes) * result read_err unit :=
  match newGzipStream src with
  | Err e => ([], Err (RReason e))
  | Ok gz => read_loop stream_fuel fn (newTarWalker gz) [] (list_to_set installRelPaths) []
  end.

(** [ReadMembers] of what opening the package gave. *)
Definition ReadMembers `{Inflate} (file : option bytes) (installRelPaths : list bytes) (fn : bytes → bytes → bool) : list (bytes * bytes) * result read_err unit :=
  match installRelPaths, file with
  | [], _ => ([], Ok ())
  | _, None => ([], Err (RReason ReasonEnvelopeMalformed))
  | _, Some src => readMembers src installRelPaths fn
  end.

Definition ReadMember `{Inflate} (file : option bytes) (installRelPath : bytes) : result read_err bytes :=
  let '(calls, r) := ReadMembers file [installRelPath] (λ _ _, true) in
  match r with Err e => Err e | Ok _ => Ok (default [] (snd <$> last calls)) end.
