(* ===== verification/PackageFacts.v ===== *)
(** * Facts of package verification

    What one pass over the archive collects, what the package hash binds, and
    what a verified package is. *)

From stdpp Require Import gmap.
From S2P Require Import Prelude Utf8 GoJson CanonicalJson CanonicalJsonFacts GoStruct Crypto Event Lines Chain Container Time SigEnvelope Sections Tar TarFacts TarAccept Regex Manifest ManifestFacts Trust TrustFacts Package.

(** ** The pass over the archive *)

Section Stream.
Context `{P : Primitives}.

(** What an accepted member leaves, given its payload. *)
Definition consumed (c : bundleContents) (e : entry) : bundleContents :=
  if beq (bc_root c) [] then set_root c (entry_path e)
  else
    let rel := TrimPrefix (entry_path e) (bc_root c ++ [47]) in
    if entry_isDir e then add_dir c rel (beq rel (bs "install-root"))
    else if beq rel (bs "manifest.json") then set_manifest c e.2
    else if HasPrefix rel (bs "install-root/") then set_digest c (addFile (bc_digest c) (TrimPrefix rel (bs "install-root/")) (sha256 e.2))
    else if HasPrefix rel (bs "signatures/") then add_signature c (TrimPrefix rel (bs "signatures/")) e.2
    else c.

Lemma materialize_ok w m data w' : materialize w m = Ok (data, w') → readPayload w m = Ok (data, w').
Proof. unfold materialize, materializeUpTo. by destruct (_ <? _). Qed.

Lemma consumeMember_ok w m c c' w' : (bc_root c = [] → m_isDir m = true) → consumeMember w m c = Ok (c', w') →
  ∃ data, member_data w m = Ok (data, w') ∧ c' = consumed c (m, data).
Proof.
  intros Hroot. unfold consumeMember, member_data, consumed, entry_path, entry_isDir. cbn [fst snd]. destruct (beq (bc_root c) []) eqn:Er.
  { b2p. rewrite (Hroot Er). intros [= <- <-]. by exists []. }
  set (rel := TrimPrefix (m_path m) (bc_root c ++ [47])). destruct (m_isDir m).
  { destruct (beq rel (bs "install-root")); [intros [= <- <-]; by exists []|]. destruct (_ || _ || _); [|done]. intros [= <- <-]. by exists []. }
  destruct (beq rel (bs "manifest.json")).
  { intros ([raw w1] & H%materialize_ok & [= <- <-])%bind_ok. by exists raw. }
  destruct (HasPrefix rel (bs "install-root/")).
  { intros ([data w1] & H & [= <- <-])%bind_ok. by exists data. }
  destruct (HasPrefix rel (bs "signatures/")).
  { destruct (negb _); [done|]. intros ([raw w1] & H%materialize_ok & [= <- <-])%bind_ok. by exists raw. }
  destruct (HasPrefix rel (bs "provenance/")).
  { destruct (negb _); [done|]. intros ([data w1] & H & [= <- <-])%bind_ok. by exists data. }
  destruct (beq rel (bs "README.md")); [|done]. intros ([data w1] & H & [= <- <-])%bind_ok. by exists data.
Qed.

(** The root is known from the first member on. *)
Lemma consumed_root c e : bc_root (consumed c e) = (if beq (bc_root c) [] then entry_path e else bc_root c).
Proof. unfold consumed. destruct (beq (bc_root c) []); [done|]. repeat case_match; done. Qed.

(** The pass is a walk: it reads the same members and collects them. *)
Lemma stream_walk fuel lim : ∀ pre w c c' w', walked lim pre w → (bc_root c = [] ↔ pre = []) → stream_members fuel w c = Ok (c', w') →
  ∃ es, walk_members fuel w = Ok (es, w') ∧ c' = foldl consumed c es.
Proof.
  induction fuel as [|f IH]; intros pre w c c' w' Hw Hc; cbn [stream_members walk_members]; [done|].
  intros ([om w1] & Hn & H)%bind_ok. rewrite Hn. cbn [mbind result_bind]. destruct om as [m|]; [|injection H as <- <-; by exists []].
  apply bind_ok in H as ([c1 w2] & Hcm & H).
  apply consumeMember_ok in Hcm as (data & Hd & ->).
  - destruct (member_step lim pre w m w1 data w2 Hw Hn Hd) as (He & Hw2 & _). fold (member_data w1 m). rewrite Hd. cbn [mbind result_bind].
    assert (m_path m ≠ []) as Hne by (pose proof (wk_paths _ _ _ Hw2) as Hp; apply Forall_app in Hp as [_ Hp]; by apply Forall_cons in Hp as [? _]).
    destruct (IH (pre ++ [(m, data)]) w2 (consumed c (m, data)) c' w' Hw2) as (es & Hes & ->); [|exact H|].
    + rewrite consumed_root. destruct (beq (bc_root c) []) eqn:E; b2p; (split; [done|by destruct pre]).
    + exists ((m, data) :: es). by rewrite Hes.
  - intros Hr%Hc. subst pre. pose proof (next_ok w m w1 (wk_pending _ _ _ Hw) Hn) as (_ & _ & _ & Hd & _).
    destruct (delivered_entry lim [] w m (replicate (Z.to_nat (m_size m)) 0) w1 Hw Hd) as [He _].
    { rewrite length_replicate. pose proof (proj1 (dl_size _ _ _ Hd)). lia. }
    pose proof (eo_parent _ _ _ He) as Hp. destruct (parent_of _); [destruct Hp as (d & Hd' & _); by apply not_elem_of_nil in Hd'|]. by destruct Hp.
Qed.
End Stream.

(** ** What the pass collects *)

(** The path of a member under the root. *)
Definition rel_of (root : bytes) (e : entry) : bytes := TrimPrefix (entry_path e) (root ++ [47]).
(** A file below a directory of the bundle: its path there and its content. *)
Definition file_in (root dir : bytes) (e : entry) : option (bytes * bytes) :=
  if entry_isDir e then None
  else if HasPrefix (rel_of root e) dir then Some (TrimPrefix (rel_of root e) dir, e.2) else None.
Definition installed (root : bytes) : entry → option (bytes * bytes) := file_in root (bs "install-root/").
Definition trust_file (root : bytes) : entry → option (bytes * bytes) := file_in root (bs "signatures/").
Definition manifest_file (root : bytes) (e : entry) : option bytes :=
  if negb (entry_isDir e) && beq (rel_of root e) (bs "manifest.json") then Some e.2 else None.

Section Collected.
Context `{P : Primitives}.

Definition add_installed (d : packageDigest) (f : bytes * bytes) : packageDigest := addFile d f.1 (sha256 f.2).

(** One member below the root. *)
Lemma consumed_parts root c e : bc_root c = root → root ≠ [] →
  bc_root (consumed c e) = root
  ∧ bc_digest (consumed c e) = from_option (add_installed (bc_digest c)) (bc_digest c) (installed root e)
  ∧ signatures (consumed c e) = from_option (λ f, <[f.1 := f.2]> (signatures c)) (signatures c) (trust_file root e)
  ∧ manifestRaw (consumed c e) = (match manifest_file root e with Some raw => Some raw | None => manifestRaw c end)
  ∧ dirs (consumed c e) = (if entry_isDir e then {[rel_of root e]} else ∅) ∪ dirs c.
Proof.
  intros Hr Hne. unfold consumed, installed, trust_file, manifest_file, file_in. rewrite Hr, (proj2 (beq_false _ _) Hne). fold (rel_of root e).
  destruct (entry_isDir e); [done|]. cbn [negb andb].
  assert (∀ p q : bytes, HasPrefix p q = true → ∀ k, (k < length q)%nat → p !! k = q !! k) as Hpre.
  { intros p q Hp k Hk. apply HasPrefix_split in Hp. rewrite Hp. by apply lookup_app_l. }
  destruct (beq (rel_of root e) (bs "manifest.json")) eqn:Em.
  { b2p. rewrite Em. cbn. set_solver. }
  destruct (HasPrefix (rel_of root e) (bs "install-root/")) eqn:Ei.
  - assert (HasPrefix (rel_of root e) (bs "signatures/") = false) as ->.
    { destruct (HasPrefix _ (bs "signatures/")) eqn:Es; [|done]. pose proof (Hpre _ _ Ei 0%nat ltac:(cbn; lia)) as H1.
      rewrite (Hpre _ _ Es 0%nat ltac:(cbn; lia)) in H1. cbn in H1. done. }
    cbn. set_solver.
  - destruct (HasPrefix (rel_of root e) (bs "signatures/")); cbn; set_solver.
Qed.

Lemma consumed_all root es : ∀ c, bc_root c = root → root ≠ [] →
  let c' := foldl consumed c es in
  bc_root c' = root ∧ bc_digest c' = foldl add_installed (bc_digest c) (omap (installed root) es)
  ∧ signatures c' = foldl (λ m f, <[f.1 := f.2]> m) (signatures c) (omap (trust_file root) es)
  ∧ manifestRaw c' = (match last (omap (manifest_file root) es) with Some raw => Some raw | None => manifestRaw c end)
  ∧ dirs c' = list_to_set (rel_of root <$> filter (λ e, entry_isDir e = true) es) ∪ dirs c.
Proof.
  induction es as [|e es IH]; intros c Hr Hne; cbn zeta.
  { cbn. split; [done|]. split; [done|]. split; [done|]. split; [done|]. set_solver. }
  destruct (consumed_parts root c e Hr Hne) as (H1 & H2 & H3 & H4 & H5). destruct (IH (consumed c e) H1 Hne) as (I1 & I2 & I3 & I4 & I5).
  cbn [foldl]. split; [done|]. rewrite I2, I3, I4, I5, H2, H3, H4, H5. split; [|split; [|split]].
  - change (omap (installed root) (e :: es)) with (match installed root e with Some f => f :: omap (installed root) es | None => omap (installed root) es end).
    by destruct (installed root e).
  - change (omap (trust_file root) (e :: es)) with (match trust_file root e with Some f => f :: omap (trust_file root) es | None => omap (trust_file root) es end).
    by destruct (trust_file root e).
  - change (omap (manifest_file root) (e :: es)) with (match manifest_file root e with Some f => f :: omap (manifest_file root) es | None => omap (manifest_file root) es end).
    destruct (manifest_file root e) as [raw|]; [|done]. rewrite last_cons. by destruct (last _).
  - rewrite filter_cons. destruct (entry_isDir e); [rewrite decide_True by done|rewrite decide_False by done]; rewrite ?fmap_cons; set_solver.
Qed.

(** ** The package hash binds the installed files *)

(** The line of a file in what is hashed. *)
Definition digest_line (f : bytes * bytes) : bytes := f.1 ++ [0] ++ hex_encode (sha256 f.2) ++ [10].

Lemma add_installed_all fs : ∀ d, agg (foldl add_installed d fs) = agg d ++ concat (digest_line <$> fs)
  ∧ files (foldl add_installed d fs) = files d + Z.of_nat (length fs)
  ∧ perFile (foldl add_installed d fs) = foldl (λ m f, <[f.1 := hex_encode (sha256 f.2)]> m) (perFile d) fs.
Proof.
  induction fs as [|f fs IH]; intros d; cbn [foldl]; [cbn; rewrite app_nil_r; split; [done|]; split; [lia|done]|].
  destruct (IH (add_installed d f)) as (I1 & I2 & I3). rewrite I1, I2, I3. unfold add_installed, addFile. cbn [agg files perFile length].
  rewrite fmap_cons. cbn [concat]. unfold digest_line at 2. rewrite <- !app_assoc. split; [done|]. split; [lia|done].
Qed.

Context `{L : !PrimitiveLaws P}.

Lemma cut_nul a b (s t : bytes) : Forall (λ c, c ≠ 0) a → Forall (λ c, c ≠ 0) b → a ++ 0 :: s = b ++ 0 :: t → a = b ∧ s = t.
Proof.
  intros Ha. revert b. induction Ha as [|c a Hc _ IH]; intros [|d b] Hb E; cbn in E.
  - by injection E as ->.
  - injection E as <- _. by apply Forall_cons in Hb as [? _].
  - by injection E as -> _.
  - injection E as <- E. apply Forall_cons in Hb as [_ Hb]. by destruct (IH b Hb E) as [-> ->].
Qed.

Lemma hex_sha_length m : length (hex_encode (sha256 m)) = 64%nat.
Proof. destruct (hex_encode_hex _ (sha256_bytes m)) as [-> _]. by rewrite sha256_len. Qed.

(** Lists of named files with one listing are equal. *)
Lemma listing_inj fs : ∀ fs', Forall (λ f, Forall (λ c, c ≠ 0) f.1) fs → Forall (λ f, Forall (λ c, c ≠ 0) f.1) fs' →
  concat (digest_line <$> fs) = concat (digest_line <$> fs') → fs = fs' ∨ collision.
Proof.
  assert (∀ f, digest_line f ≠ []) as Hne by (intros [[|] ?]; done).
  induction fs as [|f fs IH]; intros [|f' fs'] Hf Hf' E; rewrite ?fmap_cons in E; cbn [concat] in E.
  - by left.
  - symmetry in E. apply app_eq_nil in E as [E _]. by apply Hne in E.
  - apply app_eq_nil in E as [E _]. by apply Hne in E.
  - apply Forall_cons in Hf as [Hn Hf], Hf' as [Hn' Hf']. unfold digest_line at 1 3 in E. rewrite <- !app_assoc in E. cbn [app] in E.
    apply cut_nul in E as [En E]; [|done..]. apply app_inj_1 in E as [Eh E]; [|by rewrite !hex_sha_length]. injection E as E.
    apply sha256_determines in Eh as [Ed|]; [|by right]. destruct (IH fs' Hf Hf' E) as [->|]; [|by right]. left.
    destruct f, f'. cbn in *. by subst.
Qed.
End Collected.

(** ** The files of a bundle *)

Definition bundle_root (es : list entry) : bytes := match es with r :: _ => entry_path r | [] => [] end.
Definition installed_files (es : list entry) : list (bytes * bytes) := omap (installed (bundle_root es)) (tail es).
Definition trust_files (es : list entry) : list (bytes * bytes) := omap (trust_file (bundle_root es)) (tail es).
Definition manifest_files (es : list entry) : list bytes := omap (manifest_file (bundle_root es)) (tail es).
Definition bundle_dirs (es : list entry) : gset (list Z) := list_to_set (rel_of (bundle_root es) <$> filter (λ e, entry_isDir e = true) (tail es)).

Lemma split_slash_first p a b l : split_slash p = a :: b :: l → ∃ q, p = a ++ 47 :: q.
Proof.
  revert a. induction p as [|c p IH]; intros a; [done|]. rewrite split_slash_cons. destruct (Z.eqb_spec c 47) as [->|].
  - intros [= <- _]. by exists p.
  - destruct (split_slash p) as [|seg [|b' l']] eqn:E; [done|done|]. intros [= <- -> ->]. destruct (IH seg eq_refl) as [q ->]. by exists q.
Qed.

Section Tree.
Context (lim : tarLimits) (es : list entry) (Hok : tree_ok lim es).

Lemma below_root e : e ∈ tail es → entry_path e = bundle_root es ++ [47] ++ rel_of (bundle_root es) e.
Proof.
  intros He. destruct (st_root _ _ (tree_safe _ _ Hok)) as (r & rest & -> & _ & _ & Hr). cbn in He. destruct (Hr e He) as (seg & segs & E).
  apply split_slash_first in E as [q E]. unfold rel_of. cbn [bundle_root]. rewrite E.
  replace (entry_path r ++ 47 :: q) with ((entry_path r ++ [47]) ++ q) by (by rewrite <- app_assoc). by rewrite TrimPrefix_app, <- app_assoc.
Qed.

Lemma file_in_path dir f : f ∈ omap (file_in (bundle_root es) dir) (tail es) →
  ∃ e, e ∈ tail es ∧ entry_isDir e = false ∧ e.2 = f.2 ∧ entry_path e = bundle_root es ++ [47] ++ dir ++ f.1.
Proof.
  intros (e & He & Hf)%list_elem_of_omap. exists e. unfold file_in in Hf. destruct (entry_isDir e); [done|].
  destruct (HasPrefix _ dir) eqn:Hp; [|done]. injection Hf as <-. apply HasPrefix_split in Hp. cbn [fst snd]. do 3 (split; [done|]).
  rewrite (below_root e He) at 1. by rewrite <- Hp.
Qed.

Lemma path_file_in dir e name : e ∈ tail es → entry_isDir e = false → entry_path e = bundle_root es ++ [47] ++ dir ++ name →
  (name, e.2) ∈ omap (file_in (bundle_root es) dir) (tail es).
Proof.
  intros He Hd Hp. apply list_elem_of_omap. exists e. split; [done|]. unfold file_in, rel_of. rewrite Hd, Hp, app_assoc, TrimPrefix_app, HasPrefix_app, TrimPrefix_app. done.
Qed.

Lemma tree_member_ok e : e ∈ es → ∃ pre, entry_ok lim pre e.
Proof. intros (l & r & ->)%list_elem_of_split. exists ([] ++ l). exact (proj2 Hok l e r eq_refl). Qed.

Lemma tail_member e : e ∈ tail es → e ∈ es.
Proof. destruct es; [done|]. by right. Qed.

Lemma file_names_nul dir f : f ∈ omap (file_in (bundle_root es) dir) (tail es) → Forall (λ c, c ≠ 0) f.1.
Proof.
  intros (e & He & _ & _ & Hp)%file_in_path. destruct (tree_member_ok e (tail_member e He)) as (pre & Ho). apply entry_path_bytes in Ho as (_ & Ho & _).
  rewrite Hp in Ho. apply Forall_app in Ho as [_ Ho]. apply Forall_app in Ho as [_ Ho]. by apply Forall_app in Ho as [_ Ho].
Qed.

(** No two members have one path. *)
Lemma paths_nodup : NoDup (entry_path <$> es).
Proof.
  apply NoDup_alt. intros i j p (e & -> & Hi)%list_lookup_fmap_Some (e' & Hp & Hj)%list_lookup_fmap_Some.
  apply (st_distinct _ _ (tree_safe _ _ Hok) i j e e' Hi Hj). by rewrite Hp.
Qed.

Lemma file_names_nodup dir : NoDup (omap (file_in (bundle_root es) dir) (tail es)).*1.
Proof.
  pose proof paths_nodup as Hnd. assert (NoDup (entry_path <$> tail es)) as Hnd' by (destruct es; [done|]; by apply NoDup_cons in Hnd as [_ ?]).
  assert (∀ l, (∀ e, e ∈ l → e ∈ tail es) → NoDup (entry_path <$> l) → NoDup (omap (file_in (bundle_root es) dir) l).*1) as H; [|by apply H].
  induction l as [|e l IH]; intros Hl Hn; [constructor|]. rewrite fmap_cons in Hn. apply NoDup_cons in Hn as [Hn1 Hn2].
  specialize (IH ltac:(intros e' He'; apply Hl; by right) Hn2).
  change (omap (file_in (bundle_root es) dir) (e :: l)) with (match file_in (bundle_root es) dir e with Some f => f :: omap (file_in (bundle_root es) dir) l | None => omap (file_in (bundle_root es) dir) l end).
  destruct (file_in (bundle_root es) dir e) as [f|] eqn:Ef; [|done]. rewrite fmap_cons. constructor; [|done].
  intros (g & Hg & (e' & He' & Hf')%list_elem_of_omap)%list_elem_of_fmap. apply Hn1.
  unfold file_in in Ef, Hf'. destruct (entry_isDir e), (entry_isDir e'); try done.
  destruct (HasPrefix (rel_of (bundle_root es) e) dir) eqn:P1, (HasPrefix (rel_of (bundle_root es) e') dir) eqn:P2; try done.
  injection Ef as <-. injection Hf' as <-. cbn in Hg. apply HasPrefix_split in P1, P2.
  assert (entry_path e = entry_path e') as ->.
  { rewrite (below_root e), (below_root e'), P1, P2, Hg; [done|apply Hl; by right|apply Hl; by left]. }
  by apply list_elem_of_fmap_2.
Qed.
End Tree.

(** Inserting distinct keys. *)
Lemma foldl_insert_lookup {A B} (g : A → B) (fs : list (bytes * A)) : ∀ m : gmap (list Z) B, NoDup fs.*1 →
  ∀ k, foldl (λ m f, <[f.1 := g f.2]> m) m fs !! k = match find (λ f, beq f.1 k) fs with Some f => Some (g f.2) | None => m !! k end.
Proof.
  induction fs as [|f fs IH]; intros m Hn k; [done|]. rewrite fmap_cons in Hn. apply NoDup_cons in Hn as [Hf Hn]. cbn [foldl find]. rewrite IH by done.
  destruct (beq f.1 k) eqn:E; b2p.
  - subst k. destruct (find _ fs) as [f'|] eqn:Ef; [|by rewrite lookup_insert_eq]. apply find_some in Ef as [Hin Hb]. b2p. destruct Hf. rewrite <- Hb.
    by apply list_elem_of_fmap_2, list_elem_of_In.
  - by rewrite lookup_insert_ne.
Qed.

Lemma foldl_insert_elem {A B} (g : A → B) (fs : list (bytes * A)) k b : NoDup fs.*1 →
  foldl (λ m f, <[f.1 := g f.2]> m) (∅ : gmap (list Z) B) fs !! k = Some b ↔ ∃ a, (k, a) ∈ fs ∧ g a = b.
Proof.
  intros Hn. rewrite foldl_insert_lookup, lookup_empty by done. split.
  - destruct (find _ fs) as [[k' a]|] eqn:E; [|done]. intros [= <-]. apply find_some in E as [Hin Hb]. cbn in *. b2p. subst k'. exists a. split; [by apply list_elem_of_In|done].
  - intros (a & Ha & <-). destruct (find _ fs) as [[k' a']|] eqn:E.
    + apply find_some in E as [Hin%list_elem_of_In Hb]. cbn in *. b2p. subst k'. f_equal.
      assert (a' = a) as ->; [|done]. apply list_elem_of_lookup in Hin as [i Hi], Ha as [j Hj]. 
      assert (i = j) as ->; [|congruence]. eapply NoDup_lookup; [exact Hn|by rewrite list_lookup_fmap, Hi|by rewrite list_lookup_fmap, Hj].
    + apply list_elem_of_In in Ha. pose proof (find_none _ _ E _ Ha) as H. cbn in H. by rewrite beq_refl in H.
Qed.

(** ** A verified package *)

Section Verified.
Context `{P : Primitives} `{L : !PrimitiveLaws P} `{I : Inflate}.

(** [src] is a whole package file that holds the members [es]. *)
Definition holds (src : bytes) (es : list entry) : Prop :=
  ∃ gz w, newGzipStream src = Ok gz ∧ walk_members stream_fuel (newTarWalker gz) = Ok (es, w) ∧ finish (w_gz w) = Ok ().

Lemma holds_tree src es : holds src es → tree_ok bundleLimits es.
Proof.
  intros (gz & w & _ & Hw & _). destruct (walk_sound _ bundleLimits [] _ es w (walked_new bundleLimits gz) Hw) as (Ht & Hne & _). by split.
Qed.

Lemma holds_unique src es es' : holds src es → holds src es' → es = es'.
Proof. intros (gz & w & Hg & Hw & _) (gz' & w' & Hg' & Hw' & _). congruence. Qed.

Record collected (es : list entry) (c : bundleContents) : Prop := {
  co_root : bc_root c = bundle_root es;
  co_digest : bc_digest c = foldl add_installed newPackageDigest (installed_files es);
  co_signatures : signatures c = foldl (λ m f, <[f.1 := f.2]> m) ∅ (trust_files es);
  co_manifest : manifestRaw c = last (manifest_files es);
  co_dirs : dirs c = bundle_dirs es;
}.

Lemma streamBundle_collects src c : streamBundle src = Ok c → ∃ es, holds src es ∧ collected es c.
Proof.
  unfold streamBundle. intros (gz & Hg & H)%bind_ok. apply bind_ok in H as ([c0 w] & Hs & H). apply bind_ok in H as ([] & Hf & [= <-]).
  destruct (stream_walk stream_fuel bundleLimits [] (newTarWalker gz) new_contents c0 w (walked_new bundleLimits gz)) as (es & Hes & ->); [done|exact Hs|].
  assert (holds src es) as Hh by (by exists gz, w). exists es. split; [done|]. pose proof (holds_tree _ _ Hh) as Hok.
  destruct (st_root _ _ (tree_safe _ _ Hok)) as (r & rest & -> & _ & _ & _).
  assert (entry_path r ≠ []) as Hne.
  { destruct (tree_member_ok _ _ Hok r ltac:(by left)) as (pre & Ho). by apply entry_path_bytes in Ho as (_ & _ & ?). }
  cbn [foldl]. change (consumed new_contents r) with (set_root new_contents (entry_path r)).
  destruct (consumed_all (entry_path r) rest (set_root new_contents (entry_path r)) eq_refl Hne) as (H1 & H2 & H3 & H4 & H5).
  split; [exact H1|exact H2|exact H3| |].
  - rewrite H4. unfold manifest_files. cbn. by destruct (last _).
  - rewrite H5. unfold bundle_dirs. cbn [bundle_root tail dirs set_root new_contents]. by rewrite union_empty_r_L.
Qed.

(** The digests by name are those of the files installed. *)
Lemma collected_digests es c rel h : tree_ok bundleLimits es → collected es c →
  perFile (bc_digest c) !! rel = Some h ↔ ∃ data, (rel, data) ∈ installed_files es ∧ hex_encode (sha256 data) = h.
Proof.
  intros Hok Hc. rewrite (co_digest _ _ Hc). destruct (add_installed_all (installed_files es) newPackageDigest) as (_ & _ & ->). cbn [perFile newPackageDigest].
  apply (foldl_insert_elem (λ data, hex_encode (sha256 data))). by apply file_names_nodup with bundleLimits.
Qed.

Lemma collected_hash es c : collected es c → digest_sum (bc_digest c) = SHA256Prefixed (concat (digest_line <$> installed_files es)).
Proof. intros Hc. unfold digest_sum. rewrite (co_digest _ _ Hc). destruct (add_installed_all (installed_files es) newPackageDigest) as (-> & _ & _). done. Qed.

Lemma collected_trust es c name raw : tree_ok bundleLimits es → collected es c →
  signatures c !! name = Some raw ↔ (name, raw) ∈ trust_files es.
Proof.
  intros Hok Hc. rewrite (co_signatures _ _ Hc).
  pose proof (foldl_insert_elem (λ raw : bytes, raw) (trust_files es) name raw (file_names_nodup bundleLimits es Hok (bs "signatures/"))) as H. cbn in H.
  rewrite H. naive_solver.
Qed.

(** What the checks after the pass have established. *)
Record checked (c : bundleContents) (roots : TrustRoots) (clock : nat → Z) (r : Result) : Prop := {
  ck_raw : ∃ raw, manifestRaw c = Some raw ∧ parseManifest raw = Some (res_Manifest r) ∧ manifestHash raw = Ok (res_ManifestHash r);
  ck_shape : shape_ok c (res_Manifest r) = true;
  ck_hash : res_PackageHash r = digest_sum (bc_digest c) ∧ m_PackageHash (res_Manifest r) = res_PackageHash r;
  ck_trust : verify_trust roots clock (res_Manifest r) (signatures c) (res_PackageHash r) (res_ManifestHash r)
    = Ok (res_Tier r, PublisherID r, ReviewedCapabilities r);
  ck_artifacts : Forall (λ v, artifact_matches (bc_digest c) v = true) (Variants (res_Manifest r));
  ck_tier : checkTierEligibility (res_Manifest r) (res_Tier r) = Ok ();
  ck_digests : FileDigests r = (λ h, bs "sha256:" ++ h) <$> perFile (bc_digest c);
}.

Lemma verify_contents_checked c roots clock r : verify_contents c roots clock = Ok r → checked c roots clock r.
Proof.
  unfold verify_contents. intros (raw & Hraw%of_option_ok & H)%bind_ok. apply bind_ok in H as (m & Hm%of_option_ok & H).
  destruct (shape_ok c m) eqn:Hs; [|done]. cbn [negb] in H. apply bind_ok in H as (mh & Hmh & H).
  destruct (beq (m_PackageHash m) _) eqn:Hp; [|done]. cbn [negb] in H. apply bind_ok in H as ([[tier id] caps] & Ht & H).
  destruct (forallb _ (Variants m)) eqn:Ha in H; [|done]. cbn [negb] in H. apply bind_ok in H as ([] & He & [= <-]). b2p.
  split; cbn; try done.
  - by exists raw.
  - apply Forall_forall. intros v Hv%list_elem_of_In. rewrite forallb_forall in Ha. by apply Ha.
Qed.

Lemma VerifyPackage_checked src roots clock r : VerifyPackage src roots clock = Ok r → ∃ es c, holds src es ∧ collected es c ∧ checked c roots clock r.
Proof.
  unfold VerifyPackage. intros (c & (es & Hh & Hc)%streamBundle_collects & Hv%verify_contents_checked)%bind_ok. by exists es, c.
Qed.

(** *** What the trust objects prove *)

Definition unrevoked (roots : TrustRoots) (owner kind payload : bytes) : Prop :=
  ∃ snap canonical, lookup_snapshot (Revocation roots) owner = Some (Ok snap) ∧ CanonicalizeV1 payload = Ok canonical
    ∧ revokedKey kind (SHA256Prefixed canonical) ∉ revoked snap.

(** [raw] is a signed object of the kind under the key, and its payload is not revoked. *)
Definition signed_object (roots : TrustRoots) (owner kind : bytes) (key : PublicKeyEnvelope) (raw payload : bytes) : Prop :=
  ∃ bundle, decode_envelope raw = Some bundle ∧ valid_envelope bundle key kind [ProfileRoot] ∧ payload = env_Payload bundle ∧ unrevoked roots owner kind payload.

(** The pinned key is valid now and of its own domain. *)
Definition pinned (root : option PublicKeyEnvelope) (keyType : bytes) (now : Z) (key : PublicKeyEnvelope) : Prop :=
  root = Some key ∧ ValidatePublicKeyEnvelope key [ProfileRoot] now = Ok () ∧ pke_KeyType key = keyType.

Lemma checkRevocation_ok roots owner kind payload : checkRevocation roots owner kind payload = Ok () → unrevoked roots owner kind payload.
Proof.
  unfold checkRevocation. destruct (lookup_snapshot _ _) as [[snap|]|] eqn:El; [|done..]. destruct (CanonicalizeV1 payload) as [c|] eqn:Ec; [|done].
  destruct (bool_decide _) eqn:Eb; [done|]. apply bool_decide_eq_false in Eb. intros _. by exists snap, c.
Qed.

Lemma signed_object_intro roots owner kind key raw payload f : map_err f (VerifyPayload raw key kind [ProfileRoot]) = (Ok payload : result Reason bytes) →
  checkRevocation roots owner kind payload = Ok () → signed_object roots owner kind key raw payload.
Proof.
  intros H%map_err_ok Hr%checkRevocation_ok. unfold VerifyPayload in H. apply bind_ok in H as (_ & _ & H). apply bind_ok in H as (bundle & Hb%of_option_ok & H).
  apply verify_bundle_valid in H as [Hv ->]. by exists bundle.
Qed.

Lemma validatePinnedRoot_ok key keyType reason now : validatePinnedRoot key keyType reason now = Ok () → pinned (Some key) keyType now key.
Proof.
  unfold validatePinnedRoot, pinned. destruct (ValidatePublicKeyEnvelope _ _ _) as [[]|]; [|done]. cbn [is_ok negb]. destruct (beq _ _) eqn:E; [|done]. by b2p.
Qed.

(** The platform's signature over the two hashes. *)
Definition platform_proof (roots : TrustRoots) (now : Z) (plat packageHash manifestHash : bytes) : Prop :=
  ∃ key payload, pinned (PlatformRelease roots) keyTypePlatformRelease now key
    ∧ signed_object roots keyTypePlatformRelease artifactKindPlatformSig key plat payload
    ∧ decode_pair payload = Some (mkHashPair packageHash manifestHash).

Lemma verifyPlatformSig_ok plat roots ph mh now : verifyPlatformSig plat roots ph mh now = Ok () → platform_proof roots now plat ph mh.
Proof.
  unfold verifyPlatformSig, platform_proof. intros (key & Hk%of_option_ok & H)%bind_ok. apply bind_ok in H as ([] & Hp%validatePinnedRoot_ok & H).
  apply bind_ok in H as (payload & Hv & H). apply bind_ok in H as ([] & Hr & H). apply bind_ok in H as ([a b] & Hd%of_option_ok & H). cbn in H.
  destruct (negb (beq a ph) || negb (beq b mh)) eqn:E; [done|]. b2p. subst. exists key, payload. rewrite Hk. split; [done|]. split; [|done]. by eapply signed_object_intro.
Qed.

(** The certifier's certificate of a publisher's key, and that key's signature over the two hashes. *)
Definition publisher_proof (roots : TrustRoots) (now later : Z) (cert sig id packageHash manifestHash : bytes) : Prop :=
  ∃ certifier certRaw keyRaw key payload, pinned (PublisherCertifier roots) keyTypePublisherCertifier now certifier
    ∧ signed_object roots keyTypePublisherCertifier artifactKindPublisherCert certifier cert certRaw
    ∧ decode_cert certRaw = Some (mkCert id keyRaw) ∧ id ≠ [] ∧ decode_key_envelope keyRaw = Some key ∧ pinned (Some key) keyTypePublisher later key
    ∧ signed_object roots keyTypePublisherCertifier artifactKindManifestSig key sig payload
    ∧ decode_pair payload = Some (mkHashPair packageHash manifestHash).

Lemma verifyPublisherChain_ok cert sig roots ph mh now later id : verifyPublisherChain cert sig roots ph mh now later = Ok id →
  publisher_proof roots now later cert sig id ph mh.
Proof.
  unfold verifyPublisherChain, publisher_proof. intros (certifier & Hk%of_option_ok & H)%bind_ok. apply bind_ok in H as ([] & Hp%validatePinnedRoot_ok & H).
  apply bind_ok in H as (certRaw & Hv & H). apply bind_ok in H as ([] & Hr & H). apply bind_ok in H as ([id' keyRaw] & Hd%of_option_ok & H). cbn in H.
  destruct (beq id' [] || beq keyRaw []) eqn:E; [done|]. apply bind_ok in H as (key & Hkey%of_option_ok & H).
  destruct (ValidatePublicKeyEnvelope key _ _) as [[]|] eqn:Hke; [|done]. cbn [is_ok negb] in H. destruct (beq (pke_KeyType key) _) eqn:Et; [|done]. cbn [negb] in H.
  apply bind_ok in H as (payload & Hv2 & H). apply bind_ok in H as ([] & Hr2 & H). apply bind_ok in H as ([a b] & Hd2%of_option_ok & H). cbn in H.
  destruct (negb (beq a ph) || negb (beq b mh)) eqn:E2; [done|]. injection H as ->. b2p. subst.
  exists certifier, certRaw, keyRaw, key, payload. rewrite Hk. split; [done|]. split; [by eapply signed_object_intro|]. do 3 (split; [done|]). split; [done|].
  split; [by eapply signed_object_intro|done].
Qed.

(** The reviewer's attestation of the plugin, its version and the two hashes. *)
Definition review_proof (roots : TrustRoots) (now : Z) (m : Manifest) (att : bytes) (caps : list bytes) (packageHash manifestHash : bytes) : Prop :=
  ∃ key payload, pinned (Reviewer roots) keyTypeReviewer now key
    ∧ signed_object roots keyTypeReviewer artifactKindAttestation key att payload
    ∧ decode_attestation payload = Some (mkAttestation (m_ID m) (m_Version m) packageHash manifestHash (Some caps)).

Lemma verifyAttestation_ok att roots m ph mh now caps : verifyAttestation att roots m ph mh now = Ok caps → review_proof roots now m att caps ph mh.
Proof.
  unfold verifyAttestation, review_proof. intros (key & Hk%of_option_ok & H)%bind_ok. apply bind_ok in H as ([] & Hp%validatePinnedRoot_ok & H).
  apply bind_ok in H as (payload & Hv & H). apply bind_ok in H as ([] & Hr & H). apply bind_ok in H as ([a b c d e] & Hd%of_option_ok & H).
  apply bind_ok in H as (caps' & He%of_option_ok & H). cbn in H, He. destruct (_ || _ || _ || _) eqn:E in H; [done|]. injection H as ->. b2p. subst.
  exists key, payload. rewrite Hk. split; [done|]. split; [by eapply signed_object_intro|done].
Qed.

(** The tier is what the trust objects of the package prove. *)
Definition tier_proof (roots : TrustRoots) (clock : nat → Z) (fs : list (bytes * bytes)) (r : Result) : Prop :=
  match res_Tier r with
  | TierT3 => ∃ plat, (sigFilePlatformSig, plat) ∈ fs ∧ platform_proof roots (clock 0%nat) plat (res_PackageHash r) (res_ManifestHash r)
  | TierT2 => ∃ cert sig att, (sigFilePublisherCrt, cert) ∈ fs ∧ (sigFilePublisherSig, sig) ∈ fs ∧ (sigFileAttestation, att) ∈ fs
      ∧ publisher_proof roots (clock 0%nat) (clock 1%nat) cert sig (PublisherID r) (res_PackageHash r) (res_ManifestHash r)
      ∧ review_proof roots (clock 2%nat) (res_Manifest r) att (ReviewedCapabilities r) (res_PackageHash r) (res_ManifestHash r)
  | TierT1 => ∃ cert sig, (sigFilePublisherCrt, cert) ∈ fs ∧ (sigFilePublisherSig, sig) ∈ fs
      ∧ publisher_proof roots (clock 0%nat) (clock 1%nat) cert sig (PublisherID r) (res_PackageHash r) (res_ManifestHash r)
  | TierT0 => Forall (λ f, f.1 ∉ trust_objects) fs ∧ PublisherID r = [] ∧ ReviewedCapabilities r = []
  end.

Lemma verify_trust_ok roots clock m sigs ph mh tier id caps : verify_trust roots clock m sigs ph mh = Ok (tier, id, caps) →
  match tier with
  | TierT3 => ∃ plat, sigs !! sigFilePlatformSig = Some plat ∧ platform_proof roots (clock 0%nat) plat ph mh
  | TierT2 => ∃ cert sig att, sigs !! sigFilePublisherCrt = Some cert ∧ sigs !! sigFilePublisherSig = Some sig ∧ sigs !! sigFileAttestation = Some att
      ∧ publisher_proof roots (clock 0%nat) (clock 1%nat) cert sig id ph mh ∧ review_proof roots (clock 2%nat) m att caps ph mh
  | TierT1 => ∃ cert sig, sigs !! sigFilePublisherCrt = Some cert ∧ sigs !! sigFilePublisherSig = Some sig
      ∧ publisher_proof roots (clock 0%nat) (clock 1%nat) cert sig id ph mh
  | TierT0 => Forall (λ name, sigs !! name = None) trust_objects ∧ id = [] ∧ caps = []
  end.
Proof.
  unfold verify_trust. destruct (sigs !! sigFilePlatformSig) as [plat|] eqn:E1, (sigs !! sigFilePublisherCrt) as [cert|] eqn:E2,
    (sigs !! sigFilePublisherSig) as [sig|] eqn:E3, (sigs !! sigFileAttestation) as [att|] eqn:E4; try done.
  - intros ([] & H%verifyPlatformSig_ok & [= <- <- <-])%bind_ok. by exists plat.
  - intros (i & H%verifyPublisherChain_ok & H2)%bind_ok. apply bind_ok in H2 as (c & H2%verifyAttestation_ok & [= <- <- <-]). by exists cert, sig, att.
  - intros (i & H%verifyPublisherChain_ok & [= <- <- <-])%bind_ok. by exists cert, sig.
  - intros [= <- <- <-]. split; [|done]. repeat constructor; done.
Qed.

Lemma checked_tier es c roots clock r : tree_ok bundleLimits es → collected es c → checked c roots clock r → tier_proof roots clock (trust_files es) r.
Proof.
  intros Hok Hc Hk. pose proof (verify_trust_ok _ _ _ _ _ _ _ _ _ (ck_trust _ _ _ _ Hk)) as H. unfold tier_proof.
  pose proof (λ name raw, proj1 (collected_trust es c name raw Hok Hc)) as Ht. destruct (res_Tier r).
  - destruct H as (Hn & Hid & Hcaps). split; [|done]. apply Forall_forall. intros [name raw] Hf%(collected_trust es c); [|done..].
    intros Hin. rewrite Forall_forall in Hn. cbn in Hin. rewrite (Hn name Hin) in Hf. done.
  - destruct H as (cert & sig & H1 & H2 & H3). exists cert, sig. auto.
  - destruct H as (cert & sig & att & H1 & H2 & H3 & H4). exists cert, sig, att. auto 6.
  - destruct H as (plat & H1 & H2). exists plat. auto.
Qed.

(** *** Eligibility *)

Lemma checkTierEligibility_ok m tier : m_Kind m = bs "plugin" → checkTierEligibility m tier = Ok () →
  (tier ≠ TierT3 → ∃ v, v ∈ Variants m ∧ is_wasm v = true) ∧ (∀ v, v ∈ Variants m → is_native v = true → tier = TierT3).
Proof.
  intros Hk. unfold checkTierEligibility. rewrite Hk, beq_refl. cbn [negb].
  destruct (WASMBaselineRequiredT0T1T2 contract && (tier_index tier <=? tier_index TierT2) && negb (existsb is_wasm (Variants m))) eqn:Ew; [done|].
  destruct (existsb is_native (Variants m) && negb (bool_decide (tier = TierT3))) eqn:En; [done|]. intros _. split.
  - intros Ht. assert ((tier_index tier <=? tier_index TierT2) = true) as Hi by (by destruct tier). rewrite Hi in Ew. cbn [contract WASMBaselineRequiredT0T1T2 andb] in Ew.
    apply negb_false_iff, existsb_exists in Ew as (v & Hv & Hw). exists v. split; [by apply list_elem_of_In|done].
  - intros v Hv%list_elem_of_In Hn. assert (existsb is_native (Variants m) = true) as Hx by (apply existsb_exists; eauto). rewrite Hx in En.
    by apply negb_false_iff, bool_decide_eq_true in En.
Qed.



End Verified.
