(* ===== verification/PackageRead.v ===== *)
(** * Reading a package back

    The passes of the loops are enough, and what [readMembers] delivers is what
    verification saw. *)

From stdpp Require Import gmap.
From S2P Require Import Prelude Utf8 GoJson CanonicalJson CanonicalJsonFacts GoStruct Crypto Event Lines Chain Container Time SigEnvelope Sections Tar TarFacts TarAccept Regex Manifest ManifestFacts Trust TrustFacts Package PackageFacts.

(** ** The passes of the loop are bounded *)

Section Passes.
Context `{P : Primitives}.

(** The walker apart from its stream. *)
Definition at_rest (w : tarWalker) : Prop := w_pending w = [] ∧ w_limits w = bundleLimits.

Lemma next_grows w m w1 : at_rest w → next w = Ok (Some m, w1) →
  at_rest w1 ∧ length (w_seen w1) = S (length (w_seen w)) ∧ Z.of_nat (length (w_seen w)) < maxSemanticMembers ∧ 0 ≤ m_size m.
Proof.
  intros [Hp Hl] Hn. destruct (next_ok w m w1 Hp Hn) as (_ & _ & _ & Hd & _). split; [split; [apply (dl_pending _ _ _ Hd)|by rewrite (dl_limits _ _ _ Hd)]|].
  rewrite (dl_seen _ _ _ Hd), length_app. cbn [length]. split; [lia|]. split; [|apply (dl_size _ _ _ Hd)].
  pose proof (ad_room _ _ (dl_admitted _ _ _ Hd)) as Hr. by rewrite Hl in Hr.
Qed.

Lemma readPayload_rest w m data w' : 0 ≤ m_size m → readPayload w m = Ok (data, w') → at_rest w → at_rest w' ∧ w_seen w' = w_seen w.
Proof. intros Hs (_ & _ & ->)%readPayload_ok; [|done]. intros [? ?]. done. Qed.

Lemma consumeMember_rest w m c c' w' : 0 ≤ m_size m → consumeMember w m c = Ok (c', w') → at_rest w → at_rest w' ∧ w_seen w' = w_seen w.
Proof.
  intros Hs. unfold consumeMember. destruct (beq (bc_root c) []); [by intros [= <- <-]|]. destruct (m_isDir m).
  { destruct (beq _ (bs "install-root")); [by intros [= <- <-]|]. destruct (_ || _ || _); [by intros [= <- <-]|done]. }
  destruct (beq _ (bs "manifest.json")); [intros ([raw w1] & H%materialize_ok & [= <- <-])%bind_ok; by eapply readPayload_rest|].
  destruct (HasPrefix _ (bs "install-root/")); [intros ([raw w1] & H & [= <- <-])%bind_ok; by eapply readPayload_rest|].
  destruct (HasPrefix _ (bs "signatures/")); [destruct (negb _); [done|]; intros ([raw w1] & H%materialize_ok & [= <- <-])%bind_ok; by eapply readPayload_rest|].
  destruct (HasPrefix _ (bs "provenance/")); [destruct (negb _); [done|]; intros ([raw w1] & H & [= <- <-])%bind_ok; by eapply readPayload_rest|].
  destruct (beq _ (bs "README.md")); [intros ([raw w1] & H & [= <- <-])%bind_ok; by eapply readPayload_rest|done].
Qed.

Lemma stream_fuel_any f : ∀ f' w c, at_rest w → (Z.to_nat maxSemanticMembers - length (w_seen w) < f)%nat →
  (Z.to_nat maxSemanticMembers - length (w_seen w) < f')%nat → stream_members f w c = stream_members f' w c.
Proof.
  induction f as [|f IH]; intros [|f'] w c Hr Hf Hf'; [lia..|]. cbn [stream_members]. destruct (next w) as [[om w1]|e] eqn:Hn; cbn [mbind result_bind]; [|done].
  destruct om as [m|]; [|done]. destruct (next_grows w m w1 Hr Hn) as (Hr1 & Hs1 & Hroom & Hsz).
  destruct (consumeMember w1 m c) as [[c2 w2]|e] eqn:Hc; cbn [mbind result_bind]; [|done].
  destruct (consumeMember_rest _ _ _ _ _ Hsz Hc Hr1) as [Hr2 Hs2]. apply IH; [done|rewrite Hs2, Hs1; lia..].
Qed.

(** The pass over an archive ends: with more passes allowed than the bound on
    members, the loop gives the same answer, so the bound is never what stops it;
    the loop runs at most once per member and once for the end. *)
Theorem stream_passes_enough gz f c : (stream_fuel ≤ f)%nat →
  stream_members f (newTarWalker gz) c = stream_members stream_fuel (newTarWalker gz) c.
Proof. intros Hf. apply stream_fuel_any; [done|cbn [newTarWalker newTarWalkerWith w_seen length]; unfold stream_fuel in *; lia..]. Qed.
End Passes.

(** ** What is read back *)

(** The files delivered in their order, until nothing more is wanted. *)
Fixpoint read_spec (fn : bytes → bytes → bool) (fs : list (bytes * bytes)) (wanted : gset (list Z)) (calls : list (bytes * bytes)) :
    list (bytes * bytes) * result read_err unit :=
  if bool_decide (wanted = ∅) then (calls, Ok ())
  else match fs with
  | [] => (calls, Err (RReason ReasonEnvelopeMalformed))
  | (rel, data) :: rest =>
    if negb (bool_decide (rel ∈ wanted)) then read_spec fn rest wanted calls
    else if maxMemberReadBytes <? Z.of_nat (length data) then (calls, Err (RReason ReasonCeilingExceeded))
    else if fn rel data then read_spec fn rest (wanted ∖ {[rel]}) (calls ++ [(rel, data)])
    else (calls ++ [(rel, data)], Err RCallback)
  end.

Lemma HasPrefix_below a x y : HasPrefix (a ++ x) (a ++ y) = HasPrefix x y.
Proof.
  apply eq_bool_prop_intro. rewrite !Is_true_true. split; intros H%HasPrefix_split.
  - rewrite <- app_assoc in H. apply app_inv_head in H. rewrite H. apply HasPrefix_app.
  - rewrite H, app_assoc. apply HasPrefix_app.
Qed.

Lemma TrimPrefix_below a x y : HasPrefix x y = true → TrimPrefix (a ++ x) (a ++ y) = TrimPrefix x y.
Proof. intros H%HasPrefix_split. rewrite H at 1. by rewrite app_assoc, TrimPrefix_app. Qed.

Lemma read_walk fn root fuel : ∀ w es w', root ≠ [] → walk_members fuel w = Ok (es, w') →
  (∀ e, e ∈ es → entry_path e = root ++ [47] ++ rel_of root e ∧ Z.of_nat (length e.2) = m_size e.1) →
  ∀ wanted calls, read_loop fuel fn w root wanted calls = read_spec fn (omap (installed root) es) wanted calls.
Proof.
  induction fuel as [|f IH]; intros w es w' Hne; cbn [walk_members read_loop]; [done|]. intros ([om w1] & Hn & H)%bind_ok Hes wanted calls.
  rewrite Hn. destruct om as [m|].
  2: { injection H as <- <-. cbn. done. }
  apply bind_ok in H as ([data w2] & Hd & H). apply bind_ok in H as ([es' w3] & Hw & [= <- <-]).
  destruct (Hes (m, data) ltac:(by left)) as [Hp Hl]. unfold entry_path in Hp. cbn [fst snd] in Hp, Hl.
  specialize (IH w2 es' w3 Hne Hw ltac:(intros e He; apply Hes; by right)). rewrite (proj2 (beq_false _ _) Hne).
  change (omap (installed root) ((m, data) :: es')) with
    (match installed root (m, data) with Some f => f :: omap (installed root) es' | None => omap (installed root) es' end).
  unfold installed at 1. unfold file_in, entry_isDir. cbn [fst snd].
  destruct (bool_decide (wanted = ∅)) eqn:Ew.
  { destruct (match (if m_isDir m then None else _) with Some f0 => _ | None => _ end) as [|[a b] l]; cbn [read_spec]; by rewrite Ew. }
  destruct (m_isDir m) eqn:Edir.
  { injection Hd as <- <-. apply IH. }
  rewrite Hp. replace (root ++ bs "/install-root/") with ((root ++ [47]) ++ bs "install-root/") by (by rewrite <- app_assoc).
  rewrite (app_assoc root [47]), HasPrefix_below. destruct (HasPrefix (rel_of root (m, data)) (bs "install-root/")) eqn:Ei; cbn [negb orb].
  2: { rewrite Hd. apply IH. }
  rewrite TrimPrefix_below by done. cbn [read_spec]. rewrite Ew. destruct (bool_decide (_ ∈ wanted)); cbn [negb].
  2: { rewrite Hd. apply IH. }
  rewrite Hl, Hd. destruct (maxMemberReadBytes <? m_size m); [done|]. destruct (fn _ data); [apply IH|done].
Qed.

Lemma wanted_nonempty (paths : list bytes) : paths ≠ [] → (list_to_set paths : gset (list Z)) ≠ ∅.
Proof. destruct paths; [done|]. intros _. set_solver. Qed.

(** With one name wanted. *)
Lemma read_spec_one fs rel calls : NoDup fs.*1 → read_spec (λ _ _, true) fs {[rel]} calls =
  match find (λ f, beq f.1 rel) fs with
  | Some (_, data) => if maxMemberReadBytes <? Z.of_nat (length data) then (calls, Err (RReason ReasonCeilingExceeded)) else (calls ++ [(rel, data)], Ok ())
  | None => (calls, Err (RReason ReasonEnvelopeMalformed))
  end.
Proof.
  intros _. assert (bool_decide ({[rel]} = (∅ : gset (list Z))) = false) as Hs by (apply bool_decide_eq_false; set_solver).
  assert (∀ l c, read_spec (λ _ _, true) l ({[rel]} ∖ {[rel]}) c = (c, Ok ())) as Hend.
  { intros l c. destruct l as [|[a b] l]; cbn [read_spec]; rewrite bool_decide_true by set_solver; done. }
  induction fs as [|[k data] fs IH]; cbn [read_spec find fst]; rewrite Hs; [done|].
  destruct (beq k rel) eqn:E; b2p.
  - subst k. rewrite bool_decide_true by set_solver. cbn [negb]. destruct (_ <? _); [done|]. apply Hend.
  - rewrite bool_decide_false by set_solver. cbn [negb]. apply IH.
Qed.

Section ReadBack.
Context `{P : Primitives} `{L : !PrimitiveLaws P} `{I : Inflate}.

Lemma read_loop_root fn f w root wanted calls m w1 : wanted ≠ ∅ → next w = Ok (Some m, w1) → root = m_path m →
  read_loop (S f) fn w [] wanted calls = read_loop f fn w1 root wanted calls.
Proof. intros Hw Hn ->. cbn [read_loop]. rewrite bool_decide_false by done. by rewrite Hn. Qed.

Lemma readMembers_reads src es paths fn : holds src es → paths ≠ [] →
  readMembers src paths fn = read_spec fn (installed_files es) (list_to_set paths) [].
Proof.
  intros Hh Hne. pose proof (holds_tree _ _ Hh) as Hok. destruct Hh as (gz & w & Hg & Hw & _). unfold readMembers. rewrite Hg.
  assert ((list_to_set paths : gset (list Z)) ≠ ∅) as Hp by (by apply wanted_nonempty).
  assert (∃ f, stream_fuel = S f) as [f Ef] by (by eexists). rewrite Ef in *. cbn [walk_members] in Hw. apply bind_ok in Hw as ([om w1] & Hn & Hw). destruct om as [m|].
  2: { injection Hw as <- _. by destruct (proj1 Hok). }
  apply bind_ok in Hw as ([data w2] & Hd & Hw). apply bind_ok in Hw as ([es' w3] & Hw & [= <- _]).
  destruct (st_root _ _ (tree_safe _ _ Hok)) as (r & rest & [= <- <-] & Hdir & _ & _). unfold entry_isDir in Hdir. cbn [fst] in Hdir. rewrite Hdir in Hd. injection Hd as <- <-.
  rewrite (read_loop_root fn _ _ (m_path m) _ _ m w1 Hp Hn eq_refl). unfold installed_files. cbn [bundle_root tail]. change (entry_path (m, [])) with (m_path m).
  apply read_walk with w3; [|exact Hw|].
  - destruct (tree_member_ok _ _ Hok (m, []) ltac:(by left)) as (pre & Ho). by apply entry_path_bytes in Ho as (_ & _ & ?).
  - intros e He. split; [by apply (below_root bundleLimits ((m, []) :: es') Hok e)|].
    destruct (tree_member_ok _ _ Hok e ltac:(by right)) as (pre & Ho). apply (eo_data _ _ _ Ho).
Qed.

Lemma ReadMember_reads src es rel : holds src es → ReadMember (Some src) rel =
  match find (λ f, beq f.1 rel) (installed_files es) with
  | Some (_, data) => if maxMemberReadBytes <? Z.of_nat (length data) then Err (RReason ReasonCeilingExceeded) else Ok data
  | None => Err (RReason ReasonEnvelopeMalformed)
  end.
Proof.
  intros Hh. unfold ReadMember, ReadMembers. rewrite (readMembers_reads src es [rel] _ Hh) by done. cbn [list_to_set].
  rewrite union_empty_r_L.
  rewrite read_spec_one by (by apply file_names_nodup with bundleLimits, holds_tree with src).
  destruct (find _ _) as [[k data]|]; [|done]. by destruct (_ <? _).
Qed.

(** What is read back from a verified package is what was verified: a member
    read by name has the digest the result recorded for that name, every recorded
    name whose content is within the ceiling can be read, and a name the result
    does not record is refused. *)
Theorem read_back_verified src roots clock r rel : VerifyPackage src roots clock = Ok r →
  match ReadMember (Some src) rel with
  | Ok data => FileDigests r !! rel = Some (SHA256Prefixed data) ∧ MemberDigest r rel data = (SHA256Prefixed data, SHA256Prefixed data, true)
  | Err e => FileDigests r !! rel = None ∨ (e = RReason ReasonCeilingExceeded ∧ ∃ es data, holds src es ∧ (rel, data) ∈ installed_files es ∧ maxMemberReadBytes < Z.of_nat (length data))
  end.
Proof.
  intros (es & c & Hh & Hc & Hk)%VerifyPackage_checked. pose proof (holds_tree _ _ Hh) as Hok. rewrite (ReadMember_reads src es rel Hh).
  destruct (find (λ f, beq f.1 rel) (installed_files es)) as [[k data]|] eqn:Ef.
  - apply find_some in Ef as [Hin%list_elem_of_In Hb]. cbn in Hb. b2p. subst k. destruct (Z.ltb_spec maxMemberReadBytes (Z.of_nat (length data))).
    { right. split; [done|]. by exists es, data. }
    assert (FileDigests r !! rel = Some (SHA256Prefixed data)) as Hd.
    { rewrite (ck_digests _ _ _ _ Hk), lookup_fmap. rewrite (proj2 (collected_digests es c rel (hex_encode (sha256 data)) Hok Hc)); [|by exists data]. done. }
    split; [done|]. unfold MemberDigest. rewrite Hd. cbn [default]. fold (SHA256Prefixed data). by rewrite beq_refl.
  - left. rewrite (ck_digests _ _ _ _ Hk), lookup_fmap. destruct (perFile (bc_digest c) !! rel) as [h|] eqn:Ep; [|done].
    apply (collected_digests es c) in Ep as (data & Hin%list_elem_of_In & _); [|done..]. pose proof (find_none _ _ Ef _ Hin) as Hf. cbn in Hf. by rewrite beq_refl in Hf.
Qed.
End ReadBack.
