(* ===== verification/Marshal.v ===== *)
(** * What [json.Marshal] writes for raw messages

    A canonical text inside a [map[string]json.RawMessage] is written with its
    HTML characters and line separators escaped; canonicalizing what was written
    gives the canonical text back. *)

From S2P Require Import Prelude Utf8 GoJson CanonicalJson CanonicalJsonFacts GoStruct Crypto Event.

(** ** Texts with HTML escapes *)

Definition html_field (kv : bytes * bytes) : bytes := json_string true kv.1 ++ 58 :: kv.2.

Fixpoint html_text (v : json) : bytes :=
  match v with
  | JObj m => 123 :: comma_join (map html_field (sort_keys (map (λ kv, (kv.1, html_text kv.2)) m))) ++ [125]
  | JArr l => 91 :: comma_join (map html_text l) ++ [93]
  | JStr s => json_string true s
  | _ => emitCanonicalJSONValue v
  end.

Lemma html_obj m : html_text (JObj m) = 123 :: comma_join (map (λ kv, html_field (kv.1, html_text kv.2)) (sort_keys m)) ++ [125].
Proof. cbn. rewrite sort_keys_map. do 3 f_equal. by rewrite map_map. Qed.

(** *** Arrays of tidy texts *)

Lemma elems_tail ts vs : Forall2 value_text ts vs → ∀ n outer stk rest acc, (2 * length (tail_text ts) < n)%nat →
  parse_elems n (Dec (tail_text ts ++ 93 :: rest) ArrayComma (outer :: stk)) acc = Ok (JArr (acc ++ vs), Dec rest (tokenValueEnd outer) stk).
Proof.
  induction 1 as [|t v ts vs (Hs & need & Hn & Hr) _ IH]; intros n outer stk rest acc Hlen; (destruct n as [|n]; [lia|]).
  - cbn. by rewrite app_nil_r.
  - change (tail_text (t :: ts)) with (44 :: t ++ tail_text ts) in *. cbn [length] in Hlen. rewrite length_app in Hlen.
    cbn [parse_elems app]. rewrite More_head by done. rewrite <- app_assoc.
    rewrite (parse_value_token n _ (Dec (t ++ tail_text ts ++ 93 :: rest) ArrayValue (outer :: stk))) by done.
    rewrite Hr by (auto using tail_text_delim; lia). cbn [tokenValueEnd]. rewrite IH by lia. by rewrite <- app_assoc.
Qed.

Lemma array_value_text ts vs : Forall2 value_text ts vs → value_text (91 :: comma_join ts ++ [93]) (JArr vs).
Proof.
  intros H. split; [by eexists _, _|]. exists (2 * length (91%Z :: comma_join ts ++ [93%Z]))%nat. split; [done|]. intros n st stk rest Hn Hst Hr.
  cbn [length] in Hn. rewrite length_app in Hn. cbn [length] in Hn. destruct n as [|n]; [lia|].
  cbn [parse_value app]. unfold Token at 1. cbn [token_loop d_rest d_state d_stack]. cbn. rewrite Hst. cbn. rewrite <- app_assoc.
  destruct H as [|t v ts vs (Hs & need & Hneed & Hrd) Hts]; [cbn in Hn; destruct n; [lia|done]|].
  rewrite comma_join_cons in Hn |- *. rewrite length_app in Hn. rewrite <- app_assoc. destruct n as [|n]; [lia|]. cbn [parse_elems].
  assert (∀ x st k, More (Dec (t ++ x) st k) = true) as -> by (intros; destruct Hs as (c & u & -> & ? & ? & ?); by apply More_head).
  change ([93] ++ rest) with (93 :: rest). rewrite Hrd by (auto using tail_text_delim; lia). cbn [tokenValueEnd app]. rewrite (elems_tail ts vs) by (done || lia). done.
Qed.

Lemma tidy_array ts vs : Forall2 tidy ts vs → tidy (91 :: comma_join ts ++ [93]) (JArr vs).
Proof.
  intros H. split; [apply array_value_text; eapply Forall2_impl; [exact H|]; by intros ? ? [? _]|].
  assert (Forall (λ s, Valid s = true) ts ∧ Forall plain_outside ts ∧ Forall wf vs) as (H1 & H2 & H3).
  { clear -H. induction H as [|t v ts vs (_ & ? & ? & ?) _ (? & ? & ?)]; auto. }
  split; [apply Valid_cons; [lia|]; apply Valid_app; [by apply Valid_comma_join|done]|]. split; [|by apply wf_arr].
  apply plain_outside_cons; [done|]. apply plain_outside_app; [by apply plain_outside_join|]. by apply plain_outside_cons; [|intros t].
Qed.

(** *** Objects of tidy texts under escaped names *)

Lemma html_members l vs : tidy_fields l vs → ∃ ms, Forall solid ms ∧ map member_text ms = map html_field l
  ∧ map raw_member ms = l ∧ map member_value ms = zip l.*1 vs ∧ map mb_key ms = l.*1.
Proof.
  induction 1 as [|[k raw] v l vs [Hk ((Hs & need & Hn & Hr) & _)] _ (ms & IH1 & IH2 & IH3 & IH4 & IH5)]; [by exists []|].
  exists (Member (json_string true k) k raw v need :: ms). cbn in *. rewrite IH2, IH3, IH4, IH5. split; [|done]. constructor; [|done]. split; [by apply key_text_json|]. done.
Qed.

Lemma tidy_html_object l vs : tidy_fields l vs → NoDup l.*1 → tidy (123 :: comma_join (map html_field l) ++ [125]) (JObj (zip l.*1 vs)).
Proof.
  intros H Hnd. destruct (html_members l vs H) as (ms & Hs & E & _ & Hv & Hk). split.
  { rewrite <- E, <- Hv. apply object_value_text; [done|by rewrite Hk]. }
  assert (Forall (λ s, Valid s = true ∧ plain_outside s) (map html_field l)) as Hl.
  { clear -H. induction H as [|kv v l vs (? & _ & ? & ? & _) _ IH]; constructor; auto. unfold html_field. split.
    - apply Valid_app; [by apply Valid_json_string|]. by apply Valid_cons.
    - apply plain_outside_app; [by apply plain_outside_json|]. by apply plain_outside_cons. }
  apply Forall_and in Hl as [Hl1 Hl2]. destruct (tidy_object l vs H Hnd) as (_ & _ & _ & Hwf). split; [|split; [|done]].
  - apply Valid_cons; [lia|]. apply Valid_app; [by apply Valid_comma_join|done].
  - apply plain_outside_cons; [done|]. apply plain_outside_app; [by apply plain_outside_join|]. by apply plain_outside_cons; [|intros t].
Qed.

Lemma tidy_emit v : wf v → tidy (emitCanonicalJSONValue v) (sorted_form v).
Proof.
  intros Hv. split; [split; [by apply emit_head|]; exists (jsize v); split; [by apply jsize_emit|by apply wf_parses]|].
  split; [by apply Valid_emit|]. split; [by apply plain_outside_emit|]. pose proof (denotes_emit v Hv) as (d & P & _). by eapply (proj1 (parse_wf _)).
Qed.

(** The escaped text of a value reads as the value. *)
Lemma tidy_html v : wf v → tidy (html_text v) (sorted_form v).
Proof.
  induction v as [| | |s|l IH|m IH] using json_ind; intros Hv.
  1-3: exact (tidy_emit _ Hv).
  - destruct Hv as [? ?]. by apply tidy_string.
  - apply wf_arr in Hv. cbn [html_text sorted_form]. apply tidy_array. apply Forall2_fmap_2.
    assert (Forall (λ v, tidy (html_text v) (sorted_form v)) l) as H by (rewrite Forall_forall in *; auto).
    clear -H. induction H; constructor; auto.
  - apply wf_obj in Hv as [Hnd Hm]. rewrite html_obj, sorted_form_obj.
    assert (sort_keys m ≡ₚ m) as Hp by apply sort_keys_perm. rewrite <- Hp in Hnd, Hm, IH. clear Hp. generalize dependent (sort_keys m). clear m. intros m IH Hnd Hm.
    pose proof (tidy_html_object (over_values html_text m) (map (λ kv, sorted_form kv.2) m)) as Ht.
    assert ((over_values html_text m).*1 = m.*1) as Ek by (rewrite <- list_fmap_compose; by apply list_fmap_ext).
    rewrite Ek in Ht. assert (zip m.*1 (map (λ kv, sorted_form kv.2) m) = over_values sorted_form m) as Ez by (clear; induction m as [|[] m IH]; cbn; [done|by rewrite IH]).
    rewrite Ez in Ht. rewrite map_map in Ht. apply Ht; [|done]. clear -Hm IH. unfold tidy_fields. induction m as [|kv m IHm]; [constructor|].
    apply Forall_cons in Hm as [[? ?] Hm], IH as [? IH]. cbn. constructor; auto.
Qed.

(** ** Compaction escapes and nothing else *)

(** A byte that is written as it stands, whatever follows. *)
Lemma compact_ordinary ins esc c t : c ≠ 60 → c ≠ 62 → c ≠ 38 → c ≠ 226 → compact ins esc (c :: t) =
  if ins then c :: compact (esc || negb (c =? 34)) (negb esc && (c =? 92)) t
  else if is_space c then compact false false t else c :: compact (c =? 34) false t.
Proof.
  intros H1 H2 H3 H4. cbn [compact]. rewrite (proj2 (Z.eqb_neq c 60)), (proj2 (Z.eqb_neq c 62)), (proj2 (Z.eqb_neq c 38)) by done. cbn [orb].
  rewrite (proj2 (Z.eqb_neq c 226)) by done. cbn [andb]. by destruct t as [|x [|y t]].
Qed.

Lemma compact_inside c t : c ≠ 60 → c ≠ 62 → c ≠ 38 → c ≠ 226 → c ≠ 34 → c ≠ 92 → compact true false (c :: t) = c :: compact true false t.
Proof.
  intros. rewrite compact_ordinary by done. by rewrite (proj2 (Z.eqb_neq c 34)), (proj2 (Z.eqb_neq c 92)) by done.
Qed.

Lemma compact_escape e t : e ≠ 60 → e ≠ 62 → e ≠ 38 → e ≠ 226 → compact true false (92 :: e :: t) = 92 :: e :: compact true false t.
Proof. intros. rewrite compact_ordinary by done. cbn [orb negb andb]. rewrite compact_ordinary by done. done. Qed.

Lemma compact_u_escape r t : compact true false (u_escape r ++ t) = u_escape r ++ compact true false t.
Proof.
  unfold u_escape. cbn [app]. rewrite compact_escape by done.
  assert (∀ n s, compact true false (hex_digit (n mod 16) :: s) = hex_digit (n mod 16) :: compact true false s) as Hh.
  { intros n s. pose proof (Z.mod_pos_bound n 16 ltac:(lia)). apply compact_inside; unfold hex_digit; destruct (_ <? _) eqn:E; b2p; lia. }
  by rewrite !Hh.
Qed.

Lemma compact_e2 x y t : ¬ (x = 128 ∧ (y = 168 ∨ y = 169)) → compact true false (226 :: x :: y :: t) = 226 :: compact true false (x :: y :: t).
Proof.
  intros Hn. assert ((x =? 128) && ((y =? 168) || (y =? 169)) = false) as E.
  { destruct (Z.eqb_spec x 128), (Z.eqb_spec y 168), (Z.eqb_spec y 169); try done; destruct Hn; auto. }
  change (compact true false (226 :: x :: y :: t)) with (if (x =? 128) && ((y =? 168) || (y =? 169)) then u_escape (8232 + (y - 168)) ++ compact true false t
    else 226 :: compact true false (x :: y :: t)). by rewrite E.
Qed.

(** One rune of a canonical string. *)
Lemma compact_rune r t : valid_rune r → compact true false (emit_rune r ++ t) = escape_rune true (r, length (EncodeRune r)) ++ compact true false t.
Proof.
  intros Hr. unfold escape_rune, short_escape, emit_rune.
  repeat match goal with |- context [if ?r =? ?k then [92; ?e] else _] => destruct (Z.eqb_spec r k); [cbn [app]; by rewrite compact_escape|] end.
  destruct (Z.ltb_spec r 32); [apply compact_u_escape|]. cbn [andb].
  destruct ((r =? 60) || (r =? 62) || (r =? 38)) eqn:Eh.
  { apply orb_true_iff in Eh as [[Eh|Eh]%orb_true_iff|Eh]; b2p; subst r; done. }
  assert ((r =? RuneError) && (length (EncodeRune r) =? 1)%nat = false) as ->.
  { destruct (Z.eqb_spec r RuneError) as [->|]; [|done]. done. }
  b2p. pose proof Hr as Hv. unfold valid_rune in Hv. rewrite EncodeRune_arith by done.
  destruct (Z.ltb_spec r 128).
  { rewrite (proj2 (Z.eqb_neq r 8232)), (proj2 (Z.eqb_neq r 8233)) by lia. cbn [orb app]. apply compact_inside; lia. }
  destruct (Z.ltb_spec r 2048).
  { rewrite (proj2 (Z.eqb_neq r 8232)), (proj2 (Z.eqb_neq r 8233)) by lia. cbn [orb app]. rewrite !compact_inside by zlia. done. }
  destruct (Z.ltb_spec r 65536).
  2: { rewrite (proj2 (Z.eqb_neq r 8232)), (proj2 (Z.eqb_neq r 8233)) by lia. cbn [orb app]. rewrite !compact_inside by zlia. done. }
  destruct ((r =? 8232) || (r =? 8233)) eqn:Es.
  { apply orb_true_iff in Es as [Es|Es]; b2p; subst r; done. }
  b2p. cbn [app]. destruct (Z.eq_dec (224 + r / 4096) 226) as [E|E].
  - rewrite E, compact_e2 by zlia. rewrite !compact_inside by zlia. done.
  - rewrite !compact_inside by zlia. done.
Qed.

Lemma compact_string s rest : Valid s = true → compact false false (emitCanonicalJSONString s ++ rest) = json_string true s ++ compact false false rest.
Proof.
  intros (rs & Hrs & ->)%Valid_iff. unfold emitCanonicalJSONString, json_string. rewrite runes_encode, decoded_encode_runes by done.
  cbn [app]. rewrite compact_ordinary by done. cbn [is_space Z.eqb Pos.eqb orb]. f_equal. rewrite <- !app_assoc.
  induction Hrs as [|r rs Hr _ IH]; [cbn [fmap list_fmap concat app]; by rewrite compact_ordinary|].
  rewrite !fmap_cons. cbn [concat]. rewrite <- !app_assoc, compact_rune by done. f_equal. exact IH.
Qed.

Lemma compact_outside s rest : Forall (λ c, is_space c = false ∧ c < 128 ∧ c ≠ 60 ∧ c ≠ 62 ∧ c ≠ 38 ∧ c ≠ 34) s →
  compact false false (s ++ rest) = s ++ compact false false rest.
Proof.
  induction 1 as [|c s (H1 & H2 & H3 & H4 & H5 & H6) _ IH]; [done|]. cbn [app]. rewrite compact_ordinary by lia. rewrite H1, (proj2 (Z.eqb_neq c 34)) by done. by rewrite IH.
Qed.

Lemma compact_join ts us rest : Forall2 (λ t u, ∀ rest, compact false false (t ++ rest) = u ++ compact false false rest) ts us →
  compact false false (comma_join ts ++ rest) = comma_join us ++ compact false false rest.
Proof.
  induction 1 as [|t u ts us H Hts IH]; [done|]. destruct Hts as [|t' u' ts us H' Hts]; [apply H|].
  change (comma_join (t :: t' :: ts)) with (t ++ 44 :: comma_join (t' :: ts)). change (comma_join (u :: u' :: us)) with (u ++ 44 :: comma_join (u' :: us)).
  rewrite <- !app_assoc, H. cbn [app]. rewrite compact_ordinary by done. cbn [is_space Z.eqb Pos.eqb orb]. by rewrite IH.
Qed.

Lemma number_outside s : canonicalJSONNumber s = true → Forall (λ c, is_space c = false ∧ c < 128 ∧ c ≠ 60 ∧ c ≠ 62 ∧ c ≠ 38 ∧ c ≠ 34) s.
Proof.
  intros (sign & i & f & -> & Hs & Hi & Hf)%canonical_number_shape.
  assert (∀ d, Forall (λ c, is_digit c = true) d → Forall (λ c, is_space c = false ∧ c < 128 ∧ c ≠ 60 ∧ c ≠ 62 ∧ c ≠ 38 ∧ c ≠ 34) d) as Hd.
  { intros d H. eapply Forall_impl; [exact H|]. intros c Hc. unfold is_digit in Hc. b2p. split; [apply is_space_false; lia|lia]. }
  rewrite !Forall_app. repeat split.
  - by destruct Hs as [->| ->]; repeat constructor.
  - destruct Hi as [->|(c & d & -> & ? & ?)]; [by repeat constructor|]. auto.
  - destruct Hf as [->|(d & -> & ? & ?)]; [constructor|]. constructor; [done|]. auto.
Qed.

(** A canonical text is written with its escapes. *)
Lemma compact_emit v : wf v → ∀ rest, compact false false (emitCanonicalJSONValue v ++ rest) = html_text v ++ compact false false rest.
Proof.
  induction v as [|[]|s|s|l IH|m IH] using json_ind; intros Hv rest.
  1-3: cbn [emitCanonicalJSONValue html_text]; apply compact_outside; repeat constructor; done.
  - apply compact_outside. by apply number_outside.
  - apply compact_string. apply Hv.
  - apply wf_arr in Hv. cbn [emitCanonicalJSONValue html_text app]. rewrite compact_ordinary by done. cbn [is_space Z.eqb Pos.eqb orb]. f_equal.
    rewrite <- !app_assoc, (compact_join _ (map html_text l)).
    + f_equal. cbn [app]. by rewrite compact_ordinary.
    + clear rest. induction l as [|v l IHl]; constructor; apply Forall_cons in IH as [? ?], Hv as [? ?]; auto.
  - apply wf_obj in Hv as [_ Hm]. rewrite emit_obj, html_obj. rewrite <- (sort_keys_perm m) in Hm, IH. generalize dependent (sort_keys m). clear m. intros m IH Hm.
    cbn [app]. rewrite compact_ordinary by done. cbn [is_space Z.eqb Pos.eqb orb]. f_equal. rewrite <- !app_assoc.
    rewrite (compact_join _ (map (λ kv, html_field (kv.1, html_text kv.2)) m)); [f_equal; cbn [app]; by rewrite compact_ordinary|].
    clear rest. induction m as [|kv m IHm]; [constructor|]. apply Forall_cons in IH as [? ?], Hm as [[? ?] ?]. cbn [map]. constructor; [|auto].
    intros rest. unfold html_field. cbn [fst snd]. rewrite <- !app_assoc, compact_string by done. f_equal. cbn [app]. rewrite compact_ordinary by done. cbn [is_space Z.eqb Pos.eqb orb].
    f_equal. auto.
Qed.

(** ** Objects taken apart and marshalled again *)

Lemma members_of_emit m : wf (JObj m) → members_of (emitCanonicalJSONValue (JObj m)) = Some (over_values emitCanonicalJSONValue (sort_keys m)).
Proof.
  intros [_ Hm]%wf_obj. rewrite emit_obj_text, members_of_object; [by rewrite map_map|]. apply Forall_map. rewrite sort_keys_perm.
  eapply Forall_impl; [exact Hm|]. intros kv [Hk Hv]. split; [by apply key_text_emit|]. cbn.
  split; [by apply emit_head|]. split; [by apply jsize_emit|by apply wf_parses].
Qed.

Lemma go_map_nodup {A} (l : list (bytes * A)) : NoDup l.*1 → go_map l = l.
Proof.
  induction l as [|kv l IH]; [done|]. rewrite fmap_cons. intros [Hn Hd]%NoDup_cons. cbn [go_map].
  assert (existsb (λ kv', beq kv'.1 kv.1) l = false) as ->; [|by rewrite IH].
  apply not_true_is_false. intros (kv' & Hin & Hb)%existsb_exists. b2p. apply Hn. rewrite <- Hb. by apply list_elem_of_fmap_2, list_elem_of_In.
Qed.

(** What is marshalled from canonical texts canonicalizes to the object of their values. *)
Lemma marshal_canonical m : wf (JObj m) → CanonicalizeV1 (marshal_map (over_values emitCanonicalJSONValue m)) = Ok (emitCanonicalJSONValue (JObj m)).
Proof.
  intros Hv. assert (marshal_map (over_values emitCanonicalJSONValue m) = html_text (JObj m)) as ->.
  { unfold marshal_map. rewrite html_obj, sort_keys_map, map_map. do 3 f_equal. apply map_ext_Forall. rewrite sort_keys_perm. apply wf_obj in Hv as [_ Hm].
    eapply Forall_impl; [exact Hm|]. intros kv [_ Hkv]. unfold html_field. cbn [fst snd]. do 2 f_equal. pose proof (compact_emit kv.2 Hkv []) as H. by rewrite !app_nil_r in H. }
  rewrite (canonicalize_tidy _ _ (tidy_html _ Hv)). by rewrite emit_sorted_form.
Qed.

(** A canonical text that has members is an object's, or [null]. *)
Lemma members_object v ms : wf v → members_of (emitCanonicalJSONValue v) = Some ms → v = JNull ∨ ∃ m, v = JObj m.
Proof.
  intros Hv Hm. destruct (beq (emitCanonicalJSONValue v) null_text) eqn:En.
  - left. apply beq_true in En. assert (sorted_form v = JNull) as Hs by (change JNull with (sorted_form JNull); apply emit_inj; done). by destruct v.
  - right. unfold members_of in Hm. rewrite En in Hm. destruct (Token _) as [[[] d]|] eqn:Et; try done. destruct (Z.eqb_spec c 123) as [->|]; [|done].
    apply token_opens in Et. unfold opens_object in Et. destruct (emit_head v Hv) as (c & t & E & Hc & _). rewrite E in Et. cbn in Et. rewrite Hc in Et. injection Et as ->.
    destruct v as [|[]|s|s|l|m]; try (cbn in E; discriminate E); [|by exists m]. exfalso. cbn in E, Hv. subst s.
    apply canonical_number_shape in Hv as (sign & i & f & Es & Hs & Hi & _). apply int_text_cons in Hi as (x & u & -> & Hx & _).
    destruct Hs as [->| ->]; cbn in Es; [|done]. injection Es as <- _. done.
Qed.
