(* ===== verification/ManifestHash.v ===== *)
(** * The manifest hash

    [manifestHash] of digest.go is the digest of the canonical manifest without
    its [package_hash] member, and binds everything else the manifest says. *)

From stdpp Require Import gmap.
From S2P Require Import Prelude Utf8 GoJson CanonicalJson CanonicalJsonFacts GoStruct Crypto Event Marshal Lines Chain Container Time SigEnvelope Sections Tar TarFacts TarAccept Regex Manifest ManifestFacts Trust TrustFacts Package PackageFacts.

(** The members that are hashed. *)
Definition hashed_members (m : list (bytes * json)) : list (bytes * json) := filter (λ kv, kv.1 ≠ bs "package_hash") m.

Lemma hashed_wf m : wf (JObj m) → wf (JObj (hashed_members m)).
Proof.
  intros [Hnd Hm]%wf_obj. apply wf_obj. unfold hashed_members. split.
  - clear Hm. induction m as [|kv m IH]; [constructor|]. rewrite fmap_cons in Hnd. apply NoDup_cons in Hnd as [Hn Hnd]. rewrite filter_cons. case_decide; [|auto].
    rewrite fmap_cons. constructor; [|auto]. intros (kv' & Ek & [_ Hin]%list_elem_of_filter)%list_elem_of_fmap. apply Hn. rewrite Ek. by apply list_elem_of_fmap_2.
  - apply Forall_forall. intros kv [_ Hin]%list_elem_of_filter. rewrite Forall_forall in Hm. auto.
Qed.

Lemma filter_over_values {A B} (f : A → B) (l : list (bytes * A)) :
  filter (λ kv, kv.1 ≠ bs "package_hash") (over_values f l) = over_values f (filter (λ kv, kv.1 ≠ bs "package_hash") l).
Proof. induction l as [|kv l IH]; [done|]. cbn [map]. rewrite !filter_cons. cbn [fst]. case_decide; cbn [map]; by rewrite IH. Qed.

Section Hash.
Context `{P : Primitives}.

Lemma manifestHash_object raw m : wf (JObj m) → CanonicalizeV1 raw = Ok (emitCanonicalJSONValue (JObj m)) →
  manifestHash raw = Ok (SHA256Prefixed (emitCanonicalJSONValue (JObj (hashed_members m)))).
Proof.
  intros Hv Hc. unfold manifestHash. rewrite Hc. cbn [map_err mbind result_bind].
  rewrite (one_value_text true _ (sorted_form (JObj m)) (proj1 (tidy_emit _ Hv))). cbn [mbind option_bind]. rewrite members_of_emit by done. cbn [of_option mbind result_bind].
  assert (beq (emitCanonicalJSONValue (JObj m)) null_text = false) as -> by (apply beq_false; rewrite emit_obj; done).
  assert (NoDup (sort_keys m).*1) as Hnd by (apply wf_obj in Hv as [Hnd _]; by rewrite sort_keys_perm).
  rewrite go_map_nodup by (rewrite <- list_fmap_compose; erewrite list_fmap_ext; [exact Hnd|done]). rewrite filter_over_values.
  assert (hashed_members (sort_keys m) ≡ₚ hashed_members m) as Hp by (unfold hashed_members; by rewrite sort_keys_perm).
  assert (wf (JObj (hashed_members (sort_keys m)))) as Hw.
  { apply wf_obj. rewrite Hp. apply wf_obj. by apply hashed_wf. }
  fold (hashed_members (sort_keys m)). rewrite marshal_canonical by done. cbn [map_err mbind result_bind mret result_ret]. do 2 f_equal.
  rewrite <- (emit_sorted_form (JObj (hashed_members (sort_keys m)))), <- (emit_sorted_form (JObj (hashed_members m))).
  f_equal. apply sorted_form_perm; [by apply wf_obj in Hw as [? _]|done].
Qed.

(** A manifest that is hashed is an object, unless it is [null]. *)
Lemma manifestHash_inv raw h : manifestHash raw = Ok h → CanonicalizeV1 raw = Ok null_text ∨
  ∃ m, wf (JObj m) ∧ CanonicalizeV1 raw = Ok (emitCanonicalJSONValue (JObj m)) ∧ h = SHA256Prefixed (emitCanonicalJSONValue (JObj (hashed_members m))).
Proof.
  intros H. pose proof H as H0. unfold manifestHash in H. apply bind_ok in H as (canon & Hc%map_err_ok & H).
  pose proof (canonicalize_canonical _ _ Hc) as (v & Hv & ->)%canonical_emit.
  apply bind_ok in H as (ms & Hms%of_option_ok & _).
  rewrite (one_value_text true _ (sorted_form v) (proj1 (tidy_emit _ Hv))) in Hms. cbn [mbind option_bind] in Hms.
  apply members_object in Hms as [->|(m & ->)]; [by left| |done]. right. exists m. split; [done|]. split; [done|].
  rewrite (manifestHash_object raw m Hv Hc) in H0. congruence.
Qed.
End Hash.

(** ** A parsed manifest is an object *)

Lemma parsed_not_null raw m out : parseManifest raw = Some m → CanonicalizeV1 raw = Ok out → out ≠ null_text.
Proof.
  unfold parseManifest. intros (keys & Hk & H)%bind_Some Hc ->. destruct (negb (forallb _ keys)); [done|]. destruct (existsb _ _); [done|].
  apply bind_Some in H as (m' & _ & H). destruct (has_key (bs "kind") keys) eqn:Ek; [|done]. clear H.
  assert (payloadObject raw = Some (go_map keys)) as Ho%payloadObject_opens.
  { unfold payloadObject. unfold manifest_keys in Hk. apply bind_Some in Hk as (v & -> & Hv). cbn [mbind option_bind].
    destruct (beq v null_text) eqn:En; [|by rewrite Hv]. b2p. subst v. cbn in Hv. injection Hv as <-. done. }
  by apply (canonicalize_opens _ _ Ho) in Hc.
Qed.

Section Binding.
Context `{P : Primitives} `{L : !PrimitiveLaws P} `{I : Inflate}.

(** The manifest hash binds the whole manifest but its package hash: when two
    verified packages have the same manifest hash, their manifests, as JSON
    values without the member [package_hash], are the same, unless two byte
    strings with one digest are at hand. *)
Theorem manifest_hash_binds src src' roots roots' clock clock' r r' :
  VerifyPackage src roots clock = Ok r → VerifyPackage src' roots' clock' = Ok r' → res_ManifestHash r = res_ManifestHash r' →
  collision ∨ ∃ es es' raw raw' m m', holds src es ∧ holds src' es' ∧ last (manifest_files es) = Some raw ∧ last (manifest_files es') = Some raw'
    ∧ parseManifest raw = Some (res_Manifest r) ∧ parseManifest raw' = Some (res_Manifest r')
    ∧ CanonicalizeV1 raw = Ok (emitCanonicalJSONValue (JObj m)) ∧ CanonicalizeV1 raw' = Ok (emitCanonicalJSONValue (JObj m'))
    ∧ sorted_form (JObj (hashed_members m)) = sorted_form (JObj (hashed_members m')).
Proof.
  intros (es & c & Hh & Hc & [(raw & Hr & Hp & Hm) _ _ _ _ _ _])%VerifyPackage_checked (es' & c' & Hh' & Hc' & [(raw' & Hr' & Hp' & Hm') _ _ _ _ _ _])%VerifyPackage_checked E.
  apply manifestHash_inv in Hm as [Hn|(m & Hw & Hcan & Hhash)]; [by destruct (parsed_not_null _ _ _ Hp Hn)|].
  apply manifestHash_inv in Hm' as [Hn|(m' & Hw' & Hcan' & Hhash')]; [by destruct (parsed_not_null _ _ _ Hp' Hn)|].
  rewrite Hhash, Hhash' in E. apply sha_prefixed_determines in E as [E|]; [|by left]. right. exists es, es', raw, raw', m, m'.
  rewrite <- (co_manifest _ _ Hc), <- (co_manifest _ _ Hc'). do 8 (split; [done|]). apply emit_inj; [by apply hashed_wf..|done].
Qed.
End Binding.
