(* ===== verification/PackageSamples.v ===== *)
(** * A package that verifies

    A small plugin, signed at T3 under the checksums that stand for the
    primitives and packed into a stored deflate block: the theorems on verified
    packages applied to it. *)

From stdpp Require Import gmap.
From S2P Require Import Prelude Utf8 GoJson CanonicalJson CanonicalJsonFacts GoStruct Crypto Event Lines Chain Container Time SigEnvelope Sections Tar TarFacts TarAccept Regex Manifest ManifestFacts Trust TrustFacts Package PackageFacts PackageRead Marshal ManifestHash.

#[local] Existing Instance stored_blocks.

Definition demo_wasm : bytes := [0; 97; 115; 109].
Definition demo_package_hash : bytes := SHA256Prefixed (digest_line (bs "variants/a/m.wasm", demo_wasm)).
Definition demo_manifest : bytes :=
  js "{'kind':'plugin','id':'demo','version':'1.0','package_hash':'" ++ demo_package_hash ++ js "','plugin_family':'tool_bridge','bbb_protocol_version':2,"
  ++ js "'interfaces':{'core':[{'id':'demo.tool','version':1,'schema_hash':'" ++ demo_package_hash ++ js "','methods':['run']}]},'capability_envelope':[],"
  ++ js "'variants':[{'variant_id':'a','platform':'linux','arch':'arm64','topology':'full_identity_host','execution_runtime':'wasm_component',"
  ++ js "'admission_profile':'wasm_sandbox','entrypoint':'variants/a/m.wasm','artifact_hash':'" ++ SHA256Prefixed demo_wasm
  ++ js "','implements':{'core':['demo.tool@1']},'variant_capabilities':[]}]}".
Definition demo_manifest_hash : bytes := match manifestHash demo_manifest with Ok h => h | Err _ => [] end.
Definition demo_platform_sig : bytes :=
  toy_object artifactKindPlatformSig (js "{'manifest_hash':'" ++ demo_manifest_hash ++ js "','package_hash':'" ++ demo_package_hash ++ js "'}").

Definition demo_tree : list entry :=
  [sample_dir (bs "demo-1.0"); sample_dir (bs "demo-1.0/install-root"); sample_dir (bs "demo-1.0/install-root/interfaces");
   sample_dir (bs "demo-1.0/install-root/variants"); sample_dir (bs "demo-1.0/install-root/variants/a");
   sample_file (bs "demo-1.0/install-root/variants/a/m.wasm") demo_wasm; sample_file (bs "demo-1.0/manifest.json") demo_manifest;
   sample_dir (bs "demo-1.0/signatures"); sample_file (bs "demo-1.0/signatures/platform.sig") demo_platform_sig].
Definition demo_archive : bytes := default [] (archive_text demo_tree).
Definition demo_package : bytes := gzip_file (stored_block demo_archive) demo_archive.
Definition demo_status : bytes := toy_status 1 [].
Definition demo_roots : TrustRoots :=
  mkRoots None None (Some (toy_root keyTypePlatformRelease))
    (Some {[keyTypePlatformRelease := parseRootSnapshot demo_status (mkDomain keyTypePlatformRelease [] [artifactKindPlatformSig]) (toy_root keyTypePlatformRelease) 0]}).

Lemma demo_verifies : ∃ r, VerifyPackage demo_package demo_roots (λ _, 0) = Ok r ∧ res_Tier r = TierT3 ∧ res_PackageHash r = demo_package_hash.
Proof.
  assert (match VerifyPackage demo_package demo_roots (λ _, 0) with Ok r => res_Tier r = TierT3 ∧ res_PackageHash r = demo_package_hash | Err _ => False end) as H
    by (vm_compute; split; reflexivity).
  destruct (VerifyPackage demo_package demo_roots (λ _, 0)) as [r|]; [|destruct H]. by exists r.
Qed.




Lemma read_back_verified_witness : ∃ r, VerifyPackage demo_package demo_roots (λ _, 0) = Ok r ∧ FileDigests r !! bs "variants/a/m.wasm" = Some (SHA256Prefixed demo_wasm).
Proof.
  destruct demo_verifies as (r & E & H). exists r. split; [exact E|].
  pose proof (read_back_verified demo_package demo_roots (λ _, 0) r (bs "variants/a/m.wasm") E) as Hr.
  assert (ReadMember (Some demo_package) (bs "variants/a/m.wasm") = Ok demo_wasm) as Em by (vm_compute; reflexivity).
  rewrite Em in Hr. exact (proj1 Hr).
Defined.

Lemma stream_passes_enough_witness :
  stream_members 2000 (newTarWalker (sample_stream demo_archive)) new_contents = stream_members stream_fuel (newTarWalker (sample_stream demo_archive)) new_contents.
Proof. apply (stream_passes_enough (sample_stream demo_archive) 2000 new_contents). apply Nat.leb_le. vm_compute. reflexivity. Defined.

Lemma manifest_hash_binds_witness : collision ∨ ∃ es raw m, holds demo_package es ∧ last (manifest_files es) = Some raw
  ∧ CanonicalizeV1 raw = Ok (emitCanonicalJSONValue (JObj m)).
Proof.
  destruct demo_verifies as (r & E & H).
  destruct (manifest_hash_binds demo_package demo_package demo_roots demo_roots (λ _, 0) (λ _, 0) r r E E eq_refl)
    as [Hc|(es & es' & raw & raw' & m & m' & H1 & _ & H2 & _ & _ & _ & H3 & _)]; [left; exact Hc|].
  right. exists es, raw, m. split; [exact H1|]. split; [exact H2|exact H3].
Defined.
