(* ===== verification/GoStrings.v ===== *)
(** * Go's package strings

    [Index], [Split], [Join] and the trimming functions of the standard library
    that the text-making components use, and that joining undoes splitting. *)

From S2P Require Import Prelude Utf8 Lines Container.

(** [strings.Index], [None] for -1. *)
Fixpoint Index (s sub : bytes) : option nat :=
  if HasPrefix s sub then Some 0%nat
  else match s with [] => None | _ :: t => S <$> Index t sub end.

Definition Contains (s sub : bytes) : bool := bool_decide (is_Some (Index s sub)).

(** [strings.Split] for a separator that is not empty: cut at every [Index]. *)
Fixpoint split_loop (fuel : nat) (s sep : bytes) : list bytes :=
  match fuel with
  | O => [s]
  | S f =>
    match Index s sep with
    | None => [s]
    | Some i => take i s :: split_loop f (drop (i + length sep) s) sep
    end
  end.
Definition Split (s sep : bytes) : list bytes := split_loop (length s) s sep.

(** [strings.Join]. *)
Fixpoint Join (l : list bytes) (sep : bytes) : bytes :=
  match l with
  | [] => []
  | x :: t => match t with [] => x | _ => x ++ sep ++ Join t sep end
  end.

(** [strings.TrimRight(s, "\n")] and [strings.TrimLeft(s, "\n")]. *)
Fixpoint TrimLeftNL (s : bytes) : bytes :=
  match s with c :: t => if c =? 10 then TrimLeftNL t else s | [] => [] end.
Definition TrimRightNL (s : bytes) : bytes := reverse (TrimLeftNL (reverse s)).

(** [content] occurs in [text]. *)
Definition shows (text content : bytes) : Prop := ∃ l r, text = l ++ content ++ r.

(** ** Facts *)

Lemma HasPrefix_inv s p : HasPrefix s p = true → s = p ++ drop (length p) s.
Proof. unfold HasPrefix. intros H%beq_true. rewrite <- (take_drop (length p) s) at 1. by rewrite H. Qed.

Lemma Index_Some s sub i : Index s sub = Some i → s = take i s ++ sub ++ drop (i + length sub) s.
Proof.
  revert i. induction s as [|c s IH]; intros i; cbn [Index]; destruct (HasPrefix _ sub) eqn:E.
  1, 3: intros [= <-]; cbn [take app Nat.add]; by apply HasPrefix_inv.
  - done.
  - destruct (Index s sub) as [j|]; [|done]. intros [= <-]. cbn. f_equal. by apply IH.
Qed.

Lemma Join_cons x l sep : l ≠ [] → Join (x :: l) sep = x ++ sep ++ Join l sep.
Proof. by destruct l. Qed.

Lemma Join_app l1 l2 sep : l1 ≠ [] → l2 ≠ [] → Join (l1 ++ l2) sep = Join l1 sep ++ sep ++ Join l2 sep.
Proof.
  intros H1 H2. induction l1 as [|x [|y l] IH]; [done|by apply Join_cons|].
  change ((x :: y :: l) ++ l2) with (x :: (y :: l) ++ l2).
  rewrite Join_cons, IH, (Join_cons x (y :: l)) by done. by rewrite <- !app_assoc.
Qed.

Lemma split_loop_cons fuel s sep : split_loop fuel s sep ≠ [].
Proof. destruct fuel; cbn; [done|]. by destruct (Index s sep). Qed.

Lemma split_loop_join fuel s sep : Join (split_loop fuel s sep) sep = s.
Proof.
  revert s. induction fuel as [|f IH]; intros s; cbn; [done|].
  destruct (Index s sep) as [i|] eqn:E; [|done]. change (Join (take i s :: split_loop f (drop (i + length sep) s) sep) sep = s).
  rewrite Join_cons, IH by apply split_loop_cons. symmetry. by apply Index_Some.
Qed.

Lemma Split_Join s sep : Join (Split s sep) sep = s.
Proof. apply split_loop_join. Qed.

(** Splitting what was joined, when no piece holds the one-byte separator. *)
Lemma HasPrefix_one c s : HasPrefix s [c] = match s with d :: _ => c =? d | [] => false end.
Proof.
  unfold HasPrefix. destruct s as [|d s]; cbn; [done|].
  destruct (Z.eqb_spec c d) as [->|Hn]; [by apply beq_true|]. apply beq_false. congruence.
Qed.

Lemma Index_one_app c p s : c ∉ p → Index (p ++ c :: s) [c] = Some (length p).
Proof.
  induction p as [|d p IH]; intros Hp; cbn [app Index]; rewrite HasPrefix_one.
  - by rewrite Z.eqb_refl.
  - apply not_elem_of_cons in Hp as [Hd Hp]. rewrite (proj2 (Z.eqb_neq c d) Hd), IH by done. done.
Qed.

Lemma Index_one_none c s : c ∉ s → Index s [c] = None.
Proof.
  induction s as [|d s IH]; intros Hs; [done|]. cbn [Index]. rewrite HasPrefix_one.
  apply not_elem_of_cons in Hs as [Hd Hs]. by rewrite (proj2 (Z.eqb_neq c d) Hd), IH.
Qed.

Lemma split_loop_pieces c l : l ≠ [] → Forall (λ p, c ∉ p) l → ∀ fuel, (length (Join l [c]) ≤ fuel)%nat →
  split_loop fuel (Join l [c]) [c] = l.
Proof.
  intros Hne Hl. induction Hl as [|p l Hp Hl IH]; [done|]. intros fuel Hf. destruct l as [|q l].
  - cbn [Join]. destruct fuel; cbn [split_loop]; [done|]. by rewrite Index_one_none.
  - rewrite Join_cons in * by done. rewrite length_app in Hf. cbn [app length] in Hf.
    destruct fuel as [|f]; [lia|]. cbn [split_loop app]. rewrite Index_one_app by done.
    rewrite take_app_length. f_equal. rewrite drop_app_ge by lia.
    replace (length p + length [c] - length p)%nat with 1%nat by (cbn; lia). cbn [drop skipn]. apply IH; [done|lia].
Qed.

Lemma Join_Split c l : l ≠ [] → Forall (λ p, c ∉ p) l → Split (Join l [c]) [c] = l.
Proof. intros. by apply split_loop_pieces. Qed.

Lemma shows_refl s : shows s s.
Proof. exists [], []. by rewrite app_nil_r. Qed.

Lemma shows_app_l a b s : shows a s → shows (a ++ b) s.
Proof. intros (l & r & ->). exists l, (r ++ b). by rewrite <- !app_assoc. Qed.

Lemma shows_app_r a b s : shows b s → shows (a ++ b) s.
Proof. intros (l & r & ->). exists (a ++ l), r. by rewrite <- !app_assoc. Qed.

Lemma shows_trans a b c : shows a b → shows b c → shows a c.
Proof. intros (l & r & ->) (l' & r' & ->). exists (l ++ l'), (r' ++ r). by rewrite <- !app_assoc. Qed.

#[export] Hint Resolve shows_refl shows_app_l shows_app_r : go.

Lemma Join_shows x l sep : x ∈ l → shows (Join l sep) x.
Proof.
  induction l as [|y l IH]; intros Hx; [by apply elem_of_nil in Hx|]. destruct l as [|z l].
  - apply list_elem_of_singleton in Hx as ->. apply shows_refl.
  - rewrite Join_cons by done. apply elem_of_cons in Hx as [->|Hx]; auto with go.
Qed.

(** The pieces between one-byte separators do not hold it. *)
Lemma Index_one_Some c s i : Index s [c] = Some i → c ∉ take i s.
Proof.
  revert i. induction s as [|d s IH]; intros i; cbn [Index]; rewrite HasPrefix_one; [done|].
  destruct (Z.eqb_spec c d) as [->|Hn]; [intros [= <-]; apply not_elem_of_nil|].
  destruct (Index s [c]) as [j|]; [|done]. intros [= <-]. cbn [take]. apply not_elem_of_cons. auto.
Qed.

Lemma Index_one_None c s : Index s [c] = None → c ∉ s.
Proof.
  induction s as [|d s IH]; cbn [Index]; rewrite HasPrefix_one; [intros _; apply not_elem_of_nil|].
  destruct (Z.eqb_spec c d) as [->|Hn]; [done|]. destruct (Index s [c]); [done|]. intros _. apply not_elem_of_cons. auto.
Qed.

Lemma split_loop_clean c fuel : ∀ s, (length s ≤ fuel)%nat → Forall (λ p, c ∉ p) (split_loop fuel s [c]).
Proof.
  induction fuel as [|f IH]; intros s Hs; cbn [split_loop].
  - destruct s; [|cbn in Hs; lia]. constructor; [apply not_elem_of_nil|constructor].
  - destruct (Index s [c]) as [i|] eqn:E; [|constructor; [by apply Index_one_None|constructor]].
    constructor; [by apply Index_one_Some|]. apply IH. apply Index_Some in E. apply (f_equal length) in E. rewrite !length_app in E. rewrite length_drop in *. cbn [length] in *. lia.
Qed.

Lemma Split_one_app c a b : Split (a ++ c :: b) [c] = Split a [c] ++ Split b [c].
Proof.
  rewrite <- (Split_Join a [c]) at 1. rewrite <- (Split_Join b [c]) at 1.
  change (c :: Join (Split b [c]) [c]) with ([c] ++ Join (Split b [c]) [c]). rewrite <- Join_app by apply split_loop_cons.
  apply Join_Split; [intros [H _]%app_eq_nil; by apply split_loop_cons in H|]. apply Forall_app. split; by apply split_loop_clean.
Qed.

Lemma Split_clean c s : c ∉ s → Split s [c] = [s].
Proof. intros Hs. unfold Split. destruct s as [|d s]; [done|]. cbn [length split_loop]. by rewrite Index_one_none. Qed.

(** Trimming the end keeps what does not end in a newline. *)
Lemma TrimLeftNL_app r c x : c ≠ 10 → ∃ r', TrimLeftNL (r ++ c :: x) = r' ++ c :: x.
Proof.
  intros Hc. induction r as [|d r [r' IH]]; cbn [app TrimLeftNL].
  - rewrite (proj2 (Z.eqb_neq c 10) Hc). by exists [].
  - destruct (d =? 10); [by exists r'|]. by exists (d :: r).
Qed.

Lemma TrimRightNL_shows s x c : c ≠ 10 → shows s (x ++ [c]) → shows (TrimRightNL s) (x ++ [c]).
Proof.
  intros Hc (l & r & ->). unfold TrimRightNL. rewrite !reverse_app, reverse_singleton. rewrite <- !app_assoc. cbn [app].
  destruct (TrimLeftNL_app (reverse r) c (reverse x ++ reverse l) Hc) as [r' ->]. exists l, (reverse r').
  rewrite reverse_app, reverse_cons, reverse_app, !reverse_involutive. by rewrite <- !app_assoc.
Qed.
