(* ===== verification/Prompt.v ===== *)
(** * internal/prompt/budget.go and gate.go: fitting a prompt into its budget

    A prompt is a list of sections.  When its estimated size is over the budget,
    elastic sections yield in a fixed order of their sources: first they are
    folded into a summary, then left out with a note that says so.  The line
    logged about it ([observeFold]) is not modelled. *)

From S2P Require Import Prelude Utf8 GoJson Lines Container GoStrings.

(** ** internal/tokenestimate *)

Definition Estimate (text : bytes) : Z := (Z.of_nat (length text) + 2) / 3.
(** [json.Marshal] of a string does not fail. *)
Definition EstimateWire (text : bytes) : Z := Estimate (json_string true text).
Definition estimateTokens (text : bytes) : Z := EstimateWire text.

(** ** Sections *)

Record Section_ := mkSec {
  Name : bytes; RingOf : Z; Content : bytes; Source : bytes;
  Elastic : bool; Volatile : bool; Folded : bool; Turn : bool; Whole : bool; Route : bytes
}.

Definition set_content (s : Section_) (c : bytes) (folded : bool) : Section_ :=
  mkSec (Name s) (RingOf s) c (Source s) (Elastic s) (Volatile s) folded (Turn s) (Whole s) (Route s).

Record Omission := mkOmission { o_Name : bytes; o_Source : bytes; o_Route : bytes }.

Definition foldOrder : list bytes := [bs "brief"; bs "turn"; bs "ring4"; bs "ring3"; bs "ring2"].
Definition omitOrder : list bytes := [bs "brief"; bs "turn"; bs "ring4"; bs "ring3"].

(** ** Where what is left out can be found *)

Definition budgetRoute : bytes := bs "ask your operator to raise the prompt budget".
Definition subagentRoom : bytes := bs "folded for a sub-agent; spawn with context=full to carry it whole".
Definition windowRoute : bytes := bs "ask your operator for a model with a wider window".
Definition ceilingRoute : bytes := bs "ask your operator to declare this model's context length, or to raise the prompt budget".

Definition sectionRoute (source : bytes) : bytes :=
  if beq source (bs "ring2") then bs "recall (source=ledger) reaches the derivation"
  else if beq source (bs "ring3") then bs "recall (source=experiences) reaches what was surfaced and recorded, recall (source=ledger) reaches your beliefs"
  else if beq source (bs "ring4") then bs "work status lists your live sessions"
  else if beq source (bs "turn") then bs "work status lists your running and delivered sub-agents, recall (source=alarms) the alarms that fired"
  else if beq source (bs "brief") then bs "recall (source=experiences) reaches the day"
  else [].

Definition routeFor (source room : bytes) : bytes :=
  let room := if beq room [] then budgetRoute else room in
  let r := sectionRoute source in
  if beq r [] then room else r ++ bs "; " ++ room.

(** ** Summaries *)

Definition SummaryMarker : bytes := bs "[summary —".
Definition nl2 : bytes := [10; 10].

Fixpoint units_loop (seps : list bytes) (content body route : bytes) : bytes :=
  match seps with
  | [] => content
  | sep :: rest =>
    let units := Split body sep in
    if (length units <? 2)%nat then units_loop rest content body route
    else
      let keep := ((length units + 1) / 2)%nat in
      let head := Join (take keep units) sep ++ (if beq sep (bs ". ") then bs "." else []) in
      head ++ nl2 ++ SummaryMarker ++ bs " " ++ FormatInt (Z.of_nat keep) ++ bs " of " ++ FormatInt (Z.of_nat (length units))
        ++ bs " kept; the rest is not in view; " ++ route ++ bs "]"
  end.

Definition SummarizeUnits (content route : bytes) : bytes :=
  units_loop [nl2; [10]; bs ". "] content (TrimSpace content) route.

(** [headerAt]: the first place where the header begins a line, and whether
    there is a second one. *)
Fixpoint header_loop (fuel : nat) (content header : bytes) (from : nat) (first : option nat) : option nat * bool :=
  match fuel with
  | O => (first, false)
  | S f =>
    if (length content <? from)%nat then (first, false)
    else match Index (drop from content) header with
    | None => (first, false)
    | Some i =>
      let at_ := (from + i)%nat in
      if (at_ =? 0)%nat || bool_decide (content !! (at_ - 1)%nat = Some 10) then
        match first with
        | Some p => (Some p, true)
        | None => header_loop f content header (at_ + length header) (Some at_)
        end
      else header_loop f content header (at_ + length header) first
    end
  end.
Definition headerAt (content header : bytes) : option nat * bool :=
  header_loop (S (length content)) content header 0 None.

Definition ring3Parts : list (bytes * bytes) :=
  [(bs "surfacing", bs "## What You're Noticing"); (bs "operator", bs "## Who You Work With"); (bs "working_truth", bs "## What You're Working With")].
Definition ring3YieldOrder : list bytes := [bs "surfacing"; bs "operator"; bs "working_truth"].

Record span := mkSpan { sp_name : bytes; sp_header : bytes; sp_start : nat; sp_end : nat }.

(** The parts found, [None] when a header is there twice. *)
Fixpoint find_spans (content : bytes) (parts : list (bytes * bytes)) : option (list span) :=
  match parts with
  | [] => Some []
  | (name, header) :: rest =>
    match headerAt content header with
    | (_, true) => None
    | (at_, false) =>
      spans ← find_spans content rest;
      Some (match at_ with Some i => mkSpan name header i (length content) :: spans | None => spans end)
    end
  end.

Fixpoint insert_span (s : span) (l : list span) : list span :=
  match l with
  | [] => [s]
  | t :: l' => if (sp_start s <? sp_start t)%nat then s :: l else t :: insert_span s l'
  end.
Definition sort_spans (l : list span) : list span := foldr insert_span [] l.

(** Each part ends where the next begins. *)
Fixpoint close_spans (l : list span) : list span :=
  match l with
  | [] => []
  | s :: rest => match rest with [] => [s] | t :: _ => mkSpan (sp_name s) (sp_header s) (sp_start s) (sp_start t) :: close_spans rest end
  end.

Fixpoint drop_parts (order : list bytes) (spans : list span) (keep : nat) (dropped : list bytes) : list bytes :=
  match order with
  | [] => dropped
  | name :: rest =>
    if (length spans - length dropped <=? keep)%nat then dropped
    else if existsb (λ s, beq (sp_name s) name) spans then drop_parts rest spans keep (dropped ++ [name])
    else drop_parts rest spans keep dropped
  end.

Definition is_dropped (dropped : list bytes) (s : span) : bool := existsb (beq (sp_name s)) dropped.

Definition summarizeRing3 (content room : bytes) : bytes :=
  let units := SummarizeUnits content (routeFor (bs "ring3") room) in
  match find_spans content ring3Parts with
  | None => units
  | Some found =>
    if (length found <? 2)%nat then units
    else
      let spans := close_spans (sort_spans found) in
      let keep := ((length spans + 1) / 2)%nat in
      let drops := drop_parts ring3YieldOrder spans keep [] in
      if (length drops =? 0)%nat then content
      else
        let start := match spans with s :: _ => sp_start s | [] => 0%nat end in
        let kept := filter (λ s, is_dropped drops s = false) spans in
        let dropped := (λ s, TrimSpace (TrimPrefix (sp_header s) (bs "## "))) <$> filter (λ s, is_dropped drops s = true) spans in
        let body := TrimRightNL (take start content)
          ++ concat ((λ s, nl2 ++ TrimSpace (take (sp_end s - sp_start s) (drop (sp_start s) content))) <$> kept) in
        let route := routeFor (bs "ring3") room
          ++ (if existsb (beq (bs "operator")) drops then bs "; the operator model is not searchable and returns with the next consolidation" else []) in
        body ++ nl2 ++ SummaryMarker ++ bs " " ++ FormatInt (Z.of_nat (length spans - length dropped)) ++ bs " of " ++ FormatInt (Z.of_nat (length spans))
          ++ bs " parts kept; " ++ Join dropped (bs " and ") ++ bs " not in view; " ++ route ++ bs "]"
  end.

(** The lines a folded Ring 2 leaves out: evidence, but for the note that there is none. *)
Definition elided_line (ln : bytes) : bool :=
  HasPrefix ln (bs "  - ") && negb (beq (TrimSpace ln) (bs "- (no resolved evidence)")).

Definition summarizeRing2 (content room : bytes) : bytes :=
  let lines := Split content [10] in
  let kept := filter (λ ln, elided_line ln = false) lines in
  let elided := length (filter (λ ln, elided_line ln = true) lines) in
  if (elided =? 0)%nat then content
  else TrimRightNL (Join kept [10]) ++ nl2 ++ bs "[summary — every belief shown; " ++ FormatInt (Z.of_nat elided)
    ++ bs " evidence line(s) elided under context pressure; " ++ routeFor (bs "ring2") room ++ bs "]".

Definition summarize (source content room : bytes) : bytes :=
  if beq source (bs "ring2") then summarizeRing2 content room
  else if beq source (bs "ring3") then summarizeRing3 content room
  else SummarizeUnits content (routeFor source room).

(** ** Rendering *)

Definition renderOmissions (omissions : list Omission) (room : bytes) : bytes :=
  bs "# Not Shown (context budget)" ++ [10]
  ++ concat ((λ o, bs "- " ++ o_Name o ++ bs " — " ++ (if beq (o_Route o) [] then routeFor (o_Source o) room else o_Route o) ++ [10]) <$> omissions).

(** The sections that make up the system text, those of the turn, and the
    closing: the last section whose source is the contract. *)
Definition present (s : Section_) : bool := negb (beq (Content s) []).
Definition is_contract (s : Section_) : bool := beq (Source s) (bs "contract").
Definition text_part (s : Section_) : bool := present s && negb (Turn s) && negb (is_contract s).
Definition turn_part (s : Section_) : bool := present s && Turn s.
Definition closing_part (s : Section_) : bool := present s && negb (Turn s) && is_contract s.

Definition contents_of (P : Section_ → bool) (sections : list Section_) : list bytes := Content <$> filter (λ s, P s = true) sections.

Definition in_turn (turn : list bytes) (o : Omission) : bool := existsb (beq (o_Source o)) turn.

Definition renderPrompt (sections : list Section_) (omissions : list Omission) (turn : list bytes) (room : bytes) : bytes * bytes :=
  let parts := contents_of text_part sections in
  let turnParts := contents_of turn_part sections in
  let closing := default [] (last (contents_of closing_part sections)) in
  let systemOmissions := filter (λ o, in_turn turn o = false) omissions in
  let turnOmissions := filter (λ o, in_turn turn o = true) omissions in
  let parts := parts ++ (if (length systemOmissions =? 0)%nat then [] else [renderOmissions systemOmissions room]) in
  let turnParts := turnParts ++ (if (length turnOmissions =? 0)%nat then [] else [TrimSpace (renderOmissions turnOmissions room)]) in
  (Join parts nl2 ++ closing, Join turnParts nl2).

(** [stableLen]: the length of what comes before the first section that may
    change from turn to turn. *)
Fixpoint stable_loop (sections : list Section_) (sealed : bool) (stableLen : Z) : Z :=
  match sections with
  | [] => stableLen
  | s :: rest =>
    if negb (text_part s) then stable_loop rest sealed stableLen
    else
      let sealed := sealed || Volatile s || Folded s in
      if sealed then stable_loop rest sealed stableLen
      else stable_loop rest sealed ((if 0 <? stableLen then stableLen + 2 else stableLen) + Z.of_nat (length (Content s)))
  end.

Definition assemble (sections : list Section_) (omissions : list Omission) (turn : list bytes) (room : bytes) : bytes * bytes * Z :=
  let '(text, block) := renderPrompt sections omissions turn room in (text, block, stable_loop sections false 0).

(** ** The budget *)

Record budgetEnforcer := mkBudget { maxTokens : Z; turn : list bytes; room : bytes }.

Definition newBudgetEnforcer (maxTokens : Z) (turn : list bytes) : budgetEnforcer := mkBudget maxTokens turn [].

Definition budgetTokens (b : budgetEnforcer) (sections : list Section_) (omissions : list Omission) : Z :=
  let '(text, block) := renderPrompt sections omissions (turn b) (room b) in estimateTokens text + estimateTokens block.

Definition within_budget (b : budgetEnforcer) (sections : list Section_) (omissions : list Omission) : bool :=
  budgetTokens b sections omissions <=? maxTokens b.

Definition omission_of (s : Section_) : Omission := mkOmission (Name s) (Source s) (Route s).

(** What a section gives up when its turn comes, [None] when it is passed over. *)
Definition omit_whole (source : bytes) (s : Section_) : option (Section_ * list Omission) :=
  if beq (Source s) source && Elastic s && Whole s && present s then Some (set_content s [] (Folded s), [omission_of s]) else None.

Definition fold_with (room source : bytes) (s : Section_) : option (Section_ * list Omission) :=
  if beq (Source s) source && Elastic s && negb (Whole s) && negb (Folded s) && present s then
    let folded := summarize (Source s) (Content s) room in
    if estimateTokens (Content s) <=? estimateTokens folded then None else Some (set_content s folded true, [])
  else None.

Definition omit_any (source : bytes) (s : Section_) : option (Section_ * list Omission) :=
  if beq (Source s) source && Elastic s && present s then Some (set_content s [] (Folded s), [omission_of s]) else None.

(** One pass over the sections, which stops once the prompt fits. *)
Fixpoint pass (b : budgetEnforcer) (act : Section_ → option (Section_ * list Omission)) (before todo : list Section_) (omissions : list Omission) :
    list Section_ * list Omission :=
  match todo with
  | [] => (before, omissions)
  | s :: rest =>
    if within_budget b (before ++ todo) omissions then (before ++ todo, omissions)
    else match act s with
    | None => pass b act (before ++ [s]) rest omissions
    | Some (s', o) => pass b act (before ++ [s']) rest (omissions ++ o)
    end
  end.

Definition fold_source (b : budgetEnforcer) (source : bytes) (st : list Section_ * list Omission) : list Section_ * list Omission :=
  let st := if beq source (bs "ring2") then st else pass b (omit_whole source) [] st.1 st.2 in
  pass b (fold_with (room b) source) [] st.1 st.2.

Definition omit_source (b : budgetEnforcer) (source : bytes) (st : list Section_ * list Omission) : list Section_ * list Omission :=
  pass b (omit_any source) [] st.1 st.2.

Fixpoint over_sources (b : budgetEnforcer) (step : bytes → list Section_ * list Omission → list Section_ * list Omission) (sources : list bytes)
    (st : list Section_ * list Omission) : list Section_ * list Omission :=
  match sources with
  | [] => st
  | source :: rest => if within_budget b st.1 st.2 then st else over_sources b step rest (step source st)
  end.

Definition FoldAndTrim (b : budgetEnforcer) (sections : list Section_) : list Section_ * list Omission :=
  if within_budget b sections [] then (sections, [])
  else over_sources b (omit_source b) omitOrder (over_sources b (fold_source b) foldOrder (sections, [])).

(** A sub-agent's prompt is folded whatever the budget says. *)
Definition force_one (source : bytes) (s : Section_) : Section_ :=
  match fold_with subagentRoom source s with Some (s', _) => s' | None => s end.
Definition ForceFoldElastic (sections : list Section_) : list Section_ :=
  fold_left (λ l source, if beq source (bs "ring2") then l else force_one source <$> l) foldOrder sections.

(** ** gate.go: the system text of one call *)

Record RingSource := mkRings { src_Ring0 : bytes; src_Ring5 : bytes; src_Ring3 : bytes; src_Ring4 : bytes }.
Record PromptGate := mkPromptGate { g_rings : RingSource; g_maxTokens : Z; g_noWindow : bool }.

Definition DefaultContextBudgetTokens : Z := 32000.
Definition NewPromptGate (rings : RingSource) (maxTokens : Z) : PromptGate :=
  mkPromptGate rings (if maxTokens =? 0 then DefaultContextBudgetTokens else maxTokens) false.
Definition SetMaxTokens (g : PromptGate) (maxTokens : Z) : PromptGate :=
  mkPromptGate (g_rings g) (if maxTokens =? 0 then DefaultContextBudgetTokens else maxTokens) (g_noWindow g).
Definition SetWindowKnown (g : PromptGate) (known : bool) : PromptGate := mkPromptGate (g_rings g) (g_maxTokens g) (negb known).

Definition gate_section (source name text : bytes) (elastic : bool) : list Section_ :=
  if beq (TrimSpace text) [] then []
  else [mkSec name 0 text source elastic (beq source (bs "ring3") || beq source (bs "ring4")) false false false []].

Definition gate_sections (g : PromptGate) (callerContent ring1 ring2 : bytes) : list Section_ :=
  gate_section (bs "ring0") (bs "Ring 0") (src_Ring0 (g_rings g)) false
  ++ gate_section (bs "ring5") (bs "Ring 5") (src_Ring5 (g_rings g)) false
  ++ gate_section (bs "ring1") (bs "Ring 1") ring1 false
  ++ gate_section (bs "ring2") (bs "Ring 2") ring2 true
  ++ [mkSec [] 0 callerContent (bs "caller") false false false false false []]
  ++ gate_section (bs "ring3") (bs "Ring 3 working truth") (src_Ring3 (g_rings g)) true
  ++ gate_section (bs "ring4") (bs "Ring 4 working state") (src_Ring4 (g_rings g)) true.

Definition SystemWithin (g : PromptGate) (callerContent ring1 ring2 : bytes) (reserve : Z) : bytes * Z :=
  let budget := Z.max 1 (g_maxTokens g - Z.max reserve 0) in
  let b := mkBudget budget [] (if g_noWindow g then ceilingRoute else windowRoute) in
  let '(sections, omissions) := FoldAndTrim b (gate_sections g callerContent ring1 ring2) in
  let '(text, _, stable) := assemble sections omissions [] (room b) in (text, stable).

Definition SystemWithIdentitySeam (g : PromptGate) (callerContent ring1 ring2 : bytes) : bytes * Z := SystemWithin g callerContent ring1 ring2 0.
