(* ===== verification/PromptFacts.v ===== *)
(** * What a prompt gives up, and what it never does

    [FoldAndTrim] refines a step relation in which one section at a time yields,
    in the order of the sources, only while the prompt is over its budget; it
    stops when the prompt fits or nothing is left to yield.  What does not yield
    is in the text, whole. *)

From stdpp Require Import relations.
From S2P Require Import Prelude Utf8 GoJson Lines Container GoStrings Prompt.

(** ** The abstract order of yielding *)

(** The place of a source in the order of yielding; 5 for what never yields. *)
Definition rank (source : bytes) : nat :=
  if beq source (bs "brief") then 0 else if beq source (bs "turn") then 1 else if beq source (bs "ring4") then 2
  else if beq source (bs "ring3") then 3 else if beq source (bs "ring2") then 4 else 5.

(** Folding this section would make the prompt smaller. *)
Definition can_fold (room : bytes) (s : Section_) : Prop := (rank (Source s) < 5)%nat ∧ is_Some (fold_with room (Source s) s).
(** This section may be left out; Ring 2 may not. *)
Definition can_omit (s : Section_) : Prop := (rank (Source s) < 4)%nat ∧ Elastic s = true ∧ present s = true.

Definition omitted (s : Section_) : Section_ := set_content s [] (Folded s).
Definition folded (room : bytes) (s : Section_) : Section_ := set_content s (summarize (Source s) (Content s) room) true.

(** One section yields, and only over the budget.  A section is folded when no
    source before its own has one to fold; a whole one is left out when no source
    before its own has a whole one; any other is left out only when nothing can
    be folded any more, and no source before its own has one to leave out. *)
Inductive yields (b : budgetEnforcer) : list Section_ * list Omission → list Section_ * list Omission → Prop :=
| yield_fold l s r om : within_budget b (l ++ s :: r) om = false → can_fold (room b) s →
    (∀ t, t ∈ l ++ s :: r → can_fold (room b) t → rank (Source s) ≤ rank (Source t))%nat →
    yields b (l ++ s :: r, om) (l ++ folded (room b) s :: r, om)
| yield_whole l s r om : within_budget b (l ++ s :: r) om = false → can_omit s → Whole s = true →
    (∀ t, t ∈ l ++ s :: r → can_omit t → Whole t = true → rank (Source s) ≤ rank (Source t))%nat →
    yields b (l ++ s :: r, om) (l ++ omitted s :: r, om ++ [omission_of s])
| yield_omit l s r om : within_budget b (l ++ s :: r) om = false → can_omit s →
    (∀ t, t ∈ l ++ s :: r → ¬ can_fold (room b) t) →
    (∀ t, t ∈ l ++ s :: r → can_omit t → rank (Source s) ≤ rank (Source t))%nat →
    yields b (l ++ s :: r, om) (l ++ omitted s :: r, om ++ [omission_of s]).

Lemma rank_order i source : foldOrder !! i = Some source → rank source = i.
Proof. destruct i as [|[|[|[|[|i]]]]]; [intros [= <-]; reflexivity ..|]. done. Qed.

Lemma rank_source i s source : foldOrder !! i = Some source → rank (Source s) = i → Source s = source.
Proof.
  intros Hi Hr. assert (Hlt : (i < 5)%nat) by (apply lookup_lt_Some in Hi; exact Hi). unfold rank in Hr.
  destruct (beq (Source s) (bs "brief")) eqn:E0; [apply beq_true in E0; subst i; apply (inj Some); by rewrite <- Hi, E0|].
  destruct (beq (Source s) (bs "turn")) eqn:E1; [apply beq_true in E1; subst i; apply (inj Some); by rewrite <- Hi, E1|].
  destruct (beq (Source s) (bs "ring4")) eqn:E2; [apply beq_true in E2; subst i; apply (inj Some); by rewrite <- Hi, E2|].
  destruct (beq (Source s) (bs "ring3")) eqn:E3; [apply beq_true in E3; subst i; apply (inj Some); by rewrite <- Hi, E3|].
  destruct (beq (Source s) (bs "ring2")) eqn:E4; [apply beq_true in E4; subst i; apply (inj Some); by rewrite <- Hi, E4|].
  lia.
Qed.

(** ** What each act does *)

Lemma omit_whole_Some source s s' o : omit_whole source s = Some (s', o) →
  Source s = source ∧ Elastic s = true ∧ Whole s = true ∧ present s = true ∧ s' = omitted s ∧ o = [omission_of s].
Proof. unfold omit_whole. destruct (_ && _) eqn:E; [|done]. intros [= <- <-]. b2p. naive_solver. Qed.

Lemma omit_any_Some source s s' o : omit_any source s = Some (s', o) →
  Source s = source ∧ Elastic s = true ∧ present s = true ∧ s' = omitted s ∧ o = [omission_of s].
Proof. unfold omit_any. destruct (_ && _) eqn:E; [|done]. intros [= <- <-]. b2p. naive_solver. Qed.

Lemma fold_with_Some room source s s' o : fold_with room source s = Some (s', o) →
  Source s = source ∧ Elastic s = true ∧ Whole s = false ∧ Folded s = false ∧ present s = true ∧ s' = folded room s ∧ o = []
  ∧ estimateTokens (Content s') < estimateTokens (Content s).
Proof.
  unfold fold_with. destruct (_ && _) eqn:E; [|done]. destruct (_ <=? _) eqn:El; [done|]. intros [= <- <-]. b2p. naive_solver.
Qed.

Lemma omitted_settled room s : ¬ can_fold room (omitted s) ∧ ¬ can_omit (omitted s).
Proof.
  split; [intros (_ & [x o] & Hf)|by intros (_ & _ & Hp)].
  apply fold_with_Some in Hf as (_ & _ & _ & _ & Hp & _). done.
Qed.

Lemma folded_settled room s : ¬ can_fold room (folded room s).
Proof. intros (_ & [x o] & Hf). by apply fold_with_Some in Hf as (_ & _ & _ & ? & _). Qed.

(** ** One pass *)

Section Pass.
Context (b : budgetEnforcer) (act : Section_ → option (Section_ * list Omission)) (K Q : Section_ → Prop).
Hypothesis passed_over : ∀ s, K s → act s = None → Q s.
Hypothesis acted_on : ∀ s s' o, K s → act s = Some (s', o) → K s' ∧ Q s'.
Hypothesis steps : ∀ l s r om s' o, Forall K (l ++ s :: r) → within_budget b (l ++ s :: r) om = false → act s = Some (s', o) →
  yields b (l ++ s :: r, om) (l ++ s' :: r, om ++ o).

Lemma pass_yields todo : ∀ before om, Forall K (before ++ todo) → Forall Q before →
  let st := pass b act before todo om in
  rtc (yields b) (before ++ todo, om) st ∧ Forall K st.1 ∧ (within_budget b st.1 st.2 = true ∨ Forall Q st.1).
Proof.
  induction todo as [|s rest IH]; intros before om HK HQ; cbn [pass].
  - rewrite app_nil_r in *. split; [done|]. auto.
  - destruct (within_budget b (before ++ s :: rest) om) eqn:Ef; [split; [done|]; auto|].
    pose proof HK as HKs. apply Forall_app in HKs as [Hb [Hs Hr]%Forall_cons].
    destruct (act s) as [[s' o]|] eqn:Ea.
    + destruct (acted_on _ _ _ Hs Ea) as [HK' HQ'].
      specialize (IH (before ++ [s']) (om ++ o)). rewrite <- app_assoc in IH. cbn [app] in IH.
      destruct IH as (Hsteps & HKst & Hend); [by apply Forall_app; split; [done|constructor]|by apply Forall_app; split; [|constructor]|].
      split; [|done]. eapply rtc_l; [|exact Hsteps]. by apply steps.
    + specialize (IH (before ++ [s]) om). rewrite <- app_assoc in IH. cbn [app] in IH.
      apply IH; [done|]. apply Forall_app. split; [done|]. repeat constructor. by apply passed_over.
Qed.
End Pass.

(** ** Source after source *)

(** Nothing of a source before the [i]th is left to fold, nor a whole one to leave out. *)
Definition folded_to (room : bytes) (i : nat) (s : Section_) : Prop :=
  (rank (Source s) < i)%nat → ¬ can_fold room s ∧ ¬ (can_omit s ∧ Whole s = true).
Definition whole_to (room : bytes) (i : nat) (s : Section_) : Prop :=
  folded_to room i s ∧ (rank (Source s) = i → ¬ (can_omit s ∧ Whole s = true)).
(** Everything is folded, and nothing of a source before the [i]th is left at all. *)
Definition omitted_to (room : bytes) (i : nat) (s : Section_) : Prop :=
  ¬ can_fold room s ∧ ¬ (can_omit s ∧ Whole s = true) ∧ ((rank (Source s) < i)%nat → ¬ can_omit s).

(** The shape of the induction over the sources from the [i]th on. *)
Lemma over_sources_yields b step (P : nat → Section_ → Prop) sources :
  (∀ i source st, sources !! i = Some source → Forall (P i) st.1 →
    rtc (yields b) st (step source st) ∧ (within_budget b (step source st).1 (step source st).2 = true ∨ Forall (P (S i)) (step source st).1)) →
  ∀ st, Forall (P 0%nat) st.1 →
  let st' := over_sources b step sources st in
  rtc (yields b) st st' ∧ (within_budget b st'.1 st'.2 = true ∨ Forall (P (length sources)) st'.1).
Proof.
  intros Hstep. cut (∀ n st, (n ≤ length sources)%nat → Forall (P (length sources - n)%nat) st.1 →
    let st' := over_sources b step (drop (length sources - n) sources) st in
    rtc (yields b) st st' ∧ (within_budget b st'.1 st'.2 = true ∨ Forall (P (length sources)) st'.1)).
  { intros Hn st H0. specialize (Hn (length sources) st ltac:(lia)). rewrite Nat.sub_diag in Hn. by apply Hn. }
  induction n as [|n IH]; intros st Hn HP.
  - rewrite Nat.sub_0_r, drop_all in *. split; [done|]. by right.
  - destruct (lookup_lt_is_Some_2 sources (length sources - S n)) as [source Hs]; [lia|].
    rewrite (drop_S _ _ _ Hs). cbn [over_sources]. destruct (within_budget b st.1 st.2) eqn:Ef; [split; [done|by left]|].
    destruct (Hstep _ _ st Hs HP) as [Hr Hend].
    replace (S (length sources - S n))%nat with (length sources - n)%nat in * by lia.
    destruct Hend as [Hfit|HP'].
    + destruct (drop (length sources - n) sources) as [|x rest]; cbn [over_sources]; [split; [done|by left]|]. rewrite Hfit. split; [done|by left].
    + destruct (IH (step source st) ltac:(lia) HP') as [Hr' Hend]. split; [by transitivity (step source st)|done].
Qed.

(** ** The two phases *)

Lemma lookup_omitOrder i source : omitOrder !! i = Some source → foldOrder !! i = Some source ∧ (i < 4)%nat.
Proof. intros H. pose proof (lookup_lt_Some _ _ _ H) as Hi. split; [|exact Hi]. destruct i as [|[|[|[|i]]]]; try exact H. cbn in Hi. lia. Qed.

Lemma lookup_fold_whole i source : foldOrder !! i = Some source → beq source (bs "ring2") = false → (i < 4)%nat.
Proof.
  intros H Hs%beq_false. pose proof (lookup_lt_Some _ _ _ H) as Hi. change (length foldOrder) with 5%nat in Hi.
  destruct (decide (i = 4%nat)) as [->|]; [|lia]. destruct Hs. by apply (inj Some).
Qed.

Lemma whole_pass b i source st : foldOrder !! i = Some source → Forall (folded_to (room b) i) st.1 →
  let st' := if beq source (bs "ring2") then st else pass b (omit_whole source) [] st.1 st.2 in
  rtc (yields b) st st' ∧ (within_budget b st'.1 st'.2 = true ∨ Forall (whole_to (room b) i) st'.1).
Proof.
  intros Hi HK. destruct (beq source (bs "ring2")) eqn:E2.
  - split; [done|]. right. apply (Forall_impl _ _ _ HK). intros s Hs. split; [done|]. intros Hr [(Hlt & _) _].
    apply beq_true in E2 as ->. rewrite (rank_source _ _ _ Hi Hr) in Hlt. assert (Hrk : rank (bs "ring2") = 4%nat) by reflexivity. lia.
  - pose proof (lookup_fold_whole _ _ Hi E2) as Hlt. pose proof (rank_order _ _ Hi) as Hrk.
    destruct st as [ss om]. cbn [fst snd] in *.
    destruct (pass_yields b (omit_whole source) (folded_to (room b) i) (λ s, rank (Source s) = i → ¬ (can_omit s ∧ Whole s = true))) with (todo := ss) (before := @nil Section_) (om := om)
      as (Hr & HK' & Hend); [| | |done|constructor|].
    + intros s _ Hn Hr [(_ & He & Hp) Hw]. pose proof (rank_source _ _ _ Hi Hr) as Hs. unfold omit_whole in Hn. rewrite <- Hs, beq_refl, He, Hw, Hp in Hn. done.
    + intros s s' o _ (_ & _ & _ & _ & -> & _)%omit_whole_Some. destruct (omitted_settled (room b) s) as [H1 H2].
      split; [by split; [|intros [? _]]|intros _ [? _]; done].
    + intros l s r om' s' o HKs Hf (Hs & He & Hw & Hp & -> & ->)%omit_whole_Some. apply yield_whole; [done|split_and!; [|done..]|done|].
      * rewrite Hs, Hrk. done.
      * intros t Ht Ho Hwt. rewrite Hs, Hrk. rewrite Forall_forall in HKs. destruct (decide (i ≤ rank (Source t))%nat) as [|Hn]; [done|].
        exfalso. apply (HKs t Ht); [lia|done].
    + split; [exact Hr|]. destruct Hend as [Hfit|HQ]; [by left|right]. rewrite Forall_forall in *. split; auto.
Qed.

Lemma fold_pass b i source st : foldOrder !! i = Some source → Forall (whole_to (room b) i) st.1 →
  let st' := pass b (fold_with (room b) source) [] st.1 st.2 in
  rtc (yields b) st st' ∧ (within_budget b st'.1 st'.2 = true ∨ Forall (folded_to (room b) (S i)) st'.1).
Proof.
  intros Hi HK. pose proof (rank_order _ _ Hi) as Hrk. pose proof (lookup_lt_Some _ _ _ Hi) as Hlt. change (length foldOrder) with 5%nat in Hlt.
  destruct st as [ss om]. cbn [fst snd] in *.
  destruct (pass_yields b (fold_with (room b) source) (whole_to (room b) i) (λ s, rank (Source s) = i → ¬ can_fold (room b) s)) with (todo := ss) (before := @nil Section_) (om := om)
    as (Hr & HK' & Hend); [| | |done|constructor|].
  - intros s _ Hn Hr [_ Hf]. rewrite (rank_source _ _ _ Hi Hr), Hn in Hf. by apply is_Some_None in Hf.
  - intros s s' o [_ HKw] (Hs & He & Hw & _ & _ & -> & _)%fold_with_Some. pose proof (folded_settled (room b) s) as Hn.
    split; [|by intros _]. split; [intros Hr; split; [done|]|intros Hr]; cbn in *; intros [_ Hw']; congruence.
  - intros l s r om' s' o HKs Hf Ha. pose proof Ha as (Hs & He & Hw & Hfd & Hp & -> & -> & _)%fold_with_Some. rewrite app_nil_r. apply yield_fold; [done| |].
    + split; [rewrite Hs, Hrk; done|]. rewrite Hs, Ha. eauto.
    + intros t Ht Hc. rewrite Hs, Hrk. rewrite Forall_forall in HKs. destruct (decide (i ≤ rank (Source t))%nat) as [|Hn]; [done|].
      destruct (HKs t Ht) as [Hto _]. destruct Hto as [Hnc _]; [lia|done].
  - split; [exact Hr|]. destruct Hend as [Hfit|HQ]; [by left|right]. rewrite Forall_forall in *. intros s Hs Hrs. destruct (HK' s Hs) as [Hto Hw].
    destruct (decide (rank (Source s) = i)) as [He|]; [split; [by apply HQ|by apply Hw]|apply Hto; lia].
Qed.

Lemma fold_source_yields b i source st : foldOrder !! i = Some source → Forall (folded_to (room b) i) st.1 →
  let st' := fold_source b source st in
  rtc (yields b) st st' ∧ (within_budget b st'.1 st'.2 = true ∨ Forall (folded_to (room b) (S i)) st'.1).
Proof.
  intros Hi HK. cbv zeta. unfold fold_source. destruct (whole_pass b i source st Hi HK) as [Hr Hend].
  set (st1 := if beq source (bs "ring2") then st else pass b (omit_whole source) [] st.1 st.2) in *. destruct Hend as [Hfit|HK'].
  - assert (Hp : pass b (fold_with (room b) source) [] st1.1 st1.2 = st1).
    { destruct st1 as [[|s r] om]; [done|]. cbn [pass fst snd app] in *. by rewrite Hfit. }
    rewrite Hp. split; [done|by left].
  - destruct (fold_pass b i source st1 Hi HK') as [Hr' Hend]. split; [by transitivity st1|done].
Qed.

Lemma omit_source_yields b i source st : omitOrder !! i = Some source → Forall (omitted_to (room b) i) st.1 →
  let st' := omit_source b source st in
  rtc (yields b) st st' ∧ (within_budget b st'.1 st'.2 = true ∨ Forall (omitted_to (room b) (S i)) st'.1).
Proof.
  intros [Hi Hlt]%lookup_omitOrder HK. pose proof (rank_order _ _ Hi) as Hrk. destruct st as [ss om]. cbn [fst snd] in *.
  destruct (pass_yields b (omit_any source) (omitted_to (room b) i) (λ s, rank (Source s) = i → ¬ can_omit s)) with (todo := ss) (before := @nil Section_) (om := om)
    as (Hr & HK' & Hend); [| | |done|constructor|].
  - intros s _ Hn Hr (_ & He & Hp). pose proof (rank_source _ _ _ Hi Hr) as Hs. unfold omit_any in Hn. rewrite <- Hs, beq_refl, He, Hp in Hn. done.
  - intros s s' o _ (_ & _ & _ & -> & _)%omit_any_Some. destruct (omitted_settled (room b) s) as [H1 H2]. split; [|by intros _]. split_and!; [done|by intros [? _]|by intros _].
  - intros l s r om' s' o HKs Hf (Hs & He & Hp & -> & ->)%omit_any_Some. rewrite Forall_forall in HKs. apply yield_omit; [done|split_and!; [|done..]| |].
    + rewrite Hs, Hrk. done.
    + intros t Ht. by apply HKs.
    + intros t Ht Ho. rewrite Hs, Hrk. destruct (decide (i ≤ rank (Source t))%nat) as [|Hn]; [done|]. exfalso. apply (HKs t Ht); [lia|done].
  - split; [exact Hr|]. destruct Hend as [Hfit|HQ]; [by left|right]. rewrite Forall_forall in *. intros s Hs. destruct (HK' s Hs) as (H1 & H2 & H3).
    split_and!; [done..|]. intros Hrs. destruct (decide (rank (Source s) = i)) as [He|]; [by apply HQ|apply H3; lia].
Qed.

Lemma FoldAndTrim_yields b sections : let st := FoldAndTrim b sections in
  rtc (yields b) (sections, []) st ∧ (within_budget b st.1 st.2 = true ∨ ∀ s, s ∈ st.1 → ¬ can_fold (room b) s ∧ ¬ can_omit s).
Proof.
  cbv zeta. unfold FoldAndTrim. destruct (within_budget b sections []) eqn:Ef; [split; [done|by left]|].
  destruct (over_sources_yields b (fold_source b) (folded_to (room b)) foldOrder (λ i source st, fold_source_yields b i source st) (sections, [])) as [Hr Hend].
  { apply Forall_forall. intros s _ Hlt. lia. }
  set (st1 := over_sources b (fold_source b) foldOrder (sections, [])) in *. destruct Hend as [Hfit|HK].
  - assert (Ho : over_sources b (omit_source b) omitOrder st1 = st1) by (unfold omitOrder; cbn [over_sources]; by rewrite Hfit).
    rewrite Ho. split; [done|by left].
  - destruct (over_sources_yields b (omit_source b) (omitted_to (room b)) omitOrder (λ i source st, omit_source_yields b i source st) st1) as [Hr' Hend].
    { rewrite Forall_forall in *. intros s Hs. specialize (HK s Hs). unfold folded_to in HK. change (length foldOrder) with 5%nat in HK.
      split_and!; [intros Hc|intros [Hc Hw]|lia]; pose proof Hc as [Hlt _]; destruct HK; [lia|tauto|lia|tauto]. }
    split; [by transitivity st1|]. destruct Hend as [Hfit|HK2]; [by left|right]. rewrite Forall_forall in HK2. intros s Hs.
    destruct (HK2 s Hs) as (H1 & _ & H3). split; [done|]. intros Hc. pose proof Hc as [Hlt _]. by apply H3.
Qed.

(** ** What becomes of each section *)

Inductive kept (room : bytes) : Section_ → Section_ → Prop :=
| kept_same s : kept room s s
| kept_folded s : Elastic s = true → present s = true → kept room s (folded room s)
| kept_omitted s f : Elastic s = true → present s = true → (rank (Source s) < 4)%nat → kept room s (set_content s [] f).

(** What was there and is there no more, section by section. *)
Definition lost (before after : list Section_) : list Omission :=
  omap (λ p, if present p.1 && negb (present p.2) then Some (omission_of p.1) else None) (zip before after).

Lemma present_true s : present s = true ↔ Content s ≠ [].
Proof. unfold present. by rewrite negb_true_iff, beq_false. Qed.

Lemma nonempty_app_r {A} (a b : list A) : b ≠ [] → a ++ b ≠ [].
Proof. intros Hb [_ ?]%app_eq_nil. done. Qed.

Lemma SummarizeUnits_nonempty content route : content ≠ [] → SummarizeUnits content route ≠ [].
Proof.
  intros Hc. unfold SummarizeUnits. generalize [nl2; [10]; bs ". "] as seps. intros seps. induction seps as [|sep seps IH]; cbn [units_loop]; [done|].
  destruct (_ <? 2)%nat; [done|]. apply nonempty_app_r. discriminate.
Qed.

Lemma summarize_nonempty source content room : content ≠ [] → summarize source content room ≠ [].
Proof.
  intros Hc. unfold summarize. repeat case_match; [| |by apply SummarizeUnits_nonempty].
  - unfold summarizeRing2. case_match; [done|]. apply nonempty_app_r. discriminate.
  - unfold summarizeRing3. repeat case_match; try (by apply SummarizeUnits_nonempty); try done; apply nonempty_app_r; discriminate.
Qed.

Lemma folded_present room s : present s = true → present (folded room s) = true.
Proof. rewrite !present_true. apply summarize_nonempty. Qed.

Lemma kept_fold room s0 s : kept room s0 s → can_fold room s → kept room s0 (folded room s).
Proof.
  intros [s1|s1 He Hp|s1 f He Hp Hr] (_ & [x o] & Hf); apply fold_with_Some in Hf as (_ & He' & _ & Hfd & Hp' & _); [by constructor|done|done].
Qed.

Lemma kept_omit room s0 s : kept room s0 s → can_omit s → kept room s0 (omitted s) ∧ present s0 = true ∧ omission_of s = omission_of s0.
Proof. intros [s1|s1 He Hp|s1 f He Hp Hr] (Hlt & He' & Hp'); (split; [by apply (kept_omitted room s1)|done]). Qed.

Lemma lost_cons s s' l l' : lost (s :: l) (s' :: l') = (if present s && negb (present s') then [omission_of s] else []) ++ lost l l'.
Proof. unfold lost. cbn. by destruct (present s && negb (present s')). Qed.

Lemma lost_same l : lost l l = [].
Proof. induction l as [|s l IH]; [done|]. by rewrite lost_cons, andb_negb_r, IH. Qed.

Lemma lost_app a b a' b' : length a = length a' → lost (a ++ b) (a' ++ b') = lost a a' ++ lost b b'.
Proof. intros Hl. unfold lost. rewrite zip_with_app by done. apply omap_app. Qed.

(** A step in the middle of the sections. *)
Lemma yields_kept b sections st st' : yields b st st' →
  Forall2 (kept (room b)) sections st.1 ∧ st.2 ≡ₚ lost sections st.1 → Forall2 (kept (room b)) sections st'.1 ∧ st'.2 ≡ₚ lost sections st'.1.
Proof.
  intros Hy [Hk Hp].
  assert (Hcase : ∃ l s r s' o, st.1 = l ++ s :: r ∧ st'.1 = l ++ s' :: r ∧ st'.2 = st.2 ++ o
    ∧ ((can_fold (room b) s ∧ s' = folded (room b) s ∧ o = []) ∨ (can_omit s ∧ s' = omitted s ∧ o = [omission_of s]))).
  { destruct Hy as [l s r om|l s r om|l s r om]; exists l, s, r; cbn [fst snd].
    1: exists (folded (room b) s), []; rewrite app_nil_r. 2, 3: exists (omitted s), [omission_of s]. all: naive_solver. }
  destruct Hcase as (l & s & r & s' & o & E1 & E2 & E3 & Hs). rewrite E1, E2, E3 in *.
  apply Forall2_app_inv_r in Hk as (l0 & r0 & Hl & Hr & ->). apply Forall2_cons_inv_r in Hr as (s0 & r1 & Hs0 & Hr & ->).
  pose proof (Forall2_length _ _ _ Hl) as Hlen. rewrite lost_app in * by done.
  rewrite lost_cons in Hp |- *. rewrite Hp. clear Hp.
  destruct Hs as [(Hc & -> & ->)|(Hc & -> & ->)].
  - pose proof (kept_fold _ _ _ Hs0 Hc) as Hk'. destruct Hc as (_ & [x o] & Hf). apply fold_with_Some in Hf as (_ & _ & _ & _ & Hps & _).
    rewrite Hps, (folded_present _ _ Hps), !andb_false_r, app_nil_r. split; [|done]. by apply Forall2_app; [|constructor].
  - destruct (kept_omit _ _ _ Hs0 Hc) as (Hk' & Hp0 & Ho). destruct Hc as (_ & _ & Hps). rewrite Hps, Hp0, Ho.
    split; [by apply Forall2_app; [|constructor]|]. cbn. rewrite <- app_assoc. apply Permutation_app_head. symmetry. apply Permutation_cons_append.
Qed.

Lemma FoldAndTrim_kept b sections : let st := FoldAndTrim b sections in Forall2 (kept (room b)) sections st.1 ∧ st.2 ≡ₚ lost sections st.1.
Proof.
  cbv zeta. destruct (FoldAndTrim_yields b sections) as [Hr _]. revert Hr. generalize (FoldAndTrim b sections). intros st Hr.
  cut (∀ st0, rtc (yields b) st0 st → Forall2 (kept (room b)) sections st0.1 ∧ st0.2 ≡ₚ lost sections st0.1 → Forall2 (kept (room b)) sections st.1 ∧ st.2 ≡ₚ lost sections st.1).
  { intros Hc. apply (Hc _ Hr). cbn [fst snd]. rewrite lost_same. split; [|done]. clear. induction sections; constructor; [constructor|done]. }
  clear Hr. intros st0 Hr. induction Hr as [|st1 st2 st3 H1 _ IH]; [done|]. intros H. apply IH. by apply (yields_kept b sections st1).
Qed.

(** ** Rendering *)

Lemma contents_app P a b : contents_of P (a ++ b) = contents_of P a ++ contents_of P b.
Proof. unfold contents_of. by rewrite filter_app, fmap_app. Qed.

Lemma contents_cons P s l : contents_of P (s :: l) = (if P s then [Content s] else []) ++ contents_of P l.
Proof. unfold contents_of. rewrite filter_cons. destruct (P s); by case_decide. Qed.

Lemma contents_none P l : Forall (λ s, P s = false) l → contents_of P l = [].
Proof. induction 1 as [|s l Hs _ IH]; [done|]. by rewrite contents_cons, Hs, IH. Qed.

Lemma kept_fields room s s' : kept room s s' → Name s' = Name s ∧ Source s' = Source s ∧ Elastic s' = Elastic s ∧ Volatile s' = Volatile s ∧ Turn s' = Turn s.
Proof. by intros []. Qed.

Lemma kept_inelastic room l l' : Forall (λ s, Elastic s = false) l → Forall2 (kept room) l l' → l' = l.
Proof.
  intros Hl Hk. induction Hk as [|s s' l l' Hs _ IH]; [done|]. apply Forall_cons in Hl as [He Hl]. f_equal; [|by apply IH].
  destruct Hs; [done|congruence..].
Qed.

Lemma kept_one room s l' : Forall2 (kept room) [s] l' → ∃ s', l' = [s'] ∧ kept room s s'.
Proof. intros (s' & l & Hs & Hl%Forall2_nil_inv_l & ->)%Forall2_cons_inv_l. subst l. eauto. Qed.

Lemma no_closing room l l' : Forall (λ s, is_contract s = false) l → Forall2 (kept room) l l' → contents_of closing_part l' = [].
Proof.
  intros Hl Hk. apply contents_none. apply Forall_forall. intros s' [i Hi]%list_elem_of_lookup.
  destruct (Forall2_lookup_r _ _ _ _ _ Hk Hi) as (s & Hs & (_ & Hsrc & _)%kept_fields). rewrite Forall_forall in Hl.
  specialize (Hl s (list_elem_of_lookup_2 _ _ _ Hs)). unfold closing_part, is_contract in *. by rewrite Hsrc, Hl, andb_false_r.
Qed.

(** The sections before the first that may change. *)
Fixpoint stable_parts (sections : list Section_) : list bytes :=
  match sections with
  | [] => []
  | s :: rest => if negb (text_part s) then stable_parts rest else if Volatile s || Folded s then [] else Content s :: stable_parts rest
  end.

Lemma stable_loop_sealed l n : stable_loop l true n = n.
Proof. revert n. induction l as [|s l IH]; intros n; cbn; [done|]. case_match; [apply IH|]. apply IH. Qed.

Lemma length_Join_snoc l x sep : l ≠ [] → length (Join (l ++ [x]) sep) = (length (Join l sep) + length sep + length x)%nat.
Proof. intros Hl. rewrite Join_app by done. rewrite !length_app. cbn. lia. Qed.

Lemma Join_nonempty l sep : l ≠ [] → Forall (λ x, x ≠ []) l → Join l sep ≠ [].
Proof.
  intros Hl Hne. destruct Hne as [|x l Hx _]; [done|]. destruct l; [done|]. rewrite Join_cons by done. destruct x; done.
Qed.

Lemma text_part_present s : text_part s = true → Content s ≠ [].
Proof. unfold text_part. intros H. b2p. by apply present_true. Qed.

Lemma stable_loop_parts l : ∀ acc, Forall (λ x, x ≠ []) acc →
  stable_loop l false (Z.of_nat (length (Join acc nl2))) = Z.of_nat (length (Join (acc ++ stable_parts l) nl2)).
Proof.
  induction l as [|s l IH]; intros acc Hacc; cbn [stable_loop stable_parts]; [by rewrite app_nil_r|].
  destruct (text_part s) eqn:Et; cbn [negb]; [|by apply IH]. cbn [orb]. destruct (Volatile s || Folded s); [by rewrite stable_loop_sealed, app_nil_r|].
  replace (acc ++ Content s :: stable_parts l) with ((acc ++ [Content s]) ++ stable_parts l) by (by rewrite <- app_assoc).
  rewrite <- IH by (apply Forall_app; split; [done|]; repeat constructor; by apply text_part_present). f_equal.
  destruct acc as [|a acc]; [done|]. rewrite length_Join_snoc by done. pose proof (Join_nonempty (a :: acc) nl2 ltac:(done) Hacc) as Hne.
  destruct (Join (a :: acc) nl2); [done|]. destruct (Z.ltb_spec 0 (Z.of_nat (length (z :: l0)))); cbn [length nl2] in *; lia.
Qed.

Lemma stable_parts_prefix l : ∃ rest, contents_of text_part l = stable_parts l ++ rest.
Proof.
  induction l as [|s l [rest IH]]; [by exists []|]. cbn [stable_parts]. rewrite contents_cons. destruct (text_part s); cbn [negb]; [|by eexists].
  destruct (Volatile s || Folded s); [by eexists|]. exists rest. by rewrite IH.
Qed.

Lemma take_Join l rest sep : take (length (Join l sep)) (Join (l ++ rest) sep) = Join l sep.
Proof.
  destruct l as [|x l]; [done|]. destruct rest as [|y rest]; [by rewrite app_nil_r, take_ge|].
  by rewrite Join_app, take_app_length.
Qed.

(** The text: the contents in order, then perhaps a note, then the closing; the
    stable part is a prefix of it. *)
Lemma assemble_text sections omissions turn room :
  ∃ note, let '(text, block, stable) := assemble sections omissions turn room in
    text = Join (contents_of text_part sections ++ note) nl2 ++ default [] (last (contents_of closing_part sections))
    ∧ take (Z.to_nat stable) text = Join (stable_parts sections) nl2 ∧ (∃ told, block = Join (contents_of turn_part sections ++ told) nl2).
Proof.
  unfold assemble, renderPrompt. eexists. split; [done|]. split; [|by eexists].
  change 0 with (Z.of_nat (length (Join [] nl2))). rewrite stable_loop_parts by constructor. rewrite Nat2Z.id. cbn [app].
  destruct (stable_parts_prefix sections) as [rest ->]. rewrite <- app_assoc, take_app_le; [apply take_Join|].
  destruct (stable_parts sections) as [|x l]; [cbn; lia|]. match goal with |- context [(x :: l) ++ ?r] => destruct r end; [by rewrite app_nil_r|].
  rewrite Join_app by done. rewrite length_app. lia.
Qed.

(** ** The gate's text *)

Definition unless_blank (text : bytes) : list bytes := if beq (TrimSpace text) [] then [] else [text].
Definition unless_empty (text : bytes) : list bytes := if beq text [] then [] else [text].

Lemma gate_inelastic source name text : Forall (λ s, Elastic s = false) (gate_section source name text false).
Proof. unfold gate_section. by destruct (beq (TrimSpace text) []); repeat constructor. Qed.

Lemma gate_contract source name text e : beq source (bs "contract") = false → Forall (λ s, is_contract s = false) (gate_section source name text e).
Proof. intros H. unfold gate_section. by destruct (beq (TrimSpace text) []); repeat constructor. Qed.

Lemma unblank_nonempty text : beq (TrimSpace text) [] = false → text ≠ [].
Proof. by intros H%beq_false ->. Qed.

(** A section the gate adds unless it is blank is part of the text, and of its
    stable beginning unless it is volatile. *)
Lemma gate_contents source name text e l : beq source (bs "contract") = false → beq source (bs "ring3") || beq source (bs "ring4") = false →
  contents_of text_part (gate_section source name text e ++ l) = unless_blank text ++ contents_of text_part l
  ∧ stable_parts (gate_section source name text e ++ l) = unless_blank text ++ stable_parts l.
Proof.
  intros Hc Hv. unfold gate_section, unless_blank. destruct (beq (TrimSpace text) []) eqn:E; [done|]. cbn [app].
  apply unblank_nonempty in E. rewrite contents_cons. cbn [stable_parts].
  assert (Ht : text_part (mkSec name 0 text source e (beq source (bs "ring3") || beq source (bs "ring4")) false false false []) = true).
  { unfold text_part, present, is_contract. cbn [Content Turn Source]. rewrite Hc. by apply beq_false in E as ->. }
  rewrite Ht. cbn [negb Content Volatile Folded]. by rewrite Hv.
Qed.

Lemma volatile_unstable l : Forall (λ s, Volatile s = true) l → stable_parts l = [].
Proof. induction 1 as [|s l Hs _ IH]; [done|]. cbn. rewrite Hs. by destruct (negb (text_part s)). Qed.

Lemma gate_volatile source name text e room l : beq source (bs "ring3") || beq source (bs "ring4") = true →
  Forall2 (kept room) (gate_section source name text e) l → Forall (λ s, Volatile s = true) l.
Proof.
  intros Hv. unfold gate_section. destruct (beq (TrimSpace text) []); [by intros ->%Forall2_nil_inv_l|].
  intros (s' & -> & (_ & _ & _ & Hs & _)%kept_fields)%kept_one. repeat constructor. by rewrite Hs.
Qed.

(** What is kept of Ring 2: all of it, or its fold; it is never left out. *)
Lemma gate_ring2 room text l : Forall2 (kept room) (gate_section (bs "ring2") (bs "Ring 2") text true) l →
  l = gate_section (bs "ring2") (bs "Ring 2") text true
  ∨ ∃ s, l = [s] ∧ text_part s = true ∧ Folded s = true ∧ Content s = summarizeRing2 text room.
Proof.
  unfold gate_section. destruct (beq (TrimSpace text) []) eqn:E; [by intros ->%Forall2_nil_inv_l; left|].
  intros (s' & -> & Hk)%kept_one. inversion Hk as [s Hs|s He Hp Hs|s f He Hp Hr Hs]; subst; [by left| |].
  - right. eexists. split_and!; [done|..|done|done]. unfold text_part. by rewrite folded_present.
  - cbn [Source] in Hr. assert (Hrk : rank (bs "ring2") = 4%nat) by reflexivity. lia.
Qed.

(** The sections after [FoldAndTrim], in the order the gate added them. *)
Lemma gate_sections_kept room g caller ring1 ring2 l : Forall2 (kept room) (gate_sections g caller ring1 ring2) l →
  ∃ r2 l3, l = gate_section (bs "ring0") (bs "Ring 0") (src_Ring0 (g_rings g)) false ++ gate_section (bs "ring5") (bs "Ring 5") (src_Ring5 (g_rings g)) false
      ++ gate_section (bs "ring1") (bs "Ring 1") ring1 false ++ r2 ++ [mkSec [] 0 caller (bs "caller") false false false false false []] ++ l3
    ∧ Forall2 (kept room) (gate_section (bs "ring2") (bs "Ring 2") ring2 true) r2 ∧ stable_parts l3 = [].
Proof.
  unfold gate_sections. intros (l0 & m0 & H0%(kept_inelastic _ _ _ (gate_inelastic _ _ _)) & H & ->)%Forall2_app_inv_l.
  apply Forall2_app_inv_l in H as (l5 & m5 & H5%(kept_inelastic _ _ _ (gate_inelastic _ _ _)) & H & ->).
  apply Forall2_app_inv_l in H as (l1 & m1 & H1%(kept_inelastic _ _ _ (gate_inelastic _ _ _)) & H & ->).
  apply Forall2_app_inv_l in H as (r2 & m2 & H2 & H & ->).
  apply Forall2_app_inv_l in H as (c & m3 & Hc & H & ->). apply (kept_inelastic room) in Hc; [|by repeat constructor].
  apply Forall2_app_inv_l in H as (l3 & l4 & H3 & H4 & ->). subst l0 l5 l1 c. exists r2, (l3 ++ l4). split_and!; [done..|].
  apply volatile_unstable, Forall_app. split; eapply gate_volatile; try done; reflexivity.
Qed.

Lemma gate_not_contract g caller ring1 ring2 : Forall (λ s, is_contract s = false) (gate_sections g caller ring1 ring2).
Proof. unfold gate_sections. repeat (apply Forall_app; split); try (apply gate_contract; reflexivity). by repeat constructor. Qed.

Lemma caller_contents caller l :
  contents_of text_part (mkSec [] 0 caller (bs "caller") false false false false false [] :: l) = unless_empty caller ++ contents_of text_part l
  ∧ stable_parts (mkSec [] 0 caller (bs "caller") false false false false false [] :: l) = unless_empty caller ++ stable_parts l.
Proof.
  rewrite contents_cons. cbn [stable_parts]. unfold unless_empty, text_part, present, is_contract. cbn [Content Turn Source].
  assert (Hc : beq (bs "caller") (bs "contract") = false) by reflexivity. rewrite Hc. by destruct (beq caller []).
Qed.

(** Whatever the budget, the system text of a call begins with Ring 0, Ring 5
    and Ring 1, whole, then Ring 2, whole or with its evidence folded, then what
    the caller asked, whole; and the part reported as stable is exactly the
    beginning that no volatile or folded section has touched. *)
Theorem founding_rings_whole g caller ring1 ring2 reserve :
  let founding := unless_blank (src_Ring0 (g_rings g)) ++ unless_blank (src_Ring5 (g_rings g)) ++ unless_blank ring1 in
  let route := if g_noWindow g then ceilingRoute else windowRoute in
  ∃ rest, let '(text, stable) := SystemWithin g caller ring1 ring2 reserve in
    (text = Join (founding ++ unless_blank ring2 ++ unless_empty caller ++ rest) nl2
      ∧ take (Z.to_nat stable) text = Join (founding ++ unless_blank ring2 ++ unless_empty caller) nl2)
    ∨ (text = Join (founding ++ [summarizeRing2 ring2 route] ++ unless_empty caller ++ rest) nl2
      ∧ take (Z.to_nat stable) text = Join founding nl2).
Proof.
  cbv zeta. unfold SystemWithin. set (b := mkBudget _ _ _). destruct (FoldAndTrim_kept b (gate_sections g caller ring1 ring2)) as [Hk _].
  destruct (FoldAndTrim b _) as [sections omissions]. cbn [fst] in Hk. change (Prompt.room b) with (if g_noWindow g then ceilingRoute else windowRoute) in *.
  destruct (assemble_text sections omissions [] (if g_noWindow g then ceilingRoute else windowRoute)) as [note Ha].
  assert (Hno : contents_of closing_part sections = []) by (eapply no_closing; [apply gate_not_contract|exact Hk]).
  destruct (assemble _ _ _ _) as [[text block] stable]. destruct Ha as (Ht & Hs & _). rewrite Hno in Ht. cbn [last default] in Ht. rewrite app_nil_r in Ht.
  rewrite Hs, Ht. clear Ht Hs Hno.
  apply gate_sections_kept in Hk as (r2 & l3 & -> & H2 & H3).
  do 3 (match goal with |- context [contents_of text_part (gate_section ?src ?n ?t false ++ ?l)] => destruct (gate_contents src n t false l) as [-> ->]; [reflexivity..|] end).
  apply gate_ring2 in H2 as [->|(s & -> & Ht & Hf & Hc)].
  - destruct (gate_contents (bs "ring2") (bs "Ring 2") ring2 true ([mkSec [] 0 caller (bs "caller") false false false false false []] ++ l3)) as [-> ->]; [reflexivity..|].
    destruct (caller_contents caller l3) as [Hc1 Hc2]. cbn [app] in *. rewrite Hc1, Hc2, H3, app_nil_r. exists (contents_of text_part l3 ++ note). left. by rewrite <- !app_assoc.
  - destruct (caller_contents caller l3) as [Hc1 _]. cbn [app] in *. rewrite contents_cons. cbn [stable_parts]. rewrite Ht, Hf, Hc, Hc1, orb_true_r. cbn [negb]. rewrite app_nil_r.
    exists (contents_of text_part l3 ++ note). right. by rewrite <- !app_assoc.
Qed.

(** C33. A prompt over its budget gives up one section at a time, in the order of
    the sources, folding before leaving out and only while it is still too
    large; it ends up within the budget or with nothing left to give up, and
    every section that was left out, and no other, is listed. *)
Theorem prompt_budget_settles b sections : let '(sections', omissions) := FoldAndTrim b sections in
  rtc (yields b) (sections, []) (sections', omissions)
  ∧ (budgetTokens b sections' omissions ≤ maxTokens b ∨ ∀ s, s ∈ sections' → ¬ can_fold (room b) s ∧ ¬ can_omit s)
  ∧ Forall2 (kept (room b)) sections sections' ∧ omissions ≡ₚ lost sections sections'.
Proof.
  destruct (FoldAndTrim_yields b sections) as [Hr Hend]. destruct (FoldAndTrim_kept b sections) as [Hk Hp].
  destruct (FoldAndTrim b sections) as [sections' omissions]. cbn [fst snd] in *. split_and!; [done| |done..].
  destruct Hend as [Hf|]; [left; by apply Z.leb_le|by right].
Qed.
