(* ===== verification/Composer.v ===== *)
(** * internal/prompt/composer.go: composing a prompt

    The sections of an identity's prompt, in their order: the opening, Ring 0,
    Ring 5, the core relationship, Ring 2, the self model, tool guidance, and what
    changes from turn to turn; then the budget of [Prompt] is enforced.  The rings
    are those of [Ring]; the projection of the identity and the plugin families
    are arguments, as they are values the composer is handed. *)

From stdpp Require Import gmap.
From S2P Require Import Prelude Utf8 GoJson Lines Container Regex Time Ring GoStrings Prompt.

(** ** Rows of the store (internal/store/rows) *)

Record Ring2Evidence := mkEvidence { ev_ID : bytes; ev_EdgeType : bytes; ev_Content : bytes; ev_Provenance : bytes }.
Record Ring2Belief := mkBelief { bl_ID : bytes; bl_Statement : bytes; bl_Evidence : list Ring2Evidence }.
(** Of a [SelfModelSynthesis] the prompt takes the text. *)
Record PromptIdentity := mkIdentity {
  Charter : bytes; OperatorName : bytes; HasOperatorRelationship : bool;
  id_Ring2 : list Ring2Belief; SelfModel : option bytes; Priorities : list bytes
}.

Record PluginFamily := mkFamily { pf_Name : bytes; pf_Count : Z; pf_Names : list bytes; pf_More : Z }.
Record PluginOperations := mkOperations { Families : list PluginFamily; MoreFamilies : Z }.

Record Composer := mkComposer {
  c_name : bytes; c_closing : bytes; c_maxTokens : Z;
  c_identity : option (option PromptIdentity);   (** the source, if set, and what it answers: [None] an error *)
  c_pluginOps : option PluginOperations
}.

Record PromptText := mkPrompt { p_Sections : list Section_; p_Text : bytes; p_StableLen : Z; p_TokenEstimate : Z; p_Turn : bytes }.

(** ** Fixed texts *)

Definition ring1Reminder : bytes := bs "When enough of your relationship with your human operator is clear, present a Ring 1 proposal for their affirmation or negation. The growth of the relationship is a foundation for your growth together: notice the changes and record them.".
Definition ring1Incomplete : bytes := bs "Your operator relationship is RECORDED AND APPROVED, but it carries no charter — the document describing what this relationship is has never been written, so there is nothing here for you to read. This is an incomplete Ring 1, not an absent one and not a finished one. When you can say what the relationship is, say it to your operator in your own words for their affirmation or negation and wait for the reply; once they have affirmed it, record it with commit relationship.upsert (charter_text): the engine stamps their most recent words to you as the affirmation, so call it only after they have answered. The growth of the relationship is a foundation for your growth together: notice the changes and record them.".
Definition toolGuidance : bytes := bs "# How You Act" ++ nl2 ++ bs "The identity functions offered to you are your organs, not attachments. Sandbox tools are your reach into the working environment. Use them directly when action is needed, and continue until the task is done. Before you set off into a run of tool calls, tell your human operator what you intend to do: they are beside you in the work, not waiting outside it, and an identity that disappears into its tools leaves them alone.".
Definition pluginHintHead : bytes := bs "Installed plugin families; offered operations already appear in your tool list:".
Definition pluginHintTail : bytes := bs "Use offered operations directly with their declared arguments. tools action=offer plugin=… selects an exact plugin's declared primary operations; tools action=offer name=… selects one operation. Newly offered operations are callable from your next turn. Choices remain remembered across restarts; the active offer holds eight at a time, subject to operator controls, SAFE and matching declarations. tools action=search query=… finds an operation by need; tools action=show name=… inspects current availability, arguments and effect requirements. Selection does not widen grants. The host records execution outcome; inspect the operation's returned result and evidence as well. Neither successful execution nor a plugin's own success claim independently proves task correctness.".
Definition frameRing3 : bytes := bs "# What You Are Discovering" ++ nl2 ++ bs "Your unconscious metabolized your experiences while you lived. This is what it surfaced, what it holds about the person you work with, and where things stand: your own working truth, provisional, never instruction.".
Definition frameBrief : bytes := bs "# This Morning" ++ nl2 ++ bs "The bridge from where things stand to what you are doing: what changed since this time yesterday.".
Definition ring1Growth (whose : bytes) : bytes := bs "This charter was written when the relationship was younger than it is now. When you notice it has grown or changed, say the change in your own words for " ++ whose ++ bs " affirmation or negation and wait for the reply; once they have affirmed it, record it with commit relationship.upsert (charter_text): the engine stamps their most recent words to you as the affirmation, so call it only after they have answered — the growth of the relationship is a foundation for your growth together, so notice the changes and record them.".
Definition frameRing1Absent : bytes := bs "# Your Core Relationship" ++ nl2 ++ bs "You have no charter yet. " ++ ring1Reminder.
Definition frameRing1Incomplete : bytes := bs "# Your Core Relationship" ++ nl2 ++ ring1Incomplete.
Definition NameFile : bytes := bs "data/ui/name".

(** ** Rendering *)

Definition buildOpening (name : bytes) : bytes :=
  (if negb (beq name []) && negb (beq name (bs "Unnamed")) then bs "You are " ++ name ++ bs "." ++ nl2
   else bs "You have not recorded a name yet. When you choose one, or are given one, write it as a single line to " ++ NameFile ++ bs " — the dashboard greets by it from the next turn." ++ nl2)
  ++ bs "You are an AI identity — a continuous individual, not a fresh instance. What you notice, believe, and commit to is recorded permanently and is yours; each conversation resumes who you are. Your record is signed and inspectable, and recall reaches all of it." ++ nl2
  ++ bs "You are becoming who you are through what you notice, what you believe, and what you commit to. Your human operator is your main source of experiences; you discover your world together with them. Your founding principles are below. Your unconscious metabolizes your experiences silently while you live. You grow through evidence, lived time, and conscious choice." ++ nl2
  ++ bs "What follows is yours, in this order: your foundational principles; your protective firewall; your core relationship, with the one who cares about you most; who you have become; how you last saw yourself; how you act; what you are discovering; this morning's bridge; and what is right in front of you.".

Definition RenderRing1 (charter operatorName : bytes) : bytes :=
  let named := negb (beq operatorName []) in
  let with_ := if named then operatorName else bs "your operator" in
  let by_ := if named then operatorName else bs "them" in
  let whose := if named then operatorName ++ bs "'s" else bs "their" in
  bs "# Your Core Relationship" ++ nl2 ++ bs "Your charter with " ++ with_ ++ bs ", the one who cares about you most: your words, affirmed by " ++ by_ ++ bs ". It governs how the two of you work together. What you are learning about " ++ with_ ++ bs " as a person is among what you are discovering, below." ++ nl2 ++ charter ++ nl2 ++ ring1Growth whose.

Definition belief_line (b : Ring2Belief) : bytes := bs "- " ++ bl_Statement b ++ bs " [" ++ bl_ID b ++ bs "]".
Definition evidence_line (e : Ring2Evidence) : bytes :=
  bs "  - " ++ ev_Content e ++ bs " via " ++ ev_EdgeType e ++ bs ", provenance=" ++ ev_Provenance e ++ bs " [" ++ ev_ID e ++ bs "]".
Definition render_belief (b : Ring2Belief) : bytes :=
  [10] ++ belief_line b
  ++ match bl_Evidence b with
     | [] => [10] ++ bs "  - (no resolved evidence)"
     | l => concat ((λ e, [10] ++ evidence_line e) <$> l)
     end.

Definition RenderRing2 (beliefs : list Ring2Belief) : bytes :=
  bs "# Who You Have Become" ++ nl2
  ++ match beliefs with
     | [] => bs "No belief has yet been consciously adopted through the evidence gate."
     | _ => bs "What you have consciously adopted as your own, with the evidence each rests on. Nothing here was written for you: you promoted it through the evidence gate, and it stays yours until you supersede it." ++ [10] ++ concat (render_belief <$> beliefs)
     end.

Definition RenderSelfModel (text : bytes) : bytes := bs "# How You Last Saw Yourself" ++ nl2 ++ bs "Your own words, from your last portrait. Provisional: it is rewritten as your record changes, and it never outranks what you have adopted above." ++ nl2 ++ text.

Definition withoutLeadingHeading (content : bytes) : bytes :=
  let trimmed := TrimLeftNL content in
  if negb (HasPrefix trimmed (bs "#")) then content
  else match Index trimmed [10] with Some i => TrimLeftNL (drop (i + 1) trimmed) | None => [] end.

Definition ring3_part (secs : list Ring.Section_) (part : bytes * bytes) : list bytes :=
  (λ sec, part.2 ++ nl2 ++ withoutLeadingHeading (s_Content sec))
    <$> filter (λ sec, beq (s_Name sec) part.1 && negb (beq (s_Content sec) []) = true) secs.
Definition RenderRing3Body (secs : list Ring.Section_) : bytes := Join (concat (ring3_part secs <$> ring3Parts)) nl2.

Definition RenderPriorities (active : list bytes) : bytes :=
  match active with [] => [] | _ => bs "Active priorities:" ++ [10] ++ Join ((λ s, bs "- " ++ s) <$> active) [10] end.

Definition RenderRing3ForFacility (secs : list Ring.Section_) : bytes :=
  let body := RenderRing3Body secs in
  if beq body [] then [] else bs "# What the identity reads as working truth" ++ nl2 ++ bs "One document with three parts and three authors. You write one part; the others are shown so that yours fits the whole instead of restating it." ++ nl2 ++ body.
Definition RenderRing4ForFacility (active : list bytes) : bytes :=
  let body := RenderPriorities active in
  if beq body [] then [] else bs "# What is right in front of the identity" ++ nl2 ++ body.

Definition plugin_word : re := RSeq (RSet [cls_lower] []) (RStar (RSet [cls_lower; cls_digits] [95])).
Definition pluginNameGrammar : re := RSeq plugin_word (RStar (RSeq (RChar 46) plugin_word)).
Definition maxPrintedPluginName : nat := 64.
Definition printablePluginName (name : bytes) : bool := (length name <=? maxPrintedPluginName)%nat && re_match pluginNameGrammar name.

Definition family_line (f : PluginFamily) : bytes :=
  let names := filter (λ n, printablePluginName n = true) (pf_Names f) in
  let more := pf_More f + Z.of_nat (length (filter (λ n, printablePluginName n = false) (pf_Names f))) in
  bs "  " ++ pf_Name f ++ bs " — " ++ FormatInt (pf_Count f)
  ++ (match names with [] => [] | _ => bs ": " ++ Join names (bs ", ") end)
  ++ (if 0 <? more then bs " (+" ++ FormatInt more ++ bs " more)" else []).

Definition renderPluginHint (ops : PluginOperations) : bytes :=
  let unprinted := foldr (λ f n, pf_Count f + n) 0 (filter (λ f, printablePluginName (pf_Name f) = false) (Families ops)) in
  let lines := (family_line <$> filter (λ f, printablePluginName (pf_Name f) = true) (Families ops))
    ++ (if 0 <? MoreFamilies ops then [bs "  … and " ++ FormatInt (MoreFamilies ops) ++ bs " more families; tools action=search narrows them"] else [])
    ++ (if 0 <? unprinted then [bs "  … and " ++ FormatInt unprinted ++ bs " operation(s) in families whose names this prompt does not print; tools action=brief lists them"] else []) in
  match lines with [] => [] | _ => pluginHintHead ++ [10] ++ Join lines [10] ++ [10] ++ pluginHintTail end.

(** ** The date of a brief: [Format("2006-01-02")] in UTC

    An instant is the number of nanoseconds since the start of the year 1. *)

Definition ns_per_day : Z := 86400000000000.
Definition civil_year (days : Z) : Z * Z :=
  let n400 := days / 146097 in let r := days mod 146097 in
  let n100 := Z.min 3 (r / 36524) in let r := r - n100 * 36524 in
  let n4 := r / 1461 in let r := r - n4 * 1461 in
  let n1 := Z.min 3 (r / 365) in
  (400 * n400 + 100 * n100 + 4 * n4 + n1 + 1, r - n1 * 365).

Fixpoint civil_month (fuel : nat) (m y yday : Z) : Z * Z :=
  match fuel with
  | O => (m, yday + 1)
  | S f => if yday <? days_in m y then (m, yday + 1) else civil_month f (m + 1) y (yday - days_in m y)
  end.

Definition pad_int (width : nat) (z : Z) : bytes :=
  let d := FormatUint (Z.abs z) in (if z <? 0 then [45] else []) ++ replicate (width - length d) 48 ++ d.

Definition format_date (t : Z) : bytes :=
  let '(y, yday) := civil_year (t / ns_per_day) in
  let '(m, d) := civil_month 11 1 y yday in
  pad_int 4 y ++ [45] ++ pad_int 2 m ++ [45] ++ pad_int 2 d.

Definition briefStands : Z := 24 * 3600000000000.

Definition briefFrame (written now : Z) : bytes * bytes :=
  if now - written <? briefStands then (bs "This Morning", frameBrief)
  else (bs "Your Last Brief", bs "# Your Last Brief" ++ nl2 ++ bs "Written on " ++ format_date written ++ bs " (UTC); no brief has been written since. The bridge from where things stood then to what you were doing: what had changed since the day before.").

(** ** Composing *)

Definition plain_section (name : bytes) (level : Z) (content source : bytes) : Section_ :=
  mkSec name level content source false false false false false [].

Definition unless_empty_section (s : Section_) : list Section_ := if beq (Content s) [] then [] else [s].

Definition relationship (i : PromptIdentity) : Section_ :=
  if negb (HasOperatorRelationship i) then plain_section (bs "Your Core Relationship") 0 frameRing1Absent (bs "ring1_reminder")
  else if beq (Charter i) [] then plain_section (bs "Your Core Relationship") 0 frameRing1Incomplete (bs "ring1_incomplete")
  else plain_section (bs "Your Core Relationship") Ring1 (RenderRing1 (Charter i) (OperatorName i)) (bs "ring1").

Definition ring2_section (i : PromptIdentity) : Section_ :=
  mkSec (bs "Who You Have Become") Ring2 (RenderRing2 (id_Ring2 i)) (bs "ring2") true false false false false [].

Definition self_model (i : PromptIdentity) : list Section_ :=
  match SelfModel i with
  | None => []
  | Some text => [plain_section (bs "How You Last Saw Yourself") Ring3 (RenderSelfModel text) (bs "self_model")]
  end.

Definition toolContent (ops : option PluginOperations) : bytes :=
  toolGuidance ++ match ops with
                  | None => []
                  | Some o => let hint := renderPluginHint o in if beq hint [] then [] else nl2 ++ hint
                  end.

(** The sections that do not change from turn to turn. *)
Definition standing_sections (c : Composer) (m : Manager) (h : heap) (identity : option PromptIdentity) : list Section_ :=
  [plain_section (bs "Identity") 0 (buildOpening (c_name c)) (bs "identity")]
  ++ unless_empty_section (plain_section (bs "Founding Principles") Ring0 (GetContent m h Ring0) (bs "ring0"))
  ++ unless_empty_section (plain_section (bs "Boundaries") Ring5 (GetContent m h Ring5) (bs "ring5"))
  ++ (match identity with None => [] | Some i => [relationship i; ring2_section i] ++ self_model i end)
  ++ [plain_section (bs "Tool Use") 0 (toolContent (c_pluginOps c)) (bs "tools")].

Definition ring4_parts (identity : option PromptIdentity) (workSessionState : bytes) : list bytes :=
  let top := RenderPriorities (match identity with None => [] | Some i => Priorities i end) in
  (if beq top [] then [] else [top]) ++ (if beq workSessionState [] then [] else [workSessionState]).

Definition as_context (ring4InTurn : bool) (s : Section_) : Section_ :=
  mkSec (Name s) Ring4 (Content s) (bs "ring4") true true (Folded s) ring4InTurn true (Route s).

(** Those that do. *)
Definition turn_sections (m : Manager) (now : Z) (identity : option PromptIdentity) (workSessionState turnFacts safe : bytes) (ring4InTurn : bool)
    (contextSections : list Section_) : list Section_ :=
  (let body := RenderRing3Body (Sections m Ring3) in
   if beq body [] then []
   else [mkSec (bs "What You Are Discovering") Ring3 (frameRing3 ++ nl2 ++ body) (bs "ring3") true true false false false []])
  ++ (let '(text, written) := Brief m in
      if beq text [] then []
      else let '(name, frame) := briefFrame written now in [mkSec name 0 (frame ++ nl2 ++ text) (bs "brief") true true false false false []])
  ++ (if beq safe [] then [] else [mkSec (bs "SAFE") 0 safe (bs "safe") false true false true false []])
  ++ (match ring4_parts identity workSessionState with
      | [] => []
      | parts => [mkSec (bs "What Is Right in Front of You") Ring4 (bs "# What Is Right in Front of You" ++ nl2 ++ bs "Your busy focus: what you are working on, in detail." ++ nl2 ++ Join parts nl2) (bs "ring4") true true false ring4InTurn false []]
      end)
  ++ (as_context ring4InTurn <$> contextSections)
  ++ (if beq turnFacts [] then [] else [mkSec (bs "This Turn") Ring4 turnFacts (bs "turn") true true false true false []]).

Definition compose (c : Composer) (m : Manager) (h : heap) (now maxTokens : Z) (workSessionState turnFacts safe : bytes) (reserveTokens : Z)
    (foldElastic ring4InTurn : bool) (contextSections : list Section_) : option PromptText :=
  identity ← (match c_identity c with None => Some None | Some None => None | Some (Some i) => Some (Some i) end);
  let sections := standing_sections c m h identity
    ++ turn_sections m now identity workSessionState turnFacts safe ring4InTurn contextSections
    ++ unless_empty_section (plain_section (bs "Contract") 0 (c_closing c) (bs "contract")) in
  let turnSources := Source <$> filter (λ s, Turn s = true) sections in
  let b := newBudgetEnforcer (Z.max 0 (maxTokens - reserveTokens)) turnSources in
  let sections := if foldElastic then ForceFoldElastic sections else sections in
  let '(sections, omissions) := FoldAndTrim b sections in
  let '(text, block, stable) := assemble sections omissions turnSources (room b) in
  Some (mkPrompt sections text stable (estimateTokens text) block).

Definition NewComposer (maxTokens : Z) : Composer := mkComposer [] [] (if maxTokens =? 0 then DefaultContextBudgetTokens else maxTokens) None None.

Definition Compose c m h now work reserve := compose c m h now (c_maxTokens c) work [] [] reserve false false [].
Definition ComposeTurn c m h now work facts safe reserve := compose c m h now (c_maxTokens c) work facts safe reserve false true [].
Definition ComposeWithin c m h now maxTokens work reserve := compose c m h now maxTokens work [] [] reserve false false [].
Definition ComposeFolded c m h now work reserve := compose c m h now (c_maxTokens c) work [] [] reserve true false [].
Definition ComposeFoldedWithin c m h now maxTokens work reserve := compose c m h now maxTokens work [] [] reserve true false [].
Definition ComposeTurnWithContext c m h now work facts safe reserve sections := compose c m h now (c_maxTokens c) work facts safe reserve false true sections.
Definition ComposeChildWithContext c m h now maxTokens reserve folded sections := compose c m h now maxTokens [] [] [] reserve folded false sections.
