(* ===== verification/ComposerFacts.v ===== *)
(** * What every composed prompt shows

    The standing sections are in the text, whole and in order, whatever the
    budget; the evidence of Ring 2 may fold, its beliefs may not; and a sealed
    Ring 0 is in every prompt composed from then on. *)

From stdpp Require Import gmap relations.
From S2P Require Import Prelude Utf8 GoJson Lines Container Crypto Ring GoStrings Prompt PromptFacts Composer.

(** ** Folding for a sub-agent *)

(** What [ForceFoldElastic] passes over. *)
Definition unforced (s : Section_) : Prop := Elastic s = false ∨ Source s = bs "ring2".

Lemma force_one_same source s : source ≠ bs "ring2" → unforced s → force_one source s = s.
Proof.
  intros Hs Hu. unfold force_one. destruct (fold_with subagentRoom source s) as [[s' o]|] eqn:E; [|done].
  apply fold_with_Some in E as (Hsrc & He & _). destruct Hu; congruence.
Qed.

(** The fields folding does not touch. *)
Definition same_place (s s' : Section_) : Prop :=
  Source s' = Source s ∧ Elastic s' = Elastic s ∧ Volatile s' = Volatile s ∧ Turn s' = Turn s.
#[export] Instance same_place_refl : Reflexive same_place.
Proof. by intros s. Qed.
#[export] Instance same_place_trans : Transitive same_place.
Proof. intros s t u (? & ? & ? & ?) (? & ? & ? & ?). unfold same_place. split_and!; congruence. Qed.

Lemma force_one_place source s : same_place s (force_one source s).
Proof.
  unfold force_one. destruct (fold_with subagentRoom source s) as [[s' o]|] eqn:E; [|done]. by apply fold_with_Some in E as (_ & _ & _ & _ & _ & -> & _).
Qed.

Lemma kept_place room s s' : kept room s s' → same_place s s'.
Proof. intros (_ & ? & ? & ? & ?)%kept_fields. by split_and!. Qed.

(** [ForceFoldElastic] works section by section. *)
Definition force_section (s : Section_) : Section_ :=
  fold_left (λ s source, if beq source (bs "ring2") then s else force_one source s) foldOrder s.

Lemma ForceFold_map l : ForceFoldElastic l = force_section <$> l.
Proof.
  unfold ForceFoldElastic, force_section. generalize foldOrder as sources. intros sources. revert l.
  induction sources as [|x sources IH]; intros l; cbn [fold_left]; [by rewrite list_fmap_id|].
  rewrite IH. destruct (beq x (bs "ring2")); [done|]. by rewrite <- list_fmap_compose.
Qed.

Lemma force_section_same s : unforced s → force_section s = s.
Proof.
  intros Hu. unfold force_section. generalize foldOrder as sources. intros sources. induction sources as [|x sources IH]; cbn [fold_left]; [done|].
  destruct (beq x (bs "ring2")) eqn:E; [done|]. apply beq_false in E. by rewrite force_one_same.
Qed.

Lemma force_section_place s : same_place s (force_section s).
Proof.
  unfold force_section. generalize foldOrder as sources. intros sources. revert s. induction sources as [|x sources IH]; intros s; cbn [fold_left]; [done|].
  destruct (beq x (bs "ring2")); [done|]. transitivity (force_one x s); [apply force_one_place|apply IH].
Qed.

(** Folded for a sub-agent or not, then fitted: section by section. *)
Definition forced (fold : bool) (l : list Section_) : list Section_ := if fold then ForceFoldElastic l else l.

Lemma forced_app fold a b : forced fold (a ++ b) = forced fold a ++ forced fold b.
Proof. unfold forced. destruct fold; [|done]. by rewrite !ForceFold_map, fmap_app. Qed.

Lemma forced_same fold l : Forall unforced l → forced fold l = l.
Proof.
  unfold forced. destruct fold; [|done]. rewrite ForceFold_map. induction 1 as [|s l Hs _ IH]; [done|]. rewrite fmap_cons. by rewrite force_section_same, IH.
Qed.

Lemma forced_place fold l : Forall2 same_place l (forced fold l).
Proof.
  unfold forced. destruct fold; [rewrite ForceFold_map|]; induction l; rewrite ?fmap_cons; constructor; auto using force_section_place. done.
Qed.

Lemma kept_places room l l' : Forall2 (kept room) l l' → Forall2 same_place l l'.
Proof. intros H. eapply Forall2_impl; [exact H|]. apply kept_place. Qed.

(** A property of places carries over. *)
Lemma place_transfer (P : Section_ → Prop) l l' : (∀ s s', same_place s s' → P s → P s') → Forall2 same_place l l' → Forall P l → Forall P l'.
Proof. intros HP Hl HF. induction Hl as [|s s' l l' Hs _ IH]; [done|]. apply Forall_cons in HF as [H1 H2]. constructor; eauto. Qed.

(** ** The standing sections *)

(** A plain section never yields, and is in the text unless it is empty. *)
Definition plain (s : Section_) : Prop := Elastic s = false ∧ Volatile s = false ∧ Folded s = false ∧ Turn s = false ∧ is_contract s = false.

Lemma plain_contents l : Forall plain l → contents_of text_part l = contents_of present l ∧ ∀ l', stable_parts (l ++ l') = contents_of present l ++ stable_parts l'.
Proof.
  induction 1 as [|s l (He & Hv & Hf & Ht & Hc) _ [IH1 IH2]]; [done|]. cbn [app stable_parts]. rewrite !contents_cons.
  assert (Hp : text_part s = present s) by (unfold text_part; by rewrite Ht, Hc, !andb_true_r). rewrite Hp, IH1. split; [done|].
  intros l'. rewrite Hv, Hf, IH2. by destruct (present s).
Qed.

Lemma plain_inelastic l : Forall plain l → Forall (λ s, Elastic s = false) l ∧ Forall unforced l ∧ Forall (λ s, is_contract s = false) l.
Proof. intros H. split_and!; eapply Forall_impl; try exact H; intros s (? & ? & ? & ? & ?); unfold unforced; auto. Qed.

Lemma unless_empty_plain s : plain s → Forall plain (unless_empty_section s).
Proof. intros H. unfold unless_empty_section. destruct (beq (Content s) []); [constructor|]. constructor; [done|constructor]. Qed.

Lemma unless_empty_contents s : contents_of present (unless_empty_section s) = unless_empty (Content s).
Proof. unfold unless_empty_section, unless_empty. destruct (beq (Content s) []) eqn:E; [done|]. rewrite contents_cons. unfold present. by rewrite E. Qed.

(** Before Ring 2 and after it. *)
Definition before_ring2 (c : Composer) (m : Manager) (h : heap) (identity : option PromptIdentity) : list Section_ :=
  [plain_section (bs "Identity") 0 (buildOpening (c_name c)) (bs "identity")]
  ++ unless_empty_section (plain_section (bs "Founding Principles") Ring0 (GetContent m h Ring0) (bs "ring0"))
  ++ unless_empty_section (plain_section (bs "Boundaries") Ring5 (GetContent m h Ring5) (bs "ring5"))
  ++ match identity with None => [] | Some i => [relationship i] end.
Definition after_ring2 (c : Composer) (identity : option PromptIdentity) : list Section_ :=
  match identity with None => [] | Some i => self_model i end
  ++ [plain_section (bs "Tool Use") 0 (toolContent (c_pluginOps c)) (bs "tools")].

Lemma standing_split c m h identity : standing_sections c m h identity =
  before_ring2 c m h identity ++ match identity with None => [] | Some i => [ring2_section i] end ++ after_ring2 c identity.
Proof. unfold standing_sections, before_ring2, after_ring2. destruct identity; cbn [app]; rewrite <- ?app_assoc; cbn [app]; by rewrite <- ?app_assoc. Qed.

Lemma plain_by name level content source : beq source (bs "contract") = false → plain (plain_section name level content source).
Proof. intros H. repeat split. exact H. Qed.

Lemma relationship_plain i : plain (relationship i).
Proof. unfold relationship. repeat case_match; by apply plain_by. Qed.

Lemma before_plain c m h identity : Forall plain (before_ring2 c m h identity).
Proof.
  unfold before_ring2. repeat (apply Forall_app; split).
  - constructor; [by apply plain_by|constructor].
  - apply unless_empty_plain. by apply plain_by.
  - apply unless_empty_plain. by apply plain_by.
  - destruct identity; [constructor; [apply relationship_plain|constructor]|constructor].
Qed.

Lemma after_plain c identity : Forall plain (after_ring2 c identity).
Proof.
  unfold after_ring2. apply Forall_app. split; [|constructor; [by apply plain_by|constructor]].
  destruct identity as [i|]; [|constructor]. unfold self_model. destruct (SelfModel i); [constructor; [by apply plain_by|constructor]|constructor].
Qed.

(** ** The sections of the turn *)

Lemma inelastic_stays fold room s l l' : s ∈ l → Elastic s = false → Forall2 (kept room) (forced fold l) l' → s ∈ l'.
Proof.
  intros (a & b & ->)%list_elem_of_split He. replace (a ++ s :: b) with (a ++ [s] ++ b) by done. rewrite !forced_app.
  rewrite (forced_same fold [s]) by (constructor; [by left|constructor]).
  intros (a' & m & _ & Hm & ->)%Forall2_app_inv_l. apply Forall2_app_inv_l in Hm as (s' & b' & Hs & _ & ->).
  apply kept_inelastic in Hs as ->; [|by constructor]. rewrite !elem_of_app. right. left. by apply list_elem_of_singleton.
Qed.

Definition changing (s : Section_) : Prop := Volatile s = true ∧ is_contract s = false.

Lemma changing_place s s' : same_place s s' → changing s → changing s'.
Proof. intros (Hs & _ & Hv & _) [H1 H2]. unfold changing, is_contract in *. by rewrite Hv, Hs. Qed.

Lemma turn_changing m now identity work facts safe inTurn ctx : Forall changing (turn_sections m now identity work facts safe inTurn ctx).
Proof.
  unfold turn_sections. repeat (apply Forall_app; split).
  - destruct (beq _ []); [constructor|]. constructor; [done|constructor].
  - destruct (Brief m) as [text written]. destruct (beq text []); [constructor|]. destruct (briefFrame written now). constructor; [done|constructor].
  - destruct (beq safe []); [constructor|]. constructor; [done|constructor].
  - destruct (ring4_parts identity work); [constructor|]. constructor; [done|constructor].
  - apply Forall_fmap. apply Forall_forall. intros s _. done.
  - destruct (beq facts []); [constructor|]. constructor; [done|constructor].
Qed.

Lemma changing_parts l : Forall changing l → stable_parts l = [] ∧ contents_of closing_part l = [].
Proof.
  intros H. split; [apply volatile_unstable; eapply Forall_impl; [exact H|by intros s []]|].
  apply contents_none. eapply Forall_impl; [exact H|]. intros s [_ Hc]. unfold closing_part. by rewrite Hc, andb_false_r.
Qed.

Definition contract_section (c : Composer) : list Section_ := unless_empty_section (plain_section (bs "Contract") 0 (c_closing c) (bs "contract")).

Lemma contract_parts c : contents_of text_part (contract_section c) = [] ∧ stable_parts (contract_section c) = []
  ∧ default [] (last (contents_of closing_part (contract_section c))) = c_closing c.
Proof.
  unfold contract_section, unless_empty_section. cbn [plain_section Content]. destruct (beq (c_closing c) []) eqn:E.
  - apply beq_true in E as ->. done.
  - rewrite !contents_cons. cbn [stable_parts]. unfold text_part, closing_part, present, is_contract. cbn [plain_section Content Source Turn]. rewrite E.
    assert (Hc : beq (bs "contract") (bs "contract") = true) by reflexivity. by rewrite Hc.
Qed.

(** ** The shape of the text *)

(** What is kept of Ring 2: the whole, or its fold. *)
Lemma ring2_kept room i l : Forall2 (kept room) [ring2_section i] l →
  l = [ring2_section i] ∨ l = [folded room (ring2_section i)].
Proof.
  intros (s' & -> & Hk)%kept_one. inversion Hk as [s Hs|s He Hp Hs|s f He Hp Hr Hs]; subst; [by left|by right|].
  cbn [ring2_section Source] in Hr. assert (Hrk : rank (bs "ring2") = 4%nat) by reflexivity. lia.
Qed.

Lemma present_content s : Content s ≠ [] → contents_of present [s] = [Content s].
Proof. intros H%present_true. by rewrite contents_cons, H. Qed.

Lemma nonempty_app_l {A} (a b : list A) : a ≠ [] → a ++ b ≠ [].
Proof. intros Ha [? _]%app_eq_nil. done. Qed.

Lemma opening_nonempty name : buildOpening name ≠ [].
Proof. unfold buildOpening. apply nonempty_app_r, nonempty_app_r. discriminate. Qed.

Lemma ring2_nonempty beliefs : RenderRing2 beliefs ≠ [].
Proof. unfold RenderRing2. apply nonempty_app_l. discriminate. Qed.

Lemma tools_nonempty ops : toolContent ops ≠ [].
Proof. unfold toolContent. apply nonempty_app_l. discriminate. Qed.

Lemma relationship_nonempty i : Content (relationship i) ≠ [].
Proof.
  unfold relationship. repeat case_match; cbn [plain_section Content]; [discriminate|discriminate|].
  unfold RenderRing1. apply nonempty_app_l. discriminate.
Qed.

Definition standing_before (c : Composer) (m : Manager) (h : heap) (identity : option PromptIdentity) : list bytes :=
  [buildOpening (c_name c)] ++ unless_empty (GetContent m h Ring0) ++ unless_empty (GetContent m h Ring5)
  ++ match identity with None => [] | Some i => [Content (relationship i)] end.
Definition standing_after (c : Composer) (identity : option PromptIdentity) : list bytes :=
  match identity with None => [] | Some i => match SelfModel i with None => [] | Some t => [RenderSelfModel t] end end ++ [toolContent (c_pluginOps c)].

Lemma before_contents c m h identity : contents_of present (before_ring2 c m h identity) = standing_before c m h identity.
Proof.
  unfold before_ring2, standing_before. rewrite !contents_app, !unless_empty_contents. cbn [plain_section Content].
  f_equal; [exact (present_content (plain_section (bs "Identity") 0 (buildOpening (c_name c)) (bs "identity")) (opening_nonempty (c_name c)))|]. do 2 f_equal.
  destruct identity as [i|]; [|done]. apply present_content, relationship_nonempty.
Qed.

Lemma after_contents c identity : contents_of present (after_ring2 c identity) = standing_after c identity.
Proof.
  unfold after_ring2, standing_after. rewrite contents_app, (present_content _ (tools_nonempty (c_pluginOps c) : Content (plain_section (bs "Tool Use") 0 (toolContent (c_pluginOps c)) (bs "tools")) ≠ [])). f_equal.
  destruct identity as [i|]; [|done]. unfold self_model. destruct (SelfModel i) as [t|]; [|done].
  apply (present_content (plain_section (bs "How You Last Saw Yourself") Ring3 (RenderSelfModel t) (bs "self_model"))).
  cbn [plain_section Content]. unfold RenderSelfModel. apply nonempty_app_l. discriminate.
Qed.

(** What the text shows of Ring 2, and whether it leaves the beginning stable. *)
Definition ring2_shown (identity : option PromptIdentity) (ring2 : list bytes) (whole : bool) : Prop :=
  match identity with
  | None => ring2 = [] ∧ whole = true
  | Some i => (ring2 = [RenderRing2 (id_Ring2 i)] ∧ whole = true) ∨ (ring2 = [summarizeRing2 (RenderRing2 (id_Ring2 i)) []] ∧ whole = false)
  end.

(** The middle of the sections: Ring 2, if there is an identity. *)
Lemma ring2_parts identity r2 rest : Forall2 (kept []) (match identity with None => [] | Some i => [ring2_section i] end) r2 →
  ∃ ring2 whole, ring2_shown identity ring2 whole ∧ contents_of text_part r2 = ring2 ∧ contents_of closing_part r2 = []
    ∧ stable_parts (r2 ++ rest) = if whole then ring2 ++ stable_parts rest else [].
Proof.
  destruct identity as [i|]; [|intros ->%Forall2_nil_inv_l; exists [], true; done].
  assert (Hp : present (ring2_section i) = true) by (apply present_true, ring2_nonempty).
  assert (Hr : is_contract (ring2_section i) = false) by reflexivity.
  intros [->| ->]%ring2_kept; cbn [app stable_parts]; rewrite !contents_cons.
  - assert (Ht : text_part (ring2_section i) = true) by (unfold text_part; by rewrite Hp, Hr). unfold closing_part. rewrite Ht, Hr, andb_false_r.
    exists [RenderRing2 (id_Ring2 i)], true. split; [by left|]. done.
  - pose proof (folded_present [] _ Hp) as Hp'. assert (Hr' : is_contract (folded [] (ring2_section i)) = false) by exact Hr.
    assert (Ht : text_part (folded [] (ring2_section i)) = true) by (unfold text_part; by rewrite Hp', Hr'). unfold closing_part. rewrite Ht, Hr', andb_false_r.
    exists [summarizeRing2 (RenderRing2 (id_Ring2 i)) []], false. split; [by right|]. done.
Qed.

Lemma plain_no_closing l : Forall plain l → contents_of closing_part l = [].
Proof.
  intros H. apply contents_none. eapply Forall_impl; [exact H|]. intros s (_ & _ & _ & _ & Hc). unfold closing_part. by rewrite Hc, andb_false_r.
Qed.

Lemma changing_stable l l' : Forall changing l → stable_parts l' = [] → stable_parts (l ++ l') = [].
Proof. intros Hl Hl'. induction Hl as [|s l [Hv _] _ IH]; [done|]. cbn [app stable_parts]. rewrite Hv. by destruct (negb (text_part s)). Qed.

(** The safety notice never yields: it is told in the turn. *)
Lemma safe_told m now identity work facts safe inTurn ctx fold T' a b told :
  Forall2 (kept []) (forced fold (turn_sections m now identity work facts safe inTurn ctx)) T' →
  shows (Join (contents_of turn_part (a ++ T' ++ b) ++ told) nl2) safe.
Proof.
  intros HT. destruct (beq safe []) eqn:Esafe.
  { apply beq_true in Esafe as ->. by exists [], (Join (contents_of turn_part (a ++ T' ++ b) ++ told) nl2). }
  apply Join_shows. apply elem_of_app. left. unfold contents_of. apply list_elem_of_fmap.
  exists (mkSec (bs "SAFE") 0 safe (bs "safe") false true false true false []). split; [done|]. apply list_elem_of_filter. split.
  { unfold turn_part, present. cbn [Content Turn]. by rewrite Esafe. }
  apply elem_of_app. right. apply elem_of_app. left. eapply inelastic_stays; [|done|exact HT].
  unfold turn_sections. rewrite Esafe. do 2 (apply elem_of_app; right). apply elem_of_app. left. by apply list_elem_of_singleton.
Qed.

(** The sections after the budget: those before and after Ring 2 as they were. *)
Lemma composed_sections c m h identity T fold b :
  Prompt.room b = [] →
  ∃ r2 T' omissions, FoldAndTrim b (forced fold (standing_sections c m h identity ++ T ++ contract_section c))
      = (before_ring2 c m h identity ++ r2 ++ after_ring2 c identity ++ T' ++ contract_section c, omissions)
    ∧ Forall2 (kept []) (match identity with None => [] | Some i => [ring2_section i] end) r2 ∧ Forall2 (kept []) (forced fold T) T'.
Proof.
  intros Hroom. rewrite standing_split.
  destruct (plain_inelastic _ (before_plain c m h identity)) as (HBe & HBu & _). destruct (plain_inelastic _ (after_plain c identity)) as (HAe & HAu & _).
  assert (HKe : Forall (λ s, Elastic s = false) (contract_section c)) by (unfold contract_section, unless_empty_section; destruct (beq _ []); repeat constructor).
  assert (HKu : Forall unforced (contract_section c)) by (eapply Forall_impl; [exact HKe|by left]).
  assert (H2u : Forall unforced (match identity with None => [] | Some i => [ring2_section i] end)) by (destruct identity; [constructor; [by right|constructor]|constructor]).
  rewrite !forced_app, (forced_same fold (before_ring2 c m h identity)), (forced_same fold (after_ring2 c identity)), (forced_same fold (contract_section c)), (forced_same fold _ H2u) by done.
  match goal with |- context [FoldAndTrim b ?l] => destruct (FoldAndTrim_kept b l) as [Hk _]; destruct (FoldAndTrim b l) as [sections omissions] end.
  cbn [fst] in Hk. rewrite Hroom in Hk. rewrite <- !app_assoc in Hk.
  apply Forall2_app_inv_l in Hk as (B & m1 & ->%(kept_inelastic _ _ _ HBe) & Hk & ->).
  apply Forall2_app_inv_l in Hk as (r2 & m2 & H2 & Hk & ->).
  apply Forall2_app_inv_l in Hk as (A & m3 & ->%(kept_inelastic _ _ _ HAe) & Hk & ->).
  apply Forall2_app_inv_l in Hk as (T' & K & HT & ->%(kept_inelastic _ _ _ HKe) & ->). by exists r2, T', omissions.
Qed.

Lemma compose_shape c m h now maxTokens work facts safe reserve fold inTurn ctx identity :
  c_identity c = Some <$> identity →
  ∃ p ring2 whole rest, compose c m h now maxTokens work facts safe reserve fold inTurn ctx = Some p ∧ ring2_shown identity ring2 whole
    ∧ p_Text p = Join (standing_before c m h identity ++ ring2 ++ standing_after c identity ++ rest) nl2 ++ c_closing c
    ∧ take (Z.to_nat (p_StableLen p)) (p_Text p) = Join (standing_before c m h identity ++ if whole then ring2 ++ standing_after c identity else []) nl2
    ∧ shows (p_Turn p) safe.
Proof.
  intros Hid. unfold compose. rewrite Hid. replace (match Some <$> identity with None => Some None | Some None => None | Some (Some i) => Some (Some i) end) with (Some identity) by (by destruct identity).
  cbn [mbind option_bind]. cbv zeta. fold (contract_section c). set (T := turn_sections m now identity work facts safe inTurn ctx). set (b := newBudgetEnforcer _ _).
  fold (forced fold (standing_sections c m h identity ++ T ++ contract_section c)).
  destruct (composed_sections c m h identity T fold b eq_refl) as (r2 & T' & omissions & -> & H2 & HT).
  assert (HTc : Forall changing T').
  { apply (place_transfer _ (forced fold T)); [apply changing_place|by eapply kept_places|].
    apply (place_transfer _ T); [apply changing_place|apply forced_place|apply turn_changing]. }
  destruct (changing_parts T' HTc) as [_ HTk]. destruct (contract_parts c) as (HK1 & HK2 & HK3).
  destruct (plain_contents _ (before_plain c m h identity)) as [HB1 HB2]. destruct (plain_contents _ (after_plain c identity)) as [HA1 HA2].
  destruct (ring2_parts identity r2 (after_ring2 c identity ++ T' ++ contract_section c) H2) as (ring2 & whole & Hshown & H21 & H22 & H23).
  match goal with |- context [assemble ?l ?o ?t ?r] => destruct (assemble_text l o t r) as [note Ha]; destruct (assemble l o t r) as [[text block] stable] end.
  destruct Ha as (Ht & Hs & told & Hb). eexists _, ring2, whole, (contents_of text_part T' ++ note). split; [done|]. split; [done|]. cbn [p_Text p_StableLen p_Turn].
  split_and!.
  - rewrite Ht, !contents_app, HB1, HA1, H21, HK1, H22, HTk, before_contents, after_contents, app_nil_r.
    rewrite (plain_no_closing _ (before_plain c m h identity)), (plain_no_closing _ (after_plain c identity)). cbn [app]. rewrite HK3. f_equal. f_equal. by rewrite <- !app_assoc.
  - rewrite Hs, HB2, H23, HA2, before_contents, after_contents. do 2 f_equal. destruct whole; [|done]. f_equal. by rewrite changing_stable, app_nil_r.
  - rewrite Hb. replace (before_ring2 c m h identity ++ r2 ++ after_ring2 c identity ++ T' ++ contract_section c)
      with ((before_ring2 c m h identity ++ r2 ++ after_ring2 c identity) ++ T' ++ contract_section c) by (by rewrite <- !app_assoc). by eapply safe_told.
Qed.

(** C34. Whatever the budget, the reserve and the turn bring, composing a prompt
    for an identity succeeds, and its text begins with the opening, Ring 0,
    Ring 5, the core relationship, Ring 2 with at most its evidence folded, the
    self model and the tool guidance, each whole, and ends with the contract; a
    safety notice is told in the turn; and the part reported as stable is the
    beginning up to the first section that was folded or may change. *)
Theorem prompt_stands_on_its_rings name closing limit i ops m h now maxTokens work facts safe reserve fold inTurn ctx :
  let c := mkComposer name closing limit (Some (Some i)) ops in
  ∃ p ring2 whole rest, compose c m h now maxTokens work facts safe reserve fold inTurn ctx = Some p ∧ ring2_shown (Some i) ring2 whole
    ∧ p_Text p = Join (standing_before c m h (Some i) ++ ring2 ++ standing_after c (Some i) ++ rest) nl2 ++ closing
    ∧ take (Z.to_nat (p_StableLen p)) (p_Text p) = Join (standing_before c m h (Some i) ++ if whole then ring2 ++ standing_after c (Some i) else []) nl2
    ∧ shows (p_Turn p) safe.
Proof. intros c. exact (compose_shape c m h now maxTokens work facts safe reserve fold inTurn ctx (Some i) eq_refl). Qed.

(** ** Beliefs and the constitution *)

Lemma render_belief_line b : ∃ r, render_belief b = [10] ++ belief_line b ++ [10] ++ r.
Proof.
  unfold render_belief. destruct (bl_Evidence b) as [|e l]; [by eexists|]. rewrite fmap_cons. cbn [concat].
  exists (evidence_line e ++ concat ((λ e, [10] ++ evidence_line e) <$> l)). by rewrite <- !app_assoc.
Qed.

Lemma beliefs_line beliefs b : b ∈ beliefs → ∃ l r, concat (render_belief <$> beliefs) = l ++ [10] ++ belief_line b ++ [10] ++ r.
Proof.
  intros (l1 & l2 & ->)%list_elem_of_split. rewrite fmap_app, concat_app, fmap_cons. cbn [concat]. destruct (render_belief_line b) as [r ->].
  exists (concat (render_belief <$> l1)), (r ++ concat (render_belief <$> l2)). by rewrite <- !app_assoc.
Qed.

Lemma line_under (h m x : bytes) : (∃ l r, x = l ++ [10] ++ m ++ [10] ++ r) → ∃ l r, h ++ x = l ++ [10] ++ m ++ [10] ++ r.
Proof. intros (l & r & ->). exists (h ++ l), r. by rewrite <- app_assoc. Qed.

Lemma RenderRing2_line beliefs b : b ∈ beliefs → ∃ l r, RenderRing2 beliefs = l ++ [10] ++ belief_line b ++ [10] ++ r.
Proof.
  intros Hb. pose proof (beliefs_line beliefs b Hb) as Hl. unfold RenderRing2. destruct beliefs as [|b0 bl]; [by apply elem_of_nil in Hb|].
  repeat (refine (line_under _ _ _ _); try exact Hl).
Qed.

Lemma belief_line_end b : ∃ x, belief_line b = x ++ [93].
Proof. exists (bs "- " ++ bl_Statement b ++ bs " [" ++ bl_ID b). unfold belief_line. by rewrite <- !app_assoc. Qed.

Lemma belief_not_elided b : elided_line (belief_line b) = false.
Proof. reflexivity. Qed.

Lemma summary_shows_belief beliefs b room : b ∈ beliefs → 10 ∉ belief_line b → shows (summarizeRing2 (RenderRing2 beliefs) room) (belief_line b).
Proof.
  intros Hb Hnl. destruct (RenderRing2_line beliefs b Hb) as (l & r & E). unfold summarizeRing2. case_match.
  - rewrite E. exists (l ++ [10]), ([10] ++ r). by rewrite <- !app_assoc.
  - apply shows_app_l. destruct (belief_line_end b) as [x Hx]. rewrite Hx. apply (TrimRightNL_shows _ x 93); [done|]. rewrite <- Hx.
    apply Join_shows. apply list_elem_of_filter. split; [apply belief_not_elided|]. rewrite E. cbn [app]. rewrite Split_one_app. apply elem_of_app. right.
    rewrite Split_one_app, (Split_clean 10 (belief_line b) Hnl). by left.
Qed.

(** Every belief of Ring 2 is in the composed text, whatever the budget, as
    long as its statement and id are of one line: folding Ring 2 leaves out
    evidence only. *)
Theorem every_belief_shown c m h now maxTokens work facts safe reserve fold inTurn ctx i p b :
  c_identity c = Some (Some i) → compose c m h now maxTokens work facts safe reserve fold inTurn ctx = Some p →
  b ∈ id_Ring2 i → 10 ∉ belief_line b → shows (p_Text p) (belief_line b).
Proof.
  intros Hid Hp Hb Hnl. destruct (compose_shape c m h now maxTokens work facts safe reserve fold inTurn ctx (Some i) Hid) as (p' & ring2 & whole & rest & Hp' & Hr & Ht & _).
  rewrite Hp in Hp'. apply (inj Some) in Hp' as <-. rewrite Ht. apply shows_app_l.
  assert (Hin : ∃ x, ring2 = [x] ∧ shows x (belief_line b)).
  { destruct Hr as [[-> _]|[-> _]]; eexists; (split; [done|]); [|by apply summary_shows_belief].
    destruct (RenderRing2_line _ b Hb) as (l & r & ->). exists (l ++ [10]), ([10] ++ r). by rewrite <- !app_assoc. }
  destruct Hin as (x & -> & Hx). eapply shows_trans; [|exact Hx]. apply Join_shows. rewrite !elem_of_app. right. left. by left.
Qed.

(** C35. Once Ring 0 is sealed, every prompt composed after any further calls on
    the rings, under any budget, begins with the opening and then that very
    Ring 0, whole. *)
Theorem constitution_in_every_prompt `{P : Primitives} w w' c now maxTokens work facts safe reserve fold inTurn ctx p :
  rtc ring_step (NewManager, ∅, ∅) w → ring0Sealed w.1.1 = true → rtc ring_step w w' →
  compose c w'.1.1 w'.1.2 now maxTokens work facts safe reserve fold inTurn ctx = Some p →
  ∃ rest, p_Text p = Join ([buildOpening (c_name c)] ++ unless_empty (GetContent w.1.1 w.1.2 Ring0) ++ rest) nl2 ++ c_closing c.
Proof.
  intros Hw Hs Hr Hp. destruct (ring_inv_reachable w ∅ Hw ltac:(set_solver)) as [_ Hi]. destruct (Hi Hs) as (l & rc & Hh & _).
  pose proof (ring0_steps _ _ _ _ _ Hh Hr) as Hh'. assert (Hsame : GetContent w'.1.1 w'.1.2 Ring0 = GetContent w.1.1 w.1.2 Ring0).
  { destruct w as [[m h] own], w' as [[m' h'] own']. destruct Hh as (_ & _ & H1 & H2 & _), Hh' as (_ & _ & H1' & H2' & _).
    unfold GetContent, Get. cbn [fst snd] in *. rewrite H1, H1'. cbn. by rewrite H2, H2'. }
  assert (Hid : ∃ identity, c_identity c = Some <$> identity).
  { unfold compose in Hp. destruct (c_identity c) as [[i|]|]; [by exists (Some i)|done|by exists None]. }
  destruct Hid as [identity Hid].
  destruct (compose_shape c w'.1.1 w'.1.2 now maxTokens work facts safe reserve fold inTurn ctx identity Hid) as (p' & ring2 & whole & rest & Hp' & _ & Ht & _).
  rewrite Hp in Hp'. apply (inj Some) in Hp' as <-. unfold standing_before in Ht. rewrite Hsame in Ht. rewrite <- !app_assoc in Ht. eexists. exact Ht.
Qed.

(** ** Witnesses *)

Definition sample_belief : Ring2Belief := mkBelief (bs "b1") (bs "I keep my word") [mkEvidence (bs "e1") (bs "supports") (bs "kept it") (bs "lived")].
Definition sample_identity : PromptIdentity := mkIdentity (bs "be honest") [] true [sample_belief] None [].
Definition sample_composer : Composer := mkComposer (bs "Ada") [] 10 (Some (Some sample_identity)) None.

Lemma every_belief_shown_witness : ∃ p, compose sample_composer NewManager ∅ 0 10 [] [] [] 0 false false [] = Some p
  ∧ shows (p_Text p) (belief_line sample_belief).
Proof.
  destruct (compose sample_composer NewManager ∅ 0 10 [] [] [] 0 false false []) as [p|] eqn:E; [|vm_compute in E; discriminate].
  exists p. split; [reflexivity|].
  apply (every_belief_shown sample_composer NewManager ∅ 0 10 [] [] [] 0 false false [] sample_identity p sample_belief eq_refl E); [by left|].
  apply (bool_decide_unpack (10 ∉ belief_line sample_belief)). vm_compute. exact I.
Defined.

Lemma constitution_in_every_prompt_witness : ∃ p rest,
  compose sample_composer sample_sealed_world.1.1 sample_sealed_world.1.2 0 10 [] [] [] 0 false false [] = Some p
  ∧ p_Text p = Join ([buildOpening (bs "Ada")] ++ [bs "be kind"] ++ rest) nl2.
Proof.
  destruct (compose sample_composer sample_sealed_world.1.1 sample_sealed_world.1.2 0 10 [] [] [] 0 false false []) as [p|] eqn:E; [|vm_compute in E; discriminate].
  destruct (constitution_in_every_prompt sample_sealed_world sample_sealed_world sample_composer 0 10 [] [] [] 0 false false [] p) as [rest H].
  - exact sample_sealed_reachable.
  - vm_compute. reflexivity.
  - apply rtc_refl.
  - exact E.
  - exists p, rest. split; [reflexivity|]. rewrite H. cbn [c_closing sample_composer]. rewrite app_nil_r. f_equal.
Defined.
