(* ===== verification/Rewrap.v ===== *)
(** * internal/ledger/rewrap.go: signing a history again

    A ledger whose lines have an earlier shape, or whose signatures are to be
    renewed, is read, checked, linked and signed again into a temporary file,
    which replaces the ledger only after it verifies and replays.  The receipts of
    an earlier witness are kept as footnotes, since they attest hashes the new
    chain no longer has.  Locks, temporary files and publication are the points
    at which the file system can fail. *)

From stdpp Require Import gmap.
From S2P Require Import Prelude Utf8 GoJson CanonicalJson CanonicalJsonFacts GoStruct Crypto Event Lines Chain Container Ledger GoStrings.

Inductive rewrap_err :=
| RwIO | RwNoReplay
| RwMalformed (e : event_err)         (** a line of the record shape that does not read *)
| RwPriorShape                        (** a line of neither shape *)
| RwContent                           (** a payload that does not reproduce its content hash *)
| RwNotOurs                           (** another key's history *)
| RwModelID
| RwPayload
| RwScan                              (** a line too long *)
| RwEmpty
| RwNotGenesis | RwNoPublicKey
| RwSeq | RwRing
| RwSign (e : crypto_err)
| RwMarshal (e : event_err)
| RwRefused                           (** the new chain does not verify *)
| RwReplay.

Definition set_links (e : Event) (prev sig : bytes) : Event :=
  mkEvent (Seq e) prev (Timestamp e) (EType e) (Ring e) (Content e) (Payload e) sig (readAsPriorShape e) (sealed e) (closing e) (container e).

Definition set_payload (e : Event) (content payload : bytes) : Event :=
  mkEvent (Seq e) (Prev e) (Timestamp e) (EType e) (Ring e) content payload (Sig e) (readAsPriorShape e) (sealed e) (closing e) (container e).

(** ** Reading *)

Definition isRecordShape (line : bytes) : bool := HasPrefix line (js "{'entry':").

Definition prior_fields : list bytes :=
  [bs "seq"; bs "prev_hash"; bs "timestamp"; bs "type"; bs "author"; bs "ring"; bs "payload"; bs "content_hash"; bs "signature"; bs "sig_alg"; bs "sig_key_id"; bs "model_id"].

Record priorShape := mkPrior {
  ps_Seq : Z; ps_Timestamp : bytes; ps_Type : bytes; ps_Author : bytes; ps_Ring : Z;
  ps_Payload : bytes; ps_ContentHash : bytes; ps_SigKeyID : bytes; ps_ModelID : bytes
}.

(** The fields that are decoded and not used are still checked for their type. *)
Definition decode_prior (line : bytes) : option priorShape :=
  ms ← struct_members false true prior_fields line;
  seq ← field conv_uint64 0 (bs "seq") ms;
  _ ← field conv_string [] (bs "prev_hash") ms;
  ts ← field conv_string [] (bs "timestamp") ms;
  ty ← field conv_string [] (bs "type") ms;
  author ← field conv_string [] (bs "author") ms;
  ring ← field conv_int 0 (bs "ring") ms;
  hash ← field conv_string [] (bs "content_hash") ms;
  _ ← field conv_string [] (bs "signature") ms;
  _ ← field conv_string [] (bs "sig_alg") ms;
  key ← field conv_string [] (bs "sig_key_id") ms;
  model ← field conv_string [] (bs "model_id") ms;
  Some (mkPrior seq ts ty author ring (raw_field (bs "payload") ms) hash key model).

Section Rewrap.
Context `{P : Primitives} `{G : Gzip} `{HV : HeadVerifier}.

Definition readPriorShape (line fingerprint : bytes) : result rewrap_err Event :=
  match decode_prior line with
  | None => Err RwPriorShape
  | Some p =>
    if negb (beq (ContentHash (ps_Payload p)) (ps_ContentHash p)) then Err RwContent
    else if negb (beq (ps_SigKeyID p) fingerprint) || negb (beq (ps_Author p) fingerprint) then Err RwNotOurs
    else
      '(payloadModel, has) ← map_err (λ _, RwModelID) (payloadModelID (ps_Payload p));
      if (negb has && negb (beq (ps_ModelID p) [])) || (has && negb (beq payloadModel (ps_ModelID p))) then Err RwModelID
      else
        canonical ← map_err (λ _, RwPayload) (CanonicalizeV1 (ps_Payload p));
        Ok (mkEvent (ps_Seq p) [] (ps_Timestamp p) (ps_Type p) (ps_Ring p) (ContentHash canonical) canonical [] false false false [])
  end.

Definition mark_prior (e : Event) : Event :=
  mkEvent (Seq e) (Prev e) (Timestamp e) (EType e) (Ring e) (Content e) (Payload e) (Sig e) true (sealed e) (closing e) (container e).

(** One line: the record shape without its link and signature, or the earlier shape. *)
Definition read_line (line fingerprint : bytes) : result rewrap_err Event :=
  if isRecordShape line then
    match decodeEvent line with Err e => Err (RwMalformed e) | Ok evt => Ok (set_links evt [] []) end
  else evt ← readPriorShape line fingerprint; mret (mark_prior evt).

Definition rewrap_line (fingerprint : bytes) (events : list Event) (line : bytes) (offset size at_ : Z) : list Event * option rewrap_err :=
  match read_line line fingerprint with Err e => (events, Some e) | Ok evt => (events ++ [evt], None) end.

Definition readEventsForRewrap (data fingerprint : bytes) : result rewrap_err (list Event) :=
  match scanLines (rewrap_line fingerprint) data false [] with
  | (_, Some (ScanFn e)) => Err e
  | (_, Some _) => Err RwScan
  | (events, None) => Ok events
  end.

(** ** Checks *)

Definition footnoteReceipt (payload : bytes) : result rewrap_err bytes :=
  match payloadObject payload with
  | None => Err RwPayload
  | Some object =>
    match map_get (bs "receipt") object with
    | None => Ok payload
    | Some receipt =>
      let rest := filter (λ kv, kv.1 ≠ bs "receipt" ∧ kv.1 ≠ bs "receipt_before_rewrap") object in
      map_err (λ _, RwPayload) (CanonicalizeV1 (marshal_map ((bs "receipt_before_rewrap", receipt) :: rest)))
    end
  end.

(** The loop over witness heads. *)
Definition footnote_event (e : Event) : result rewrap_err Event :=
  if beq (EType e) EventSystemWitnessed then p ← footnoteReceipt (Payload e); mret (set_payload e (ContentHash p) p) else Ok e.

Fixpoint footnote_all (events : list Event) : result rewrap_err (list Event) :=
  match events with [] => Ok [] | e :: rest => e' ← footnote_event e; rest' ← footnote_all rest; mret (e' :: rest') end.

Definition recordShapeOwner (events : list Event) (kp : KeyPair) : result rewrap_err unit :=
  match events with
  | [] => Ok ()
  | e :: _ =>
    if readAsPriorShape e then Ok ()
    else if negb (beq (EType e) EventRing0Genesis) then Err RwNotGenesis
    else match (ms ← struct_members true false [bs "public_key"] (Payload e); field conv_string [] (bs "public_key") ms) with
    | None => Err RwNoPublicKey
    | Some key =>
      if beq key [] then Err RwNoPublicKey
      else match b64_decode key with
      | None => Err RwNoPublicKey
      | Some pub => if negb (beq pub (PublicKey kp)) then Err RwNotOurs else Ok ()
      end
    end
  end.

(** The loop that refuses a history out of order, with other payloads, or on wrong rings. *)
Fixpoint check_events (i : Z) (events : list Event) : result rewrap_err unit :=
  match events with
  | [] => Ok ()
  | evt :: rest =>
    if negb (Seq evt =? u64 (i + 1)) then Err RwSeq
    else if negb (beq (ContentHash (Payload evt)) (Content evt)) then Err RwContent
    else if negb (existsb (Z.eqb (Ring evt)) (CanonicalRings (EType evt))) then Err RwRing
    else check_events (i + 1) rest
  end.

(** ** Linking and signing again *)

Definition reissue_event (kp : KeyPair) (prev : bytes) (e : Event) : result rewrap_err Event :=
  let evt := set_links e prev [] in
  sig ← map_err RwSign (SignB64 kp (SignatureInputGold SigAlg (Fingerprint kp) (EntryHash evt)));
  mret (set_links e prev sig).

(** The signing loop: the records, the lines it writes, and what stopped it. *)
Fixpoint reissue_all (kp : KeyPair) (prev : bytes) (events : list Event) : list Event * bytes * option rewrap_err :=
  match events with
  | [] => ([], [], None)
  | e :: rest =>
    match reissue_event kp prev e with
    | Err err => ([], [], Some err)
    | Ok evt =>
      match MarshalJSON evt with
      | Err err => ([], [], Some (RwMarshal err))
      | Ok line => let '(evts, file, r) := reissue_all kp (EntryHash evt) rest in (evt :: evts, line ++ 10 :: file, r)
      end
    end
  end.

(** Everything before the temporary file: the history, footnoted and checked. *)
Definition checked_events (source : bytes) (kp : KeyPair) : result rewrap_err (list Event) :=
  events ← readEventsForRewrap source (Fingerprint kp);
  if (length events =? 0)%nat then Err RwEmpty
  else
    events ← footnote_all events;
    _ ← recordShapeOwner events kp;
    _ ← check_events 0 events;
    mret events.

(** ** Publication *)

Inductive rewrap_point :=
| PtLock           (** the directories' locks, opening, locking and rewinding the ledger *)
| PtTemp | PtWrite | PtSync | PtClose
| PtReserve        (** opening, creating or locking the output *)
| PtRelease        (** releasing output and source before publication *)
| PtReplace        (** the rename *)
| PtDurable        (** the sync of the directory after it *)
| PtRemoveTemp | PtUnreserve.

Section Publish.
Variable ok : rewrap_point → bool.
Variable dst tmp : bytes.

Definition drop_temp (d : dir) : dir := if ok PtRemoveTemp then delete tmp d else d.
Definition unreserve (created : bool) (d : dir) : dir := if created && ok PtUnreserve then delete dst d else d.

(** [lockRewrapOutput] and the publication; [same] says that the output is the
    source itself, which needs no reservation. *)
Definition publish_rewrap (same : bool) (d : dir) (file : bytes) (count : Z) : dir * Z * option rewrap_err :=
  let created := negb same && bool_decide (d !! dst = None) in
  let reserved := if created then <[dst := NFile []]> d else d in
  if negb (ok PtReserve) then (drop_temp (unreserve created reserved), 0, Some RwIO)
  else if negb (ok PtRelease) then (drop_temp (unreserve created reserved), 0, Some RwIO)
  else if negb (ok PtReplace) then (drop_temp (unreserve created reserved), 0, Some RwIO)
  else (<[dst := NFile file]> (delete tmp reserved), count, if ok PtDurable then None else Some RwIO).

(** [Rewrap] over the directory of the output: [source] is the ledger as read,
    [cut] what a failed write leaves in the temporary file, [replay] the
    caller's validator of the candidate. *)
Definition Rewrap (d : dir) (source : bytes) (same : bool) (kp : KeyPair) (cut : nat) (replay : option (dir → bytes → bool)) :
    dir * Z * option rewrap_err :=
  match replay with
  | None => (d, 0, Some RwNoReplay)
  | Some replay =>
    if negb (ok PtLock) then (d, 0, Some RwIO)
    else match checked_events source kp with
    | Err e => (d, 0, Some e)
    | Ok events =>
      if negb (ok PtTemp) then (d, 0, Some RwIO)
      else let '(evts, file, stopped) := reissue_all kp [] events in
      if negb (ok PtWrite) then (drop_temp (<[tmp := NFile (take cut file)]> d), 0, Some RwIO)
      else if stopped is Some e then (drop_temp (<[tmp := NFile file]> d), 0, Some e)
      else
        let d1 := <[tmp := NFile file]> d in
        if negb (ok PtSync) || negb (ok PtClose) then (drop_temp d1, 0, Some RwIO)
        else match VerifyChainVisiting (V := unit) (VE := Empty_set) d1 tmp (PublicKey kp) None None () with
        | Err _ => (drop_temp d1, 0, Some RwRefused)
        | Ok _ =>
          if negb (replay d1 tmp) then (drop_temp d1, 0, Some RwReplay)
          else publish_rewrap same d1 file (Z.of_nat (length evts))
        end
    end
  end.
End Publish.

(** [EarlierReceipts]: the witness heads whose receipt a rewrap would make a
    footnote, and whether the scan ended early. *)
Definition drop_cr (line : bytes) : bytes := if bool_decide (last line = Some 13) then take (length line - 1) line else line.
Definition scanned_line (tok : bytes) : bytes := drop_cr (if bool_decide (last tok = Some 10) then take (length tok - 1) tok else tok).
Fixpoint receipts_loop (toks : list bytes) (n : Z) : Z * bool :=
  match toks with
  | [] => (n, true)
  | tok :: rest =>
    if too_long tok then (n, false)
    else
      let line := scanned_line tok in
      receipts_loop rest (if Contains line (js "'type':'" ++ EventSystemWitnessed ++ js "'") && Contains line (js "'receipt':") then n + 1 else n)
  end.
Definition EarlierReceipts (data : bytes) : Z * bool := receipts_loop (tokens data) 0.
End Rewrap.
