(* ===== verification/RewrapFacts.v ===== *)
(** * What a rewrap does to a history

    The records a rewrap reads and accepts are issued again in the same order
    with the same content; the result verifies and reads back as them; and until
    the result is published the ledger that was there stays there. *)

From stdpp Require Import gmap.
From S2P Require Import Prelude Utf8 GoJson CanonicalJson CanonicalJsonFacts GoStruct Crypto Event Lines Stored Chain Container ContainerFacts Ledger LedgerFacts LedgerProps Rewrap.

(** The record as the new ledger's reader gives it. *)
Definition plain (e : Event) : Event :=
  mkEvent (Seq e) (Prev e) (Timestamp e) (EType e) (Ring e) (Content e) (Payload e) (Sig e) false false false [].

Section Facts.
Context `{P : Primitives} `{G : Gzip} `{HV : HeadVerifier} `{L : !PrimitiveLaws P} `{GL : !GzipLaws G} `{HL : !HeadVerifierLaws HV}.

(** [new] is [old] issued again: the same record in the same place, except that
    a witness head keeps its receipt as a footnote. *)
Record reissued (old new : Event) : Prop := {
  re_seq : Seq new = Seq old;
  re_timestamp : Timestamp new = Timestamp old;
  re_type : EType new = EType old;
  re_ring : Ring new = Ring old;
  re_payload : Payload new = Payload old ∨
    EType old = EventSystemWitnessed ∧ footnoteReceipt (Payload old) = Ok (Payload new);
}.

(** ** What the reader gives *)

(** What a record brings from the file, apart from its link and signature. *)
Record readable (e : Event) : Prop := {
  rd_ring : int64_ok (Ring e) = true;
  rd_payload : canonical (Payload e);
  rd_object : head (Payload e) = Some 123;
  rd_sealed : sealed e = false;
}.

Lemma readPriorShape_readable line fp e : readPriorShape line fp = Ok e → readable e.
Proof.
  unfold readPriorShape. destruct (decode_prior line) as [p|] eqn:Hp; [|done].
  destruct (negb _); [done|]. destruct (_ || _); [done|]. intros ([m has] & Hm & H)%bind_ok.
  destruct (_ || _); [done|]. apply bind_ok in H as (canon & Hc & [= <-]).
  destruct (payloadModelID _) as [pm|] eqn:Hpm; [|done]. destruct (CanonicalizeV1 _) as [out|] eqn:Hout; [|done].
  injection Hc as <-. unfold payloadModelID in Hpm. destruct (payloadObject _) as [obj|] eqn:Ho; [|done].
  apply payloadObject_opens in Ho. split; cbn; [|by eapply canonicalize_canonical|by eapply canonicalize_opens|done].
  unfold decode_prior in Hp. repeat (apply bind_Some in Hp as (? & ? & Hp)). injection Hp as <-. cbn. by eapply field_int_range.
Qed.

Lemma read_line_readable line fp e : read_line line fp = Ok e → readable e.
Proof.
  unfold read_line. destruct (isRecordShape line).
  - destruct (decodeEvent line) as [e0|] eqn:He; [|done]. intros [= <-].
    apply decodeEvent_decoded in He as [[] (_ & ? & _)]. by split.
  - intros (e0 & [? ? ? ?]%readPriorShape_readable & [= <-])%bind_ok. by split.
Qed.

Lemma length_tokens s : (length (tokens s) ≤ length s)%nat.
Proof. induction s as [|c s IH]; cbn; [done|]. destruct (c =? 10); [|destruct (tokens s)]; cbn in *; lia. Qed.

Lemma rewrap_scan fp toks : ∀ offset at_ st st', scan_loop (rewrap_line fp) toks offset at_ st = (st', None) →
  Forall readable st → Forall readable st' ∧ (length st' ≤ length st + length toks)%nat.
Proof.
  induction toks as [|tok toks IH]; intros offset at_ st st'; cbn [scan_loop length].
  - intros [= <-]. split; [done|lia].
  - destruct (too_long tok); [done|]. cbn zeta. destruct (beq _ _).
    + intros H Hst. destruct (IH _ _ _ _ H Hst). split; [done|lia].
    + unfold rewrap_line at 1. destruct (read_line _ fp) as [e|] eqn:He; [|done]. intros H Hst.
      apply IH in H as [H1 H2]; [split; [done|]; rewrite length_app in H2; cbn in H2; lia|].
      apply Forall_app. split; [done|]. constructor; [|constructor]. by eapply read_line_readable.
Qed.

Lemma read_readable data fp old : readEventsForRewrap data fp = Ok old →
  Forall readable old ∧ (length old ≤ length data)%nat.
Proof.
  unfold readEventsForRewrap, scanLines. destruct (scan_loop _ _ _ _ _) as [st r] eqn:E.
  destruct r as [[]|]; try done. intros [= ->]. destruct (rewrap_scan _ _ _ _ _ _ E) as [? H]; [constructor|].
  split; [done|]. cbn in H. pose proof (length_tokens data). lia.
Qed.

(** ** What the checks give *)

Lemma marshal_map_opens m : opens_object (marshal_map m).
Proof. done. Qed.

Lemma footnoteReceipt_object p q : canonical p → head p = Some 123 → footnoteReceipt p = Ok q → canonical q ∧ head q = Some 123.
Proof.
  intros Hc Hh. unfold footnoteReceipt. destruct (payloadObject p) as [obj|]; [|done].
  destruct (map_get _ obj) as [r|]; [|by intros [= <-]]. cbn zeta.
  destruct (CanonicalizeV1 _) as [out|] eqn:E; [|done]. intros [= <-].
  split; [by eapply canonicalize_canonical|]. eapply canonicalize_opens; [|exact E]. apply marshal_map_opens.
Qed.

Lemma footnote_event_ok e e' : footnote_event e = Ok e' → reissued e e' ∧ (readable e → readable e').
Proof.
  unfold footnote_event. destruct (beq (EType e) _) eqn:E.
  - b2p. intros (p & Hp & [= <-])%bind_ok. split; [split; cbn; try done; by right|].
    intros [Hr Hc Hh Hs]. destruct (footnoteReceipt_object _ _ Hc Hh Hp). by split.
  - intros [= <-]. split; [|done]. split; try done. by left.
Qed.

Lemma footnote_all_ok old new : footnote_all old = Ok new → Forall2 reissued old new ∧ (Forall readable old → Forall readable new).
Proof.
  revert new. induction old as [|e old IH]; intros new; cbn; [by intros [= <-]|].
  intros (e' & [He Hr]%footnote_event_ok & (rest & [Hl Hrl]%IH & [= <-])%bind_ok)%bind_ok.
  split; [by constructor|]. rewrite !Forall_cons. naive_solver.
Qed.

(** A record as the checks leave it, in place [i]. *)
Definition in_place (i : Z) (e : Event) : Prop :=
  Seq e = u64 (i + 1) ∧ ContentHash (Payload e) = Content e ∧ Ring e ∈ CanonicalRings (EType e).

Lemma check_events_ok evts : ∀ i, check_events i evts = Ok () → ∀ k e, evts !! k = Some e → in_place (i + Z.of_nat k) e.
Proof.
  induction evts as [|e evts IH]; intros i; cbn [check_events]; [done|].
  destruct (Z.eqb_spec (Seq e) (u64 (i + 1))); [|done]. destruct (beq _ _) eqn:Hb; [|done].
  destruct (existsb _ _) eqn:Hx; [|done]. cbn [negb]. intros H [|k] e'; cbn.
  - intros [= <-]. b2p. rewrite Z.add_0_r. split; [done|split; [done|]].
    apply existsb_exists in Hx as (r & Hin & ->%Z.eqb_eq). by apply list_elem_of_In.
  - intros Hk. specialize (IH _ H k e' Hk). by replace (i + Z.of_nat (S k)) with (i + 1 + Z.of_nat k) by lia.
Qed.

Lemma checked_events_ok source kp noted : checked_events source kp = Ok noted → ∃ old,
  readEventsForRewrap source (Fingerprint kp) = Ok old ∧ old ≠ [] ∧ Forall2 reissued old noted ∧ Forall readable noted ∧
  (length noted ≤ length source)%nat ∧ (∀ k e, noted !! k = Some e → in_place (Z.of_nat k) e).
Proof.
  unfold checked_events. intros (old & Ho & H)%bind_ok. exists old. destruct old as [|e0 old]; [done|].
  cbn [length Nat.eqb] in H. apply bind_ok in H as (evts & [Hf Hr]%footnote_all_ok & H). apply bind_ok in H as ([] & _ & H).
  apply bind_ok in H as ([] & Hc & [= <-]). destruct (read_readable _ _ _ Ho) as [Hro Hlen].
  rewrite (Forall2_length _ _ _ Hf) in Hlen. repeat (split; [by auto|]).
  intros k e Hk. by apply (check_events_ok _ _ Hc k e Hk).
Qed.

(** ** What the signing loop gives *)

Lemma reissue_event_ok kp prev e evt : reissue_event kp prev e = Ok evt → ∃ sig,
  evt = set_links e prev sig ∧ SignB64 kp (SignatureInputGold SigAlg (Fingerprint kp) (EntryHash evt)) = Ok sig.
Proof.
  unfold reissue_event. intros (sig & Hs & [= <-])%bind_ok. exists sig. split; [done|].
  by destruct (SignB64 _ _) in Hs |- *; simplify_eq/=.
Qed.

(** The new record [evt] of the checked record [e]: only link and signature differ. *)
Definition relinked (kp : KeyPair) (e evt : Event) : Prop := ∃ prev sig,
  evt = set_links e prev sig ∧ SignB64 kp (SignatureInputGold SigAlg (Fingerprint kp) (EntryHash evt)) = Ok sig.

Lemma reissue_all_ok kp noted : ∀ prev evts file i, reissue_all kp prev noted = (evts, file, None) →
  Forall readable noted → 0 ≤ i → i + Z.of_nat (length noted) < two64 → (∀ k e, noted !! k = Some e → in_place (i + Z.of_nat k) e) →
  Forall2 (relinked kp) noted evts ∧ linked i prev evts ∧ file = store evts.
Proof.
  induction noted as [|e noted IH]; intros prev evts file i; cbn [reissue_all]; [by intros [= <- <-]|].
  destruct (reissue_event kp prev e) as [evt|] eqn:He; [|done]. destruct (MarshalJSON evt) as [line|] eqn:Hm; [|done].
  destruct (reissue_all kp _ noted) as [[evts' file'] r] eqn:Hr. intros [= <- <- ->] [Hre Hrs]%Forall_cons Hi Hlen Hp.
  apply reissue_event_ok in He as (sig & -> & Hs).
  destruct (IH _ _ _ (i + 1) Hr Hrs) as (H1 & H2 & ->); [lia|cbn [length] in Hlen; lia| |].
  { intros k e' Hk. replace (i + 1 + Z.of_nat k) with (i + Z.of_nat (S k)) by lia. by apply Hp. }
  split; [constructor; [by eexists _, _|done]|]. destruct (Hp 0%nat e eq_refl) as (Hq & Hc & _).
  rewrite Z.add_0_r, u64_small in Hq by (cbn [length] in Hlen; lia). split; [by repeat split|].
  rewrite MarshalJSON_object in Hm by (apply rd_object in Hre; cbn; by destruct (Payload e)).
  injection Hm as <-. by rewrite store_cons.
Qed.

Lemma relinked_reissued kp old e evt : reissued old e → relinked kp e evt → reissued old (plain evt).
Proof. intros [] (prev & sig & -> & _). by split. Qed.

Lemma relinked_proven kp e evt : whole kp → readable e → relinked kp e evt → proven (PublicKey kp) false (plain evt).
Proof. intros Hk Hr (prev & sig & -> & Hs). by apply signed_proven. Qed.

Lemma plain_same evts : Forall2 same_record evts (plain <$> evts).
Proof. induction evts; constructor; [by repeat split|done]. Qed.

Lemma plain_store evts : store (plain <$> evts) = store evts.
Proof. unfold store. f_equal. induction evts as [|e l IH]; [done|]. cbn. by rewrite IH. Qed.

(** The records a rewrap writes for the history [old]. *)
Record renewal (kp : KeyPair) (old evts : list Event) : Prop := {
  rn_same : Forall2 reissued old evts;
  rn_linked : linked 0 [] evts;
  rn_proven : Forall (proven (PublicKey kp) false) evts;
}.

Lemma reissue_renewal kp source noted evts file : whole kp → Z.of_nat (length source) < two64 →
  checked_events source kp = Ok noted → reissue_all kp [] noted = (evts, file, None) → ∃ old,
  readEventsForRewrap source (Fingerprint kp) = Ok old ∧ old ≠ [] ∧ renewal kp old (plain <$> evts) ∧
  file = store (plain <$> evts) ∧ length evts = length old ∧ Forall2 (relinked kp) noted evts.
Proof.
  intros Hk Hl Hc Hr. destruct (checked_events_ok _ _ _ Hc) as (old & Ho & Hne & Hf & Hrd & Hlen & Hp).
  destruct (reissue_all_ok kp noted [] evts file 0 Hr Hrd) as (H1 & H2 & ->); [done|lia|done|].
  exists old. split; [done|]. split; [done|]. split.
  - split; [|by eapply linked_same; [apply plain_same|]|].
    + apply Forall2_fmap_r. eapply Forall2_trans; [|exact Hf|exact H1]. intros a b c. apply relinked_reissued.
    + apply Forall_fmap. eapply Forall2_Forall_r; [exact H1|]. eapply Forall_impl; [exact Hrd|].
      intros e He evt. by apply relinked_proven.
  - split; [by rewrite plain_store|]. split; [|done]. by rewrite <- (Forall2_length _ _ _ H1), (Forall2_length _ _ _ Hf).
Qed.

(** ** Publication *)

(** A name the rewrap did not own is as it was; what an unremoved reservation
    leaves at the output is an empty file where there was none. *)
Definition kept (dst tmp : bytes) (d d' : dir) : Prop :=
  ∀ name, name ≠ tmp → d' !! name = d !! name ∨ name = dst ∧ d !! dst = None ∧ d' !! dst = Some (NFile []).

Lemma kept_temp ok dst tmp d c : kept dst tmp d (drop_temp ok tmp (<[tmp := c]> d)).
Proof. intros name Hn. left. unfold drop_temp. destruct (ok _); by rewrite ?lookup_delete_ne, lookup_insert_ne by done. Qed.

Lemma kept_refl dst tmp d : kept dst tmp d d.
Proof. by left. Qed.

Lemma kept_unreserve ok dst tmp d c created : dst ≠ tmp → (created = true → d !! dst = None) →
  kept dst tmp d (drop_temp ok tmp (unreserve ok dst created (if created then <[dst := NFile []]> (<[tmp := c]> d) else <[tmp := c]> d))).
Proof.
  intros Hne Hc name Hn. unfold drop_temp, unreserve.
  assert (∀ x : dir, (if ok PtRemoveTemp then delete tmp x else x) !! name = x !! name) as Hd.
  { intros x. destruct (ok _); [by rewrite lookup_delete_ne|done]. }
  rewrite Hd. destruct created; cbn [andb]; [|left; by rewrite lookup_insert_ne].
  specialize (Hc eq_refl). destruct (ok PtUnreserve); destruct (decide (name = dst)) as [->|Hx].
  - left. by rewrite lookup_delete_eq.
  - left. by rewrite lookup_delete_ne, !lookup_insert_ne.
  - right. split; [done|]. split; [done|]. destruct (ok PtRemoveTemp); by rewrite ?lookup_delete_ne, lookup_insert_eq.
  - left. by rewrite !lookup_insert_ne.
Qed.

(** What publication makes of the directory. *)
Definition published (dst tmp file : bytes) (d : dir) : dir := <[dst := NFile file]> (delete tmp d).

Lemma publish_rewrap_cases ok dst tmp same d file n d' m r : dst ≠ tmp → d !! tmp = None →
  publish_rewrap ok dst tmp same (<[tmp := NFile file]> d) file n = (d', m, r) →
  (d' = published dst tmp file d ∧ m = n ∧ r = (if ok PtDurable then None else Some RwIO)) ∨ (m = 0 ∧ r = Some RwIO ∧ kept dst tmp d d').
Proof.
  intros Hne Ht. unfold publish_rewrap. cbn zeta. rewrite lookup_insert_ne by done.
  set (created := negb same && bool_decide (d !! dst = None)).
  assert (created = true → d !! dst = None) as Hc by (intros [_ ?%bool_decide_eq_true]%andb_true_iff; done).
  pose proof (kept_unreserve ok dst tmp d (NFile file) created Hne Hc) as Hk.
  destruct (ok PtReserve), (ok PtRelease), (ok PtReplace); cbn [negb]; intros [= <- <- <-]; try (right; done).
  left. split; [|done]. unfold published. destruct created.
  - rewrite delete_insert_ne, insert_insert by done. by rewrite decide_True, delete_insert_eq.
  - by rewrite delete_insert_eq.
Qed.

Lemma publish_rewrap_done dst tmp same d file n : dst ≠ tmp → d !! tmp = None →
  publish_rewrap (λ _, true) dst tmp same (<[tmp := NFile file]> d) file n = (published dst tmp file d, n, None).
Proof.
  intros Hne Ht. destruct (publish_rewrap _ _ _ _ _ _ _) as [[d' m] r] eqn:E.
  pose proof E as H. apply publish_rewrap_cases in H as [(-> & -> & ->)|(_ & -> & _)]; try done.
Qed.

(** ** The candidate verifies and reads back *)

Lemma linked_prev evts : ∀ i prev, linked i prev evts → wf_text prev → Forall (λ e, wf_text (Prev e)) evts.
Proof.
  induction evts as [|e evts IH]; intros i prev; [by constructor|]. intros (_ & <- & _ & H) Hp. constructor; [done|].
  eapply IH; [exact H|]. apply wf_text_hex, sha256_bytes.
Qed.

Lemma canonical_type t r : r ∈ CanonicalRings t → wf_text t.
Proof.
  unfold CanonicalRings. repeat (case_match; [b2p; subst; intros _; vm_compute; done|]).
  destruct (existsb (beq t) _) eqn:E.
  - intros _. apply existsb_exists in E as (u & Hu & E). b2p. subst u. cbn [In] in Hu.
    repeat (destruct Hu as [<-|Hu]; [vm_compute; done|]). done.
  - repeat (case_match; [b2p; subst; intros _; vm_compute; done|]). by intros ?%elem_of_nil.
Qed.

(** A history that can be read back once it is written: times of plain text,
    and lines that fit. *)
Record writable (kp : KeyPair) (noted : list Event) : Prop := {
  wr_signs : ∀ m, ∃ sig, SignB64 kp m = Ok sig;
  wr_times : Forall (λ e, wf_text (Timestamp e)) noted;
  wr_fits : Forall (λ e, Z.of_nat (length (stored_line e)) < MaxEventLineBytes) (reissue_all kp [] noted).1.1;
}.

Lemma relinked_wf kp e evt : relinked kp e evt → readable e → wf_text (Timestamp e) → wf_text (EType e) → 0 ≤ Seq e < two64 →
  wf_text (Prev evt) → Content e = ContentHash (Payload e) → wf_event (plain evt).
Proof.
  intros (prev & sig & -> & Hs) [] Ht Hy Hq Hp Hc. split; cbn in *; try done.
  - rewrite Hc. apply wf_text_hex, sha256_bytes.
  - by apply b64_text in Hs as [? _].
Qed.

Lemma reissue_all_signs kp noted : (∀ m, ∃ sig, SignB64 kp m = Ok sig) → Forall readable noted →
  ∀ prev, (reissue_all kp prev noted).2 = None.
Proof.
  intros Hs. induction 1 as [|e noted He _ IH]; intros prev; [done|]. cbn [reissue_all]. unfold reissue_event.
  destruct (Hs (SignatureInputGold SigAlg (Fingerprint kp) (EntryHash (set_links e prev [])))) as [sig ->]. lazy beta iota zeta delta [map_err mbind result_bind mret result_ret].
  rewrite MarshalJSON_object by (apply rd_object in He; cbn; by destruct (Payload e)).
  specialize (IH (EntryHash (set_links e prev sig))). by destruct (reissue_all _ _ _) as [[? ?] ?].
Qed.

Lemma reissued_storable kp source noted evts file : Z.of_nat (length source) < two64 → checked_events source kp = Ok noted →
  reissue_all kp [] noted = (evts, file, None) → writable kp noted → Forall storable (plain <$> evts).
Proof.
  intros Hl Hc Hr [_ Ht Hf]. rewrite Hr in Hf. cbn in Hf.
  destruct (checked_events_ok _ _ _ Hc) as (old & _ & _ & _ & Hrd & Hlen & Hp).
  destruct (reissue_all_ok kp noted [] evts file 0 Hr Hrd) as (H1 & H2 & _); [done|lia|done|].
  apply linked_prev in H2; [|done]. apply Forall_fmap, Forall_lookup. intros k evt Hk.
  destruct (Forall2_lookup_r _ _ _ _ _ H1 Hk) as (e & He & Hre). rewrite Forall_lookup in Hrd, Ht, Hf, H2.
  destruct (Hp k e He) as (Hq & Hcn & Hring). split; [|split; [done|exact (Hf k evt Hk)]].
  eapply relinked_wf; eauto using canonical_type. rewrite Hq. apply u64_range.
Qed.

Lemma record_source_file d path data : read_file d path = Some data → record_source d path None = record_source d path (Some data).
Proof. intros H. unfold record_source, streamLines. by rewrite H. Qed.

Lemma candidate_verifies kp d path evts : sealed_ok d [] → read_file d path = Some (store evts) → Forall storable evts →
  linked 0 [] evts → Forall (proven (PublicKey kp) false) evts → Z.of_nat (length evts) < two64 →
  ∃ x, VerifyChainVisiting (V := unit) (VE := Empty_set) d path (PublicKey kp) None None () = Ok x.
Proof.
  intros Hs Hf Hst Hl Hp Hn. unfold VerifyChainVisiting. rewrite (record_source_file _ _ _ Hf), record_source_tail by done.
  destruct (verifyChain_passes (S := stream_err Empty_set) (V := unit) (VE := Empty_set) (PublicKey kp) None (λ _ _, eq_refl)
    (map (mark_container path) evts) tt) as (s & Hx & _).
  { by rewrite length_map. }
  { by eapply linked_same; [apply same_container|]. }
  { by apply proven_container. }
  by eexists.
Qed.


(** C13. A rewrap of a sound history succeeds and keeps it: when the records pass
    the checks, the key signs, times are plain text and lines fit, and no
    sealed container stands beside the output, then the candidate does verify,
    the caller's replay is asked about it, and on its word the output holds
    every record again, in order, newly linked and signed, and reads back as
    that. *)
Theorem rewrap_keeps_history dst tmp d source same kp cut replay noted :
  whole kp → Z.of_nat (length source) < two64 → dst ≠ tmp → d !! tmp = None → listSegments d = Ok [] →
  parseSegmentName dst = None → parseSegmentName tmp = None →
  checked_events source kp = Ok noted → writable kp noted →
  ∃ old evts, readEventsForRewrap source (Fingerprint kp) = Ok old ∧ renewal kp old evts ∧
    let candidate := <[tmp := NFile (store evts)]> d in
    Rewrap (λ _, true) dst tmp d source same kp cut (Some replay) =
      (if replay candidate tmp then (published dst tmp (store evts) d, Z.of_nat (length old), None)
       else (d, 0, Some RwReplay)) ∧
    reads_as (published dst tmp (store evts) d) dst evts.
Proof.
  intros Hk Hl Hne Ht Hseg Hpd Hpt Hc Hw. destruct (checked_events_ok _ _ _ Hc) as (_ & _ & _ & _ & Hrd & Hlen & _).
  pose proof (reissue_all_signs kp noted (wr_signs _ _ Hw) Hrd []) as Hs.
  destruct (reissue_all kp [] noted) as [[evts file] r] eqn:Hr. cbn in Hs. subst r.
  pose proof (reissued_storable _ _ _ _ _ Hl Hc Hr Hw) as Hst.
  destruct (reissue_renewal _ _ _ _ _ Hk Hl Hc Hr) as (old & Ho & Hon & Hrn & -> & Hn & H2).
  exists old, (plain <$> evts). split; [done|]. split; [done|]. cbn zeta.
  assert (sealed_ok d []) as Hso by (split; [done|constructor]).
  split.
  - unfold Rewrap. cbn [negb]. rewrite Hc, Hr. cbn [negb orb].
    destruct (candidate_verifies kp (<[tmp := NFile (store (plain <$> evts))]> d) tmp (plain <$> evts)) as [x ->];
      [by apply sealed_ok_insert|by apply read_file_insert|done|apply Hrn|apply Hrn| |].
    { rewrite length_fmap, <- (Forall2_length _ _ _ H2). lia. }
    destruct (replay _ _) eqn:Hrep; cbn [negb].
    + rewrite <- Hn. by apply publish_rewrap_done.
    + unfold drop_temp. by rewrite delete_insert_id.
  - apply (reads_stored _ _ []); [|apply read_file_insert|done|apply Hrn].
    apply sealed_ok_insert; [done|]. by apply sealed_ok_delete.
Qed.

End Facts.

(** ** A concrete ledger *)

Lemma Forall_test {A} (Q : A → Prop) (f : A → bool) l : (∀ x, f x = true → Q x) → forallb f l = true → Forall Q l.
Proof. intros H. rewrite forallb_forall. intros Hl. apply Forall_forall. intros x Hx%list_elem_of_In. auto. Qed.

Definition genesis_payload : bytes := js "{'public_key':'" ++ b64_encode [9; 1] ++ js "'}".
Definition rewrap_genesis : Event := sample_next 1 [] EventRing0Genesis genesis_payload.
Definition rewrap_head : Event := sample_next 2 (EntryHash rewrap_genesis) EventSystemWitnessed (js "{'n':2,'receipt':'r'}").
Definition rewrap_source : bytes := store [rewrap_genesis; rewrap_head].
Definition rewrap_dst : bytes := bs "ledger.jsonl".
Definition rewrap_tmp : bytes := bs ".ledger.jsonl.rewrap-1".
Definition rewrap_dir : dir := {[ rewrap_dst := NFile rewrap_source ]}.
Definition rewrap_noted : list Event :=
  match checked_events rewrap_source toy_pair with Ok evts => evts | Err _ => [] end.

Lemma rewrap_checked : checked_events rewrap_source toy_pair = Ok rewrap_noted.
Proof. vm_compute. reflexivity. Qed.

Lemma rewrap_writable : writable toy_pair rewrap_noted.
Proof.
  split.
  - intros m. by eexists.
  - apply Forall_test with (f := λ e, Valid (Timestamp e) && negb (existsb (Z.eqb 0) (Timestamp e))); [|vm_compute; reflexivity].
    intros e [? ?%negb_true_iff]%andb_true_iff. by split.
  - apply Forall_test with (f := λ e, Z.of_nat (length (stored_line e)) <? MaxEventLineBytes); [|vm_compute; reflexivity].
    intros e. apply Z.ltb_lt.
Qed.


Lemma rewrap_keeps_history_witness :
  ∃ old evts, renewal toy_pair old evts ∧
    Rewrap (G := plain_gzip) (HV := quiet_heads) (λ _, true) rewrap_dst rewrap_tmp rewrap_dir rewrap_source true toy_pair 0 (Some (λ _ _, true)) =
      (published rewrap_dst rewrap_tmp (store evts) rewrap_dir, Z.of_nat (length old), None).
Proof.
  destruct (rewrap_keeps_history (G := plain_gzip) (GL := plain_gzip_laws) (HV := quiet_heads) (HL := quiet_heads_laws) rewrap_dst rewrap_tmp rewrap_dir rewrap_source true toy_pair 0
    (λ _ _, true) rewrap_noted toy_pair_whole) as (old & evts & _ & H1 & H2 & _).
  - vm_compute. reflexivity.
  - intros H. vm_compute in H. discriminate.
  - vm_compute. reflexivity.
  - vm_compute. reflexivity.
  - vm_compute. reflexivity.
  - vm_compute. reflexivity.
  - exact rewrap_checked.
  - exact rewrap_writable.
  - exists old, evts. split; [exact H1|exact H2].
Defined.

(** A witness head whose payload was altered after it was hashed: its content
    hash names another payload. *)
Definition altered_head : Event :=
  set_payload rewrap_head (Content rewrap_head) (js "{'n':3,'receipt':'r'}").
Definition altered_source : bytes := store [rewrap_genesis; altered_head].

(** The check that refuses a payload that does not reproduce its content hash
    does not see it: the hash of a witness head is computed again before, even
    when there is no receipt to move, so the altered record is signed as it
    stands. The same alteration of a record of another type is refused. *)
Example rewrap_repairs_witnessed :
  ContentHash (Payload altered_head) ≠ Content altered_head ∧
  (Rewrap (G := plain_gzip) (HV := quiet_heads) (λ _, true) rewrap_dst rewrap_tmp ∅ altered_source true toy_pair 0 (Some (λ _ _, true))).2 = None ∧
  (∃ evts, checked_events altered_source toy_pair = Ok evts ∧ Forall (λ e, ContentHash (Payload e) = Content e) evts) ∧
  checked_events (store [set_payload rewrap_genesis (Content rewrap_genesis) (js "{'public_key':'CQE=','x':1}")]) toy_pair = Err RwContent.
Proof.
  split; [vm_compute; discriminate|]. split; [vm_compute; reflexivity|]. split; [|vm_compute; reflexivity].
  exists (match checked_events altered_source toy_pair with Ok evts => evts | Err _ => [] end).
  split; [vm_compute; reflexivity|].
  apply Forall_test with (f := λ e, beq (ContentHash (Payload e)) (Content e)); [|vm_compute; reflexivity].
  intros e H. by b2p.
Qed.
