(* ===== verification/Tables.v ===== *)
(** * internal/store: the tables the record is materialized into

    The derived tables of schema.sql as finite maps by primary key, with their
    CHECK, UNIQUE and REFERENCES constraints; the JSON and number decoding the
    materializers share; and the statements they run more than once.  A
    statement either applies or violates a constraint; [deferred] says that
    foreign keys are checked at commit, as during a replay. *)

From stdpp Require Import gmap.
From Stdlib Require Import SpecFloat.
From S2P Require Import Prelude Utf8 GoJson CanonicalJson GoStruct Event Lines GoStrings.

(** ** Decoding *)

(** A decimal literal as [±m * 10^e]. *)
Definition float_of (neg : bool) (m e : Z) : spec_float :=
  if m =? 0 then S754_zero neg
  else if 0 <=? e then binary_normalize 53 1024 ((if neg then -1 else 1) * (m * 10 ^ e)) 0 neg
  else let '(q, e', l) := SFdiv_core_binary 53 1024 m 0 (10 ^ (- e)) 0 in binary_round_aux 53 1024 neg q e' l.

(** [1.0], with the mantissa of a normal number. *)
Definition float_one : spec_float := S754_finite false 4503599627370496 (-52).

Fixpoint take_digits (s : bytes) : bytes * bytes :=
  match s with
  | c :: t => if is_digit c then let '(d, r) := take_digits t in (c :: d, r) else ([], s)
  | [] => ([], [])
  end.

Definition digits_value (d : bytes) : Z := foldl (λ n c, 10 * n + (c - 48)) 0 d.

Definition exponent_of (s : bytes) : option Z :=
  match s with
  | [] => Some 0
  | c :: t =>
    if (c =? 101) || (c =? 69) then
      match t with
      | 45 :: d => Some (- digits_value d)
      | 43 :: d => Some (digits_value d)
      | d => Some (digits_value d)
      end
    else None
  end.

(** [strconv.ParseFloat(s, 64)] on a JSON number: correctly rounded, an error
    past the largest finite value. *)
Definition ParseFloat (s : bytes) : option spec_float :=
  let '(neg, s) := match s with 45 :: t => (true, t) | _ => (false, s) end in
  let '(whole, s) := take_digits s in
  if (length whole =? 0)%nat then None
  else
    let '(frac, s) := match s with 46 :: t => take_digits t | _ => ([], s) end in
    e ← exponent_of s;
    let f := float_of neg (digits_value (whole ++ frac)) (e - Z.of_nat (length frac)) in
    match f with S754_infinity _ | S754_nan => None | _ => Some f end.

Definition conv_float64 (raw : bytes) : option spec_float := ParseFloat raw.

(** A field of pointer type: [null] makes it nil, a value is decoded over what
    it points to. *)
Definition ptr_field {A} (conv : A → bytes → option A) (zero : A) (name : bytes) (ms : list (bytes * bytes)) : option (option A) :=
  foldl (λ acc raw, cur ← acc; if beq raw null_text then Some None else Some <$> conv (default zero cur) raw)
        (Some None) (occurrences name ms).

(** A value of its own, whatever was there. *)
Definition fresh {A} (conv : bytes → option A) (_ : A) (raw : bytes) : option A := conv raw.

(** An element of a string slice: [null] leaves the slot as it is. *)
Definition elem_of_conv {A} (conv : bytes → option A) (cur : A) (raw : bytes) : option A :=
  if beq raw null_text then Some cur else conv raw.

(** [json.Unmarshal] into a struct with these fields. *)
Definition unmarshal (names : list bytes) (payload : bytes) : option (list (bytes * bytes)) := struct_members true false names payload.

Example float_one_is_one : ParseFloat (bs "1") = Some float_one ∧ ParseFloat (bs "100e-2") = Some float_one.
Proof. split; vm_compute; reflexivity. Qed.

(** ** Rows *)

Record ledger_row := mkLedgerRow { lr_prev : bytes; lr_ts : bytes; lr_type : bytes; lr_ring : Z; lr_payload : bytes; lr_content : bytes }.

Record belief_row := mkBelief {
  b_statement : bytes; b_ring : Z; b_node_type : option bytes; b_confidence : spec_float; b_evidence_count : Z;
  b_archived : bool; b_confirmed_at_ticks : Z; b_first_seq : Z; b_last_seq : Z; b_superseded_by : option bytes
}.

Record synthesis_row := mkSynthesis {
  sy_text : bytes; sy_refs : bytes; sy_changes : bytes; sy_thread : bytes; sy_superseded_by : option bytes; sy_seq : Z; sy_at : bytes
}.

Record experience_row := mkExperience {
  x_content : bytes; x_category : option bytes; x_raw : bool; x_unmetabolized : bool; x_provenance : bytes; x_seq : Z; x_at : bytes
}.

Record intention_row := mkIntention {
  i_statement : bytes; i_state : bytes; i_why : option bytes; i_outcome : option bytes; i_archived : bool; i_created_seq : Z; i_updated_seq : option Z
}.

Record commitment_row := mkCommitment {
  k_description : bytes; k_counterpart : bytes; k_state : bytes; k_result : option bytes; k_repair_state : option bytes;
  k_created_seq : Z; k_updated_seq : option Z
}.

Record edge_row := mkEdge {
  e_from : bytes; e_to : bytes; e_type : bytes; e_strength : spec_float; e_context : option bytes; e_archived : bool; e_seq : Z
}.

Record relationship_row := mkRelationship {
  r_name : bytes; r_role : bytes; r_trust : bytes; r_autonomy : bytes; r_type : bytes; r_charter : bytes; r_approval : bytes;
  r_superseded_by : option bytes; r_created_seq : Z; r_updated_seq : option Z
}.

Record name_row := mkName { n_id : bytes; n_name : bytes; n_zone : bytes; n_seq : Z; n_at : bytes }.
Record receipt_row := mkReceipt { rc_anchored : Z; rc_json : bytes; rc_at : bytes }.
Record epoch_row := mkEpoch { ep_root : bytes; ep_epoch : Z; ep_sha : bytes; ep_at : bytes }.
Record lifetime_row := mkLifetime { lt_birth : bytes; lt_ticks : Z; lt_last : bytes }.

(** The derived tables; the lived clock, which is seeded here and never cleared;
    and the sequences runtime tables (outbox, work_sessions) refer to. *)
Record DB := mkDB {
  t_ledger : gmap Z ledger_row;
  t_beliefs : gmap bytes belief_row;
  t_synthesis : gmap bytes synthesis_row;
  t_experiences : gmap bytes experience_row;
  t_intentions : gmap bytes intention_row;
  t_commitments : gmap bytes commitment_row;
  t_edges : gmap bytes edge_row;
  t_relationships : gmap bytes relationship_row;
  t_name : option name_row;
  t_receipts : list receipt_row;
  t_epochs : list epoch_row;
  t_lifetime : option lifetime_row;
  t_refs : list Z
}.

Definition set_ledger (f : gmap Z ledger_row → gmap Z ledger_row) (d : DB) : DB :=
  mkDB (f (t_ledger d)) (t_beliefs d) (t_synthesis d) (t_experiences d) (t_intentions d) (t_commitments d) (t_edges d) (t_relationships d) (t_name d) (t_receipts d) (t_epochs d) (t_lifetime d) (t_refs d).
Definition set_beliefs (f : gmap bytes belief_row → gmap bytes belief_row) (d : DB) : DB :=
  mkDB (t_ledger d) (f (t_beliefs d)) (t_synthesis d) (t_experiences d) (t_intentions d) (t_commitments d) (t_edges d) (t_relationships d) (t_name d) (t_receipts d) (t_epochs d) (t_lifetime d) (t_refs d).
Definition set_synthesis (f : gmap bytes synthesis_row → gmap bytes synthesis_row) (d : DB) : DB :=
  mkDB (t_ledger d) (t_beliefs d) (f (t_synthesis d)) (t_experiences d) (t_intentions d) (t_commitments d) (t_edges d) (t_relationships d) (t_name d) (t_receipts d) (t_epochs d) (t_lifetime d) (t_refs d).
Definition set_experiences (f : gmap bytes experience_row → gmap bytes experience_row) (d : DB) : DB :=
  mkDB (t_ledger d) (t_beliefs d) (t_synthesis d) (f (t_experiences d)) (t_intentions d) (t_commitments d) (t_edges d) (t_relationships d) (t_name d) (t_receipts d) (t_epochs d) (t_lifetime d) (t_refs d).
Definition set_intentions (f : gmap bytes intention_row → gmap bytes intention_row) (d : DB) : DB :=
  mkDB (t_ledger d) (t_beliefs d) (t_synthesis d) (t_experiences d) (f (t_intentions d)) (t_commitments d) (t_edges d) (t_relationships d) (t_name d) (t_receipts d) (t_epochs d) (t_lifetime d) (t_refs d).
Definition set_commitments (f : gmap bytes commitment_row → gmap bytes commitment_row) (d : DB) : DB :=
  mkDB (t_ledger d) (t_beliefs d) (t_synthesis d) (t_experiences d) (t_intentions d) (f (t_commitments d)) (t_edges d) (t_relationships d) (t_name d) (t_receipts d) (t_epochs d) (t_lifetime d) (t_refs d).
Definition set_edges (f : gmap bytes edge_row → gmap bytes edge_row) (d : DB) : DB :=
  mkDB (t_ledger d) (t_beliefs d) (t_synthesis d) (t_experiences d) (t_intentions d) (t_commitments d) (f (t_edges d)) (t_relationships d) (t_name d) (t_receipts d) (t_epochs d) (t_lifetime d) (t_refs d).
Definition set_relationships (f : gmap bytes relationship_row → gmap bytes relationship_row) (d : DB) : DB :=
  mkDB (t_ledger d) (t_beliefs d) (t_synthesis d) (t_experiences d) (t_intentions d) (t_commitments d) (t_edges d) (f (t_relationships d)) (t_name d) (t_receipts d) (t_epochs d) (t_lifetime d) (t_refs d).
Definition set_name (n : option name_row) (d : DB) : DB :=
  mkDB (t_ledger d) (t_beliefs d) (t_synthesis d) (t_experiences d) (t_intentions d) (t_commitments d) (t_edges d) (t_relationships d) n (t_receipts d) (t_epochs d) (t_lifetime d) (t_refs d).
Definition set_receipts (f : list receipt_row → list receipt_row) (d : DB) : DB :=
  mkDB (t_ledger d) (t_beliefs d) (t_synthesis d) (t_experiences d) (t_intentions d) (t_commitments d) (t_edges d) (t_relationships d) (t_name d) (f (t_receipts d)) (t_epochs d) (t_lifetime d) (t_refs d).
Definition set_epochs (f : list epoch_row → list epoch_row) (d : DB) : DB :=
  mkDB (t_ledger d) (t_beliefs d) (t_synthesis d) (t_experiences d) (t_intentions d) (t_commitments d) (t_edges d) (t_relationships d) (t_name d) (t_receipts d) (f (t_epochs d)) (t_lifetime d) (t_refs d).
Definition set_lifetime (l : option lifetime_row) (d : DB) : DB :=
  mkDB (t_ledger d) (t_beliefs d) (t_synthesis d) (t_experiences d) (t_intentions d) (t_commitments d) (t_edges d) (t_relationships d) (t_name d) (t_receipts d) (t_epochs d) l (t_refs d).

(** ** Column setters of the statements *)

Definition belief_said (statement : bytes) (confidence : spec_float) (seq : Z) (b : belief_row) : belief_row :=
  mkBelief statement (b_ring b) (b_node_type b) confidence (b_evidence_count b) (b_archived b) (b_confirmed_at_ticks b) (b_first_seq b) seq (b_superseded_by b).
Definition belief_placed (ring seq : Z) (b : belief_row) : belief_row :=
  mkBelief (b_statement b) ring (b_node_type b) (b_confidence b) (b_evidence_count b) (b_archived b) (b_confirmed_at_ticks b) (b_first_seq b) seq (b_superseded_by b).
Definition belief_archived (seq : Z) (b : belief_row) : belief_row :=
  mkBelief (b_statement b) (b_ring b) (b_node_type b) (b_confidence b) (b_evidence_count b) true (b_confirmed_at_ticks b) (b_first_seq b) seq (b_superseded_by b).
Definition belief_superseded (by_ : bytes) (seq : Z) (b : belief_row) : belief_row :=
  mkBelief (b_statement b) (b_ring b) (b_node_type b) (b_confidence b) (b_evidence_count b) (b_archived b) (b_confirmed_at_ticks b) (b_first_seq b) seq (Some by_).
Definition belief_counted (n : Z) (b : belief_row) : belief_row :=
  mkBelief (b_statement b) (b_ring b) (b_node_type b) (b_confidence b) n (b_archived b) (b_confirmed_at_ticks b) (b_first_seq b) (b_last_seq b) (b_superseded_by b).
Definition belief_touched (seq : Z) (b : belief_row) : belief_row :=
  mkBelief (b_statement b) (b_ring b) (b_node_type b) (b_confidence b) (b_evidence_count b) (b_archived b) (b_confirmed_at_ticks b) (b_first_seq b) seq (b_superseded_by b).
Definition belief_confirmed (ticks : Z) (b : belief_row) : belief_row :=
  mkBelief (b_statement b) (b_ring b) (b_node_type b) (b_confidence b) (b_evidence_count b) (b_archived b) ticks (b_first_seq b) (b_last_seq b) (b_superseded_by b).
Definition edge_archived (e : edge_row) : edge_row :=
  mkEdge (e_from e) (e_to e) (e_type e) (e_strength e) (e_context e) true (e_seq e).
Definition experience_consumed (x : experience_row) : experience_row :=
  mkExperience (x_content x) (x_category x) false (x_unmetabolized x) (x_provenance x) (x_seq x) (x_at x).
Definition relationship_superseded (by_ : bytes) (r : relationship_row) : relationship_row :=
  mkRelationship (r_name r) (r_role r) (r_trust r) (r_autonomy r) (r_type r) (r_charter r) (r_approval r) (Some by_) (r_created_seq r) (r_updated_seq r).
Definition synthesis_superseded (by_ : bytes) (s : synthesis_row) : synthesis_row :=
  mkSynthesis (sy_text s) (sy_refs s) (sy_changes s) (sy_thread s) (Some by_) (sy_seq s) (sy_at s).

(** ** Errors *)

Inductive store_err :=
| StParse                                      (** the payload does not decode *)
| StConstraint                                 (** SQLITE_CONSTRAINT *)
| StBind                                       (** a number too large for the column *)
| StMissing (event kind id : bytes)            (** [MissingEventTargetError] *)
| StUnknownType (t : bytes)                    (** [UnknownEventTypeError] *)
| StRule (why : bytes)                         (** a rule of the projection *)
| StSelfModel (requirement : bytes)            (** [SelfModelRefusal] *)
| StUnchanged                                  (** [ErrSelfModelUnchanged] *)
| StSourceHeld | StRing2Text | StRetired | StUnapproved   (** the named refusals of admission *)
| StCitation | StDreamedThrough
| StTransaction                                (** the transaction could not begin or commit *)
| StRefused (seq : Z) (e : store_err)          (** [ReplayRefusedError] *)
| StBoundary.                                  (** [ReplayBoundaryError] *)

(** SQLite's [json_valid], code of a library. *)
Class Sqlite := { json_valid : bytes → bool }.

(** ** Constraints *)

Definition in_set (s : bytes) (l : list bytes) : bool := existsb (beq s) l.
Definition unit_interval (f : spec_float) : bool := SFleb (S754_zero false) f && SFleb f (float_one).

Example unit_interval_ends : unit_interval float_one = true ∧ unit_interval (S754_zero true) = true ∧
  (unit_interval <$> ParseFloat (bs "1.5")) = Some false ∧ (unit_interval <$> ParseFloat (bs "-0.25")) = Some false.
Proof. repeat split; vm_compute; reflexivity. Qed.

Definition node_types : list bytes := [bs "value"; bs "working_style"].
Definition evidence_types : list bytes := [bs "SUPPORTS"; bs "REINFORCED_BY"; bs "DERIVED_FROM"].
Definition edge_types : list bytes :=
  [bs "DERIVED_FROM"; bs "SUPPORTS"; bs "CONTRADICTS"; bs "SUPERSEDES"; bs "REINFORCED_BY"; bs "SHAPED_BY"; bs "INTERPRETS"].
Definition experience_categories : list bytes := [bs "observation"; bs "reflection"; bs "work"; bs "learning"; bs "communication"].
Definition provenances : list bytes := [bs "self"; bs "operator"; bs "external"; bs "system"; bs "dream"].

Definition check_belief (b : belief_row) : bool :=
  (1 <=? b_ring b) && (b_ring b <=? 3) && unit_interval (b_confidence b) &&
  match b_node_type b with None => true | Some t => in_set t node_types end.
Definition check_edge (e : edge_row) : bool := in_set (e_type e) edge_types && unit_interval (e_strength e).
Definition check_experience (x : experience_row) : bool :=
  in_set (x_provenance x) provenances && match x_category x with None => true | Some c => in_set c experience_categories end.
Definition check_relationship (r : relationship_row) : bool :=
  in_set (r_role r) [bs "operator"; bs "peer"] && in_set (r_trust r) [bs "building"; bs "established"; bs "deep"] &&
  in_set (r_autonomy r) [bs "supervised"; bs "trusted"; bs "autonomous"] &&
  in_set (r_type r) [bs "founding_operator"; bs "operator"; bs "peer"; bs "other"].

Definition is_evidence (e : edge_row) : bool := in_set (e_type e) evidence_types.
Definition same_triple (e e' : edge_row) : bool := beq (e_from e) (e_from e') && beq (e_to e) (e_to e') && beq (e_type e) (e_type e').

(** [SELECT 1 FROM table WHERE id = ?]. *)
Definition has {V} (m : gmap bytes V) (id : bytes) : bool := bool_decide (is_Some (m !! id)).
Definition has_seq (d : DB) (seq : Z) : bool := bool_decide (is_Some (t_ledger d !! seq)).

(** [UNIQUE(from_id, to_id, edge_type)]. *)
Definition has_triple (d : DB) (e : edge_row) : bool :=
  negb (bool_decide (map_Forall (λ _ e', same_triple e e' = false) (t_edges d))).

Definition active (b : belief_row) : bool := negb (b_archived b) && bool_decide (b_superseded_by b = None).

(** The active evidence edges that point at [target]. *)
Definition evidence_for (target : bytes) (e : edge_row) : bool := negb (e_archived e) && is_evidence e && beq (e_to e) target.
Definition evidence_count (d : DB) (target : bytes) : Z :=
  Z.of_nat (size (filter (λ kv, evidence_for target kv.2 = true) (t_edges d))).

(** A foreign key: checked by the statement unless deferred. *)
Definition fk (deferred holds : bool) : result store_err unit := if deferred || holds then Ok () else Err StConstraint.

Definition has_opt {V} (m : gmap bytes V) (id : option bytes) : bool := match id with None => true | Some id => has m id end.
Definition has_seq_opt (d : DB) (seq : option Z) : bool := match seq with None => true | Some s => has_seq d s end.

(** The foreign keys of a row. *)
Definition belief_keys (d : DB) (b : belief_row) : bool :=
  has_seq d (b_first_seq b) && has_seq d (b_last_seq b) && has_opt (t_beliefs d) (b_superseded_by b).
Definition synthesis_keys (d : DB) (s : synthesis_row) : bool := has_seq d (sy_seq s) && has_opt (t_synthesis d) (sy_superseded_by s).
Definition experience_keys (d : DB) (x : experience_row) : bool := has_seq d (x_seq x).
Definition intention_keys (d : DB) (i : intention_row) : bool := has_seq d (i_created_seq i) && has_seq_opt d (i_updated_seq i).
Definition commitment_keys (d : DB) (k : commitment_row) : bool :=
  has_seq d (k_created_seq k) && has_seq_opt d (k_updated_seq k) && has (t_relationships d) (k_counterpart k).
Definition edge_keys (d : DB) (e : edge_row) : bool := has_seq d (e_seq e).
Definition relationship_keys (d : DB) (r : relationship_row) : bool :=
  has_seq d (r_created_seq r) && has_seq_opt d (r_updated_seq r) && has_opt (t_relationships d) (r_superseded_by r).

(** Every foreign key of the database. *)
Record keys_hold (d : DB) : Prop := {
  fk_beliefs : map_Forall (λ _ b, belief_keys d b = true) (t_beliefs d);
  fk_synthesis : map_Forall (λ _ s, synthesis_keys d s = true) (t_synthesis d);
  fk_experiences : map_Forall (λ _ x, experience_keys d x = true) (t_experiences d);
  fk_intentions : map_Forall (λ _ i, intention_keys d i = true) (t_intentions d);
  fk_commitments : map_Forall (λ _ k, commitment_keys d k = true) (t_commitments d);
  fk_edges : map_Forall (λ _ e, edge_keys d e = true) (t_edges d);
  fk_relationships : map_Forall (λ _ r, relationship_keys d r = true) (t_relationships d);
  fk_name : has_seq_opt d (n_seq <$> t_name d) = true;
  fk_refs : Forall (λ s, has_seq d s = true) (t_refs d);
}.

#[export] Instance keys_hold_dec d : Decision (keys_hold d).
Proof.
  destruct (decide (map_Forall (λ _ b, belief_keys d b = true) (t_beliefs d))); [|right; by intros []].
  destruct (decide (map_Forall (λ _ s, synthesis_keys d s = true) (t_synthesis d))); [|right; by intros []].
  destruct (decide (map_Forall (λ _ x, experience_keys d x = true) (t_experiences d))); [|right; by intros []].
  destruct (decide (map_Forall (λ _ i, intention_keys d i = true) (t_intentions d))); [|right; by intros []].
  destruct (decide (map_Forall (λ _ k, commitment_keys d k = true) (t_commitments d))); [|right; by intros []].
  destruct (decide (map_Forall (λ _ e, edge_keys d e = true) (t_edges d))); [|right; by intros []].
  destruct (decide (map_Forall (λ _ r, relationship_keys d r = true) (t_relationships d))); [|right; by intros []].
  destruct (decide (has_seq_opt d (n_seq <$> t_name d) = true)); [|right; by intros []].
  destruct (decide (Forall (λ s, has_seq d s = true) (t_refs d))); [by left|right; by intros []].
Defined.

(** The check at commit. *)
Definition foreign_keys_hold (d : DB) : bool := bool_decide (keys_hold d).
