(* ===== verification/SelfModel.v ===== *)
(** * The self-model: internal/ledger/self_model.go and its projection in
    internal/store/self_model.go

    The portrait payload in its current and in its earlier form, the rules a
    portrait must meet, and the materializer that keeps one portrait current. *)

From stdpp Require Import gmap.
From S2P Require Import Prelude Utf8 GoJson CanonicalJson GoStruct Event Lines GoStrings Tables Prompt.

(** ** Payloads (ledger/self_model.go) *)

Record SelfModelSourceRef := mkRef { ref_Class : bytes; ref_ID : bytes }.

#[export] Instance ref_eq_dec : EqDecision SelfModelSourceRef.
Proof. solve_decision. Defined.

Record SelfModelSynthesisPayload := mkSelfModel {
  sm_ID : bytes; sm_SynthesisText : bytes; sm_ContinuityThread : bytes; sm_SourceEntityRefs : list SelfModelSourceRef;
  sm_ChangesSinceLast : bytes; sm_PreviousSynthesisID : bytes; sm_ModelID : bytes
}.

Definition self_model_fields : list bytes :=
  [bs "id"; bs "synthesis_text"; bs "continuity_thread"; bs "source_entity_refs"; bs "changes_since_last"; bs "previous_synthesis_id"; bs "model_id"].

(** One reference, decoded over [cur]. *)
Definition ref_conv (disallow : bool) (cur : SelfModelSourceRef) (raw : bytes) : option SelfModelSourceRef :=
  ms ← members_of raw; ms ← match_members disallow [bs "class"; bs "id"] ms;
  class ← field conv_string (ref_Class cur) (bs "class") ms;
  id ← field conv_string (ref_ID cur) (bs "id") ms;
  Some (mkRef class id).

Definition DecodeSelfModelSynthesisPayload (raw : bytes) : option SelfModelSynthesisPayload :=
  ms ← struct_members true true self_model_fields raw;
  id ← field conv_string [] (bs "id") ms;
  text ← field conv_string [] (bs "synthesis_text") ms;
  thread ← field conv_string [] (bs "continuity_thread") ms;
  refs ← slice_field (ref_conv true) (mkRef [] []) (bs "source_entity_refs") ms;
  changes ← field conv_string [] (bs "changes_since_last") ms;
  previous ← field conv_string [] (bs "previous_synthesis_id") ms;
  model ← field conv_string [] (bs "model_id") ms;
  Some (mkSelfModel id text thread refs changes previous model).

Definition earlier_fields : list bytes :=
  [bs "id"; bs "content"; bs "continuity_thread"; bs "changes_since_last"; bs "source_entity_refs"; bs "source_seqs"].

(** The earlier form, whose references are bare ids. *)
Definition decode_earlier (raw : bytes) : option SelfModelSynthesisPayload :=
  ms ← unmarshal earlier_fields raw;
  id ← field conv_string [] (bs "id") ms;
  content ← field conv_string [] (bs "content") ms;
  thread ← field conv_string [] (bs "continuity_thread") ms;
  changes ← field conv_string [] (bs "changes_since_last") ms;
  refs ← slice_field (elem_of_conv conv_string) [] (bs "source_entity_refs") ms;
  _ ← slice_field (elem_of_conv conv_uint64) 0 (bs "source_seqs") ms;
  Some (mkSelfModel id content thread (mkRef [] <$> refs) changes [] []).

(** The payload, and whether it has the earlier form. *)
Definition DecodeRecordedSelfModelSynthesis (raw : bytes) : option (SelfModelSynthesisPayload * bool) :=
  v ← one_value true raw; fields ← members_of v;
  if negb (existsb (λ kv, beq kv.1 (bs "content")) fields) then p ← DecodeSelfModelSynthesisPayload raw; Some (p, false)
  else if existsb (λ kv, beq kv.1 (bs "synthesis_text")) fields then None
  else p ← decode_earlier raw; Some (p, true).

Definition SelfModelMinSourceClasses : nat := 4.
Definition self_model_classes : list bytes :=
  [bs "beliefs"; bs "values"; bs "intentions"; bs "reflections"; bs "relationships"; bs "notes"; bs "experiences"; bs "working_style"].
Definition IsSelfModelSourceClass (class : bytes) : bool := in_set class self_model_classes.

(** ** Rules (store/self_model.go) *)

Definition ReplaceAll (s old new : bytes) : bytes := Join (Split s old) new.

Definition normalizeSelfModelText (s : bytes) : bytes := TrimSpace (ReplaceAll (ReplaceAll s [13; 10] [10]) [13] [10]).

Definition bytes_lt (a b : bytes) : bool := negb (bytes_leb b a).

(** [a.Class < b.Class], or the same class and [a.ID < b.ID]. *)
Definition ref_less (a b : SelfModelSourceRef) : bool :=
  if beq (ref_Class a) (ref_Class b) then bytes_lt (ref_ID a) (ref_ID b) else bytes_lt (ref_Class a) (ref_Class b).

Fixpoint insert_ref (r : SelfModelSourceRef) (l : list SelfModelSourceRef) : list SelfModelSourceRef :=
  match l with [] => [r] | x :: l' => if ref_less x r then x :: insert_ref r l' else r :: l end.
Definition sort_refs (l : list SelfModelSourceRef) : list SelfModelSourceRef := foldr insert_ref [] l.

Definition trim_ref (r : SelfModelSourceRef) : SelfModelSourceRef := mkRef (TrimSpace (ref_Class r)) (TrimSpace (ref_ID r)).

(** The loop over the sorted references; [prev] is the one before. *)
Fixpoint check_refs (prev : option SelfModelSourceRef) (seen : list bytes) (refs : list SelfModelSourceRef) : result store_err unit :=
  match refs with
  | [] => Ok ()
  | ref :: rest =>
    if beq (ref_Class ref) [] || beq (ref_ID ref) [] then Err (StSelfModel (bs "specific durable references"))
    else if negb (IsSelfModelSourceClass (ref_Class ref)) then Err (StSelfModel (bs "canonical source classes"))
    else if bool_decide (prev = Some ref) then Err (StSelfModel (bs "specific durable references"))
    else if in_set (ref_ID ref) seen then Err (StSelfModel (bs "source coverage"))
    else check_refs (Some ref) (ref_ID ref :: seen) rest
  end.

Definition canonicalSelfModelRefs (refs : list SelfModelSourceRef) : result store_err (list SelfModelSourceRef) :=
  let out := sort_refs (trim_ref <$> refs) in _ ← check_refs None [] out; mret out.

Definition refsEqual (a b : list SelfModelSourceRef) : bool := bool_decide (a = b).

(** What [json.Marshal] makes of the references, and how they are read back. *)
Definition marshal_ref (r : SelfModelSourceRef) : bytes :=
  js "{'class':" ++ json_string true (ref_Class r) ++ js ",'id':" ++ json_string true (ref_ID r) ++ js "}".
Definition marshal_refs (refs : list SelfModelSourceRef) : bytes := 91 :: comma_join (marshal_ref <$> refs) ++ [93].

Definition decode_cell (cell : bytes) : option SelfModelSourceRef :=
  if beq cell null_text then Some (mkRef [] [])
  else match conv_string cell with
  | Some id => Some (mkRef [] id)
  | None => ref_conv false (mkRef [] []) cell
  end.
Definition decodeRecordedRefs (raw : bytes) : option (list SelfModelSourceRef) :=
  v ← one_value true raw; cells ← elems_of v; mapM decode_cell (default [] cells).

Record SelfModelSynthesis := mkCurrent { cs_ID : bytes; cs_row : synthesis_row; cs_refs : list SelfModelSourceRef }.

Definition is_current (kv : bytes * synthesis_row) : Prop := sy_superseded_by kv.2 = None.

Definition currentSelfModelLocked (d : DB) : result store_err (option SelfModelSynthesis) :=
  match map_to_list (filter is_current (t_synthesis d)) with
  | [] => Ok None
  | [(id, row)] => match decodeRecordedRefs (sy_refs row) with Some refs => Ok (Some (mkCurrent id row refs)) | None => Err StParse end
  | _ => Err (StRule (bs "self-model projection has more than one current row"))
  end.

(** The payload with its texts normalized. *)
Definition normalized_payload (p : SelfModelSynthesisPayload) : SelfModelSynthesisPayload :=
  mkSelfModel (TrimSpace (sm_ID p)) (normalizeSelfModelText (sm_SynthesisText p)) (normalizeSelfModelText (sm_ContinuityThread p))
    (sm_SourceEntityRefs p) (normalizeSelfModelText (sm_ChangesSinceLast p)) (TrimSpace (sm_PreviousSynthesisID p)) (sm_ModelID p).

Definition validateSelfModelPayloadLocked (d : DB) (p : SelfModelSynthesisPayload) :
    result store_err (list SelfModelSourceRef * option SelfModelSynthesis) :=
  if beq (sm_ID p) [] then Err (StSelfModel (bs "event identity"))
  else if beq (sm_SynthesisText p) [] then Err (StSelfModel (bs "bounded narrative"))
  else if beq (sm_ContinuityThread p) [] then Err (StSelfModel (bs "continuity"))
  else
    refs ← canonicalSelfModelRefs (sm_SourceEntityRefs p);
    current ← currentSelfModelLocked d;
    match current with
    | None => if negb (beq (sm_PreviousSynthesisID p) []) then Err (StSelfModel (bs "current predecessor")) else Ok (refs, None)
    | Some c =>
      if negb (beq (sm_PreviousSynthesisID p) (cs_ID c)) then Err (StSelfModel (bs "current predecessor"))
      else if beq (sm_SynthesisText p) (normalizeSelfModelText (sy_text (cs_row c))) &&
              beq (sm_ContinuityThread p) (normalizeSelfModelText (sy_thread (cs_row c))) && refsEqual refs (cs_refs c)
      then Err StUnchanged
      else Ok (refs, Some c)
    end.

(** ** Admission *)

Section Budget.
Variable selfModelMaxTokens : Z.

Definition SelfModelDefaultMaxTokens : Z := 2000.
Definition selfModelBudget : Z := if 0 <? selfModelMaxTokens then selfModelMaxTokens else SelfModelDefaultMaxTokens.

Definition admitSelfModelBudget (p : SelfModelSynthesisPayload) : result store_err unit :=
  if selfModelBudget <? Estimate (normalizeSelfModelText (sm_SynthesisText p)) then Err (StSelfModel (bs "bounded narrative")) else Ok ().
End Budget.

(** [selfModelRefExistsLocked]: the rows each class is drawn from. *)
Definition selfModelRefExistsLocked (d : DB) (ref : SelfModelSourceRef) : bool :=
  let id := ref_ID ref in
  let belief (test : belief_row → bool) := match t_beliefs d !! id with Some b => active b && test b | None => false end in
  if beq (ref_Class ref) (bs "beliefs") then
    belief (λ b, match b_node_type b with None => true | Some t => beq t (bs "value") && (b_ring b =? 3) end)
  else if beq (ref_Class ref) (bs "values") then
    belief (λ b, bool_decide (b_node_type b = Some (bs "value")) && (b_ring b <=? 2))
  else if beq (ref_Class ref) (bs "intentions") then
    match t_intentions d !! id with Some i => negb (i_archived i) | None => false end
  else if beq (ref_Class ref) (bs "reflections") then has (t_synthesis d) id
  else if beq (ref_Class ref) (bs "relationships") then
    match t_relationships d !! id with Some r => bool_decide (r_superseded_by r = None) | None => false end
  else if beq (ref_Class ref) (bs "notes") then
    match t_experiences d !! id with Some x => bool_decide (x_category x = Some (bs "reflection")) | None => false end
  else if beq (ref_Class ref) (bs "experiences") then
    match t_experiences d !! id with Some x => negb (bool_decide (x_category x = Some (bs "reflection"))) | None => false end
  else if beq (ref_Class ref) (bs "working_style") then
    belief (λ b, bool_decide (b_node_type b = Some (bs "working_style")))
  else false.

Fixpoint admit_refs (d : DB) (classes : list bytes) (refs : list SelfModelSourceRef) : result store_err (list bytes) :=
  match refs with
  | [] => Ok classes
  | ref :: rest =>
    if selfModelRefExistsLocked d ref then
      admit_refs d (if in_set (ref_Class ref) classes then classes else ref_Class ref :: classes) rest
    else Err (StSelfModel (bs "consistent cited evidence"))
  end.

Definition admitSelfModelSourcesLocked (d : DB) (p : SelfModelSynthesisPayload) : result store_err unit :=
  refs ← canonicalSelfModelRefs (sm_SourceEntityRefs p);
  classes ← admit_refs d [] refs;
  if (length classes <? SelfModelMinSourceClasses)%nat then Err (StSelfModel (bs "source coverage")) else Ok ().

(** ** Materialization *)

Section Materialize.
Context `{Q : Sqlite}.

(** [INSERT], or [INSERT OR REPLACE] for the earlier form. *)
Definition insert_synthesis (deferred replace : bool) (id : bytes) (row : synthesis_row) (d : DB) : result store_err DB :=
  if negb (json_valid (sy_refs row)) then Err StConstraint
  else if negb replace && has (t_synthesis d) id then Err StConstraint
  else let d' := set_synthesis <[id := row]> d in _ ← fk deferred (synthesis_keys d' row); mret d'.

(** [UPDATE ... SET superseded_by WHERE id = ? AND superseded_by IS NULL], and
    whether it changed a row. *)
Definition supersede_synthesis (deferred : bool) (id by_ : bytes) (d : DB) : result store_err (DB * bool) :=
  match t_synthesis d !! id with
  | Some row =>
    if bool_decide (sy_superseded_by row = None) then
      let row' := synthesis_superseded by_ row in
      let d' := set_synthesis <[id := row']> d in _ ← fk deferred (synthesis_keys d' row'); mret (d', true)
    else Ok (d, false)
  | None => Ok (d, false)
  end.

(** The rules, which the earlier form predates: the references to store and the
    portrait it follows. *)
Definition self_model_sources (d : DB) (p : SelfModelSynthesisPayload) (historical : bool) :
    result store_err (list SelfModelSourceRef * option SelfModelSynthesis) :=
  if historical then current ← currentSelfModelLocked d; mret (sm_SourceEntityRefs p, current)
  else validateSelfModelPayloadLocked d p.

(** The predecessor [current], if it is another row, is superseded by [id]. *)
Definition supersede_current (deferred : bool) (current : option SelfModelSynthesis) (id : bytes) (d : DB) : result store_err DB :=
  match current with
  | Some c =>
    if beq (cs_ID c) id then Ok d
    else match supersede_synthesis deferred (cs_ID c) id d with
    | Ok (d', true) => Ok d'
    | Ok (_, false) => Err (StRule (bs "superseded no row"))
    | Err e => Err e
    end
  | None => Ok d
  end.

Definition materializeSelfModelSynthesis (deferred : bool) (evt : Event) (d : DB) : result store_err DB :=
  match DecodeRecordedSelfModelSynthesis (Payload evt) with
  | None => Err StParse
  | Some (payload, historical) =>
    let p := if historical then payload else normalized_payload payload in
    '(refs, current) ← self_model_sources d p historical;
    d1 ← insert_synthesis deferred historical (sm_ID p)
      (mkSynthesis (sm_SynthesisText p) (marshal_refs refs) (sm_ChangesSinceLast p) (sm_ContinuityThread p) None (Seq evt) (Timestamp evt)) d;
    supersede_current deferred current (sm_ID p) d1
  end.
End Materialize.
