(* ===== verification/Materialize.v ===== *)
(** * internal/store/materialize.go, publicname.go, trustepochs.go and replay.go:
    the record materialized

    Each event of the record inserts its mirror row and then changes the derived
    tables by the statements of its type.  [materializeLocked] is one event inside
    a transaction, [materializeAtomic] one event in a transaction of its own,
    [ReplayAll] the whole record into cleared tables. *)

From stdpp Require Import gmap.
From Stdlib Require Import SpecFloat.
From S2P Require Import Prelude Utf8 GoJson CanonicalJson GoStruct Crypto Event Lines GoStrings Tables SelfModel.

Definition rule {A} (why : bytes) : result store_err A := Err (StRule why).

(** ** Payloads *)

Record beliefOrigin := mkOrigin { og_Kind : bytes; og_ID : bytes }.

Definition origin_conv (cur : beliefOrigin) (raw : bytes) : option beliefOrigin :=
  ms ← members_of raw; ms ← match_members false [bs "kind"; bs "id"] ms;
  kind ← field conv_string (og_Kind cur) (bs "kind") ms;
  id ← field conv_string (og_ID cur) (bs "id") ms;
  Some (mkOrigin kind id).

(** [*[]beliefOrigin]. *)
Definition origins_field (ms : list (bytes * bytes)) : option (option (list beliefOrigin)) :=
  match ptr_field (slice_conv origin_conv (mkOrigin [] [])) nil_slice (bs "origin_refs") ms with
  | Some (Some s) => Some (Some (slice_items s))
  | Some None => Some None
  | None => None
  end.

Record belief_payload := mkBeliefPayload {
  bp_ID : bytes; bp_Statement : bytes; bp_Content : bytes; bp_Ring : Z; bp_Confidence : spec_float; bp_NodeType : option bytes;
  bp_OriginRefs : option (list beliefOrigin)
}.

Definition decode_belief (payload : bytes) : option belief_payload :=
  ms ← unmarshal [bs "id"; bs "statement"; bs "content"; bs "ring"; bs "confidence"; bs "node_type"; bs "origin_refs"] payload;
  id ← field conv_string [] (bs "id") ms;
  statement ← field conv_string [] (bs "statement") ms;
  content ← field conv_string [] (bs "content") ms;
  ring ← field conv_int 0 (bs "ring") ms;
  confidence ← field conv_float64 (S754_zero false) (bs "confidence") ms;
  node ← ptr_field (fresh conv_string) [] (bs "node_type") ms;
  origins ← origins_field ms;
  Some (mkBeliefPayload id statement content ring confidence node origins).

Definition decode_working_style (payload : bytes) : option belief_payload :=
  ms ← unmarshal [bs "id"; bs "content"; bs "confidence"; bs "origin_refs"] payload;
  id ← field conv_string [] (bs "id") ms;
  content ← field conv_string [] (bs "content") ms;
  confidence ← field conv_float64 (S754_zero false) (bs "confidence") ms;
  origins ← origins_field ms;
  Some (mkBeliefPayload id [] content 3 confidence (Some (bs "working_style")) origins).

(** A payload of strings alone. *)
Definition decode_strings (names : list bytes) (payload : bytes) : option (list bytes) :=
  ms ← unmarshal names payload; mapM (λ n, field conv_string [] n ms) names.

Definition decode_promote (payload : bytes) : option (bytes * Z) :=
  ms ← unmarshal [bs "id"; bs "ring"] payload;
  id ← field conv_string [] (bs "id") ms;
  ring ← field conv_int 0 (bs "ring") ms;
  Some (id, ring).

Record edge_payload := mkEdgePayload {
  ep_ID : bytes; ep_FromID : bytes; ep_ToID : bytes; ep_EdgeType : bytes; ep_Strength : option spec_float; ep_Context : option bytes
}.

Definition decode_edge (payload : bytes) : option edge_payload :=
  ms ← unmarshal [bs "id"; bs "from_id"; bs "to_id"; bs "edge_type"; bs "strength"; bs "context"] payload;
  id ← field conv_string [] (bs "id") ms;
  from ← field conv_string [] (bs "from_id") ms;
  to ← field conv_string [] (bs "to_id") ms;
  type ← field conv_string [] (bs "edge_type") ms;
  strength ← ptr_field (fresh conv_float64) (S754_zero false) (bs "strength") ms;
  context ← ptr_field (fresh conv_string) [] (bs "context") ms;
  Some (mkEdgePayload id from to type strength context).

Record experiencePayload := mkExperiencePayload {
  xp_ID : bytes; xp_Content : bytes; xp_Category : bytes; xp_Unmetabolized : bool; xp_EarlierPrivate : bool; xp_Provenance : bytes;
  xp_SourceTurn : Z; xp_SourceURL : bytes; xp_Raw : option bool
}.

Definition decode_experience (payload : bytes) : option experiencePayload :=
  ms ← unmarshal [bs "id"; bs "content"; bs "category"; bs "unmetabolized"; bs "private"; bs "provenance"; bs "source_turn"; bs "source_url"; bs "raw"] payload;
  id ← field conv_string [] (bs "id") ms;
  content ← field conv_string [] (bs "content") ms;
  category ← field conv_string [] (bs "category") ms;
  unmetabolized ← field conv_bool false (bs "unmetabolized") ms;
  private ← field conv_bool false (bs "private") ms;
  provenance ← field conv_string [] (bs "provenance") ms;
  turn ← field conv_uint64 0 (bs "source_turn") ms;
  url ← field conv_string [] (bs "source_url") ms;
  raw ← ptr_field (fresh conv_bool) false (bs "raw") ms;
  Some (mkExperiencePayload id content category unmetabolized private provenance turn url raw).

Record ConfirmedCrossing := mkCrossing { cr_ID : bytes; cr_Ticks : Z }.
Record FacilityRunPayload := mkRun { run_Inputs : list bytes; run_Outputs : list Z; run_Confirmed : list ConfirmedCrossing }.

Definition crossing_conv (cur : ConfirmedCrossing) (raw : bytes) : option ConfirmedCrossing :=
  ms ← members_of raw; ms ← match_members false [bs "id"; bs "ticks"] ms;
  id ← field conv_string (cr_ID cur) (bs "id") ms;
  ticks ← field conv_int (cr_Ticks cur) (bs "ticks") ms;
  Some (mkCrossing id ticks).

Definition decode_run (payload : bytes) : option FacilityRunPayload :=
  ms ← unmarshal [bs "inputs"; bs "outputs"; bs "confirmed"] payload;
  inputs ← slice_field (elem_of_conv conv_string) [] (bs "inputs") ms;
  outputs ← slice_field (elem_of_conv conv_uint64) 0 (bs "outputs") ms;
  confirmed ← slice_field crossing_conv (mkCrossing [] 0) (bs "confirmed") ms;
  Some (mkRun inputs outputs confirmed).

Record relationshipPayload := mkRelationshipPayload {
  rp_ID : bytes; rp_CounterpartName : bytes; rp_CounterpartRole : bytes; rp_TrustLevel : bytes; rp_AutonomyLevel : bytes;
  rp_RelationshipType : bytes; rp_Supersedes : bytes; rp_CharterText : bytes; rp_OperatorApproval : bytes; rp_ApprovalTurn : Z; rp_ApprovalBasis : bytes
}.

Definition or_else (s dflt : bytes) : bytes := if beq s [] then dflt else s.

Definition readRelationshipPayload (raw : bytes) : option relationshipPayload :=
  ms ← unmarshal [bs "id"; bs "counterpart_name"; bs "counterpart_role"; bs "trust_level"; bs "autonomy_level"; bs "relationship_type";
    bs "supersedes"; bs "charter_text"; bs "operator_approval_excerpt"; bs "operator_approval_turn"; bs "approval_basis"] raw;
  id ← field conv_string [] (bs "id") ms;
  name ← field conv_string [] (bs "counterpart_name") ms;
  role ← field conv_string [] (bs "counterpart_role") ms;
  trust ← field conv_string [] (bs "trust_level") ms;
  autonomy ← field conv_string [] (bs "autonomy_level") ms;
  type ← field conv_string [] (bs "relationship_type") ms;
  supersedes ← field conv_string [] (bs "supersedes") ms;
  charter ← field conv_string [] (bs "charter_text") ms;
  approval ← field conv_string [] (bs "operator_approval_excerpt") ms;
  turn ← field conv_uint64 0 (bs "operator_approval_turn") ms;
  basis ← field conv_string [] (bs "approval_basis") ms;
  Some (mkRelationshipPayload id name (or_else role (bs "operator")) (or_else trust (bs "building")) (or_else autonomy (bs "supervised"))
    (or_else type (bs "founding_operator")) supersedes charter approval turn basis).

Record WitnessReceiptPayload := mkReceiptPayload {
  wr_IdentityID : bytes; wr_PreviousOrdinal : Z; wr_PreviousHash : bytes; wr_LedgerOrdinal : Z; wr_LedgerHash : bytes;
  wr_WitnessedAt : bytes; wr_WitnessKeyID : bytes; wr_WitnessSigB64 : bytes
}.

Definition receipt_conv (cur : WitnessReceiptPayload) (raw : bytes) : option WitnessReceiptPayload :=
  ms ← members_of raw;
  ms ← match_members false [bs "identity_id"; bs "previous_witnessed_ledger_ordinal"; bs "previous_witnessed_ledger_hash"; bs "ledger_ordinal";
    bs "ledger_hash"; bs "witnessed_at"; bs "witness_key_id"; bs "witness_sig_b64"] ms;
  identity ← field conv_string (wr_IdentityID cur) (bs "identity_id") ms;
  pord ← field conv_int (wr_PreviousOrdinal cur) (bs "previous_witnessed_ledger_ordinal") ms;
  phash ← field conv_string (wr_PreviousHash cur) (bs "previous_witnessed_ledger_hash") ms;
  ord ← field conv_int (wr_LedgerOrdinal cur) (bs "ledger_ordinal") ms;
  hash ← field conv_string (wr_LedgerHash cur) (bs "ledger_hash") ms;
  at_ ← field conv_string (wr_WitnessedAt cur) (bs "witnessed_at") ms;
  key ← field conv_string (wr_WitnessKeyID cur) (bs "witness_key_id") ms;
  sig ← field conv_string (wr_WitnessSigB64 cur) (bs "witness_sig_b64") ms;
  Some (mkReceiptPayload identity pord phash ord hash at_ key sig).

(** What [json.Marshal] makes of a receipt. *)
Definition marshal_receipt (r : WitnessReceiptPayload) : bytes :=
  js "{'identity_id':" ++ json_string true (wr_IdentityID r) ++
  js ",'previous_witnessed_ledger_ordinal':" ++ FormatInt (wr_PreviousOrdinal r) ++
  js ",'previous_witnessed_ledger_hash':" ++ json_string true (wr_PreviousHash r) ++
  js ",'ledger_ordinal':" ++ FormatInt (wr_LedgerOrdinal r) ++
  js ",'ledger_hash':" ++ json_string true (wr_LedgerHash r) ++
  js ",'witnessed_at':" ++ json_string true (wr_WitnessedAt r) ++
  js ",'witness_key_id':" ++ json_string true (wr_WitnessKeyID r) ++
  js ",'witness_sig_b64':" ++ json_string true (wr_WitnessSigB64 r) ++ js "}".

(** The receipt, and the text of the footnote of an earlier one. *)
Definition decode_witnessed (payload : bytes) : option (option WitnessReceiptPayload * bytes) :=
  ms ← unmarshal [bs "receipt"; bs "receipt_before_rewrap"] payload;
  receipt ← ptr_field receipt_conv (mkReceiptPayload [] 0 [] 0 [] [] [] []) (bs "receipt") ms;
  Some (receipt, raw_field (bs "receipt_before_rewrap") ms).

Definition decode_epoch (payload : bytes) : option (bytes * Z * bytes) :=
  ms ← unmarshal [bs "root"; bs "trust_epoch"; bs "payload_sha256"] payload;
  root ← field conv_string [] (bs "root") ms;
  epoch ← field conv_int 0 (bs "trust_epoch") ms;
  sha ← field conv_string [] (bs "payload_sha256") ms;
  Some (root, epoch, sha).

(** ** Statements *)

Section Statements.
Context `{Q : Sqlite}.
Variable deferred : bool.

(** The mirror row. *)
Definition mirror_insert (evt : Event) (d : DB) : result store_err DB :=
  if negb (int64_ok (Seq evt)) then Err StBind
  else if negb ((0 <=? Ring evt) && (Ring evt <=? 3)) || negb (json_valid (Payload evt)) || has_seq d (Seq evt) then Err StConstraint
  else Ok (set_ledger <[Seq evt := mkLedgerRow (Prev evt) (Timestamp evt) (EType evt) (Ring evt) (Payload evt) (Content evt)]> d).

(** [INSERT INTO beliefs ... ON CONFLICT(id) DO UPDATE]: the words, the
    confidence and the last sequence change, nothing else. *)
Definition upsert_belief (id : bytes) (b : belief_row) (d : DB) : result store_err DB :=
  if negb (check_belief b) then Err StConstraint
  else
    let b' := match t_beliefs d !! id with None => b | Some old => belief_said (b_statement b) (b_confidence b) (b_last_seq b) old end in
    let d' := set_beliefs <[id := b']> d in
    _ ← fk deferred (belief_keys d' b'); mret d'.

(** [UPDATE beliefs SET ... WHERE id = ?]; [missing] says what an update of no row means. *)
Definition update_belief (id : bytes) (f : belief_row → belief_row) (missing : store_err) (d : DB) : result store_err DB :=
  match t_beliefs d !! id with
  | None => Err missing
  | Some b => let d' := set_beliefs <[id := f b]> d in _ ← fk deferred (belief_keys d' (f b)); mret d'
  end.

(** An update of columns that are no keys, of whichever row there is. *)
Definition alter_belief (id : bytes) (f : belief_row → belief_row) (d : DB) : DB := set_beliefs (alter f id) d.

Definition insert_edge_row (id : bytes) (e : edge_row) (d : DB) : result store_err DB :=
  let d' := set_edges <[id := e]> d in _ ← fk deferred (edge_keys d' e); mret d'.

(** [INSERT OR IGNORE INTO edges], and whether a row was inserted. *)
Definition insert_edge (id : bytes) (e : edge_row) (d : DB) : result store_err (DB * bool) :=
  if negb (check_edge e) || has (t_edges d) id || has_triple d e then Ok (d, false)
  else d' ← insert_edge_row id e d; mret (d', true).

(** ** Origins of a belief *)

(** [INSERT INTO edges ... ON CONFLICT(from_id, to_id, edge_type) DO NOTHING], and
    the count that goes with an inserted row. *)
Definition insert_origin (id : bytes) (e : edge_row) (d : DB) : result store_err DB :=
  if negb (check_edge e) then Err StConstraint
  else if has_triple d e then Ok d
  else if has (t_edges d) id then Err StConstraint
  else d' ← insert_edge_row id e d; mret (alter_belief (e_to e) (λ b, belief_counted (b_evidence_count b + 1) b) d').

Definition active_origin (d : DB) (from target : bytes) : bool :=
  negb (bool_decide (map_Forall (λ _ e, beq (e_from e) from && beq (e_to e) target && beq (e_type e) (bs "DERIVED_FROM") && negb (e_archived e) = false) (t_edges d))).

(** One origin: what must hold of it, and its edge. *)
Definition origin_step (evt : Event) (target : bytes) (i : Z) (ref : beliefOrigin) (d : DB) : result store_err DB :=
  if beq (og_ID ref) [] || beq (og_ID ref) target then rule (bs "empty or self-referential origin")
  else
    '(own, other) ← (if beq (og_Kind ref) (bs "experience") then Ok (has (t_experiences d) (og_ID ref), has (t_beliefs d) (og_ID ref))
      else if beq (og_Kind ref) (bs "belief") then Ok (has (t_beliefs d) (og_ID ref), has (t_experiences d) (og_ID ref))
      else rule (bs "unsupported origin kind"));
    if negb own then rule (bs "cites missing origin")
    else if (other : bool) then rule (bs "cites ambiguous origin")
    else
      d' ← insert_origin (bs "edge_origin_" ++ FormatUint (Seq evt) ++ bs "_" ++ FormatInt i)
        (mkEdge (og_ID ref) target (bs "DERIVED_FROM") (float_one) None false (Seq evt)) d;
      if active_origin d' (og_ID ref) target then Ok d' else rule (bs "would omit active origin").

Fixpoint origins_loop (evt : Event) (target : bytes) (i : Z) (seen : list bytes) (refs : list beliefOrigin) (d : DB) : result store_err DB :=
  match refs with
  | [] => Ok d
  | ref :: rest =>
    let key := og_Kind ref ++ bs ":" ++ og_ID ref in
    if negb (beq (og_ID ref) []) && negb (beq (og_ID ref) target) && in_set (og_Kind ref) [bs "experience"; bs "belief"] && in_set key seen
    then rule (bs "repeats origin")
    else d' ← origin_step evt target i ref d; origins_loop evt target (i + 1) (key :: seen) rest d'
  end.

Definition materializeBeliefOriginsLocked (evt : Event) (target : bytes) (refs : option (list beliefOrigin)) (d : DB) : result store_err DB :=
  match refs with
  | None => Ok d
  | Some refs =>
    if (length refs =? 0)%nat then rule (bs "requires at least one origin")
    else d' ← origins_loop evt target 0 [] refs d;
         if evidence_count d' target =? 0 then rule (bs "would have no active evidence edge") else Ok d'
  end.

(** ** The materializers *)

Definition materializeBirth (evt : Event) (d : DB) : result store_err DB :=
  Ok (match t_lifetime d with None => set_lifetime (Some (mkLifetime (Timestamp evt) 0 (Timestamp evt))) d | Some _ => d end).

Definition new_belief (evt : Event) (statement : bytes) (ring : Z) (node : option bytes) (confidence : spec_float) : belief_row :=
  mkBelief statement ring node confidence 0 false 0 (Seq evt) (Seq evt) None.

Definition materializeBeliefUpsert (evt : Event) (d : DB) : result store_err DB :=
  p ← of_option StParse (decode_belief (Payload evt));
  let statement := or_else (bp_Statement p) (bp_Content p) in
  if beq statement [] then rule (bs "belief.upsert requires statement or content")
  else
    let ring := if (bp_Ring p <? 1) || (3 <? bp_Ring p) then 3 else bp_Ring p in
    d' ← upsert_belief (bp_ID p) (new_belief evt statement ring (bp_NodeType p) (bp_Confidence p)) d;
    materializeBeliefOriginsLocked evt (bp_ID p) (bp_OriginRefs p) d'.

Definition materializeWorkingStyle (evt : Event) (d : DB) : result store_err DB :=
  p ← of_option StParse (decode_working_style (Payload evt));
  if beq (bp_Content p) [] then rule (bs "working_style.upsert requires content")
  else
    d' ← upsert_belief (bp_ID p) (new_belief evt (bp_Content p) 3 (bp_NodeType p) (bp_Confidence p)) d;
    materializeBeliefOriginsLocked evt (bp_ID p) (bp_OriginRefs p) d'.

Definition materializeBeliefPromote (evt : Event) (d : DB) : result store_err DB :=
  '(id, ring) ← of_option StParse (decode_promote (Payload evt));
  if (ring <? 2) || (3 <? ring) then rule (bs "belief.promote requires an explicit ring")
  else update_belief id (belief_placed ring (Seq evt)) (StMissing (EType evt) (bs "belief") id) d.

Definition materializeBeliefArchive (evt : Event) (d : DB) : result store_err DB :=
  match decode_strings [bs "id"; bs "reason"] (Payload evt) with
  | Some [id; _] => update_belief id (belief_archived (Seq evt)) (StMissing (EType evt) (bs "belief") id) d
  | _ => Err StParse
  end.

Definition materializeBeliefSupersede (evt : Event) (d : DB) : result store_err DB :=
  match decode_strings [bs "old_id"; bs "new_id"; bs "reason"] (Payload evt) with
  | Some [old; new; reason] =>
    d' ← update_belief old (belief_superseded new (Seq evt)) (StMissing (EType evt) (bs "belief") old) d;
    '(d'', _) ← insert_edge (bs "edge_" ++ FormatUint (Seq evt))
      (mkEdge new old (bs "SUPERSEDES") (float_one) (Some reason) false (Seq evt)) d';
    Ok d''
  | _ => Err StParse
  end.

Definition materializeEdgeArchive (evt : Event) (d : DB) : result store_err DB :=
  match decode_strings [bs "id"] (Payload evt) with
  | Some [id] =>
    match t_edges d !! id with
    | None => Err (StMissing (EType evt) (bs "edge") id)
    | Some e =>
      let d' := set_edges <[id := edge_archived e]> d in
      Ok (if is_evidence e then alter_belief (e_to e) (belief_counted (evidence_count d' (e_to e))) d' else d')
    end
  | _ => Err StParse
  end.

Definition materializeEdgeLocked (evt : Event) (d : DB) : result store_err DB :=
  p ← of_option StParse (decode_edge (Payload evt));
  '(d', inserted) ← insert_edge (ep_ID p)
    (mkEdge (ep_FromID p) (ep_ToID p) (ep_EdgeType p) (default (float_one) (ep_Strength p)) (ep_Context p) false (Seq evt)) d;
  if negb inserted then rule (bs "edge.create already exists")
  else if in_set (ep_EdgeType p) evidence_types then
    match t_beliefs d' !! ep_ToID p with
    | None => Ok d'
    | Some _ => update_belief (ep_ToID p) (λ b, belief_touched (Seq evt) (belief_counted (b_evidence_count b + 1) b)) StConstraint d'
    end
  else Ok d'.

Definition materializeIntentionCreate (evt : Event) (d : DB) : result store_err DB :=
  match decode_strings [bs "id"; bs "statement"; bs "why"] (Payload evt) with
  | Some [id; statement; why] =>
    if beq statement [] then rule (bs "intention.create requires statement")
    else if has (t_intentions d) id then rule (bs "intention.create already exists")
    else
      let i := mkIntention statement (bs "active") (Some why) None false (Seq evt) (Some (Seq evt)) in
      let d' := set_intentions <[id := i]> d in _ ← fk deferred (intention_keys d' i); mret d'
  | _ => Err StParse
  end.

Definition materializeIntentionStateChange (evt : Event) (d : DB) : result store_err DB :=
  match decode_strings [bs "id"; bs "state"; bs "outcome"] (Payload evt) with
  | Some [id; state; outcome] =>
    if negb (in_set state [bs "active"; bs "completed"; bs "abandoned"]) then rule (bs "intention.state_change: invalid state")
    else match t_intentions d !! id with
    | None => Err (StMissing (EType evt) (bs "intention") id)
    | Some i =>
      let i' := mkIntention (i_statement i) state (i_why i) (Some outcome) (i_archived i) (i_created_seq i) (Some (Seq evt)) in
      let d' := set_intentions <[id := i']> d in _ ← fk deferred (intention_keys d' i'); mret d'
    end
  | _ => Err StParse
  end.

Definition materializeCommitmentPromised (evt : Event) (d : DB) : result store_err DB :=
  match decode_strings [bs "id"; bs "description"; bs "counterpart_id"] (Payload evt) with
  | Some [id; description; counterpart] =>
    if beq counterpart [] then rule (bs "commitment.promised requires counterpart_id")
    else if has (t_commitments d) id then rule (bs "commitment.promised already exists")
    else
      let k := mkCommitment description counterpart (bs "promised") None None (Seq evt) (Some (Seq evt)) in
      let d' := set_commitments <[id := k]> d in _ ← fk deferred (commitment_keys d' k); mret d'
  | _ => Err StParse
  end.

Definition materializeCommitmentStateChange (evt : Event) (d : DB) : result store_err DB :=
  match decode_strings [bs "id"; bs "state"; bs "result"; bs "repair_state"; bs "note"] (Payload evt) with
  | Some [id; state; res; repair; _] =>
    if negb (in_set state [bs "promised"; bs "in_progress"; bs "completed"; bs "abandoned"; bs "repaired"])
    then rule (bs "commitment.state_change: invalid state")
    else match t_commitments d !! id with
    | None => Err (StMissing (EType evt) (bs "commitment") id)
    | Some k =>
      let k' := mkCommitment (k_description k) (k_counterpart k) state (Some res) (Some repair) (k_created_seq k) (Some (Seq evt)) in
      let d' := set_commitments <[id := k']> d in _ ← fk deferred (commitment_keys d' k'); mret d'
    end
  | _ => Err StParse
  end.

Definition materializeSystemWitnessed (evt : Event) (d : DB) : result store_err DB :=
  match decode_witnessed (Payload evt) with
  | None => Err StParse
  | Some (None, before) => if beq before [] then rule (bs "system.witnessed carries no receipt") else Ok d
  | Some (Some r, _) =>
    if (wr_LedgerOrdinal r =? 0) || beq (wr_LedgerHash r) [] then rule (bs "system.witnessed receipt missing ledger fields")
    else if negb (json_valid (marshal_receipt r)) then Err StConstraint
    else Ok (set_receipts (λ l, l ++ [mkReceipt (wr_LedgerOrdinal r) (marshal_receipt r) (wr_WitnessedAt r)]) d)
  end.

Definition materializeTrustEpochAccepted (evt : Event) (d : DB) : result store_err DB :=
  '(root, epoch, sha) ← of_option StParse (decode_epoch (Payload evt));
  if beq root [] || (epoch <? 1) || beq sha [] then rule (bs "trust.epoch_accepted payload missing root/trust_epoch/payload_sha256")
  else Ok (set_epochs (λ l, l ++ [mkEpoch root epoch sha (Timestamp evt)]) d).

Definition is_base32 (c : Z) : bool := between 97 122 c || between 50 55 c.

Definition ValidatePublicNamePayload (nameID name zone : bytes) : result store_err unit :=
  if negb ((length nameID =? 26)%nat && forallb is_base32 nameID) then rule (bs "name_id is not 26 base32 characters")
  else if beq zone [] || bool_decide (head zone = Some 46) || bool_decide (last zone = Some 46) then rule (bs "zone is not a bare domain")
  else
    let flat := nameID ++ bs "." ++ zone in
    if negb (beq name flat) && negb (beq name (bs "ui." ++ flat)) then rule (bs "name is not its id under its zone") else Ok ().

(** The upsert of the singleton, which only another zone may change. *)
Definition materializePublicName (evt : Event) (d : DB) : result store_err DB :=
  match decode_strings [bs "name_id"; bs "name"; bs "zone"] (Payload evt) with
  | Some [nameID; name; zone] =>
    _ ← ValidatePublicNamePayload nameID name zone;
    if bool_decide (n_zone <$> t_name d = Some zone) then rule (bs "a public name is already claimed")
    else let d' := set_name (Some (mkName nameID name zone (Seq evt) (Timestamp evt))) d in _ ← fk deferred (has_seq d' (Seq evt)); mret d'
  | _ => Err StParse
  end.

Definition validateExperienceLocked (provenance : bytes) (sourceTurn : Z) (sourceURL : bytes) : result store_err unit :=
  if in_set provenance [[]; bs "self"; bs "dream"; bs "system"] then Ok ()
  else if beq provenance (bs "operator") then
    (if sourceTurn =? 0 then rule (bs "operator provenance requires source_turn") else Ok ())
  else if beq provenance (bs "external") then
    (if beq sourceURL [] then rule (bs "external provenance requires source_url") else Ok ())
  else rule (bs "unknown provenance").

(** [INSERT OR REPLACE INTO experiences]. *)
Definition materializeExperience (evt : Event) (d : DB) : result store_err DB :=
  p ← of_option StParse (decode_experience (Payload evt));
  if beq (xp_Content p) [] then rule (bs "experience.create requires content")
  else
    _ ← validateExperienceLocked (xp_Provenance p) (xp_SourceTurn p) (xp_SourceURL p);
    let set_aside := xp_Unmetabolized p || xp_EarlierPrivate p in
    let raw := negb set_aside && negb (bool_decide (xp_Raw p = Some false)) in
    let category := if in_set (xp_Category p) experience_categories then Some (xp_Category p) else None in
    let x := mkExperience (xp_Content p) category raw set_aside (or_else (xp_Provenance p) (bs "self")) (Seq evt) (Timestamp evt) in
    if negb (check_experience x) then Err StConstraint
    else let d' := set_experiences <[xp_ID p := x]> d in _ ← fk deferred (experience_keys d' x); mret d'.

Fixpoint runOutputsPrecedeLocked (evt : Event) (outputs : list Z) (d : DB) : result store_err unit :=
  match outputs with
  | [] => Ok ()
  | seq :: rest =>
    if Seq evt <=? seq then rule (bs "cites output at or after itself")
    else if negb (int64_ok seq) then Err StBind
    else if negb (has_seq d seq) then rule (bs "cites output: no such event")
    else runOutputsPrecedeLocked evt rest d
  end.

Fixpoint consume_inputs (evt : Event) (inputs : list bytes) (d : DB) : result store_err DB :=
  match inputs with
  | [] => Ok d
  | id :: rest =>
    match t_experiences d !! id with
    | None => Err (StMissing (EType evt) (bs "experience") id)
    | Some x => consume_inputs evt rest (set_experiences <[id := experience_consumed x]> d)
    end
  end.

Fixpoint confirm_crossings (evt : Event) (crossings : list ConfirmedCrossing) (d : DB) : result store_err DB :=
  match crossings with
  | [] => Ok d
  | c :: rest =>
    if beq (cr_ID c) [] || (cr_Ticks c <=? 0) then rule (bs "a crossing names a belief and a positive tick")
    else if negb (has (t_beliefs d) (cr_ID c)) then Err (StMissing (EType evt) (bs "belief") (cr_ID c))
    else confirm_crossings evt rest
      (alter_belief (cr_ID c) (λ b, if b_confirmed_at_ticks b =? 0 then belief_confirmed (cr_Ticks c) b else b) d)
  end.

Definition materializeFacilityRun (evt : Event) (d : DB) : result store_err DB :=
  p ← of_option StParse (decode_run (Payload evt));
  if (length (run_Inputs p) =? 0)%nat then rule (bs "a run that consumed nothing")
  else
    _ ← runOutputsPrecedeLocked evt (run_Outputs p) d;
    d' ← consume_inputs evt (run_Inputs p) d;
    confirm_crossings evt (run_Confirmed p) d'.

(** ** Relationships *)

Definition is_operator (role : bytes) : bool := beq role (bs "operator").

Definition approvalShape (role approval : bytes) (turn : Z) (basis : bytes) : result store_err unit :=
  if negb (is_operator role) then Ok ()
  else if beq approval [] then rule (bs "operator relationship requires operator_approval_excerpt")
  else if negb (beq basis (bs "conversation_turn")) then rule (bs "operator relationship requires approval_basis")
  else if turn <=? 0 then rule (bs "conversation_turn basis requires operator_approval_turn")
  else Ok ().

(** The rows of operators that nothing supersedes. *)
Definition current_operator (kv : bytes * relationship_row) : Prop := is_operator (r_role kv.2) = true ∧ r_superseded_by kv.2 = None.
#[export] Instance current_operator_dec kv : Decision (current_operator kv).
Proof. unfold current_operator. apply _. Defined.
Definition current_operators (d : DB) : gmap bytes relationship_row := filter current_operator (t_relationships d).

(** [ORDER BY created_seq DESC LIMIT 1]. *)
Definition latest (l : list (bytes * relationship_row)) : option bytes :=
  fst <$> foldl (λ acc kv, match acc with Some kv' => if r_created_seq kv'.2 <? r_created_seq kv.2 then Some kv else acc | None => Some kv end) None l.

(** [validateRelationshipLocked]. *)
Definition validateRelationshipLocked (p : relationshipPayload) (d : DB) : result store_err unit :=
  _ ← approvalShape (rp_CounterpartRole p) (rp_OperatorApproval p) (rp_ApprovalTurn p) (rp_ApprovalBasis p);
  _ ← (if is_operator (rp_CounterpartRole p) then
         match latest (map_to_list (delete (rp_ID p) (current_operators d))) with
         | None => Ok ()
         | Some current =>
           if beq (rp_Supersedes p) [] then rule (bs "must supersede the current operator relationship")
           else if negb (beq (rp_Supersedes p) current) then rule (bs "supersedes another than the current operator relationship")
           else Ok ()
         end
       else Ok ());
  if beq (rp_Supersedes p) [] then Ok ()
  else match t_relationships d !! rp_Supersedes p with
  | None => rule (bs "supersedes no such relationship")
  | Some r =>
    if is_operator (r_role r) && negb (is_operator (rp_CounterpartRole p)) then rule (bs "cannot supersede an operator relationship") else Ok ()
  end.

(** [INSERT INTO relationships ... ON CONFLICT(id) DO UPDATE]. *)
Definition upsert_relationship (evt : Event) (p : relationshipPayload) (d : DB) : result store_err DB :=
  let r := mkRelationship (rp_CounterpartName p) (rp_CounterpartRole p) (rp_TrustLevel p) (rp_AutonomyLevel p) (rp_RelationshipType p)
    (rp_CharterText p) (rp_OperatorApproval p) None (Seq evt) None in
  if negb (check_relationship r) then Err StConstraint
  else
    let r' := match t_relationships d !! rp_ID p with
      | None => r
      | Some old => mkRelationship (r_name r) (r_role old) (r_trust r) (r_autonomy r) (r_type old) (or_else (r_charter r) (r_charter old))
          (or_else (r_approval r) (r_approval old)) (r_superseded_by old) (r_created_seq old) (Some (Seq evt))
      end in
    let d' := set_relationships <[rp_ID p := r']> d in
    _ ← fk deferred (relationship_keys d' r'); mret d'.

Definition supersede_relationship (id by_ : bytes) (d : DB) : result store_err DB :=
  match t_relationships d !! id with
  | Some r =>
    if bool_decide (r_superseded_by r = None) then
      let r' := relationship_superseded by_ r in
      let d' := set_relationships <[id := r']> d in _ ← fk deferred (relationship_keys d' r'); mret d'
    else rule (bs "supersedes one already superseded")
  | None => rule (bs "supersedes one already superseded")
  end.

Definition materializeRelationshipLocked (evt : Event) (d : DB) : result store_err DB :=
  p ← of_option StParse (readRelationshipPayload (Payload evt));
  _ ← validateRelationshipLocked p d;
  d1 ← upsert_relationship evt p d;
  d2 ← (if beq (rp_Supersedes p) [] then Ok d1 else supersede_relationship (rp_Supersedes p) (rp_ID p) d1);
  if is_operator (rp_CounterpartRole p) && negb (size (current_operators d2) =? 1)%nat
  then rule (bs "Ring 1 requires exactly one current operator relationship")
  else Ok d2.

(** ** One event *)

Definition apply_event (evt : Event) (d : DB) : result store_err DB :=
  let t := EType evt in
  if beq t EventRing0Genesis then materializeBirth evt d
  else if beq t EventBeliefUpsert then materializeBeliefUpsert evt d
  else if beq t EventWorkingStyleUpsert then materializeWorkingStyle evt d
  else if beq t EventBeliefPromote then materializeBeliefPromote evt d
  else if beq t EventBeliefArchive then materializeBeliefArchive evt d
  else if beq t EventBeliefSupersede then materializeBeliefSupersede evt d
  else if beq t EventSelfModelSynthesize then materializeSelfModelSynthesis deferred evt d
  else if beq t EventRelationshipUpsert then materializeRelationshipLocked evt d
  else if beq t EventEdgeCreate then materializeEdgeLocked evt d
  else if beq t EventEdgeArchive then materializeEdgeArchive evt d
  else if beq t EventSystemWitnessed then materializeSystemWitnessed evt d
  else if beq t EventTrustEpochAccepted then materializeTrustEpochAccepted evt d
  else if beq t EventNetworkNameClaimed then materializePublicName evt d
  else if beq t EventExperienceCreate then materializeExperience evt d
  else if beq t EventConsolidationRun || beq t EventDreamRun then materializeFacilityRun evt d
  else if beq t EventIntentionCreate then materializeIntentionCreate evt d
  else if beq t EventIntentionStateChange then materializeIntentionStateChange evt d
  else if beq t EventCommitmentPromised then materializeCommitmentPromised evt d
  else if beq t EventCommitmentStateChange then materializeCommitmentStateChange evt d
  else Err (StUnknownType t).

Definition materializeLocked (evt : Event) (d : DB) : result store_err DB :=
  d1 ← mirror_insert evt d; apply_event evt d1.
End Statements.

Section Transactions.
Context `{Q : Sqlite}.

(** [Materialize]: one event in a transaction of its own; [begins] and
    [commits] say whether the transaction could start and be kept. *)
Definition materializeAtomic (begins commits : bool) (evt : Event) (d : DB) : DB * option store_err :=
  if negb begins then (d, Some StTransaction)
  else match materializeLocked false evt d with
  | Err e => (d, Some e)
  | Ok d' => if commits then (d', None) else (d, Some StTransaction)
  end.

(** The derived tables, cleared. *)
Definition clear_derived (d : DB) : DB := mkDB ∅ ∅ ∅ ∅ ∅ ∅ ∅ ∅ None [] [] (t_lifetime d) (t_refs d).

(** [ruleRefused]: what is wrong with the event rather than with the database. *)
Definition ruleRefused (e : store_err) : bool := match e with StTransaction => false | _ => true end.

Record MirrorHead := mkHead { mh_Seq : Z; mh_Hash : bytes }.

Context `{P : Primitives}.

Fixpoint replay_events (expected : bool) (last : MirrorHead) (evts : list Event) (d : DB) : result store_err (MirrorHead * DB) :=
  match evts with
  | [] => Ok (last, d)
  | evt :: rest =>
    if expected && negb (Seq evt =? u64 (mh_Seq last + 1)) then Err StBoundary
    else match materializeLocked true evt d with
    | Err e => Err (if ruleRefused e then StRefused (Seq evt) e else e)
    | Ok d' => replay_events expected (mkHead (Seq evt) (EntryHash evt)) rest d'
    end
  end.

(** [readMirrorHead]: the last mirror row and the hash its columns give. *)
Definition mirror_event (seq : Z) (r : ledger_row) : Event :=
  mkEvent seq (lr_prev r) (lr_ts r) (lr_type r) (lr_ring r) (lr_content r) [] [] false false false [].
Definition max_seq (d : DB) : Z := foldl Z.max 0 (map_to_list (t_ledger d)).*1.
Definition readMirrorHead (d : DB) : MirrorHead :=
  match t_ledger d !! max_seq d with Some r => mkHead (max_seq d) (EntryHash (mirror_event (max_seq d) r)) | None => mkHead 0 [] end.

Definition head_eqb (a b : MirrorHead) : bool := (mh_Seq a =? mh_Seq b) && beq (mh_Hash a) (mh_Hash b).

Definition replayInTransaction (evts : list Event) (expected : option MirrorHead) (d : DB) : result store_err DB :=
  '(last, d') ← replay_events (bool_decide (is_Some expected)) (mkHead 0 []) evts (clear_derived d);
  match expected with
  | None => Ok d'
  | Some h =>
    if negb (head_eqb last h) then Err StBoundary
    else if negb (head_eqb (readMirrorHead d') h) || negb (Z.of_nat (size (t_ledger d')) =? mh_Seq h) then Err StBoundary
    else Ok d'
  end.

(** [ReplayAll]: the rebuilt projection, or the one that stood. *)
Definition ReplayAll (begins commits : bool) (evts : list Event) (d : DB) : DB * option store_err :=
  if negb begins then (d, Some StTransaction)
  else match replayInTransaction evts None d with
  | Err e => (d, Some e)
  | Ok d' => if negb (foreign_keys_hold d') then (d, Some StConstraint) else if commits then (d', None) else (d, Some StTransaction)
  end.
End Transactions.
