(* ===== verification/Admission.v ===== *)
(** * internal/store/materialize.go: the gate before the record

    [ValidateEvent] decides whether an event may be appended: its ring, its
    citations (ledger/cites.go), its reading claim (ledger/dreamed_through.go),
    the rules for beliefs, portraits and relationships, and a rehearsal of its
    materialization in a transaction that is rolled back.  The transcript tables
    the live-only rules ask about are a parameter: nothing here writes them. *)

From stdpp Require Import gmap.
From Stdlib Require Import SpecFloat.
From S2P Require Import Prelude Utf8 GoJson CanonicalJson GoStruct Crypto Event Lines GoStrings Tables SelfModel Materialize.

(** The character tables of package unicode. *)
Class Unicode := { ToLowerRune : Z → Z; IsLetter : Z → bool; IsDigit : Z → bool }.

(** What the transcript answers: the text of a turn by its id, and whether a turn
    can be cited as the operator's (as the operator's own word, when asked so). *)
Record Transcript := mkTranscript { turn_content : bytes → option bytes; operator_turn : Z → bool → bool }.

(** ** Citations (ledger/cites.go) *)

Definition MaxCitations : nat := 16.
Record Citation := mkCitation { c_Identity : bytes; c_Seq : Z; c_EntryHash : bytes }.
#[export] Instance citation_eq_dec : EqDecision Citation.
Proof. solve_decision. Defined.

Definition is_lower_hex (c : Z) : bool := is_digit c || between 97 102 c.
Definition hex64 (s : bytes) : bool := (length s =? 64)%nat && forallb is_lower_hex s.

Definition CitesAllowed (t : bytes) : bool := in_set t [EventExperienceCreate; EventBeliefUpsert; EventEdgeCreate].

Definition decode_citation (raw : bytes) : option Citation :=
  ms ← members_of raw; ms ← match_members true [bs "identity"; bs "seq"; bs "entry_hash"] ms;
  identity ← field conv_string [] (bs "identity") ms;
  seq ← field conv_uint64 0 (bs "seq") ms;
  hash ← field conv_string [] (bs "entry_hash") ms;
  Some (mkCitation identity seq hash).

Fixpoint citations_loop (seen : list Citation) (raws : list bytes) : option (list Citation) :=
  match raws with
  | [] => Some []
  | one :: rest =>
    c ← decode_citation one;
    if negb (hex64 (c_Identity c)) || negb (hex64 (c_EntryHash c)) || (c_Seq c =? 0) || (9223372036854775807 <? c_Seq c) ||
       bool_decide (c ∈ seen) then None
    else cons c <$> citations_loop (c :: seen) rest
  end.

(** [None] when the citations are not in their grammar. *)
Definition ParseCitations (payload : bytes) : option (list Citation) :=
  ms ← unmarshal [bs "cites"] payload;
  match raw_ptr_field (bs "cites") ms with
  | None => Some []
  | Some cites =>
    match elems_of cites with
    | Some (Some raws) => if (MaxCitations <? length raws)%nat then None else citations_loop [] raws
    | _ => None
    end
  end.

(** ** Reading claims (ledger/dreamed_through.go) *)

Record DreamedThrough := mkDreamed { dt_Turn : bytes; dt_Position : Z }.

Definition is_turn_char (c : Z) : bool := between 65 90 c || between 97 122 c || is_digit c || (c =? 95) || (c =? 45).
Definition turnID (s : bytes) : bool := (1 <=? length s)%nat && (length s <=? 64)%nat && forallb is_turn_char s.
Definition DreamedThroughAllowed (t : bytes) : bool := beq t EventExperienceCreate.

(** The claim, [Some None] when there is none, [None] when it is not in its grammar. *)
Definition ParseDreamedThrough (payload : bytes) : option (option DreamedThrough) :=
  ms ← unmarshal [bs "dreamed_through"] payload;
  match raw_ptr_field (bs "dreamed_through") ms with
  | None => Some None
  | Some raw =>
    ms ← members_of raw; ms ← match_members true [bs "turn"; bs "position"] ms;
    turn ← ptr_field (fresh conv_string) [] (bs "turn") ms;
    position ← ptr_field (fresh conv_uint64) 0 (bs "position") ms;
    match turn, position with
    | Some turn, Some position => if turnID turn then Some (Some (mkDreamed turn position)) else None
    | _, _ => None
    end
  end.

(** ** Likeness of statements (memory/trigram) *)

Section Admission.
Context `{Q : Sqlite} `{P : Primitives} `{U : Unicode}.
Variable tr : Transcript.

(** [strings.Fields]: the pieces between white space. *)
Fixpoint fields_loop (cur : bytes) (l : list (Z * bytes)) : list bytes :=
  let flush := if beq cur [] then [] else [cur] in
  match l with
  | [] => flush
  | (r, piece) :: l' => if IsSpace r then flush ++ fields_loop [] l' else fields_loop (cur ++ piece) l'
  end.
Definition Fields (s : bytes) : list bytes := fields_loop [] (cut_runes (Utf8.decoded s) s).
Definition ToLower (s : bytes) : bytes := encode_runes (ToLowerRune <$> runes s).
Definition normalizedBeliefStatement (s : bytes) : bytes := ToLower (Join (Fields s) (bs " ")).

(** [Words], as runes. *)
Fixpoint words_loop (cur : list Z) (rs : list Z) : list (list Z) :=
  let flush := if bool_decide (cur = []) then [] else [cur] in
  match rs with
  | [] => flush
  | r :: rs' => if IsLetter r || IsDigit r then words_loop (cur ++ [ToLowerRune r]) rs' else flush ++ words_loop [] rs'
  end.
Definition Words (s : bytes) : list (list Z) := words_loop [] (runes s).

Fixpoint windows3 (l : list Z) : list (list Z) :=
  match l with a :: (b :: c :: _) as t => [a; b; c] :: windows3 t | _ => [] end.
Definition trigramSet (s : bytes) : list (list Z) :=
  remove_dups (Words s ≫= λ w, windows3 ([32; 32] ++ w ++ [32])).

Definition float_int (n : nat) : spec_float := binary_normalize 53 1024 (Z.of_nat n) 0 false.

(** [Against(a)(b)]. *)
Definition Against (a b : bytes) : spec_float :=
  let sa := trigramSet a in let sb := trigramSet b in
  if (length sa =? 0)%nat || (length sb =? 0)%nat then S754_zero false
  else let shared := length (filter (λ t, t ∈ sa) sb) in
       SFdiv 53 1024 (float_int shared) (float_int (length sa + length sb - shared)).

Definition three_quarters : spec_float := S754_finite false 6755399441055744 (-53).

(** ** The rules *)

Definition is_belief_event (t : bytes) : bool := beq t EventBeliefUpsert || beq t EventWorkingStyleUpsert.

(** The genesis the mirror holds first. *)
Definition ownFingerprintLocked (d : DB) : result store_err bytes :=
  let genesis := filter (λ kv : Z * ledger_row, lr_type kv.2 = EventRing0Genesis) (t_ledger d) in
  match foldl (λ acc kv, match acc with Some kv' => if kv.1 <? kv'.1 then Some kv else acc | None => Some kv end) None (map_to_list genesis) with
  | None => Ok []
  | Some (_, row) =>
    match (ms ← unmarshal [bs "fingerprint"] (lr_payload row); field conv_string [] (bs "fingerprint") ms) with
    | Some fp => Ok fp
    | None => Err StParse
    end
  end.

Fixpoint check_citations (self : bytes) (d : DB) (cites : list Citation) : result store_err unit :=
  match cites with
  | [] => Ok ()
  | c :: rest =>
    if beq self [] || negb (beq (c_Identity c) self) then check_citations self d rest
    else match t_ledger d !! c_Seq c with
    | None => Err StCitation
    | Some row => if beq (EntryHash (mirror_event (c_Seq c) row)) (c_EntryHash c) then check_citations self d rest else Err StCitation
    end
  end.

Definition validateCitationsLocked (t payload : bytes) (d : DB) : result store_err unit :=
  match ParseCitations payload with
  | None => Err StCitation
  | Some [] => Ok ()
  | Some cites =>
    if negb (CitesAllowed t) then Err StCitation
    else self ← ownFingerprintLocked d; check_citations self d cites
  end.

Definition validateDreamedThroughLocked (t payload : bytes) : result store_err unit :=
  match ParseDreamedThrough payload with
  | None => Err StDreamedThrough
  | Some None => Ok ()
  | Some (Some claim) =>
    match decode_strings [bs "provenance"] payload with
    | Some [provenance] =>
      if negb (DreamedThroughAllowed t) || negb (beq provenance (bs "dream")) then Err StDreamedThrough
      else match turn_content tr (dt_Turn claim) with
      | None => Err StDreamedThrough
      | Some content => if Z.of_nat (length (runes content)) <? dt_Position claim then Err StDreamedThrough else Ok ()
      end
    | _ => Err StParse
    end
  end.

(** The words an upsert gives a belief. *)
Definition upsert_text (t statement content : bytes) : bytes := if beq t EventWorkingStyleUpsert || beq statement [] then content else statement.

Definition validateRing2TextLocked (t payload : bytes) (d : DB) : result store_err unit :=
  if negb (is_belief_event t) then Ok ()
  else match decode_strings [bs "ID"; bs "Statement"; bs "Content"] payload with
  | Some [id; statement; content] =>
    if beq id [] then Ok ()
    else match t_beliefs d !! id with
    | None => Ok ()
    | Some b =>
      let text := upsert_text t statement content in
      if (b_ring b =? 2) && negb (beq text []) && negb (beq text (b_statement b)) then Err StRing2Text else Ok ()
    end
  | _ => Ok ()
  end.

Record admission_payload := mkAdmissionPayload {
  ap_ID : bytes; ap_Statement : bytes; ap_Content : bytes; ap_OriginRefs : list beliefOrigin; ap_DistinctFrom : list bytes;
  ap_Distinction : bytes; ap_DuplicateOK : bool
}.

Definition decode_admission (payload : bytes) : option admission_payload :=
  ms ← unmarshal [bs "id"; bs "statement"; bs "content"; bs "origin_refs"; bs "distinct_from"; bs "distinction"; bs "duplicate_ok"] payload;
  id ← field conv_string [] (bs "id") ms;
  statement ← field conv_string [] (bs "statement") ms;
  content ← field conv_string [] (bs "content") ms;
  origins ← slice_field origin_conv (mkOrigin [] []) (bs "origin_refs") ms;
  distinct ← slice_field (elem_of_conv conv_string) [] (bs "distinct_from") ms;
  distinction ← field conv_string [] (bs "distinction") ms;
  duplicate ← field conv_bool false (bs "duplicate_ok") ms;
  Some (mkAdmissionPayload id statement content origins distinct distinction duplicate).

Fixpoint distinct_loop (own : bytes) (seen : list bytes) (ids : list bytes) : bool :=
  match ids with
  | [] => true
  | id :: rest => negb (beq id [] || beq id own || in_set id seen) && distinct_loop own (id :: seen) rest
  end.

(** One active belief against the statement that would be admitted. *)
Definition duplicate_check (p : admission_payload) (statement : bytes) (kv : bytes * belief_row) : result store_err unit :=
  let norm := normalizedBeliefStatement statement in
  let current := normalizedBeliefStatement (b_statement kv.2) in
  if beq kv.1 (ap_ID p) then (if beq current norm then Ok () else rule (bs "cannot change its statement under the same id"))
  else if beq current norm then rule (bs "already states this")
  else if SFleb three_quarters (Against statement (b_statement kv.2)) &&
          (negb (in_set kv.1 (ap_DistinctFrom p)) || beq (TrimSpace (ap_Distinction p)) [])
  then rule (bs "may already express this claim")
  else Ok ().

Fixpoint first_error {A} (f : A → result store_err unit) (l : list A) : result store_err unit :=
  match l with [] => Ok () | x :: l' => _ ← f x; first_error f l' end.

Definition active_beliefs (d : DB) : gmap bytes belief_row := filter (λ kv, active kv.2 = true) (t_beliefs d).

Definition validateBeliefAdmissionLocked (t payload : bytes) (d : DB) : result store_err unit :=
  if negb (is_belief_event t) then Ok ()
  else
    p ← of_option StParse (decode_admission payload);
    if ap_DuplicateOK p then rule (bs "duplicate_ok cannot bypass belief admission")
    else
      let statement := upsert_text t (ap_Statement p) (ap_Content p) in
      if beq (normalizedBeliefStatement statement) [] then rule (bs "requires statement or content")
      else if beq t EventWorkingStyleUpsert && beq (TrimSpace (ap_Content p)) [] then rule (bs "working_style.upsert requires content")
      else if (length (ap_OriginRefs p) =? 0)%nat then rule (bs "requires at least one real source")
      else if negb (distinct_loop (ap_ID p) [] (ap_DistinctFrom p)) then rule (bs "distinct_from must name each different active candidate once")
      else
        _ ← first_error (duplicate_check p statement) (map_to_list (active_beliefs d));
        if forallb (has (active_beliefs d)) (ap_DistinctFrom p) then Ok () else rule (bs "distinct_from does not name an active belief").

Definition validateRetiredBeliefLocked (t payload : bytes) (d : DB) : result store_err unit :=
  if negb (is_belief_event t || beq t EventBeliefPromote) then Ok ()
  else match decode_strings [bs "ID"] payload with
  | Some [id] =>
    if beq id [] then Ok ()
    else match t_beliefs d !! id with
    | Some b => if active b then Ok () else Err StRetired
    | None => Ok ()
    end
  | _ => Ok ()
  end.

Definition validateSupersedeSuccessorLocked (t payload : bytes) (d : DB) : result store_err unit :=
  if negb (beq t EventBeliefSupersede) then Ok ()
  else match decode_strings [bs "old_id"; bs "new_id"] payload with
  | Some [old; new] =>
    if beq new old then rule (bs "names its own successor")
    else match t_beliefs d !! new with
    | Some b =>
      if b_archived b then Err (StMissing t (bs "belief") new)
      else if bool_decide (b_superseded_by b = None) then Ok () else Err StRetired
    | None => Err (StMissing t (bs "belief") new)
    end
  | _ => Ok ()
  end.

Definition validateSourceIDLocked (t payload : bytes) (d : DB) : result store_err unit :=
  let test (own other : bytes → bool) : result store_err unit :=
    match decode_strings [bs "ID"] payload with
    | Some [id] => if beq id [] then Ok () else if negb (other id) then Ok () else if own id then Ok () else Err StSourceHeld
    | _ => Ok ()
    end in
  if is_belief_event t then test (has (t_beliefs d)) (has (t_experiences d))
  else if beq t EventExperienceCreate then test (has (t_experiences d)) (has (t_beliefs d))
  else Ok ().

(** ** Rules for what happens now, which a replay does not repeat *)

Definition citedOperatorTurnLocked (turn : Z) (affirmation : bool) : result store_err unit :=
  if operator_turn tr turn affirmation then Ok () else rule (bs "cites a turn that is not the operator's").

Definition live_relationship (p : relationshipPayload) (d : DB) : result store_err unit :=
  let shape role := approvalShape role (rp_OperatorApproval p) (rp_ApprovalTurn p) (rp_ApprovalBasis p) in
  if is_operator (rp_CounterpartRole p) then
    match shape (rp_CounterpartRole p) with
    | Err _ => Ok ()
    | Ok _ => citedOperatorTurnLocked (rp_ApprovalTurn p) true
    end
  else match t_relationships d !! rp_ID p with
  | None => Ok ()
  | Some r =>
    if negb (is_operator (r_role r)) then Ok ()
    else match shape (r_role r) with
    | Err _ => Err StUnapproved
    | Ok _ => citedOperatorTurnLocked (rp_ApprovalTurn p) true
    end
  end.

(** The inputs of a run, each raw and named once; [None] when one is unknown. *)
Fixpoint raw_inputs (d : DB) (seen : list bytes) (inputs : list bytes) : option (result store_err unit) :=
  match inputs with
  | [] => Some (Ok ())
  | id :: rest =>
    match t_experiences d !! id with
    | None => None
    | Some x => if negb (x_raw x) || in_set id seen then Some (rule (bs "cites an experience which is not raw")) else raw_inputs d (id :: seen) rest
    end
  end.

Definition crossingsNotAheadLocked (d : DB) (crossings : list ConfirmedCrossing) : result store_err unit :=
  match t_lifetime d with
  | None => Ok ()
  | Some l =>
    if forallb (λ c, beq (cr_ID c) [] || (cr_Ticks c <=? 0) || (cr_Ticks c <=? lt_ticks l) || negb (has (t_beliefs d) (cr_ID c))) crossings
    then Ok () else rule (bs "a crossing ahead of the lived clock")
  end.

Definition validateLiveOnlyLocked (evt : Event) (d : DB) : result store_err unit :=
  let t := EType evt in
  if beq t EventExperienceCreate then
    match decode_experience (Payload evt) with
    | Some p =>
      if beq (xp_Content p) [] || negb (is_operator (xp_Provenance p)) || negb (is_ok (validateExperienceLocked (xp_Provenance p) (xp_SourceTurn p) (xp_SourceURL p)))
      then Ok () else citedOperatorTurnLocked (xp_SourceTurn p) false
    | None => Ok ()
    end
  else if beq t EventRelationshipUpsert then
    match readRelationshipPayload (Payload evt) with Some p => live_relationship p d | None => Ok () end
  else if beq t EventConsolidationRun || beq t EventDreamRun then
    match decode_run (Payload evt) with
    | Some p =>
      if (length (run_Inputs p) =? 0)%nat || negb (is_ok (runOutputsPrecedeLocked evt (run_Outputs p) d)) then Ok ()
      else match raw_inputs d [] (run_Inputs p) with
      | None => Ok ()
      | Some r => _ ← r; crossingsNotAheadLocked d (run_Confirmed p)
      end
    | None => Ok ()
    end
  else Ok ().

(** ** The belief an archived edge pointed at *)

(** The edges that still ground [target]: active evidence from another entity
    that is an experience or a belief, and not both. *)
Definition grounding (d : DB) (target : bytes) (e : edge_row) : bool :=
  evidence_for target e && negb (beq (e_from e) target) && xorb (has (t_experiences d) (e_from e)) (has (t_beliefs d) (e_from e)).

Definition validateActiveBeliefGroundingLocked (payload : bytes) (d : DB) : result store_err unit :=
  match decode_strings [bs "id"] payload with
  | Some [id] =>
    match t_edges d !! id with
    | None => Err StConstraint
    | Some e =>
      if negb (is_evidence e) then Ok ()
      else match t_beliefs d !! e_to e with
      | None => Ok ()
      | Some b =>
        if negb (active b) then Ok ()
        else if bool_decide (map_Forall (λ _ e', grounding d (e_to e) e' = false) (t_edges d))
        then rule (bs "edge.archive would leave an active belief without an evidence source")
        else Ok ()
      end
    end
  | _ => Err StParse
  end.

(** ** [ValidateEvent] *)

Definition candidate (seq : Z) (now t : bytes) (ring : Z) (payload : bytes) : Event :=
  mkEvent seq (bs "preflight") now t ring (bs "preflight") payload (bs "preflight") false false false [].

Definition admit_portrait (budget : Z) (t payload : bytes) (d : DB) : result store_err unit :=
  if negb (beq t EventSelfModelSynthesize) then Ok ()
  else
    portrait ← of_option StParse (DecodeSelfModelSynthesisPayload payload);
    _ ← admitSelfModelBudget budget portrait;
    admitSelfModelSourcesLocked d portrait.

Definition ValidateEvent (begins : bool) (budget : Z) (now t : bytes) (ring : Z) (payload : bytes) (d : DB) : result store_err unit :=
  if negb (existsb (Z.eqb ring) (CanonicalRings t)) then rule (bs "ring is not a legal authority")
  else if negb begins then Err StTransaction
  else
    let cand := candidate (max_seq d + 1) now t ring payload in
    _ ← validateCitationsLocked t payload d;
    _ ← validateDreamedThroughLocked t payload;
    _ ← validateRing2TextLocked t payload d;
    _ ← validateBeliefAdmissionLocked t payload d;
    _ ← validateRetiredBeliefLocked t payload d;
    _ ← validateSupersedeSuccessorLocked t payload d;
    _ ← admit_portrait budget t payload d;
    _ ← validateLiveOnlyLocked cand d;
    _ ← validateSourceIDLocked t payload d;
    d' ← materializeLocked false cand d;
    if beq t EventEdgeArchive then validateActiveBeliefGroundingLocked payload d' else Ok ().
End Admission.
