(* ===== verification/Timeless.v ===== *)
(** * What materialization does not look at

    No rule of the projection reads a clock, a hash or a signature, the lived time,
    or what runtime tables refer to: materialization commutes with [view], which
    maps clocks by [c], the lived clock by [L] and the references by [R]. *)

From stdpp Require Import gmap.
From Stdlib Require Import SpecFloat.
From S2P Require Import Prelude Utf8 GoJson CanonicalJson GoStruct Crypto Event Lines GoStrings Tables SelfModel Materialize.

Lemma has_fmap {V W} (f : V → W) (m : gmap bytes V) id : has (f <$> m) id = has m id.
Proof. unfold has. rewrite lookup_fmap. destruct (m !! id); [by rewrite !bool_decide_true by eauto|by rewrite !bool_decide_false by (by intros [])]. Qed.

Section View.
Variable c : bytes → bytes.
Variable L : option lifetime_row → option lifetime_row.
Variable R : list Z → list Z.

(** The event without its signature and its reader's marks. *)
Definition view_event (e : Event) : Event := mkEvent (Seq e) (c (Prev e)) (c (Timestamp e)) (EType e) (Ring e) (c (Content e)) (Payload e) [] false false false [].
Definition view_ledger (r : ledger_row) : ledger_row := mkLedgerRow (c (lr_prev r)) (c (lr_ts r)) (lr_type r) (lr_ring r) (lr_payload r) (c (lr_content r)).
Definition view_synthesis (s : synthesis_row) : synthesis_row :=
  mkSynthesis (sy_text s) (sy_refs s) (sy_changes s) (sy_thread s) (sy_superseded_by s) (sy_seq s) (c (sy_at s)).
Definition view_experience (x : experience_row) : experience_row :=
  mkExperience (x_content x) (x_category x) (x_raw x) (x_unmetabolized x) (x_provenance x) (x_seq x) (c (x_at x)).
Definition view_name (n : name_row) : name_row := mkName (n_id n) (n_name n) (n_zone n) (n_seq n) (c (n_at n)).
Definition view_epoch (e : epoch_row) : epoch_row := mkEpoch (ep_root e) (ep_epoch e) (ep_sha e) (c (ep_at e)).

Definition view (d : DB) : DB :=
  mkDB (view_ledger <$> t_ledger d) (t_beliefs d) (view_synthesis <$> t_synthesis d) (view_experience <$> t_experiences d) (t_intentions d)
    (t_commitments d) (t_edges d) (t_relationships d) (view_name <$> t_name d) (t_receipts d) (view_epoch <$> t_epochs d)
    (L (t_lifetime d)) (R (t_refs d)).

(** [L] agrees with how a birth seeds the lived clock. *)
Definition seeds (c : bytes → bytes) (L : option lifetime_row → option lifetime_row) : Prop :=
  ∀ ts l, match L l with None => Some (mkLifetime (c ts) 0 (c ts)) | Some x => Some x end =
          L (match l with None => Some (mkLifetime ts 0 ts) | Some x => Some x end).
Hypothesis HL : seeds c L.

Lemma has_seq_view d seq : has_seq (view d) seq = has_seq d seq.
Proof.
  unfold has_seq. cbn. rewrite lookup_fmap. destruct (t_ledger d !! seq); [by rewrite !bool_decide_true by eauto|by rewrite !bool_decide_false by (by intros [])].
Qed.

Lemma has_seq_opt_view d seq : has_seq_opt (view d) seq = has_seq_opt d seq.
Proof. destruct seq; [apply has_seq_view|done]. Qed.

Section Views.
Context `{Q : Sqlite}.
Variable deferred : bool.

(** [f] computes the same up to the view. *)
Definition timeless (f : Event → DB → result store_err DB) : Prop :=
  ∀ evt d, f (view_event evt) (view d) = view <$> f evt d.

Lemma belief_keys_view d b : belief_keys (view d) b = belief_keys d b.
Proof. unfold belief_keys. by rewrite !has_seq_view. Qed.
Lemma synthesis_keys_view d s : synthesis_keys (view d) (view_synthesis s) = synthesis_keys d s.
Proof. unfold synthesis_keys. rewrite has_seq_view. cbn. f_equal. destruct (sy_superseded_by s); [apply has_fmap|done]. Qed.
Lemma experience_keys_view d x : experience_keys (view d) (view_experience x) = experience_keys d x.
Proof. apply has_seq_view. Qed.
Lemma intention_keys_view d i : intention_keys (view d) i = intention_keys d i.
Proof. unfold intention_keys. by rewrite has_seq_view, has_seq_opt_view. Qed.
Lemma commitment_keys_view d k : commitment_keys (view d) k = commitment_keys d k.
Proof. unfold commitment_keys. by rewrite has_seq_view, has_seq_opt_view. Qed.
Lemma edge_keys_view d e : edge_keys (view d) e = edge_keys d e.
Proof. apply has_seq_view. Qed.
Lemma relationship_keys_view d r : relationship_keys (view d) r = relationship_keys d r.
Proof. unfold relationship_keys. by rewrite has_seq_view, has_seq_opt_view. Qed.

(** Statements on tables the view leaves alone. *)
Lemma set_beliefs_view f d : set_beliefs f (view d) = view (set_beliefs f d).
Proof. done. Qed.
Lemma set_edges_view f d : set_edges f (view d) = view (set_edges f d).
Proof. done. Qed.
Lemma set_intentions_view f d : set_intentions f (view d) = view (set_intentions f d).
Proof. done. Qed.
Lemma set_commitments_view f d : set_commitments f (view d) = view (set_commitments f d).
Proof. done. Qed.
Lemma set_relationships_view f d : set_relationships f (view d) = view (set_relationships f d).
Proof. done. Qed.
Lemma set_synthesis_view id s d : set_synthesis <[id := view_synthesis s]> (view d) = view (set_synthesis <[id := s]> d).
Proof. unfold set_synthesis, view. cbn. by rewrite fmap_insert. Qed.
Lemma set_experiences_view id x d : set_experiences <[id := view_experience x]> (view d) = view (set_experiences <[id := x]> d).
Proof. unfold set_experiences, view. cbn. by rewrite fmap_insert. Qed.

Lemma upsert_belief_view id b d : upsert_belief deferred id b (view d) = view <$> upsert_belief deferred id b d.
Proof.
  unfold upsert_belief. destruct (negb _); [done|]. cbn zeta. change (t_beliefs (view d)) with (t_beliefs d).
  rewrite set_beliefs_view, belief_keys_view. by destruct (fk _ _).
Qed.

Lemma update_belief_view id f err d : update_belief deferred id f err (view d) = view <$> update_belief deferred id f err d.
Proof.
  unfold update_belief. change (t_beliefs (view d)) with (t_beliefs d). destruct (t_beliefs d !! id); [|done]. cbn zeta.
  rewrite set_beliefs_view, belief_keys_view. by destruct (fk _ _).
Qed.

Lemma insert_edge_row_view id e d : insert_edge_row deferred id e (view d) = view <$> insert_edge_row deferred id e d.
Proof. unfold insert_edge_row. cbn zeta. rewrite set_edges_view, edge_keys_view. by destruct (fk _ _). Qed.

Lemma insert_edge_view name e d : insert_edge deferred name e (view d) = (λ p, (view p.1, p.2)) <$> insert_edge deferred name e d.
Proof.
  unfold insert_edge. change (t_edges (view d)) with (t_edges d). change (has_triple (view d) e) with (has_triple d e).
  destruct (_ || _); [done|]. rewrite insert_edge_row_view. by destruct (insert_edge_row _ _ _ _).
Qed.

Lemma insert_origin_view name e d : insert_origin deferred name e (view d) = view <$> insert_origin deferred name e d.
Proof.
  unfold insert_origin. change (t_edges (view d)) with (t_edges d). change (has_triple (view d) e) with (has_triple d e).
  destruct (negb _); [done|]. destruct (has_triple _ _); [done|]. destruct (has _ _); [done|].
  rewrite insert_edge_row_view. by destruct (insert_edge_row _ _ _ _).
Qed.

Lemma origin_step_view target i ref evt d :
  origin_step deferred (view_event evt) target i ref (view d) = view <$> origin_step deferred evt target i ref d.
Proof.
  unfold origin_step. destruct (_ || _); [done|]. change (t_beliefs (view d)) with (t_beliefs d).
  change (t_experiences (view d)) with (view_experience <$> t_experiences d). rewrite has_fmap.
  change (Seq (view_event evt)) with (Seq evt).
  destruct (if beq (og_Kind ref) _ then _ else _) as [[own other]|]; [|done]. cbn [mbind result_bind].
  destruct (negb own); [done|]. destruct other; [done|].
  rewrite insert_origin_view. destruct (insert_origin _ _ _ _) as [d'|]; [|done]. cbn [mbind result_bind fmap result_map].
  change (active_origin (view d') (og_ID ref) target) with (active_origin d' (og_ID ref) target). by destruct (active_origin _ _ _).
Qed.

Lemma origins_loop_view target evt refs : ∀ i seen d,
  origins_loop deferred (view_event evt) target i seen refs (view d) = view <$> origins_loop deferred evt target i seen refs d.
Proof.
  induction refs as [|ref refs IH]; intros i seen d; [done|]. cbn [origins_loop]. destruct (_ && _); [done|].
  rewrite origin_step_view. destruct (origin_step _ _ _ _ _ _); [apply IH|done].
Qed.

Lemma origins_view target refs evt d :
  materializeBeliefOriginsLocked deferred (view_event evt) target refs (view d) = view <$> materializeBeliefOriginsLocked deferred evt target refs d.
Proof.
  unfold materializeBeliefOriginsLocked. destruct refs as [refs|]; [|done]. destruct (_ =? _)%nat; [done|].
  rewrite origins_loop_view. destruct (origins_loop _ _ _ _ _ _ _) as [d'|]; [|done]. cbn [mbind result_bind fmap result_map].
  change (evidence_count (view d') target) with (evidence_count d' target). by destruct (_ =? _).
Qed.

(** ** The materializers, one by one *)

Lemma birth_timeless : timeless materializeBirth.
Proof.
  intros evt d. unfold materializeBirth. cbn [fmap result_map]. f_equal. pose proof (HL (Timestamp evt) (t_lifetime d)) as H.
  change (t_lifetime (view d)) with (L (t_lifetime d)). change (Timestamp (view_event evt)) with (c (Timestamp evt)).
  destruct (t_lifetime d) as [l|] eqn:E; unfold view, set_lifetime; cbn; rewrite ?E, <- H; by destruct (L _) eqn:E'.
Qed.

Lemma belief_upsert_timeless : timeless (materializeBeliefUpsert deferred).
Proof.
  intros evt d. unfold materializeBeliefUpsert. change (Payload (view_event evt)) with (Payload evt).
  destruct (of_option _ _) as [p|]; [|done]. cbn [mbind result_bind]. destruct (beq _ _); [done|]. cbn zeta.
  change (new_belief (view_event evt)) with (new_belief evt). rewrite upsert_belief_view.
  destruct (upsert_belief _ _ _ _); [apply origins_view|done].
Qed.

Lemma working_style_timeless : timeless (materializeWorkingStyle deferred).
Proof.
  intros evt d. unfold materializeWorkingStyle. change (Payload (view_event evt)) with (Payload evt).
  destruct (of_option _ _) as [p|]; [|done]. cbn [mbind result_bind]. destruct (beq _ _); [done|].
  change (new_belief (view_event evt)) with (new_belief evt). rewrite upsert_belief_view.
  destruct (upsert_belief _ _ _ _); [apply origins_view|done].
Qed.

Lemma belief_promote_timeless : timeless (materializeBeliefPromote deferred).
Proof.
  intros evt d. unfold materializeBeliefPromote. change (Payload (view_event evt)) with (Payload evt).
  destruct (of_option _ _) as [[id ring]|]; [|done]. cbn [mbind result_bind]. destruct (_ || _); [done|]. apply update_belief_view.
Qed.

Lemma belief_archive_timeless : timeless (materializeBeliefArchive deferred).
Proof.
  intros evt d. unfold materializeBeliefArchive. change (Payload (view_event evt)) with (Payload evt).
  destruct (decode_strings _ _) as [[|id [|? [|]]]|]; try done. apply update_belief_view.
Qed.

Lemma belief_supersede_timeless : timeless (materializeBeliefSupersede deferred).
Proof.
  intros evt d. unfold materializeBeliefSupersede. change (Payload (view_event evt)) with (Payload evt).
  destruct (decode_strings _ _) as [[|old [|new [|reason [|]]]]|]; try done.
  change (Seq (view_event evt)) with (Seq evt). change (EType (view_event evt)) with (EType evt).
  rewrite update_belief_view. destruct (update_belief _ _ _ _ _) as [d'|]; [|done]. cbn [mbind result_bind fmap result_map].
  rewrite insert_edge_view. by destruct (insert_edge _ _ _ _) as [[? ?]|].
Qed.

Lemma edge_archive_timeless : timeless materializeEdgeArchive.
Proof.
  intros evt d. unfold materializeEdgeArchive. change (Payload (view_event evt)) with (Payload evt).
  destruct (decode_strings _ _) as [[|id [|]]|]; try done. change (t_edges (view d)) with (t_edges d).
  destruct (t_edges d !! id); [|done]. cbn zeta. by destruct (is_evidence _).
Qed.

Lemma edge_create_timeless : timeless (materializeEdgeLocked deferred).
Proof.
  intros evt d. unfold materializeEdgeLocked. change (Payload (view_event evt)) with (Payload evt).
  destruct (of_option _ _) as [p|]; [|done]. cbn [mbind result_bind]. change (Seq (view_event evt)) with (Seq evt).
  rewrite insert_edge_view. destruct (insert_edge _ _ _ _) as [[d' ins]|]; [|done]. cbn [mbind result_bind fmap result_map fst snd].
  destruct (negb ins); [done|]. destruct (in_set _ _); [|done]. change (t_beliefs (view d')) with (t_beliefs d').
  destruct (t_beliefs d' !! _); [|done]. apply update_belief_view.
Qed.

Lemma intention_create_timeless : timeless (materializeIntentionCreate deferred).
Proof.
  intros evt d. unfold materializeIntentionCreate. change (Payload (view_event evt)) with (Payload evt).
  destruct (decode_strings _ _) as [[|id [|st [|why [|]]]]|]; try done. destruct (beq _ _); [done|].
  change (t_intentions (view d)) with (t_intentions d). destruct (has _ _); [done|]. cbn zeta.
  rewrite set_intentions_view, intention_keys_view. by destruct (fk _ _).
Qed.

Lemma intention_change_timeless : timeless (materializeIntentionStateChange deferred).
Proof.
  intros evt d. unfold materializeIntentionStateChange. change (Payload (view_event evt)) with (Payload evt).
  destruct (decode_strings _ _) as [[|id [|st [|out [|]]]]|]; try done. destruct (negb _); [done|].
  change (t_intentions (view d)) with (t_intentions d). destruct (t_intentions d !! id); [|done]. cbn zeta.
  rewrite set_intentions_view, intention_keys_view. by destruct (fk _ _).
Qed.

Lemma commitment_promised_timeless : timeless (materializeCommitmentPromised deferred).
Proof.
  intros evt d. unfold materializeCommitmentPromised. change (Payload (view_event evt)) with (Payload evt).
  destruct (decode_strings _ _) as [[|id [|ds [|cp [|]]]]|]; try done. destruct (beq _ _); [done|].
  change (t_commitments (view d)) with (t_commitments d). destruct (has _ _); [done|]. cbn zeta.
  rewrite set_commitments_view, commitment_keys_view. by destruct (fk _ _).
Qed.

Lemma commitment_change_timeless : timeless (materializeCommitmentStateChange deferred).
Proof.
  intros evt d. unfold materializeCommitmentStateChange. change (Payload (view_event evt)) with (Payload evt).
  destruct (decode_strings _ _) as [[|id [|st [|res [|rep [|note [|]]]]]]|]; try done. destruct (negb _); [done|].
  change (t_commitments (view d)) with (t_commitments d). destruct (t_commitments d !! id); [|done]. cbn zeta.
  rewrite set_commitments_view, commitment_keys_view. by destruct (fk _ _).
Qed.

Lemma witnessed_timeless : timeless materializeSystemWitnessed.
Proof.
  intros evt d. unfold materializeSystemWitnessed. change (Payload (view_event evt)) with (Payload evt).
  destruct (decode_witnessed _) as [[[r|] before]|]; [|by destruct (beq _ _)|done]. destruct (_ || _); [done|]. by destruct (negb _).
Qed.

Lemma epoch_timeless : timeless materializeTrustEpochAccepted.
Proof.
  intros evt d. unfold materializeTrustEpochAccepted. change (Payload (view_event evt)) with (Payload evt).
  destruct (of_option _ _) as [[[root epoch] sha]|]; [|done]. cbn [mbind result_bind]. destruct (_ || _); [done|].
  unfold set_epochs, view. cbn. by rewrite fmap_app.
Qed.

Lemma name_timeless : timeless (materializePublicName deferred).
Proof.
  intros evt d. unfold materializePublicName. change (Payload (view_event evt)) with (Payload evt).
  destruct (decode_strings _ _) as [[|id [|name [|zone [|]]]]|]; try done.
  destruct (ValidatePublicNamePayload _ _ _); [|done]. cbn [mbind result_bind].
  assert (n_zone <$> t_name (view d) = n_zone <$> t_name d) as -> by (cbn; by destruct (t_name d)).
  destruct (bool_decide _); [done|]. cbn zeta. change (Seq (view_event evt)) with (Seq evt).
  change (set_name (Some (mkName id name zone (Seq evt) (Timestamp (view_event evt)))) (view d))
    with (view (set_name (Some (mkName id name zone (Seq evt) (Timestamp evt))) d)).
  rewrite has_seq_view. by destruct (fk _ _).
Qed.

Lemma experience_timeless : timeless (materializeExperience deferred).
Proof.
  intros evt d. unfold materializeExperience. change (Payload (view_event evt)) with (Payload evt).
  destruct (of_option _ _) as [p|]; [|done]. cbn [mbind result_bind]. destruct (beq _ _); [done|].
  destruct (validateExperienceLocked _ _ _); [|done]. cbn [mbind result_bind]. cbn zeta.
  set (x := mkExperience _ _ _ _ _ (Seq evt) (Timestamp evt)).
  change (mkExperience _ _ _ _ _ (Seq (view_event evt)) _) with (view_experience x).
  change (check_experience (view_experience x)) with (check_experience x). destruct (negb (check_experience x)); [done|].
  rewrite set_experiences_view, experience_keys_view. by destruct (fk _ _).
Qed.

Lemma outputs_precede_view evt outputs d : runOutputsPrecedeLocked (view_event evt) outputs (view d) = runOutputsPrecedeLocked evt outputs d.
Proof.
  induction outputs as [|seq outputs IH]; [done|]. cbn [runOutputsPrecedeLocked]. rewrite has_seq_view. change (Seq (view_event evt)) with (Seq evt).
  by rewrite IH.
Qed.

Lemma consume_inputs_view evt inputs : ∀ d, consume_inputs (view_event evt) inputs (view d) = view <$> consume_inputs evt inputs d.
Proof.
  induction inputs as [|id inputs IH]; intros d; [done|]. cbn [consume_inputs].
  change (t_experiences (view d)) with (view_experience <$> t_experiences d). rewrite lookup_fmap.
  destruct (t_experiences d !! id) as [x|]; [|done]. cbn [fmap option_fmap option_map].
  change (experience_consumed (view_experience x)) with (view_experience (experience_consumed x)). by rewrite set_experiences_view.
Qed.

Lemma confirm_crossings_view evt crossings : ∀ d,
  confirm_crossings (view_event evt) crossings (view d) = view <$> confirm_crossings evt crossings d.
Proof.
  induction crossings as [|cr crossings IH]; intros d; [done|]. cbn [confirm_crossings]. destruct (_ || _); [done|].
  change (t_beliefs (view d)) with (t_beliefs d). destruct (negb _); [done|]. by rewrite <- IH.
Qed.

Lemma facility_run_timeless : timeless materializeFacilityRun.
Proof.
  intros evt d. unfold materializeFacilityRun. change (Payload (view_event evt)) with (Payload evt).
  destruct (of_option _ _) as [p|]; [|done]. cbn [mbind result_bind]. destruct (_ =? _)%nat; [done|].
  rewrite outputs_precede_view. destruct (runOutputsPrecedeLocked _ _ _); [|done]. cbn [mbind result_bind].
  rewrite consume_inputs_view. destruct (consume_inputs _ _ _); [|done]. apply confirm_crossings_view.
Qed.

Lemma relationship_timeless : timeless (materializeRelationshipLocked deferred).
Proof.
  intros evt d. unfold materializeRelationshipLocked. change (Payload (view_event evt)) with (Payload evt).
  destruct (of_option _ _) as [p|]; [|done]. cbn [mbind result_bind].
  change (validateRelationshipLocked p (view d)) with (validateRelationshipLocked p d).
  destruct (validateRelationshipLocked p d); [|done]. cbn [mbind result_bind].
  assert (upsert_relationship deferred (view_event evt) p (view d) = view <$> upsert_relationship deferred evt p d) as ->.
  { unfold upsert_relationship. cbn zeta. destruct (negb _); [done|]. change (t_relationships (view d)) with (t_relationships d).
    rewrite set_relationships_view, relationship_keys_view. by destruct (fk _ _). }
  destruct (upsert_relationship _ _ _ _) as [d1|]; [|done]. cbn [mbind result_bind fmap result_map].
  assert ((if beq (rp_Supersedes p) [] then Ok (view d1) else supersede_relationship deferred (rp_Supersedes p) (rp_ID p) (view d1)) =
    view <$> (if beq (rp_Supersedes p) [] then Ok d1 else supersede_relationship deferred (rp_Supersedes p) (rp_ID p) d1)) as ->.
  { destruct (beq _ _); [done|]. unfold supersede_relationship. change (t_relationships (view d1)) with (t_relationships d1).
    destruct (t_relationships d1 !! _); [|done]. destruct (bool_decide _); [|done]. cbn zeta.
    rewrite set_relationships_view, relationship_keys_view. by destruct (fk _ _). }
  destruct (if beq _ _ then _ else _) as [d2|]; [|done]. cbn [mbind result_bind fmap result_map].
  change (current_operators (view d2)) with (current_operators d2). by destruct (_ && _).
Qed.

(** The current portrait, up to when it was made. *)
Definition view_current (k : SelfModelSynthesis) : SelfModelSynthesis := mkCurrent (cs_ID k) (view_synthesis (cs_row k)) (cs_refs k).

Lemma current_view d : currentSelfModelLocked (view d) = (λ o : option SelfModelSynthesis, view_current <$> o) <$> currentSelfModelLocked d.
Proof.
  unfold currentSelfModelLocked. change (t_synthesis (view d)) with (view_synthesis <$> t_synthesis d).
  assert (filter is_current (view_synthesis <$> t_synthesis d) = view_synthesis <$> filter is_current (t_synthesis d)) as ->
    by (rewrite map_filter_fmap; done).
  rewrite map_to_list_fmap. destruct (map_to_list _) as [|[id row] [|]]; [done| |done]. cbn [fmap list_fmap prod_map fst snd].
  change (sy_refs (view_synthesis row)) with (sy_refs row). by destruct (decodeRecordedRefs _).
Qed.

Lemma sources_view d p h : self_model_sources (view d) p h = (λ x : list SelfModelSourceRef * option SelfModelSynthesis, (x.1, view_current <$> x.2)) <$> self_model_sources d p h.
Proof.
  unfold self_model_sources, validateSelfModelPayloadLocked. destruct h.
  - rewrite current_view. by destruct (currentSelfModelLocked d).
  - destruct (beq _ _); [done|]. destruct (beq _ _); [done|]. destruct (beq _ _); [done|].
    destruct (canonicalSelfModelRefs _); [|done]. cbn [mbind result_bind]. rewrite current_view.
    destruct (currentSelfModelLocked d) as [[k|]|]; [| |done]; cbn [mbind result_bind fmap result_map option_fmap option_map].
    + change (cs_ID (view_current k)) with (cs_ID k). destruct (negb _); [done|].
      change (sy_text (cs_row (view_current k))) with (sy_text (cs_row k)).
      change (sy_thread (cs_row (view_current k))) with (sy_thread (cs_row k)).
      change (cs_refs (view_current k)) with (cs_refs k). by destruct (_ && _).
    + by destruct (negb _).
Qed.

Lemma insert_synthesis_view replace name row d :
  insert_synthesis deferred replace name (view_synthesis row) (view d) = view <$> insert_synthesis deferred replace name row d.
Proof.
  unfold insert_synthesis. change (sy_refs (view_synthesis row)) with (sy_refs row). destruct (negb (json_valid _)); [done|].
  change (t_synthesis (view d)) with (view_synthesis <$> t_synthesis d). rewrite has_fmap. destruct (_ && _); [done|]. cbn zeta.
  rewrite set_synthesis_view, synthesis_keys_view. by destruct (fk _ _).
Qed.

Lemma supersede_current_view current name d :
  supersede_current deferred (view_current <$> current) name (view d) = view <$> supersede_current deferred current name d.
Proof.
  unfold supersede_current. destruct current as [k|]; [|done]. cbn [fmap option_fmap option_map].
  change (cs_ID (view_current k)) with (cs_ID k). destruct (beq _ _); [done|]. unfold supersede_synthesis.
  change (t_synthesis (view d)) with (view_synthesis <$> t_synthesis d). rewrite lookup_fmap.
  destruct (t_synthesis d !! cs_ID k) as [row|]; [|done]. cbn [fmap option_fmap option_map].
  change (sy_superseded_by (view_synthesis row)) with (sy_superseded_by row). destruct (bool_decide _); [|done]. cbn zeta.
  change (synthesis_superseded name (view_synthesis row)) with (view_synthesis (synthesis_superseded name row)).
  rewrite set_synthesis_view, synthesis_keys_view. by destruct (fk _ _).
Qed.

Lemma self_model_timeless : timeless (materializeSelfModelSynthesis deferred).
Proof.
  intros evt d. unfold materializeSelfModelSynthesis. change (Payload (view_event evt)) with (Payload evt).
  destruct (DecodeRecordedSelfModelSynthesis _) as [[payload h]|]; [|done]. cbn zeta. rewrite sources_view.
  destruct (self_model_sources _ _ _) as [[refs current]|]; [|done]. cbn [mbind result_bind fmap result_map fst snd].
  set (row := mkSynthesis _ _ _ _ None (Seq evt) (Timestamp evt)).
  change (mkSynthesis _ _ _ _ None (Seq (view_event evt)) _) with (view_synthesis row).
  rewrite insert_synthesis_view. destruct (insert_synthesis _ _ _ _ _); [|done]. apply supersede_current_view.
Qed.

Lemma apply_event_timeless : timeless (apply_event deferred).
Proof.
  intros evt d. unfold apply_event. change (EType (view_event evt)) with (EType evt).
  repeat (match goal with |- context[if ?b then _ else _] => destruct b end;
    [first [apply birth_timeless|apply belief_upsert_timeless|apply working_style_timeless|apply belief_promote_timeless|apply belief_archive_timeless
           |apply belief_supersede_timeless|apply self_model_timeless|apply relationship_timeless|apply edge_create_timeless|apply edge_archive_timeless
           |apply witnessed_timeless|apply epoch_timeless|apply name_timeless|apply experience_timeless|apply facility_run_timeless
           |apply intention_create_timeless|apply intention_change_timeless|apply commitment_promised_timeless|apply commitment_change_timeless]|]).
  done.
Qed.

Lemma mirror_timeless : timeless mirror_insert.
Proof.
  intros evt d. unfold mirror_insert. change (Seq (view_event evt)) with (Seq evt). change (Ring (view_event evt)) with (Ring evt).
  change (Payload (view_event evt)) with (Payload evt). rewrite has_seq_view. destruct (negb _); [done|]. destruct (_ || _); [done|].
  unfold set_ledger, view. cbn. by rewrite fmap_insert.
Qed.

Lemma materialize_timeless : timeless (materializeLocked deferred).
Proof.
  intros evt d. unfold materializeLocked. rewrite mirror_timeless. destruct (mirror_insert evt d); [|done]. apply apply_event_timeless.
Qed.

End Views.
End View.

(** ** Two views *)

(** Clocks and hashes blank. *)
Definition blank (_ : bytes) : bytes := [].
Definition blank_lifetime (l : lifetime_row) : lifetime_row := mkLifetime [] (lt_ticks l) [].
Definition erase (d : DB) : DB := view blank (fmap blank_lifetime) id d.

Lemma erase_seeds : seeds blank (fmap blank_lifetime).
Proof. intros ts [l|]; done. Qed.

(** Another lived clock, and other references. *)
Definition with_env (L : option lifetime_row → option lifetime_row) (R : list Z → list Z) (d : DB) : DB :=
  mkDB (t_ledger d) (t_beliefs d) (t_synthesis d) (t_experiences d) (t_intentions d) (t_commitments d) (t_edges d) (t_relationships d)
    (t_name d) (t_receipts d) (t_epochs d) (L (t_lifetime d)) (R (t_refs d)).

Lemma view_id L R d : view id L R d = with_env L R d.
Proof.
  unfold view, with_env. f_equal.
  - rewrite <- (map_fmap_id (t_ledger d)) at 2. apply map_fmap_ext. by intros ? [].
  - rewrite <- (map_fmap_id (t_synthesis d)) at 2. apply map_fmap_ext. by intros ? [].
  - rewrite <- (map_fmap_id (t_experiences d)) at 2. apply map_fmap_ext. by intros ? [].
  - by destruct (t_name d) as [[]|].
  - rewrite <- (list_fmap_id (t_epochs d)) at 2. apply list_fmap_ext. by intros ? [].
Qed.

Lemma with_env_id d : with_env id id d = d.
Proof. by destruct d. Qed.

Section Uses.
Context `{Q : Sqlite}.
Variable deferred : bool.

(** Events that differ in clocks, hashes and signatures alone are taken alike. *)
Lemma materialize_alike evt evt' d d' : view_event blank evt = view_event blank evt' → materializeLocked deferred evt d = Ok d' →
  ∃ d'', materializeLocked deferred evt' d = Ok d'' ∧ erase d'' = erase d'.
Proof.
  intros He Hm. pose proof (materialize_timeless blank (fmap blank_lifetime) id erase_seeds deferred evt d) as H1.
  pose proof (materialize_timeless blank (fmap blank_lifetime) id erase_seeds deferred evt' d) as H2.
  rewrite He, H2, Hm in H1. destruct (materializeLocked deferred evt' d) as [d''|]; [|done]. exists d''. split; [done|].
  exact (f_equal (λ r, match r with Ok x => x | Err _ => erase d' end) H1).
Qed.

Lemma materialize_plain evt d : materializeLocked deferred (view_event id evt) d = materializeLocked deferred evt d.
Proof.
  pose proof (materialize_timeless id id id ltac:(by intros ts [l|]) deferred evt d) as H.
  rewrite view_id, with_env_id in H. rewrite H. destruct (materializeLocked deferred evt d) as [d'|]; [|done].
  cbn [fmap result_map]. by rewrite view_id, with_env_id.
Qed.

(** Materialization leaves the lived clock and the references as they are. *)
Lemma materialize_env L R evt d : seeds id L →
  materializeLocked deferred evt (with_env L R d) = with_env L R <$> materializeLocked deferred evt d.
Proof.
  intros HL. rewrite <- materialize_plain, <- view_id, (materialize_timeless id L R HL).
  destruct (materializeLocked deferred evt d) as [d'|]; [|done]. cbn [fmap result_map]. by rewrite view_id.
Qed.
End Uses.
