(* ===== verification/Projection.v ===== *)
(** * The projection of a record

    Foreign keys hold after every event, so that a replay, which checks them at
    commit, rebuilds what the live run built; and the rules that make the
    projection mean something hold of every record that materializes. *)

From stdpp Require Import gmap.
From Stdlib Require Import SpecFloat.
From S2P Require Import Prelude Utf8 GoJson CanonicalJson GoStruct Crypto Event Lines GoStrings Tables SelfModel Materialize Timeless.

(** ** Foreign keys *)

Lemma has_insert {V} (m : gmap bytes V) id v x : has m x = true → has (<[id := v]> m) x = true.
Proof. unfold has. rewrite !bool_decide_eq_true. intros H. destruct (decide (id = x)) as [->|]; [rewrite lookup_insert_eq; eauto|by rewrite lookup_insert_ne]. Qed.

Lemma has_opt_insert {V} (m : gmap bytes V) id v o : has_opt m o = true → has_opt (<[id := v]> m) o = true.
Proof. destruct o; [apply has_insert|done]. Qed.

Lemma has_seq_grow d seq r s : has_seq d s = true → has_seq (set_ledger <[seq := r]> d) s = true.
Proof.
  unfold has_seq. rewrite !bool_decide_eq_true. cbn. intros H.
  destruct (decide (seq = s)) as [->|]; [rewrite lookup_insert_eq; eauto|by rewrite lookup_insert_ne].
Qed.

Lemma has_seq_opt_grow d seq r s : has_seq_opt d s = true → has_seq_opt (set_ledger <[seq := r]> d) s = true.
Proof. destruct s; [apply has_seq_grow|done]. Qed.

#[local] Hint Resolve has_insert has_opt_insert has_seq_grow has_seq_opt_grow : go.

Ltac keys := unfold belief_keys, synthesis_keys, experience_keys, intention_keys, commitment_keys, edge_keys, relationship_keys in *;
  rewrite ?andb_true_iff in *; naive_solver (eauto with go).

Lemma keys_ledger d seq r : keys_hold d → keys_hold (set_ledger <[seq := r]> d).
Proof.
  intros [? ? ? ? ? ? ? ? Hr]. split; try (eapply map_Forall_impl; [eassumption|]; intros ? ?; keys).
  - by apply has_seq_opt_grow.
  - eapply Forall_impl; [exact Hr|]. intros s. apply has_seq_grow.
Qed.

Lemma keys_belief d id b : keys_hold d → belief_keys (set_beliefs <[id := b]> d) b = true → keys_hold (set_beliefs <[id := b]> d).
Proof.
  intros [? ? ? ? ? ? ? ? ?] Hb. split; try done. apply map_Forall_insert_2; [done|].
  eapply map_Forall_impl; [eassumption|]. intros ? ?. unfold belief_keys. cbn. keys.
Qed.

Lemma keys_alter d id f : (∀ b, b_first_seq (f b) = b_first_seq b ∧ b_last_seq (f b) = b_last_seq b ∧ b_superseded_by (f b) = b_superseded_by b) →
  keys_hold d → keys_hold (alter_belief id f d).
Proof.
  intros Hf [Hb ? ? ? ? ? ? ? ?]. split; try done. intros i b'. cbn. intros Hi.
  assert (∃ b, t_beliefs d !! i = Some b ∧ belief_keys (alter_belief id f d) b' = belief_keys (alter_belief id f d) b) as (b & Hi' & ->).
  { destruct (decide (id = i)) as [->|Hne].
    - rewrite lookup_alter_eq in Hi. apply fmap_Some in Hi as (b & Hb' & ->). exists b. split; [done|].
      unfold belief_keys. by destruct (Hf b) as (-> & -> & ->).
    - rewrite lookup_alter_ne in Hi by done. by exists b'. }
  specialize (Hb i b Hi'). unfold belief_keys in *. rewrite andb_true_iff in *. destruct Hb as [Hb Ho]. split; [exact Hb|].
  destruct (b_superseded_by b) as [x|]; [|done]. cbn in Ho |- *. unfold has in *. rewrite bool_decide_eq_true in *.
  destruct (decide (id = x)) as [->|]; [rewrite lookup_alter_eq; by apply fmap_is_Some|by rewrite lookup_alter_ne].
Qed.

Lemma keys_synthesis d id s : keys_hold d → synthesis_keys (set_synthesis <[id := s]> d) s = true → keys_hold (set_synthesis <[id := s]> d).
Proof.
  intros [? ? ? ? ? ? ? ? ?] Hb. split; try done. apply map_Forall_insert_2; [done|].
  eapply map_Forall_impl; [eassumption|]. intros ? ?. unfold synthesis_keys. cbn. keys.
Qed.

Lemma keys_experience d id x : keys_hold d → experience_keys (set_experiences <[id := x]> d) x = true → keys_hold (set_experiences <[id := x]> d).
Proof. intros [? ? ? ? ? ? ? ? ?] Hb. split; try done. by apply map_Forall_insert_2. Qed.

Lemma keys_intention d id i : keys_hold d → intention_keys (set_intentions <[id := i]> d) i = true → keys_hold (set_intentions <[id := i]> d).
Proof. intros [? ? ? ? ? ? ? ? ?] Hb. split; try done. by apply map_Forall_insert_2. Qed.

Lemma keys_commitment d id k : keys_hold d → commitment_keys (set_commitments <[id := k]> d) k = true → keys_hold (set_commitments <[id := k]> d).
Proof. intros [? ? ? ? ? ? ? ? ?] Hb. split; try done. by apply map_Forall_insert_2. Qed.

Lemma keys_edge d id e : keys_hold d → edge_keys (set_edges <[id := e]> d) e = true → keys_hold (set_edges <[id := e]> d).
Proof. intros [? ? ? ? ? ? ? ? ?] Hb. split; try done. by apply map_Forall_insert_2. Qed.

Lemma keys_relationship d id r : keys_hold d → relationship_keys (set_relationships <[id := r]> d) r = true →
  keys_hold (set_relationships <[id := r]> d).
Proof.
  intros [? ? ? ? ? ? ? ? ?] Hb. split; try done.
  - eapply map_Forall_impl; [eassumption|]. intros ? ?. unfold commitment_keys. cbn. keys.
  - apply map_Forall_insert_2; [done|]. eapply map_Forall_impl; [eassumption|]. intros ? ?. unfold relationship_keys. cbn. keys.
Qed.

(** A step is sound when what it does with keys checked by the statement it also
    does with keys deferred, and keys that held still hold. *)
Definition sound (f : bool → DB → result store_err DB) : Prop :=
  ∀ d d', f false d = Ok d' → f true d = Ok d' ∧ (keys_hold d → keys_hold d').

Lemma sound_bind f g : sound f → sound g → sound (λ b d, d1 ← f b d; g b d1).
Proof.
  intros Hf Hg d d' (d1 & H1 & H2)%bind_ok. destruct (Hf _ _ H1) as [-> Hk]. destruct (Hg _ _ H2) as [H Hk']. split; [exact H|auto].
Qed.

Lemma sound_pure (g : DB → result store_err DB) : (∀ d d', g d = Ok d' → keys_hold d → keys_hold d') → sound (λ _, g).
Proof. intros Hg d d' H. split; [done|]. by apply Hg. Qed.

(** A statement that checks the keys of the row it writes. *)
Lemma fk_ok b k : fk b k = Ok () → b = true ∨ k = true.
Proof. unfold fk. destruct b, k; naive_solver. Qed.

Lemma sound_fk (k : bool) (d d' d1 : DB) : (keys_hold d → k = true → keys_hold d1) →
  (_ ← fk false k; mret d1) = Ok d' → (_ ← fk true k; mret d1) = Ok d' ∧ (keys_hold d → keys_hold d').
Proof. intros H. unfold fk. destruct k; [|done]. cbn. intros [= <-]. split; [done|auto]. Qed.

Section Sound.
Context `{Q : Sqlite}.

Lemma upsert_belief_sound id b : sound (λ f, upsert_belief f id b).
Proof.
  intros d d'. unfold upsert_belief. destruct (negb _); [done|]. cbn zeta. apply sound_fk. intros Hd. by apply keys_belief.
Qed.

Lemma update_belief_sound id f err : sound (λ b, update_belief b id f err).
Proof.
  intros d d'. unfold update_belief. destruct (t_beliefs d !! id); [|done]. cbn zeta. apply sound_fk. intros Hd. by apply keys_belief.
Qed.

Lemma insert_edge_row_sound id e : sound (λ b, insert_edge_row b id e).
Proof. intros d d'. unfold insert_edge_row. cbn zeta. apply sound_fk. intros Hd. by apply keys_edge. Qed.

Lemma insert_edge_sound id e d d' x : insert_edge false id e d = Ok (d', x) →
  insert_edge true id e d = Ok (d', x) ∧ (keys_hold d → keys_hold d').
Proof.
  unfold insert_edge. destruct (_ || _); [by intros [= <- <-]|]. intros (d1 & H1 & [= <- <-])%bind_ok.
  apply insert_edge_row_sound in H1 as [-> H]. done.
Qed.

Lemma counted_keys n b : b_first_seq (belief_counted n b) = b_first_seq b ∧ b_last_seq (belief_counted n b) = b_last_seq b ∧
  b_superseded_by (belief_counted n b) = b_superseded_by b.
Proof. done. Qed.

Lemma insert_origin_sound id e : sound (λ b, insert_origin b id e).
Proof.
  intros d d'. unfold insert_origin. destruct (negb _); [done|]. destruct (has_triple _ _); [by intros [= <-]|]. destruct (has _ _); [done|].
  intros (d1 & H1 & [= <-])%bind_ok. apply insert_edge_row_sound in H1 as [-> H]. split; [done|]. intros Hd.
  apply keys_alter; [|auto]. intros b. apply counted_keys.
Qed.

Lemma origin_step_sound evt target i ref : sound (λ b, origin_step b evt target i ref).
Proof.
  intros d d'. unfold origin_step. destruct (_ || _); [done|]. destruct (if beq (og_Kind ref) _ then _ else _) as [[own other]|]; [|done].
  cbn [mbind result_bind]. destruct (negb own); [done|]. destruct other; [done|].
  intros (d1 & H1 & H2)%bind_ok. apply insert_origin_sound in H1 as [-> H]. cbn [mbind result_bind].
  destruct (active_origin _ _ _); [|done]. injection H2 as <-. done.
Qed.

Lemma origins_loop_sound evt target refs : ∀ i seen, sound (λ b, origins_loop b evt target i seen refs).
Proof.
  induction refs as [|ref refs IH]; intros i seen d d'; cbn [origins_loop]; [by intros [= <-]|]. destruct (_ && _); [done|].
  apply (sound_bind (λ b, origin_step b evt target i ref) (λ b, origins_loop b evt target (i + 1) (_ :: seen) refs)).
  - apply origin_step_sound.
  - apply IH.
Qed.

Lemma origins_sound evt target refs : sound (λ b, materializeBeliefOriginsLocked b evt target refs).
Proof.
  intros d d'. unfold materializeBeliefOriginsLocked. destruct refs as [refs|]; [|by intros [= <-]]. destruct (_ =? _)%nat; [done|].
  intros (d1 & H1 & H2)%bind_ok. apply origins_loop_sound in H1 as [-> H]. cbn [mbind result_bind]. destruct (_ =? _); [done|].
  by injection H2 as <-.
Qed.

Lemma materializeBeliefUpsert_sound evt : sound (λ b, materializeBeliefUpsert b evt).
Proof.
  intros d d'. unfold materializeBeliefUpsert. destruct (of_option _ _) as [p|]; [|done]. cbn [mbind result_bind].
  destruct (beq _ _); [done|]. cbn zeta. refine (sound_bind (λ b, upsert_belief b _ _) (λ b, materializeBeliefOriginsLocked b _ _ _) _ _ d d').
  - apply upsert_belief_sound.
  - apply origins_sound.
Qed.

Lemma materializeWorkingStyle_sound evt : sound (λ b, materializeWorkingStyle b evt).
Proof.
  intros d d'. unfold materializeWorkingStyle. destruct (of_option _ _) as [p|]; [|done]. cbn [mbind result_bind].
  destruct (beq _ _); [done|]. refine (sound_bind (λ b, upsert_belief b _ _) (λ b, materializeBeliefOriginsLocked b _ _ _) _ _ d d').
  - apply upsert_belief_sound.
  - apply origins_sound.
Qed.

Lemma materializeBeliefPromote_sound evt : sound (λ b, materializeBeliefPromote b evt).
Proof.
  intros d d'. unfold materializeBeliefPromote. destruct (of_option _ _) as [[id ring]|]; [|done]. cbn [mbind result_bind].
  destruct (_ || _); [done|]. apply update_belief_sound.
Qed.

Lemma materializeBeliefArchive_sound evt : sound (λ b, materializeBeliefArchive b evt).
Proof.
  intros d d'. unfold materializeBeliefArchive. destruct (decode_strings _ _) as [[|id [|? [|]]]|]; try done. apply update_belief_sound.
Qed.

Lemma materializeBeliefSupersede_sound evt : sound (λ b, materializeBeliefSupersede b evt).
Proof.
  intros d d'. unfold materializeBeliefSupersede. destruct (decode_strings _ _) as [[|old [|new [|reason [|]]]]|]; try done.
  intros (d1 & H1 & H2)%bind_ok. apply update_belief_sound in H1 as [-> Hk]. cbn [mbind result_bind].
  destruct (insert_edge false _ _ _) as [[d2 x]|] eqn:E; [|done]. apply insert_edge_sound in E as [-> Hk2]. injection H2 as <-. split; [done|auto].
Qed.

Lemma keys_edge_archived d id e : t_edges d !! id = Some e → keys_hold d → keys_hold (set_edges <[id := edge_archived e]> d).
Proof. intros He Hd. apply keys_edge; [done|]. exact (fk_edges _ Hd id e He). Qed.

Lemma materializeEdgeArchive_sound evt : sound (λ _, materializeEdgeArchive evt).
Proof.
  apply sound_pure. intros d d'. unfold materializeEdgeArchive. destruct (decode_strings _ _) as [[|id [|]]|]; try done.
  destruct (t_edges d !! id) as [e|] eqn:He; [|done]. cbn zeta. intros [= <-] Hd. pose proof (keys_edge_archived _ _ _ He Hd).
  destruct (is_evidence e); [|done]. apply keys_alter; [|done]. intros b. apply counted_keys.
Qed.

Lemma materializeEdgeLocked_sound evt : sound (λ b, materializeEdgeLocked b evt).
Proof.
  intros d d'. unfold materializeEdgeLocked. destruct (of_option _ _) as [p|]; [|done]. cbn [mbind result_bind].
  destruct (insert_edge false _ _ _) as [[d1 ins]|] eqn:E; [|done]. apply insert_edge_sound in E as [-> Hk]. cbn [mbind result_bind].
  destruct (negb ins); [done|]. destruct (in_set _ _); [|intros [= <-]; auto]. destruct (t_beliefs d1 !! _); [|intros [= <-]; auto].
  intros H. apply update_belief_sound in H as [-> Hk2]. auto.
Qed.

Lemma materializeIntentionCreate_sound evt : sound (λ b, materializeIntentionCreate b evt).
Proof.
  intros d d'. unfold materializeIntentionCreate. destruct (decode_strings _ _) as [[|id [|st [|why [|]]]]|]; try done.
  destruct (beq _ _); [done|]. destruct (has _ _); [done|]. cbn zeta. apply sound_fk. intros Hd. by apply keys_intention.
Qed.

Lemma materializeIntentionStateChange_sound evt : sound (λ b, materializeIntentionStateChange b evt).
Proof.
  intros d d'. unfold materializeIntentionStateChange. destruct (decode_strings _ _) as [[|id [|st [|why [|]]]]|]; try done.
  destruct (negb _); [done|]. destruct (t_intentions d !! id); [|done]. cbn zeta. apply sound_fk. intros Hd. by apply keys_intention.
Qed.

Lemma materializeCommitmentPromised_sound evt : sound (λ b, materializeCommitmentPromised b evt).
Proof.
  intros d d'. unfold materializeCommitmentPromised. destruct (decode_strings _ _) as [[|id [|st [|why [|]]]]|]; try done.
  destruct (beq _ _); [done|]. destruct (has _ _); [done|]. cbn zeta. apply sound_fk. intros Hd. by apply keys_commitment.
Qed.

Lemma materializeCommitmentStateChange_sound evt : sound (λ b, materializeCommitmentStateChange b evt).
Proof.
  intros d d'. unfold materializeCommitmentStateChange. destruct (decode_strings _ _) as [[|id [|st [|res [|rep [|note [|]]]]]]|]; try done.
  destruct (negb _); [done|]. destruct (t_commitments d !! id); [|done]. cbn zeta. apply sound_fk. intros Hd. by apply keys_commitment.
Qed.

Lemma materializeSystemWitnessed_sound evt : sound (λ _, materializeSystemWitnessed evt).
Proof.
  apply sound_pure. intros d d'. unfold materializeSystemWitnessed. destruct (decode_witnessed _) as [[[r|] before]|]; [| |done].
  - destruct (_ || _); [done|]. destruct (negb _); [done|]. intros [= <-] []. by split.
  - destruct (beq _ _); [done|]. by intros [= <-].
Qed.

Lemma materializeTrustEpochAccepted_sound evt : sound (λ _, materializeTrustEpochAccepted evt).
Proof.
  apply sound_pure. intros d d'. unfold materializeTrustEpochAccepted. destruct (of_option _ _) as [[[root epoch] sha]|]; [|done].
  cbn [mbind result_bind]. destruct (_ || _); [done|]. intros [= <-] []. by split.
Qed.

Lemma materializeBirth_sound evt : sound (λ _, materializeBirth evt).
Proof. apply sound_pure. intros d d'. unfold materializeBirth. intros [= <-] Hd. destruct (t_lifetime d); [done|]. destruct Hd. by split. Qed.

Lemma materializePublicName_sound evt : sound (λ b, materializePublicName b evt).
Proof.
  intros d d'. unfold materializePublicName. destruct (decode_strings _ _) as [[|id [|name [|zone [|]]]]|]; try done.
  destruct (ValidatePublicNamePayload _ _ _); [|done]. cbn [mbind result_bind]. destruct (bool_decide _); [done|]. cbn zeta.
  apply sound_fk. intros [] Hs. by split.
Qed.

Lemma materializeExperience_sound evt : sound (λ b, materializeExperience b evt).
Proof.
  intros d d'. unfold materializeExperience. destruct (of_option _ _) as [p|]; [|done]. cbn [mbind result_bind]. destruct (beq _ _); [done|].
  destruct (validateExperienceLocked _ _ _); [|done]. cbn [mbind result_bind]. cbn zeta. destruct (negb (check_experience _)); [done|].
  apply sound_fk. intros Hd. by apply keys_experience.
Qed.

Lemma consume_inputs_keys evt inputs : ∀ d d', consume_inputs evt inputs d = Ok d' → keys_hold d → keys_hold d'.
Proof.
  induction inputs as [|id inputs IH]; intros d d'; cbn [consume_inputs]; [by intros [= <-]|].
  destruct (t_experiences d !! id) as [x|] eqn:Hx; [|done]. intros H Hd. eapply IH; [exact H|]. apply keys_experience; [done|].
  exact (fk_experiences _ Hd id x Hx).
Qed.

Lemma confirm_crossings_keys evt crossings : ∀ d d', confirm_crossings evt crossings d = Ok d' → keys_hold d → keys_hold d'.
Proof.
  induction crossings as [|c crossings IH]; intros d d'; cbn [confirm_crossings]; [by intros [= <-]|]. destruct (_ || _); [done|].
  destruct (negb _); [done|]. intros H Hd. eapply IH; [exact H|]. apply keys_alter; [|done]. intros b. by destruct (_ =? _).
Qed.

Lemma materializeFacilityRun_sound evt : sound (λ _, materializeFacilityRun evt).
Proof.
  apply sound_pure. intros d d'. unfold materializeFacilityRun. destruct (of_option _ _) as [p|]; [|done]. cbn [mbind result_bind].
  destruct (_ =? _)%nat; [done|]. destruct (runOutputsPrecedeLocked _ _ _); [|done]. cbn [mbind result_bind].
  intros (d1 & H1 & H2)%bind_ok Hd. eapply confirm_crossings_keys; [exact H2|]. by eapply consume_inputs_keys.
Qed.

Lemma upsert_relationship_sound evt p : sound (λ b, upsert_relationship b evt p).
Proof. intros d d'. unfold upsert_relationship. cbn zeta. destruct (negb _); [done|]. apply sound_fk. intros Hd. by apply keys_relationship. Qed.

Lemma supersede_relationship_sound id by_ : sound (λ b, supersede_relationship b id by_).
Proof.
  intros d d'. unfold supersede_relationship. destruct (t_relationships d !! id); [|done]. destruct (bool_decide _); [|done]. cbn zeta.
  apply sound_fk. intros Hd. by apply keys_relationship.
Qed.

Lemma materializeRelationshipLocked_sound evt : sound (λ b, materializeRelationshipLocked b evt).
Proof.
  intros d d'. unfold materializeRelationshipLocked. destruct (of_option _ _) as [p|]; [|done]. cbn [mbind result_bind].
  destruct (validateRelationshipLocked p d); [|done]. cbn [mbind result_bind].
  intros (d1 & H1 & (d2 & H2 & H3)%bind_ok)%bind_ok. apply upsert_relationship_sound in H1 as [-> Hk]. cbn [mbind result_bind].
  assert ((if beq (rp_Supersedes p) [] then Ok d1 else supersede_relationship true (rp_Supersedes p) (rp_ID p) d1) = Ok d2 ∧
    (keys_hold d1 → keys_hold d2)) as [-> Hk2].
  { destruct (beq _ _); [by injection H2 as <-|by apply supersede_relationship_sound in H2]. }
  cbn [mbind result_bind]. destruct (_ && _); [done|]. injection H3 as <-. auto.
Qed.

Lemma insert_synthesis_sound replace id row : sound (λ b, insert_synthesis b replace id row).
Proof.
  intros d d'. unfold insert_synthesis. destruct (negb _); [done|]. destruct (_ && _); [done|]. cbn zeta. apply sound_fk. intros Hd.
  by apply keys_synthesis.
Qed.

Lemma supersede_current_sound current id : sound (λ b, supersede_current b current id).
Proof.
  intros d d'. unfold supersede_current. destruct current as [c|]; [|by intros [= <-]]. destruct (beq _ _); [by intros [= <-]|].
  unfold supersede_synthesis. destruct (t_synthesis d !! cs_ID c) as [row|]; [|done]. destruct (bool_decide _); [|done]. cbn zeta.
  unfold fk. destruct (synthesis_keys _ _) eqn:E; [|done]. cbn. intros [= <-]. split; [done|]. intros Hd. by apply keys_synthesis.
Qed.

Lemma materializeSelfModelSynthesis_sound evt : sound (λ b, materializeSelfModelSynthesis b evt).
Proof.
  intros d d'. unfold materializeSelfModelSynthesis. destruct (DecodeRecordedSelfModelSynthesis _) as [[payload h]|]; [|done]. cbn zeta.
  destruct (self_model_sources _ _ _) as [[refs current]|]; [|done]. cbn [mbind result_bind].
  refine (sound_bind (λ b, insert_synthesis b _ _ _) (λ b, supersede_current b _ _) _ _ d d').
  - apply insert_synthesis_sound.
  - apply supersede_current_sound.
Qed.

Lemma apply_event_sound evt : sound (λ b, apply_event b evt).
Proof.
  intros d d'. unfold apply_event. cbn zeta.
  repeat (match goal with |- context[if ?b then _ else _] => destruct b end;
    [first [apply materializeBirth_sound|apply materializeBeliefUpsert_sound|apply materializeWorkingStyle_sound|apply materializeBeliefPromote_sound
           |apply materializeBeliefArchive_sound|apply materializeBeliefSupersede_sound|apply materializeSelfModelSynthesis_sound
           |apply materializeRelationshipLocked_sound|apply materializeEdgeLocked_sound|apply materializeEdgeArchive_sound
           |apply materializeSystemWitnessed_sound|apply materializeTrustEpochAccepted_sound|apply materializePublicName_sound
           |apply materializeExperience_sound|apply materializeFacilityRun_sound|apply materializeIntentionCreate_sound
           |apply materializeIntentionStateChange_sound|apply materializeCommitmentPromised_sound|apply materializeCommitmentStateChange_sound]|]).
  done.
Qed.

Lemma mirror_insert_ok evt d d' : mirror_insert evt d = Ok d' → t_ledger d !! Seq evt = None ∧ int64_ok (Seq evt) = true ∧
  d' = set_ledger <[Seq evt := mkLedgerRow (Prev evt) (Timestamp evt) (EType evt) (Ring evt) (Payload evt) (Content evt)]> d.
Proof.
  unfold mirror_insert. destruct (int64_ok _); [|done]. cbn [negb]. destruct (has_seq d (Seq evt)) eqn:Hs; [by rewrite orb_true_r|].
  destruct (_ || _); [done|]. intros [= <-]. split; [|done]. unfold has_seq in Hs. apply bool_decide_eq_false in Hs. by apply eq_None_not_Some.
Qed.

Lemma materialize_sound evt : sound (λ b, materializeLocked b evt).
Proof.
  refine (sound_bind (λ _, mirror_insert evt) (λ b, apply_event b evt) _ (apply_event_sound evt)).
  apply sound_pure. intros d d' (_ & _ & ->)%mirror_insert_ok. apply keys_ledger.
Qed.
End Sound.

(** ** Replay *)

Section Replay.
Context `{Q : Sqlite} `{P : Primitives}.

(** The events of a record, materialized in order. *)
Fixpoint materialize_all (deferred : bool) (evts : list Event) (d : DB) : result store_err DB :=
  match evts with [] => Ok d | e :: rest => d1 ← materializeLocked deferred e d; materialize_all deferred rest d1 end.

Lemma materialize_all_sound evts : sound (λ b, materialize_all b evts).
Proof.
  induction evts as [|e evts IH]; [by intros d d' [= <-]|]. refine (sound_bind (λ b, materializeLocked b e) (λ b, materialize_all b evts) _ IH).
  apply materialize_sound.
Qed.

Lemma materialize_all_env deferred L R evts : seeds id L → ∀ d,
  materialize_all deferred evts (with_env L R d) = with_env L R <$> materialize_all deferred evts d.
Proof.
  intros HL. induction evts as [|e evts IH]; intros d; [done|]. cbn [materialize_all]. rewrite (materialize_env deferred L R e d HL).
  destruct (materializeLocked deferred e d); [apply IH|done].
Qed.

Lemma replay_events_all evts : ∀ last d,
  replay_events false last evts d = match materialize_all true evts d with
    | Ok d' => Ok (foldl (λ _ e, mkHead (Seq e) (EntryHash e)) last evts, d')
    | Err _ => replay_events false last evts d
    end.
Proof.
  induction evts as [|e evts IH]; intros last d; [done|]. cbn [replay_events materialize_all foldl andb].
  destruct (materializeLocked true e d) as [d1|]; [|done]. cbn [mbind result_bind]. rewrite IH. by destruct (materialize_all true evts d1).
Qed.

(** The tables before any event. *)
Definition empty_db : DB := mkDB ∅ ∅ ∅ ∅ ∅ ∅ ∅ ∅ None [] [] None [].

Lemma empty_keys : keys_hold empty_db.
Proof. split; first [reflexivity|apply Forall_nil_2|apply map_Forall_empty]. Qed.

Lemma keys_env L R d : keys_hold d → Forall (λ s, has_seq d s = true) (R (t_refs d)) → keys_hold (with_env L R d).
Proof. intros [] Hr. by split. Qed.

Definition keep_clock (l0 : option lifetime_row) (l : option lifetime_row) : option lifetime_row :=
  match l0 with Some x => Some x | None => l end.

Lemma keep_clock_seeds l0 : seeds id (keep_clock l0).
Proof. intros ts [l|]; by destruct l0. Qed.

(** C8. A replay rebuilds the projection: when a record materializes event by
    event, each in a transaction that checks its own foreign keys, then a replay
    of it into a database in any state, with the keys checked only at the end,
    commits, and leaves exactly the tables the live run built; the lived clock and
    what runtime tables refer to stay as they were. *)
Theorem replay_rebuilds_projection evts d d0 : materialize_all false evts empty_db = Ok d →
  Forall (λ s, has_seq d s = true) (t_refs d0) →
  ReplayAll true true evts d0 = (with_env (keep_clock (t_lifetime d0)) (λ _, t_refs d0) d, None).
Proof.
  intros Hd Hr. destruct (materialize_all_sound evts _ _ Hd) as [Ht Hk].
  assert (materialize_all true evts (clear_derived d0) = Ok (with_env (keep_clock (t_lifetime d0)) (λ _, t_refs d0) d)) as Hm.
  { change (clear_derived d0) with (with_env (λ _, t_lifetime d0) (λ _, t_refs d0) empty_db).
    assert (with_env (λ _, t_lifetime d0) (λ _, t_refs d0) empty_db = with_env (keep_clock (t_lifetime d0)) (λ _, t_refs d0) empty_db) as ->
      by (unfold with_env; cbn; by destruct (t_lifetime d0)).
    rewrite materialize_all_env by apply keep_clock_seeds. by rewrite Ht. }
  unfold ReplayAll, replayInTransaction. cbn [negb]. rewrite bool_decide_false by (by intros []).
  rewrite replay_events_all, Hm. cbn [mbind result_bind]. unfold foreign_keys_hold. rewrite bool_decide_true; [done|].
  apply keys_env; [auto using empty_keys|done].
Qed.
End Replay.
