(* ===== verification/Steps.v ===== *)
(** * Events as steps on the tables

    What one event can do to the database, as a relation: [event_op] has one rule
    for each kind of change, and a materialized event is a sequence of them.  The
    invariants of the projection are proved by induction on it. *)

From stdpp Require Import gmap relations.
From Stdlib Require Import SpecFloat.
From S2P Require Import Prelude Utf8 GoJson CanonicalJson GoStruct Crypto Event Lines GoStrings Tables SelfModel Materialize Timeless Projection.

(** The belief an event states: its id and its words. *)
Definition upsert_of (evt : Event) : option (bytes * bytes) :=
  if beq (EType evt) EventBeliefUpsert then p ← decode_belief (Payload evt); Some (bp_ID p, or_else (bp_Statement p) (bp_Content p))
  else if beq (EType evt) EventWorkingStyleUpsert then p ← decode_working_style (Payload evt); Some (bp_ID p, bp_Content p)
  else None.

Definition is_run (evt : Event) : Prop := EType evt = EventConsolidationRun ∨ EType evt = EventDreamRun.

(** The count that goes with a new edge. *)
Definition count_edge (touch : belief_row → belief_row) (e : edge_row) (d : DB) : DB :=
  if is_evidence e then alter_belief (e_to e) (λ b, touch (belief_counted (b_evidence_count b + 1) b)) d else d.

(** Everything but beliefs, edges, experiences, relationships and portraits. *)
Definition same_graph (d d' : DB) : Prop :=
  t_beliefs d' = t_beliefs d ∧ t_edges d' = t_edges d ∧ t_experiences d' = t_experiences d ∧ t_relationships d' = t_relationships d ∧
  t_synthesis d' = t_synthesis d.
(** And the mirror of the record. *)
Definition same_mirror (d d' : DB) : Prop := same_graph d d' ∧ t_ledger d' = t_ledger d.

Section Steps.
Context `{Q : Sqlite}.
Variable deferred : bool.

Inductive event_op (evt : Event) (d : DB) : DB → Prop :=
| op_mint id text b : upsert_of evt = Some (id, text) → t_beliefs d !! id = None → check_belief b = true → b_statement b = text →
    b_evidence_count b = 0 → event_op evt d (set_beliefs <[id := b]> d)
| op_restate id text conf old : upsert_of evt = Some (id, text) → t_beliefs d !! id = Some old → unit_interval conf = true →
    event_op evt d (set_beliefs <[id := belief_said text conf (Seq evt) old]> d)
| op_place id ring old : EType evt = EventBeliefPromote → decode_promote (Payload evt) = Some (id, ring) → 2 ≤ ring ≤ 3 →
    t_beliefs d !! id = Some old → event_op evt d (set_beliefs <[id := belief_placed ring (Seq evt) old]> d)
| op_archive id reason old : EType evt = EventBeliefArchive → decode_strings [bs "id"; bs "reason"] (Payload evt) = Some [id; reason] →
    t_beliefs d !! id = Some old → event_op evt d (set_beliefs <[id := belief_archived (Seq evt) old]> d)
| op_supersede id new reason old : EType evt = EventBeliefSupersede →
    decode_strings [bs "old_id"; bs "new_id"; bs "reason"] (Payload evt) = Some [id; new; reason] →
    t_beliefs d !! id = Some old → event_op evt d (set_beliefs <[id := belief_superseded new (Seq evt) old]> d)
| op_confirm id ticks old : is_run evt → t_beliefs d !! id = Some old → event_op evt d (set_beliefs <[id := belief_confirmed ticks old]> d)
| op_edge k e touch : t_edges d !! k = None → has_triple d e = false → check_edge e = true → e_archived e = false →
    touch = id ∨ touch = belief_touched (Seq evt) → event_op evt d (count_edge touch e (set_edges <[k := e]> d))
| op_edge_archive k e : EType evt = EventEdgeArchive → decode_strings [bs "id"] (Payload evt) = Some [k] → t_edges d !! k = Some e →
    event_op evt d (let d' := set_edges <[k := edge_archived e]> d in
      if is_evidence e then alter_belief (e_to e) (belief_counted (evidence_count d' (e_to e))) d' else d')
| op_experience id x : EType evt = EventExperienceCreate → check_experience x = true → event_op evt d (set_experiences <[id := x]> d)
| op_consume id x : is_run evt → t_experiences d !! id = Some x → event_op evt d (set_experiences <[id := experience_consumed x]> d)
| op_portrait d' : EType evt = EventSelfModelSynthesize → materializeSelfModelSynthesis deferred evt d = Ok d' → event_op evt d d'
| op_relationship d' : EType evt = EventRelationshipUpsert → materializeRelationshipLocked deferred evt d = Ok d' → event_op evt d d'
| op_other d' : same_graph d d' → (has_seq d (Seq evt) = true → t_ledger d' = t_ledger d) → event_op evt d d'.

Notation ops evt := (rtc (event_op evt)).

Lemma alter_insert_lookup {V} (m : gmap bytes V) id f v : m !! id = Some v → alter f id m = <[id := f v]> m.
Proof.
  intros H. apply map_eq. intros i. destruct (decide (id = i)) as [->|]; [by rewrite lookup_alter_eq, lookup_insert_eq, H|].
  by rewrite lookup_alter_ne, lookup_insert_ne.
Qed.

Lemma fk_bind {A} b k (a a' : A) : (_ ← fk b k; mret a) = Ok a' → a' = a.
Proof. unfold fk. destruct (_ || _); [by intros [= <-]|done]. Qed.

Lemma has_false {V} (m : gmap bytes V) id : has m id = false → m !! id = None.
Proof. unfold has. intros H%bool_decide_eq_false. by apply eq_None_not_Some. Qed.

Lemma in_set_elem s l : in_set s l = true → s ∈ l.
Proof. unfold in_set. intros (x & Hx%list_elem_of_In & H)%existsb_exists. unfold beq in H. by apply bool_decide_eq_true in H as ->. Qed.

(** ** Statements as steps *)

Lemma upsert_belief_op evt id text b d d' : upsert_of evt = Some (id, text) → b_statement b = text → b_evidence_count b = 0 → b_last_seq b = Seq evt →
  upsert_belief deferred id b d = Ok d' → event_op evt d d'.
Proof.
  intros Hu Ht Hn Hs. unfold upsert_belief. destruct (check_belief b) eqn:Hc; [|done]. cbn [negb]. cbn zeta.
  destruct (t_beliefs d !! id) as [old|] eqn:Ho; intros ->%fk_bind.
  - rewrite Ht, Hs. eapply op_restate; [done..|]. unfold check_belief in Hc. by b2p.
  - by eapply op_mint.
Qed.

Lemma update_belief_ok id f err d d' : update_belief deferred id f err d = Ok d' →
  ∃ old, t_beliefs d !! id = Some old ∧ d' = set_beliefs <[id := f old]> d.
Proof. unfold update_belief. destruct (t_beliefs d !! id) as [old|]; [|done]. cbn zeta. intros ->%fk_bind. by exists old. Qed.

Lemma insert_edge_ok k e d d' x : insert_edge deferred k e d = Ok (d', x) → e_archived e = false →
  (x = false ∧ d' = d) ∨ (x = true ∧ d' = set_edges <[k := e]> d ∧ t_edges d !! k = None ∧ has_triple d e = false ∧ check_edge e = true).
Proof.
  unfold insert_edge. destruct (negb (check_edge e) || _ || _) eqn:E; [by intros [= <- <-]; left|]. intros H _. right.
  rewrite !orb_false_iff, negb_false_iff in E. destruct E as [[Hc Hh%has_false] Ht].
  unfold insert_edge_row in H. cbn zeta in H. unfold fk in H. destruct (deferred || _); [|done]. injection H as <- <-. done.
Qed.

Lemma insert_origin_op evt k e d d' : e_archived e = false → is_evidence e = true → insert_origin deferred k e d = Ok d' → ops evt d d'.
Proof.
  intros Ha He. unfold insert_origin. destruct (check_edge e) eqn:Hc; [|done]. cbn [negb].
  destruct (has_triple d e) eqn:Ht; [by intros [= <-]|]. destruct (has _ _) eqn:Hh; [done|].
  unfold insert_edge_row. cbn zeta. unfold fk. destruct (deferred || _); [|done]. intros [= <-]. apply rtc_once.
  pose proof (op_edge evt d k e id (has_false _ _ Hh) Ht Hc Ha (or_introl eq_refl)) as H. unfold count_edge in H. by rewrite He in H.
Qed.

Lemma origin_step_op evt target i ref d d' : origin_step deferred evt target i ref d = Ok d' → ops evt d d'.
Proof.
  unfold origin_step. destruct (_ || _); [done|]. destruct (if beq (og_Kind ref) _ then _ else _) as [[own other]|]; [|done].
  cbn [mbind result_bind]. destruct (negb own); [done|]. destruct other; [done|]. intros (d1 & H1 & H2)%bind_ok.
  apply (insert_origin_op evt) in H1; [|done|vm_compute; done]. by destruct (active_origin _ _ _); simplify_eq.
Qed.

Lemma origins_loop_op evt target refs : ∀ i seen d d', origins_loop deferred evt target i seen refs d = Ok d' → ops evt d d'.
Proof.
  induction refs as [|ref refs IH]; intros i seen d d'; cbn [origins_loop]; [by intros [= <-]|]. destruct (_ && _); [done|].
  intros (d1 & H1%origin_step_op & H2%IH)%bind_ok. by etrans.
Qed.

Lemma origins_op evt target refs d d' : materializeBeliefOriginsLocked deferred evt target refs d = Ok d' → ops evt d d'.
Proof.
  unfold materializeBeliefOriginsLocked. destruct refs as [refs|]; [|by intros [= <-]]. destruct (_ =? _)%nat; [done|].
  intros (d1 & H1%origins_loop_op & H2)%bind_ok. by destruct (_ =? _); simplify_eq.
Qed.

(** ** Materializers as steps *)

Lemma belief_upsert_ops evt d d' : EType evt = EventBeliefUpsert → materializeBeliefUpsert deferred evt d = Ok d' → ops evt d d'.
Proof.
  intros Ht. unfold materializeBeliefUpsert. destruct (decode_belief _) as [p|] eqn:Hp; [|done]. cbn [of_option mbind result_bind].
  destruct (beq _ _); [done|]. cbn zeta. intros (d1 & H1 & H2%origins_op)%bind_ok. eapply rtc_l; [|exact H2].
  refine (upsert_belief_op evt _ _ _ d d1 _ _ _ _ H1); [|reflexivity..]. unfold upsert_of. by rewrite Ht, beq_refl, Hp.
Qed.

Lemma working_style_ops evt d d' : EType evt = EventWorkingStyleUpsert → materializeWorkingStyle deferred evt d = Ok d' → ops evt d d'.
Proof.
  intros Ht. unfold materializeWorkingStyle. destruct (decode_working_style _) as [p|] eqn:Hp; [|done]. cbn [of_option mbind result_bind].
  destruct (beq _ _); [done|]. intros (d1 & H1 & H2%origins_op)%bind_ok. eapply rtc_l; [|exact H2].
  refine (upsert_belief_op evt _ _ _ d d1 _ _ _ _ H1); [|reflexivity..]. unfold upsert_of. rewrite Ht, beq_refl, Hp.
  by replace (beq EventWorkingStyleUpsert EventBeliefUpsert) with false by (vm_compute; done).
Qed.

Lemma belief_promote_ops evt d d' : EType evt = EventBeliefPromote → materializeBeliefPromote deferred evt d = Ok d' → ops evt d d'.
Proof.
  intros Ht. unfold materializeBeliefPromote. destruct (decode_promote _) as [[id ring]|] eqn:Hp; [|done]. cbn [of_option mbind result_bind].
  destruct ((ring <? 2) || (3 <? ring)) eqn:E; [done|]. intros (old & Ho & ->)%update_belief_ok. apply rtc_once. b2p. by eapply op_place.
Qed.

Lemma belief_archive_ops evt d d' : EType evt = EventBeliefArchive → materializeBeliefArchive deferred evt d = Ok d' → ops evt d d'.
Proof.
  intros Ht. unfold materializeBeliefArchive. destruct (decode_strings _ _) as [[|id [|reason [|]]]|] eqn:Hp; try done.
  intros (old & Ho & ->)%update_belief_ok. apply rtc_once. by eapply op_archive.
Qed.

Lemma belief_supersede_ops evt d d' : EType evt = EventBeliefSupersede → materializeBeliefSupersede deferred evt d = Ok d' → ops evt d d'.
Proof.
  intros Ht. unfold materializeBeliefSupersede. destruct (decode_strings _ _) as [[|old [|new [|reason [|]]]]|] eqn:Hp; try done.
  intros (d1 & (row & Ho & ->)%update_belief_ok & H2)%bind_ok.
  destruct (insert_edge _ _ _ _) as [[d2 x]|] eqn:E; [|done]. injection H2 as <-.
  eapply rtc_l; [by eapply op_supersede|]. apply insert_edge_ok in E as [(_ & ->)|(_ & -> & Hk & Htr & Hc)]; [done| |done].
  apply rtc_once. pose proof (op_edge evt _ _ _ id Hk Htr Hc eq_refl (or_introl eq_refl)) as H. unfold count_edge in H.
  by replace (is_evidence _) with false in H by (vm_compute; done).
Qed.

Lemma edge_archive_ops evt d d' : EType evt = EventEdgeArchive → materializeEdgeArchive evt d = Ok d' → ops evt d d'.
Proof.
  intros Ht. unfold materializeEdgeArchive. destruct (decode_strings _ _) as [[|id [|]]|] eqn:Hp; try done.
  destruct (t_edges d !! id) as [e|] eqn:He; [|done]. intros [= <-]. apply rtc_once. by apply op_edge_archive.
Qed.

Lemma edge_create_ops evt d d' : materializeEdgeLocked deferred evt d = Ok d' → ops evt d d'.
Proof.
  unfold materializeEdgeLocked. destruct (decode_edge _) as [p|] eqn:Hp; [|done]. cbn [of_option mbind result_bind].
  set (e := mkEdge _ _ _ _ _ _ _). destruct (insert_edge _ _ _ _) as [[d1 x]|] eqn:E; [|done]. cbn [mbind result_bind].
  apply insert_edge_ok in E as [(-> & ->)|(-> & -> & Hk & Htr & Hc)]; [done| |done]. cbn [negb].
  pose proof (op_edge evt d _ _ (belief_touched (Seq evt)) Hk Htr Hc eq_refl (or_intror eq_refl)) as H. unfold count_edge in H.
  change (is_evidence e) with (in_set (ep_EdgeType p) evidence_types) in H. change (e_to e) with (ep_ToID p) in H.
  destruct (in_set _ _); [|intros [= <-]; by apply rtc_once]. cbn in H |- *. unfold alter_belief, set_beliefs in H. cbn in H.
  destruct (t_beliefs d !! ep_ToID p) as [b|] eqn:Hb.
  - intros (old & Ho & ->)%update_belief_ok. apply rtc_once. cbn in Ho. rewrite (alter_insert_lookup _ _ _ _ Hb) in H.
    rewrite Hb in Ho. injection Ho as <-. exact H.
  - intros [= <-]. apply rtc_once. rewrite alter_id in H by (intros ? [=]%(eq_trans (eq_sym Hb))). exact H.
Qed.

Lemma consume_inputs_ops evt inputs : is_run evt → ∀ d d', consume_inputs evt inputs d = Ok d' → ops evt d d'.
Proof.
  intros Hr. induction inputs as [|id inputs IH]; intros d d'; cbn [consume_inputs]; [by intros [= <-]|].
  destruct (t_experiences d !! id) as [x|] eqn:Hx; [|done]. intros H%IH. eapply rtc_l; [|exact H]. by apply op_consume.
Qed.

Lemma confirm_crossings_ops evt crossings : is_run evt → ∀ d d', confirm_crossings evt crossings d = Ok d' → ops evt d d'.
Proof.
  intros Hr. induction crossings as [|c crossings IH]; intros d d'; cbn [confirm_crossings]; [by intros [= <-]|]. destruct (_ || _); [done|].
  destruct (has _ _) eqn:Hh; [|done]. cbn [negb]. unfold has in Hh. apply bool_decide_eq_true in Hh as [b Hb]. intros H%IH.
  unfold alter_belief, set_beliefs in H. cbn in H. rewrite (alter_insert_lookup _ _ _ _ Hb) in H.
  destruct (b_confirmed_at_ticks b =? 0); [by eapply rtc_l; [eapply op_confirm|exact H]|].
  rewrite insert_id in H by done. by destruct d.
Qed.

Lemma facility_run_ops evt d d' : is_run evt → materializeFacilityRun evt d = Ok d' → ops evt d d'.
Proof.
  intros Hr. unfold materializeFacilityRun. destruct (of_option _ _) as [p|]; [|done]. cbn [mbind result_bind]. destruct (_ =? _)%nat; [done|].
  destruct (runOutputsPrecedeLocked _ _ _); [|done]. cbn [mbind result_bind]. intros (d1 & H1 & H2)%bind_ok.
  etrans; [by eapply consume_inputs_ops|by eapply confirm_crossings_ops].
Qed.

Lemma experience_ops evt d d' : EType evt = EventExperienceCreate → materializeExperience deferred evt d = Ok d' → ops evt d d'.
Proof.
  intros Ht. unfold materializeExperience. destruct (of_option _ _) as [p|]; [|done]. cbn [mbind result_bind]. destruct (beq _ _); [done|].
  destruct (validateExperienceLocked _ _ _); [|done]. cbn [mbind result_bind]. cbn zeta. destruct (check_experience _) eqn:E; [|done]. cbn [negb].
  intros ->%fk_bind. apply rtc_once. by apply op_experience.
Qed.

(** The materializers of the other tables. *)
Lemma other_ops evt d d' : same_mirror d d' → ops evt d d'.
Proof. intros [H ?]. apply rtc_once. by apply op_other. Qed.

Lemma birth_ops evt d d' : materializeBirth evt d = Ok d' → same_mirror d d'.
Proof. unfold materializeBirth. intros [= <-]. by destruct (t_lifetime d). Qed.

Lemma witnessed_ops evt d d' : materializeSystemWitnessed evt d = Ok d' → same_mirror d d'.
Proof.
  unfold materializeSystemWitnessed. destruct (decode_witnessed _) as [[[r|] before]|]; [| |done].
  - destruct (_ || _); [done|]. destruct (negb _); [done|]. by intros [= <-].
  - destruct (beq _ _); [done|]. by intros [= <-].
Qed.

Lemma epoch_ops evt d d' : materializeTrustEpochAccepted evt d = Ok d' → same_mirror d d'.
Proof.
  unfold materializeTrustEpochAccepted. destruct (of_option _ _) as [[[root epoch] sha]|]; [|done]. cbn [mbind result_bind].
  destruct (_ || _); [done|]. by intros [= <-].
Qed.

Lemma name_ops evt d d' : materializePublicName deferred evt d = Ok d' → same_mirror d d'.
Proof.
  unfold materializePublicName. destruct (decode_strings _ _) as [[|id [|name [|zone [|]]]]|]; try done.
  destruct (ValidatePublicNamePayload _ _ _); [|done]. cbn [mbind result_bind]. destruct (bool_decide _); [done|]. cbn zeta. by intros ->%fk_bind.
Qed.

Lemma intention_create_ops evt d d' : materializeIntentionCreate deferred evt d = Ok d' → same_mirror d d'.
Proof.
  unfold materializeIntentionCreate. destruct (decode_strings _ _) as [[|id [|st [|why [|]]]]|]; try done.
  destruct (beq _ _); [done|]. destruct (has _ _); [done|]. cbn zeta. by intros ->%fk_bind.
Qed.

Lemma intention_change_ops evt d d' : materializeIntentionStateChange deferred evt d = Ok d' → same_mirror d d'.
Proof.
  unfold materializeIntentionStateChange. destruct (decode_strings _ _) as [[|id [|st [|why [|]]]]|]; try done.
  destruct (negb _); [done|]. destruct (t_intentions d !! id); [|done]. cbn zeta. by intros ->%fk_bind.
Qed.

Lemma commitment_promised_ops evt d d' : materializeCommitmentPromised deferred evt d = Ok d' → same_mirror d d'.
Proof.
  unfold materializeCommitmentPromised. destruct (decode_strings _ _) as [[|id [|st [|why [|]]]]|]; try done.
  destruct (beq _ _); [done|]. destruct (has _ _); [done|]. cbn zeta. by intros ->%fk_bind.
Qed.

Lemma commitment_change_ops evt d d' : materializeCommitmentStateChange deferred evt d = Ok d' → same_mirror d d'.
Proof.
  unfold materializeCommitmentStateChange. destruct (decode_strings _ _) as [[|id [|st [|res [|rep [|note [|]]]]]]|]; try done.
  destruct (negb _); [done|]. destruct (t_commitments d !! id); [|done]. cbn zeta. by intros ->%fk_bind.
Qed.

Lemma apply_event_ops evt d d' : apply_event deferred evt d = Ok d' → ops evt d d'.
Proof.
  unfold apply_event. cbn zeta.
  repeat (match goal with |- context[if ?b then _ else _] => destruct b eqn:? end;
    [b2p; first [by apply belief_upsert_ops|by apply working_style_ops|by apply belief_promote_ops|by apply belief_archive_ops|by apply belief_supersede_ops
      |by apply edge_archive_ops|intros; by eapply rtc_once, op_portrait|intros; by eapply rtc_once, op_relationship|by apply experience_ops
      |by intros ?%birth_ops%(other_ops evt)|by intros ?%edge_create_ops|by intros ?%witnessed_ops%(other_ops evt)|by intros ?%epoch_ops%(other_ops evt)
      |by intros ?%name_ops%(other_ops evt)|by intros ?%intention_create_ops%(other_ops evt)|by intros ?%intention_change_ops%(other_ops evt)
      |by intros ?%commitment_promised_ops%(other_ops evt)|by intros ?%commitment_change_ops%(other_ops evt)|idtac]|]); [|done].
  apply facility_run_ops. unfold is_run. match goal with H : _ || _ = true |- _ => apply orb_true_iff in H as [H|H]; b2p; auto end.
Qed.

Lemma materialize_ops evt d d' : materializeLocked deferred evt d = Ok d' → ops evt d d'.
Proof.
  unfold materializeLocked. intros (d1 & (Hn & _ & ->)%mirror_insert_ok & H%apply_event_ops)%bind_ok. eapply rtc_l; [|exact H]. apply op_other; [done|].
  unfold has_seq. by rewrite Hn, bool_decide_false by (by intros []).
Qed.
End Steps.
