(* ===== verification/Graph.v ===== *)
(** * Invariants of the projection

    Whatever record is materialized: every row meets its table's checks, no two
    edges say the same, a belief never claims more evidence than there is, and at
    most one operator relationship and one portrait are current. *)

From stdpp Require Import gmap relations.
From Stdlib Require Import SpecFloat.
From S2P Require Import Prelude Utf8 GoJson CanonicalJson GoStruct Crypto Event Lines GoStrings Tables SelfModel Materialize Timeless Projection Steps.

(** ** Sizes of selections *)

Section Selections.
Context {K V : Type} `{Countable K}.
Variable P : K * V → Prop.
Context `{!∀ kv, Decision (P kv)}.

(** A row that is replaced by one of the same standing. *)
Lemma filter_replace (m : gmap K V) i x y : m !! i = Some x → (P (i, x) ↔ P (i, y)) → size (filter P (<[i := y]> m)) = size (filter P m).
Proof.
  intros Hi HP. rewrite map_filter_insert. destruct (decide (P (i, y))) as [Hy|Hy].
  - rewrite map_size_insert_Some; [done|]. exists x. apply map_lookup_filter_Some. split; [done|]. by apply HP.
  - rewrite map_filter_delete, delete_id; [done|]. apply map_lookup_filter_None. right. intros x' Hx'. rewrite Hi in Hx'. injection Hx' as <-. by rewrite HP.
Qed.

(** A new row that is not selected. *)
Lemma filter_outside (m : gmap K V) i y : m !! i = None → ¬ P (i, y) → filter P (<[i := y]> m) = filter P m.
Proof. intros Hi Hy. rewrite map_filter_insert_not'; [done|done|]. by rewrite Hi. Qed.

Lemma filter_new (m : gmap K V) i y : m !! i = None → P (i, y) → size (filter P (<[i := y]> m)) = S (size (filter P m)).
Proof.
  intros Hi Hy. rewrite map_filter_insert_True by done. apply map_size_insert_None. apply map_lookup_filter_None. by left.
Qed.

(** A row that leaves the selection. *)
Lemma filter_leave (m : gmap K V) i x y : m !! i = Some x → P (i, x) → ¬ P (i, y) → size (filter P m) = S (size (filter P (<[i := y]> m))).
Proof.
  intros Hi Hx Hy. rewrite map_filter_insert_False by done. rewrite map_filter_delete, map_size_delete.
  assert (filter P m !! i = Some x) as Hf by (by apply map_lookup_filter_Some).
  rewrite Hf. assert (size (filter P m) ≠ 0%nat) by (intros E; apply map_size_empty_inv in E; by rewrite E, lookup_empty in Hf). lia.
Qed.
End Selections.

(** ** Evidence *)

Lemma evidence_for_other t e : evidence_for t e = true → e_to e = t.
Proof. unfold evidence_for. intros H. by b2p. Qed.

Lemma count_new d k e t : t_edges d !! k = None →
  evidence_count (set_edges <[k := e]> d) t = evidence_count d t + (if evidence_for t e then 1 else 0).
Proof.
  intros Hk. unfold evidence_count. cbn. destruct (evidence_for t e) eqn:E.
  - rewrite filter_new by done. lia.
  - rewrite filter_outside; [lia|done|]. cbn. by rewrite E.
Qed.

Lemma count_archived d k e t : t_edges d !! k = Some e →
  evidence_count (set_edges <[k := edge_archived e]> d) t = evidence_count d t - (if evidence_for t e then 1 else 0).
Proof.
  intros Hk. unfold evidence_count. cbn. assert (evidence_for t (edge_archived e) = false) as Ha by done. destruct (evidence_for t e) eqn:E.
  - rewrite (filter_leave (λ kv, evidence_for t kv.2 = true) (t_edges d) k e (edge_archived e)); [lia|done|done|done].
  - erewrite filter_replace; [lia|exact Hk|]. cbn [snd]. by rewrite E, Ha.
Qed.

(** ** The invariant *)

Record sane (d : DB) : Prop := {
  sane_beliefs : map_Forall (λ _ b, check_belief b = true) (t_beliefs d);
  sane_edges : map_Forall (λ _ e, check_edge e = true) (t_edges d);
  sane_experiences : map_Forall (λ _ x, check_experience x = true) (t_experiences d);
  sane_relationships : map_Forall (λ _ r, check_relationship r = true) (t_relationships d);
  sane_triples : ∀ k k' e e', t_edges d !! k = Some e → t_edges d !! k' = Some e' → same_triple e e' = true → k = k';
  sane_counts : ∀ id b, t_beliefs d !! id = Some b → b_evidence_count b ≤ evidence_count d id;
  sane_operator : (size (current_operators d) ≤ 1)%nat;
  sane_portrait : (size (filter is_current (t_synthesis d)) ≤ 1)%nat;
}.

Lemma sane_empty : sane empty_db.
Proof.
  split; [apply map_Forall_empty..| | | |].
  - intros k k' e e' H. change (t_edges empty_db) with (∅ : gmap bytes edge_row) in H. by rewrite lookup_empty in H.
  - intros id b H. change (t_beliefs empty_db) with (∅ : gmap bytes belief_row) in H. by rewrite lookup_empty in H.
  - vm_compute. lia.
  - vm_compute. lia.
Qed.

(** A belief's row changes, not its count. *)
Lemma sane_belief d id old b : t_beliefs d !! id = Some old → check_belief b = true → b_evidence_count b = b_evidence_count old → sane d →
  sane (set_beliefs <[id := b]> d).
Proof.
  intros Ho Hc Hn [Hb ? ? ? ? Hs ? ?]. split; try done; [by apply map_Forall_insert_2|]. intros i b'. cbn.
  destruct (decide (id = i)) as [->|]; [|rewrite lookup_insert_ne by done; apply Hs]. rewrite lookup_insert_eq. intros [= <-]. rewrite Hn. by apply Hs.
Qed.

Lemma sane_mint d id b : check_belief b = true → b_evidence_count b = 0 → sane d → sane (set_beliefs <[id := b]> d).
Proof.
  intros Hc Hn [Hb ? ? ? ? Hs ? ?]. split; try done; [by apply map_Forall_insert_2|]. intros i b'. cbn.
  destruct (decide (id = i)) as [->|]; [|rewrite lookup_insert_ne by done; apply Hs]. rewrite lookup_insert_eq. intros [= <-]. rewrite Hn.
  unfold evidence_count. lia.
Qed.

Lemma same_triple_sym e e' : same_triple e e' = same_triple e' e.
Proof. unfold same_triple, beq. repeat f_equal; apply bool_decide_ext; naive_solver. Qed.

Lemma has_triple_false d e k e' : has_triple d e = false → t_edges d !! k = Some e' → same_triple e e' = false.
Proof. unfold has_triple. intros H%negb_false_iff%bool_decide_eq_true Hk. exact (H k e' Hk). Qed.

Lemma lookup_alter_belief d id f i b' : t_beliefs (alter_belief id f d) !! i = Some b' →
  ∃ b, t_beliefs d !! i = Some b ∧ b' = if decide (id = i) then f b else b.
Proof.
  cbn. destruct (decide (id = i)) as [->|].
  - rewrite lookup_alter_eq. intros (b & Hb & ->)%fmap_Some. by exists b.
  - rewrite lookup_alter_ne by done. by exists b'.
Qed.

Lemma sane_edge d k e touch : t_edges d !! k = None → has_triple d e = false → check_edge e = true → e_archived e = false →
  touch = id ∨ (∃ s, touch = belief_touched s) → sane d → sane (count_edge touch e (set_edges <[k := e]> d)).
Proof.
  intros Hk Ht Hc Ha Htouch [Hb He ? ? Htr Hs ? ?]. set (d1 := set_edges <[k := e]> d).
  assert (t_edges (count_edge touch e d1) = <[k := e]> (t_edges d)) as Hed by (unfold count_edge; by destruct (is_evidence e)).
  assert (∀ t, evidence_count (count_edge touch e d1) t = evidence_count d1 t) as Hec.
  { intros t. unfold evidence_count. unfold count_edge. by destruct (is_evidence e). }
  assert (∀ i b', t_beliefs (count_edge touch e d1) !! i = Some b' → ∃ b, t_beliefs d !! i = Some b ∧
    (check_belief b = true → check_belief b' = true) ∧ b_evidence_count b' = b_evidence_count b + (if evidence_for i e then 1 else 0)) as Hbel.
  { intros i b' Hi. unfold count_edge in Hi. unfold evidence_for. rewrite Ha. cbn [negb andb]. destruct (is_evidence e); cbn [andb].
    - apply lookup_alter_belief in Hi as (b & Hi & ->). exists b. split; [done|]. unfold beq.
      destruct (decide (e_to e = i)); [rewrite bool_decide_true by done|rewrite bool_decide_false by done; split; [done|lia]].
      destruct Htouch as [->|[s' ->]]; by split.
    - exists b'. split; [done|]. split; [done|lia]. }
  split; try (unfold count_edge; by destruct (is_evidence e)).
  - intros i b' Hi. destruct (Hbel i b' Hi) as (b & Hi' & Hck & _). apply Hck. exact (Hb i b Hi').
  - rewrite Hed. by apply map_Forall_insert_2.
  - rewrite Hed. intros i i' e1 e2. destruct (decide (i = k)) as [->|], (decide (i' = k)) as [->|];
      rewrite ?lookup_insert_eq, ?lookup_insert_ne by congruence; intros H1 H2; simplify_eq; [done|..|by apply Htr].
    + intros Hst. by rewrite (has_triple_false _ _ _ _ Ht H2) in Hst.
    + rewrite same_triple_sym. intros Hst. by rewrite (has_triple_false _ _ _ _ Ht H1) in Hst.
  - intros i b' Hi. destruct (Hbel i b' Hi) as (b & Hi' & _ & ->). rewrite Hec. unfold d1. rewrite count_new by done. specialize (Hs i b Hi'). lia.
Qed.

Lemma sane_edge_archive d k e : t_edges d !! k = Some e → sane d →
  sane (let d' := set_edges <[k := edge_archived e]> d in
    if is_evidence e then alter_belief (e_to e) (belief_counted (evidence_count d' (e_to e))) d' else d').
Proof.
  intros Hk [Hb He ? ? Htr Hs ? ?]. cbn zeta. set (d1 := set_edges <[k := edge_archived e]> d).
  set (d2 := if is_evidence e then _ else _). assert (t_edges d2 = <[k := edge_archived e]> (t_edges d)) as Hed by (unfold d2; by destruct (is_evidence e)).
  assert (∀ t, evidence_count d2 t = evidence_count d1 t) as Hec by (intros t; unfold evidence_count, d2; by destruct (is_evidence e)).
  assert (∀ i b', t_beliefs d2 !! i = Some b' → ∃ b, t_beliefs d !! i = Some b ∧ (check_belief b = true → check_belief b' = true) ∧
    b_evidence_count b' = if is_evidence e && bool_decide (e_to e = i) then evidence_count d1 i else b_evidence_count b) as Hbel.
  { intros i b' Hi. unfold d2 in Hi. destruct (is_evidence e); [|by exists b']. apply lookup_alter_belief in Hi as (b & Hi & ->). exists b.
    split; [done|]. destruct (decide (e_to e = i)) as [<-|]; [by rewrite bool_decide_true|by rewrite bool_decide_false]. }
  split; try (unfold d2; by destruct (is_evidence e)).
  - intros i b' Hi. destruct (Hbel i b' Hi) as (b & Hi' & Hck & _). apply Hck. exact (Hb i b Hi').
  - rewrite Hed. apply map_Forall_insert_2; [|done]. exact (He k e Hk).
  - rewrite Hed. intros i i' e1 e2. destruct (decide (i = k)) as [->|], (decide (i' = k)) as [->|];
      rewrite ?lookup_insert_eq, ?lookup_insert_ne by congruence; intros H1 H2; simplify_eq; [done|..|by apply Htr];
      intros Hst; by eapply Htr.
  - intros i b' Hi. destruct (Hbel i b' Hi) as (b & Hi' & _ & ->). rewrite Hec. destruct (is_evidence e) eqn:Hev; cbn [andb].
    + destruct (bool_decide (e_to e = i)) eqn:E; [lia|]. apply bool_decide_eq_false in E. unfold d1. rewrite (count_archived _ _ e) by done.
      destruct (evidence_for i e) eqn:Ef; [by apply evidence_for_other in Ef|]. specialize (Hs i b Hi'). lia.
    + unfold d1. rewrite (count_archived _ _ e) by done. assert (evidence_for i e = false) as -> by (unfold evidence_for; by rewrite Hev, andb_false_r).
      specialize (Hs i b Hi'). lia.
Qed.

(** ** Ring 1: the operator relationship *)

Section Rules.
Context `{Q : Sqlite}.
Variable deferred : bool.

(** The row an upsert leaves: a new one, or the old one's role, type and standing. *)
Lemma upsert_relationship_row evt p d d' : upsert_relationship deferred evt p d = Ok d' → map_Forall (λ _ r, check_relationship r = true) (t_relationships d) →
  ∃ r', d' = set_relationships <[rp_ID p := r']> d ∧ check_relationship r' = true ∧
  match t_relationships d !! rp_ID p with
  | None => r_role r' = rp_CounterpartRole p ∧ r_superseded_by r' = None
  | Some old => r_role r' = r_role old ∧ r_superseded_by r' = r_superseded_by old
  end.
Proof.
  intros H Hc. unfold upsert_relationship in H. cbn zeta in H. destruct (check_relationship _) eqn:E in H; [|done]. cbn [negb] in H.
  apply fk_bind in H as ->. eexists. split; [done|]. destruct (t_relationships d !! rp_ID p) as [old|] eqn:Ho; [|done]. split; [|done].
  specialize (Hc _ _ Ho). unfold check_relationship in *. cbn in *. b2p. by repeat (apply andb_true_iff; split).
Qed.

Lemma supersede_relationship_ok id new d d' : supersede_relationship deferred id new d = Ok d' →
  ∃ r, t_relationships d !! id = Some r ∧ r_superseded_by r = None ∧ d' = set_relationships <[id := relationship_superseded new r]> d.
Proof.
  unfold supersede_relationship. destruct (t_relationships d !! id) as [r|]; [|done]. destruct (bool_decide _) eqn:E; [|done]. cbn zeta.
  intros ->%fk_bind. exists r. by apply bool_decide_eq_true in E.
Qed.

(** A relationship event touches no other table. *)
Lemma relationship_only evt d d' : materializeRelationshipLocked deferred evt d = Ok d' → ∃ m, d' = set_relationships (λ _, m) d.
Proof.
  unfold materializeRelationshipLocked. destruct (of_option _ _) as [p|]; [|done]. cbn [mbind result_bind].
  destruct (validateRelationshipLocked p d); [|done]. cbn [mbind result_bind]. intros (d1 & H1 & (d2 & H2 & H3)%bind_ok)%bind_ok.
  unfold upsert_relationship in H1. cbn zeta in H1. destruct (negb _); [done|]. apply fk_bind in H1 as ->.
  destruct (_ && _); [done|]. injection H3 as <-.
  destruct (beq _ _); [injection H2 as <-; by eexists|apply supersede_relationship_ok in H2 as (r & _ & _ & ->); by eexists].
Qed.

(** What a relationship event does to the operators' rows. *)
Lemma relationship_operators evt d d' : materializeRelationshipLocked deferred evt d = Ok d' →
  map_Forall (λ _ r, check_relationship r = true) (t_relationships d) →
  (∃ m, d' = set_relationships (λ _, m) d ∧ map_Forall (λ _ r, check_relationship r = true) m) ∧
  (size (current_operators d') = 1%nat ∨ size (current_operators d') = size (current_operators d)).
Proof.
  unfold materializeRelationshipLocked. destruct (readRelationshipPayload _) as [p|]; [|done]. cbn [of_option mbind result_bind].
  destruct (validateRelationshipLocked p d) as [[]|] eqn:Hv; [|done]. cbn [mbind result_bind].
  intros (d1 & H1 & (d2 & H2 & H3)%bind_ok)%bind_ok Hc. destruct (upsert_relationship_row _ _ _ _ H1 Hc) as (r' & -> & Hr' & Hrow).
  assert (map_Forall (λ _ r, check_relationship r = true) (<[rp_ID p := r']> (t_relationships d))) as Hc1 by (by apply map_Forall_insert_2).
  set (d1 := set_relationships <[rp_ID p := r']> d) in *.
  assert ((∃ m, d2 = set_relationships (λ _, m) d ∧ map_Forall (λ _ r, check_relationship r = true) m)) as Hm.
  { destruct (beq (rp_Supersedes p) []); [injection H2 as <-; by eexists|].
    apply supersede_relationship_ok in H2 as (r & Hr & _ & ->). eexists. split; [done|]. apply map_Forall_insert_2; [|done]. exact (Hc1 _ _ Hr). }
  destruct (is_operator (rp_CounterpartRole p)) eqn:Hop; cbn [andb] in H3.
  - destruct (Nat.eqb_spec (size (current_operators d2)) 1) as [Hs|]; [|done]. injection H3 as <-. split; [done|by left].
  - injection H3 as <-. split; [done|]. right. unfold validateRelationshipLocked in Hv. rewrite Hop in Hv.
    assert (size (current_operators d1) = size (current_operators d)) as Hs1.
    { unfold current_operators. cbn. destruct (t_relationships d !! rp_ID p) as [old|] eqn:Ho; destruct Hrow as [Hrole Hsup].
      - apply (filter_replace _ _ _ old); [done|]. unfold current_operator. cbn. by rewrite Hrole, Hsup.
      - rewrite filter_outside; [done|done|]. unfold current_operator. cbn. rewrite Hrole, Hop. by intros []. }
    destruct (beq (rp_Supersedes p) []); [by injection H2 as <-|]. rewrite <- Hs1.
    apply supersede_relationship_ok in H2 as (r & Hr & _ & ->). cbn in Hr.
    unfold approvalShape in Hv. rewrite Hop in Hv. cbn [negb mbind result_bind] in Hv.
    destruct (t_relationships d !! rp_Supersedes p) as [r0|] eqn:Hr0; [|done]. rewrite andb_true_r in Hv.
    destruct (is_operator (r_role r0)) eqn:Hop0; [done|].
    assert (r_role r = r_role r0) as Hrr.
    { destruct (decide (rp_ID p = rp_Supersedes p)) as [E|]; [|rewrite lookup_insert_ne in Hr by done; congruence].
      rewrite E, lookup_insert_eq in Hr. injection Hr as <-. rewrite E, Hr0 in Hrow. apply Hrow. }
    unfold current_operators. change (t_relationships (set_relationships <[rp_Supersedes p := relationship_superseded (rp_ID p) r]> d1))
      with (<[rp_Supersedes p := relationship_superseded (rp_ID p) r]> (t_relationships d1)).
    apply (filter_replace _ _ _ r); [done|]. unfold current_operator. cbn. rewrite Hrr, Hop0. naive_solver.
Qed.

(** ** The portrait *)

Lemma current_portrait d o : currentSelfModelLocked d = Ok o →
  match o with
  | None => filter is_current (t_synthesis d) = ∅
  | Some c => filter is_current (t_synthesis d) = {[cs_ID c := cs_row c]}
  end.
Proof.
  unfold currentSelfModelLocked. destruct (map_to_list _) as [|[id row] [|]] eqn:E; [| |done].
  - intros [= <-]. by apply map_to_list_empty_iff.
  - destruct (decodeRecordedRefs _); [|done]. intros [= <-]. apply map_to_list_inj. rewrite E. cbn [cs_ID cs_row]. by rewrite map_to_list_singleton.
Qed.

Lemma self_model_current d p h refs current : self_model_sources d p h = Ok (refs, current) → currentSelfModelLocked d = Ok current.
Proof.
  unfold self_model_sources, validateSelfModelPayloadLocked. destruct h.
  - destruct (currentSelfModelLocked d); [|done]. by intros [= _ <-].
  - destruct (beq _ _); [done|]. destruct (beq _ _); [done|]. destruct (beq _ _); [done|]. destruct (canonicalSelfModelRefs _); [|done].
    cbn [mbind result_bind]. destruct (currentSelfModelLocked d) as [[c|]|]; [| |done]; cbn [mbind result_bind].
    + destruct (negb _); [done|]. destruct (_ && _); [done|]. by intros [= _ <-].
    + destruct (negb _); [done|]. by intros [= _ <-].
Qed.

(** A portrait event leaves exactly one portrait current. *)
Lemma portrait_current evt d d' : materializeSelfModelSynthesis deferred evt d = Ok d' →
  (∃ m, d' = set_synthesis (λ _, m) d) ∧ size (filter is_current (t_synthesis d')) = 1%nat.
Proof.
  unfold materializeSelfModelSynthesis. destruct (DecodeRecordedSelfModelSynthesis _) as [[payload h]|]; [|done]. cbn zeta.
  destruct (self_model_sources _ _ _) as [[refs current]|] eqn:Hs; [|done]. cbn [mbind result_bind].
  apply self_model_current, current_portrait in Hs. set (p := if h then _ else _). set (row := mkSynthesis _ _ _ _ _ _ _).
  intros (d1 & H1 & H2)%bind_ok. unfold insert_synthesis in H1. destruct (negb _); [done|]. destruct (_ && _); [done|]. cbn zeta in H1.
  apply fk_bind in H1 as ->.
  assert (filter is_current (<[sm_ID p := row]> (t_synthesis d)) = <[sm_ID p := row]> (filter is_current (t_synthesis d))) as Hf
    by (by apply map_filter_insert_True).
  unfold supersede_current in H2. destruct current as [c|].
  - destruct (beq (cs_ID c) (sm_ID p)) eqn:Hid; b2p.
    + injection H2 as <-. split; [by eexists|]. cbn. rewrite Hf, Hs, Hid, insert_singleton_eq. apply map_size_singleton.
    + destruct (supersede_synthesis deferred _ _ _) as [[d2 []]|] eqn:E; [|done..]. injection H2 as <-. unfold supersede_synthesis in E.
      cbn in E. rewrite lookup_insert_ne in E by done. assert (t_synthesis d !! cs_ID c = Some (cs_row c) ∧ is_current (cs_ID c, cs_row c)) as [Hc Hcur].
      { apply (map_lookup_filter_Some is_current). rewrite Hs. apply lookup_singleton_eq. }
      rewrite Hc in E. destruct (bool_decide _); [|done]. cbn zeta in E. unfold fk in E. destruct (deferred || _); [|done]. injection E as <-.
      split; [by eexists|]. cbn.
      assert (¬ is_current (cs_ID c, synthesis_superseded (sm_ID p) (cs_row c))) by done.
      rewrite map_filter_insert_False by done. rewrite map_filter_delete, Hf, Hs.
      rewrite delete_insert_ne, delete_singleton_eq by done. rewrite map_size_insert_None; [by rewrite map_size_empty|apply lookup_empty].
  - injection H2 as <-. split; [by eexists|]. cbn. rewrite Hf, Hs. rewrite map_size_insert_None; [by rewrite map_size_empty|apply lookup_empty].
Qed.

(** ** Every step keeps it *)

Lemma check_said text conf seq b : check_belief b = true → unit_interval conf = true → check_belief (belief_said text conf seq b) = true.
Proof. unfold check_belief. intros H Hc. b2p. cbn. by rewrite Hc; repeat (apply andb_true_iff; split; try done); apply Z.leb_le. Qed.

Lemma check_placed ring seq b : check_belief b = true → 2 ≤ ring ≤ 3 → check_belief (belief_placed ring seq b) = true.
Proof. unfold check_belief. intros H Hr. b2p. cbn. repeat (apply andb_true_iff; split; try done); apply Z.leb_le; lia. Qed.

Lemma op_sane evt d d' : event_op deferred evt d d' → sane d → sane d'.
Proof.
  intros Hop Hs. destruct Hop as [id text b|id text conf old|id ring old|id reason old|id new reason old|id ticks old|k e touch| |id x|id x|d'|d'|d' (E1 & E2 & E3 & E4 & E5)].
  - by apply sane_mint.
  - apply (sane_belief d id old); [done|apply check_said; [exact (sane_beliefs _ Hs _ _ H0)|done]|done|done].
  - apply (sane_belief d id old); [done|apply check_placed; [exact (sane_beliefs _ Hs _ _ H2)|done]|done|done].
  - apply (sane_belief d id old); [done|exact (sane_beliefs _ Hs _ _ H1)|done|done].
  - apply (sane_belief d id old); [done|exact (sane_beliefs _ Hs _ _ H1)|done|done].
  - apply (sane_belief d id old); [done|exact (sane_beliefs _ Hs _ _ H0)|done|done].
  - apply sane_edge; try done. naive_solver.
  - by apply sane_edge_archive.
  - destruct Hs. split; try done. by apply map_Forall_insert_2.
  - destruct Hs as [? ? Hx ? ? ? ? ?]. split; try done. apply map_Forall_insert_2; [|done]. exact (Hx _ _ H0).
  - apply portrait_current in H0 as [(m & ->) Hc]. destruct Hs. split; try done. rewrite Hc. done.
  - apply relationship_operators in H0 as [(m & -> & Hm) Hc]; [|by apply Hs]. destruct Hs. split; try done. lia.
  - destruct Hs as [H1 H2 H3 H4 H5 H6 H7 H8]. unfold current_operators, evidence_count in *.
    split; unfold current_operators, evidence_count; rewrite ?E1, ?E2, ?E3, ?E4, ?E5; assumption.
Qed.

(** Once there is a current operator relationship, there always is. *)
Lemma op_chartered evt d d' : event_op deferred evt d d' → sane d → size (current_operators d) = 1%nat → size (current_operators d') = 1%nat.
Proof.
  intros Hop Hs. destruct Hop as [id text b|id text conf old|id ring old|id reason old|id new reason old|id ticks old|k e touch|k e|id x|id x|d'|d'|d' (E1 & E2 & E3 & E4 & E5)];
    try done.
  - unfold count_edge. by destruct (is_evidence e).
  - cbn zeta. by destruct (is_evidence e).
  - by apply portrait_current in H0 as [(m & ->) _].
  - apply relationship_operators in H0 as [_ Hc]; [lia|by apply Hs].
  - unfold current_operators. by rewrite E4.
Qed.

Lemma ops_sane evt d d' : rtc (event_op deferred evt) d d' → sane d →
  sane d' ∧ (size (current_operators d) = 1%nat → size (current_operators d') = 1%nat).
Proof.
  induction 1 as [d|d d1 d2 H _ IH]; intros Hs; [done|]. pose proof (op_sane _ _ _ H Hs) as Hs1. destruct (IH Hs1) as [Hs2 Hc]. split; [done|].
  intros H1. by apply Hc, (op_chartered _ _ _ H).
Qed.

Lemma materialize_all_sane evts : ∀ d d', materialize_all deferred evts d = Ok d' → sane d →
  sane d' ∧ (size (current_operators d) = 1%nat → size (current_operators d') = 1%nat).
Proof.
  induction evts as [|e evts IH]; intros d d'; cbn [materialize_all]; [by intros [= <-]|]. intros (d1 & H1%materialize_ops & H2)%bind_ok Hs.
  destruct (ops_sane _ _ _ H1 Hs) as [Hs1 Hc1]. destruct (IH _ _ H2 Hs1) as [Hs2 Hc2]. auto.
Qed.

End Rules.
