(* ===== verification/AdmissionFacts.v ===== *)
(** * What admission promises

    An event [ValidateEvent] lets through materializes; an active belief always
    rests on active evidence; a belief's words are not changed under its id, nor
    a retired belief revived. *)

From stdpp Require Import gmap relations.
From Stdlib Require Import SpecFloat.
From S2P Require Import Prelude Utf8 GoJson CanonicalJson GoStruct Crypto Event Lines GoStrings Tables SelfModel Materialize Admission Timeless Projection Steps Graph.

(** ** Fields by their folded name

    Two structs that give a field names equal up to case read it from the same
    members. *)

Definition payload_members (payload : bytes) : option (list (bytes * bytes)) := raw ← one_value true payload; members_of raw.

Definition folded (n : bytes) (ms : list (bytes * bytes)) : list bytes := snd <$> filter (λ kv, fold_name kv.1 = fold_name n) ms.

Lemma fold_unique names x n : NoDup (fold_name <$> names) → x ∈ names → n ∈ names → fold_name x = fold_name n → x = n.
Proof.
  intros Hnd [i Hi]%list_elem_of_lookup [j Hj]%list_elem_of_lookup Hf.
  assert ((fold_name <$> names) !! i = Some (fold_name n)) as H1 by (by rewrite list_lookup_fmap, Hi, <- Hf).
  assert ((fold_name <$> names) !! j = Some (fold_name n)) as H2 by (by rewrite list_lookup_fmap, Hj).
  pose proof (NoDup_lookup _ _ _ _ Hnd H1 H2). congruence.
Qed.

Lemma match_field_fold names k n : NoDup (fold_name <$> names) → n ∈ names → match_field names k = Some n ↔ fold_name k = fold_name n.
Proof.
  intros Hnd Hn. unfold match_field. destruct (existsb (beq k) names) eqn:E.
  - apply existsb_exists in E as (x & Hx%list_elem_of_In & Hk). b2p. subst x. split; [by intros [= ->]|]. intros Hf. f_equal.
    by eapply fold_unique.
  - split.
    + intros [_ H]%find_some. by apply bool_decide_eq_true in H.
    + intros Hf. destruct (find _ names) as [x|] eqn:Ex.
      * apply find_some in Ex as [Hx%list_elem_of_In Hb]. apply bool_decide_eq_true in Hb. f_equal. eapply fold_unique; [done..|congruence].
      * apply list_elem_of_In in Hn. apply (find_none _ _ Ex n) in Hn. apply bool_decide_eq_false in Hn. congruence.
Qed.

Lemma occurrences_folded names ms ms' n : NoDup (fold_name <$> names) → n ∈ names → match_members false names ms = Some ms' →
  occurrences n ms' = folded n ms.
Proof.
  intros Hnd Hn. revert ms'. induction ms as [|[k raw] ms IH]; intros ms'; cbn [match_members]; [by intros [= <-]|].
  pose proof (match_field_fold names k n Hnd Hn) as Hm. unfold folded. rewrite filter_cons.
  destruct (match_field names k) as [x|] eqn:E.
  - intros (ms1 & H1 & ->)%fmap_Some. specialize (IH _ H1). unfold occurrences in *. rewrite filter_cons. cbn [fst].
    destruct (decide (x = n)) as [->|Hx].
    + rewrite decide_True by (by apply Hm). cbn. by rewrite IH.
    + rewrite decide_False by (intros Hf; apply Hm in Hf; congruence). exact IH.
  - intros H1. rewrite decide_False by (intros Hf; apply Hm in Hf; congruence). by apply IH.
Qed.

Lemma unmarshal_members names payload ms : unmarshal names payload = Some ms → ∃ ms0, payload_members payload = Some ms0 ∧
  ∀ n, NoDup (fold_name <$> names) → n ∈ names → occurrences n ms = folded n ms0.
Proof.
  unfold unmarshal, struct_members, payload_members. intros (raw & H1 & (ms0 & H2 & H3)%bind_Some)%bind_Some. exists ms0. rewrite H1. cbn.
  split; [done|]. intros n Hnd Hn. by eapply occurrences_folded.
Qed.

Lemma members_unmarshal names payload ms0 : payload_members payload = Some ms0 → ∃ ms, unmarshal names payload = Some ms.
Proof.
  unfold unmarshal, struct_members, payload_members. intros (raw & H1 & H2)%bind_Some. rewrite H1. cbn. rewrite H2. cbn.
  clear. induction ms0 as [|[k raw] ms IH]; [by eexists|]. cbn. destruct IH as [ms' ->]. destruct (match_field names k); by eexists.
Qed.

(** A string field of the payload. *)
Definition text_field (n : bytes) (ms0 : list (bytes * bytes)) : option bytes :=
  foldl (λ acc raw, cur ← acc; if beq raw null_text then Some cur else conv_string raw) (Some []) (folded n ms0).

Lemma field_text_of n ms ms0 : occurrences n ms = folded n ms0 → field conv_string [] n ms = text_field n ms0.
Proof. intros H. unfold field, text_field. by rewrite H. Qed.

Lemma text_field_fold n n' ms0 : fold_name n = fold_name n' → text_field n ms0 = text_field n' ms0.
Proof. intros H. unfold text_field, folded. by rewrite H. Qed.

Ltac nodup := apply (bool_decide_unpack _); vm_compute; exact I.
Ltac member := apply (bool_decide_unpack _); vm_compute; exact I.

Lemma Forall2_impl_in {A B} (R R' : A → B → Prop) l k : Forall2 R l k → (∀ x y, x ∈ l → R x y → R' x y) → Forall2 R' l k.
Proof. induction 1 as [|x y l k Hx _ IH]; intros H; constructor; [apply H; [by left|done]|]. apply IH. intros x' y' Hin. apply H. by right. Qed.

Lemma decode_strings_ok names payload vals : NoDup (fold_name <$> names) → decode_strings names payload = Some vals →
  ∃ ms0, payload_members payload = Some ms0 ∧ Forall2 (λ n v, text_field n ms0 = Some v) names vals.
Proof.
  intros Hnd (ms & (ms0 & H0 & Ho)%unmarshal_members & H)%bind_Some. exists ms0. split; [done|]. apply mapM_Some_1 in H.
  eapply Forall2_impl_in; [exact H|]. intros n v Hn Hv. by rewrite <- (field_text_of _ _ _ (Ho n Hnd Hn)).
Qed.

Lemma decode_strings_of names payload ms0 vals : NoDup (fold_name <$> names) → payload_members payload = Some ms0 →
  Forall2 (λ n v, text_field n ms0 = Some v) names vals → decode_strings names payload = Some vals.
Proof.
  intros Hnd H0 Hv. destruct (members_unmarshal names _ _ H0) as [ms Hms]. unfold decode_strings. rewrite Hms. cbn. apply mapM_Some_2.
  destruct (unmarshal_members _ _ _ Hms) as (ms0' & H0' & Ho). rewrite H0 in H0'. injection H0' as <-.
  eapply Forall2_impl_in; [exact Hv|]. intros n v Hn Ht. by rewrite (field_text_of _ _ _ (Ho n Hnd Hn)).
Qed.

(** The words an event gives a belief, by the fields of its payload. *)
Lemma upsert_fields evt id text : upsert_of evt = Some (id, text) → ∃ ms0 content, payload_members (Payload evt) = Some ms0 ∧
  text_field (bs "id") ms0 = Some id ∧ text_field (bs "content") ms0 = Some content ∧
  (EType evt = EventWorkingStyleUpsert ∧ text = content ∨
   EType evt = EventBeliefUpsert ∧ ∃ statement, text_field (bs "statement") ms0 = Some statement ∧ text = or_else statement content).
Proof.
  unfold upsert_of. destruct (beq (EType evt) EventBeliefUpsert) eqn:E1; b2p.
  - intros (p & Hp & [= <- <-])%bind_Some. unfold decode_belief in Hp.
    apply bind_Some in Hp as (ms & (ms0 & H0 & Ho)%unmarshal_members & Hp).
    apply bind_Some in Hp as (id & Hid & Hp). apply bind_Some in Hp as (st & Hst & Hp). apply bind_Some in Hp as (ct & Hct & Hp).
    repeat (apply bind_Some in Hp as (? & ? & Hp)). injection Hp as <-. cbn. exists ms0, ct.
    rewrite (field_text_of _ _ ms0) in Hid by (apply Ho; [nodup|member]). rewrite (field_text_of _ _ ms0) in Hst by (apply Ho; [nodup|member]).
    rewrite (field_text_of _ _ ms0) in Hct by (apply Ho; [nodup|member]). repeat (split; [done|]). right. split; [done|]. by exists st.
  - destruct (beq (EType evt) EventWorkingStyleUpsert) eqn:E2; [|done]. b2p.
    intros (p & Hp & [= <- <-])%bind_Some. unfold decode_working_style in Hp.
    apply bind_Some in Hp as (ms & (ms0 & H0 & Ho)%unmarshal_members & Hp).
    apply bind_Some in Hp as (id & Hid & Hp). apply bind_Some in Hp as (ct & Hct & Hp).
    repeat (apply bind_Some in Hp as (? & ? & Hp)). injection Hp as <-. cbn. exists ms0, ct.
    rewrite (field_text_of _ _ ms0) in Hid by (apply Ho; [nodup|member]). rewrite (field_text_of _ _ ms0) in Hct by (apply Ho; [nodup|member]).
    repeat (split; [done|]). by left.
Qed.

Lemma admission_fields payload p : decode_admission payload = Some p → ∃ ms0, payload_members payload = Some ms0 ∧
  text_field (bs "id") ms0 = Some (ap_ID p) ∧ text_field (bs "statement") ms0 = Some (ap_Statement p) ∧ text_field (bs "content") ms0 = Some (ap_Content p).
Proof.
  unfold decode_admission. intros (ms & (ms0 & H0 & Ho)%unmarshal_members & Hp)%bind_Some.
  apply bind_Some in Hp as (id & Hid & Hp). apply bind_Some in Hp as (st & Hst & Hp). apply bind_Some in Hp as (ct & Hct & Hp).
  repeat (apply bind_Some in Hp as (? & ? & Hp)). injection Hp as <-. cbn. exists ms0.
  rewrite (field_text_of _ _ ms0) in Hid by (apply Ho; [nodup|member]). rewrite (field_text_of _ _ ms0) in Hst by (apply Ho; [nodup|member]).
  rewrite (field_text_of _ _ ms0) in Hct by (apply Ho; [nodup|member]). done.
Qed.

(** The rules that read the payload on their own read the same id and words. *)
Lemma admission_reads evt id text p : upsert_of evt = Some (id, text) → decode_admission (Payload evt) = Some p →
  ap_ID p = id ∧ upsert_text (EType evt) (ap_Statement p) (ap_Content p) = text ∧
  decode_strings [bs "ID"; bs "Statement"; bs "Content"] (Payload evt) = Some [id; ap_Statement p; ap_Content p].
Proof.
  intros (ms0 & ct & H0 & Hid & Hct & Ht)%upsert_fields (ms0' & H0' & Hid' & Hst' & Hct')%admission_fields.
  rewrite H0 in H0'. injection H0' as <-. assert (ap_ID p = id) as <- by congruence. split; [done|].
  assert (ap_Content p = ct) as <- by congruence. split.
  - unfold upsert_text. destruct Ht as [(-> & ->)|(-> & st & Hst & ->)]; [by rewrite beq_refl|].
    assert (ap_Statement p = st) as <- by congruence. by replace (beq EventBeliefUpsert EventWorkingStyleUpsert) with false by (vm_compute; done).
  - eapply decode_strings_of; [nodup|done|]. repeat constructor.
    + rewrite (text_field_fold _ (bs "id")) by (vm_compute; done). done.
    + rewrite (text_field_fold _ (bs "statement")) by (vm_compute; done). done.
    + rewrite (text_field_fold _ (bs "content")) by (vm_compute; done). done.
Qed.

Lemma upsert_reads_id evt id text : upsert_of evt = Some (id, text) → decode_strings [bs "ID"] (Payload evt) = Some [id].
Proof.
  intros (ms0 & ct & H0 & Hid & _)%upsert_fields. eapply decode_strings_of; [nodup|done|]. repeat constructor.
  rewrite (text_field_fold _ (bs "id")) by (vm_compute; done). done.
Qed.

Lemma promote_reads_id payload id ring : decode_promote payload = Some (id, ring) → decode_strings [bs "ID"] payload = Some [id].
Proof.
  unfold decode_promote. intros (ms & (ms0 & H0 & Ho)%unmarshal_members & (id' & Hid & (r & _ & [= -> ->])%bind_Some)%bind_Some)%bind_Some.
  rewrite (field_text_of _ _ ms0) in Hid by (apply Ho; [nodup|member]). eapply decode_strings_of; [nodup|done|]. repeat constructor.
  rewrite (text_field_fold _ (bs "id")) by (vm_compute; done). done.
Qed.

(** ** What one event can do to a belief *)

Record changed (evt : Event) (id : bytes) (b b' : belief_row) : Prop := {
  ch_words : b_statement b' = b_statement b ∨ upsert_of evt = Some (id, b_statement b');
  ch_confidence : b_confidence b' = b_confidence b ∨ ∃ text, upsert_of evt = Some (id, text);
  ch_ring : b_ring b' = b_ring b ∨ EType evt = EventBeliefPromote ∧ ∃ ring, decode_promote (Payload evt) = Some (id, ring);
  ch_node : b_node_type b' = b_node_type b;
  ch_retired : active b = false → active b' = false;
}.

Lemma changed_refl evt id b : changed evt id b b.
Proof. split; auto. Qed.

Lemma changed_trans evt id b1 b2 b3 : changed evt id b1 b2 → changed evt id b2 b3 → changed evt id b1 b3.
Proof. intros [[H1|H1] H2 H3 H4 H5] [[J1|J1] J2 J3 J4 J5]; split; try (rewrite ?J1, ?H1 in *; naive_solver congruence). Qed.

Lemma retired_counted n b : active (belief_counted n b) = active b.
Proof. done. Qed.

Section OneEvent.
Context `{Q : Sqlite}.
Variable deferred : bool.

(** A row inserted at [i]. *)
Lemma changed_at (evt : Event) (m : gmap bytes belief_row) i b' id b : m !! id = Some b → (i = id → changed evt id b b') →
  ∃ b'', <[i := b']> m !! id = Some b'' ∧ changed evt id b b''.
Proof.
  intros Hb Hc. destruct (decide (i = id)) as [->|].
  - exists b'. rewrite lookup_insert_eq. auto.
  - exists b. rewrite lookup_insert_ne by done. split; [done|apply changed_refl].
Qed.

Lemma changed_alter (evt : Event) (m : gmap bytes belief_row) i f id b : m !! id = Some b → (∀ b, changed evt id b (f b)) →
  ∃ b'', alter f i m !! id = Some b'' ∧ changed evt id b b''.
Proof.
  intros Hb Hc. destruct (decide (i = id)) as [->|].
  - exists (f b). rewrite lookup_alter_eq, Hb. auto.
  - exists b. rewrite lookup_alter_ne by done. split; [done|apply changed_refl].
Qed.

Lemma op_belief evt d d' id b : event_op deferred evt d d' → t_beliefs d !! id = Some b →
  ∃ b', t_beliefs d' !! id = Some b' ∧ changed evt id b b'.
Proof.
  intros Hop Hb. destruct Hop as [i text bn Hu Hi|i text conf old Hu Hi _|i ring old Ht Hp Hr Hi|i reason old Ht Hp Hi|i new reason old Ht Hp Hi|i ticks old Hr Hi
    |k e touch Hk Htr Hc Ha Htouch|k e Ht Hp Hk|i x|i x|d' Ht H|d' Ht H|d' (E1 & _)]; cbn [set_beliefs t_beliefs].
  - apply changed_at; [done|]. intros ->. congruence.
  - apply changed_at; [done|]. intros ->. rewrite Hb in Hi. injection Hi as <-. split; cbn; eauto.
  - apply changed_at; [done|]. intros ->. rewrite Hb in Hi. injection Hi as <-. split; cbn; eauto.
  - apply changed_at; [done|]. intros ->. rewrite Hb in Hi. injection Hi as <-. split; cbn; eauto.
  - apply changed_at; [done|]. intros ->. rewrite Hb in Hi. injection Hi as <-. split; cbn; eauto. intros _. unfold active. cbn. apply andb_false_r.
  - apply changed_at; [done|]. intros ->. rewrite Hb in Hi. injection Hi as <-. split; cbn; eauto.
  - unfold count_edge. destruct (is_evidence e); [|exists b; split; [done|apply changed_refl]]. apply changed_alter; [done|].
    intros b0. destruct Htouch as [->| ->]; split; cbn; eauto.
  - destruct (is_evidence e); [|exists b; split; [done|apply changed_refl]]. apply changed_alter; [done|]. intros b0. split; cbn; eauto.
  - exists b. split; [done|apply changed_refl].
  - exists b. split; [done|apply changed_refl].
  - apply portrait_current in H as [(m & ->) _]. exists b. split; [done|apply changed_refl].
  - apply relationship_only in H as (m & ->). exists b. split; [done|apply changed_refl].
  - rewrite E1. exists b. split; [done|apply changed_refl].
Qed.

Lemma ops_belief evt d d' id b : rtc (event_op deferred evt) d d' → t_beliefs d !! id = Some b →
  ∃ b', t_beliefs d' !! id = Some b' ∧ changed evt id b b'.
Proof.
  intros H. revert b. induction H as [d|d d1 d2 H _ IH]; intros b Hb; [exists b; split; [done|apply changed_refl]|].
  destruct (op_belief _ _ _ _ _ H Hb) as (b1 & Hb1 & Hc1). destruct (IH _ Hb1) as (b2 & Hb2 & Hc2). exists b2. split; [done|]. by eapply changed_trans.
Qed.

(** Evidence only goes by the archiving of an edge. *)
Lemma op_evidence evt d d' t : event_op deferred evt d d' → EType evt ≠ EventEdgeArchive → evidence_count d t ≤ evidence_count d' t.
Proof.
  intros Hop Hne. destruct Hop as [i text bn Hu Hi|i text conf old Hu Hi _|i ring old Ht Hp Hr Hi|i reason old Ht Hp Hi|i new reason old Ht Hp Hi|i ticks old Hr Hi
    |k e touch Hk Htr Hc Ha Htouch|k e Ht Hp Hk|i x|i x|d' Ht H|d' Ht H|d' (_ & E2 & _)]; try done.
  - assert (evidence_count (count_edge touch e (set_edges <[k := e]> d)) t = evidence_count (set_edges <[k := e]> d) t) as ->
      by (unfold count_edge; by destruct (is_evidence e)).
    rewrite count_new by done. destruct (evidence_for t e); lia.
  - by apply portrait_current in H as [(m & ->) _].
  - by apply relationship_only in H as (m & ->).
  - unfold evidence_count. by rewrite E2.
Qed.

Lemma ops_evidence evt d d' t : rtc (event_op deferred evt) d d' → EType evt ≠ EventEdgeArchive → evidence_count d t ≤ evidence_count d' t.
Proof. induction 1 as [|d d1 d2 H _ IH]; intros Hne; [done|]. pose proof (op_evidence _ _ _ t H Hne). specialize (IH Hne). lia. Qed.

(** A belief that is active after an event was active before it, or is the one
    the event states. *)
Lemma op_active evt d d' id b' : event_op deferred evt d d' → t_beliefs d' !! id = Some b' → active b' = true →
  (∃ b, t_beliefs d !! id = Some b ∧ active b = true) ∨ ∃ text, upsert_of evt = Some (id, text).
Proof.
  intros Hop Hb' Ha'. destruct (t_beliefs d !! id) as [b|] eqn:Hb.
  - destruct (op_belief _ _ _ _ _ Hop Hb) as (b2 & Hb2 & Hc). assert (b2 = b') as -> by congruence. left. exists b. split; [done|].
    destruct (active b) eqn:E; [done|]. by rewrite (ch_retired _ _ _ _ Hc E) in Ha'.
  - right. destruct Hop as [i text bn Hu Hi|i text conf old Hu Hi _|i ring old Ht Hp Hr Hi|i reason old Ht Hp Hi|i new reason old Ht Hp Hi|i ticks old Hr Hi
      |k e touch Hk Htr Hc Ha Htouch|k e Ht Hp Hk|i x|i x|d' Ht H|d' Ht H|d' (E1 & _)]; cbn [set_beliefs t_beliefs] in Hb';
      try (destruct (decide (i = id)) as [->|]; [|rewrite lookup_insert_ne in Hb' by done]; congruence).
    + destruct (decide (i = id)) as [->|]; [by eexists|]. rewrite lookup_insert_ne in Hb' by done. congruence.
    + unfold count_edge in Hb'. destruct (is_evidence e); [|cbn in Hb'; congruence]. apply lookup_alter_belief in Hb' as (b0 & Hb0 & _). cbn in Hb0. congruence.
    + destruct (is_evidence e); [|cbn in Hb'; congruence]. apply lookup_alter_belief in Hb' as (b0 & Hb0 & _). cbn in Hb0. congruence.
    + cbn in Hb'. congruence.
    + cbn in Hb'. congruence.
    + apply portrait_current in H as [(m & ->) _]. cbn in Hb'. congruence.
    + apply relationship_only in H as (m & ->). cbn in Hb'. congruence.
    + rewrite E1 in Hb'. congruence.
Qed.

Lemma ops_active evt d d' id b' : rtc (event_op deferred evt) d d' → t_beliefs d' !! id = Some b' → active b' = true →
  (∃ b, t_beliefs d !! id = Some b ∧ active b = true) ∨ ∃ text, upsert_of evt = Some (id, text).
Proof.
  intros H. revert b'. induction H as [|d d1 d2 H _ IH]; intros b' Hb Ha; [left; by eexists|].
  destruct (IH _ Hb Ha) as [(b & Hb1 & Ha1)|?]; [|by right]. by eapply op_active.
Qed.

(** ** Origins *)

(** A slice field and a pointer to a slice are decoded alike; the pointer is nil
    when the last member is null or there is none. *)
Lemma slice_ptr {A} (conv : A → bytes → option A) zero raws : ∀ (o : option (slice A)) s s',
  s = default nil_slice o →
  foldl (λ acc raw, cur ← acc; slice_conv conv zero cur raw) (Some s) raws = Some s' →
  ∃ o', foldl (λ acc raw, cur ← acc; if beq raw null_text then Some None else Some <$> slice_conv conv zero (default nil_slice cur) raw) (Some o) raws = Some o' ∧
    s' = default nil_slice o'.
Proof.
  induction raws as [|raw raws IH]; intros o s s' Hs; cbn [foldl].
  - intros [= <-]. by exists o.
  - cbn [mbind option_bind]. destruct (slice_conv conv zero s raw) as [s1|] eqn:E.
    + destruct (beq raw null_text) eqn:En; b2p.
      * subst raw. unfold slice_conv, elems_of in E. rewrite beq_refl in E. injection E as <-. by apply IH.
      * rewrite <- Hs, E. by apply IH.
    + intros H. exfalso. revert H. clear. induction raws; [done|]. done.
Qed.
End OneEvent.

Lemma origins_present payload a ms ms0 : decode_admission payload = Some a → ap_OriginRefs a ≠ [] → payload_members payload = Some ms0 →
  occurrences (bs "origin_refs") ms = folded (bs "origin_refs") ms0 → ∀ o, origins_field ms = Some o → ∃ refs, o = Some refs.
Proof.
  intros Ha Hne H0 Ho o. unfold decode_admission in Ha. apply bind_Some in Ha as (ms1 & (ms0' & H0' & Ho')%unmarshal_members & Ha).
  rewrite H0 in H0'. injection H0' as <-.
  do 3 (apply bind_Some in Ha as (? & _ & Ha)). apply bind_Some in Ha as (refs & Hr & Ha). do 3 (apply bind_Some in Ha as (? & _ & Ha)).
  injection Ha as <-. cbn in Hne. unfold slice_field in Hr. apply fmap_Some in Hr as (s & Hs & ->).
  rewrite Ho' in Hs by (nodup || member). rewrite <- Ho in Hs.
  destruct (slice_ptr origin_conv (mkOrigin [] []) _ None nil_slice s eq_refl Hs) as (o' & Hp & ->).
  unfold origins_field, ptr_field. rewrite Hp. destruct o' as [s'|]; [intros [= <-]; by eexists|done].
Qed.

Section Admitting.
Context `{Q : Sqlite} `{P : Primitives} `{U : Unicode}.
Variable tr : Transcript.
Variable budget : Z.

Record validated (now t : bytes) (ring : Z) (payload : bytes) (d d' : DB) : Prop := {
  v_ring2 : validateRing2TextLocked t payload d = Ok ();
  v_belief : validateBeliefAdmissionLocked t payload d = Ok ();
  v_retired : validateRetiredBeliefLocked t payload d = Ok ();
  v_rehearsal : materializeLocked false (candidate (max_seq d + 1) now t ring payload) d = Ok d';
  v_grounding : t = EventEdgeArchive → validateActiveBeliefGroundingLocked payload d' = Ok ();
}.

Lemma ValidateEvent_ok begins now t ring payload d : ValidateEvent tr begins budget now t ring payload d = Ok () →
  begins = true ∧ existsb (Z.eqb ring) (CanonicalRings t) = true ∧ ∃ d', validated now t ring payload d d'.
Proof.
  unfold ValidateEvent. destruct (existsb _ _); [|done]. destruct begins; [|done]. cbn [negb]. cbn zeta.
  intros ([] & _ & ([] & _ & ([] & H3 & ([] & H4 & ([] & H5 & ([] & _ & ([] & _ & ([] & _ & ([] & _ & (d' & H10 & H11)%bind_ok)%bind_ok)%bind_ok)%bind_ok)%bind_ok)%bind_ok)%bind_ok)%bind_ok)%bind_ok)%bind_ok.
  split; [done|]. split; [done|]. exists d'. split; try done. intros ->. by rewrite beq_refl in H11.
Qed.

(** [evt] was admitted over [d] and materialized to [d']. *)
Definition admitted (d : DB) (evt : Event) (d' : DB) : Prop :=
  (∃ now, ValidateEvent tr true budget now (EType evt) (Ring evt) (Payload evt) d = Ok ()) ∧ Seq evt = max_seq d + 1 ∧
  materializeLocked false evt d = Ok d'.

Lemma candidate_alike evt now d : Seq evt = max_seq d + 1 →
  view_event blank (candidate (max_seq d + 1) now (EType evt) (Ring evt) (Payload evt)) = view_event blank evt.
Proof. intros <-. done. Qed.

Lemma validated_materializes now evt d : ValidateEvent tr true budget now (EType evt) (Ring evt) (Payload evt) d = Ok () →
  Seq evt = max_seq d + 1 → ∃ d', materializeLocked false evt d = Ok d'.
Proof.
  intros (_ & _ & d' & Hv)%ValidateEvent_ok Hs. pose proof (v_rehearsal _ _ _ _ _ _ Hv) as Hr.
  destruct (materialize_alike false _ evt _ _ (candidate_alike evt now d Hs) Hr) as (d'' & Hm & _). by exists d''.
Qed.

(** What the gate lets through, the projection takes: an event that
    [ValidateEvent] admits materializes when it has been appended, although its
    time, its link and its hashes were not known when it was rehearsed, and
    whatever they are; so an appended event never leaves record and projection
    apart for a rule. *)
Theorem admitted_event_materializes now evt d : ValidateEvent tr true budget now (EType evt) (Ring evt) (Payload evt) d = Ok () →
  Seq evt = max_seq d + 1 → ∃ d', materializeAtomic true true evt d = (d', None).
Proof.
  intros Hv Hs. destruct (validated_materializes _ _ _ Hv Hs) as [d' Hm]. exists d'. unfold materializeAtomic. by rewrite Hm.
Qed.

(** ** Words *)

Lemma admitted_words now evt d d0 id b : validated now (EType evt) (Ring evt) (Payload evt) d d0 → t_beliefs d !! id = Some b → id ≠ [] →
  ∀ text, upsert_of evt = Some (id, text) →
  active b = true ∧ normalizedBeliefStatement (b_statement b) = normalizedBeliefStatement text ∧ (b_ring b = 2 → text ≠ [] → b_statement b = text).
Proof.
  intros Hv Hb Hid text Hu. pose proof (v_belief _ _ _ _ _ _ Hv) as Ha. pose proof (v_ring2 _ _ _ _ _ _ Hv) as H2. pose proof (v_retired _ _ _ _ _ _ Hv) as Hr.
  assert (is_belief_event (EType evt) = true) as Hev.
  { unfold upsert_of in Hu. unfold is_belief_event. destruct (beq (EType evt) EventBeliefUpsert); [done|]. by destruct (beq (EType evt) EventWorkingStyleUpsert). }
  unfold validateBeliefAdmissionLocked in Ha. rewrite Hev in Ha. cbn [negb] in Ha. destruct (decode_admission _) as [p|] eqn:Hp; [|done].
  destruct (admission_reads _ _ _ _ Hu Hp) as (Hpid & Htext & Hstr). cbn [of_option mbind result_bind] in Ha.
  assert (active b = true) as Hact.
  { unfold validateRetiredBeliefLocked in Hr. rewrite Hev, (upsert_reads_id _ _ _ Hu) in Hr. cbn [orb negb] in Hr.
    rewrite (proj2 (beq_false _ _) Hid), Hb in Hr. by destruct (active b). }
  split; [done|]. split.
  - destruct (ap_DuplicateOK p); [done|]. cbn zeta in Ha. destruct (beq _ _); [done|]. destruct (_ && _); [done|]. destruct (_ =? _)%nat; [done|].
    destruct (negb _); [done|]. apply bind_ok in Ha as ([] & Hf & _). rewrite Htext in Hf.
    assert (duplicate_check p text (id, b) = Ok ()) as Hd.
    { assert ((id, b) ∈ map_to_list (active_beliefs d)) as Hin by (apply elem_of_map_to_list, map_lookup_filter_Some; done).
      revert Hf Hin. generalize (map_to_list (active_beliefs d)). clear. induction l as [|x l IH]; [by intros _ ?%elem_of_nil|]. cbn [first_error].
      intros ([] & Hx & Hl)%bind_ok [->|Hin]%elem_of_cons; auto. }
    unfold duplicate_check in Hd. cbn [fst snd] in Hd. rewrite Hpid, beq_refl in Hd. by destruct (beq _ _) eqn:E; [b2p|].
  - intros Hr2 Hne. unfold validateRing2TextLocked in H2. rewrite Hev, Hstr in H2. cbn [negb] in H2.
    rewrite (proj2 (beq_false _ _) Hid), Hb, Htext in H2. cbn zeta in H2. rewrite Hr2, (proj2 (beq_false _ _) Hne) in H2. cbn [andb negb] in H2.
    change (2 =? 2) with true in H2. cbn [andb] in H2. destruct (beq text (b_statement b)) eqn:E; [by b2p|done].
Qed.

(** A belief event gives its belief some words. *)
Lemma upsert_nonempty evt d d' id text : materializeLocked false evt d = Ok d' → upsert_of evt = Some (id, text) → text ≠ [].
Proof.
  unfold materializeLocked, upsert_of. intros (d1 & _ & H)%bind_ok. destruct (beq (EType evt) EventBeliefUpsert) eqn:E1; b2p.
  - unfold apply_event in H. rewrite E1 in H. change (materializeBeliefUpsert false evt d1 = Ok d') in H. unfold materializeBeliefUpsert in H.
    destruct (decode_belief _) as [p|]; [|done]. cbn [of_option mbind result_bind] in H. intros [= <- <-].
    destruct (beq _ _) eqn:E; [done|]. by b2p.
  - destruct (beq (EType evt) EventWorkingStyleUpsert) eqn:E2; [|done]. b2p.
    unfold apply_event in H. rewrite E2 in H. change (materializeWorkingStyle false evt d1 = Ok d') in H. unfold materializeWorkingStyle in H.
    destruct (decode_working_style _) as [p|]; [|done]. cbn [of_option mbind result_bind] in H. intros [= <- <-].
    destruct (beq _ _) eqn:E; [done|]. by b2p.
Qed.

(** What an admitted event may do to a belief there was. *)
Record kept (b b' : belief_row) : Prop := {
  kp_words : normalizedBeliefStatement (b_statement b') = normalizedBeliefStatement (b_statement b);
  kp_node : b_node_type b' = b_node_type b;
  kp_retired : active b = false → b_statement b' = b_statement b ∧ b_ring b' = b_ring b ∧ b_confidence b' = b_confidence b ∧ active b' = false;
}.

Lemma kept_trans b1 b2 b3 : kept b1 b2 → kept b2 b3 → kept b1 b3.
Proof.
  intros [H1 H2 H3] [J1 J2 J3]. split; [congruence|congruence|]. intros Ha.
  destruct (H3 Ha) as (E1 & E2 & E3 & Ha2). destruct (J3 Ha2) as (F1 & F2 & F3 & F4). split_and!; congruence.
Qed.

Lemma admitted_kept d evt d' id b : admitted d evt d' → id ≠ [] → t_beliefs d !! id = Some b →
  ∃ b', t_beliefs d' !! id = Some b' ∧ kept b b' ∧ (b_ring b = 2 → b_statement b' = b_statement b).
Proof.
  intros ((now & (_ & _ & d0 & Hv)%ValidateEvent_ok) & Hs & Hm) Hid Hb.
  pose proof (materialize_ops false _ _ _ Hm) as Hops. destruct (ops_belief _ _ _ _ _ _ Hops Hb) as (b' & Hb' & Hc). exists b'. split; [done|].
  pose proof (admitted_words now evt d d0 id b Hv Hb Hid) as Hw. split.
  - split; [|by apply Hc|].
    + destruct (ch_words _ _ _ _ Hc) as [->|Hu]; [done|]. by destruct (Hw _ Hu) as (_ & -> & _).
    + intros Hret.
      assert (∀ text, upsert_of evt ≠ Some (id, text)) as Hno by (intros text Hu; destruct (Hw _ Hu) as (Ha & _); congruence).
      destruct (ch_words _ _ _ _ Hc) as [->|Hu]; [|by destruct (Hno _ Hu)].
      destruct (ch_confidence _ _ _ _ Hc) as [->|[text Hu]]; [|by destruct (Hno _ Hu)].
      destruct (ch_ring _ _ _ _ Hc) as [->|[Ht [ring Hp]]]; [by split_and!; [..|apply (ch_retired _ _ _ _ Hc)]|].
      exfalso. pose proof (v_retired _ _ _ _ _ _ Hv) as Hr. unfold validateRetiredBeliefLocked in Hr.
      rewrite Ht, beq_refl, orb_true_r, (promote_reads_id _ _ _ Hp) in Hr. cbn [negb] in Hr.
      rewrite (proj2 (beq_false _ _) Hid), Hb, Hret in Hr. done.
  - intros Hr2. destruct (ch_words _ _ _ _ Hc) as [->|Hu]; [done|]. destruct (Hw _ Hu) as (_ & _ & H2). symmetry. apply H2; [done|].
    by eapply upsert_nonempty.
Qed.

(** Steps of admitted events. *)
Definition admits (d d' : DB) : Prop := ∃ evt, admitted d evt d'.

(** C6. Beliefs keep their words: through any run of admitted events a belief is
    never removed, and its statement stays the same but for letter case and white
    space; a belief that was archived or superseded stays retired, with its exact
    words, ring and confidence; and while a belief stands in Ring 2 no admitted
    event changes a letter of it. *)
Theorem belief_words_kept d d' id b : rtc admits d d' → id ≠ [] → t_beliefs d !! id = Some b →
  ∃ b', t_beliefs d' !! id = Some b' ∧ kept b b' ∧
    ∀ d'', admits d' d'' → b_ring b' = 2 → b_statement <$> t_beliefs d'' !! id = Some (b_statement b').
Proof.
  intros H Hid. revert b. induction H as [d|d d1 d2 (evt & He) _ IH]; intros b Hb.
  - exists b. split; [done|]. split; [by split|]. intros d2 (evt & He) Hr. destruct (admitted_kept _ _ _ _ _ He Hid Hb) as (b' & -> & _ & H2).
    cbn. by rewrite H2.
  - destruct (admitted_kept _ _ _ _ _ He Hid Hb) as (b1 & Hb1 & Hk1 & _). destruct (IH _ Hb1) as (b2 & Hb2 & Hk2 & H2).
    exists b2. split; [done|]. split; [by eapply kept_trans|done].
Qed.

(** ** Grounding *)

Definition grounded (d : DB) : Prop := map_Forall (λ id b, active b = true → 1 ≤ evidence_count d id) (t_beliefs d).

Lemma origins_grounded evt target refs d d' : materializeBeliefOriginsLocked false evt target (Some refs) d = Ok d' → 1 ≤ evidence_count d' target.
Proof.
  unfold materializeBeliefOriginsLocked. destruct (_ =? _)%nat; [done|]. intros (d1 & _ & H)%bind_ok.
  destruct (evidence_count d1 target =? 0) eqn:E; [done|]. injection H as <-. b2p. unfold evidence_count in *. lia.
Qed.

(** An admitted belief event names origins, and they ground it. *)
Lemma upsert_grounded now evt d d0 d' id text : validated now (EType evt) (Ring evt) (Payload evt) d d0 → materializeLocked false evt d = Ok d' →
  upsert_of evt = Some (id, text) → 1 ≤ evidence_count d' id.
Proof.
  intros Hv Hm Hu. pose proof (v_belief _ _ _ _ _ _ Hv) as Ha.
  assert (∃ a, decode_admission (Payload evt) = Some a ∧ ap_OriginRefs a ≠ []) as (a & Hda & Hor).
  { unfold upsert_of in Hu. unfold validateBeliefAdmissionLocked, is_belief_event in Ha.
    assert ((beq (EType evt) EventBeliefUpsert || beq (EType evt) EventWorkingStyleUpsert) = true) as Hev
      by (destruct (beq (EType evt) EventBeliefUpsert); [done|]; by destruct (beq (EType evt) EventWorkingStyleUpsert)).
    rewrite Hev in Ha. cbn [negb] in Ha. destruct (decode_admission _) as [a|]; [|done]. exists a. split; [done|]. cbn [of_option mbind result_bind] in Ha.
    intros Hn. rewrite Hn in Ha. cbn zeta in Ha. destruct (ap_DuplicateOK a); [discriminate Ha|].
    destruct (beq (normalizedBeliefStatement _) []); [discriminate Ha|]. destruct (_ && _); discriminate Ha. }
  unfold materializeLocked in Hm. apply bind_ok in Hm as (d1 & _ & H). unfold upsert_of in Hu.
  destruct (beq (EType evt) EventBeliefUpsert) eqn:E1; b2p.
  - unfold apply_event in H. rewrite E1 in H. change (materializeBeliefUpsert false evt d1 = Ok d') in H. unfold materializeBeliefUpsert in H.
    destruct (decode_belief _) as [p|] eqn:Hp; [|done]. cbn [of_option mbind result_bind] in H. injection Hu as <- <-.
    destruct (beq _ _); [done|]. cbn zeta in H. apply bind_ok in H as (d2 & _ & H).
    unfold decode_belief in Hp. apply bind_Some in Hp as (ms & (ms0 & H0 & Ho)%unmarshal_members & Hp).
    do 6 (apply bind_Some in Hp as (? & _ & Hp)). apply bind_Some in Hp as (o & Hof & [= <-]).
    destruct (origins_present _ a ms ms0 Hda Hor H0 (Ho (bs "origin_refs") ltac:(nodup) ltac:(member)) o Hof) as [refs ->]. by eapply origins_grounded.
  - destruct (beq (EType evt) EventWorkingStyleUpsert) eqn:E2; [|done]. b2p.
    unfold apply_event in H. rewrite E2 in H. change (materializeWorkingStyle false evt d1 = Ok d') in H. unfold materializeWorkingStyle in H.
    destruct (decode_working_style _) as [p|] eqn:Hp; [|done]. cbn [of_option mbind result_bind] in H. injection Hu as <- <-.
    destruct (beq _ _); [done|]. apply bind_ok in H as (d2 & _ & H).
    unfold decode_working_style in Hp. apply bind_Some in Hp as (ms & (ms0 & H0 & Ho)%unmarshal_members & Hp).
    do 3 (apply bind_Some in Hp as (? & _ & Hp)). apply bind_Some in Hp as (o & Hof & [= <-]).
    destruct (origins_present _ a ms ms0 Hda Hor H0 (Ho (bs "origin_refs") ltac:(nodup) ltac:(member)) o Hof) as [refs ->]. by eapply origins_grounded.
Qed.

(** The rehearsal of an event leaves the graph its materialization leaves. *)
Lemma rehearsal_graph now evt d d0 d' : validated now (EType evt) (Ring evt) (Payload evt) d d0 → Seq evt = max_seq d + 1 →
  materializeLocked false evt d = Ok d' → t_edges d0 = t_edges d' ∧ t_beliefs d0 = t_beliefs d'.
Proof.
  intros Hv Hs Hm. destruct (materialize_alike false _ evt _ _ (candidate_alike evt now d Hs) (v_rehearsal _ _ _ _ _ _ Hv)) as (d'' & Hm' & He).
  rewrite Hm in Hm'. injection Hm' as <-. split; [exact (f_equal t_edges (eq_sym He))|exact (f_equal t_beliefs (eq_sym He))].
Qed.

(** The check after an [edge.archive]: the belief the edge spoke for keeps some
    evidence, if it is active. *)
Lemma archive_checked payload k d e b : decode_strings [bs "id"] payload = Some [k] → validateActiveBeliefGroundingLocked payload d = Ok () →
  t_edges d !! k = Some e → is_evidence e = true → t_beliefs d !! e_to e = Some b → active b = true → 1 ≤ evidence_count d (e_to e).
Proof.
  unfold validateActiveBeliefGroundingLocked. intros -> H Hk He Hb Ha. rewrite Hk, He, Hb, Ha in H. cbn [negb] in H.
  destruct (bool_decide _) eqn:E; [discriminate H|]. apply bool_decide_eq_false in E. unfold evidence_count.
  destruct (size (filter (λ kv : bytes * edge_row, evidence_for (e_to e) kv.2 = true) (t_edges d))) eqn:Es; [|lia]. destruct E.
  apply map_size_empty_iff in Es. intros i e' Hi. unfold grounding. destruct (evidence_for (e_to e) e') eqn:Ef; [|done].
  assert (filter (λ kv : bytes * edge_row, evidence_for (e_to e) kv.2 = true) (t_edges d) !! i = Some e') as Hf
    by (by apply map_lookup_filter_Some). rewrite Es in Hf. by rewrite lookup_empty in Hf.
Qed.

Lemma archive_graph evt d d' : EType evt = EventEdgeArchive → materializeLocked false evt d = Ok d' →
  ∃ k e, decode_strings [bs "id"] (Payload evt) = Some [k] ∧ t_edges d !! k = Some e ∧ t_edges d' = <[k := edge_archived e]> (t_edges d).
Proof.
  intros Ht (d1 & (_ & _ & ->)%mirror_insert_ok & H)%bind_ok. remember (set_ledger _ d) as d1 eqn:Ed.
  unfold apply_event in H. rewrite Ht in H. change (materializeEdgeArchive evt d1 = Ok d') in H. subst d1.
  unfold materializeEdgeArchive in H. destruct (decode_strings _ _) as [[|k [|? ?]]|]; try discriminate H.
  destruct (t_edges _ !! k) as [e|] eqn:Hk; [|discriminate H]. exists k, e. split; [done|]. split; [exact Hk|]. injection H as <-. by destruct (is_evidence e).
Qed.

Lemma admitted_grounded d evt d' : admitted d evt d' → grounded d → grounded d'.
Proof.
  intros ((now & (_ & _ & d0 & Hv)%ValidateEvent_ok) & Hs & Hm) Hg id b' Hb' Ha'.
  pose proof (materialize_ops false _ _ _ Hm) as Hops.
  destruct (ops_active _ _ _ _ _ _ Hops Hb' Ha') as [(b & Hb & Ha)|(text & Hu)]; [|by eapply upsert_grounded].
  pose proof (Hg _ _ Hb Ha) as H1. cbn in H1. destruct (decide (EType evt = EventEdgeArchive)) as [Ht|Ht].
  - destruct (archive_graph _ _ _ Ht Hm) as (k & e & Hp & Hk & Hed).
    destruct (rehearsal_graph _ _ _ _ _ Hv Hs Hm) as [He0 Hb0].
    destruct (evidence_for id e) eqn:E.
    + unfold evidence_for in E. apply andb_true_iff in E as [[_ Hev]%andb_true_iff Hid]. apply beq_true in Hid. subst id.
      assert (t_edges d0 !! k = Some (edge_archived e)) as Hk0 by (by rewrite He0, Hed, lookup_insert_eq).
      assert (t_beliefs d0 !! e_to (edge_archived e) = Some b') as Hb'0 by (by rewrite Hb0).
      pose proof (archive_checked _ _ _ _ _ Hp (v_grounding _ _ _ _ _ _ Hv Ht) Hk0 Hev Hb'0 Ha') as Hd0.
      unfold evidence_count in Hd0. rewrite He0 in Hd0. exact Hd0.
    + assert (evidence_count d' id = evidence_count (set_edges <[k := edge_archived e]> d) id) as -> by (unfold evidence_count; by rewrite Hed).
      rewrite (count_archived _ _ e _ Hk), E. lia.
  - pose proof (ops_evidence _ _ _ _ id Hops Ht). lia.
Qed.

(** C7. No active belief without evidence: if every active belief of the
    projection rests on at least one active evidence edge, then so it is after any
    run of admitted events; a belief is stated only with a source, and the last
    edge that grounds an active belief cannot be archived. *)
Theorem active_beliefs_grounded d d' : rtc admits d d' → grounded d → grounded d'.
Proof. induction 1 as [|d d1 d2 (evt & He) _ IH]; [done|]. intros Hg. by eapply IH, admitted_grounded. Qed.
End Admitting.
