(* ===== verification/Door.v ===== *)
(** * The door to the record

    internal/app/adapters.go: [adapter_admit] takes an event through admission, the
    append and the projection, and [capture] takes the record and the projection
    at one boundary.  The state is the ledger, the directory it lives in and the
    database; what the machine does (a failed write, a transaction that does not
    begin or commit, the clock) is an argument.  A pause of appends only delays a
    call, so it has no place here. *)

From stdpp Require Import gmap.
From S2P Require Import Prelude Crypto Event Lines Container Chain Ledger Tables Materialize Admission.

(** ** Safe triggers (internal/app/safeboot.go) *)

Inductive safeTrigger :=
| safeRecord | safeRestore | safeRing5 | safeRing5Refused | safeSchema | safeDatabaseFormat | safeRecordMissing | safeKeyMissing
| safeRecordAndKeyMissing | safeKeyUnnamed | safeEntryRefused | safeCouldNotStart
| safeRecordAtRuntime | safeDivergence | safeWitnessConflict | safeWitnessSays.

Definition trigger_number (t : safeTrigger) : Z :=
  match t with
  | safeRecord => 1 | safeRestore => 2 | safeRing5 => 3 | safeRing5Refused => 4 | safeSchema => 5 | safeDatabaseFormat => 6
  | safeRecordMissing => 7 | safeKeyMissing => 8 | safeRecordAndKeyMissing => 9 | safeKeyUnnamed => 10 | safeEntryRefused => 11
  | safeCouldNotStart => 12 | safeRecordAtRuntime => 13 | safeDivergence => 14 | safeWitnessConflict => 15 | safeWitnessSays => 16
  end.

Definition atBoot (t : safeTrigger) : bool :=
  (trigger_number safeRecord <=? trigger_number t) && (trigger_number t <=? trigger_number safeCouldNotStart).

(** ** Errors *)

Inductive door_err :=
| DNoLedger                                   (** no ledger is open *)
| DFault (e : store_err)                      (** admission could not run *)
| DRefused (e : payload_err + store_err)      (** [ErrRefused] *)
| DLedger (e : ledger_err)
| DDiverged (seq : Z) (t : bytes) (e : store_err)   (** durable, but not materialized *)
| DNotAtBoundary                              (** [ErrNotAtBoundary] *)
| DPin.                                       (** the projection could not be pinned *)

(** [errors.Is] on the ledger's sentinels; [ErrSealRecoveryRequired] wraps the
    error of the seal. *)
Fixpoint is_integrity (e : ledger_err) : bool :=
  match e with LTailIntegrity _ | LUncertain => true | LSealRecovery e => is_integrity e | _ => false end.
Fixpoint is_tail_integrity (e : ledger_err) : bool :=
  match e with LTailIntegrity _ => true | LSealRecovery e => is_tail_integrity e | _ => false end.
Definition is_seal_recovery (e : ledger_err) : bool := match e with LSealRecovery _ => true | _ => false end.

(** [Fault]: an error of the database itself.  The only one of the model is a
    transaction that does not begin; [busy] says whether its code is one of
    those [Fault] lists. *)
Definition Fault (busy : bool) (e : store_err) : bool := match e with StTransaction => busy | _ => false end.

Record door := mkDoor { dr_ledger : option Ledger; dr_dir : dir; dr_db : DB }.

(** What [adapter_admit] gives back: the state, the event, the error, and the two
    callbacks it made ([onIntegrity], [onAppend]). *)
Record admit_result := mkAdmit {
  ar_door : door;
  ar_event : option Event;
  ar_err : option door_err;
  ar_integrity : option safeTrigger;
  ar_appended : option Event;
}.

(** What the machine does during one call. *)
Record admit_env := mkAdmitEnv {
  ae_preflight : bytes;                       (** the clock of the rehearsal *)
  ae_validate : bool;                         (** the preflight transaction begins *)
  ae_busy : bool;
  ae_now : bytes; ae_write : append_io;       (** the first append *)
  ae_now2 : bytes; ae_write2 : append_io;     (** the one after a recovery *)
  ae_begins : bool; ae_commits : bool;        (** the transaction of [Materialize] *)
}.

Definition recovery := Ledger → dir → Ledger * dir * result ledger_err unit.

Section Door.
Context `{P : Primitives} `{Q : Sqlite} `{U : Unicode}.
Variable tr : Transcript.
Variable budget : Z.
Variable recoverSeal : option recovery.

(** [appendPrepared], and once more after a seal was recovered. *)
Definition append_recovering (l : Ledger) (d : dir) (t : bytes) (ring : Z) (raw : bytes) (kp : KeyPair) (env : admit_env) :
    Ledger * dir * result ledger_err Event :=
  let '(l1, d1, r) := AppendPrepared l d t ring raw kp (ae_now env) (ae_write env) in
  match r, recoverSeal with
  | Err e, Some recover =>
    if is_seal_recovery e then
      let '(l2, d2, r2) := recover l1 d1 in
      match r2 with
      | Err e2 => (l2, d2, Err e2)
      | Ok _ => AppendPrepared l2 d2 t ring raw kp (ae_now2 env) (ae_write2 env)
      end
    else (l1, d1, r)
  | _, _ => (l1, d1, r)
  end.

(** The reason a divergence freezes the ledger with, up to the words of the
    error it wraps. *)
Definition diverged_reason (evt : Event) : bytes :=
  bs "event " ++ FormatUint (Seq evt) ++ bs " (" ++ EType evt ++ bs ") is durable but did not materialize".

Definition materialize_appended (l : Ledger) (d : dir) (db : DB) (evt : Event) (env : admit_env) : admit_result :=
  match materializeAtomic (ae_begins env) (ae_commits env) evt db with
  | (db', Some e) =>
    mkAdmit (mkDoor (Some (SetFrozen l (diverged_reason evt))) d db') (Some evt) (Some (DDiverged (Seq evt) (EType evt) e)) (Some safeDivergence) None
  | (db', None) => mkAdmit (mkDoor (Some l) d db') (Some evt) None None (Some evt)
  end.

Definition adapter_admit (w : door) (t : bytes) (ring : Z) (payload : option bytes) (model : bytes) (kp : KeyPair) (env : admit_env) : admit_result :=
  match dr_ledger w with
  | None => mkAdmit w None (Some DNoLedger) None None
  | Some l =>
    match preparePayload payload (if beq model [] then modelID l else model) with
    | Err e => mkAdmit w None (Some (DRefused (inl e))) None None
    | Ok raw =>
      match ValidateEvent tr (ae_validate env) budget (ae_preflight env) t ring raw (dr_db w) with
      | Err e => mkAdmit w None (Some (if Fault (ae_busy env) e then DFault e else DRefused (inr e))) None None
      | Ok _ =>
        match append_recovering l (dr_dir w) t ring raw kp env with
        | (l', d', Err e) =>
          mkAdmit (mkDoor (Some l') d' (dr_db w)) None (Some (DLedger e)) (if is_integrity e then Some safeRecordAtRuntime else None) None
        | (l', d', Ok evt) => materialize_appended l' d' (dr_db w) evt env
        end
      end
    end
  end.

(** [PinAt]: the projection at the boundary the record was captured at; [opens]
    says whether the connection and its transaction open. *)
Definition PinAt (opens : bool) (hash : bytes) (db : DB) : result door_err MirrorHead :=
  if negb opens then Err DPin
  else let head := readMirrorHead db in if beq (mh_Hash head) hash then Ok head else Err DNotAtBoundary.

Definition capture_recovering (ok ok2 : io) (l : Ledger) (d : dir) : Ledger * dir * result ledger_err Capture :=
  match TakeCapture ok l d, recoverSeal with
  | Err e, Some recover =>
    if is_seal_recovery e then
      let '(l2, d2, r2) := recover l d in
      match r2 with
      | Err e2 => (l2, d2, Err e2)
      | Ok _ => (l2, d2, TakeCapture ok2 l2 d2)
      end
    else (l, d, Err e)
  | r, _ => (l, d, r)
  end.

Definition capture (w : door) (ok ok2 : io) (opens : bool) : door * result door_err (Capture * MirrorHead) * option safeTrigger :=
  match dr_ledger w with
  | None => (w, Err DNoLedger, None)
  | Some l =>
    let '(l', d', r) := capture_recovering ok ok2 l (dr_dir w) in
    let w' := mkDoor (Some l') d' (dr_db w) in
    match r with
    | Err e => (w', Err (DLedger e), if is_tail_integrity e then Some safeRecordAtRuntime else None)
    | Ok c =>
      match PinAt opens (c_LastHash c) (dr_db w) with
      | Err e => (w', Err e, None)
      | Ok head => (w', Ok (c, head), None)
      end
    end
  end.
End Door.
