(* ===== verification/DoorFacts.v ===== *)
(** * Record and projection in step

    What the door keeps: the database is the materialization of the record on
    disk, or the ledger is frozen.  An event is admitted whole or not at all, and
    a capture of a record and a database in step names one boundary. *)

From stdpp Require Import gmap relations.
From Stdlib Require Import SpecFloat.
From S2P Require Import Prelude Utf8 GoJson CanonicalJson CanonicalJsonFacts GoStruct Crypto Event Lines Stored Chain Container ContainerFacts Ledger LedgerFacts GoStrings Tables SelfModel Materialize Admission Timeless Projection Steps Graph AdmissionFacts Door.

(** ** The mirror of the record *)

Section Mirror.
Context `{Q : Sqlite}.

(** Once the mirror has its row, an event's other steps leave the mirror alone. *)
Lemma op_ledger evt d d' : event_op false evt d d' → has_seq d (Seq evt) = true → t_ledger d' = t_ledger d.
Proof.
  intros Hop Hs. destruct Hop as [| | | | | |k e touch|k e| | |d' _ H|d' _ H|d' _ H]; try done.
  - unfold count_edge. by destruct (is_evidence e).
  - cbn zeta. by destruct (is_evidence e).
  - by apply portrait_current in H as [(m & ->) _].
  - by apply relationship_only in H as (m & ->).
  - by apply H.
Qed.

Definition mirror_row (evt : Event) : ledger_row := mkLedgerRow (Prev evt) (Timestamp evt) (EType evt) (Ring evt) (Payload evt) (Content evt).

Lemma materialize_mirror evt d d' : materializeLocked false evt d = Ok d' →
  t_ledger d !! Seq evt = None ∧ t_ledger d' = <[Seq evt := mirror_row evt]> (t_ledger d) ∧ int64_ok (Seq evt) = true.
Proof.
  unfold materializeLocked. intros (d1 & (Hn & Hi & ->)%mirror_insert_ok & H%apply_event_ops)%bind_ok. split; [done|]. split; [|done].
  set (d1 := set_ledger _ d) in H. assert (has_seq d1 (Seq evt) = true) as Hs
    by (unfold has_seq, d1; cbn; by rewrite lookup_insert_eq, bool_decide_true by eauto).
  change (<[Seq evt := mirror_row evt]> (t_ledger d)) with (t_ledger d1). clearbody d1. clear Hn. induction H as [|d1 d2 d3 Hop _ IH]; [done|].
  pose proof (op_ledger _ _ _ Hop Hs) as He. rewrite <- He. apply IH. unfold has_seq in *. by rewrite He.
Qed.

(** The mirror holds the rows of [evts], numbered from 1. *)
Definition mirrors (evts : list Event) (d : DB) : Prop :=
  ∀ k, t_ledger d !! k = if decide (1 ≤ k) then mirror_row <$> evts !! Z.to_nat (k - 1) else None.

Lemma foldl_max l : ∀ z, z ≤ foldl Z.max z l ∧ Forall (λ x, x ≤ foldl Z.max z l) l ∧ (foldl Z.max z l = z ∨ foldl Z.max z l ∈ l).
Proof.
  induction l as [|x l IH]; intros z; cbn [foldl]; [split_and!; [lia|constructor|by left]|].
  destruct (IH (Z.max z x)) as (H1 & H2 & H3). split; [lia|]. split; [constructor; [lia|done]|].
  destruct H3 as [->|H3]; [|right; by right]. destruct (Z.max_spec z x) as [[_ ->]|[_ ->]]; [right; by left|by left].
Qed.

Lemma mirrors_max evts d : mirrors evts d → max_seq d = Z.of_nat (length evts).
Proof.
  intros Hm. unfold max_seq. destruct (foldl_max (map_to_list (t_ledger d)).*1 0) as (H1 & H2 & H3).
  assert (∀ k, k ∈ (map_to_list (t_ledger d)).*1 ↔ 1 ≤ k ≤ Z.of_nat (length evts)) as Hk.
  { intros k. trans (is_Some (t_ledger d !! k)).
    - split; [intros ([k' r] & -> & Hr%elem_of_map_to_list)%list_elem_of_fmap; by eexists|].
      intros [r Hr%elem_of_map_to_list]. apply list_elem_of_fmap. by exists (k, r).
    - rewrite Hm. destruct (decide (1 ≤ k)); [|split; [by intros []|lia]]. rewrite fmap_is_Some, lookup_lt_is_Some. lia. }
  rewrite Forall_forall in H2. pose proof (H2 (Z.of_nat (length evts))) as H4. rewrite Hk in H4. destruct H3 as [H3|H3%Hk]; lia.
Qed.

Lemma mirrors_snoc evts e d d' : mirrors evts d → Seq e = Z.of_nat (length evts) + 1 → materializeLocked false e d = Ok d' → mirrors (evts ++ [e]) d'.
Proof.
  intros Hm Hs (_ & He & _)%materialize_mirror k. rewrite He. destruct (decide (Seq e = k)) as [<-|Hne].
  - rewrite lookup_insert_eq, decide_True by lia. replace (Z.to_nat (Seq e - 1)) with (length evts) by lia. by rewrite list_lookup_middle.
  - rewrite lookup_insert_ne, Hm by done. destruct (decide (1 ≤ k)); [|done]. f_equal.
    destruct (decide (Z.to_nat (k - 1) < length evts)%nat); [by rewrite lookup_app_l|].
    rewrite !lookup_ge_None_2; [done|rewrite length_app; cbn; lia|lia].
Qed.

Lemma materialize_all_app b evts1 evts2 d : materialize_all b (evts1 ++ evts2) d = (d1 ← materialize_all b evts1 d; materialize_all b evts2 d1).
Proof. revert d. induction evts1 as [|e evts IH]; intros d; [done|]. cbn. destruct (materializeLocked b e d); [apply IH|done]. Qed.

Lemma materialize_all_snoc b evts e d d' : materialize_all b (evts ++ [e]) d = Ok d' ↔
  ∃ d1, materialize_all b evts d = Ok d1 ∧ materializeLocked b e d1 = Ok d'.
Proof.
  rewrite materialize_all_app. split.
  - intros (d1 & H1 & (d2 & H2 & [= <-])%bind_ok)%bind_ok. by exists d1.
  - intros (d1 & -> & H). cbn. by rewrite H.
Qed.
End Mirror.

Section Head.
Context `{P : Primitives} `{Q : Sqlite}.

Lemma mirrors_all evts d : linked 0 [] evts → materialize_all false evts empty_db = Ok d → mirrors evts d.
Proof.
  revert d. induction evts as [|e evts IH] using rev_ind; intros d.
  - intros _ [= <-] k. cbn. rewrite lookup_empty. by destruct (decide _).
  - intros [Hl (Hs & _)]%linked_app (d1 & H1 & H2)%materialize_all_snoc. eapply mirrors_snoc; [by apply IH| |done]. lia.
Qed.

Lemma mirrors_head evts d : mirrors evts d → linked 0 [] evts → readMirrorHead d = mkHead (Z.of_nat (length evts)) (last_hash [] evts).
Proof.
  intros Hm Hl. unfold readMirrorHead. rewrite (mirrors_max _ _ Hm), Hm. destruct evts as [|e evts _] using rev_ind; [done|].
  rewrite decide_True by (rewrite length_app; cbn; lia). replace (Z.to_nat _) with (length evts) by (rewrite length_app; cbn; lia).
  rewrite list_lookup_middle by done. cbn [fmap option_fmap option_map]. rewrite last_hash_snoc. f_equal.
  apply linked_app in Hl as [_ (Hs & _)]. rewrite length_app. cbn [length].
  replace (Z.of_nat (length evts + 1)) with (Seq e) by lia. done.
Qed.
End Head.

(** ** The state the door keeps *)

Lemma event_type_wf t ring : existsb (Z.eqb ring) (CanonicalRings t) = true → wf_text t ∧ int64_ok ring = true.
Proof.
  intros (r & Hr%list_elem_of_In & ->%Z.eqb_eq)%existsb_exists. destruct (decide (t ∈ AllEventTypes)) as [Ht|Ht].
  - assert (Forall (λ t, wf_text t ∧ Forall (λ r, int64_ok r = true) (CanonicalRings t)) AllEventTypes) as H.
    { repeat (apply Forall_cons; split; [split; [split; vm_compute; reflexivity|repeat constructor]|]). apply Forall_nil_2. }
    rewrite Forall_forall in H. destruct (H t Ht) as [H1 H2]. rewrite Forall_forall in H2. auto.
  - rewrite (proj2 (CanonicalRings_total t) Ht) in Hr. by apply elem_of_nil in Hr.
Qed.

Section InStep.
Context `{P : Primitives} `{L : !PrimitiveLaws P} `{G : Gzip} `{GL : !GzipLaws G} `{Q : Sqlite} `{U : Unicode}.
Variable tr : Transcript.
Variable budget : Z.
Variable recoverSeal : option recovery.
Variable kp : KeyPair.
Hypothesis Hkp : whole kp.

(** [db] is what [evts] materialize to, but for the lived clock and the
    references of runtime tables. *)
Definition tracks (evts : list Event) (db : DB) : Prop :=
  ∃ d clock refs, materialize_all false evts empty_db = Ok d ∧ db = with_env (keep_clock clock) (λ _, refs) d.

Lemma tracks_mirrors evts db : linked 0 [] evts → tracks evts db → mirrors evts db.
Proof. intros Hl (d & clock & refs & H & ->). exact (mirrors_all _ _ Hl H). Qed.

Lemma tracks_snoc evts e db db' : tracks evts db → materializeLocked false e db = Ok db' → tracks (evts ++ [e]) db'.
Proof.
  intros (d & clock & refs & H & ->). rewrite materialize_env by apply keep_clock_seeds.
  destruct (materializeLocked false e d) as [d'|] eqn:E; [|done]. intros [= <-]. exists d', clock, refs. split; [|done].
  apply materialize_all_snoc. by exists d.
Qed.

Lemma tracks_env evts db clock refs : tracks evts db → tracks evts (with_env (λ _, Some clock) (λ _, refs) db).
Proof. intros (d & c & r & H & ->). by exists d, (Some clock), refs. Qed.

Record in_step (w : door) (l : Ledger) (S : list (segment * list Event)) (T : list Event) : Prop := {
  st_ledger : dr_ledger w = Some l;
  st_repr : repr (PublicKey kp) l (dr_dir w) S T;
  st_tracks : tracks (sealed_events S ++ T) (dr_db w);
}.

(** A frozen ledger: the database shows all of the record but at most one line
    at its end, whole or broken off. *)
Record halted (w : door) (l : Ledger) (S : list (segment * list Event)) (T : list Event) : Prop := {
  h_ledger : dr_ledger w = Some l;
  h_frozen : is_frozen l = true;
  h_tracks : tracks (sealed_events S ++ T) (dr_db w);
  h_sealed : sealed_ok (dr_dir w) S;
  h_tail : ∃ x, read_file (dr_dir w) (l_path l) = Some (store T ++ x) ∧ (x = [] ∨ ∃ e n, storable e ∧ x = take n (stored_line e ++ [10]));
}.

(** The line of the next event does not have exactly the length that is written
    but cannot be read back. *)
Definition fits (l : Ledger) (t : bytes) (ring : Z) (raw now : bytes) : Prop :=
  ∀ sig, SignB64 kp (SignatureInputGold SigAlg (Fingerprint kp) (EntryHash (next_event l t ring raw now))) = Ok sig →
    Z.of_nat (length (stored_line (set_Sig (next_event l t ring raw now) sig))) ≠ MaxEventLineBytes.

(** ** One append *)

Lemma append_outcomes l d S T t ring raw now w l' d' r : repr (PublicKey kp) l d S T → wf_text t → wf_text now → int64_ok ring = true →
  canonical raw → head raw = Some 123 → lastSeq l + 1 < two64 → fits l t ring raw now →
  AppendPrepared l d t ring raw kp now w = (l', d', r) →
  match r with
  | Ok e => repr (PublicKey kp) l' d' S (T ++ [e]) ∧ EType e = t ∧ Ring e = ring ∧ Payload e = raw ∧ Seq e = lastSeq l + 1
  | Err e => l' = l ∧ d' = d ∧ is_integrity e = false ∧ is_seal_recovery e = false ∨
      e = LUncertain ∧ is_frozen l' = true ∧ l_path l' = l_path l ∧
      ∃ evt n, storable evt ∧ d' = append_file d (l_path l) (take n (stored_line evt ++ [10]))
  end.
Proof.
  intros Hr Ht Hn Hring Hc Hh Hroom Hfit H. pose proof H as H0. unfold AppendPrepared, is_frozen in H.
  rewrite (r_frozen _ _ _ _ _ Hr), (r_locked _ _ _ _ _ Hr), (r_sealErr _ _ _ _ _ Hr) in H. cbn [negb] in H.
  rewrite (tail_check_passes (PublicKey kp) l d S T) in H by done.
  destruct (payloadModelID raw) eqn:Hm; [|injection H as <- <- <-; by left]. destruct (SignB64 _ _) as [sig|] eqn:Hs; [|injection H as <- <- <-; by left].
  cbn zeta in H. set (e := set_Sig (next_event l t ring raw now) sig) in *.
  assert (wf_event e) as He by (by eapply next_wf_of). rewrite (MarshalJSON_object e) in H by (by apply payload_nonempty).
  fold (stored_line e) in H. destruct (MaxEventLineBytes <? _) eqn:Hlen; [injection H as <- <- <-; by left|]. b2p.
  assert (Z.of_nat (length (stored_line e)) < MaxEventLineBytes) as Hsz by (specialize (Hfit _ Hs); fold e in Hfit; lia).
  assert (storable e) as Hst by (split; [exact He|split; [by repeat split|exact Hsz]]).
  destruct w as [|n].
  - assert (appendable l t ring raw now kp) as Ha.
    { split; try done; [by rewrite Hm|]. exists sig. done. }
    destruct (append_repr _ _ _ _ _ _ _ _ _ Hr Ha) as (l2 & d2 & e2 & H2 & Hr2 & ? & ? & ? & _ & ?). rewrite H2 in H0.
    injection H0 as <- <- <-. done.
  - injection H as <- <- <-. right. unfold uncertainAppend. rewrite (r_frozen _ _ _ _ _ Hr). split; [done|]. split; [done|]. split; [done|].
    exists e, n. done.
Qed.

(** ** One call *)

Notation adapter_admit := (adapter_admit tr budget recoverSeal).

(** What [adapter_admit] is asked for, and what of it may go wrong outside the model. *)
Definition call_ok (l : Ledger) (t : bytes) (ring : Z) (payload : option bytes) (model : bytes) (env : admit_env) : Prop :=
  wf_text (ae_now env) ∧ ∀ raw, preparePayload payload (if beq model [] then modelID l else model) = Ok raw → fits l t ring raw (ae_now env).

Lemma validated_room now t ring payload d : ValidateEvent tr true budget now t ring payload d = Ok () → max_seq d + 1 < two64.
Proof.
  intros (_ & _ & d' & Hv)%ValidateEvent_ok. pose proof (v_rehearsal _ _ _ _ _ _ Hv) as (_ & _ & Hi)%materialize_mirror.
  unfold int64_ok in Hi. cbn in Hi. b2p. unfold two64 in *. lia.
Qed.

Lemma validate_begins begins now t ring payload d : ValidateEvent tr begins budget now t ring payload d = Ok () → begins = true.
Proof. by intros (? & _)%ValidateEvent_ok. Qed.

Lemma SetFrozen_frozen l reason : reason ≠ [] → is_frozen (SetFrozen l reason) = true ∧ l_path (SetFrozen l reason) = l_path l.
Proof. intros Hr%beq_false. unfold SetFrozen, is_frozen. destruct (frozenReason l) eqn:E; rewrite ?Hr; cbn; by rewrite ?E. Qed.

(** The append of an admitted event over a state in step. *)
Lemma admitted_append w l S T t ring raw env : in_step w l S T → wf_text (ae_now env) → fits l t ring raw (ae_now env) →
  canonical raw → head raw = Some 123 → ValidateEvent tr (ae_validate env) budget (ae_preflight env) t ring raw (dr_db w) = Ok () →
  ∀ l' d' r, append_recovering recoverSeal l (dr_dir w) t ring raw kp env = (l', d', r) →
  match r with
  | Ok e => repr (PublicKey kp) l' d' S (T ++ [e]) ∧ EType e = t ∧ Ring e = ring ∧ Payload e = raw ∧ Seq e = max_seq (dr_db w) + 1
  | Err e => l' = l ∧ d' = dr_dir w ∧ is_integrity e = false ∨
      is_integrity e = true ∧ is_frozen l' = true ∧ l_path l' = l_path l ∧
      ∃ evt n, storable evt ∧ d' = append_file (dr_dir w) (l_path l) (take n (stored_line evt ++ [10]))
  end.
Proof.
  intros [Hl Hr Htr] Hn Hfit Hc Hh Hv l' d' r H. pose proof (validate_begins _ _ _ _ _ _ Hv) as Hb. rewrite Hb in Hv.
  pose proof (validated_room _ _ _ _ _ Hv) as Hroom. pose proof (proj1 (proj2 (ValidateEvent_ok _ _ _ _ _ _ _ _ Hv))) as [Ht Hring]%event_type_wf.
  assert (max_seq (dr_db w) = lastSeq l) as Hmax.
  { rewrite (mirrors_max _ _ (tracks_mirrors _ _ (r_chain _ _ _ _ _ Hr) Htr)). by rewrite (r_lastSeq _ _ _ _ _ Hr). }
  rewrite Hmax in *. unfold append_recovering in H. destruct (AppendPrepared _ _ _ _ _ _ _ _) as [[l1 d1] r1] eqn:Ha.
  apply (append_outcomes _ _ _ _ _ _ _ _ _ _ _ _ Hr) in Ha; [|done..]. destruct r1 as [e|e].
  - injection H as <- <- <-. done.
  - assert (is_seal_recovery e = false) as Hs by (by destruct Ha as [(_ & _ & _ & ?)|(-> & _)]).
    assert ((l1, d1, Err (A := Event) e) = (l', d', r)) as [= <- <- <-] by (destruct recoverSeal; [by rewrite Hs in H|done]).
    destruct Ha as [(-> & -> & ? & _)|(-> & ? & ? & ?)]; [by left|by right].
Qed.

Lemma admit_cases w l S T t ring payload model env : in_step w l S T → call_ok l t ring payload model env →
  let res := adapter_admit w t ring payload model kp env in
  (ar_event res = None ∧ ar_err res ≠ None ∧ ar_door res = w ∧ ar_integrity res = None) ∨
  (∃ e l', ar_event res = Some e ∧ ar_err res = None ∧ ar_appended res = Some e ∧ ar_integrity res = None ∧ in_step (ar_door res) l' S (T ++ [e])) ∨
  (∃ l', ar_err res ≠ None ∧ ar_integrity res ≠ None ∧ halted (ar_door res) l' S T).
Proof.
  intros Hst [Hn Hfit] res. subst res. unfold Door.adapter_admit. rewrite (st_ledger _ _ _ _ Hst).
  destruct (preparePayload _ _) as [raw|] eqn:Hp; [|by left]. destruct (preparePayload_ok _ _ _ Hp) as [Hc Hh].
  destruct (ValidateEvent _ _ _ _ _ _ _ _) as [[]|] eqn:Hv; [|by left].
  destruct (append_recovering _ _ _ _ _ _ _ _) as [[l' d'] r] eqn:Ha.
  pose proof (admitted_append _ _ _ _ _ _ _ _ Hst Hn (Hfit _ eq_refl) Hc Hh Hv _ _ _ Ha) as Ho. destruct r as [e|e].
  - right. destruct Ho as (Hr' & Het & Hring & Hpl & Hseq). pose proof (validate_begins _ _ _ _ _ _ Hv) as Hb. rewrite Hb in Hv.
    rewrite <- Het, <- Hring, <- Hpl in Hv.
    destruct (validated_materializes _ _ _ _ _ Hv Hseq) as [db' Hm].
    unfold materialize_appended, materializeAtomic. rewrite Hm.
    assert (halted (mkDoor (Some (SetFrozen l' (diverged_reason e))) d' (dr_db w)) (SetFrozen l' (diverged_reason e)) S T) as Hhalt.
    { destruct (SetFrozen_frozen l' (diverged_reason e)) as [Hf Hpath]; [done|].
      split; try done; [apply Hst|apply Hr'|]. exists (stored_line e ++ [10]). rewrite Hpath. cbn. split.
      - rewrite (r_tail _ _ _ _ _ Hr'). by rewrite store_app, store_one.
      - right. exists e, (length (stored_line e ++ [10])). split; [|by rewrite take_ge].
        pose proof (r_storable _ _ _ _ _ Hr') as Hsto. apply Forall_app in Hsto as [_ Hsto]. exact (Forall_inv Hsto). }
    destruct (ae_begins env); cbn [negb]; [destruct (ae_commits env)|].
    + left. exists e, l'. cbn. split_and!; try done. split; [done|done|]. cbn. rewrite app_assoc. eapply tracks_snoc; [apply Hst|done].
    + right. by eexists.
    + right. by eexists.
  - destruct Ho as [(-> & -> & ->)|(-> & Hf & Hpath & evt & n & Hsto & ->)].
    + left. destruct w as [lg dd db]. cbn. rewrite <- (st_ledger _ _ _ _ Hst). done.
    + right. right. exists l'. split; [done|]. split; [done|]. split; cbn; try done; [apply Hst| |].
      * unfold append_file. apply sealed_ok_insert; [apply (r_path _ _ _ _ _ (st_repr _ _ _ _ Hst))|apply (r_sealed _ _ _ _ _ (st_repr _ _ _ _ Hst))].
      * exists (take n (stored_line evt ++ [10])). rewrite Hpath. unfold append_file. rewrite read_file_insert, (r_tail _ _ _ _ _ (st_repr _ _ _ _ Hst)).
        split; [done|]. right. by exists evt, n.
Qed.

(** ** Runs of calls *)

(** A frozen ledger takes nothing more. *)
Lemma halted_admit w l t ring payload model env : dr_ledger w = Some l → is_frozen l = true →
  ar_door (adapter_admit w t ring payload model kp env) = w ∧ ar_event (adapter_admit w t ring payload model kp env) = None.
Proof.
  intros Hl Hf. unfold Door.adapter_admit. rewrite Hl. destruct (preparePayload _ _) as [raw|]; [|done].
  destruct (ValidateEvent _ _ _ _ _ _ _ _); [|done]. unfold append_recovering, AppendPrepared. rewrite Hf. cbn.
  destruct recoverSeal; cbn; destruct w; cbn in *; by rewrite Hl.
Qed.

(** What happens at the door: a call, whatever comes of it; a write to the
    runtime tables, which may move the lived clock and add references; another
    model; a freeze from outside. *)
Inductive door_step (w : door) : door → Prop :=
| door_admit t ring payload model env : (∀ l, dr_ledger w = Some l → call_ok l t ring payload model env) →
    door_step w (ar_door (adapter_admit w t ring payload model kp env))
| door_runtime clock refs : door_step w (mkDoor (dr_ledger w) (dr_dir w) (with_env (λ _, Some clock) (λ _, refs) (dr_db w)))
| door_model id : door_step w (mkDoor ((λ l, SetModelID l id) <$> dr_ledger w) (dr_dir w) (dr_db w))
| door_freeze reason : reason ≠ [] → door_step w (mkDoor ((λ l, SetFrozen l reason) <$> dr_ledger w) (dr_dir w) (dr_db w)).

Definition door_ok (w : door) : Prop := ∃ l S T, in_step w l S T ∨ halted w l S T.

Lemma in_step_step w l S T w' : in_step w l S T → door_step w w' → door_ok w'.
Proof.
  intros Hst Hstep. pose proof Hst as [Hl Hr Ht]. destruct Hstep as [t ring payload model env Hc|clock refs|id|reason Hre].
  - destruct (admit_cases _ _ _ _ _ _ _ _ _ Hst (Hc _ Hl)) as [(_ & _ & -> & _)|[(e & l' & _ & _ & _ & _ & H)|(l' & _ & _ & H)]].
    + exists l, S, T. by left.
    + exists l', S, (T ++ [e]). by left.
    + exists l', S, T. by right.
  - exists l, S, T. left. split; cbn; [done..|]. by apply tracks_env.
  - exists (SetModelID l id), S, T. left. split; cbn; [by rewrite Hl| |done]. by destruct Hr.
  - exists (SetFrozen l reason), S, T. right. destruct (SetFrozen_frozen l reason Hre) as [Hf Hp]. split; cbn; [by rewrite Hl|done..|apply Hr|].
    exists []. rewrite Hp, app_nil_r. split; [apply Hr|by left].
Qed.

Lemma halted_step w l S T w' : halted w l S T → door_step w w' → door_ok w'.
Proof.
  intros Hh Hstep. pose proof Hh as [Hl Hf Ht Hs Hx]. destruct Hstep as [t ring payload model env Hc|clock refs|id|reason Hre].
  - rewrite (proj1 (halted_admit _ _ _ _ _ _ _ Hl Hf)). exists l, S, T. by right.
  - exists l, S, T. right. split; cbn; [done|done|by apply tracks_env|done..].
  - exists (SetModelID l id), S, T. right. split; cbn; [by rewrite Hl|done..].
  - exists (SetFrozen l reason), S, T. right. destruct (SetFrozen_frozen l reason Hre) as [Hf' Hp]. split; cbn; [by rewrite Hl|done..|]. by rewrite Hp.
Qed.


(** C10. A call that may go through does: when the gate admits a prepared payload
    and the machine does its part, [adapter_admit] appends the event, projects it,
    announces it, and record and projection are in step again, one event on. *)
Theorem admitted_call_recorded w l S T t ring payload model raw env : in_step w l S T →
  preparePayload payload (if beq model [] then modelID l else model) = Ok raw →
  ValidateEvent tr (ae_validate env) budget (ae_preflight env) t ring raw (dr_db w) = Ok () →
  appendable l t ring raw (ae_now env) kp → ae_write env = Written → ae_begins env = true → ae_commits env = true →
  ∃ e l' d' db', adapter_admit w t ring payload model kp env = mkAdmit (mkDoor (Some l') d' db') (Some e) None None (Some e) ∧
    EType e = t ∧ Ring e = ring ∧ Payload e = raw ∧ Seq e = lastSeq l + 1 ∧ in_step (mkDoor (Some l') d' db') l' S (T ++ [e]).
Proof.
  intros Hst Hp Hv Ha Hw Hb Hc. pose proof Hst as [Hl Hr Htr].
  destruct (append_repr _ _ _ _ _ _ _ _ _ Hr Ha) as (l' & d' & e & H & Hr' & Het & Hring & Hpl & _ & Hseq).
  pose proof (validate_begins _ _ _ _ _ _ Hv) as Hvb. rewrite Hvb in Hv. pose proof Hv as Hv'. rewrite <- Het, <- Hring, <- Hpl in Hv'.
  assert (max_seq (dr_db w) = lastSeq l) as Hmax.
  { rewrite (mirrors_max _ _ (tracks_mirrors _ _ (r_chain _ _ _ _ _ Hr) Htr)). by rewrite (r_lastSeq _ _ _ _ _ Hr). }
  destruct (validated_materializes _ _ _ _ _ Hv' ltac:(by rewrite Hmax)) as [db' Hm].
  exists e, l', d', db'. unfold Door.adapter_admit, append_recovering, materialize_appended, materializeAtomic. rewrite Hl, Hp, Hvb, Hv, Hw, H, Hb, Hm, Hc.
  split; [done|]. split_and!; try done. split; [done|done|]. cbn. rewrite app_assoc. by eapply tracks_snoc.
Qed.

(** A capture is of one moment: over a state in step it succeeds, the tail it
    copies is the record's, and the pinned database stands at the very record,
    by number and by hash, that the copied record ends with. *)
Theorem capture_at_one_boundary w l S T ok2 : in_step w l S T →
  capture recoverSeal w all_ok ok2 true =
    (w, Ok (mkCapture (lastSeq l) (lastHash l) (sealedSeq l) (map seg_name (segments l)) (store T), mkHead (lastSeq l) (lastHash l)), None).
Proof.
  intros [Hl Hr Htr]. unfold capture, capture_recovering. rewrite Hl.
  assert (TakeCapture all_ok l (dr_dir w) = Ok (mkCapture (lastSeq l) (lastHash l) (sealedSeq l) (map seg_name (segments l)) (store T))) as Hc.
  { unfold TakeCapture. rewrite (r_locked _ _ _ _ _ Hr), (r_file _ _ _ _ _ Hr), (r_tail _ _ _ _ _ Hr). cbn [negb orb all_ok].
    unfold store. rewrite (readTailEvents_lines _ T) by (by apply lines_of_store, Hr).
    assert (last (drop (length T - (0 + 1)) T) = last T) as ->.
    { destruct T as [|e T _] using rev_ind; [done|]. rewrite last_drop; [done|]. rewrite length_app. cbn. lia. }
    destruct (last T) as [e|] eqn:E.
    - apply last_Some in E as [T' ->]. rewrite (r_lastHash _ _ _ _ _ Hr), app_assoc, last_hash_snoc, beq_refl. done.
    - apply last_None in E as ->. rewrite (r_lastSeq _ _ _ _ _ Hr), (r_lastHash _ _ _ _ _ Hr), (r_sealedSeq _ _ _ _ _ Hr), (r_sealedHash _ _ _ _ _ Hr).
      by rewrite app_nil_r, Z.eqb_refl, beq_refl. }
  assert (readMirrorHead (dr_db w) = mkHead (lastSeq l) (lastHash l)) as Hh.
  { rewrite (mirrors_head _ _ (tracks_mirrors _ _ (r_chain _ _ _ _ _ Hr) Htr) (r_chain _ _ _ _ _ Hr)).
    by rewrite (r_lastSeq _ _ _ _ _ Hr), (r_lastHash _ _ _ _ _ Hr). }
  rewrite Hc. unfold PinAt. cbn [negb]. rewrite Hh. cbn. rewrite beq_refl. destruct w; cbn in *. by rewrite Hl.
Qed.
End InStep.
