(* ===== verification/StoreSamples.v ===== *)
(** * Samples of the store and the door

    A small life, event by event, and the properties of the projection and of the
    door applied to it. *)

From stdpp Require Import gmap relations.
From Stdlib Require Import SpecFloat.
From S2P Require Import Prelude Utf8 GoJson CanonicalJson CanonicalJsonFacts GoStruct Crypto Event Lines Stored Chain Container ContainerFacts Ledger LedgerFacts Recovery LedgerProps GoStrings Tables SelfModel Materialize Admission Timeless Projection Steps Graph AdmissionFacts Door DoorFacts.

(** A database that finds every text valid, and the unicode tables of ASCII. *)
#[local] Instance sample_sqlite : Sqlite := {| json_valid _ := true |}.
#[local] Instance ascii_unicode : Unicode := {|
  ToLowerRune r := if (65 <=? r) && (r <=? 90) then r + 32 else r;
  IsLetter r := (65 <=? r) && (r <=? 90) || (97 <=? r) && (r <=? 122);
  IsDigit r := (48 <=? r) && (r <=? 57) |}.

Definition no_turns : Transcript := mkTranscript (λ _, None) (λ _ _, false).
Definition sample_event (seq : Z) (t : bytes) (ring : Z) (payload : bytes) : Event :=
  mkEvent seq (bs "p") (bs "2026-01-02T03:04:05Z") t ring (bs "c") payload (bs "s") false false false [].

(** Birth, two experiences, a belief that rests on both. *)
Definition life_events : list Event := [
  sample_event 1 EventRing0Genesis 0 (js "{'name':'a'}");
  sample_event 2 EventExperienceCreate 3 (js "{'content':'the sky was clear','id':'x1'}");
  sample_event 3 EventExperienceCreate 3 (js "{'content':'the sea was calm','id':'x2'}");
  sample_event 4 EventBeliefUpsert 3 (js "{'confidence':0.5,'content':'Mornings are clear','id':'b1','origin_refs':[{'id':'x1','kind':'experience'},{'id':'x2','kind':'experience'}]}")
].
(** The same words in another case, and the archiving of one of its edges. *)
Definition restated_event : Event := sample_event 5 EventBeliefUpsert 3 (js "{'confidence':0.75,'content':'mornings ARE clear','id':'b1','origin_refs':[{'id':'x1','kind':'experience'}]}").
Definition life_db : DB := match materialize_all false life_events empty_db with Ok d => d | Err _ => empty_db end.

Lemma life_lived : materialize_all false life_events empty_db = Ok life_db.
Proof. vm_compute. reflexivity. Qed.

Lemma replay_rebuilds_projection_witness :
  ReplayAll true true life_events empty_db = (with_env (keep_clock (t_lifetime empty_db)) (λ _, t_refs empty_db) life_db, None).
Proof. exact (replay_rebuilds_projection life_events life_db empty_db life_lived (Forall_nil_2 _)). Defined.

(** The operator's relationship, and one that takes its place. *)
Definition operator_event (seq : Z) (members : bytes) : Event := sample_event seq EventRelationshipUpsert 1
  (js "{'approval_basis':'conversation_turn','autonomy_level':'trusted','counterpart_name':'o','counterpart_role':'operator','operator_approval_excerpt':'yes','operator_approval_turn':1,'relationship_type':'operator','trust_level':'building'," ++ members ++ bs "}").
Definition founded_events : list Event := life_events ++ [operator_event 5 (js "'id':'r1'")].
Definition later_events : list Event := [operator_event 6 (js "'id':'r2','supersedes':'r1'")].
Definition founded_db : DB := match materialize_all false founded_events empty_db with Ok d => d | Err _ => empty_db end.
Definition later_db : DB := match materialize_all false later_events founded_db with Ok d => d | Err _ => empty_db end.


Definition restated_db : DB := match materializeLocked false restated_event life_db with Ok d => d | Err _ => life_db end.

Lemma restated_admitted : admitted no_turns 1000 life_db restated_event restated_db.
Proof. split; [exists (bs "n"); vm_compute; reflexivity|]. split; vm_compute; reflexivity. Qed.

Lemma admitted_event_materializes_witness : ∃ d', materializeAtomic true true restated_event life_db = (d', None).
Proof.
  apply (admitted_event_materializes no_turns 1000 (bs "n") restated_event life_db); vm_compute; reflexivity.
Defined.

Lemma belief_words_kept_witness : ∃ b b', t_beliefs life_db !! bs "b1" = Some b ∧ t_beliefs restated_db !! bs "b1" = Some b' ∧
  b_statement b ≠ b_statement b' ∧ normalizedBeliefStatement (b_statement b') = normalizedBeliefStatement (b_statement b).
Proof.
  destruct (t_beliefs life_db !! bs "b1") as [b|] eqn:Hb; [|vm_compute in Hb; discriminate Hb].
  destruct (belief_words_kept no_turns 1000 life_db restated_db (bs "b1") b
    (rtc_once _ _ (ex_intro _ restated_event restated_admitted)) ltac:(vm_compute; discriminate) Hb) as (b' & Hb' & Hk & _).
  exists b, b'. split; [reflexivity|]. split; [exact Hb'|]. split; [|exact (kp_words _ _ Hk)].
  vm_compute in Hb, Hb'. injection Hb as <-. injection Hb' as <-. vm_compute. discriminate.
Defined.

(** The first of the two edges of the belief, archived; the second could not be. *)
Definition archive_event (seq : Z) (edge : bytes) : Event := sample_event seq EventEdgeArchive 3 (bs "{" ++ js "'id':'" ++ edge ++ js "'}").
Definition thinner_db : DB := match materializeLocked false (archive_event 5 (bs "edge_origin_4_0")) life_db with Ok d => d | Err _ => life_db end.

Lemma thinner_admitted : admitted no_turns 1000 life_db (archive_event 5 (bs "edge_origin_4_0")) thinner_db.
Proof. split; [exists (bs "n"); vm_compute; reflexivity|]. split; vm_compute; reflexivity. Qed.

Lemma life_grounded : grounded life_db.
Proof. unfold grounded. apply (bool_decide_unpack _). vm_compute. exact I. Qed.

Lemma active_beliefs_grounded_witness : grounded thinner_db ∧
  ValidateEvent no_turns true 1000 (bs "n") EventEdgeArchive 3 (Payload (archive_event 6 (bs "edge_origin_4_1"))) thinner_db ≠ Ok ().
Proof.
  split; [|vm_compute; discriminate].
  apply (active_beliefs_grounded no_turns 1000 life_db thinner_db); [apply rtc_once; eexists; exact thinner_admitted|exact life_grounded].
Defined.

(** ** The door *)

Definition birth_db : DB := match materializeLocked false sample_first empty_db with Ok d => d | Err _ => empty_db end.
Definition birth_ledger : Ledger := opened_ledger sample_path [] [sample_first].
Definition birth_door : door := mkDoor (Some birth_ledger) {[ sample_path := NFile (store [sample_first]) ]} birth_db.

Lemma birth_repr : repr (G := plain_gzip) (PublicKey toy_pair) birth_ledger (dr_dir birth_door) [] [sample_first].
Proof.
  pose proof sample_storable as Hs. pose proof sample_proven as [_ Hp]. apply opened_repr. split.
  - vm_compute. split; reflexivity.
  - split; [vm_compute; reflexivity|apply Forall_nil_2].
  - unfold read_file, birth_door. cbn [dr_dir]. by rewrite lookup_singleton_eq.
  - constructor; [exact (Forall_inv Hs)|constructor].
  - constructor; [exact (Forall_inv Hp)|constructor].
  - vm_compute. tauto.
  - vm_compute. reflexivity.
Qed.

Lemma birth_in_step : in_step (G := plain_gzip) toy_pair birth_door birth_ledger [] [sample_first].
Proof. split; [reflexivity|exact birth_repr|]. exists birth_db, None, []. split; vm_compute; reflexivity. Qed.

Definition calm : admit_env := mkAdmitEnv (bs "n") true false sample_now Written sample_now Written true true.
Definition first_memory : bytes := js "{'content':'the sky was clear','id':'x1'}".

Lemma memory_appendable : appendable birth_ledger EventExperienceCreate 3 first_memory sample_now toy_pair.
Proof.
  split; [split; vm_compute; reflexivity..|reflexivity|vm_compute; reflexivity|reflexivity|vm_compute; reflexivity|exact toy_pair_whole| |vm_compute; reflexivity].
  eexists. split; [vm_compute; reflexivity|]. vm_compute. reflexivity.
Qed.

Lemma admitted_call_recorded_witness : ∃ e l' d' db',
  adapter_admit no_turns 1000 None birth_door EventExperienceCreate 3 (Some first_memory) [] toy_pair calm =
    mkAdmit (mkDoor (Some l') d' db') (Some e) None None (Some e) ∧ Seq e = 2 ∧ in_step (G := plain_gzip) toy_pair (mkDoor (Some l') d' db') l' [] [sample_first; e].
Proof.
  destruct (admitted_call_recorded (G := plain_gzip) no_turns 1000 None toy_pair birth_door birth_ledger [] [sample_first]
    EventExperienceCreate 3 (Some first_memory) [] first_memory calm birth_in_step) as (e & l' & d' & db' & H & _ & _ & _ & Hs & Hst);
    [vm_compute; reflexivity|vm_compute; reflexivity|exact memory_appendable|reflexivity..|].
  exists e, l', d', db'. split; [exact H|]. split; [exact Hs|exact Hst].
Defined.

(** A call that is refused, a call that goes through, a write that breaks off. *)
Definition broken : admit_env := mkAdmitEnv (bs "n") true false sample_now (Broken 7) sample_now Written true true.
Definition call (w : door) (payload : bytes) (env : admit_env) : door :=
  ar_door (adapter_admit no_turns 1000 None w EventExperienceCreate 3 (Some payload) [] toy_pair env).
Definition after_one : door := call (call birth_door (js "{'id':'x1'}") calm) first_memory calm.
Definition after_two : door := call after_one (js "{'content':'the sea was calm','id':'x2'}") broken.

Lemma call_fits (w : door) l payload env : dr_ledger w = Some l → ae_now env = sample_now →
  (∀ raw, preparePayload (Some payload) (modelID l) = Ok raw → fits toy_pair l EventExperienceCreate 3 raw sample_now) →
  ∀ l, dr_ledger w = Some l → call_ok toy_pair l EventExperienceCreate 3 (Some payload) [] env.
Proof. intros H1 H2 H3 l' Hl. assert (l' = l) as -> by congruence. split; rewrite H2; [split; vm_compute; reflexivity|exact H3]. Qed.

Ltac fits_here := eapply call_fits; [vm_compute; reflexivity|reflexivity|intros raw Hraw; vm_compute in Hraw; first [discriminate Hraw|injection Hraw as <-];
  intros sig Hsig; vm_compute in Hsig; injection Hsig as <-; vm_compute; discriminate].


Lemma capture_at_one_boundary_witness : ∃ c head, capture None birth_door all_ok all_ok true = (birth_door, Ok (c, head), None) ∧
  c_tail c = store [sample_first] ∧ c_LastSeq c = mh_Seq head ∧ c_LastHash c = mh_Hash head.
Proof.
  eexists _, _. split; [exact (capture_at_one_boundary (G := plain_gzip) None toy_pair birth_door birth_ledger [] [sample_first] all_ok birth_in_step)|].
  split; [reflexivity|split; reflexivity].
Defined.
