(* ===== verification/WorkQueue.v ===== *)
(** * internal/store/workqueue.go: the work queue

    The table work_queue as a finite map by id, the claim limits and the frozen
    flag of the store, and one definition per operation.  What the machine does
    is an argument: the clock, the random bytes of an id, whether the database
    does its part, and which of several equal rows a [LIMIT 1] gives.

    Integers are those of the table, 64 bits: a sum that leaves them cannot be
    stored in a column of a STRICT table.  The comparison [claimed_at + lease_ms
    < ?] is taken over the integers; SQLite rounds a sum past 2^63 to a float,
    which is no smaller than any clock it is compared with but for the last
    thousand milliseconds of the 64 bits. *)

From stdpp Require Import gmap.
From S2P Require Import Prelude Lines GoStrings Tables.

(** ** Rows (schema.sql, store/rows/records.go) *)

Inductive work_state := PENDING | CLAIMED | DONE | FAILED.
#[export] Instance work_state_eq_dec : EqDecision work_state.
Proof. solve_decision. Defined.

Definition state_text (s : work_state) : bytes :=
  match s with PENDING => bs "PENDING" | CLAIMED => bs "CLAIMED" | DONE => bs "DONE" | FAILED => bs "FAILED" end.

(** [CHECK (state IN ('PENDING','CLAIMED','DONE','FAILED'))]. *)
Definition state_of (s : bytes) : option work_state :=
  if beq s (bs "PENDING") then Some PENDING else if beq s (bs "CLAIMED") then Some CLAIMED
  else if beq s (bs "DONE") then Some DONE else if beq s (bs "FAILED") then Some FAILED else None.

Record WorkItem := mkItem {
  wi_ID : bytes; wi_Kind : bytes; wi_Payload : bytes; wi_DedupKey : bytes; wi_Source : bytes; wi_State : bytes;
  wi_Priority : Z; wi_Scheduled : Z; wi_ClaimedAt : Z; wi_LeaseMs : Z; wi_DoneAt : Z; wi_RetryCount : Z; wi_MaxRetries : Z;
  wi_Error : bytes; wi_CreatedMs : Z;
}.

Record work_row := mkWork {
  w_kind : bytes; w_payload : bytes; w_dedup : option bytes; w_source : bytes; w_state : work_state;
  w_priority : Z; w_scheduled : Z; w_claimed : Z; w_lease : Z; w_done : Z; w_retry : Z; w_max : Z;
  w_error : option bytes; w_created : Z;
}.

Record queue := mkQueue { q_rows : gmap bytes work_row; q_limits : gmap bytes Z; q_frozen : bool }.

Definition set_rows (f : gmap bytes work_row → gmap bytes work_row) (q : queue) : queue := mkQueue (f (q_rows q)) (q_limits q) (q_frozen q).

Inductive work_err :=
| WNoKind                       (** "work item requires kind" *)
| WFrozen                       (** [FrozenError], wrapped by [withheld] where the code does *)
| WConstraint                   (** SQLITE_CONSTRAINT *)
| WDatabase.                    (** the database did not do its part *)

(** SQLite's [LIKE], code of a library. *)
Class SqlLike := { sql_like : bytes → bytes → bool }.

(** [state IN ('PENDING','CLAIMED')]. *)
Definition live (r : work_row) : bool := match w_state r with PENDING | CLAIMED => true | _ => false end.
Definition is_state (s : work_state) (r : work_row) : bool := bool_decide (w_state r = s).

(** The rows a condition holds of, and [LIMIT 1] among rows that tie. *)
Definition select (f : work_row → bool) (m : gmap bytes work_row) : list (bytes * work_row) :=
  map_to_list (filter (λ kv, f kv.2 = true) m).
Definition limit1 {A} (tie : nat) (l : list A) : option A := l !! (tie mod length l)%nat.

Definition count (f : work_row → bool) (q : queue) : Z := Z.of_nat (length (select f (q_rows q))).

(** ** The frozen projection (store/frozen.go) *)

Definition SetFrozen (on : bool) (q : queue) : queue := mkQueue (q_rows q) (q_limits q) on.

(** [guarded.Exec] and [guarded.Begin]: nothing reaches the database of a frozen
    store; [ok] says whether it does its part otherwise. *)
Definition guarded (ok : bool) (q : queue) : result work_err unit :=
  if q_frozen q then Err WFrozen else if ok then Ok () else Err WDatabase.

(** ** Enqueue *)

(** [byte(x)]. *)
Definition to_byte (x : Z) : Z := Z.land x 255.

(** [newWorkID]: 48 bits of milliseconds, then random bits with the version and
    the variant set; [b] are the sixteen random bytes. *)
Definition newWorkID (b : bytes) (ms : Z) : bytes :=
  hex_encode ([to_byte (Z.shiftr ms 40); to_byte (Z.shiftr ms 32); to_byte (Z.shiftr ms 24); to_byte (Z.shiftr ms 16);
    to_byte (Z.shiftr ms 8); to_byte ms; Z.lor (Z.land (nth 6 b 0) 15) 112; nth 7 b 0; Z.lor (Z.land (nth 8 b 0) 63) 128] ++ drop 9 b).

Definition nullable (s : bytes) : option bytes := if beq s [] then None else Some s.

Record enqueue_env := mkEnqueueEnv {
  en_now : Z;                   (** the clock read for created_ms *)
  en_random : bytes; en_ms : Z; (** what [newWorkID] draws and reads *)
  en_select : bool;             (** the query for the key is answered *)
  en_tie : nat;
  en_insert : bool;
}.

Definition or_z (x d : Z) : Z := if x =? 0 then d else x.

(** The item with its defaults filled in. *)
Definition prepared (env : enqueue_env) (item : WorkItem) : WorkItem :=
  mkItem (if beq (wi_ID item) [] then newWorkID (en_random env) (en_ms env) else wi_ID item)
    (wi_Kind item) (wi_Payload item) (wi_DedupKey item) (wi_Source item)
    (if beq (wi_State item) [] then bs "PENDING" else wi_State item)
    (or_z (wi_Priority item) 5) (wi_Scheduled item) (wi_ClaimedAt item) (or_z (wi_LeaseMs item) 300000) (wi_DoneAt item) (wi_RetryCount item)
    (or_z (wi_MaxRetries item) 3) (wi_Error item) (en_now env).

Definition same_key (kind key : bytes) (r : work_row) : bool := beq (w_kind r) kind && bool_decide (w_dedup r = Some key).

Section Enqueue.
Context `{Q : Sqlite}.

(** The INSERT. *)
Definition insert_work (ok : bool) (item : WorkItem) (q : queue) : queue * result work_err bytes :=
  match guarded ok q with
  | Err e => (q, Err e)
  | Ok _ =>
    match state_of (wi_State item) with
    | Some st =>
      if has (q_rows q) (wi_ID item) || negb (json_valid (wi_Payload item)) then (q, Err WConstraint)
      else (set_rows <[wi_ID item := mkWork (wi_Kind item) (wi_Payload item) (nullable (wi_DedupKey item)) (wi_Source item) st
              (wi_Priority item) (wi_Scheduled item) 0 (wi_LeaseMs item) 0 0 (wi_MaxRetries item) None (wi_CreatedMs item)]> q,
            Ok (wi_ID item))
    | None => (q, Err WConstraint)
    end
  end.

(** The query for a live row with the key: [None] for no row, and for a query
    that fails, which the code does not tell apart. *)
Definition existing (env : enqueue_env) (item : WorkItem) (q : queue) : option bytes :=
  if beq (wi_DedupKey item) [] || negb (en_select env) then None
  else fst <$> limit1 (en_tie env) (select (λ r, same_key (wi_Kind item) (wi_DedupKey item) r && live r) (q_rows q)).

Definition EnqueueWork (env : enqueue_env) (item : WorkItem) (q : queue) : queue * result work_err bytes :=
  if beq (wi_Kind item) [] then (q, Err WNoKind)
  else
    let item := prepared env item in
    match existing env item q with
    | Some id => (q, Ok id)
    | None => insert_work (en_insert env) item q
    end.
End Enqueue.

(** ** Claims *)

Definition SetClaimLimit (kind : bytes) (limit : Z) (q : queue) : queue :=
  mkQueue (q_rows q) (if limit <=? 0 then delete kind (q_limits q) else <[kind := limit]> (q_limits q)) (q_frozen q).

Definition claimed_of (kind : bytes) (r : work_row) : bool := beq (w_kind r) kind && is_state CLAIMED r.

(** [claimExclusionLocked]: for each limit, the row is of another kind or the
    limit is not reached. *)
Definition claimExclusionLocked (q : queue) (r : work_row) : bool :=
  forallb (λ kl : bytes * Z, negb (beq (w_kind r) kl.1 && (kl.2 <=? count (claimed_of kl.1) q))) (map_to_list (q_limits q)).

Record claim_env := mkClaimEnv { cl_begin : bool; cl_select : bool; cl_tie : nat; cl_update : bool; cl_commit : bool }.

(** [ORDER BY priority ASC, created_ms ASC]. *)
Definition before (r r' : work_row) : bool :=
  (w_priority r <? w_priority r') || ((w_priority r =? w_priority r') && (w_created r <? w_created r')).
Definition firsts (l : list (bytes * work_row)) : list (bytes * work_row) :=
  filter (λ kr, forallb (λ kr', negb (before kr'.2 kr.2)) l = true) l.

Definition item_of (id : bytes) (r : work_row) : WorkItem :=
  mkItem id (w_kind r) (w_payload r) (default [] (w_dedup r)) (w_source r) (state_text (w_state r)) (w_priority r) (w_scheduled r)
    (w_claimed r) (w_lease r) 0 (w_retry r) (w_max r) [] (w_created r).

Definition row_claimed (now : Z) (r : work_row) : work_row :=
  mkWork (w_kind r) (w_payload r) (w_dedup r) (w_source r) CLAIMED (w_priority r) (w_scheduled r) now (w_lease r) (w_done r) (w_retry r)
    (w_max r) (w_error r) (w_created r).

Section Claim.
Context `{L : SqlLike}.

Definition kind_clause (kind k : bytes) : bool :=
  let n := length k in
  if (2 <? n)%nat && beq (drop (n - 2) k) (bs ".*") then sql_like kind (take (n - 1) k ++ bs "%") else beq kind k.
Definition kinds_clause (kinds : list bytes) (kind : bytes) : bool :=
  match kinds with [] => true | _ => existsb (kind_clause kind) kinds end.

(** The WHERE clause of the claim. *)
Definition claimable (kinds : list bytes) (now : Z) (q : queue) (r : work_row) : bool :=
  is_state PENDING r && (w_scheduled r <=? now) && claimExclusionLocked q r && kinds_clause kinds (w_kind r).

Definition ClaimWork (env : claim_env) (kinds : list bytes) (now : Z) (q : queue) : queue * result work_err (option WorkItem) :=
  match guarded (cl_begin env) q with
  | Err WFrozen => (q, Ok None)
  | Err e => (q, Err e)
  | Ok _ =>
    if negb (cl_select env) then (q, Err WDatabase)
    else
      match limit1 (cl_tie env) (firsts (select (claimable kinds now q) (q_rows q))) with
      | None => (q, Ok None)
      | Some (id, r) =>
        if negb (cl_update env) || negb (cl_commit env) then (q, Err WDatabase)
        else (set_rows <[id := row_claimed now r]> q, Ok (Some (item_of id (row_claimed now r))))
      end
  end.
End Claim.

(** ** Completion, failure and expiry *)

Definition row_done (now : Z) (r : work_row) : work_row :=
  mkWork (w_kind r) (w_payload r) (w_dedup r) (w_source r) DONE (w_priority r) (w_scheduled r) (w_claimed r) (w_lease r) now (w_retry r)
    (w_max r) (w_error r) (w_created r).

(** The row with the id, if it is claimed. *)
Definition claimed_row (q : queue) (id : bytes) : option work_row :=
  r ← q_rows q !! id; if is_state CLAIMED r then Some r else None.

Definition CompleteWork (ok : bool) (now : Z) (id : bytes) (q : queue) : queue * result work_err unit :=
  match guarded ok q with
  | Err e => (q, Err e)
  | Ok _ => match claimed_row q id with Some r => (set_rows <[id := row_done now r]> q, Ok ()) | None => (q, Ok ()) end
  end.

Definition retryBackoffBaseMs : Z := 1000.
Definition retryBackoffMaxShift : Z := 6.
Definition backoff (r : work_row) : Z := Z.shiftl retryBackoffBaseMs (Z.min (w_retry r) retryBackoffMaxShift).

(** The SET clause of a failed attempt, [None] when a sum is no 64-bit integer. *)
Definition row_failed (now : Z) (msg : option bytes) (r : work_row) : option work_row :=
  if int64_ok (w_retry r + 1) && int64_ok (now + backoff r) then
    Some (mkWork (w_kind r) (w_payload r) (w_dedup r) (w_source r) (if w_max r <=? w_retry r + 1 then FAILED else PENDING)
      (w_priority r) (now + backoff r) 0 (w_lease r) (w_done r) (w_retry r + 1) (w_max r) msg (w_created r))
  else None.

Definition FailWork (ok : bool) (now : Z) (id msg : bytes) (q : queue) : queue * result work_err unit :=
  match guarded ok q with
  | Err e => (q, Err e)
  | Ok _ =>
    match claimed_row q id with
    | None => (q, Ok ())
    | Some r => match row_failed now (Some msg) r with Some r' => (set_rows <[id := r']> q, Ok ()) | None => (q, Err WConstraint) end
    end
  end.

(** [COALESCE(NULLIF(error_msg,''), 'lease expired')]. *)
Definition expired_msg (r : work_row) : option bytes := Some (default (bs "lease expired") (w_error r ≫= nullable)).

(** The WHERE clause of the sweep. *)
Definition expired (now : Z) (running : list bytes) (id : bytes) (r : work_row) : bool :=
  is_state CLAIMED r && (w_claimed r + w_lease r <? now) && forallb (λ id', negb (beq id id')) running.
Definition sweep_row (now : Z) (running : list bytes) (id : bytes) (r : work_row) : option work_row :=
  if expired now running id r then row_failed now (expired_msg r) r else Some r.

Definition SweepExpiredLeases (ok : bool) (now : Z) (running : list bytes) (q : queue) : queue * result work_err Z :=
  match guarded ok q with
  | Err WFrozen => (q, Ok 0)
  | Err e => (q, Err e)
  | Ok _ =>
    if bool_decide (map_Forall (λ id r, is_Some (sweep_row now running id r)) (q_rows q)) then
      (set_rows (map_imap (sweep_row now running)) q, Ok (Z.of_nat (size (filter (λ kv, expired now running kv.1 kv.2 = true) (q_rows q)))))
    else (q, Err WConstraint)
  end.

(** ** Queries *)

Definition PendingWorkCount (q : queue) : Z := count live q.
Definition CountLiveWork (kind : bytes) (q : queue) : Z := count (λ r, beq (w_kind r) kind && live r) q.
Definition HasWorkItem (kind key : bytes) (q : queue) : bool := negb (Nat.eqb (length (select (same_key kind key) (q_rows q))) 0).

(** The key up to its first "#". *)
Definition session_of (key : bytes) : bytes := match Index key (bs "#") with Some i => take i key | None => key end.
Definition note_state (out : gmap bytes work_state) (kr : bytes * work_row) : gmap bytes work_state :=
  match w_dedup kr.2 with
  | Some key => if bool_decide (out !! session_of key = Some CLAIMED) then out else <[session_of key := w_state kr.2]> out
  | None => out
  end.
Definition SubagentQueueStates (kind : bytes) (q : queue) : gmap bytes work_state :=
  foldl note_state ∅ (select (λ r, beq (w_kind r) kind && bool_decide (is_Some (w_dedup r)) && live r) (q_rows q)).
