(* ===== verification/WorkQueueFacts.v ===== *)
(** * What the work queue keeps

    Rows only move forward, a key has one live row, a claim takes the first
    row that is due, and the attempts of an item are bounded. *)

From stdpp Require Import gmap.
From S2P Require Import Prelude Lines GoStrings Tables WorkQueue.

(** ** Selection *)

Lemma elem_of_select f m id r : (id, r) ∈ select f m ↔ m !! id = Some r ∧ f r = true.
Proof. unfold select. by rewrite elem_of_map_to_list, map_lookup_filter_Some. Qed.

Lemma limit1_elem {A} tie (l : list A) x : limit1 tie l = Some x → x ∈ l.
Proof. apply list_elem_of_lookup_2. Qed.

Lemma limit1_some {A} tie (l : list A) : l ≠ [] → is_Some (limit1 tie l).
Proof. intros H. apply lookup_lt_is_Some. apply Nat.mod_upper_bound. by destruct l. Qed.

Lemma elem_of_firsts l kr : kr ∈ firsts l ↔ kr ∈ l ∧ ∀ kr', kr' ∈ l → before kr'.2 kr.2 = false.
Proof.
  unfold firsts. rewrite list_elem_of_filter, forallb_forall. split; intros [H1 H2]; split; try done.
  - intros kr' H%list_elem_of_In. apply negb_true_iff. by apply H1.
  - intros kr' H%list_elem_of_In. apply negb_true_iff. by apply H2.
Qed.

(** The order of claims is a strict one, so a list that is not empty has a
    first element. *)

Lemma before_spec r r' : before r r' = true ↔ w_priority r < w_priority r' ∨ (w_priority r = w_priority r' ∧ w_created r < w_created r').
Proof. unfold before. rewrite orb_true_iff, andb_true_iff, !Z.ltb_lt, Z.eqb_eq. tauto. Qed.

Lemma before_trans r1 r2 r3 : before r1 r2 = true → before r2 r3 = true → before r1 r3 = true.
Proof. rewrite !before_spec. lia. Qed.
Lemma before_irrefl r : before r r = false.
Proof. apply not_true_is_false. rewrite before_spec. lia. Qed.

Lemma first_exists (l : list (bytes * work_row)) : l ≠ [] → ∃ kr, kr ∈ l ∧ ∀ kr', kr' ∈ l → before kr'.2 kr.2 = false.
Proof.
  induction l as [|kr l IH]; [done|]. intros _. destruct l as [|kr2 l].
  { exists kr. split; [left|]. intros kr' ->%list_elem_of_singleton. apply before_irrefl. }
  destruct IH as (m & Hm & Hmin); [done|]. destruct (before kr.2 m.2) eqn:E.
  - exists kr. split; [left|]. intros kr' [->|H]%elem_of_cons; [apply before_irrefl|].
    destruct (before kr'.2 kr.2) eqn:E'; [|done]. by rewrite <- (Hmin _ H), (before_trans _ _ _ E' E).
  - exists m. split; [by right|]. intros kr' [->|H]%elem_of_cons; [done|by apply Hmin].
Qed.

Lemma firsts_nonempty l : l ≠ [] → firsts l ≠ [].
Proof. intros (kr & H)%first_exists. apply elem_of_firsts in H. intros E. rewrite E in H. by apply not_elem_of_nil in H. Qed.

(** ** How a row changes *)

(** How many more times a row can be handed out. *)
Definition attempts (r : work_row) : Z :=
  match w_state r with PENDING => Z.max 1 (w_max r - w_retry r) | CLAIMED => Z.max 1 (w_max r - w_retry r) - 1 | _ => 0 end.

(** [r'] is [r] at a later time: what it is about stays, it never comes back to
    life, and its attempts are used up. *)
Record later (r r' : work_row) : Prop := {
  later_kind : w_kind r' = w_kind r;
  later_payload : w_payload r' = w_payload r;
  later_dedup : w_dedup r' = w_dedup r;
  later_source : w_source r' = w_source r;
  later_priority : w_priority r' = w_priority r;
  later_lease : w_lease r' = w_lease r;
  later_max : w_max r' = w_max r;
  later_created : w_created r' = w_created r;
  later_live : live r' = true → live r = true;
  later_retry : w_retry r ≤ w_retry r';
  later_attempts : attempts r' ≤ attempts r;
}.

#[export] Instance later_preorder : PreOrder later.
Proof.
  split; [by intros r; split|]. intros r1 r2 r3 [] []. split; try congruence; [auto|lia..].
Qed.

(** The same ids, each row at a later time. *)
Definition evolves (m m' : gmap bytes work_row) : Prop := ∀ id, option_relation later (λ _, False) (λ _, False) (m !! id) (m' !! id).

#[export] Instance evolves_preorder : PreOrder evolves.
Proof.
  split; [intros m id; by destruct (m !! id); cbn|]. intros m1 m2 m3 H1 H2 id. specialize (H1 id). specialize (H2 id).
  destruct (m1 !! id), (m2 !! id), (m3 !! id); cbn in *; try done. by etrans.
Qed.

Lemma evolves_insert m id r r' : m !! id = Some r → later r r' → evolves m (<[id := r']> m).
Proof.
  intros H Hl i. destruct (decide (id = i)) as [->|]; [by rewrite lookup_insert_eq, H|]. rewrite lookup_insert_ne by done.
  by destruct (m !! i); cbn.
Qed.

Lemma evolves_back m m' id r' : evolves m m' → m' !! id = Some r' → ∃ r, m !! id = Some r ∧ later r r'.
Proof. intros H E. specialize (H id). rewrite E in H. destruct (m !! id) as [r|]; [|done]. by exists r. Qed.

Lemma is_state_true s r : is_state s r = true ↔ w_state r = s.
Proof. unfold is_state. apply bool_decide_eq_true. Qed.

Lemma claimed_row_some q id r : claimed_row q id = Some r ↔ q_rows q !! id = Some r ∧ w_state r = CLAIMED.
Proof.
  unfold claimed_row. destruct (q_rows q !! id) as [r'|]; cbn; [|naive_solver].
  destruct (is_state CLAIMED r') eqn:E; [apply is_state_true in E; naive_solver|]. split; [done|]. intros [[= ->] H].
  apply is_state_true in H. congruence.
Qed.

Lemma guarded_ok ok q u : guarded ok q = Ok u → q_frozen q = false ∧ ok = true.
Proof. unfold guarded. by destruct (q_frozen q), ok. Qed.

Lemma later_claimed now r : w_state r = PENDING → later r (row_claimed now r).
Proof. intros H. split; cbn; try done; unfold live, attempts; rewrite ?H; cbn; [done|lia]. Qed.
Lemma later_done now r : later r (row_done now r).
Proof. split; cbn; try done. unfold attempts at 1; cbn. unfold attempts. destruct (w_state r); lia. Qed.
Lemma later_failed now msg r r' : w_state r = CLAIMED → row_failed now msg r = Some r' → later r r'.
Proof.
  intros H. unfold row_failed. destruct (_ && _); [|done]. intros [= <-]. split; cbn; try done; try lia; unfold live, attempts; rewrite ?H; [done|].
  cbn. destruct (Z.leb_spec (w_max r) (w_retry r + 1)); lia.
Qed.

Lemma later_swept now running id r r' : sweep_row now running id r = Some r' → later r r'.
Proof.
  unfold sweep_row. destruct (expired now running id r) eqn:E; [|by intros [= <-]]. apply later_failed.
  unfold expired in E. b2p. by apply is_state_true.
Qed.

#[export] Hint Resolve later_claimed later_done later_failed later_swept : go.

(** ** Each operation *)

Section Ops.
Context `{Q : Sqlite} `{L : SqlLike}.

Lemma insert_work_cases ok item q q' res : insert_work ok item q = (q', res) →
  (q' = q ∧ ∃ e, res = Err e) ∨
  (q_rows q !! wi_ID item = None ∧ res = Ok (wi_ID item) ∧ q_frozen q = false ∧ ∃ st, state_of (wi_State item) = Some st ∧
   q' = set_rows <[wi_ID item := mkWork (wi_Kind item) (wi_Payload item) (nullable (wi_DedupKey item)) (wi_Source item) st
     (wi_Priority item) (wi_Scheduled item) 0 (wi_LeaseMs item) 0 0 (wi_MaxRetries item) None (wi_CreatedMs item)]> q).
Proof.
  unfold insert_work. destruct (guarded ok q) as [u|e] eqn:G; [|intros [= <- <-]; left; eauto]. apply guarded_ok in G as [G _].
  destruct (state_of _) as [st|]; [|intros [= <- <-]; left; eauto]. destruct (has _ _) eqn:H; cbn; [intros [= <- <-]; left; eauto|].
  destruct (json_valid _); cbn; intros [= <- <-]; [|left; eauto]. right. repeat split; try done; [|by exists st].
  unfold has in H. apply bool_decide_eq_false in H. by apply eq_None_not_Some.
Qed.

Lemma claim_cases env kinds now q q' res : ClaimWork env kinds now q = (q', res) →
  (q' = q ∧ ∀ w, res ≠ Ok (Some w)) ∨
  (q_frozen q = false ∧ ∃ id r, q_rows q !! id = Some r ∧ claimable kinds now q r = true ∧
    (∀ id' r', q_rows q !! id' = Some r' → claimable kinds now q r' = true → before r' r = false) ∧
    q' = set_rows <[id := row_claimed now r]> q ∧ res = Ok (Some (item_of id (row_claimed now r)))).
Proof.
  unfold ClaimWork. destruct (guarded _ q) as [u|[]] eqn:G; try (intros [= <- <-]; by left). apply guarded_ok in G as [G _].
  destruct (cl_select env); cbn [negb]; [|intros [= <- <-]; by left].
  destruct (limit1 _ _) as [[id r]|] eqn:E; [|intros [= <- <-]; by left].
  destruct (negb _ || negb _); intros [= <- <-]; [by left|]. right. split; [done|].
  apply limit1_elem, elem_of_firsts in E as [[H1 H2]%elem_of_select H]. exists id, r. repeat split; try done.
  intros id' r' H3 H4. apply (H (id', r')). by apply elem_of_select.
Qed.

Lemma claimable_pending kinds now q r : claimable kinds now q r = true → w_state r = PENDING.
Proof. unfold claimable. intros H. b2p. by apply is_state_true. Qed.

Lemma enqueue_rows env item q q' res : EnqueueWork env item q = (q', res) →
  q' = q ∨ ∃ r, q_rows q !! wi_ID (prepared env item) = None ∧ q' = set_rows <[wi_ID (prepared env item) := r]> q ∧
    w_kind r = wi_Kind item ∧ w_dedup r = nullable (wi_DedupKey item) ∧ w_retry r = 0 ∧ w_max r = or_z (wi_MaxRetries item) 3 ∧
    existing env (prepared env item) q = None.
Proof.
  unfold EnqueueWork. destruct (beq _ []); [intros [= <- _]; by left|]. cbv zeta. destruct (existing _ _ _) eqn:E; [intros [= <- _]; by left|].
  intros H. apply insert_work_cases in H as [[-> _]|(H & _ & _ & st & _ & ->)]; [by left|]. right. eexists. by repeat split.
Qed.

Lemma complete_evolves ok now id q : evolves (q_rows q) (q_rows (CompleteWork ok now id q).1).
Proof.
  unfold CompleteWork. destruct (guarded ok q); [|done]. destruct (claimed_row q id) as [r|] eqn:E; [|done].
  apply claimed_row_some in E as [E _]. cbn. eapply evolves_insert; eauto with go.
Qed.

Lemma fail_evolves ok now id msg q : evolves (q_rows q) (q_rows (FailWork ok now id msg q).1).
Proof.
  unfold FailWork. destruct (guarded ok q); [|done]. destruct (claimed_row q id) as [r|] eqn:E; [|done].
  apply claimed_row_some in E as [E Hs]. destruct (row_failed _ _ r) as [r'|] eqn:F; [|done]. cbn. eapply evolves_insert; eauto with go.
Qed.

Lemma sweep_rows ok now running q q' res : SweepExpiredLeases ok now running q = (q', res) →
  q' = q ∨ (map_Forall (λ id r, is_Some (sweep_row now running id r)) (q_rows q) ∧ q' = set_rows (map_imap (sweep_row now running)) q).
Proof.
  unfold SweepExpiredLeases. destruct (guarded ok q) as [u|[]]; try (intros [= <- _]; by left).
  case_bool_decide as H; intros [= <- _]; [by right|by left].
Qed.

Lemma sweep_evolves ok now running q : evolves (q_rows q) (q_rows (SweepExpiredLeases ok now running q).1).
Proof.
  destruct (SweepExpiredLeases _ _ _ _) as [q' res] eqn:E. apply sweep_rows in E as [->|[H ->]]; [done|]. intros id. cbn.
  rewrite map_lookup_imap. destruct (q_rows q !! id) as [r|] eqn:E; cbn; [|done].
  destruct (H _ _ E) as [r' Hr]. rewrite Hr. cbn. eauto with go.
Qed.

Lemma claim_evolves env kinds now q : evolves (q_rows q) (q_rows (ClaimWork env kinds now q).1).
Proof.
  destruct (ClaimWork _ _ _ _) as [q' res] eqn:E. apply claim_cases in E as [[-> _]|(_ & id & r & H1 & H2 & _ & -> & _)]; [done|].
  cbn. eapply evolves_insert; [done|]. apply claimable_pending in H2. auto with go.
Qed.
End Ops.

(** ** Runs of calls *)

(** A call any part of the program can make; a restart loses what is not in the
    table. *)
Inductive queue_op :=
| OpEnqueue (env : enqueue_env) (item : WorkItem)
| OpLimit (kind : bytes) (limit : Z)
| OpFrozen (on : bool)
| OpClaim (env : claim_env) (kinds : list bytes) (now : Z)
| OpComplete (ok : bool) (now : Z) (id : bytes)
| OpFail (ok : bool) (now : Z) (id msg : bytes)
| OpSweep (ok : bool) (now : Z) (running : list bytes)
| OpRestart.

Section Runs.
Context `{Q : Sqlite} `{L : SqlLike}.

(** The state after a call, and the id it handed out. *)
Definition run_op (op : queue_op) (q : queue) : queue * option bytes :=
  match op with
  | OpEnqueue env item => ((EnqueueWork env item q).1, None)
  | OpLimit kind limit => (SetClaimLimit kind limit q, None)
  | OpFrozen on => (SetFrozen on q, None)
  | OpClaim env kinds now =>
    match ClaimWork env kinds now q with (q', Ok (Some w)) => (q', Some (wi_ID w)) | (q', _) => (q', None) end
  | OpComplete ok now id => ((CompleteWork ok now id q).1, None)
  | OpFail ok now id msg => ((FailWork ok now id msg q).1, None)
  | OpSweep ok now running => ((SweepExpiredLeases ok now running q).1, None)
  | OpRestart => (mkQueue (q_rows q) ∅ false, None)
  end.

Fixpoint run_ops (ops : list queue_op) (q : queue) : queue * list bytes :=
  match ops with
  | [] => (q, [])
  | op :: ops =>
    let '(q1, handed) := run_op op q in
    let '(q2, ids) := run_ops ops q1 in (q2, option_list handed ++ ids)
  end.

(** Every call but an enqueue moves the rows forward, and so does an enqueue but
    for the row it adds. *)
Lemma run_op_rows op q : evolves (q_rows q) (q_rows (run_op op q).1) ∨ ∃ env item, op = OpEnqueue env item.
Proof.
  destruct op; cbn; try (left; done); [right; eauto|left..].
  - pose proof (claim_evolves env kinds now q) as H. destruct (ClaimWork _ _ _ _) as [q' [[]|]]; done.
  - apply complete_evolves.
  - apply fail_evolves.
  - apply sweep_evolves.
Qed.

(** *** Keys *)

(** No two live rows share a kind and a key. *)
Definition live_keys_unique (q : queue) : Prop := ∀ id1 id2 r1 r2 key,
  q_rows q !! id1 = Some r1 → q_rows q !! id2 = Some r2 → live r1 = true → live r2 = true →
  w_kind r1 = w_kind r2 → w_dedup r1 = Some key → w_dedup r2 = Some key → id1 = id2.

Lemma live_keys_evolve q q' : evolves (q_rows q) (q_rows q') → live_keys_unique q → live_keys_unique q'.
Proof.
  intros He H id1 id2 r1' r2' key (r1 & E1 & [])%(evolves_back _ _ _ _ He) (r2 & E2 & [])%(evolves_back _ _ _ _ He) L1 L2 Hk D1 D2.
  eapply (H _ _ _ _ key E1 E2); [auto..|congruence|congruence|congruence].
Qed.

Lemma existing_spec env item q id : wi_DedupKey item ≠ [] → en_select env = true → existing env item q = Some id ↔
  ∃ r, limit1 (en_tie env) (select (λ r, same_key (wi_Kind item) (wi_DedupKey item) r && live r) (q_rows q)) = Some (id, r).
Proof.
  intros H1%beq_false H2. unfold existing. rewrite H1, H2. cbn [orb negb]. destruct (limit1 _ _) as [[i r]|]; cbn; split; [|naive_solver| |naive_solver].
  - intros [= ->]. by exists r.
  - done.
Qed.

Lemma same_key_true kind key r : same_key kind key r = true ↔ w_kind r = kind ∧ w_dedup r = Some key.
Proof. unfold same_key. by rewrite andb_true_iff, beq_true, bool_decide_eq_true. Qed.

Lemma existing_none env item q id r : wi_DedupKey item ≠ [] → en_select env = true → existing env item q = None →
  q_rows q !! id = Some r → live r = true → w_kind r = wi_Kind item → w_dedup r = Some (wi_DedupKey item) → False.
Proof.
  intros H1 H2 He E Hl Hk Hd. destruct (limit1_some (en_tie env) (select (λ r, same_key (wi_Kind item) (wi_DedupKey item) r && live r) (q_rows q)))
    as [[i r'] Hs].
  - intros Hn. eapply not_elem_of_nil. rewrite <- Hn. apply elem_of_select. split; [done|]. rewrite Hl, andb_true_r. by apply same_key_true.
  - assert (existing env item q = Some i) by (apply existing_spec; eauto). congruence.
Qed.

Lemma enqueue_keys env item q : en_select env = true → live_keys_unique q → live_keys_unique (EnqueueWork env item q).1.
Proof.
  intros Hs H. destruct (EnqueueWork env item q) as [q' res] eqn:E. apply enqueue_rows in E as [->|(r & Hn & -> & Hk & Hd & _ & _ & Hx)]; [done|].
  assert (∀ id r0 key, q_rows q !! id = Some r0 → live r0 = true → w_kind r0 = w_kind r → w_dedup r0 = Some key → w_dedup r = Some key → False) as Hfree.
  { intros id r0 key E0 Hl Hk' Hd0 Hd'. rewrite Hd in Hd'. unfold nullable in Hd'. destruct (beq (wi_DedupKey item) []) eqn:B; [done|].
    b2p. injection Hd' as <-. apply (existing_none env (prepared env item) q id r0); cbn; congruence. }
  intros id1 id2 r1 r2 key. cbn.
  rewrite !lookup_insert_Some. intros [[<- <-]|[_ E1]] [[<- <-]|[_ E2]] L1 L2 K D1 D2; [done| | |by eapply H];
    exfalso; eapply Hfree; try done.
Qed.

Definition reads_answered (op : queue_op) : Prop := match op with OpEnqueue env _ => en_select env = true | _ => True end.

Lemma run_op_keys op q : reads_answered op → live_keys_unique q → live_keys_unique (run_op op q).1.
Proof.
  intros Ha H. destruct (run_op_rows op q) as [He|(env & item & ->)]; [by eapply live_keys_evolve|]. by apply enqueue_keys.
Qed.

(** The property of a run follows from that of a call. *)
Lemma run_ops_ind (I : queue → Prop) (P : queue_op → Prop) ops q :
  (∀ op q, P op → I q → I (run_op op q).1) → Forall P ops → I q → I (run_ops ops q).1.
Proof.
  intros Hstep H. revert q. induction H as [|op ops Hop _ IH]; intros q Hq; [done|]. cbn [run_ops].
  specialize (Hstep _ q Hop Hq). destruct (run_op op q) as [q1 handed]. specialize (IH q1 Hstep). revert IH. by destruct (run_ops ops q1).
Qed.

(** As long as the query for the key is answered, no run of calls (enqueues,
    claims, completions, failures, sweeps, restarts) leaves two live items of one
    kind with one key, and an enqueue for a key that is live gives back the id of
    the item that has it and changes nothing. *)
Theorem one_live_item_per_key ops q : Forall reads_answered ops → live_keys_unique q →
  let q' := (run_ops ops q).1 in
  live_keys_unique q' ∧
  ∀ env item id r, en_select env = true → q_rows q' !! id = Some r → live r = true → w_kind r = wi_Kind item → wi_Kind item ≠ [] →
    wi_DedupKey item ≠ [] → w_dedup r = Some (wi_DedupKey item) → EnqueueWork env item q' = (q', Ok id).
Proof.
  intros Ha H q'. assert (live_keys_unique q') as Hq by (apply (run_ops_ind live_keys_unique reads_answered); [apply run_op_keys|done..]).
  split; [done|]. intros env item id r Hs E Hl Hk Hne Hd Hdk. unfold EnqueueWork. apply beq_false in Hne. rewrite Hne. cbv zeta.
  destruct (existing env (prepared env item) q') as [i|] eqn:X; [|exfalso; by eapply existing_none].
  apply existing_spec in X as [r' Hx]; [|done..]. apply limit1_elem, elem_of_select in Hx as [E' [K L']%andb_true_iff].
  apply same_key_true in K as [K1 K2]. cbn in K1, K2. by rewrite (Hq id i r r' (wi_DedupKey item)) by congruence.
Qed.

(** *** Attempts *)

(** The attempts the row with the id has left, [n] before there is one. *)
Definition left_for (id : bytes) (n : Z) (q : queue) : Z := match q_rows q !! id with Some r => attempts r | None => n end.

Definition allows (id : bytes) (n : Z) (op : queue_op) : Prop :=
  match op with OpEnqueue env item => wi_ID (prepared env item) = id → Z.max 1 (or_z (wi_MaxRetries item) 3) ≤ n | _ => True end.

Definition times (id : bytes) (ids : list bytes) : Z := Z.of_nat (length (filter (.= id) ids)).

Lemma left_evolves id n q q' : evolves (q_rows q) (q_rows q') → left_for id n q' ≤ left_for id n q.
Proof. intros H. specialize (H id). unfold left_for. destruct (q_rows q !! id), (q_rows q' !! id); cbn in H; try done. apply H. Qed.

Lemma times_app id l1 l2 : times id (l1 ++ l2) = times id l1 + times id l2.
Proof. unfold times. rewrite filter_app, length_app. lia. Qed.

Lemma attempts_nonneg r : 0 ≤ attempts r.
Proof. unfold attempts. destruct (w_state r); lia. Qed.

Lemma times_single id i : times id [i] = if decide (i = id) then 1 else 0.
Proof. unfold times. rewrite filter_cons, filter_nil. by case_decide. Qed.

Lemma quiet_left id n q q' : evolves (q_rows q) (q_rows q') → left_for id n q' + times id [] ≤ left_for id n q.
Proof. intros H%(left_evolves id n). unfold times. cbn. lia. Qed.

Lemma enqueue_left id n env item q : allows id n (OpEnqueue env item) → left_for id n (EnqueueWork env item q).1 + times id [] ≤ left_for id n q.
Proof.
  intros Ha. destruct (EnqueueWork env item q) as [q' res] eqn:E.
  apply enqueue_rows in E as [->|(r & Hn & -> & _ & _ & Hr & Hm & _)]; [by apply quiet_left|].
  destruct (decide (wi_ID (prepared env item) = id)) as [D|D]; unfold left_for, times; cbn -[prepared].
  - specialize (Ha D). rewrite <- D, lookup_insert_eq, Hn. unfold attempts. rewrite Hr, Hm. destruct (w_state r); lia.
  - rewrite lookup_insert_ne by done. lia.
Qed.

Lemma claim_left id n env kinds now q :
  left_for id n (run_op (OpClaim env kinds now) q).1 + times id (option_list (run_op (OpClaim env kinds now) q).2) ≤ left_for id n q.
Proof.
  cbn. destruct (ClaimWork env kinds now q) as [q' res] eqn:E. apply claim_cases in E as [[-> Hno]|(_ & i & r & E & Hc & _ & -> & ->)].
  { destruct res as [[w|]|]; cbn; [by destruct (Hno w)|by apply quiet_left..]. }
  apply claimable_pending in Hc. cbn [fst snd wi_ID item_of]. change (option_list (Some i)) with [i]. rewrite times_single. unfold left_for. cbn [set_rows q_rows].
  destruct (decide (i = id)) as [->|D]; [|rewrite lookup_insert_ne by done; lia].
  rewrite lookup_insert_eq, E. unfold attempts. cbn. rewrite Hc. lia.
Qed.

Lemma run_op_left id n op q : allows id n op → left_for id n (run_op op q).1 + times id (option_list (run_op op q).2) ≤ left_for id n q.
Proof.
  intros Ha. destruct op; [by apply enqueue_left| | |apply claim_left| | | |]; apply quiet_left; try done.
  - apply complete_evolves.
  - apply fail_evolves.
  - apply sweep_evolves.
Qed.

Lemma run_ops_left id n ops q : Forall (allows id n) ops → left_for id n (run_ops ops q).1 + times id (run_ops ops q).2 ≤ left_for id n q.
Proof.
  intros H. revert q. induction H as [|op ops Hop _ IH]; intros q; [unfold times; cbn; lia|]. cbn [run_ops].
  pose proof (run_op_left id n op q Hop) as H1. destruct (run_op op q) as [q1 handed]. specialize (IH q1).
  destruct (run_ops ops q1) as [q2 ids]. cbn in *. rewrite times_app. lia.
Qed.

Lemma left_nonneg id n q : 0 ≤ n → 0 ≤ left_for id n q.
Proof. unfold left_for. destruct (q_rows q !! id); [intros _; apply attempts_nonneg|done]. Qed.

(** C37. An item is handed out at most as often as its limit of retries says (once
    for a limit below one, three times by default), through failures, expired
    leases and restarts. *)
Theorem attempts_bounded id n ops limits frozen : 0 ≤ n → Forall (allows id n) ops →
  times id (run_ops ops (mkQueue ∅ limits frozen)).2 ≤ n.
Proof.
  intros Hn H. pose proof (run_ops_left id n ops (mkQueue ∅ limits frozen) H) as Hl.
  pose proof (left_nonneg id n (run_ops ops (mkQueue ∅ limits frozen)).1 Hn).
  assert (left_for id n (mkQueue ∅ limits frozen) = n) by done. lia.
Qed.
End Runs.

(** ** What a claim gives *)

Lemma count_claimed kind q id r now : q_rows q !! id = Some r → w_state r = PENDING → w_kind r = kind →
  count (claimed_of kind) (set_rows <[id := row_claimed now r]> q) = count (claimed_of kind) q + 1.
Proof.
  intros E Hs Hk. unfold count, select. rewrite !length_map_to_list. cbn [set_rows q_rows].
  rewrite map_filter_insert_True by (unfold claimed_of; cbn; by rewrite Hk, beq_refl). rewrite map_size_insert_None; [lia|].
  apply map_lookup_filter_None. right. intros r' E'. rewrite E in E'. injection E' as <-. cbn. unfold claimed_of, is_state. rewrite Hs.
  by rewrite andb_false_r.
Qed.

Lemma exclusion_spec q r limit : claimExclusionLocked q r = true → q_limits q !! w_kind r = Some limit → count (claimed_of (w_kind r)) q < limit.
Proof.
  unfold claimExclusionLocked. rewrite forallb_forall. intros H E. specialize (H (w_kind r, limit)).
  rewrite <- list_elem_of_In, elem_of_map_to_list in H. specialize (H E). cbn in H. rewrite beq_refl in H. cbn in H. b2p. done.
Qed.

Lemma exclusion_free q r : q_limits q !! w_kind r = None → claimExclusionLocked q r = true.
Proof.
  intros E. unfold claimExclusionLocked. apply forallb_forall. intros [k limit] H%list_elem_of_In%elem_of_map_to_list. cbn.
  destruct (beq (w_kind r) k) eqn:B; [|done]. b2p. congruence.
Qed.

Definition claim_env_ok (env : claim_env) : bool := cl_begin env && cl_select env && cl_update env && cl_commit env.

Section Claims.
Context `{L : SqlLike}.

(** A claim over a store that is not frozen gives a pending item that is due
    and of a kind asked for, with no eligible item of a lower priority number, or
    of the same and older, before it; it marks that row alone, and the claims of
    the kind stay within its limit.  It gives none only when no row is eligible. *)
Theorem claim_takes_first_due env kinds now q : q_frozen q = false → claim_env_ok env = true →
  (∃ id r, let r' := row_claimed now r in
     ClaimWork env kinds now q = (set_rows <[id := r']> q, Ok (Some (item_of id r'))) ∧
     q_rows q !! id = Some r ∧ w_state r = PENDING ∧ w_scheduled r ≤ now ∧ kinds_clause kinds (w_kind r) = true ∧
     (∀ id2 r2, q_rows q !! id2 = Some r2 → claimable kinds now q r2 = true → before r2 r = false) ∧
     (∀ limit, q_limits q !! w_kind r = Some limit → count (claimed_of (w_kind r)) (set_rows <[id := r']> q) ≤ limit)) ∨
  (ClaimWork env kinds now q = (q, Ok None) ∧ ∀ id r, q_rows q !! id = Some r → claimable kinds now q r = false).
Proof.
  intros Hf He. unfold claim_env_ok in He. apply andb_true_iff in He as [[[H1 H2]%andb_true_iff H3]%andb_true_iff H4].
  destruct (ClaimWork env kinds now q) as [q' res] eqn:E. pose proof E as E0.
  apply claim_cases in E as [[-> Hno]|(_ & id & r & E & Hc & Hmin & -> & ->)].
  - right. unfold ClaimWork, guarded in E0. rewrite Hf, H1, H2, H3, H4 in E0. cbn [negb orb] in E0.
    destruct (limit1 _ _) as [[id r]|] eqn:Hl; [injection E0 as _ <-; by destruct (Hno (item_of id (row_claimed now r)))|].
    injection E0 as <-. split; [done|]. intros id r E. apply not_true_is_false. intros Hc.
    destruct (limit1_some (cl_tie env) (firsts (select (claimable kinds now q) (q_rows q)))) as [x Hx]; [|congruence].
    apply firsts_nonempty. intros Hn. eapply (not_elem_of_nil (id, r)). rewrite <- Hn. by apply elem_of_select.
  - left. exists id, r. pose proof (claimable_pending _ _ _ _ Hc) as Hs. unfold claimable in Hc. b2p. repeat split; try done.
    intros limit Hlim. rewrite count_claimed by done. pose proof (exclusion_spec q r limit ltac:(done) Hlim). lia.
Qed.
End Claims.

(** ** Counters within 64 bits, and expiry *)

(** The retry count of a row that is live is below its limit, so that it never
    leaves the 64 bits of its column. *)
Record row_ok (r : work_row) : Prop := {
  ok_retry : 0 ≤ w_retry r ≤ Z.max 1 (w_max r);
  ok_max : int64_ok (w_max r) = true;
  ok_live : live r = true → w_retry r < Z.max 1 (w_max r);
}.
Definition rows_ok (q : queue) : Prop := map_Forall (λ _, row_ok) (q_rows q).

(** The fields of a Go item are 64-bit integers. *)
Definition typed (op : queue_op) : Prop := match op with OpEnqueue _ item => int64_ok (wi_MaxRetries item) = true | _ => True end.

Lemma row_ok_claimed now r : w_state r = PENDING → row_ok r → row_ok (row_claimed now r).
Proof. intros Hs []. split; cbn; try done. intros _. apply ok_live0. unfold live. by rewrite Hs. Qed.
Lemma row_ok_done now r : row_ok r → row_ok (row_done now r).
Proof. intros []. split; done. Qed.
Lemma row_ok_failed now msg r r' : w_state r = CLAIMED → row_failed now msg r = Some r' → row_ok r → row_ok r'.
Proof.
  intros Hs Hf []. unfold row_failed in Hf. destruct (_ && _); [|done]. injection Hf as <-.
  assert (w_retry r < Z.max 1 (w_max r)) by (apply ok_live0; unfold live; by rewrite Hs).
  split; cbn; [lia|done|]. unfold live; cbn. destruct (Z.leb_spec (w_max r) (w_retry r + 1)); [done|lia].
Qed.
Lemma row_ok_swept now running id r r' : sweep_row now running id r = Some r' → row_ok r → row_ok r'.
Proof.
  unfold sweep_row. destruct (expired now running id r) eqn:E; [|by intros [= <-]]. apply row_ok_failed.
  unfold expired in E. b2p. by apply is_state_true.
Qed.
#[export] Hint Resolve row_ok_claimed row_ok_done row_ok_failed row_ok_swept : go.

Lemma or_z_int64 x d : int64_ok x = true → int64_ok d = true → int64_ok (or_z x d) = true.
Proof. unfold or_z. by destruct (x =? 0). Qed.

Section Widths.
Context `{Q : Sqlite} `{L : SqlLike}.

Lemma run_op_ok op q : typed op → rows_ok q → rows_ok (run_op op q).1.
Proof.
  intros Ht H. unfold rows_ok in *. destruct op; cbn -[EnqueueWork ClaimWork CompleteWork FailWork SweepExpiredLeases]; try done.
  - destruct (EnqueueWork env item q) as [q' res] eqn:E. apply enqueue_rows in E as [->|(r & _ & -> & _ & _ & Hr & Hm & _)]; [done|].
    cbn -[prepared]. apply map_Forall_insert_2; [|done]. split; rewrite ?Hr, ?Hm; [lia|by apply or_z_int64|lia].
  - destruct (ClaimWork env kinds now q) as [q' res] eqn:E. apply claim_cases in E as [[-> _]|(_ & id & r & E & Hc & _ & -> & ->)].
    + by destruct res as [[]|].
    + cbn. apply map_Forall_insert_2; [|done]. apply claimable_pending in Hc. apply row_ok_claimed; [done|]. by apply (H id).
  - unfold CompleteWork. destruct (guarded ok q); [|done]. destruct (claimed_row q id) as [r|] eqn:E; [|done].
    apply claimed_row_some in E as [E _]. cbn. apply map_Forall_insert_2; [|done]. apply row_ok_done. by apply (H id).
  - unfold FailWork. destruct (guarded ok q); [|done]. destruct (claimed_row q id) as [r|] eqn:E; [|done].
    apply claimed_row_some in E as [E Hs]. destruct (row_failed _ _ r) as [r'|] eqn:F; [|done]. cbn. apply map_Forall_insert_2; [|done].
    eapply row_ok_failed; [done..|]. by apply (H id).
  - destruct (SweepExpiredLeases _ _ _ _) as [q' res] eqn:E. apply sweep_rows in E as [->|[_ ->]]; [done|]. cbn.
    intros id r' E. rewrite map_lookup_imap in E. apply bind_Some in E as (r & E & Hr). eapply row_ok_swept; [done|]. by apply (H id).
Qed.

Lemma run_ops_ok ops q : Forall typed ops → rows_ok q → rows_ok (run_ops ops q).1.
Proof. apply (run_ops_ind rows_ok typed), run_op_ok. Qed.
End Widths.

(** The clock leaves room for the longest backoff. *)
Definition clock_ok (now : Z) : Prop := 0 ≤ now ≤ 9223372036854775807 - 64000.

Lemma backoff_bound r : 0 ≤ w_retry r → 1000 ≤ backoff r ≤ 64000.
Proof.
  intros H. unfold backoff, retryBackoffBaseMs, retryBackoffMaxShift. rewrite Z.shiftl_mul_pow2 by lia.
  pose proof (Z.pow_le_mono_r 2 0 (Z.min (w_retry r) 6)). pose proof (Z.pow_le_mono_r 2 (Z.min (w_retry r) 6) 6). lia.
Qed.

Lemma row_failed_some now msg r : clock_ok now → row_ok r → live r = true → is_Some (row_failed now msg r).
Proof.
  intros Hc [Hr Hm Hl] L. specialize (Hl L). pose proof (backoff_bound r). unfold clock_ok in Hc. unfold row_failed.
  assert (int64_ok (w_retry r + 1) = true ∧ int64_ok (now + backoff r) = true) as [-> ->]; [|by eexists].
  unfold int64_ok in *. b2p. split; apply andb_true_iff; rewrite !Z.leb_le; lia.
Qed.

(** What a sweep over rows in order does. *)
Lemma sweep_spec ok now running q : q_frozen q = false → ok = true → clock_ok now → rows_ok q →
  SweepExpiredLeases ok now running q =
    (set_rows (map_imap (sweep_row now running)) q, Ok (Z.of_nat (size (filter (λ kv, expired now running kv.1 kv.2 = true) (q_rows q))))).
Proof.
  intros Hf -> Hc Hok. unfold SweepExpiredLeases, guarded. rewrite Hf. rewrite bool_decide_true; [done|].
  intros id r E. unfold sweep_row. destruct (expired _ _ _ _) eqn:X; [|by eexists]. apply row_failed_some; [done|by apply (Hok id)|].
  unfold expired in X. b2p. unfold live. by erewrite (proj1 (is_state_true CLAIMED r)).
Qed.

(** The row of an expired claim after the sweep. *)
Lemma swept_expired now running id r r' : 0 ≤ w_retry r → expired now running id r = true → sweep_row now running id r = Some r' →
  w_kind r' = w_kind r ∧ w_retry r' = w_retry r + 1 ∧ w_error r' = expired_msg r ∧
  (w_max r ≤ w_retry r + 1 ∧ w_state r' = FAILED ∨
   w_retry r + 1 < w_max r ∧ w_state r' = PENDING ∧ now + 1000 ≤ w_scheduled r' ≤ now + 64000).
Proof.
  intros Hr He. unfold sweep_row. rewrite He. unfold row_failed. destruct (_ && _); [|done]. intros [= <-]. cbn. repeat split.
  pose proof (backoff_bound r Hr). destruct (Z.leb_spec (w_max r) (w_retry r + 1)); [left|right]; repeat split; lia.
Qed.

Lemma expired_spec now running id r : expired now running id r = true ↔ w_state r = CLAIMED ∧ w_claimed r + w_lease r < now ∧ id ∉ running.
Proof.
  unfold expired. rewrite !andb_true_iff, is_state_true, Z.ltb_lt, forallb_forall. split.
  - intros [[H1 H2] H]. repeat split; try done. intros Hin%list_elem_of_In. specialize (H _ Hin). b2p. done.
  - intros (H1 & H2 & H3). repeat split; try done. intros x Hx%list_elem_of_In. apply negb_true_iff, beq_false. congruence.
Qed.

Lemma not_swept now running id r : expired now running id r = false → sweep_row now running id r = Some r.
Proof. unfold sweep_row. by intros ->. Qed.

Lemma due_claimed `{L : SqlLike} q id r env now : q_frozen q = false → claim_env_ok env = true → q_rows q !! id = Some r →
  w_state r = PENDING → w_scheduled r ≤ now → q_limits q !! w_kind r = None → ∃ q2 w, ClaimWork env [] now q = (q2, Ok (Some w)).
Proof.
  intros Hf He E Hs Hd Hl. destruct (claim_takes_first_due env [] now q Hf He) as [(id1 & r1 & H & _)|[_ Hno]]; [by do 2 eexists|].
  specialize (Hno _ _ E). apply not_true_iff_false in Hno. destruct Hno. unfold claimable.
  rewrite (proj2 (is_state_true PENDING r) Hs), (proj2 (Z.leb_le _ _) Hd), exclusion_free by done. done.
Qed.

Section Expiry.
Context `{Q : Sqlite} `{L : SqlLike}.

(** A claim whose holder is gone is taken back by the first sweep after its
    lease: the item is failed for good when its attempts are used up, and else
    waits for at most the longest backoff, after which a claim is not refused
    for want of work; every other row is left alone. *)
Theorem expired_claim_recovered ops limits frozen now running id r :
  let q := (run_ops ops (mkQueue ∅ limits frozen)).1 in
  Forall typed ops → q_frozen q = false → clock_ok now →
  q_rows q !! id = Some r → w_state r = CLAIMED → w_claimed r + w_lease r < now → id ∉ running →
  ∃ q' n r', SweepExpiredLeases true now running q = (q', Ok n) ∧ 1 ≤ n ∧ q_rows q' !! id = Some r' ∧
    w_retry r' = w_retry r + 1 ∧ w_error r' = expired_msg r ∧
    (w_max r ≤ w_retry r + 1 ∧ w_state r' = FAILED ∨
     w_retry r + 1 < w_max r ∧ w_state r' = PENDING ∧ now + 1000 ≤ w_scheduled r' ≤ now + 64000 ∧
     ∀ env later_now, claim_env_ok env = true → now + 64000 ≤ later_now → q_limits q' !! w_kind r = None →
       ∃ q2 w, ClaimWork env [] later_now q' = (q2, Ok (Some w))) ∧
    (∀ id2, id2 ∈ running → q_rows q' !! id2 = q_rows q !! id2) ∧
    (∀ id2 r2, q_rows q !! id2 = Some r2 → w_state r2 ≠ CLAIMED ∨ now ≤ w_claimed r2 + w_lease r2 → q_rows q' !! id2 = Some r2).
Proof.
  intros q Ht Hf Hc E Hs Hexp Hrun.
  assert (rows_ok q) as Hok by (apply run_ops_ok; [done|apply map_Forall_empty]).
  assert (expired now running id r = true) as He by (by apply expired_spec).
  pose proof (sweep_spec true now running q Hf eq_refl Hc Hok) as Hsw.
  assert (is_Some (sweep_row now running id r)) as [r' Hr'].
  { unfold sweep_row. rewrite He. apply row_failed_some; [done|by apply (Hok id)|]. unfold live. by rewrite Hs. }
  destruct (swept_expired now running id r r') as (Hk & Hr & Hm & Hcase); [apply (Hok id r E)|done..|].
  assert (∀ id2 r2, q_rows q !! id2 = Some r2 → q_rows (set_rows (map_imap (sweep_row now running)) q) !! id2 = sweep_row now running id2 r2) as Hrow.
  { intros id2 r2 E2. cbn. by rewrite map_lookup_imap, E2. }
  eexists _, _, r'. split; [exact Hsw|]. rewrite (Hrow _ _ E). repeat split; try done.
  - pose proof (map_size_non_empty_iff (filter (λ kv, expired now running kv.1 kv.2 = true) (q_rows q))) as [_ Hz].
    assert (size (filter (λ kv, expired now running kv.1 kv.2 = true) (q_rows q)) ≠ 0%nat); [apply Hz|lia].
    intros Hn. eapply (map_filter_empty_not_lookup _ _ id r Hn); [exact He|done].
  - destruct Hcase as [[? ?]|(? & Hp & Hd)]; [by left|right]. repeat split; try done; try lia. intros env t Henv Ht' Hlim.
    eapply (due_claimed _ id r'); try done; [by rewrite (Hrow _ _ E)|lia|by rewrite Hk].
  - intros id2 Hin. destruct (q_rows q !! id2) as [r2|] eqn:E2; [|cbn; by rewrite map_lookup_imap, E2]. rewrite (Hrow _ _ E2).
    apply not_swept, not_true_is_false. rewrite expired_spec. naive_solver.
  - intros id2 r2 E2 Hnot. rewrite (Hrow _ _ E2). apply not_swept, not_true_is_false. rewrite expired_spec. naive_solver lia.
Qed.
End Expiry.
