(* ===== verification/Executor.v ===== *)
(** * internal/cognitive/workqueue.go: the workers of the queue

    The executor over the interface [QueueWork], which the store implements.  A
    worker is a program counter ([activity]); [advance] is its next critical
    section, channel operation or call, and a step of the system is one of
    these by any worker, or something the rest of the program does. *)

From stdpp Require Import gmap relations.
From S2P Require Import Prelude Lines GoStrings Tables WorkQueue WorkQueueFacts Holds.

(** ** The interface *)

Class QueueWork (Q : Type) := {
  qw_Enqueue : enqueue_env → WorkItem → Q → Q * result work_err bytes;
  qw_Claim : claim_env → list bytes → Z → Q → Q * result work_err (option WorkItem);
  qw_Complete : bool → Z → bytes → Q → Q * result work_err unit;
  qw_Fail : bool → Z → bytes → bytes → Q → Q * result work_err unit;
  qw_Sweep : bool → Z → list bytes → Q → Q * result work_err Z;
  qw_outside : Q → Q → Prop;              (** what the rest of the program does to the queue *)
  qw_restart : Q → Q;                     (** what is left of it after a restart *)
}.

(** What the executor relies on: [held q id] says that the item is claimed,
    [budget] how often work can still be handed out, and [idle] that nothing is
    due. *)
Class QueueLaws Q `{!QueueWork Q} := {
  held : Q → bytes → Prop;
  budget : Q → nat;
  idle : Q → Z → Prop;
  claim_fresh env kinds now q q' w : qw_Claim env kinds now q = (q', Ok (Some w)) →
    ¬ held q (wi_ID w) ∧ held q' (wi_ID w) ∧ (budget q' < budget q)%nat;
  claim_keeps env kinds now q id : held q id → held (qw_Claim env kinds now q).1 id;
  claim_budget env kinds now q : (budget (qw_Claim env kinds now q).1 ≤ budget q)%nat;
  claim_none env now q q' : claim_env_ok env = true → qw_Claim env [] now q = (q', Ok None) → q' = q ∧ idle q now;
  claim_answers env kinds now q q' e : claim_env_ok env = true → qw_Claim env kinds now q ≠ (q', Err e);
  complete_keeps ok now q id id' : id' ≠ id → held q id' → held (qw_Complete ok now id q).1 id';
  complete_budget ok now q id : (budget (qw_Complete ok now id q).1 ≤ budget q)%nat;
  fail_keeps ok now q id msg id' : id' ≠ id → held q id' → held (qw_Fail ok now id msg q).1 id';
  fail_budget ok now q id msg : (budget (qw_Fail ok now id msg q).1 ≤ budget q)%nat;
  sweep_keeps ok now q running id : id ∈ running → held q id → held (qw_Sweep ok now running q).1 id;
  sweep_budget ok now q running : (budget (qw_Sweep ok now running q).1 ≤ budget q)%nat;
  enqueue_keeps env item q id : held q id → held (qw_Enqueue env item q).1 id;
  outside_keeps q q' id : qw_outside q q' → held q id → held q' id;
}.

(** ** The executor *)

Inductive activity :=
| Waiting                                       (** in the select of [Start] *)
| Sweeping                                      (** [pass] entered *)
| Looking                                       (** at the head of its loop *)
| Taken (w : WorkItem)                          (** claimed, [runOne] about to be called *)
| Handling (w : WorkItem) (hold : option Z)     (** in the handler, with its hold on the foreground *)
| Handled (w : WorkItem) (err : option bytes)   (** the handler is back *)
| Settled (w : WorkItem).                       (** [runOne] returned *)

Record shared (Q : Type) := mkShared {
  x_q : Q;
  x_handlers : gmap bytes nat;
  x_running : gset bytes;
  x_poke : bool;                                (** the channel of capacity 1 *)
  x_stop : bool;                                (** the closed channel, or the context *)
  x_holds : option Holds;
}.
Arguments mkShared {Q}.
Arguments x_q {Q}.
Arguments x_handlers {Q}.
Arguments x_running {Q}.
Arguments x_poke {Q}.
Arguments x_stop {Q}.
Arguments x_holds {Q}.

(** How a handler ends. *)
Inductive outcome := Returns (err : option bytes) | Panics (what : bytes).

(** What the machine does in one turn of a worker. *)
Record turn := mkTurn { tn_tick : bool; tn_ok : bool; tn_now : Z; tn_claim : claim_env; tn_outcome : outcome }.

Definition handlerFor (handlers : gmap bytes nat) (kind : bytes) : option nat :=
  match handlers !! kind with
  | Some h => Some h
  | None =>
    match Index kind (bs ".") with
    | Some i => if (0 <? i)%nat then handlers !! (take (i + 1) kind ++ bs "*") else None
    | None => None
    end
  end.

Definition RegisterHandler (kinds : list bytes) (h : nat) (handlers : gmap bytes nat) : gmap bytes nat :=
  foldl (λ m k, <[k := h]> m) handlers kinds.

(** [NewExecutor] over a queue, and the workers of [Start] after [SetWorkers]. *)
Definition NewExecutor {Q} (q : Q) (holds : option Holds) : shared Q := mkShared q ∅ ∅ false false holds.
Definition SetWorkers (n : nat) : nat := if (n <? 1)%nat then 1 else n.
Definition Start (workers : nat) : gmap nat activity := gset_to_gmap Waiting (set_seq 0 (if (workers <? 1)%nat then 1 else workers)).

Section Executor.
Context `{QW : QueueWork Q}.

Definition with_q (f : Q → Q) (s : shared Q) : shared Q := mkShared (f (x_q s)) (x_handlers s) (x_running s) (x_poke s) (x_stop s) (x_holds s).
Definition with_running (f : gset bytes → gset bytes) (s : shared Q) : shared Q :=
  mkShared (x_q s) (x_handlers s) (f (x_running s)) (x_poke s) (x_stop s) (x_holds s).
Definition with_poke (b : bool) (s : shared Q) : shared Q := mkShared (x_q s) (x_handlers s) (x_running s) b (x_stop s) (x_holds s).
Definition with_holds (h : option Holds) (s : shared Q) : shared Q := mkShared (x_q s) (x_handlers s) (x_running s) (x_poke s) (x_stop s) h.

(** [Wake]. *)
Definition Wake : shared Q → shared Q := with_poke true.

(** The sweep at the start of [pass]. *)
Definition pass_sweep (t : turn) (s : shared Q) : shared Q :=
  with_q (λ q, (qw_Sweep (tn_ok t) (tn_now t) (elements (x_running s)) q).1) s.

(** One claim of the loop of [pass], and the poke after it. *)
Definition pass_claim (t : turn) (s : shared Q) : activity * shared Q :=
  match qw_Claim (tn_claim t) [] (tn_now t) (x_q s) with
  | (q, Ok (Some w)) => (Taken w, with_poke true (with_running ({[wi_ID w]} ∪.) (with_q (λ _, q) s)))
  | (q, _) => (Waiting, with_q (λ _, q) s)
  end.

Definition no_handler (kind : bytes) : bytes := bs "no handler registered for kind " ++ kind.
Definition work_hold (w : WorkItem) : bytes := bs "work: " ++ wi_Kind w.

(** [runOne] up to the call of the handler. *)
Definition runOne_start (t : turn) (w : WorkItem) (s : shared Q) : activity * shared Q :=
  match handlerFor (x_handlers s) (wi_Kind w) with
  | None => (Settled w, with_q (λ q, (qw_Fail (tn_ok t) (tn_now t) (wi_ID w) (no_handler (wi_Kind w)) q).1) s)
  | Some _ =>
    match x_holds s with
    | None => (Handling w None, s)
    | Some h => let '(h', id) := Acquire h (work_hold w) in (Handling w (Some id), with_holds (Some h') s)
    end
  end.

(** [invokeHandler] after the handler: a panic is an error, and the hold goes. *)
Definition outcome_err (o : outcome) : option bytes := match o with Returns err => err | Panics what => Some (bs "handler panic: " ++ what) end.
Definition invokeHandler_end (t : turn) (w : WorkItem) (hold : option Z) (s : shared Q) : activity * shared Q :=
  (Handled w (outcome_err (tn_outcome t)),
   match hold with Some id => with_holds ((λ h, release h id) <$> x_holds s) s | None => s end).

(** [runOne] after it. *)
Definition runOne_end (t : turn) (w : WorkItem) (err : option bytes) (s : shared Q) : shared Q :=
  match err with
  | None => with_q (λ q, (qw_Complete (tn_ok t) (tn_now t) (wi_ID w) q).1) s
  | Some msg => with_q (λ q, (qw_Fail (tn_ok t) (tn_now t) (wi_ID w) msg q).1) s
  end.

Definition advance (t : turn) (a : activity) (s : shared Q) : activity * shared Q :=
  match a with
  | Waiting => if tn_tick t then (Sweeping, s) else if x_poke s then (Sweeping, with_poke false s) else (Waiting, s)
  | Sweeping => (Looking, pass_sweep t s)
  | Looking => if x_stop s then (Waiting, s) else pass_claim t s
  | Taken w => runOne_start t w s
  | Handling w hold => invokeHandler_end t w hold s
  | Handled w err => (Settled w, runOne_end t w err s)
  | Settled w => (Looking, with_running (.∖ {[wi_ID w]}) s)
  end.

(** [Enqueue]. *)
Definition Enqueue (env : enqueue_env) (kind payload key source : bytes) (priority scheduled lease : Z) (s : shared Q) :
    shared Q * result work_err bytes :=
  match qw_Enqueue env (mkItem [] kind payload key source [] priority scheduled 0 lease 0 0 0 [] 0) (x_q s) with
  | (q, Err e) => (with_q (λ _, q) s, Err e)
  | (q, Ok id) => (Wake (with_q (λ _, q) s), Ok id)
  end.

(** ** The system *)

(** The executor's shared state, its workers, and the holds of others. *)
Record system := mkSystem { sy_shared : shared Q; sy_workers : gmap nat activity; sy_others : gset Z }.

Inductive sys_step : system → system → Prop :=
| ss_worker s ws o i a t : ws !! i = Some a →
    sys_step (mkSystem s ws o) (mkSystem (advance t a s).2 (<[i := (advance t a s).1]> ws) o)
| ss_exit s ws o i : ws !! i = Some Waiting → x_stop s = true → sys_step (mkSystem s ws o) (mkSystem s (delete i ws) o)
| ss_enqueue s ws o env kind payload key source priority scheduled lease :
    sys_step (mkSystem s ws o) (mkSystem (Enqueue env kind payload key source priority scheduled lease s).1 ws o)
| ss_store_enqueue s ws o env item : sys_step (mkSystem s ws o) (mkSystem (with_q (λ q, (qw_Enqueue env item q).1) s) ws o)
| ss_outside s ws o q : qw_outside (x_q s) q → sys_step (mkSystem s ws o) (mkSystem (with_q (λ _, q) s) ws o)
| ss_wake s ws o : sys_step (mkSystem s ws o) (mkSystem (Wake s) ws o)
| ss_stop s ws o : sys_step (mkSystem s ws o)
    (mkSystem (mkShared (x_q s) (x_handlers s) (x_running s) (x_poke s) true (x_holds s)) ws o)
| ss_register s ws o kinds h : sys_step (mkSystem s ws o)
    (mkSystem (mkShared (x_q s) (RegisterHandler kinds h (x_handlers s)) (x_running s) (x_poke s) (x_stop s) (x_holds s)) ws o)
| ss_acquire s ws o h why : x_holds s = Some h →
    sys_step (mkSystem s ws o) (mkSystem (with_holds (Some (Acquire h why).1) s) ws ({[(Acquire h why).2]} ∪ o))
| ss_release s ws o h id : x_holds s = Some h → id ∈ o →
    sys_step (mkSystem s ws o) (mkSystem (with_holds (Some (release h id)) s) ws (o ∖ {[id]}))
| ss_deliver s ws o h h' : x_holds s = Some h → deliver h = Some h' → sys_step (mkSystem s ws o) (mkSystem (with_holds (Some h') s) ws o)
| ss_restart s ws o n handlers : sys_step (mkSystem s ws o)
    (mkSystem (mkShared (qw_restart (x_q s)) handlers ∅ false false (Some zero_holds)) (Start n) ∅).
End Executor.
