(* ===== verification/ExecutorFacts.v ===== *)
(** * What the workers keep

    Against the interface of the queue: no two workers work on one item, a
    handler runs under a hold on the foreground, and a pass ends with nothing
    due.  The store of WorkQueue.v implements the interface. *)

From stdpp Require Import gmap relations.
From S2P Require Import Prelude Lines GoStrings Tables WorkQueue WorkQueueFacts Holds Executor.

(** The item a worker has claimed and not settled. *)
Definition working (a : activity) : option bytes :=
  match a with Taken w | Handling w _ | Handled w _ => Some (wi_ID w) | _ => None end.

Lemma Start_waiting n i a : Start n !! i = Some a → a = Waiting.
Proof. unfold Start. intros [_ H]%lookup_gset_to_gmap_Some. done. Qed.

Lemma acquire_active h why : (Acquire h why).1.(active) = <[(Acquire h why).2 := why]> (active h) ∧ seq (Acquire h why).1 = (Acquire h why).2 ∧
  (Acquire h why).2 = u64 (seq h + 1).
Proof. unfold Acquire, enqueueEdgeLocked. cbn. by destruct (_ || _). Qed.
Lemma release_active h id : active (release h id) = delete id (active h) ∧ seq (release h id) = seq h.
Proof. unfold release, enqueueEdgeLocked. cbn. by destruct (_ || _). Qed.
Lemma deliver_same h h' : deliver h = Some h' → active h' = active h ∧ seq h' = seq h.
Proof. unfold deliver. intros H. repeat case_match; simplify_eq; done. Qed.

Section Facts.
Context `{QL : QueueLaws Q}.

(** ** One worker per item *)

Definition works (ws : gmap nat activity) (i : nat) (id : bytes) : Prop := ∃ a, ws !! i = Some a ∧ working a = Some id.

(** No worker is still to forget an item that another has claimed again.  A
    failed item waits for a second at least, so this asks that a worker gets
    from settling an item to forgetting it within that time. *)
Definition prompt (y : system (Q := Q)) : Prop :=
  ∀ i j w, sy_workers y !! i = Some (Settled w) → i ≠ j → ¬ works (sy_workers y) j (wi_ID w).

Record sys_ok (y : system (Q := Q)) : Prop := {
  ok_held i id : works (sy_workers y) i id → held (x_q (sy_shared y)) id ∧ id ∈ x_running (sy_shared y);
  ok_alone i j id : works (sy_workers y) i id → works (sy_workers y) j id → i = j;
}.

Lemma works_insert ws i a j id : works (<[i := a]> ws) j id ↔ (i = j ∧ working a = Some id) ∨ (i ≠ j ∧ works ws j id).
Proof.
  unfold works. destruct (decide (i = j)) as [->|D].
  - rewrite lookup_insert_eq. naive_solver.
  - rewrite lookup_insert_ne by done. naive_solver.
Qed.

(** A step of one worker, told by what it does to the claims: it goes on with
    its item or drops it, or it takes up one that nobody held; the items of the
    others stay held and in the set. *)
Lemma step_ok s ws o i a a' s' : sys_ok (mkSystem s ws o) → ws !! i = Some a →
  (∀ id, working a' = Some id → held (x_q s') id ∧ id ∈ x_running s' ∧ (working a = Some id ∨ ¬ held (x_q s) id)) →
  (∀ j id, i ≠ j → works ws j id → held (x_q s) id → id ∈ x_running s → held (x_q s') id ∧ id ∈ x_running s') →
  sys_ok (mkSystem s' (<[i := a']> ws) o).
Proof.
  intros [Hh Ha] Hi Hown Hother. cbn in Hh, Ha. split; cbn.
  - intros j id [[<- Hw]|[D Hw]]%works_insert; [by destruct (Hown id Hw) as (?&?&_)|]. destruct (Hh j id Hw). by eapply Hother.
  - assert (∀ j id, i ≠ j → works ws j id → working a' ≠ Some id) as Hno.
    { intros j id D Hw Hw'. destruct (Hown id Hw') as (_ & _ & [E|E]).
      - apply D, (Ha i j id); [by exists a|done].
      - by destruct (Hh j id Hw). }
    intros j k id [[<- H1]|[D1 H1]]%works_insert [[<- H2]|[D2 H2]]%works_insert; [done| | |by eapply Ha].
    + by destruct (Hno k id D2 H2).
    + by destruct (Hno j id D1 H1).
Qed.

(** A step that leaves workers alone. *)
Lemma frame_ok s ws o s' o' : sys_ok (mkSystem s ws o) → (∀ id, held (x_q s) id → held (x_q s') id) → x_running s ⊆ x_running s' →
  sys_ok (mkSystem s' ws o').
Proof. intros [Hh Ha] Hq Hr. split; cbn in *; [|done]. intros i id Hw. destruct (Hh i id Hw). split; [by apply Hq|by apply Hr]. Qed.

Lemma advance_ok s ws o i a t : prompt (mkSystem s ws o) → sys_ok (mkSystem s ws o) → ws !! i = Some a →
  sys_ok (mkSystem (advance t a s).2 (<[i := (advance t a s).1]> ws) o).
Proof.
  intros Hp Hok Hi. pose proof (ok_alone _ Hok) as Halone. cbn in Halone.
  assert (∀ id, working a = Some id → held (x_q s) id ∧ id ∈ x_running s) as Hmine by (intros id Hw; apply (ok_held _ Hok i); by exists a).
  assert (∀ j id id', working a = Some id → i ≠ j → works ws j id' → id' ≠ id) as Hapart.
  { intros j id id' Hw D Hw' ->. apply D, (Halone i j id); [by exists a|done]. }
  apply (step_ok s ws o i a); [done..| |]; destruct a as [| | |w|w hold|w err|w]; cbn -[handlerFor]; cbn in Hmine, Hapart.
  - destruct (tn_tick t), (x_poke s); done.
  - done.
  - destruct (x_stop s); [done|]. unfold pass_claim. destruct (qw_Claim _ _ _ _) as [q [[w|]|]] eqn:E; [|done..]. cbn. intros id [= <-].
    destruct (claim_fresh _ _ _ _ _ _ E) as (H1 & H2 & _). split; [done|]. split; [set_solver|by right].
  - unfold runOne_start. destruct (handlerFor _ _); [|done]. destruct (x_holds s) as [h|]; [destruct (Acquire h _)|]; cbn; intros id Hid;
      destruct (Hmine id Hid); auto.
  - intros id Hid. destruct (Hmine id Hid). destruct hold; cbn; auto.
  - done.
  - done.
  - destruct (tn_tick t), (x_poke s); done.
  - intros j id _ _ Hh Hr. split; [|done]. apply sweep_keeps; [by apply elem_of_elements|done].
  - intros j id _ _ Hh Hr. destruct (x_stop s); [done|]. unfold pass_claim.
    pose proof (claim_keeps (tn_claim t) [] (tn_now t) (x_q s) id Hh) as Hk. destruct (qw_Claim _ _ _ _) as [q [[w|]|]]; cbn in *; [|done..].
    split; [done|set_solver].
  - intros j id D Hw Hh Hr. unfold runOne_start. destruct (handlerFor _ _); cbn.
    + by destruct (x_holds s).
    + split; [|done]. apply fail_keeps; [|done]. by eapply Hapart.
  - intros j id D Hw Hh Hr. destruct hold; done.
  - intros j id D Hw Hh Hr. destruct err; cbn; (split; [|done]); [apply fail_keeps|apply complete_keeps]; try done; by eapply Hapart.
  - intros j id D Hw Hh Hr. split; [done|]. apply elem_of_difference. split; [done|]. intros ->%elem_of_singleton. by apply (Hp i j w).
Qed.

Lemma sys_step_ok y y' : prompt y → sys_ok y → sys_step y y' → sys_ok y'.
Proof.
  intros Hp Hok Hs. destruct Hs.
  - by apply advance_ok.
  - destruct Hok as [Hh Ha]. split; cbn in *; intros *; intros (b & [_ Hb]%lookup_delete_Some & Hw).
    + apply (Hh i0). by exists b.
    + intros (b' & [_ Hb']%lookup_delete_Some & Hw'). eapply Ha; [by exists b|by exists b'].
  - apply (frame_ok s _ o); [done|..]; unfold Enqueue; pose proof (enqueue_keeps env (mkItem [] kind payload key source [] priority scheduled 0 lease 0 0 0 [] 0) (x_q s)) as Hk;
      destruct (qw_Enqueue _ _ _) as [q []]; cbn in *; done.
  - apply (frame_ok s _ o); [done|intros id; apply enqueue_keeps|done].
  - apply (frame_ok s _ o); [done|intros id; by apply outside_keeps|done].
  - by apply (frame_ok s _ o).
  - by apply (frame_ok s _ o).
  - by apply (frame_ok s _ o).
  - by apply (frame_ok s _ o).
  - by apply (frame_ok s _ o).
  - by apply (frame_ok s _ o).
  - split; cbn; unfold works; intros *; intros (b & ->%Start_waiting & [=]).
Qed.

(** ** The foreground *)

(** Fewer holds were taken than the counter can tell apart. *)
Definition room (y : system (Q := Q)) : Prop := ∀ h, x_holds (sy_shared y) = Some h → seq h + 1 < two64.

Definition handling (ws : gmap nat activity) (i : nat) (w : WorkItem) (id : Z) : Prop := ws !! i = Some (Handling w (Some id)).

Record fore_ok (y : system (Q := Q)) : Prop := {
  fo_hold i w id : handling (sy_workers y) i w id → ∃ h, x_holds (sy_shared y) = Some h ∧ active h !! id = Some (work_hold w);
  fo_range h id : x_holds (sy_shared y) = Some h → is_Some (active h !! id) ∨ id ∈ sy_others y → id ≤ seq h;
  fo_seq h : x_holds (sy_shared y) = Some h → 0 ≤ seq h;
  fo_others i w id : handling (sy_workers y) i w id → id ∉ sy_others y;
  fo_distinct i j w w' id : handling (sy_workers y) i w id → handling (sy_workers y) j w' id → i = j;
}.

Lemma handling_insert ws i a j w id : handling (<[i := a]> ws) j w id ↔ (i = j ∧ a = Handling w (Some id)) ∨ (i ≠ j ∧ handling ws j w id).
Proof.
  unfold handling. destruct (decide (i = j)) as [->|D].
  - rewrite lookup_insert_eq. naive_solver.
  - rewrite lookup_insert_ne by done. naive_solver.
Qed.

(** The holds stay and no worker enters a handler. *)
Lemma fore_frame s ws o s' ws' : fore_ok (mkSystem s ws o) → x_holds s' = x_holds s →
  (∀ i w id, handling ws' i w id → handling ws i w id) → fore_ok (mkSystem s' ws' o).
Proof. intros [H1 H2 H3 H4 H5] Hh Hw. split; cbn in *; rewrite ?Hh; eauto. Qed.

Lemma acquire_fresh h why : 0 ≤ seq h → seq h + 1 < two64 → (Acquire h why).2 = seq h + 1.
Proof. intros H1 H2. destruct (acquire_active h why) as (_ & _ & ->). apply u64_small. lia. Qed.

Lemma fore_acquire s ws o h why : fore_ok (mkSystem s ws o) → room (mkSystem s ws o) → x_holds s = Some h →
  let id := (Acquire h why).2 in
  id ∉ o ∧ active h !! id = None ∧
  (∀ i w id, handling ws i w id → active (Acquire h why).1 !! id = Some (work_hold w)) ∧
  ∀ id', is_Some (active (Acquire h why).1 !! id') ∨ id' ∈ {[id]} ∪ o → id' ≤ seq (Acquire h why).1.
Proof.
  intros [H1 H2 H3 H4 H5] Hroom Hh id. specialize (Hroom h Hh). pose proof (H3 h Hh) as Hs.
  pose proof (acquire_fresh h why Hs Hroom) as Hid. destruct (acquire_active h why) as (Ea & Eq & _). fold id in Ea, Eq, Hid.
  generalize dependent id. intros id Hid Ea Eq. cbn [sy_shared sy_workers sy_others] in *.
  assert (active h !! id = None) as Hn.
  { apply eq_None_not_Some. intros Hin. pose proof (H2 h id Hh (or_introl Hin)). lia. }
  repeat split; try done.
  - intros Hin. pose proof (H2 h id Hh (or_intror Hin)). lia.
  - intros i w id0 Hw. destruct (H1 _ _ _ Hw) as (h0 & Hh0 & Hact). simplify_eq. rewrite Ea, lookup_insert_ne; [done|congruence].
  - intros id' Hin. rewrite Eq. destruct (decide (id' = id)) as [->|D]; [lia|]. assert (id' ≤ seq h); [|lia]. apply (H2 h); [done|].
    destruct Hin as [Hin|Hin]; [left|right; set_solver]. by rewrite Ea, lookup_insert_ne in Hin.
Qed.

Lemma fore_release s ws o h idr o' ws' : fore_ok (mkSystem s ws o) → x_holds s = Some h → o' ⊆ o →
  (∀ i w id, handling ws' i w id → handling ws i w id ∧ id ≠ idr) → fore_ok (mkSystem (with_holds (Some (release h idr)) s) ws' o').
Proof.
  intros [H1 H2 H3 H4 H5] Hh Ho Hw. destruct (release_active h idr) as [Ea Es]. split; cbn in *.
  - intros i w id [Hi D]%Hw. exists (release h idr). split; [done|]. destruct (H1 _ _ _ Hi) as (h0 & Hh0 & Hact). simplify_eq.
    by rewrite Ea, lookup_delete_ne.
  - intros h0 id [= <-] Hin. rewrite Es. apply (H2 h id Hh). destruct Hin as [[x Hin]|Hin]; [left|right; by apply Ho].
    rewrite Ea in Hin. apply lookup_delete_Some in Hin as [_ Hin]. by exists x.
  - intros h0 [= <-]. rewrite Es. by apply H3.
  - intros i w id [Hi _]%Hw Hin. eapply H4; [done|by apply Ho].
  - intros i j w w' id [Hi _]%Hw [Hj _]%Hw. by eapply H5.
Qed.

Lemma fore_advance s ws o i a t : room (mkSystem s ws o) → fore_ok (mkSystem s ws o) → ws !! i = Some a →
  fore_ok (mkSystem (advance t a s).2 (<[i := (advance t a s).1]> ws) o).
Proof.
  intros Hroom Hok Hi.
  assert (∀ a' s', x_holds s' = x_holds s → (∀ w id, a' ≠ Handling w (Some id)) → fore_ok (mkSystem s' (<[i := a']> ws) o)) as Hquiet.
  { intros a' s' Hh Hna. apply (fore_frame s ws); [done..|]. intros j w id [[_ ->]|[_ H]]%handling_insert; [by destruct (Hna w id)|done]. }
  destruct a as [| | |w|w hold|w err|w]; cbn [advance].
  - destruct (tn_tick t); [|destruct (x_poke s)]; by apply Hquiet.
  - by apply Hquiet.
  - destruct (x_stop s); [by apply Hquiet|]. unfold pass_claim. destruct (qw_Claim _ _ _ _) as [q [[w|]|]]; by apply Hquiet.
  - unfold runOne_start. destruct (handlerFor _ _); [|by apply Hquiet]. destruct (x_holds s) as [h|] eqn:Eh; [|by apply Hquiet].
    destruct (fore_acquire s ws o h (work_hold w) Hok Hroom Eh) as (Hf1 & Hf2 & Hf3 & Hf4).
    destruct (acquire_active h (work_hold w)) as (Ea & Es & _). pose proof (acquire_fresh h (work_hold w)) as Hfr.
    destruct (Acquire h (work_hold w)) as [h' id0] eqn:E. cbn in *. pose proof Hok as [H1 H2 H3 H4 H5]. cbn in *.
    assert (∀ j w' id, handling ws j w' id → id ≠ id0) as Hne.
    { intros j w' id Hj ->. destruct (H1 _ _ _ Hj) as (h0 & Hh0 & Hact). congruence. }
    split; cbn.
    + intros j w' id [[_ [= <- <-]]|[_ Hj]]%handling_insert; exists h'; (split; [done|]); [by rewrite Ea, lookup_insert_eq|by eapply Hf3].
    + intros h0 id [= <-] Hin. apply Hf4. set_solver.
    + intros h0 [= <-]. pose proof (H3 h Eh). rewrite Es, Hfr; [lia|done|by apply (Hroom h)].
    + intros j w' id [[_ [= <- <-]]|[_ Hj]]%handling_insert; [done|by eapply H4].
    + intros j k w1 w2 id [[<- [= <- <-]]|[_ Hj]]%handling_insert [[<- E2]|[_ Hk]]%handling_insert; [done| | |by eapply H5].
      * by destruct (Hne _ _ _ Hk).
      * injection E2 as -> ->. by destruct (Hne _ _ _ Hj).
  - unfold invokeHandler_end. destruct hold as [id0|]; [|by apply Hquiet]. pose proof (fo_hold _ Hok i w id0 Hi) as (h & Eh & _). cbn in Eh.
    rewrite Eh. cbn [fmap option_fmap option_map fst snd]. apply (fore_release s ws o); [done..|].
    intros j w' id [[_ [=]]|[D Hj]]%handling_insert. split; [done|]. intros ->. apply D, (fo_distinct _ Hok i j w w' id0); done.
  - destruct err; by apply Hquiet.
  - by apply Hquiet.
Qed.

Lemma fore_step y y' : room y → fore_ok y → sys_step y y' → fore_ok y'.
Proof.
  intros Hroom Hok Hs. destruct Hs.
  - by apply fore_advance.
  - apply (fore_frame s ws); [done..|]. unfold handling. intros j w id [_ H']%lookup_delete_Some. done.
  - apply (fore_frame s ws); [done| |done]. unfold Enqueue. by destruct (qw_Enqueue _ _ _) as [q []].
  - by apply (fore_frame s ws).
  - by apply (fore_frame s ws).
  - by apply (fore_frame s ws).
  - by apply (fore_frame s ws).
  - by apply (fore_frame s ws).
  - destruct (fore_acquire s ws o h why Hok Hroom H) as (Hf1 & Hf2 & Hf3 & Hf4). pose proof Hok as [H1 H2 H3 H4 H5].
    destruct (acquire_active h why) as (Ea & Es & _). split; cbn [sy_shared sy_workers sy_others x_holds with_holds] in *.
    + intros i w id Hi. eexists. split; [done|]. by eapply Hf3.
    + intros h0 id E0 Hin. assert (h0 = (Acquire h why).1) as -> by congruence. by apply Hf4.
    + intros h0 E0. assert (h0 = (Acquire h why).1) as -> by congruence. rewrite Es, acquire_fresh; [specialize (H3 h H); lia|by apply H3|by apply (Hroom h)].
    + intros i w id Hi Hin. destruct (H1 _ _ _ Hi) as (h0 & Hh0 & Hact). simplify_eq. apply elem_of_union in Hin as [->%elem_of_singleton|Hin]; [congruence|].
      by eapply H4.
    + done.
  - apply (fore_release s ws o); [done..|set_solver|]. intros i w id' Hi. split; [done|]. intros ->. by apply (fo_others _ Hok i w id).
  - destruct (deliver_same h h' H0) as [Ea Es]. destruct Hok as [H1 H2 H3 H4 H5]. split; cbn in *; try done.
    + intros i w id Hi. destruct (H1 _ _ _ Hi) as (h0 & Hh0 & Hact). simplify_eq. exists h'. by rewrite Ea.
    + intros h0 id [= <-]. rewrite Ea, Es. by apply H2.
    + intros h0 [= <-]. rewrite Es. by apply H3.
  - split; cbn; unfold handling; try (intros *; intros [=]%Start_waiting).
    + intros h id [= <-] [[x Hx]|Hx]; cbn in *; [done|set_solver].
    + by intros h [= <-].
Qed.

(** Runs in which every worker is prompt and the counter of holds has room. *)
Definition calm_step (y y' : system (Q := Q)) : Prop := prompt y ∧ room y ∧ sys_step y y'.

Lemma calm_run_ok y y' : rtc calm_step y y' → sys_ok y → fore_ok y → sys_ok y' ∧ fore_ok y'.
Proof.
  induction 1 as [|y1 y2 y3 (Hp & Hr & Hs) _ IH]; [done|]. intros H1 H2. apply IH; [by eapply sys_step_ok|by eapply fore_step].
Qed.

(** The executor as it is started. *)
Definition started (q : Q) (n : nat) : system := mkSystem (NewExecutor q (Some zero_holds)) (Start n) ∅.

Lemma started_ok q n : sys_ok (started q n) ∧ fore_ok (started q n).
Proof.
  split; split; cbn; unfold works, handling; try (intros *; intros (b & ->%Start_waiting & [=])); try (intros *; intros [=]%Start_waiting).
  - intros h id [= <-] [[x Hx]|Hx]; cbn in *; [done|set_solver].
  - by intros h [= <-].
Qed.

(** ** A pass ends *)

(** The worker alone, turn after turn. *)
Fixpoint turns (n : nat) (ts : nat → turn) (a : activity) (s : shared Q) : activity * shared Q :=
  match n with
  | O => (a, s)
  | S n => let '(a', s') := advance (ts 0%nat) a s in turns n (λ k, ts (S k)) a' s'
  end.

Definition to_do (a : activity) (s : shared Q) : nat :=
  let b := (5 * budget (x_q s))%nat in
  match a with
  | Waiting => 0 | Sweeping => b + 2 | Looking => b + 1 | Taken _ => b + 5 | Handling _ _ => b + 4 | Handled _ _ => b + 3 | Settled _ => b + 2
  end.

Lemma advance_to_do t a s : a ≠ Waiting → (to_do (advance t a s).1 (advance t a s).2 < to_do a s)%nat.
Proof.
  intros Ha. destruct a as [| | |w|w hold|w err|w]; cbn [advance]; [done|..].
  - cbn [to_do pass_sweep with_q x_q fst snd]. pose proof (sweep_budget (tn_ok t) (tn_now t) (x_q s) (elements (x_running s))). lia.
  - destruct (x_stop s); [cbn; lia|]. unfold pass_claim. destruct (qw_Claim _ _ _ _) as [q [[w|]|]] eqn:E; cbn; [|lia..].
    destruct (claim_fresh _ _ _ _ _ _ E) as (_ & _ & Hb). lia.
  - unfold runOne_start. destruct (handlerFor _ _).
    + destruct (x_holds s); cbn; lia.
    + cbn -[no_handler]. pose proof (fail_budget (tn_ok t) (tn_now t) (x_q s) (wi_ID w) (no_handler (wi_Kind w))). lia.
  - unfold invokeHandler_end. destruct hold; cbn; lia.
  - destruct err as [msg|]; cbn.
    + pose proof (fail_budget (tn_ok t) (tn_now t) (x_q s) (wi_ID w) msg). lia.
    + pose proof (complete_budget (tn_ok t) (tn_now t) (x_q s) (wi_ID w)). lia.
  - cbn. lia.
Qed.

(** Nothing a worker does stops the executor. *)
Lemma advance_stop t a s : x_stop (advance t a s).2 = x_stop s.
Proof.
  destruct a as [| | |w|w hold|w err|w]; cbn [advance]; try done.
  - by destruct (tn_tick t), (x_poke s).
  - destruct (x_stop s) eqn:E; [done|]. unfold pass_claim. by destruct (qw_Claim _ _ _ _) as [q [[w|]|]].
  - unfold runOne_start. destruct (handlerFor _ _); [|done]. by destruct (x_holds s).
  - unfold invokeHandler_end. by destruct hold.
  - by destruct err.
Qed.

Lemma advance_to_waiting t a s s' : a ≠ Waiting → x_stop s = false → claim_env_ok (tn_claim t) = true → advance t a s = (Waiting, s') →
  idle (x_q s') (tn_now t).
Proof.
  intros Ha Hs He. destruct a as [| | |w|w hold|w err|w]; cbn [advance]; try done.
  - rewrite Hs. unfold pass_claim. destruct (qw_Claim _ _ _ _) as [q [[w|]|e]] eqn:E; intros [= <-].
    + destruct (claim_none _ _ _ _ He E) as [-> H]. done.
    + by destruct (claim_answers (tn_claim t) [] (tn_now t) (x_q s) q e He).
  - unfold runOne_start. destruct (handlerFor _ _); [destruct (x_holds s)|]; done.
Qed.

Lemma pass_ends n : ∀ ts a s, (to_do a s ≤ n)%nat → a ≠ Waiting → x_stop s = false → (∀ k, claim_env_ok (tn_claim (ts k)) = true) →
  ∃ k s', (k < n)%nat ∧ turns (S k) ts a s = (Waiting, s') ∧ idle (x_q s') (tn_now (ts k)).
Proof.
  induction n as [|n IH]; intros ts a s Hn Ha Hs He.
  { destruct a; cbn in Hn; try lia. done. }
  pose proof (advance_to_do (ts 0%nat) a s Ha) as Hd. pose proof (advance_stop (ts 0%nat) a s) as Hst.
  destruct (advance (ts 0%nat) a s) as [a1 s1] eqn:E. cbn [fst snd] in *. rewrite Hs in Hst.
  assert (a1 = Waiting ∨ a1 ≠ Waiting) as [->|Ha1] by (clear; destruct a1; [by left|right; discriminate..]).
  - exists 0%nat, s1. split; [lia|]. split; [cbn [turns]; by rewrite E|]. exact (advance_to_waiting (ts 0%nat) a s s1 Ha Hs (He 0%nat) E).
  - destruct (IH (λ k, ts (S k)) a1 s1) as (k & s' & Hk & Ht & Hi); [lia|done|done|intros k; apply He|].
    exists (S k), s'. split; [lia|]. split; [|done]. change (turns (S (S k)) ts a s) with
      (let '(a', s') := advance (ts 0%nat) a s in turns (S k) (λ k, ts (S k)) a' s'). by rewrite E.
Qed.
End Facts.

(** ** The store implements the interface *)

Section Store.
Context `{SQ : Sqlite} `{SL : SqlLike}.

#[export] Instance store_queue : QueueWork WorkQueue.queue := {|
  qw_Enqueue := EnqueueWork;
  qw_Claim := ClaimWork;
  qw_Complete := CompleteWork;
  qw_Fail := FailWork;
  qw_Sweep := SweepExpiredLeases;
  qw_outside q q' := (∃ kind limit, q' = SetClaimLimit kind limit q) ∨ ∃ on, q' = SetFrozen on q;
  qw_restart q := mkQueue (q_rows q) ∅ false;
|}.

Definition is_claimed (q : WorkQueue.queue) (id : bytes) : Prop := ∃ r, q_rows q !! id = Some r ∧ w_state r = CLAIMED.
Definition row_budget (m : gmap bytes work_row) : nat := map_fold (λ _ r n, Z.to_nat (attempts r) + n)%nat 0%nat m.
Definition nothing_due (q : WorkQueue.queue) (now : Z) : Prop :=
  q_frozen q = true ∨ ∀ id r, q_rows q !! id = Some r → claimable [] now q r = false.

Lemma row_budget_insert m id r : m !! id = None → row_budget (<[id := r]> m) = (Z.to_nat (attempts r) + row_budget m)%nat.
Proof. intros H. unfold row_budget. rewrite map_fold_insert_L; [done| |done]. intros. lia. Qed.

Lemma row_budget_split m id r : m !! id = Some r → row_budget m = (Z.to_nat (attempts r) + row_budget (delete id m))%nat.
Proof. intros H. rewrite <- (insert_delete_id m id r H) at 1. apply row_budget_insert, lookup_delete_eq. Qed.

Lemma row_budget_evolves m : ∀ m', evolves m m' → (row_budget m' ≤ row_budget m)%nat.
Proof.
  induction m as [|id r m Hid IH] using map_ind; intros m' He.
  - assert (m' = ∅) as ->; [|done]. apply map_eq. intros i. specialize (He i). rewrite lookup_empty in *. by destruct (m' !! i).
  - pose proof (He id) as H. rewrite lookup_insert_eq in H. destruct (m' !! id) as [r'|] eqn:E; [|done]. cbn in H.
    rewrite (row_budget_split m' id r' E), row_budget_insert by done.
    assert (row_budget (delete id m') ≤ row_budget m)%nat.
    { apply IH. intros i. specialize (He i). destruct (decide (id = i)) as [<-|D]; [by rewrite lookup_delete_eq, Hid|].
      by rewrite lookup_delete_ne, lookup_insert_ne in *. }
    pose proof (later_attempts _ _ H). lia.
Qed.

Lemma is_claimed_insert q id r id' : id' ≠ id → is_claimed q id' → is_claimed (set_rows <[id := r]> q) id'.
Proof. intros D (r' & E & Hs). exists r'. cbn. by rewrite lookup_insert_ne. Qed.

#[export] Program Instance store_laws : QueueLaws WorkQueue.queue := {|
  held := is_claimed;
  budget q := row_budget (q_rows q);
  idle := nothing_due;
|}.
Next Obligation.
  intros env kinds now q q' w H. apply claim_cases in H as [[_ Hno]|(_ & id & r & E & Hc & _ & -> & [= ->])]; [by destruct (Hno w)|].
  apply claimable_pending in Hc. cbn. split; [|split].
  - intros (r' & E' & Hs). congruence.
  - exists (row_claimed now r). cbn. by rewrite lookup_insert_eq.
  - rewrite (row_budget_split _ id r E), <- insert_delete_eq, row_budget_insert by apply lookup_delete_eq. unfold attempts. cbn. rewrite Hc. lia.
Qed.
Next Obligation.
  intros env kinds now q id Hh. cbn. destruct (ClaimWork _ _ _ _) as [q' res] eqn:E.
  apply claim_cases in E as [[-> _]|(_ & i & r & E & Hc & _ & -> & _)]; [done|]. apply claimable_pending in Hc. apply is_claimed_insert; [|done].
  intros ->. destruct Hh as (r' & E' & Hs). congruence.
Qed.
Next Obligation. intros. apply row_budget_evolves, claim_evolves. Qed.
Next Obligation.
  intros env now q q' He H. cbn in H. destruct (q_frozen q) eqn:Hf.
  - unfold ClaimWork, guarded in H. rewrite Hf in H. injection H as <-. split; [done|]. by left.
  - destruct (claim_takes_first_due env [] now q Hf He) as [(id & r & E & _)|[E Hno]]; rewrite E in H; [done|]. injection H as <-. split; [done|]. by right.
Qed.
Next Obligation.
  intros env kinds now q q' e He H. cbn in H. destruct (q_frozen q) eqn:Hf.
  - unfold ClaimWork, guarded in H. by rewrite Hf in H.
  - destruct (claim_takes_first_due env kinds now q Hf He) as [(id & r & E & _)|[E _]]; by rewrite E in H.
Qed.
Next Obligation.
  intros ok now q id id' D Hh. cbn. unfold CompleteWork. destruct (guarded ok q); [|done]. destruct (claimed_row q id); [|done].
  by apply is_claimed_insert.
Qed.
Next Obligation. intros. apply row_budget_evolves, complete_evolves. Qed.
Next Obligation.
  intros ok now q id msg id' D Hh. cbn. unfold FailWork. destruct (guarded ok q); [|done]. destruct (claimed_row q id) as [r|]; [|done].
  destruct (row_failed _ _ r); [|done]. by apply is_claimed_insert.
Qed.
Next Obligation. intros. apply row_budget_evolves, fail_evolves. Qed.
Next Obligation.
  intros ok now q running id Hin (r & E & Hs). cbn. destruct (SweepExpiredLeases _ _ _ _) as [q' res] eqn:Esw.
  apply sweep_rows in Esw as [->|[_ ->]]; [by exists r|]. exists r. cbn. rewrite map_lookup_imap, E. cbn. split; [|done].
  apply not_swept, not_true_is_false. rewrite expired_spec. naive_solver.
Qed.
Next Obligation. intros. apply row_budget_evolves, sweep_evolves. Qed.
Next Obligation.
  intros env item q id (r & E & Hs). cbn. destruct (EnqueueWork env item q) as [q' res] eqn:En.
  apply enqueue_rows in En as [->|(r' & Hn & -> & _)]; [by exists r|]. apply is_claimed_insert; [congruence|]. by exists r.
Qed.
Next Obligation. by intros q q' id [(kind & limit & ->)|(on & ->)] Hh. Qed.


(** C38. A pass that is left alone returns: whatever the handlers do, after at
    most five turns for each attempt the queue has left (and two more) the
    worker waits again, and then nothing is due, or the store is frozen. *)
Theorem pass_drains_queue (ts : nat → turn) s : x_stop s = false → (∀ k, claim_env_ok (tn_claim (ts k)) = true) →
  ∃ k s', (k < 5 * row_budget (q_rows (x_q s)) + 2)%nat ∧ turns (S k) ts Sweeping s = (Waiting, s') ∧ nothing_due (x_q s') (tn_now (ts k)).
Proof. intros Hs He. exact (pass_ends (Q := WorkQueue.queue) _ ts Sweeping s (le_n _) ltac:(discriminate) Hs He). Qed.
End Store.

(** ** Schedules *)

Section Drive.
Context `{QW : QueueWork Q}.

(** The workers named, turn after turn. *)
Fixpoint drive (l : list (nat * turn)) (y : system (Q := Q)) : option (system (Q := Q)) :=
  match l with
  | [] => Some y
  | (i, t) :: l =>
    a ← sy_workers y !! i;
    drive l (mkSystem (advance t a (sy_shared y)).2 (<[i := (advance t a (sy_shared y)).1]> (sy_workers y)) (sy_others y))
  end.

Lemma drive_steps l y y' : drive l y = Some y' → rtc sys_step y y'.
Proof.
  revert y. induction l as [|[i t] l IH]; intros y; cbn [drive]; [by intros [= ->]|]. intros (a & Ha & H)%bind_Some.
  eapply rtc_l; [|by apply IH]. destruct y as [s ws o]. by apply ss_worker.
Qed.

(** The same, with no worker late: none has an item to forget. *)
Definition settled (a : activity) : bool := match a with Settled _ => true | _ => false end.
Definition calmb (y : system (Q := Q)) : bool :=
  bool_decide (map_Forall (λ _ a, settled a = false) (sy_workers y)) && match x_holds (sy_shared y) with Some h => seq h + 1 <? two64 | None => true end.

Fixpoint calm_drive (l : list (nat * turn)) (y : system (Q := Q)) : bool :=
  match l with
  | [] => true
  | p :: l => calmb y && match drive [p] y with Some y' => calm_drive l y' | None => false end
  end.

Lemma calmb_calm y : calmb y = true → prompt y ∧ room y.
Proof.
  unfold calmb. intros [H1%bool_decide_eq_true H2]%andb_true_iff. split.
  - intros i j w Hi _ _. specialize (H1 _ _ Hi). done.
  - intros h Hh. rewrite Hh in H2. by apply Z.ltb_lt.
Qed.

Lemma calm_drive_steps l y y' : calm_drive l y = true → drive l y = Some y' → rtc calm_step y y'.
Proof.
  revert y. induction l as [|[i t] l IH]; intros y; cbn [calm_drive drive]; [by intros _ [= ->]|].
  intros [[Hp Hr]%calmb_calm Hc]%andb_true_iff (a & Ha & H)%bind_Some. rewrite Ha in Hc. cbn in Hc.
  eapply rtc_l; [|by apply (IH _ Hc)]. destruct y as [s ws o]. split; [done|]. split; [done|]. by apply ss_worker.
Qed.
End Drive.
