(* ===== verification/WorkSamples.v ===== *)
(** * Concrete queues and schedules

    The theorems on the queue and its workers at concrete states, and the
    schedule behind the condition of [one_worker_per_item]. *)

From stdpp Require Import gmap relations.
From S2P Require Import Prelude Lines GoStrings Tables WorkQueue WorkQueueFacts Holds Executor ExecutorFacts.

#[local] Instance sample_json : Sqlite := {| json_valid _ := true |}.
#[local] Instance sample_like : SqlLike := {| sql_like _ _ := true |}.

Definition env0 : enqueue_env := mkEnqueueEnv 7 [] 0 true 0 true.
Definition claim0 : claim_env := mkClaimEnv true true 0 true true.
Definition work_item : WorkItem := mkItem [1] (bs "k") (bs "{}") (bs "key") (bs "s") [] 0 0 0 0 0 0 0 [] 0.
Definition empty_queue : WorkQueue.queue := mkQueue ∅ ∅ false.
Definition two_ops : list queue_op := [OpEnqueue env0 work_item; OpClaim claim0 [] 10].

Definition filled : WorkQueue.queue := (run_ops [OpEnqueue env0 work_item] empty_queue).1.

Lemma empty_unique : live_keys_unique empty_queue.
Proof. intros ? ? ? ? ? [=]. Qed.

Lemma one_live_item_per_key_witness : live_keys_unique (run_ops two_ops empty_queue).1 ∧
  EnqueueWork env0 (mkItem [2] (bs "k") (bs "{}") (bs "key") (bs "s") [] 0 0 0 0 0 0 0 [] 0) (run_ops two_ops empty_queue).1
    = ((run_ops two_ops empty_queue).1, Ok [1]).
Proof.
  destruct (one_live_item_per_key two_ops empty_queue) as [H1 H2]; [by repeat constructor|exact empty_unique|].
  split; [exact H1|]. apply (H2 env0 _ [1] (mkWork (bs "k") (bs "{}") (Some (bs "key")) (bs "s") CLAIMED 5 0 10 300000 0 0 3 None 7));
    vm_compute; congruence.
Defined.

Lemma attempts_bounded_witness : times [1] (run_ops two_ops empty_queue).2 ≤ 3.
Proof. apply attempts_bounded; [lia|]. repeat constructor. cbn. lia. Defined.

(** [attempts_bounded] is sharp: an item with one retry is handed out once. *)
Example handed_once : times [1] (run_ops two_ops empty_queue).2 = 1.
Proof. vm_compute. reflexivity. Qed.

Lemma claim_takes_first_due_witness : ∃ id r, q_rows filled !! id = Some r ∧ w_state r = PENDING ∧ w_scheduled r ≤ 10.
Proof.
  destruct (claim_takes_first_due claim0 [] 10 filled ltac:(vm_compute; reflexivity) eq_refl)
    as [(id & r & _ & H1 & H2 & H3 & _)|[H _]]; [by exists id, r|]. exfalso. vm_compute in H. discriminate H.
Defined.

Lemma expired_claim_recovered_witness : ∃ q' n r', SweepExpiredLeases true 400000 [] (run_ops two_ops empty_queue).1 = (q', Ok n) ∧
  q_rows q' !! [1] = Some r' ∧ w_state r' = PENDING.
Proof.
  destruct (expired_claim_recovered two_ops ∅ false 400000 [] [1] (mkWork (bs "k") (bs "{}") (Some (bs "key")) (bs "s") CLAIMED 5 0 10 300000 0 0 3 None 7))
    as (q' & n & r' & H1 & _ & H2 & _ & _ & [[H _]|(_ & H3 & _)] & _).
  - repeat constructor.
  - vm_compute. reflexivity.
  - unfold clock_ok. lia.
  - vm_compute. reflexivity.
  - reflexivity.
  - cbn. lia.
  - apply not_elem_of_nil.
  - exfalso. cbn in H. lia.
  - exists q', n, r'. split; [exact H1|]. split; [exact H2|exact H3].
Defined.

(** A query for the key that fails is taken for one that finds nothing, and the
    item is enqueued a second time. *)
Example unanswered_query_duplicates : ∃ q, ¬ live_keys_unique q ∧
  q = (run_ops [OpEnqueue env0 work_item; OpEnqueue (mkEnqueueEnv 8 [] 0 false 0 true) (mkItem [2] (bs "k") (bs "{}") (bs "key") (bs "s") [] 0 0 0 0 0 0 0 [] 0)] empty_queue).1.
Proof.
  eexists. split; [|reflexivity]. intros H. specialize (H [1] [2]).
  epose proof (H _ _ (bs "key") ltac:(vm_compute; reflexivity) ltac:(vm_compute; reflexivity) eq_refl eq_refl eq_refl eq_refl eq_refl) as E. done.
Qed.

(** ** Workers *)

Definition at_ (now : Z) : turn := mkTurn true true now claim0 (Returns (Some (bs "failed"))).

(** Three workers, with a handler for the kind. *)
Definition handled_start : system := mkSystem (mkShared filled {[bs "k" := 0%nat]} ∅ false false (Some zero_holds)) (Start 3) ∅.

Lemma handled_start_reached : rtc calm_step (started filled 3) handled_start.
Proof.
  apply rtc_once. split; [|split].
  - intros i j w [=]%Start_waiting.
  - intros h [= <-]. vm_compute. reflexivity.
  - apply (ss_register (NewExecutor filled (Some zero_holds)) (Start 3) ∅ [bs "k"] 0).
Qed.

(** Worker 0 is in the handler. *)
Definition to_handler : list (nat * turn) := [(0, at_ 0); (0, at_ 0); (0, at_ 0); (0, at_ 0)]%nat.
Definition in_handler : system := default handled_start (drive to_handler handled_start).

Lemma in_handler_reached : rtc calm_step (started filled 3) in_handler.
Proof.
  etrans; [exact handled_start_reached|]. apply (calm_drive_steps to_handler); vm_compute; reflexivity.
Qed.


Lemma pass_drains_queue_witness : ∃ k s', turns (S k) (λ k, at_ (Z.of_nat k)) Sweeping (sy_shared handled_start) = (Waiting, s') ∧ nothing_due (x_q s') (Z.of_nat k).
Proof.
  destruct (pass_drains_queue (λ k, at_ (Z.of_nat k)) (sy_shared handled_start) eq_refl (λ _, eq_refl)) as (k & s' & _ & H1 & H2).
  exists k, s'. split; [exact H1|exact H2].
Defined.

(** Without promptness an item can be in two hands: worker 0 fails it and is
    held up for more than the backoff before it forgets it; worker 1 claims it
    again; then worker 0 forgets it, and the sweep of worker 2 takes the claim
    of worker 1 for an abandoned one. *)
Definition late_forget : list (nat * turn) :=
  [(0, at_ 0); (0, at_ 0); (0, at_ 0); (0, at_ 0); (0, at_ 0); (0, at_ 0);
   (1, at_ 1500); (1, at_ 1500); (1, at_ 1500); (1, at_ 1500);
   (0, at_ 1600); (2, at_ 400000); (2, at_ 400000); (2, at_ 500000)]%nat.

Definition hands (o : option (system (Q := WorkQueue.queue))) (i : nat) : option (option bytes) := y ← o; working <$> sy_workers y !! i.

Lemma late_forget_hands : hands (drive late_forget handled_start) 1 = Some (Some [1]) ∧ hands (drive late_forget handled_start) 2 = Some (Some [1]).
Proof. split; vm_compute; reflexivity. Qed.

Lemma hands_works (y : system (Q := WorkQueue.queue)) i id : hands (Some y) i = Some (Some id) → works (sy_workers y) i id.
Proof. cbn. destruct (sy_workers y !! i) as [a|] eqn:E; [|done]. cbn. intros [= H]. by exists a. Qed.

Example late_forget_two_workers : ∃ y, rtc sys_step (started filled 3) y ∧ works (sy_workers y) 1 [1] ∧ works (sy_workers y) 2 [1].
Proof.
  destruct late_forget_hands as [H1 H2]. pose proof (drive_steps late_forget handled_start) as Hd. revert H1 H2 Hd.
  generalize (drive late_forget handled_start). intros [y|] H1 H2 Hd; [|discriminate H1]. exists y.
  split; [|split; by apply hands_works]. eapply rtc_l; [|by apply Hd].
  exact (ss_register (NewExecutor filled (Some zero_holds)) (Start 3) ∅ [bs "k"] 0).
Qed.
