(* ===== verification/WitnessKeys.v ===== *)
(** * internal/witness: the keys a witness signs with

    The manifest the platform root signs for a witness key (client.go), the
    file a verified key is kept in beside the ledger, and the loading of those
    files into the keys of the head verifier (headverify.go).  The directory of
    keys is a finite map from file names to contents; what a file operation
    does is an argument. *)

From stdpp Require Import gmap.
From S2P Require Import Prelude Utf8 GoJson CanonicalJson CanonicalJsonFacts GoStruct Crypto Event Lines Chain Time Container SigEnvelope Witness.

Inductive key_err :=
| KPlatform (e : envelope_err) | KBundle (e : envelope_err)
| KPayload | KKind | KSchema | KVersion | KCanon (e : canon_err) | KHash | KKeyID | KProfile | KNotCritical
| KNotBefore | KNotYet | KExpiresAt | KExpired | KNoExpiry
| KRevokedKey | KRevokedArtifact | KNoFingerprint
| KFileName | KIO | KMarshal | KParse | KEmpty | KNamed | KShape (e : envelope_err) | KNoMaterial | KEncoding
| KNoPlatform.

(** What [atomicfile.WriteReplace] does. *)
Inductive write_outcome := Written | WrittenNotDurable | NotWritten.
Definition write_file (o : write_outcome) (name content : bytes) (d : gmap bytes bytes) : gmap bytes bytes :=
  match o with NotWritten => d | _ => <[name := content]> d end.
Definition write_ok (o : write_outcome) : bool := match o with Written => true | _ => false end.

(** ** The served envelope as bytes *)

Definition marshal_material (k : PublicKeyMaterial) : bytes :=
  field_object [(bs "alg", json_string true (pkm_Alg k)); (bs "public_key_b64", json_string true (pkm_PublicKeyB64 k));
                (bs "public_key_fingerprint", json_string true (pkm_PublicKeyFingerprint k))].
(** A slice without keys is written as nil is; an envelope that has none is
    refused in any case. *)
Definition marshal_keys (l : list PublicKeyMaterial) : bytes :=
  match l with [] => null_text | _ => 91 :: comma_join (map marshal_material l) ++ [93] end.
Definition mustMarshalEnv (e : PublicKeyEnvelope) : bytes :=
  field_object [(bs "v", FormatInt (pke_V e)); (bs "kind", json_string true (pke_Kind e)); (bs "key_id", json_string true (pke_KeyID e));
    (bs "key_type", json_string true (pke_KeyType e)); (bs "profile", json_string true (pke_Profile e));
    (bs "created_at", json_string true (pke_CreatedAt e)); (bs "not_before", json_string true (pke_NotBefore e));
    (bs "expires_at", json_string true (pke_ExpiresAt e)); (bs "keys", marshal_keys (pke_Keys e))].
Definition canonicalEnvelopeBytes (e : PublicKeyEnvelope) : result canon_err bytes := CanonicalizeV1 (mustMarshalEnv e).

(** ** The manifest *)

Record manifestPayload := mkManifestPayload {
  mp_Kind : bytes; mp_SchemaVersion : Z; mp_ArtifactVersion : bytes; mp_ArtifactHash : bytes; mp_KeyID : bytes;
  mp_SignatureProfile : bytes; mp_CreatedAt : bytes; mp_NotBefore : bytes; mp_ExpiresAt : bytes; mp_Critical : bool;
  mp_RevokedKeyIDs : list bytes; mp_RevokedArtifactHashes : list bytes;
}.

Definition string_elem (prior raw : bytes) : option bytes := if beq raw null_text then Some prior else conv_string raw.

Definition decode_manifest_payload (raw : bytes) : option manifestPayload :=
  ms ← struct_members true false [bs "kind"; bs "schema_version"; bs "artifact_version"; bs "artifact_hash"; bs "key_id"; bs "signature_profile";
        bs "created_at"; bs "not_before"; bs "expires_at"; bs "critical"; bs "revoked_key_ids"; bs "revoked_artifact_hashes"] raw;
  kind ← field conv_string [] (bs "kind") ms;
  schema ← field conv_int 0 (bs "schema_version") ms;
  version ← field conv_string [] (bs "artifact_version") ms;
  hash ← field conv_string [] (bs "artifact_hash") ms;
  key ← field conv_string [] (bs "key_id") ms;
  profile ← field conv_string [] (bs "signature_profile") ms;
  created ← field conv_string [] (bs "created_at") ms;
  nb ← field conv_string [] (bs "not_before") ms;
  ex ← field conv_string [] (bs "expires_at") ms;
  critical ← field conv_bool false (bs "critical") ms;
  rk ← slice_field string_elem [] (bs "revoked_key_ids") ms;
  ra ← slice_field string_elem [] (bs "revoked_artifact_hashes") ms;
  Some (mkManifestPayload kind schema version hash key profile created nb ex critical rk ra).

Definition witness_manifest_kind : bytes := bs "witness.public_key_manifest".

Definition validateManifestTimeWindow (now : Z) (notBefore expiresAt : bytes) : result key_err unit :=
  _ ← (if beq notBefore [] then Ok () else
       nb ← of_option KNotBefore (time_Parse notBefore);
       if Before now nb then Err KNotYet else Ok ());
  ex ← of_option KExpiresAt (time_Parse expiresAt);
  if Before now ex then Ok () else Err KExpired.

Section Manifest.
Context `{P : Primitives}.

(** The checks of [verifyManifestBundle] on the payload. *)
Definition check_manifest (now : Z) (payload : manifestPayload) (witnessKey : PublicKeyEnvelope) (checkWindow : bool) : result key_err manifestPayload :=
  if negb (beq (mp_Kind payload) witness_manifest_kind) then Err KKind
  else if negb (mp_SchemaVersion payload =? 1) then Err KSchema
  else if beq (mp_ArtifactVersion payload) [] then Err KVersion
  else
    canonicalServed ← map_err KCanon (canonicalEnvelopeBytes witnessKey);
    if negb (beq (mp_ArtifactHash payload) (SHA256Prefixed canonicalServed)) then Err KHash
    else if negb (beq (mp_KeyID payload) (pke_KeyID witnessKey)) || negb (HasPrefix (mp_KeyID payload) (bs "aiii_witness_")) then Err KKeyID
    else if negb (beq (mp_SignatureProfile payload) ProfileRoot) then Err KProfile
    else if negb (mp_Critical payload) then Err KNotCritical
    else
      _ ← (if checkWindow then validateManifestTimeWindow now (mp_NotBefore payload) (mp_ExpiresAt payload)
           else if beq (mp_ExpiresAt payload) [] then Err KNoExpiry else Ok ());
      if existsb (λ rk, beq rk (mp_KeyID payload)) (mp_RevokedKeyIDs payload) then Err KRevokedKey
      else if existsb (λ rh, beq rh (mp_ArtifactHash payload)) (mp_RevokedArtifactHashes payload) then Err KRevokedArtifact
      else
        match FindPublicKey witnessKey SigAlg with
        | Some ml => if beq (pkm_PublicKeyFingerprint ml) [] then Err KNoFingerprint else Ok payload
        | None => Err KNoFingerprint
        end.

Definition verifyManifestBundle (now : Z) (raw : bytes) (platformEnv witnessKey : PublicKeyEnvelope) (checkWindow : bool) : result key_err manifestPayload :=
  _ ← map_err KPlatform (ValidatePublicKeyEnvelope platformEnv [ProfileRoot] now);
  payloadRaw ← map_err KBundle (VerifyPayload raw platformEnv witness_manifest_kind [ProfileRoot]);
  payload ← of_option KPayload (decode_manifest_payload payloadRaw);
  check_manifest now payload witnessKey checkWindow.

(** [VerifyManifest] of the client; [fetched] is what the address served and
    [platform] what loading the platform's envelope gave. *)
Definition VerifyManifest (now : Z) (fetched : option bytes) (platform : option PublicKeyEnvelope) (witnessKey : PublicKeyEnvelope) : result key_err bytes :=
  raw ← of_option KIO fetched;
  platformEnv ← of_option KNoPlatform platform;
  _ ← verifyManifestBundle now raw platformEnv witnessKey true;
  mret raw.

(** [LoadPlatformEnvelope]: the root that was shipped, or the file named. *)
Definition LoadPlatformEnvelope (now : Z) (source : PublicKeyEnvelope + option bytes) : option PublicKeyEnvelope :=
  match source with
  | inl root => match ValidWindow root now with Ok _ => Some root | Err _ => None end
  | inr read =>
    raw ← read;
    env ← decode_key_envelope (TrimSpace raw);
    match ValidatePublicKeyEnvelope env [ProfileRoot] now with Ok _ => Some env | Err _ => None end
  end.

(** [FetchWitnessKey]: what two addresses served, the key's hash and the key. *)
Definition FetchWitnessKey (served_hash served_key : option bytes) : option PublicKeyEnvelope :=
  body ← served_hash;
  ms ← struct_members true false [bs "witness_public_key_hash"; bs "key_id"] body;
  hash ← field conv_string [] (bs "witness_public_key_hash") ms;
  keyID ← field conv_string [] (bs "key_id") ms;
  raw ← served_key;
  match CanonicalizeV1 raw with
  | Err _ => None
  | Ok canonical =>
    if negb (beq (SHA256Prefixed canonical) hash) then None
    else
      env ← decode_key_envelope canonical;
      if negb (beq (pke_KeyID env) keyID) then None else Some env
  end.

(** ** Keys beside the ledger *)

(** [json.Marshal] of a [persistedWitnessKey], and a newline. *)
Definition key_document (manifestRaw keyCanonical : bytes) : bytes :=
  field_object [(bs "public_key_manifest", compact false false manifestRaw); (bs "public_key", compact false false keyCanonical)] ++ [10].

Definition key_file_name (keyID : bytes) : bytes := keyID ++ bs ".json".

(** [persistWitnessKey]; [mkdir] and [reads] say whether the directory can be
    made and the file of an earlier pass read. *)
Definition persistWitnessKey (mkdir reads : bool) (o : write_outcome) (keyID manifestRaw keyCanonical : bytes) (d : gmap bytes bytes) :
    gmap bytes bytes * result key_err unit :=
  if negb (validKeyIDFilename keyID) then (d, Err KFileName)
  else if negb mkdir then (d, Err KIO)
  else if bool_decide (one_value true manifestRaw = None) || bool_decide (one_value true keyCanonical = None) then (d, Err KMarshal)
  else
    let doc := key_document manifestRaw keyCanonical in
    if reads && bool_decide (d !! key_file_name keyID = Some doc) then (d, Ok ())
    else (write_file o (key_file_name keyID) doc d, if write_ok o then Ok () else Err KIO).

Definition loadWitnessKeyFile (now : Z) (read : option bytes) (keyID : bytes) (platform : PublicKeyEnvelope) : result key_err WitnessKeyMaterial :=
  raw ← of_option KIO read;
  ms ← of_option KParse (struct_members false true [bs "public_key_manifest"; bs "public_key"] raw);
  let manifest := raw_field (bs "public_key_manifest") ms in
  let public := raw_field (bs "public_key") ms in
  if beq manifest [] || beq public [] then Err KEmpty
  else
    canonical ← map_err KCanon (CanonicalizeV1 public);
    env ← of_option KParse (decode_key_envelope canonical);
    if negb (beq (pke_KeyID env) keyID) then Err KNamed
    else
      _ ← map_err KShape (ValidatePublicKeyEnvelopeShape env [ProfileRoot]);
      payload ← verifyManifestBundle now manifest platform env false;
      wm ← of_option KNoMaterial (FindPublicKey env SigAlg);
      pub ← of_option KEncoding (b64_decode (pkm_PublicKeyB64 wm));
      nb ← (if beq (mp_NotBefore payload) [] then Ok time_zero else of_option KNotBefore (time_Parse (mp_NotBefore payload)));
      ex ← of_option KExpiresAt (time_Parse (mp_ExpiresAt payload));
      mret (mkWitnessKey keyID (pkm_PublicKeyFingerprint wm) pub nb ex env).

Definition skipped_entry (name : bytes) : bool := negb (HasSuffix name (bs ".json")) || HasPrefix name [46].

Definition load_entry (now : Z) (reads : bytes → bool) (platform : PublicKeyEnvelope) (acc : result key_err (gmap bytes WitnessKeyMaterial))
    (entry : bytes * bytes) : result key_err (gmap bytes WitnessKeyMaterial) :=
  keys ← acc;
  if skipped_entry entry.1 then Ok keys
  else
    let keyID := TrimSuffix entry.1 (bs ".json") in
    km ← loadWitnessKeyFile now (if reads entry.1 then Some entry.2 else None) keyID platform;
    mret (<[keyID := km]> keys).

(** [LoadWitnessKeys]; [None] is a directory that does not exist.  Of several
    files that fail the code reports the first by name. *)
Definition LoadWitnessKeys (now : Z) (reads : bytes → bool) (dir : option (gmap bytes bytes)) (platform : option PublicKeyEnvelope) :
    result key_err (gmap bytes WitnessKeyMaterial) :=
  match dir with
  | None => Ok ∅
  | Some d =>
    platform ← of_option KNoPlatform platform;
    foldl (load_entry now reads platform) (Ok ∅) (map_to_list d)
  end.

Definition LoadHeadVerifier (now : Z) (reads : bytes → bool) (dir : option (gmap bytes bytes)) (platform : option PublicKeyEnvelope) : result key_err Heads :=
  keys ← LoadWitnessKeys now reads dir platform; mret (NewHeadVerifier keys).
End Manifest.

(** ** What a loaded key stands on *)

Section Facts.
Context `{P : Primitives}.

(** The platform vouches for [env]: a manifest it signed names the hash of the
    canonical envelope and its key id, and revokes neither. *)
Record vouched (platform env : PublicKeyEnvelope) (payload : manifestPayload) : Prop := {
  vo_signed : ∃ raw payloadRaw, VerifyPayload raw platform witness_manifest_kind [ProfileRoot] = Ok payloadRaw ∧
    decode_manifest_payload payloadRaw = Some payload;
  vo_kind : mp_Kind payload = witness_manifest_kind ∧ mp_SchemaVersion payload = 1 ∧ mp_ArtifactVersion payload ≠ [] ∧
    mp_SignatureProfile payload = ProfileRoot ∧ mp_Critical payload = true;
  vo_hash : ∃ canonical, canonicalEnvelopeBytes env = Ok canonical ∧ mp_ArtifactHash payload = SHA256Prefixed canonical;
  vo_key : mp_KeyID payload = pke_KeyID env ∧ HasPrefix (pke_KeyID env) (bs "aiii_witness_") = true;
  vo_unrevoked : mp_KeyID payload ∉ mp_RevokedKeyIDs payload ∧ mp_ArtifactHash payload ∉ mp_RevokedArtifactHashes payload;
}.

Lemma existsb_beq x l : existsb (λ y, beq y x) l = false → x ∉ l.
Proof.
  intros H Hin. apply not_true_iff_false in H. destruct H. apply existsb_exists. exists x. split; [by apply list_elem_of_In|apply beq_refl].
Qed.

Lemma check_manifest_ok now payload env w p : check_manifest now payload env w = Ok p →
  p = payload ∧ (∃ c, canonicalEnvelopeBytes env = Ok c ∧ mp_ArtifactHash payload = SHA256Prefixed c) ∧
  (mp_Kind payload = witness_manifest_kind ∧ mp_SchemaVersion payload = 1 ∧ mp_ArtifactVersion payload ≠ [] ∧
    mp_SignatureProfile payload = ProfileRoot ∧ mp_Critical payload = true) ∧
  (mp_KeyID payload = pke_KeyID env ∧ HasPrefix (pke_KeyID env) (bs "aiii_witness_") = true) ∧
  mp_KeyID payload ∉ mp_RevokedKeyIDs payload ∧ mp_ArtifactHash payload ∉ mp_RevokedArtifactHashes payload.
Proof.
  unfold check_manifest. destruct (beq (mp_Kind _) _) eqn:E1; [cbn [negb]|done]. destruct (_ =? 1) eqn:E2; [cbn [negb]|done].
  destruct (beq (mp_ArtifactVersion _) []) eqn:E3; [done|]. destruct (canonicalEnvelopeBytes env) as [c|] eqn:Ec; [cbn [map_err mbind result_bind]|done].
  destruct (beq (mp_ArtifactHash _) _) eqn:E4; [cbn [negb]|done]. destruct (beq (mp_KeyID _) _) eqn:E5; [cbn [negb orb]|done].
  destruct (HasPrefix (mp_KeyID _) _) eqn:E6; [cbn [negb]|done]. destruct (beq (mp_SignatureProfile _) _) eqn:E7; [cbn [negb]|done].
  destruct (mp_Critical payload) eqn:E8; [cbn [negb]|done]. intros (? & _ & H)%bind_ok.
  destruct (existsb _ (mp_RevokedKeyIDs _)) eqn:E9; [done|]. destruct (existsb _ (mp_RevokedArtifactHashes _)) eqn:E10; [done|].
  apply existsb_beq in E9, E10. b2p. destruct (FindPublicKey _ _) as [ml|]; [|done]. destruct (beq (pkm_PublicKeyFingerprint ml) []); [done|].
  injection H as <-. rewrite E5 in E6. repeat split; try done. by exists c.
Qed.

Lemma verify_manifest_vouched now raw platform env w payload : verifyManifestBundle now raw platform env w = Ok payload →
  ValidatePublicKeyEnvelope platform [ProfileRoot] now = Ok () ∧ vouched platform env payload.
Proof.
  unfold verifyManifestBundle. intros ([] & H1 & (praw & H2 & (p & H3 & H4)%bind_ok)%bind_ok)%bind_ok.
  apply check_manifest_ok in H4 as (-> & Hh & Hk & Hid & Hr). apply of_option_ok in H3.
  destruct (ValidatePublicKeyEnvelope _ _ _) as [[]|]; [|done]. destruct (VerifyPayload _ _ _ _) as [x|] eqn:Ev; [|done]. injection H2 as ->.
  split; [done|]. split; try done. by exists raw, praw.
Qed.

(** What a loaded key is made of. *)
Record key_stands (platform : PublicKeyEnvelope) (keyID : bytes) (km : WitnessKeyMaterial) : Prop := {
  ks_id : km_KeyID km = keyID ∧ pke_KeyID (km_envelope km) = keyID;
  ks_vouched : ∃ payload, vouched platform (km_envelope km) payload ∧ time_Parse (mp_ExpiresAt payload) = Some (km_ExpiresAt km) ∧
    (mp_NotBefore payload = [] ∧ km_NotBefore km = time_zero ∨ time_Parse (mp_NotBefore payload) = Some (km_NotBefore km));
  ks_material : ∃ wm, FindPublicKey (km_envelope km) SigAlg = Some wm ∧ km_Fingerprint km = pkm_PublicKeyFingerprint wm ∧
    b64_decode (pkm_PublicKeyB64 wm) = Some (km_PublicKey km);
  ks_shape : ValidatePublicKeyEnvelopeShape (km_envelope km) [ProfileRoot] = Ok ();
}.

Lemma load_file_stands now read keyID platform km : loadWitnessKeyFile now read keyID platform = Ok km →
  ValidatePublicKeyEnvelope platform [ProfileRoot] now = Ok () ∧ key_stands platform keyID km.
Proof.
  unfold loadWitnessKeyFile. intros (raw & _ & (ms & _ & H)%bind_ok)%bind_ok. destruct (_ || _); [done|].
  apply bind_ok in H as (canonical & _ & (env & _ & H)%bind_ok). destruct (beq (pke_KeyID env) keyID) eqn:Ek; [cbn [negb] in H|done].
  apply bind_ok in H as ([] & Hs & (payload & Hv & (wm & Hw & (pub & Hp & (nb & Hnb & (ex & Hex & [= <-])%bind_ok)%bind_ok)%bind_ok)%bind_ok)%bind_ok).
  apply of_option_ok in Hw, Hp, Hex. apply verify_manifest_vouched in Hv as [Hval Hv]. b2p. split; [done|]. split; cbn.
  - done.
  - exists payload. split; [done|]. split; [done|]. destruct (beq (mp_NotBefore payload) []) eqn:En; b2p; [left|right].
    + by injection Hnb as <-.
    + by apply of_option_ok in Hnb.
  - by exists wm.
  - by destruct (ValidatePublicKeyEnvelopeShape env _) as [[]|].
Qed.

Definition stands_in (d : gmap bytes bytes) (platform : PublicKeyEnvelope) (keys : gmap bytes WitnessKeyMaterial) : Prop :=
  ∀ keyID km, keys !! keyID = Some km → is_Some (d !! key_file_name keyID) ∧ key_stands platform keyID km.

Lemma TrimSuffix_name name : skipped_entry name = false → key_file_name (TrimSuffix name (bs ".json")) = name.
Proof.
  unfold skipped_entry. intros [H _]%orb_false_iff. apply negb_false_iff in H. unfold key_file_name, TrimSuffix. rewrite H.
  unfold HasSuffix in H. apply andb_true_iff in H as [_ H]. apply beq_true in H. rewrite <- H at 2. apply take_drop.
Qed.

Lemma load_entries_stand now reads platform d l : ∀ keys keys', (∀ kv, kv ∈ l → d !! kv.1 = Some kv.2) → stands_in d platform keys →
  foldl (load_entry now reads platform) (Ok keys) l = Ok keys' → stands_in d platform keys'.
Proof.
  induction l as [|[name content] l IH]; intros keys keys' Hl Hk; cbn [foldl]; [by intros [= <-]|].
  assert (∀ e, foldl (load_entry now reads platform) (Err e) l = Err e) as Herr by (intros e; clear; induction l; [done|exact IHl]).
  unfold load_entry at 2. cbn [mbind result_bind fst snd]. destruct (skipped_entry name) eqn:Es; [apply IH; [intros; apply Hl; by right|done]|].
  destruct (loadWitnessKeyFile _ _ _ _) as [km|e] eqn:E; cbn [mbind result_bind]; [|by rewrite Herr].
  apply IH; [intros; apply Hl; by right|]. intros keyID km'. rewrite lookup_insert_Some. intros [[<- <-]|[_ H]]; [|by apply Hk].
  rewrite (TrimSuffix_name _ Es). split; [exists content; apply (Hl (name, content)); by left|]. by eapply load_file_stands.
Qed.

(** C19. Every key the head verifier is loaded with stands on the platform root:
    it comes from the file of its name; a manifest signed by the platform names
    the hash of its canonical envelope and its id, and revokes neither; its
    window is the manifest's; and the public key is the ML-DSA key of the
    envelope. *)
Theorem loaded_keys_vouched now reads d platform keys : LoadWitnessKeys now reads (Some d) (Some platform) = Ok keys → stands_in d platform keys.
Proof.
  unfold LoadWitnessKeys. cbn [of_option mbind result_bind]. apply load_entries_stand.
  - intros [k v] H. by apply elem_of_map_to_list.
  - intros keyID km H. by rewrite lookup_empty in H.
Qed.
End Facts.
