(* ===== verification/WitnessWire.v ===== *)
(** * internal/witness: what is sent, answered and kept

    The request and the receipt with their signatures (protocol.go), the check
    of a receipt against its request and the conflicts a witness can answer with
    (client.go), the identity a request is made for (identity.go), and the two
    documents kept beside the ledger while an exchange is under way
    (pending.go), with their readings. *)

From stdpp Require Import gmap.
From S2P Require Import Prelude Utf8 GoJson CanonicalJson CanonicalJsonFacts GoStruct Crypto Event Lines Chain Time Container SigEnvelope Witness.

(** ** The wire (protocol.go) *)

Record WitnessSig := mkWitnessSig {
  ws_SignatureProfile : bytes; ws_Alg : bytes; ws_KeyID : bytes; ws_PublicKeyFingerprint : bytes; ws_SignatureInputSHA256 : bytes; ws_SigB64 : bytes;
}.

(** [WitnessReceipt]: the signed part and its signature. *)
Record Receipt := mkSignedReceipt { rc : WitnessReceipt; rc_sig : WitnessSig }.

Record WitnessRequest := mkRequest { rq_IdentityID : bytes; rq_PublicKey : bytes; rq_Ordinal : Z; rq_Hash : bytes; rq_sig : WitnessSig }.

Definition ProfileFast : bytes := bs "AIII-PQ-SIGNATURE-V1-FAST".

(** ** Conflicts (client.go) *)

Definition conflictMsgCadence : bytes := bs "witness bookmark cadence below hosted minimum".
Definition conflictMsgRollbackFork : bytes := bs "witness bookmark rollback or fork".
Definition conflictMsgIdentityMismatch : bytes := bs "identity public key does not match registered witness identity".

Record ConflictError := mkConflict { ce_Message : bytes; ce_Local : bool; ce_WitnessSide : bool; ce_WitnessForm : bool }.

Inductive ReplyKind := ReplyInWitnessForm | ReplyEmpty | ReplyPage | ReplyJSON | ReplyText.
#[export] Instance ReplyKind_eq_dec : EqDecision ReplyKind.
Proof. solve_decision. Defined.

Definition Kind (e : ConflictError) : ReplyKind :=
  let m := TrimSpace (ce_Message e) in
  if ce_WitnessForm e then ReplyInWitnessForm
  else if beq m [] then ReplyEmpty
  else if HasPrefix m (bs "<") then ReplyPage
  else if HasPrefix m (bs "{") || HasPrefix m (bs "[") then ReplyJSON
  else ReplyText.

Definition IsCadence (e : ConflictError) : bool := negb (ce_Local e) && beq (ce_Message e) conflictMsgCadence.
Definition IsIntegrity (e : ConflictError) : bool :=
  if ce_Local e then negb (ce_WitnessSide e)
  else beq (ce_Message e) conflictMsgRollbackFork || beq (ce_Message e) conflictMsgIdentityMismatch.
Definition Unrecognised (e : ConflictError) : bool := negb (ce_Local e) && negb (IsCadence e) && negb (IsIntegrity e).

(** ** Receipts *)

Inductive receipt_err := RIdentity | RFields | RProfile | RAlg | RKeyID | RNoMaterial | RFingerprint | RInput | RKeyEncoding | RSigEncoding | RVerify (e : crypto_err).

Section Wire.
Context `{P : Primitives}.

Definition VerifyReceipt (r : Receipt) (req : WitnessRequest) (witnessKey : PublicKeyEnvelope) : result receipt_err unit :=
  let sig := rc_sig r in
  if negb (beq (IdentityID (rc r)) (rq_IdentityID req)) then Err RIdentity
  else if negb (LedgerOrdinal (rc r) =? rq_Ordinal req) || negb (beq (LedgerHash (rc r)) (rq_Hash req)) then Err RFields
  else if negb (beq (ws_SignatureProfile sig) ProfileFast) then Err RProfile
  else if negb (beq (ws_Alg sig) SigAlg) then Err RAlg
  else if negb (beq (ws_KeyID sig) (pke_KeyID witnessKey)) then Err RKeyID
  else
    wm ← of_option RNoMaterial (FindPublicKey witnessKey SigAlg);
    if negb (beq (ws_PublicKeyFingerprint sig) (pkm_PublicKeyFingerprint wm)) then Err RFingerprint
    else
      let input := ReceiptSignatureInput (rc r) in
      if negb (beq (SHA256Prefixed input) (ws_SignatureInputSHA256 sig)) then Err RInput
      else
        pub ← of_option RKeyEncoding (b64_decode (pkm_PublicKeyB64 wm));
        raw ← of_option RSigEncoding (b64_decode (ws_SigB64 sig));
        map_err RVerify (Verify pub input raw).

(** ** The identity (identity.go) *)

Definition identityIDFor (mlFingerprint canonicalEnvelope : bytes) : bytes :=
  bs "did:aiii:identity:sha256:" ++
  TrimPrefix (SHA256Prefixed (IdentityIDMaterial mlFingerprint (SHA256Prefixed canonicalEnvelope))) (bs "sha256:").

Definition DeriveIdentityID (canonicalEnvelope : bytes) (env : PublicKeyEnvelope) : option bytes :=
  ml ← FindPublicKey env SigAlg; Some (identityIDFor (pkm_PublicKeyFingerprint ml) canonicalEnvelope).

(** [SignInput] and [SignRequest]; an envelope without the key gives the empty
    fingerprint. *)
Definition SignInput (kp : KeyPair) (env : PublicKeyEnvelope) (input : bytes) : result crypto_err WitnessSig :=
  sig ← Sign kp input;
  mret (mkWitnessSig ProfileFast SigAlg (pke_KeyID env)
    (match FindPublicKey env SigAlg with Some ml => pkm_PublicKeyFingerprint ml | None => [] end) (SHA256Prefixed input) (b64_encode sig)).
Definition SignRequest (kp : KeyPair) (env : PublicKeyEnvelope) (identityID : bytes) (ordinal : Z) (hash canonicalEnvelope : bytes) : result crypto_err WitnessSig :=
  SignInput kp env (RequestSignatureInput identityID canonicalEnvelope ordinal hash).
End Wire.

(** ** Documents *)

Definition sig_document (s : WitnessSig) : bytes :=
  field_object ((if beq (ws_SignatureProfile s) [] then [] else [(bs "signature_profile", json_string true (ws_SignatureProfile s))]) ++
    [(bs "alg", json_string true (ws_Alg s)); (bs "key_id", json_string true (ws_KeyID s));
     (bs "public_key_fingerprint", json_string true (ws_PublicKeyFingerprint s));
     (bs "signature_input_sha256", json_string true (ws_SignatureInputSHA256 s)); (bs "sig_b64", json_string true (ws_SigB64 s))]).

Definition receipt_document (r : Receipt) : bytes :=
  field_object [(bs "identity_id", json_string true (IdentityID (rc r)));
    (bs "previous_witnessed_ledger_ordinal", FormatInt (PreviousWitnessedLedgerOrdinal (rc r)));
    (bs "previous_witnessed_ledger_hash", json_string true (PreviousWitnessedLedgerHash (rc r)));
    (bs "ledger_ordinal", FormatInt (LedgerOrdinal (rc r))); (bs "ledger_hash", json_string true (LedgerHash (rc r)));
    (bs "witnessed_at", json_string true (WitnessedAt (rc r))); (bs "witness_signature", sig_document (rc_sig r))].

(** A [json.RawMessage] is compacted and escaped. *)
Definition request_document (q : WitnessRequest) : bytes :=
  field_object [(bs "identity_id", json_string true (rq_IdentityID q)); (bs "identity_public_key", compact false false (rq_PublicKey q));
    (bs "ledger_ordinal", FormatInt (rq_Ordinal q)); (bs "ledger_hash", json_string true (rq_Hash q)); (bs "identity_signature", sig_document (rq_sig q))].

(** What [writePendingReceipt] and [writePendingRequest] publish; [at_] is the
    clock's text. *)
Definition pending_receipt_document (r : Receipt) (at_ : bytes) : bytes :=
  field_object [(bs "identity_id", json_string true (IdentityID (rc r))); (bs "ledger_ordinal", FormatInt (LedgerOrdinal (rc r)));
    (bs "ledger_hash", json_string true (LedgerHash (rc r))); (bs "receipt", receipt_document r); (bs "written_at", json_string true at_)].
Definition pending_request_document (q : WitnessRequest) (at_ : bytes) : bytes :=
  field_object [(bs "identity_id", json_string true (rq_IdentityID q)); (bs "ledger_ordinal", FormatInt (rq_Ordinal q));
    (bs "ledger_hash", json_string true (rq_Hash q)); (bs "request", request_document q); (bs "written_at", json_string true at_)].

(** ** Reading them *)

(** A struct field: each occurrence is decoded over what is there. *)
Definition struct_field {A} (decode : A → bytes → option A) (zero : A) (name : bytes) (ms : list (bytes * bytes)) : option A :=
  foldl (λ acc raw, cur ← acc; if beq raw null_text then Some cur else decode cur raw) (Some zero) (occurrences name ms).

(** A struct inside another; [d] refuses members it has no field for. *)
Definition decode_sig_with (d : bool) (prior : WitnessSig) (raw : bytes) : option WitnessSig :=
  ms ← struct_members false d [bs "signature_profile"; bs "alg"; bs "key_id"; bs "public_key_fingerprint"; bs "signature_input_sha256"; bs "sig_b64"] raw;
  profile ← field conv_string (ws_SignatureProfile prior) (bs "signature_profile") ms;
  alg ← field conv_string (ws_Alg prior) (bs "alg") ms;
  key ← field conv_string (ws_KeyID prior) (bs "key_id") ms;
  fp ← field conv_string (ws_PublicKeyFingerprint prior) (bs "public_key_fingerprint") ms;
  sum ← field conv_string (ws_SignatureInputSHA256 prior) (bs "signature_input_sha256") ms;
  sig ← field conv_string (ws_SigB64 prior) (bs "sig_b64") ms;
  Some (mkWitnessSig profile alg key fp sum sig).
Definition decode_sig : WitnessSig → bytes → option WitnessSig := decode_sig_with true.

Definition zero_sig : WitnessSig := mkWitnessSig [] [] [] [] [] [].
Definition zero_receipt : Receipt := mkSignedReceipt (mkReceipt [] 0 [] 0 [] []) zero_sig.
Definition zero_request : WitnessRequest := mkRequest [] [] 0 [] zero_sig.

Definition decode_receipt_with (strict d : bool) (prior : Receipt) (raw : bytes) : option Receipt :=
  ms ← struct_members strict d [bs "identity_id"; bs "previous_witnessed_ledger_ordinal"; bs "previous_witnessed_ledger_hash";
        bs "ledger_ordinal"; bs "ledger_hash"; bs "witnessed_at"; bs "witness_signature"] raw;
  id ← field conv_string (IdentityID (rc prior)) (bs "identity_id") ms;
  pord ← field conv_int (PreviousWitnessedLedgerOrdinal (rc prior)) (bs "previous_witnessed_ledger_ordinal") ms;
  phash ← field conv_string (PreviousWitnessedLedgerHash (rc prior)) (bs "previous_witnessed_ledger_hash") ms;
  ord ← field conv_int (LedgerOrdinal (rc prior)) (bs "ledger_ordinal") ms;
  hash ← field conv_string (LedgerHash (rc prior)) (bs "ledger_hash") ms;
  at_ ← field conv_string (WitnessedAt (rc prior)) (bs "witnessed_at") ms;
  sig ← struct_field (decode_sig_with d) (rc_sig prior) (bs "witness_signature") ms;
  Some (mkSignedReceipt (mkReceipt id pord phash ord hash at_) sig).
Definition decode_full_receipt : Receipt → bytes → option Receipt := decode_receipt_with false true.

Definition or_raw (raw prior : bytes) : bytes := if beq raw [] then prior else raw.
Definition decode_request (prior : WitnessRequest) (raw : bytes) : option WitnessRequest :=
  ms ← struct_members false true [bs "identity_id"; bs "identity_public_key"; bs "ledger_ordinal"; bs "ledger_hash"; bs "identity_signature"] raw;
  id ← field conv_string (rq_IdentityID prior) (bs "identity_id") ms;
  ord ← field conv_int (rq_Ordinal prior) (bs "ledger_ordinal") ms;
  hash ← field conv_string (rq_Hash prior) (bs "ledger_hash") ms;
  sig ← struct_field decode_sig (rq_sig prior) (bs "identity_signature") ms;
  Some (mkRequest id (or_raw (raw_field (bs "identity_public_key") ms) (rq_PublicKey prior)) ord hash sig).

(** [jsonUnmarshalStrict] refuses a second value after the first, and takes any
    other text there. *)
Definition second_value (s : bytes) : bool :=
  match value_end (skip_space s) with Some rest => bool_decide (is_Some (value_end (skip_space rest))) | None => false end.

Record pendingReceipt := mkPendingReceipt { pr_IdentityID : bytes; pr_Ordinal : Z; pr_Hash : bytes; pr_Receipt : Receipt; pr_WrittenAt : bytes; pr_writtenAt : Z }.
Record pendingRequest := mkPendingRequest { pq_IdentityID : bytes; pq_Ordinal : Z; pq_Hash : bytes; pq_Request : WitnessRequest; pq_WrittenAt : bytes }.

Inductive pending_err := PUnreadable | PCorrupt | PMalformed.

(** A document of either kind, as it is decoded. *)
Definition decode_pending {A} (body : bytes) (decode : A → bytes → option A) (zero : A) (raw : bytes) : option (bytes * Z * bytes * A * bytes) :=
  if second_value raw then None
  else
    ms ← struct_members false true [bs "identity_id"; bs "ledger_ordinal"; bs "ledger_hash"; body; bs "written_at"] raw;
    id ← field conv_string [] (bs "identity_id") ms;
    ord ← field conv_int 0 (bs "ledger_ordinal") ms;
    hash ← field conv_string [] (bs "ledger_hash") ms;
    x ← struct_field decode zero body ms;
    at_ ← field conv_string [] (bs "written_at") ms;
    Some (id, ord, hash, x, at_).

(** The header names what the body names. *)
Definition names_body (id : bytes) (ord : Z) (hash : bytes) (id' : bytes) (ord' : Z) (hash' : bytes) : bool :=
  negb (beq id [] || (ord <? 1) || beq hash [] || negb (beq id id') || negb (ord =? ord') || negb (beq hash hash')).

(** [file] is what reading it gave: an error, no file, or its content. *)
Definition readPendingReceipt (file : result unit (option bytes)) : result pending_err (option pendingReceipt) :=
  match file with
  | Err _ => Err PUnreadable
  | Ok None => Ok None
  | Ok (Some raw) =>
    match decode_pending (bs "receipt") decode_full_receipt zero_receipt raw with
    | None => Err PCorrupt
    | Some (id, ord, hash, r, at_) =>
      if negb (names_body id ord hash (IdentityID (rc r)) (LedgerOrdinal (rc r)) (LedgerHash (rc r))) then Err PMalformed
      else match time_Parse at_ with
           | None => Err PMalformed
           | Some t => Ok (Some (mkPendingReceipt id ord hash r at_ t))
           end
    end
  end.

Definition readPendingRequest (file : result unit (option bytes)) : result pending_err (option pendingRequest) :=
  match file with
  | Err _ => Err PUnreadable
  | Ok None => Ok None
  | Ok (Some raw) =>
    match decode_pending (bs "request") decode_request zero_request raw with
    | None => Err PCorrupt
    | Some (id, ord, hash, q, at_) =>
      if negb (names_body id ord hash (rq_IdentityID q) (rq_Ordinal q) (rq_Hash q)) then Err PMalformed
      else Ok (Some (mkPendingRequest id ord hash q at_))
    end
  end.

(** [sameReceipt]: the signed parts agree. *)
Definition sameReceipt (a b : Receipt) : bool :=
  beq (IdentityID (rc a)) (IdentityID (rc b)) && (LedgerOrdinal (rc a) =? LedgerOrdinal (rc b)) && beq (LedgerHash (rc a)) (LedgerHash (rc b)) &&
  (PreviousWitnessedLedgerOrdinal (rc a) =? PreviousWitnessedLedgerOrdinal (rc b)) &&
  beq (PreviousWitnessedLedgerHash (rc a)) (PreviousWitnessedLedgerHash (rc b)) && beq (WitnessedAt (rc a)) (WitnessedAt (rc b)).

Lemma sameReceipt_rc a b : sameReceipt a b = true ↔ rc a = rc b.
Proof.
  unfold sameReceipt. rewrite !andb_true_iff, !beq_true, !Z.eqb_eq. destruct (rc a), (rc b); cbn. split; [|by intros [= <- <- <- <- <- <-]].
  intros [[[[[<- <-] <-] <-] <-] <-]. done.
Qed.

(** ** What the witness answers (client.go) *)

(** [tlsfault.Printable]: runes that do not print become spaces, and a text as
    long as [max] is cut; [isPrint] is [unicode.IsPrint]. *)
Fixpoint printable_runes (isPrint : Z → bool) (max : Z) (said : bytes) (rs : list Z) : bytes :=
  match rs with
  | [] => said
  | r :: rs' =>
    if max <=? Z.of_nat (length said) then said ++ [226; 128; 166]
    else printable_runes isPrint max (said ++ EncodeRune (if isPrint r then r else 32)) rs'
  end.
Definition Printable (isPrint : Z → bool) (s : bytes) (max : Z) : bytes := printable_runes isPrint max [] (runes s).
Definition MaxSaid : Z := 200.

Definition newConflictError (isPrint : Z → bool) (body : bytes) : ConflictError :=
  match (ms ← struct_members true false [bs "error"] body; field conv_string [] (bs "error") ms) with
  | Some ((_ :: _) as error) => mkConflict (Printable isPrint error MaxSaid) false false true
  | _ => mkConflict (Printable isPrint (TrimSpace body) MaxSaid) false false false
  end.

Inductive answer := Answers (r : Receipt) (first : bool) | Conflicts (e : ConflictError) | NoAnswer.

(** [Bookmark] after the request left: [reply] is the status and what was read of
    the body, none when the exchange failed. *)
Definition Bookmark (isPrint : Z → bool) (reply : option (Z * bytes)) : answer :=
  match reply with
  | None => NoAnswer
  | Some (status, body) =>
    if status =? 409 then Conflicts (newConflictError isPrint body)
    else if negb (status =? 201) && negb (status =? 200) then NoAnswer
    else match decode_receipt_with true false zero_receipt body with
         | None => NoAnswer
         | Some r => Answers r (status =? 201)
         end
  end.

(** [Status]: the cadence the witness asks for. *)
Definition Status (served : option bytes) : option Z :=
  body ← served; ms ← struct_members true false [bs "min_periodic_cadence"] body; field conv_int 0 (bs "min_periodic_cadence") ms.

(** ** What is kept reads back *)

Record wf_sig (s : WitnessSig) : Prop := {
  wf_profile : wf_text (ws_SignatureProfile s); wf_alg : wf_text (ws_Alg s); wf_keyid : wf_text (ws_KeyID s);
  wf_fingerprint : wf_text (ws_PublicKeyFingerprint s); wf_sum : wf_text (ws_SignatureInputSHA256 s); wf_b64 : wf_text (ws_SigB64 s);
}.
Record wf_receipt (r : Receipt) : Prop := {
  wf_rid : wf_text (IdentityID (rc r)); wf_rphash : wf_text (PreviousWitnessedLedgerHash (rc r)); wf_rhash : wf_text (LedgerHash (rc r));
  wf_rat : wf_text (WitnessedAt (rc r)); wf_rpord : int64_ok (PreviousWitnessedLedgerOrdinal (rc r)) = true;
  wf_rord : int64_ok (LedgerOrdinal (rc r)) = true; wf_rsig : wf_sig (rc_sig r);
}.
(** The key text is canonical and has nothing [json.Marshal] escapes. *)
Record wf_request (q : WitnessRequest) : Prop := {
  wf_qid : wf_text (rq_IdentityID q); wf_qhash : wf_text (rq_Hash q); wf_qord : int64_ok (rq_Ordinal q) = true; wf_qsig : wf_sig (rq_sig q);
  wf_qkey : canonical (rq_PublicKey q); wf_qplain : compact false false (rq_PublicKey q) = rq_PublicKey q; wf_qsome : rq_PublicKey q ≠ [];
}.

(** The texts of the fields, tidy one by one. *)
Lemma tidy_text s : wf_text s → ∃ v, tidy (json_string true s) v.
Proof. intros [H1 H2]. exists (JStr s). by apply tidy_string. Qed.
Lemma tidy_int z : ∃ v, tidy (FormatInt z) v.
Proof. exists (JNum (FormatInt z)). apply tidy_number, FormatInt_number. Qed.

Lemma tidy_list l : Forall (λ kv : bytes * bytes, Valid kv.1 = true ∧ ∃ v, tidy kv.2 v) l → ∃ vs, tidy_fields l vs.
Proof.
  induction 1 as [|kv l (Hk & v & Hv) _ (vs & IH)]; [by exists []; constructor|]. exists (v :: vs). by constructor.
Qed.

Lemma tidy_doc l : Forall (λ kv : bytes * bytes, Valid kv.1 = true ∧ ∃ v, tidy kv.2 v) l → NoDup l.*1 → ∃ v, tidy (field_object l) v.
Proof. intros (vs & H)%tidy_list Hnd. eexists. by apply (tidy_object l vs). Qed.

Lemma struct_members_doc d names l : Forall (λ kv : bytes * bytes, Valid kv.1 = true ∧ ∃ v, tidy kv.2 v) l → NoDup l.*1 →
  Forall (λ kv : bytes * bytes, existsb (beq kv.1) names = true) l → struct_members false d names (field_object l) = Some l.
Proof. intros (vs & H)%tidy_list Hnd Hn. by apply (struct_members_fields _ _ _ _ vs). Qed.

Lemma struct_field_at {A} (decode : A → bytes → option A) zero name l raw a : NoDup l.*1 → (name, raw) ∈ l → raw ≠ null_text →
  decode zero raw = Some a → struct_field decode zero name l = Some a.
Proof. intros Hnd Hin Hn%beq_false Hd. unfold struct_field. rewrite (occurrences_one _ _ _ Hnd Hin). cbn. by rewrite Hn. Qed.

Lemma object_not_null l : field_object l ≠ null_text.
Proof. by intros [=]. Qed.

Lemma one_doc l : Forall (λ kv : bytes * bytes, Valid kv.1 = true ∧ ∃ v, tidy kv.2 v) l → NoDup l.*1 → second_value (field_object l) = false.
Proof.
  intros H Hnd. destruct (tidy_doc l H Hnd) as (v & Hv & _). unfold second_value.
  pose proof (value_end_text (field_object l) v [] Hv I) as He. pose proof (skip_space_starts (field_object l) [] (proj1 Hv)) as Hs.
  rewrite app_nil_r in He, Hs. by rewrite Hs, He.
Qed.

(** Read every field of a document whose list of members is in the goal. *)
Ltac in_list := repeat first [left; reflexivity|right].
Ltac pick name l := lazymatch l with (name, ?raw) :: _ => raw | _ :: ?t => pick name t end.
Ltac read_fields Hnd :=
  repeat lazymatch goal with
  | |- context [field conv_string ?z ?n ?l] =>
    let raw := pick n l in lazymatch raw with json_string true ?s =>
      rewrite (field_at conv_string z n l raw s Hnd ltac:(in_list) eq_refl ltac:(apply conv_json_string; assumption)) end
  | |- context [field conv_int ?z ?n ?l] =>
    let raw := pick n l in lazymatch raw with FormatInt ?x =>
      rewrite (field_at conv_int z n l raw x Hnd ltac:(in_list) eq_refl ltac:(apply ParseInt_Format; assumption)) end
  end; cbn [mbind option_bind].
Ltac doc_names := vm_compute; repeat constructor; set_solver.
Ltac doc_fields := repeat (constructor; [split; [reflexivity|first [apply tidy_text; split; assumption|apply tidy_int|eauto]]|]); constructor.

Lemma decode_sig_document prior s : wf_sig s → ws_SignatureProfile prior = [] → decode_sig prior (sig_document s) = Some s.
Proof.
  intros [[H1 H1'] [H2 H2'] [H3 H3'] [H4 H4'] [H5 H5'] [H6 H6']] Hp. unfold decode_sig, decode_sig_with, sig_document. destruct (beq (ws_SignatureProfile s) []) eqn:E; cbn [app].
  - b2p. rewrite struct_members_doc; [|doc_fields|doc_names|by repeat constructor]. cbn [mbind option_bind].
    match goal with |- context [field _ _ (bs "alg") ?l] => assert (NoDup l.*1) as Hnd by doc_names; assert (bs "signature_profile" ∉ l.*1) as Hno by (vm_compute; set_solver) end.
    rewrite (field_absent _ _ _ _ Hno), Hp. read_fields Hnd. destruct s; cbn in *; congruence.
  - rewrite struct_members_doc; [|doc_fields|doc_names|by repeat constructor]. cbn [mbind option_bind].
    match goal with |- context [field _ _ (bs "alg") ?l] => assert (NoDup l.*1) as Hnd by doc_names end.
    read_fields Hnd. by destruct s.
Qed.

Lemma tidy_sig s : wf_sig s → ∃ v, tidy (sig_document s) v.
Proof.
  intros [[H1 H1'] [H2 H2'] [H3 H3'] [H4 H4'] [H5 H5'] [H6 H6']]. unfold sig_document. destruct (beq (ws_SignatureProfile s) []); cbn [app];
    (apply tidy_doc; [doc_fields|doc_names]).
Qed.

Lemma decode_receipt_document r : wf_receipt r → decode_full_receipt zero_receipt (receipt_document r) = Some r.
Proof.
  intros [[H1 H1'] [H2 H2'] [H3 H3'] [H4 H4'] H5 H6 Hs]. pose proof (tidy_sig _ Hs) as Ht. unfold decode_full_receipt, decode_receipt_with, receipt_document.
  rewrite struct_members_doc; [|doc_fields|doc_names|by repeat constructor]. cbn [mbind option_bind].
  match goal with |- context [field _ _ (bs "witnessed_at") ?l] => assert (NoDup l.*1) as Hnd by doc_names end.
  read_fields Hnd. rewrite (struct_field_at (decode_sig_with true) _ _ _ (sig_document (rc_sig r)) (rc_sig r)); [|done|in_list|apply object_not_null|by apply decode_sig_document].
  by destruct r as [[] ?].
Qed.

Lemma tidy_receipt r : wf_receipt r → ∃ v, tidy (receipt_document r) v.
Proof. intros [[H1 H1'] [H2 H2'] [H3 H3'] [H4 H4'] H5 H6 Hs]. pose proof (tidy_sig _ Hs). apply tidy_doc; [doc_fields|doc_names]. Qed.

Lemma tidy_request q : wf_request q → ∃ v, tidy (request_document q) v.
Proof.
  intros [[H1 H1'] [H2 H2'] H3 Hs Hk Hc Hn]. pose proof (tidy_sig _ Hs). unfold request_document. rewrite Hc.
  destruct (tidy_canonical _ Hk) as (v & Hv & _). apply tidy_doc; [doc_fields|doc_names].
Qed.

Lemma decode_request_document q : wf_request q → decode_request zero_request (request_document q) = Some q.
Proof.
  intros [[H1 H1'] [H2 H2'] H3 Hs Hk Hc Hn]. pose proof (tidy_sig _ Hs) as Ht. unfold decode_request, request_document. rewrite Hc.
  destruct (tidy_canonical _ Hk) as (v & Hv & _).
  rewrite struct_members_doc; [|doc_fields|doc_names|by repeat constructor]. cbn [mbind option_bind].
  match goal with |- context [field _ _ (bs "ledger_hash") ?l] => assert (NoDup l.*1) as Hnd by doc_names end.
  read_fields Hnd. rewrite (struct_field_at decode_sig _ _ _ (sig_document (rq_sig q)) (rq_sig q)); [|done|in_list|apply object_not_null|by apply decode_sig_document].
  cbn [mbind option_bind]. rewrite (raw_field_at (bs "identity_public_key") _ (rq_PublicKey q)) by (done || in_list).
  unfold or_raw. rewrite (proj2 (beq_false _ _) Hn). by destruct q.
Qed.

(** A document of either kind. *)
Lemma decode_pending_document {A} body (decode : A → bytes → option A) zero id ord hash doc x at_ :
  wf_text id → int64_ok ord = true → wf_text hash → wf_text at_ → (∃ l, doc = field_object l) → (∃ v, tidy doc v) → decode zero doc = Some x →
  body = bs "receipt" ∨ body = bs "request" →
  decode_pending body decode zero (field_object [(bs "identity_id", json_string true id); (bs "ledger_ordinal", FormatInt ord);
    (bs "ledger_hash", json_string true hash); (body, doc); (bs "written_at", json_string true at_)]) = Some (id, ord, hash, x, at_).
Proof.
  intros [H1 H1'] H2 [H3 H3'] [H4 H4'] [l ->] Ht Hd Hb. unfold decode_pending. destruct Hb as [-> | ->];
    (rewrite one_doc; [|doc_fields|doc_names]; rewrite struct_members_doc; [|doc_fields|doc_names|by repeat constructor]; cbn [mbind option_bind];
     match goal with |- context [field _ _ (bs "ledger_hash") ?m] => assert (NoDup m.*1) as Hnd by doc_names end;
     read_fields Hnd; erewrite struct_field_at; [|done|in_list|apply object_not_null|exact Hd]; cbn [mbind option_bind]; read_fields Hnd; done).
Qed.

Lemma names_body_refl id ord hash : id ≠ [] → 1 ≤ ord → hash ≠ [] → names_body id ord hash id ord hash = true.
Proof.
  intros H1%beq_false H2 H3%beq_false. unfold names_body. rewrite H1, H3, !beq_refl, Z.eqb_refl. cbn.
  destruct (Z.ltb_spec ord 1); [lia|done].
Qed.

Lemma pending_receipt_reads r at_ t : wf_receipt r → IdentityID (rc r) ≠ [] → 1 ≤ LedgerOrdinal (rc r) → LedgerHash (rc r) ≠ [] → wf_text at_ →
  time_Parse at_ = Some t → readPendingReceipt (Ok (Some (pending_receipt_document r at_))) =
    Ok (Some (mkPendingReceipt (IdentityID (rc r)) (LedgerOrdinal (rc r)) (LedgerHash (rc r)) r at_ t)).
Proof.
  intros Hr H1 H2 H3 Ha Ht. unfold readPendingReceipt, pending_receipt_document. destruct (Hr) as [? ? ? ? ? ? ?].
  rewrite (decode_pending_document _ _ _ _ _ _ _ r); try done; [|by eexists|by apply tidy_receipt|by apply decode_receipt_document|by left].
  rewrite names_body_refl by done. cbn [negb]. by rewrite Ht.
Qed.

Lemma pending_request_reads q at_ : wf_request q → rq_IdentityID q ≠ [] → 1 ≤ rq_Ordinal q → rq_Hash q ≠ [] → wf_text at_ →
  readPendingRequest (Ok (Some (pending_request_document q at_))) =
    Ok (Some (mkPendingRequest (rq_IdentityID q) (rq_Ordinal q) (rq_Hash q) q at_)).
Proof.
  intros Hq H1 H2 H3 Ha. unfold readPendingRequest, pending_request_document. destruct (Hq) as [? ? ? ? ? ? ?].
  rewrite (decode_pending_document _ _ _ _ _ _ _ q); try done; [|by eexists|by apply tidy_request|by apply decode_request_document|by right].
  by rewrite names_body_refl by done.
Qed.
