(* ===== verification/Anchor.v ===== *)
(** * internal/witness/anchor.go, pending.go: anchoring the record

    A pass of the anchorer: it settles a receipt an earlier pass kept, decides
    whether to ask, asks the witness to sign the record's end, holds the answer
    to the rule the next boot will hold it to, keeps it beside the ledger and
    mints it as a head.  The state is the anchorer's own, the record, the files
    beside it and what was done so far; what the machine, the network and the
    witness do is the argument [env], one field for each place that asks. *)

From stdpp Require Import gmap.
From S2P Require Import Prelude Utf8 GoJson CanonicalJson CanonicalJsonFacts GoStruct Crypto Event Lines Chain Time Container SigEnvelope Witness WitnessKeys WitnessWire.

(** ** State *)

Inductive act :=
| Sent (q : WitnessRequest)
| Minted (r : Receipt) (keyID : bytes) (before : list Event)   (** the record it was minted after *)
| SealedAt (seq : Z)
| ToldConflict (e : ConflictError)
| ToldUnrecognised (e : ConflictError).

Record world := mkWorld {
  w_chain : list Event;                    (** the record *)
  w_frozen : bool;                         (** the ledger takes nothing until a restart *)
  w_keys : option (gmap bytes bytes);      (** the directory witness-keys *)
  w_files : gmap bytes bytes;              (** the files beside the ledger *)
  w_lastAnchoredSeq : Z;
  w_lastReceipt : option Receipt;
  w_conflict : option ConflictError;
  w_told : list ReplyKind;
  w_floorLogged : bool;
  w_log : list act;                        (** what was done, in order *)
}.

Record config := mkConfig {
  cf_minter : bool;                        (** [minter != nil] *)
  cf_sealer : bool; cf_pause : bool;
  cf_interval : Z;
  cf_key_source : bool;                    (** a platform key path or a genesis URL *)
  cf_key : KeyPair;
}.

Definition with_files (f : gmap bytes bytes → gmap bytes bytes) (w : world) : world :=
  mkWorld (w_chain w) (w_frozen w) (w_keys w) (f (w_files w)) (w_lastAnchoredSeq w) (w_lastReceipt w) (w_conflict w) (w_told w) (w_floorLogged w) (w_log w).
Definition with_keys (k : option (gmap bytes bytes)) (w : world) : world :=
  mkWorld (w_chain w) (w_frozen w) k (w_files w) (w_lastAnchoredSeq w) (w_lastReceipt w) (w_conflict w) (w_told w) (w_floorLogged w) (w_log w).
Definition with_chain (c : list Event) (frozen : bool) (w : world) : world :=
  mkWorld c frozen (w_keys w) (w_files w) (w_lastAnchoredSeq w) (w_lastReceipt w) (w_conflict w) (w_told w) (w_floorLogged w) (w_log w).
Definition with_anchor (seq : Z) (r : Receipt) (w : world) : world :=
  mkWorld (w_chain w) (w_frozen w) (w_keys w) (w_files w) seq (Some r) (w_conflict w) [] (w_floorLogged w) (w_log w).
Definition with_conflict (e : ConflictError) (w : world) : world :=
  mkWorld (w_chain w) (w_frozen w) (w_keys w) (w_files w) (w_lastAnchoredSeq w) (w_lastReceipt w) (Some e) (w_told w) (w_floorLogged w) (w_log w).
Definition with_told (l : list ReplyKind) (w : world) : world :=
  mkWorld (w_chain w) (w_frozen w) (w_keys w) (w_files w) (w_lastAnchoredSeq w) (w_lastReceipt w) (w_conflict w) l (w_floorLogged w) (w_log w).
Definition with_floor (w : world) : world :=
  mkWorld (w_chain w) (w_frozen w) (w_keys w) (w_files w) (w_lastAnchoredSeq w) (w_lastReceipt w) (w_conflict w) (w_told w) true (w_log w).
Definition did (a : act) (w : world) : world :=
  mkWorld (w_chain w) (w_frozen w) (w_keys w) (w_files w) (w_lastAnchoredSeq w) (w_lastReceipt w) (w_conflict w) (w_told w) (w_floorLogged w) (w_log w ++ [a]).

(** ** What the rest of the world does *)

(** [os.Remove] and the sync of the directory after it. *)
Inductive remove_outcome := Removed | RemovedNotSynced | NotRemoved.

(** [MintWitnessed]: the head as it is appended, an append that did not happen,
    or one that did although the call failed, after which the ledger is frozen. *)
Inductive mint_outcome := Mints | MintFails | MintsUnconfirmed.

(** The places of a pass that ask the same thing. *)
Inductive site := Settling | Resending | Paced | Refused | Contradicted | BadReceipt | Forked | Kept | Minting | AtEnd | SideOnly | Asking.

Record pass_env := mkPassEnv {
  pe_now : Z; pe_at : bytes;                       (** the clock, and its text *)
  pe_read_receipt : bool; pe_read_request : bool; pe_aside : bool;
  pe_remove : site → remove_outcome;
  pe_w_request : write_outcome; pe_w_receipt : write_outcome; pe_w_tail : write_outcome;
  pe_reads_key : bytes → bool; pe_mkdir : bool; pe_reads_old_key : bool; pe_w_key : write_outcome;
  pe_platform : site → PublicKeyEnvelope + option bytes;   (** the shipped root, or the file of the platform's key *)
  pe_stream : site → bool;                         (** the ledger can be streamed *)
  pe_status : option bytes;                        (** what the addresses of the witness served *)
  pe_key_hash : option bytes; pe_key : option bytes; pe_manifest : option bytes;
  pe_envelope : option (bytes * PublicKeyEnvelope);(** [EnsureIdentityEnvelope] *)
  pe_ended : bool;                                 (** the context is done *)
  pe_reply : option (Z * bytes);                   (** the reply to the bookmark: its status and body *)
  pe_print : Z → bool;                             (** [unicode.IsPrint] *)
  pe_lands : site → list Event → list Event;       (** records that land before a place, after those there are *)
  pe_mint : site → mint_outcome;
  pe_head : list Event → Receipt → bytes → option Event;  (** the head appended after a record, none when the payload is refused *)
}.

Inductive anchor_err :=
| ALatched (e : ConflictError)
| APendingRead (e : pending_err) | APendingRefused (why : key_err + head_err) | APendingUnread
| ARetire | AMint
| AKeyFetch | AManifest (e : key_err) | ACanon (e : canon_err) | APersist (e : key_err)
| AEnvelope | AIdentityID | AOtherIdentity | AHeadRule (e : key_err) | AEnded
| AEmpty | ASign (e : crypto_err)
| ACadence (e : ConflictError) | AUnrecognised (e : ConflictError) | AConflict (e : ConflictError) | ANoAnswer
| ABody | AReceipt (e : receipt_err) | ANotRead
| APanic.                                          (** a slice out of range *)

(** ** The monad of a pass *)

Definition AM (A : Type) : Type := world → world * result anchor_err A.
#[export] Instance AM_ret : MRet AM := λ A a w, (w, Ok a).
#[export] Instance AM_bind : MBind AM := λ A B f m w, match m w with (w', Ok a) => f a w' | (w', Err e) => (w', Err e) end.

Definition get : AM world := λ w, (w, Ok w).
Definition modify (f : world → world) : AM unit := λ w, (f w, Ok ()).
Definition throw {A} (e : anchor_err) : AM A := λ w, (w, Err e).
Definition lift {E A} (f : E → anchor_err) (r : result E A) : AM A := λ w, (w, map_err f r).

(** ** Files *)

Definition PendingReceiptFileName : bytes := bs "witness-pending-receipt.json".
Definition PendingRequestFileName : bytes := bs "witness-pending-request.json".
Definition TailFileName : bytes := bs "witness-tail.json".

Definition file (reads : bool) (name : bytes) (w : world) : result unit (option bytes) := if reads then Ok (w_files w !! name) else Err ().

Definition remove_file (o : remove_outcome) (name : bytes) (w : world) : world :=
  match o with NotRemoved => w | _ => with_files (delete name) w end.

(** [retirePendingReceipt]: whether it returned no error. *)
Definition retirePendingReceipt (o : remove_outcome) : AM bool :=
  λ w, (remove_file o PendingReceiptFileName w,
        Ok (match o with Removed => true | RemovedNotSynced => false | NotRemoved => bool_decide (w_files w !! PendingReceiptFileName = None) end)).
(** [retireRequest] logs an error and goes on. *)
Definition retireRequest (o : remove_outcome) : AM unit := modify (remove_file o PendingRequestFileName).

Definition writePendingReceipt (o : write_outcome) (r : Receipt) (at_ : bytes) : AM bool :=
  λ w, (with_files (write_file o PendingReceiptFileName (pending_receipt_document r at_)) w, Ok (write_ok o)).
(** [json.Marshal] refuses a key text that is no JSON. *)
Definition writePendingRequest (o : write_outcome) (q : WitnessRequest) (at_ : bytes) : AM unit :=
  if bool_decide (one_value true (rq_PublicKey q) = None) then mret ()
  else modify (with_files (write_file o PendingRequestFileName (pending_request_document q at_))).

(** ** The record *)

Section Anchor.
Context `{P : Primitives}.
Variable cf : config.
Variable env : pass_env.

Definition Last (chain : list Event) : Z * bytes := (Z.of_nat (length chain), last_hash [] chain).

(** [entryHashAt]: the hash of the first record with the number. *)
Definition entryHashAt (ok : bool) (chain : list Event) (seq : Z) : option bytes :=
  if ok then EntryHash <$> find (λ e, Seq e =? seq) chain else None.

(** Records of others land; none do while appends are paused. *)
Definition land (s : site) (paused : bool) : AM unit :=
  modify (λ w, if paused then w else with_chain (w_chain w ++ pe_lands env s (w_chain w)) (w_frozen w) w).

Definition MintWitnessed (s : site) (r : Receipt) (keyID : bytes) : AM (option Event) :=
  λ w,
    if w_frozen w then (w, Ok None)
    else
      let minted := did (Minted r keyID (w_chain w)) in
      match pe_mint env s, pe_head env (w_chain w) r keyID with
      | MintFails, _ | _, None => (w, Ok None)
      | Mints, Some head => (minted (with_chain (w_chain w ++ [head]) false w), Ok (Some head))
      | MintsUnconfirmed, Some head => (minted (with_chain (w_chain w ++ [head]) true w), Ok None)
      end.

(** ** The rule of the next boot (pending.go) *)

Definition headRule (s : site) (last : option Receipt) (w : world) : result key_err Heads :=
  platform ← of_option KNoPlatform (LoadPlatformEnvelope (pe_now env) (pe_platform env s));
  heads ← LoadHeadVerifier (pe_now env) (pe_reads_key env) (w_keys w) (Some platform);
  mret (match last with
        | Some l => set_identity (set_prev heads (LedgerOrdinal (rc l)) (LedgerHash (rc l))) (IdentityID (rc l))
        | None => heads
        end).

Definition head_receipt_of (r : Receipt) (keyID : bytes) : headReceipt := mkHeadReceipt (rc r) keyID (ws_SigB64 (rc_sig r)).

Inductive standing := Stands | CannotStand (e : head_err) | DoesNotRead.

(** [standsUnder]: [readErr] is set exactly when the verifier asked for a hash
    and had none. *)
Definition standsUnder (ok : bool) (heads : Heads) (r : Receipt) (chain : list Event) : standing :=
  let '(seq, hash) := Last chain in
  match (verifyReceipt heads (mkPlace (u64 (seq + 1)) hash false false (Some (entryHashAt ok chain))) (head_receipt_of r (ws_KeyID (rc_sig r)))).2 with
  | None | Some (HKeyUnknown _) => Stands
  | Some HHashNotAtHand => DoesNotRead
  | Some e => CannotStand e
  end.

(** ** SettlePending *)

Definition anchored (r : Receipt) : AM unit :=
  modify (λ w, with_files (write_file (pe_w_tail env) TailFileName
      (tail_document (mkTail (LedgerOrdinal (rc r)) (LedgerHash (rc r)) (WitnessedAt (rc r)) (ws_PublicKeyFingerprint (rc_sig r)))))
    (with_anchor (u64 (LedgerOrdinal (rc r))) r w)).

Definition SettlePending : AM unit :=
  if negb (cf_minter cf) then mret ()
  else
    w ← get;
    p ← lift APendingRead (readPendingReceipt (file (pe_read_receipt env) PendingReceiptFileName w));
    match p with
    | None => mret ()
    | Some p =>
      let r := pr_Receipt p in
      let last := w_lastReceipt w in
      if match last with Some l => sameReceipt l r | None => false end then
        ok ← retirePendingReceipt (pe_remove env Settling);
        if ok : bool then mret () else throw ARetire
      else
        heads ← lift (λ e, APendingRefused (inl e)) (headRule Settling last w);
        match standsUnder (pe_stream env Settling) heads r (w_chain w) with
        | CannotStand e => throw (APendingRefused (inr e))
        | DoesNotRead => throw APendingUnread
        | Stands =>
          _ ← land Settling false;
          head ← MintWitnessed Settling r (ws_KeyID (rc_sig r));
          match head with
          | None => throw AMint
          | Some _ =>
            _ ← anchored r;
            ok ← retirePendingReceipt (pe_remove env Settling);
            if ok : bool then mret () else throw ARetire
          end
        end
    end.

(** ** A bookmark whose answer was not kept *)

Definition holdsAsSent (p : pendingRequest) (chain : list Event) : bool :=
  let '(seq, hash) := Last chain in
  if u64 (pq_Ordinal p) =? seq then beq (pq_Hash p) hash
  else match entryHashAt (pe_stream env Resending) chain (u64 (pq_Ordinal p)) with None => true | Some h => beq h (pq_Hash p) end.

Definition requestToSendAgain : AM (option pendingRequest) :=
  w ← get;
  match readPendingRequest (file (pe_read_request env) PendingRequestFileName w) with
  | Err _ =>
    _ ← modify (λ w, if pe_aside env then
           match w_files w !! PendingRequestFileName with
           | Some c => with_files (λ d, <[PendingRequestFileName ++ bs ".unreadable" := c]> (delete PendingRequestFileName d)) w
           | None => w
           end else w);
    mret None
  | Ok None => mret None
  | Ok (Some p) =>
    let at_ := u64 (pq_Ordinal p) in
    if negb (at_ <=? w_lastAnchoredSeq w) && negb ((Last (w_chain w)).1 <? at_) && holdsAsSent p (w_chain w) then mret (Some p)
    else _ ← retireRequest (pe_remove env Resending); mret None
  end.

(** ** Conflicts *)

Definition recordIntegrityConflict (e : ConflictError) : AM unit :=
  modify (λ w, match w_conflict w with Some _ => w | None => did (ToldConflict e) (with_conflict e w) end).

Definition refuseUnrecognised (e : ConflictError) : AM unit :=
  modify (λ w, if bool_decide (Kind e ∈ w_told w) then w else did (ToldUnrecognised e) (with_told (Kind e :: w_told w) w)).

Definition witnessSideOnly (last : option Receipt) (r : Receipt) (w : world) : bool :=
  let p := PreviousWitnessedLedgerOrdinal (rc r) in
  let hp := PreviousWitnessedLedgerHash (rc r) in
  let reads :=
    if (p =? -1) && beq hp ZeroLedgerHash then true
    else if p <? 0 then false
    else if match last with Some l => (p =? LedgerOrdinal (rc l)) && negb (beq hp (LedgerHash (rc l))) | None => false end then false
    else bool_decide (entryHashAt (pe_stream env SideOnly) (w_chain w) (u64 p) = Some hp) in
  if negb reads then false
  else match headRule SideOnly None w with
       | Err _ => false
       | Ok heads =>
         let heads := set_prev heads p hp in
         let heads := match last with Some l => set_identity heads (IdentityID (rc l)) | None => heads end in
         match standsUnder (pe_stream env SideOnly) heads r (w_chain w) with Stands => true | _ => false end
       end.

(** ** The pass *)

Definition buildRequest (identityID canonicalEnvelope : bytes) (e : PublicKeyEnvelope) : AM WitnessRequest :=
  w ← get;
  let '(seq, hash) := Last (w_chain w) in
  if seq =? 0 then throw AEmpty
  else
    sig ← lift ASign (SignRequest (cf_key cf) e identityID (to_int64 seq) hash canonicalEnvelope);
    mret (mkRequest identityID canonicalEnvelope (to_int64 seq) hash sig).

(** How many records must have landed since the last anchor. *)
Definition needed : AM Z :=
  match Status (pe_status env) with
  | Some cadence => if cf_interval cf <? cadence then _ ← modify with_floor; mret cadence else mret (cf_interval cf)
  | None => mret (cf_interval cf)
  end.

(** [persistWitnessKey] in the directory of keys, which it makes. *)
Definition keep_key (keyID manifest canonical : bytes) : AM unit :=
  λ w,
    let '(d, res) := persistWitnessKey (pe_mkdir env) (pe_reads_old_key env) (pe_w_key env) keyID manifest canonical (default ∅ (w_keys w)) in
    (if validKeyIDFilename keyID && pe_mkdir env then with_keys (Some d) w else w, map_err APersist res).

(** The witness's key, verified and kept when there is a platform to ask. *)
Definition obtain_key : AM (PublicKeyEnvelope * bool) :=
  key ← lift (λ _ : unit, AKeyFetch) (of_option () (FetchWitnessKey (pe_key_hash env) (pe_key env)));
  if cf_key_source cf then
    manifest ← lift AManifest (VerifyManifest (pe_now env) (pe_manifest env) (LoadPlatformEnvelope (pe_now env) (pe_platform env Asking)) key);
    canonical ← lift ACanon (canonicalEnvelopeBytes key);
    _ ← keep_key (pke_KeyID key) manifest canonical;
    mret (key, true)
  else mret (key, false).

(** The request: the one kept, or a new one for the record's end. *)
Definition choose_request (resend : option pendingRequest) (identityID canonicalEnvelope : bytes) (e : PublicKeyEnvelope) : AM WitnessRequest :=
  match resend with
  | Some p =>
    if negb (beq (pq_IdentityID p) identityID) then _ ← retireRequest (pe_remove env Asking); throw AOtherIdentity
    else mret (pq_Request p)
  | None =>
    req ← buildRequest identityID canonicalEnvelope e;
    _ ← writePendingRequest (pe_w_request env) req (pe_at env);
    mret req
  end.

(** [Bookmark] and what its errors lead to; a key text that is no JSON is not
    sent. *)
Definition ask (req : WitnessRequest) : AM (Receipt * bool) :=
  _ ← (if bool_decide (one_value true (rq_PublicKey req) = None) then throw ABody else modify (did (Sent req)));
  match Bookmark (pe_print env) (pe_reply env) with
  | Answers r first => mret (r, first)
  | NoAnswer => throw ANoAnswer
  | Conflicts e =>
    if IsCadence e then _ ← retireRequest (pe_remove env Paced); throw (ACadence e)
    else if Unrecognised e then _ ← refuseUnrecognised e; throw (AUnrecognised e)
    else _ ← retireRequest (pe_remove env Contradicted); _ ← recordIntegrityConflict e; throw (AConflict e)
  end.

(** A receipt that cannot be the next head latches the anchorer; of the message
    only what tells its kind is written. *)
Definition diverged {A} (e : ConflictError) : AM A :=
  _ ← retireRequest (pe_remove env Forked); _ ← recordIntegrityConflict e; throw (AConflict e).

Definition hold_to_rule (heads : option Heads) (last : option Receipt) (r : Receipt) (first : bool) : AM unit :=
  match heads with
  | None =>
    match last with
    | Some l =>
      if negb first && (negb (PreviousWitnessedLedgerOrdinal (rc r) =? LedgerOrdinal (rc l)) || negb (beq (PreviousWitnessedLedgerHash (rc r)) (LedgerHash (rc l))))
      then if (Z.of_nat (length (PreviousWitnessedLedgerHash (rc r))) <? 20) || (Z.of_nat (length (LedgerHash (rc l))) <? 20) then throw APanic
      else diverged (mkConflict (bs "witness state fork") true false false)
      else mret ()
    | None => mret ()
    end
  | Some heads =>
    w ← get;
    match standsUnder (pe_stream env Minting) heads r (w_chain w) with
    | Stands => mret ()
    | CannotStand _ => diverged (mkConflict (bs "cannot stand") true (witnessSideOnly last r w) false)
    | DoesNotRead =>
      kept ← writePendingReceipt (pe_w_receipt env) r (pe_at env);
      _ ← (if kept : bool then retireRequest (pe_remove env Kept) else mret ());
      throw ANotRead
    end
  end.

Definition onTime (head : Event) (r : Receipt) : bool :=
  (0 <=? LedgerOrdinal (rc r)) && (Seq head =? u64 (u64 (LedgerOrdinal (rc r)) + 1)) && beq (Prev head) (LedgerHash (rc r)).

(** The mint, with the receipt kept before it, and the seal after it. *)
Definition mint_answer (r : Receipt) (key : PublicKeyEnvelope) (manifestVerified : bool) : AM unit :=
  kept ← writePendingReceipt (pe_w_receipt env) r (pe_at env);
  _ ← (if kept : bool then retireRequest (pe_remove env Kept) else mret ());
  _ ← land Minting (cf_pause cf);
  head ← MintWitnessed Minting r (pke_KeyID key);
  match head with
  | None => throw AMint
  | Some head =>
    _ ← retirePendingReceipt (pe_remove env Minting);
    if cf_sealer cf && manifestVerified && onTime head r then modify (did (SealedAt (Seq head))) else mret ()
  end.

(** The exchange, once it was decided to have one. *)
Definition exchange (resend : option pendingRequest) (last : option Receipt) : AM unit :=
  '(key, manifestVerified) ← obtain_key;
  '(canonical, e) ← lift (λ _ : unit, AEnvelope) (of_option () (pe_envelope env));
  identityID ← lift (λ _ : unit, AIdentityID) (of_option () (DeriveIdentityID canonical e));
  if match last with Some l => negb (beq (IdentityID (rc l)) []) && negb (beq (IdentityID (rc l)) identityID) | None => false end then throw AOtherIdentity
  else
    w ← get;
    heads ← lift AHeadRule (if cf_minter cf then Some <$> headRule Asking last w else Ok None);
    if pe_ended env then throw AEnded
    else
      _ ← land Asking false;
      req ← choose_request resend identityID canonical e;
      '(r, first) ← ask req;
      _ ← land AtEnd (cf_pause cf);
      match VerifyReceipt r req key with
      | Err err =>
        _ ← (match resend with Some _ => retireRequest (pe_remove env BadReceipt) | None => mret () end);
        throw (AReceipt err)
      | Ok _ =>
        _ ← hold_to_rule heads last r first;
        _ ← (if cf_minter cf then mint_answer r key manifestVerified else mret ());
        _ ← anchored r;
        retireRequest (pe_remove env AtEnd)
      end.

Definition AnchorPass : AM unit :=
  w ← get;
  match w_conflict w with
  | Some e => throw (ALatched e)
  | None =>
    _ ← SettlePending;
    resend ← requestToSendAgain;
    w ← get;
    let current := (Last (w_chain w)).1 in
    need ← needed;
    if bool_decide (resend = None) && ((current =? 0) || (to_int64 (u64 (current - w_lastAnchoredSeq w)) <? need)) then mret ()
    else exchange resend (w_lastReceipt w)
  end.
End Anchor.

(** [UnanchoredCount]. *)
Definition UnanchoredCount (w : world) : Z :=
  let current := Z.of_nat (length (w_chain w)) in
  if current <? w_lastAnchoredSeq w then 0 else current - w_lastAnchoredSeq w.

(** [NewAnchorer] after a restart: what the store reads of the last receipt, its
    ordinal and the receipt where its text decodes. *)
Definition NewAnchorer (stored : option (Z * option Receipt)) (w : world) : world :=
  let '(seq, r) := match stored with Some (seq, r) => if 0 <? seq then (u64 seq, r) else (0, None) | None => (0, None) end in
  mkWorld (w_chain w) false (w_keys w) (w_files w) seq r None [] false (w_log w).
