(* ===== verification/AnchorFacts.v ===== *)
(** * What anchoring keeps

    A small program logic for the monad of a pass, and with it: what is minted
    stands under the rule of the next boot, a receipt that was kept is never
    lost and never minted twice, a lost answer is asked for again with the same
    request, and an integrity conflict silences the anchorer. *)

From stdpp Require Import gmap relations sorting.
From S2P Require Import Prelude Utf8 GoJson CanonicalJson CanonicalJsonFacts GoStruct Crypto Event Lines Chain Time Container SigEnvelope Witness WitnessKeys WitnessWire Anchor.

(** ** Triples *)

(** From [Pre], the program ends in [Q] with its value or in [E] with an error. *)
Definition triple {A} (Pre : world → Prop) (m : AM A) (Q : A → world → Prop) (E : anchor_err → world → Prop) : Prop :=
  ∀ w, Pre w → match m w with (w', Ok a) => Q a w' | (w', Err e) => E e w' end.

Lemma t_ret {A} Q E (a : A) : triple (Q a) (mret a) Q E.
Proof. by intros w H. Qed.
Lemma t_bind {A B} Pre (m : AM A) (f : A → AM B) R Q E : triple Pre m R E → (∀ a, triple (R a) (f a) Q E) → triple Pre (m ≫= f) Q E.
Proof. intros Hm Hf w H. specialize (Hm w H). unfold mbind, AM_bind. destruct (m w) as [w' [a|e]]; [by apply Hf|done]. Qed.
Lemma t_get Q E : triple (λ w, Q w w) get Q E.
Proof. by intros w H. Qed.
Lemma t_modify f Q E : triple (λ w, Q () (f w)) (modify f) Q E.
Proof. by intros w H. Qed.
Lemma t_throw {A} (e : anchor_err) Q E : triple (E e) (throw e : AM A) Q E.
Proof. by intros w H. Qed.
Lemma t_lift {X A} (f : X → anchor_err) (r : result X A) Q E : triple (λ w, match r with Ok a => Q a w | Err e => E (f e) w end) (lift f r) Q E.
Proof. intros w H. unfold lift. by destruct r. Qed.
Lemma t_conseq {A} (Pre Pre' : world → Prop) (m : AM A) (Q Q' : A → world → Prop) (E E' : anchor_err → world → Prop) :
  triple Pre' m Q' E' → (∀ w, Pre w → Pre' w) → (∀ a w, Q' a w → Q a w) → (∀ e w, E' e w → E e w) → triple Pre m Q E.
Proof. intros H H1 H2 H3 w Hw. specialize (H w (H1 w Hw)). destruct (m w) as [w' [a|e]]; auto. Qed.

(** A property every part of a program keeps, whatever its outcome. *)
Definition keeps {A} (I : world → Prop) (m : AM A) : Prop := triple I m (λ _, I) (λ _, I).

Lemma keeps_world {A} (I : world → Prop) (m : AM A) : keeps I m ↔ ∀ w, I w → I (m w).1.
Proof. split; intros H w Hw; specialize (H w Hw); by destruct (m w) as [w' [a|e]]. Qed.

Create HintDb anchor discriminated.

Lemma k_ret {A} I (a : A) : keeps I (mret a).
Proof. by intros w H. Qed.
Lemma k_bind {A B} I (m : AM A) (f : A → AM B) : keeps I m → (∀ a, keeps I (f a)) → keeps I (m ≫= f).
Proof. apply t_bind. Qed.
Lemma k_get I : keeps I get.
Proof. by intros w H. Qed.
Lemma k_throw {A} I e : keeps I (throw e : AM A).
Proof. by intros w H. Qed.
Lemma k_lift {X A} I f (r : result X A) : keeps I (lift f r).
Proof. intros w H. unfold lift. by destruct r. Qed.
Lemma k_modify I f : (∀ w, I w → I (f w)) → keeps I (modify f).
Proof. intros H w Hw. by apply H. Qed.

(** Go through a program, leaving the parts that change the state. *)
Ltac go_keeps :=
  repeat match goal with
  | |- keeps _ (mbind _ _) => apply k_bind; [|intros ?]
  | |- keeps _ (mret _) => apply k_ret
  | |- keeps _ get => apply k_get
  | |- keeps _ (throw _) => apply k_throw
  | |- keeps _ (lift _ _) => apply k_lift
  | |- keeps _ (let '(_, _) := ?x in _) => destruct x
  | |- keeps _ (if ?b then _ else _) => destruct b
  | |- keeps _ (match ?x with _ => _ end) => destruct x
  | |- keeps _ (match ?x with _ => _ end _) => destruct x
  end.

(** ** Heads of the record *)

Definition minted_receipt (e : Event) : option headReceipt := if beq (EType e) EventSystemWitnessed then head_receipt e else None.
Definition heads_of (chain : list Event) : list headReceipt := omap minted_receipt chain.
Definition ordinal (hr : headReceipt) : Z := LedgerOrdinal (hr_receipt hr).
Definition recorded (chain : list Event) (r : WitnessReceipt) : Prop := ∃ hr, hr ∈ heads_of chain ∧ hr_receipt hr = r.

(** Ordinals stay within 63 bits. *)
Definition small (chain : list Event) : Prop := Z.of_nat (length chain) + 1 < 9223372036854775808.

Lemma heads_of_app c l : heads_of (c ++ l) = heads_of c ++ heads_of l.
Proof. apply omap_app. Qed.
Lemma heads_of_quiet l : Forall (λ e, minted_receipt e = None) l → heads_of l = [].
Proof. induction 1 as [|e l He _ IH]; [done|]. unfold heads_of in *. cbn. by rewrite He. Qed.
Lemma recorded_app c l r : recorded c r → recorded (c ++ l) r.
Proof. intros (hr & H & E). exists hr. split; [|done]. rewrite heads_of_app. apply elem_of_app. by left. Qed.
Lemma small_prefix c l : small (c ++ l) → small c.
Proof. unfold small. rewrite length_app. lia. Qed.

Section Rule.
Context `{P : Primitives}.

(** The state of a walk over a record whose last head carries [last]. *)
Definition agrees (h : Heads) (last : option WitnessReceipt) : Prop :=
  match last with
  | None => prevOrdinal h = -1 ∧ prevHash h = ZeroLedgerHash ∧ identityID h = []
  | Some r => prevOrdinal h = LedgerOrdinal r ∧ prevHash h = LedgerHash r ∧ identityID h = IdentityID r
  end.

(** [at_] knows the hashes of the records after the one [from]. *)
Definition knows (chain : list Event) (from : Z) (at_ : Z → option bytes) : Prop :=
  ∀ i e, chain !! i = Some e → from < Z.of_nat i + 1 → at_ (Z.of_nat i + 1) = Some (EntryHash e).

(** A receipt that attests a record of the chain after the last attested one
    passes the first switch wherever after that record its head stands. *)
Lemma check_attested_complete h chain r at_ sld : small chain → -1 ≤ prevOrdinal h → prevOrdinal h < LedgerOrdinal r → 1 ≤ LedgerOrdinal r →
  attests chain (LedgerOrdinal r) (LedgerHash r) → knows chain (prevOrdinal h) at_ →
  check_attested h (mkPlace (Z.of_nat (length chain) + 1) (last_hash [] chain) sld false (Some at_)) r = None.
Proof.
  unfold small. intros Hs Hp Hlt H1 [Hr Hh] Hk. unfold check_attested. cbn [p_seq p_prev p_closing p_hashAt].
  rewrite (to_int64_small (_ + 1)), (to_int64_small (_ + 1 - 1)) by lia. rewrite (proj2 (Z.ltb_lt 0 _)) by lia. cbn [andb].
  destruct (Z.eqb_spec (LedgerOrdinal r) (Z.of_nat (length chain) + 1 - 1)) as [E|E].
  - rewrite Hh. replace (Z.to_nat (LedgerOrdinal r)) with (length chain) by lia. by rewrite firstn_all, beq_refl.
  - rewrite (proj2 (Z.leb_gt _ _)), (proj2 (Z.leb_gt _ _)) by lia. cbn [orb mbind option_bind]. rewrite u64_small by (unfold two64; lia).
    destruct (lookup_lt_is_Some_2 chain (Z.to_nat (LedgerOrdinal r - 1))) as [e He]; [lia|].
    pose proof (Hk _ _ He ltac:(lia)) as Hat. replace (Z.of_nat _ + 1) with (LedgerOrdinal r) in Hat by lia. rewrite Hat, Hh.
    replace (Z.to_nat (LedgerOrdinal r)) with (S (Z.to_nat (LedgerOrdinal r - 1))) by lia. by rewrite (take_S_r _ _ _ He), last_hash_snoc, beq_refl.
Qed.

Lemma entryHashAt_ok ok chain n hash : linked 0 [] chain → entryHashAt ok chain n = Some hash →
  ∃ i e, chain !! i = Some e ∧ n = Z.of_nat i + 1 ∧ hash = EntryHash e.
Proof.
  unfold entryHashAt. destruct ok; [|done]. intros Hl H. destruct (find _ chain) as [e|] eqn:E; [|done]. injection H as <-.
  apply find_some in E as [Hin Hn]. apply list_elem_of_In, list_elem_of_lookup in Hin as [i Hi]. exists i, e. split; [done|]. split; [|done].
  apply Z.eqb_eq in Hn. pose proof (linked_seq _ _ _ _ _ Hl Hi). lia.
Qed.

(** What the first switch establishes at the record's end. *)
Lemma check_attested_sound ok h chain r : linked 0 [] chain → small chain → -1 ≤ prevOrdinal h < Z.of_nat (length chain) ∨ chain = [] → 1 ≤ LedgerOrdinal r →
  check_attested h (mkPlace (u64 (Z.of_nat (length chain) + 1)) (last_hash [] chain) false false (Some (entryHashAt ok chain))) r = None →
  attests chain (LedgerOrdinal r) (LedgerHash r) ∧ prevOrdinal h < LedgerOrdinal r.
Proof.
  unfold small. intros Hl Hs Hp H1. unfold check_attested. cbn [p_seq p_prev p_closing p_hashAt]. rewrite u64_small by (unfold two64; lia).
  rewrite (to_int64_small (_ + 1)), (to_int64_small (_ + 1 - 1)) by lia. rewrite (proj2 (Z.ltb_lt 0 _)) by lia. cbn [andb].
  destruct (Z.eqb_spec (LedgerOrdinal r) (Z.of_nat (length chain) + 1 - 1)) as [E|E].
  - destruct (beq _ _) eqn:B; [|done]. b2p. intros _. rewrite B. replace (LedgerOrdinal r) with (Z.of_nat (length chain)) by lia.
    split; [apply attests_last|]. destruct Hp as [?| ->]; [lia|]. cbn in *. lia.
  - destruct (_ || _) eqn:B; [done|]. b2p. cbn [mbind option_bind]. rewrite u64_small by (unfold two64; lia).
    destruct (entryHashAt ok chain _) as [hash|] eqn:Eh; [|done]. destruct (beq _ _) eqn:B'; [|done]. b2p. intros _.
    destruct (entryHashAt_ok _ _ _ _ Hl Eh) as (i & e & Hi & En & ->). split; [|lia]. rewrite En, B'. by apply attests_record.
Qed.

(** The rest of [verifyReceipt], which does not depend on the place. *)
Definition rest_ok (h : Heads) (hr : headReceipt) : Prop :=
  (identityID h = [] ∨ IdentityID (hr_receipt hr) = identityID h) ∧
  PreviousWitnessedLedgerOrdinal (hr_receipt hr) = prevOrdinal h ∧ PreviousWitnessedLedgerHash (hr_receipt hr) = prevHash h ∧
  (keys h !! hr_WitnessKeyID hr = None ∨ ∃ km, keys h !! hr_WitnessKeyID hr = Some km ∧ check_under_key km hr = Ok ()).

Lemma verifyReceipt_rest h place hr : check_attested h place (hr_receipt hr) = None → rest_ok h hr →
  ∃ h' err, verifyReceipt h place hr = (h', err) ∧ (err = None ∨ ∃ k, err = Some (HKeyUnknown k)) ∧
    prevOrdinal h' = ordinal hr ∧ prevHash h' = LedgerHash (hr_receipt hr) ∧ identityID h' = IdentityID (hr_receipt hr) ∧ keys h' = keys h.
Proof.
  intros Hc (Hi & Ho & Hh & Hk). unfold verifyReceipt. rewrite Hc.
  assert (negb (beq (identityID h) []) && negb (beq (IdentityID (hr_receipt hr)) (identityID h)) = false) as ->.
  { destruct Hi as [-> | ->]; [done|]. by rewrite beq_refl, andb_false_r. }
  set (h1 := if beq (identityID h) [] then _ else h).
  assert (prevOrdinal h1 = prevOrdinal h ∧ prevHash h1 = prevHash h ∧ keys h1 = keys h ∧ identityID h1 = IdentityID (hr_receipt hr)) as (E1 & E2 & E3 & E4).
  { unfold h1. destruct (beq (identityID h) []) eqn:B; [done|]. b2p. repeat split. destruct Hi; congruence. }
  rewrite E1, E2, Ho, Hh, Z.eqb_refl, beq_refl. cbn [negb orb set_prev keys]. rewrite E3.
  destruct Hk as [-> |(km & -> & ->)]; cbn [p_sealed]; [|eexists _, _; split; [done|]; cbn; auto].
  eexists _, _. split; [done|]. split; [eauto|]. destruct (p_sealed place); cbn; auto.
Qed.

Lemma check_attested_known h place r k : check_attested h place r ≠ Some (HKeyUnknown k).
Proof. unfold check_attested. repeat case_match; done. Qed.
Lemma check_under_key_known km hr k : check_under_key km hr ≠ Err (HKeyUnknown k).
Proof.
  unfold check_under_key. destruct (time_Parse _); cbn [of_option mbind result_bind]; [|done]. destruct (_ && _); [done|]. destruct (negb _); [done|].
  destruct (ValidWindow _ _); cbn [map_err mbind result_bind]; [|done]. destruct (b64_decode _); cbn [of_option mbind result_bind]; [|done]. by destruct (Verify _ _ _).
Qed.

Lemma standsUnder_inv ok h r chain : standsUnder ok h r chain = Stands →
  check_attested h (mkPlace (u64 (Z.of_nat (length chain) + 1)) (last_hash [] chain) false false (Some (entryHashAt ok chain))) (rc r) = None ∧
  rest_ok h (head_receipt_of r (ws_KeyID (rc_sig r))).
Proof.
  unfold standsUnder, Last, verifyReceipt. cbn [hr_receipt head_receipt_of]. destruct (check_attested _ _ _) as [e|] eqn:Ec; [destruct e; try done; by apply check_attested_known in Ec|].
  destruct (negb (beq (identityID h) []) && _) eqn:Ei; [done|]. set (h1 := if beq (identityID h) [] then _ else h).
  assert (prevOrdinal h1 = prevOrdinal h ∧ prevHash h1 = prevHash h ∧ keys h1 = keys h) as (E1 & E2 & E3) by (unfold h1; by destruct (beq _ _)).
  rewrite E1, E2. destruct (_ || _) eqn:Eo; [done|]. cbn [set_prev keys p_sealed hr_WitnessKeyID]. rewrite E3. intros H. split; [done|].
  apply andb_false_iff in Ei. b2p. split; [destruct Ei as [Ei|Ei]; b2p; [by left|by right]|]. split; [done|]. split; [done|].
  cbn [hr_WitnessKeyID]. destruct (keys h !! _) as [km|]; [|by left]. right. exists km. split; [done|].
  cbn [hr_WitnessKeyID head_receipt_of] in H. destruct (check_under_key km _) as [[]|e] eqn:Eu; [done|]. cbn [snd] in H.
  destruct e; try done. by apply check_under_key_known in Eu.
Qed.
End Rule.

(** ** The invariant *)

Section Invariant.
Context `{P : Primitives}.

(** What the ledger promises of a head it appends and of records that land
    while a pass is under way. *)
Record env_ok (env : pass_env) : Prop := {
  eo_head chain r keyID e : pe_head env chain r keyID = Some e →
    EType e = EventSystemWitnessed ∧ Seq e = Z.of_nat (length chain) + 1 ∧ Prev e = last_hash [] chain ∧ ContentHash (Payload e) = Content e ∧
    sealed e = false ∧ closing e = false ∧ head_receipt e = Some (head_receipt_of r keyID);
  eo_lands s chain : linked 0 [] chain → linked 0 [] (chain ++ pe_lands env s chain) ∧ Forall (λ e, minted_receipt e = None) (pe_lands env s chain);
}.

(** Keys loaded from files beside the ledger. *)
Definition loaded (ks : gmap bytes WitnessKeyMaterial) : Prop := ∃ now reads dir platform, LoadWitnessKeys now reads dir (Some platform) = Ok ks.

Definition last_head (chain : list Event) : option WitnessReceipt := hr_receipt <$> last (heads_of chain).

(** The walk of a boot, come to [head] after [before], takes it. *)
Definition boot_accepts (ks : gmap bytes WitnessKeyMaterial) (before : list Event) (head : Event) (r : Receipt) : Prop :=
  ∀ h at_, keys h = ks → agrees h (last_head before) → knows before (prevOrdinal h) at_ →
    ∃ h' a err, VerifyWitnessHead h head at_ = (h', a, err) ∧ (err = None ∨ ∃ k, err = Some (HKeyUnknown k)) ∧ agrees h' (Some (rc r)).

Definition log_ok (w : world) : Prop := ∀ r keyID before, Minted r keyID before ∈ w_log w →
  ∃ ks head rest, loaded ks ∧ w_chain w = before ++ head :: rest ∧ head_receipt head = Some (head_receipt_of r keyID) ∧ boot_accepts ks before head r.

Record core (w : world) : Prop := {
  co_linked : linked 0 [] (w_chain w);
  co_recorded l : w_lastReceipt w = Some l → recorded (w_chain w) (rc l);
  co_sorted : StronglySorted Z.lt (ordinal <$> heads_of (w_chain w));
  co_range : Forall (λ hr, 1 ≤ ordinal hr < Z.of_nat (length (w_chain w))) (heads_of (w_chain w));
  co_log : log_ok w;
}.

(** The anchorer knows the last head, unless the ledger is frozen. *)
Definition knows_last (w : world) : Prop := w_frozen w = false → rc <$> w_lastReceipt w = last_head (w_chain w).

Definition J (w : world) : Prop := small (w_chain w) → core w ∧ knows_last w.

(** A change that leaves the record, what is known of it and the mints. *)
Definition quiet (w w' : world) : Prop :=
  w_chain w' = w_chain w ∧ w_frozen w' = w_frozen w ∧ w_lastReceipt w' = w_lastReceipt w ∧
  ∀ r keyID before, Minted r keyID before ∈ w_log w' → Minted r keyID before ∈ w_log w.

Lemma core_quiet w w' : quiet w w' → core w → core w'.
Proof.
  intros (E1 & E2 & E3 & E4) [H1 H2 H3 H4 H5]. split; rewrite ?E1, ?E3; try done. intros r k b Hin. rewrite E1. by apply H5, E4.
Qed.
Lemma J_quiet w w' : quiet w w' → J w → J w'.
Proof.
  intros Hq HJ Hs. pose proof Hq as (E1 & E2 & E3 & E4). rewrite E1 in Hs. destruct (HJ Hs) as [Hc Hk]. split; [by eapply core_quiet|].
  intros Hf. rewrite E1, E3. apply Hk. congruence.
Qed.

Lemma quiet_files f w : quiet w (with_files f w).
Proof. by repeat split. Qed.
Lemma quiet_keys k w : quiet w (with_keys k w).
Proof. by repeat split. Qed.
Lemma quiet_did a w : (∀ r k b, a ≠ Minted r k b) → quiet w (did a w).
Proof. intros H. repeat split. cbn. intros r k b [Hin|Hin%list_elem_of_singleton]%elem_of_app; [done|]. by destruct (H r k b). Qed.
Lemma quiet_trans w1 w2 w3 : quiet w1 w2 → quiet w2 w3 → quiet w1 w3.
Proof. intros (A1 & A2 & A3 & A4) (B1 & B2 & B3 & B4). repeat split; try congruence. auto. Qed.

(** ** Records that land *)

Lemma last_snoc_head c e hr : minted_receipt e = Some hr → last_head (c ++ [e]) = Some (hr_receipt hr).
Proof. intros H. unfold last_head. rewrite heads_of_app. unfold heads_of at 2. cbn. rewrite H. by rewrite last_snoc. Qed.

Lemma core_land w l : linked 0 [] (w_chain w ++ l) → Forall (λ e, minted_receipt e = None) l → core w → core (with_chain (w_chain w ++ l) (w_frozen w) w).
Proof.
  intros Hl Hq [H1 H2 H3 H4 H5]. apply heads_of_quiet in Hq. split; cbn; [done|..].
  - intros r Hr. by apply recorded_app, H2.
  - by rewrite heads_of_app, Hq, app_nil_r.
  - rewrite heads_of_app, Hq, app_nil_r, length_app. eapply Forall_impl; [exact H4|]. intros hr. cbn. lia.
  - intros r k b Hin. destruct (H5 r k b Hin) as (ks & head & rest & Hk & E & ? & ?). exists ks, head, (rest ++ l). repeat split; try done.
    cbn. rewrite E, <- app_assoc. done.
Qed.

Lemma J_land w l : (linked 0 [] (w_chain w) → linked 0 [] (w_chain w ++ l) ∧ Forall (λ e, minted_receipt e = None) l) → J w →
  J (with_chain (w_chain w ++ l) (w_frozen w) w).
Proof.
  intros Hl HJ Hs. cbn in Hs. destruct (HJ (small_prefix _ _ Hs)) as [Hc Hk]. destruct (Hl (co_linked _ Hc)) as [H1 H2].
  split; [by apply core_land|]. intros Hf. cbn. rewrite (Hk Hf). unfold last_head. by rewrite heads_of_app, (heads_of_quiet l), app_nil_r.
Qed.

(** ** A receipt that fits *)

(** What makes a receipt the next head of the record, under the keys. *)
Record fits (ks : gmap bytes WitnessKeyMaterial) (r : Receipt) (keyID : bytes) (chain : list Event) : Prop := {
  fi_attests : attests chain (LedgerOrdinal (rc r)) (LedgerHash (rc r));
  fi_pos : 1 ≤ LedgerOrdinal (rc r);
  fi_after : Forall (λ hr, ordinal hr < LedgerOrdinal (rc r)) (heads_of chain);
  fi_rest h : keys h = ks → agrees h (last_head chain) → rest_ok h (head_receipt_of r keyID);
}.

Lemma fits_land ks r keyID chain l : Forall (λ e, minted_receipt e = None) l → fits ks r keyID chain → fits ks r keyID (chain ++ l).
Proof.
  intros Hq%heads_of_quiet [H1 H2 H3 H4]. split; [by apply attests_app|done|by rewrite heads_of_app, Hq, app_nil_r|].
  unfold last_head. by rewrite heads_of_app, Hq, app_nil_r.
Qed.

Lemma last_head_in chain r : last_head chain = Some r → recorded chain r.
Proof.
  unfold last_head. destruct (last _) as [hr|] eqn:E; [|done]. intros [= <-]. exists hr. split; [|done].
  apply last_Some_elem_of in E. done.
Qed.

Lemma last_head_max chain r : StronglySorted Z.lt (ordinal <$> heads_of chain) → last_head chain = Some r →
  Forall (λ hr, ordinal hr ≤ LedgerOrdinal r) (heads_of chain).
Proof.
  unfold last_head. intros Hs. destruct (last _) as [hr|] eqn:E; [|done]. intros [= <-]. apply last_Some in E as [l E]. rewrite E in *.
  rewrite fmap_app in Hs. apply Forall_app. split; [|by constructor]. apply Forall_forall. intros x Hx.
  enough (ordinal x < ordinal hr) by (unfold ordinal in *; lia). eapply (StronglySorted_app_1_elem_of _ _ _ _ _ Hs); [by apply list_elem_of_fmap_2|by constructor].
Qed.

(** The state of a walk that agrees with the record's last head is in range. *)
Lemma agrees_range w h : core w → agrees h (last_head (w_chain w)) →
  -1 ≤ prevOrdinal h ∧ (prevOrdinal h < Z.of_nat (length (w_chain w)) ∨ w_chain w = []) ∧ Forall (λ hr, ordinal hr ≤ prevOrdinal h) (heads_of (w_chain w)).
Proof.
  intros Hc Ha. destruct (last_head (w_chain w)) as [r|] eqn:El; cbn in Ha; destruct Ha as (Hp & _ & _).
  - destruct (last_head_in _ _ El) as (hr & Hin & <-). pose proof (proj1 (Forall_forall _ _) (co_range _ Hc) _ Hin) as Hr. cbn in Hr. unfold ordinal in Hr.
    split; [lia|]. split; [left; lia|]. rewrite Hp. apply last_head_max; [apply Hc|done].
  - split; [lia|]. split; [destruct (w_chain w); [by right|left; cbn; lia]|]. unfold last_head in El. destruct (last _) eqn:E; [done|].
    apply last_None in E. by rewrite E.
Qed.

Lemma rest_ok_agrees h h' last hr : keys h = keys h' → agrees h last → agrees h' last → rest_ok h hr → rest_ok h' hr.
Proof.
  unfold rest_ok. intros Hk Ha Ha'. assert (prevOrdinal h = prevOrdinal h' ∧ prevHash h = prevHash h' ∧ identityID h = identityID h') as (-> & -> & ->).
  { destruct last; cbn in *; intuition congruence. }
  by rewrite Hk.
Qed.

(** What the rule passes fits. *)
Lemma stands_fits ok w h r : core w → small (w_chain w) → agrees h (last_head (w_chain w)) → 1 ≤ LedgerOrdinal (rc r) →
  standsUnder ok h r (w_chain w) = Stands → fits (keys h) r (ws_KeyID (rc_sig r)) (w_chain w).
Proof.
  intros Hc Hs Ha H1 (Hat & Hr)%standsUnder_inv. destruct (agrees_range _ _ Hc Ha) as (Hp & Hp' & Hf).
  assert (-1 ≤ prevOrdinal h < Z.of_nat (length (w_chain w)) ∨ w_chain w = []) as Hrange by (destruct Hp'; [left; lia|by right]).
  destruct (check_attested_sound _ _ _ _ (co_linked _ Hc) Hs Hrange H1 Hat) as [Ha1 Ha2].
  split; [done|done|..].
  - eapply Forall_impl; [exact Hf|]. intros hr. cbn. lia.
  - intros h' Hk Ha'. by eapply rest_ok_agrees; [symmetry; exact Hk|exact Ha|..].
Qed.

(** What fits is taken by the boot that reads it. *)
Lemma fits_accepts ks r keyID w e : core w → small (w_chain w) → fits ks r keyID (w_chain w) → EType e = EventSystemWitnessed →
  Seq e = Z.of_nat (length (w_chain w)) + 1 → Prev e = last_hash [] (w_chain w) → sealed e = false → closing e = false →
  head_receipt e = Some (head_receipt_of r keyID) → boot_accepts ks (w_chain w) e r.
Proof.
  intros Hc Hs [F1 F2 F3 F4] Ht Hq Hp Hse Hcl Hr h at_ Hk Ha Hat. destruct (agrees_range _ _ Hc Ha) as (Hp1 & Hp2 & _).
  assert (check_attested h (mkPlace (Seq e) (Prev e) (sealed e) (closing e) (Some at_)) (hr_receipt (head_receipt_of r keyID)) = None) as Hca.
  { rewrite Hq, Hp, Hcl. apply check_attested_complete; try done. destruct (last_head (w_chain w)) as [l|] eqn:El; cbn in Ha; destruct Ha as (-> & _); [|cbn [hr_receipt head_receipt_of]; lia].
    destruct (last_head_in _ _ El) as (hr & Hin & <-). exact (proj1 (Forall_forall _ _) F3 _ Hin). }
  destruct (verifyReceipt_rest _ _ _ Hca (F4 _ Hk Ha)) as (h' & err & Hv & He & E1 & E2 & E3 & _).
  unfold VerifyWitnessHead. rewrite Ht, beq_refl. cbn [negb]. unfold head_receipt in Hr. destruct (struct_members _ _ _ _) as [ms|]; [|done]. cbn [mbind option_bind] in Hr.
  destruct (beq (raw_field (bs "receipt") ms) []); [done|]. rewrite Hr, Hv. by eexists _, _, _.
Qed.

(** ** Assertions that last *)

Definition lands_ok (w : world) (l : list Event) : Prop :=
  linked 0 [] (w_chain w) → linked 0 [] (w_chain w ++ l) ∧ Forall (λ e, minted_receipt e = None) l.

Record stable (I : world → Prop) : Prop := {
  st_quiet w w' : quiet w w' → I w → I w';
  st_land w l : lands_ok w l → I w → I (with_chain (w_chain w ++ l) (w_frozen w) w);
}.

(** [J] with this last receipt, and a fact about a record that is not too long. *)
Definition B (φ : Prop) (last : option Receipt) (w : world) : Prop := J w ∧ w_lastReceipt w = last ∧ (small (w_chain w) → φ).
(** The receipt would be the next head, were it minted now. *)
Definition F (last : option Receipt) (r : Receipt) (keyID : bytes) (w : world) : Prop :=
  B True last w ∧ ∃ ks, loaded ks ∧ (small (w_chain w) → w_frozen w = false → fits ks r keyID (w_chain w)).
(** The receipt is the last head, and the anchorer does not know yet. *)
Definition M (r : Receipt) (w : world) : Prop := small (w_chain w) → core w ∧ last_head (w_chain w) = Some (rc r).

Lemma stable_J : stable J.
Proof. split; [intros w w'; apply J_quiet|intros w l; apply J_land]. Qed.
Lemma stable_B φ last : stable (B φ last).
Proof.
  split.
  - intros w w' Hq (HJ & Hl & Hφ). split; [by eapply J_quiet|]. destruct Hq as (E1 & _ & E3 & _). rewrite E1, E3. done.
  - intros w l Hl (HJ & Hr & Hφ). split; [by apply J_land|]. split; [done|]. cbn. intros Hs. eapply Hφ, small_prefix, Hs.
Qed.
Lemma stable_F last r keyID : stable (F last r keyID).
Proof.
  split.
  - intros w w' Hq [HB (ks & Hk & Hf)]. split; [by eapply (st_quiet _ (stable_B _ _))|]. exists ks. split; [done|].
    destruct Hq as (E1 & E2 & _). by rewrite E1, E2.
  - intros w l Hl [HB (ks & Hk & Hf)]. split; [by apply (st_land _ (stable_B _ _))|]. exists ks. split; [done|]. cbn. intros Hs Hfr.
    pose proof (small_prefix _ _ Hs) as Hs'. destruct HB as [HJ _]. destruct (HJ Hs') as [Hc _]. apply fits_land; [|by apply Hf].
    apply Hl, Hc.
Qed.
Lemma stable_M r : stable (M r).
Proof.
  split.
  - intros w w' Hq HM Hs. pose proof Hq as (E1 & _). rewrite E1 in Hs |- *. destruct (HM Hs) as [Hc Hl]. split; [by eapply core_quiet|done].
  - intros w l Hl HM Hs. cbn in Hs |- *. destruct (HM (small_prefix _ _ Hs)) as [Hc Hh]. destruct (Hl (co_linked _ Hc)) as [H1 H2].
    split; [by apply core_land|]. unfold last_head. by rewrite heads_of_app, (heads_of_quiet l), app_nil_r.
Qed.

Section Stable.
Context (I : world → Prop) (HI : stable I).

Lemma k_quiet (f : world → world) : (∀ w, quiet w (f w)) → keeps I (modify f).
Proof. intros H. apply k_modify. intros w. by apply (st_quiet _ HI). Qed.

Lemma quiet_remove o name w : quiet w (remove_file o name w).
Proof. destruct o; apply quiet_files || by repeat split. Qed.

Lemma k_retireRequest o : keeps I (retireRequest o).
Proof. apply k_quiet. intros w. apply quiet_remove. Qed.
Lemma k_retireReceipt o : keeps I (retirePendingReceipt o).
Proof. intros w H. cbn. eapply (st_quiet _ HI); [apply quiet_remove|done]. Qed.
Lemma k_writeReceipt o r at_ : keeps I (writePendingReceipt o r at_).
Proof. intros w H. cbn. eapply (st_quiet _ HI); [apply quiet_files|done]. Qed.
Lemma k_writeRequest o q at_ : keeps I (writePendingRequest o q at_).
Proof. unfold writePendingRequest. case_bool_decide; [apply k_ret|apply k_quiet; intros w; apply quiet_files]. Qed.
Lemma k_record e : keeps I (recordIntegrityConflict e).
Proof. apply k_quiet. intros w. destruct (w_conflict w); [by repeat split|]. eapply quiet_trans; [|by apply quiet_did]. by repeat split. Qed.
Lemma k_refuse e : keeps I (refuseUnrecognised e).
Proof. apply k_quiet. intros w. case_bool_decide; [by repeat split|]. eapply quiet_trans; [|by apply quiet_did]. by repeat split. Qed.
Lemma k_keep_key env keyID m c : keeps I (keep_key env keyID m c).
Proof.
  intros w H. unfold keep_key. destruct (persistWitnessKey _ _ _ _ _ _ _) as [d res].
  assert (I (if validKeyIDFilename keyID && pe_mkdir env then with_keys (Some d) w else w)) by (destruct (_ && _); [eapply (st_quiet _ HI); [apply quiet_keys|done]|done]).
  by destruct res.
Qed.
Lemma k_obtain_key cf env : keeps I (obtain_key cf env).
Proof. unfold obtain_key. go_keeps. apply k_keep_key. Qed.
Lemma k_needed cf env : keeps I (needed cf env).
Proof. unfold needed. go_keeps. apply k_quiet. by repeat split. Qed.
Lemma k_ask env q : keeps I (ask env q).
Proof. unfold ask. go_keeps; auto using k_retireRequest, k_record, k_refuse. apply k_quiet. intros w. by apply quiet_did. Qed.
Lemma k_diverged {A} env e : keeps I (diverged env e : AM A).
Proof. unfold diverged. go_keeps; auto using k_retireRequest, k_record. Qed.
Lemma k_land env s paused : env_ok env → keeps I (land env s paused).
Proof. intros He. apply k_modify. intros w HIw. destruct paused; [done|]. apply (st_land _ HI); [|done]. intros Hl. by apply (eo_lands _ He). Qed.
End Stable.
End Invariant.
