(* ===== verification/AnchorInv.v ===== *)
(** * The passes of the anchorer keep the record's heads in order

    The triples of a pass, from the mint up to [AnchorPass], and the runs of
    the anchorer: passes, records that land between them, restarts. *)

From stdpp Require Import gmap relations sorting.
From S2P Require Import Prelude Utf8 GoJson CanonicalJson CanonicalJsonFacts GoStruct Crypto Event Lines Chain Time Container SigEnvelope Witness WitnessKeys WitnessWire Anchor AnchorFacts.

Section Passes.
Context `{P : Primitives}.

(** ** The mint *)

Lemma core_mint env w r keyID ks e frozen : env_ok env → core w → small (w_chain w) → loaded ks → fits ks r keyID (w_chain w) →
  pe_head env (w_chain w) r keyID = Some e →
  core (did (Minted r keyID (w_chain w)) (with_chain (w_chain w ++ [e]) frozen w)) ∧ last_head (w_chain w ++ [e]) = Some (rc r).
Proof.
  intros He Hc Hs Hk Hf Hh. destruct (eo_head _ He _ _ _ _ Hh) as (Ht & Hq & Hp & Hco & Hse & Hcl & Hr). pose proof Hc as [C1 C2 C3 C4 C5].
  assert (minted_receipt e = Some (head_receipt_of r keyID)) as Hm by (unfold minted_receipt; by rewrite Ht, beq_refl).
  assert (heads_of (w_chain w ++ [e]) = heads_of (w_chain w) ++ [head_receipt_of r keyID]) as Hhs.
  { rewrite heads_of_app. f_equal. unfold heads_of. cbn. by rewrite Hm. }
  split; [|by rewrite (last_snoc_head _ _ _ Hm)]. split; cbn [did with_chain w_chain w_lastReceipt w_log].
  - apply linked_app. split; [done|]. cbn. repeat split; [lia|done|done].
  - intros l Hl. by apply recorded_app, C2.
  - rewrite Hhs, fmap_app. apply StronglySorted_app. split; [|split; [done|by repeat constructor]]. intros x y (hr & -> & Hin)%list_elem_of_fmap ->%list_elem_of_singleton.
    exact (proj1 (Forall_forall _ _) (fi_after _ _ _ _ Hf) _ Hin).
  - rewrite Hhs, length_app. apply Forall_app. split; [eapply Forall_impl; [exact C4|]; intros hr; cbn; lia|]. constructor; [|done].
    pose proof (fi_pos _ _ _ _ Hf). destruct (fi_attests _ _ _ _ Hf) as [Ha _]. unfold ordinal. cbn. lia.
  - intros r' k' b' [Hin|Hin%list_elem_of_singleton]%elem_of_app; cbn.
    + destruct (C5 r' k' b' Hin) as (ks' & hd & rest & H1 & E & H2 & H3). exists ks', hd, (rest ++ [e]). split; [done|]. split; [|done]. by rewrite E, <- app_assoc.
    + injection Hin as -> -> ->. exists ks, e, []. split; [done|]. split; [done|]. split; [done|]. by apply (fits_accepts ks r keyID).
Qed.

Lemma t_mint env s last r keyID : env_ok env →
  triple (F last r keyID) (MintWitnessed env s r keyID) (λ head w, match head with Some _ => M r w | None => J w end) (λ _, J).
Proof.
  intros He w [[HJ _] (ks & Hk & Hf)]. unfold MintWitnessed. destruct (w_frozen w) eqn:Hfr; [done|].
  destruct (pe_mint env s) eqn:Em; [|done|]; (destruct (pe_head env (w_chain w) r keyID) as [e|] eqn:Eh; [|done]); intros Hs; cbn in Hs;
    pose proof (small_prefix _ _ Hs) as Hs'; destruct (HJ Hs') as [Hc _].
  - exact (core_mint env w r keyID ks e false He Hc Hs' Hk (Hf Hs' eq_refl) Eh).
  - split; [exact (proj1 (core_mint env w r keyID ks e true He Hc Hs' Hk (Hf Hs' eq_refl) Eh))|done].
Qed.

(** The anchorer learns of the mint. *)
Lemma t_anchored env r E : triple (M r) (anchored env r) (λ _, J) E.
Proof.
  intros w HM. cbn. intros Hs. destruct (HM Hs) as [[C1 C2 C3 C4 C5] Hl]. split; [split; try done|].
  - cbn. intros l [= <-]. by apply last_head_in.
  - intros _. symmetry. exact Hl.
Qed.

(** ** The rule *)

Lemma headRule_ok env s last w heads : headRule env s last w = Ok heads → agrees heads (rc <$> last) ∧ loaded (keys heads).
Proof.
  unfold headRule. intros (platform & Hp & H)%bind_ok. apply bind_ok in H as (hv & Hh & H). unfold LoadHeadVerifier in Hh. apply bind_ok in Hh as (ks & Hk & Hh).
  injection Hh as <-. injection H as <-. destruct last as [l|]; (split; [done|]); by eexists _, _, _, _.
Qed.

Lemma stands_F s env last w0 heads w r ok : headRule env s last w0 = Ok heads → B (1 ≤ LedgerOrdinal (rc r)) last w →
  standsUnder ok heads r (w_chain w) = Stands → F last r (ws_KeyID (rc_sig r)) w.
Proof.
  intros [Ha Hl]%headRule_ok (HJ & Hla & Ho) Hst. split; [done|]. exists (keys heads). split; [done|]. intros Hs Hfr. destruct (HJ Hs) as [Hc Hk].
  eapply stands_fits; [done|done| |by apply Ho|exact Hst]. rewrite <- (Hk Hfr), Hla. done.
Qed.

(** ** The programs *)

Lemma t_keeps {A} I (m : AM A) (E : anchor_err → world → Prop) : keeps I m → (∀ e w, I w → E e w) → triple I m (λ _, I) E.
Proof. intros H HE. eapply t_conseq; [exact H|done|done|done]. Qed.
Lemma t_pure {A} (φ : Prop) Pre (m : AM A) Q E : (φ → triple Pre m Q E) → triple (λ w, φ ∧ Pre w) m Q E.
Proof. intros H w [Hφ Hw]. by apply (H Hφ). Qed.
Lemma B_J φ last w : B φ last w → J w.
Proof. by intros [H _]. Qed.
Lemma F_J last r keyID w : F last r keyID w → J w.
Proof. by intros [[H _] _]. Qed.
Lemma B_weaken (φ ψ : Prop) last w : (φ → ψ) → B φ last w → B ψ last w.
Proof. intros H (H1 & H2 & H3). split; [done|]. split; [done|auto]. Qed.

Hint Resolve stable_J stable_B stable_F stable_M B_J F_J : anchor.
Hint Resolve k_retireRequest k_retireReceipt k_writeReceipt k_writeRequest k_record k_refuse k_obtain_key k_needed k_ask k_diverged k_land : anchor.

(** Step over a part that keeps the assertion at hand. *)
Ltac t_step := eapply t_bind; [apply t_keeps; [solve [eauto with anchor]|solve [eauto with anchor]]|intros ?].

Lemma t_get_bind {A} Pre (f : world → AM A) Q E : (∀ w0, Pre w0 → triple (λ w, w = w0) (f w0) Q E) → triple Pre (get ≫= f) Q E.
Proof. intros H w Hw. by apply (H w Hw w). Qed.
Lemma t_lift_bind {X A C} (f : X → anchor_err) (r : result X A) (k : A → AM C) Pre Q E :
  (∀ a, r = Ok a → triple Pre (k a) Q E) → (∀ x w, r = Err x → Pre w → E (f x) w) → triple Pre (lift f r ≫= k) Q E.
Proof. intros Hk HE w Hw. destruct r as [a|e]; [exact (Hk a eq_refl w Hw)|exact (HE e w eq_refl Hw)]. Qed.
Lemma t_at {A} w0 (Pre : world → Prop) (m : AM A) Q E : Pre w0 → triple Pre m Q E → triple (λ w, w = w0) m Q E.
Proof. intros H Ht w ->. by apply Ht. Qed.

Lemma names_body_pos id ord hash id' ord' hash' : names_body id ord hash id' ord' hash' = true → 1 ≤ ord' ∧ id = id' ∧ ord = ord' ∧ hash = hash'.
Proof. unfold names_body. intros H%negb_true_iff. rewrite !orb_false_iff, !negb_false_iff in H. destruct H as (((((_ & H1) & _) & H2) & H3) & H4). b2p. repeat split; congruence || lia. Qed.

Lemma readPendingReceipt_pos f p : readPendingReceipt f = Ok (Some p) → 1 ≤ LedgerOrdinal (rc (pr_Receipt p)).
Proof.
  unfold readPendingReceipt. destruct f as [[raw|]|]; try done. destruct (decode_pending _ _ _ _) as [[[[[id ord] hash] r] at_]|]; [|done].
  destruct (negb _) eqn:E; [done|]. b2p. destruct (time_Parse at_); [|done]. intros [= <-]. by apply names_body_pos in E as (? & _).
Qed.
Lemma readPendingRequest_pos f p : readPendingRequest f = Ok (Some p) →
  1 ≤ rq_Ordinal (pq_Request p) ∧ pq_Ordinal p = rq_Ordinal (pq_Request p) ∧ pq_Hash p = rq_Hash (pq_Request p).
Proof.
  unfold readPendingRequest. destruct f as [[raw|]|]; try done. destruct (decode_pending _ _ _ _) as [[[[[id ord] hash] r] at_]|]; [|done].
  destruct (negb _) eqn:E; [done|]. b2p. intros [= <-]. by apply names_body_pos in E as (? & _ & -> & ->).
Qed.

Lemma k_settled o : keeps J (ok ← retirePendingReceipt o; if ok : bool then mret () else throw ARetire).
Proof. go_keeps. eauto with anchor. Qed.

Lemma k_SettlePending cf env : env_ok env → keeps J (SettlePending cf env).
Proof.
  intros He. unfold SettlePending. destruct (negb (cf_minter cf)); [apply k_ret|]. apply t_get_bind. intros w0 HJ.
  apply t_lift_bind; [|by intros x w _ ->]. intros [p|] Hp; [|by apply (t_at _ J), k_ret]. apply readPendingReceipt_pos in Hp.
  destruct (match w_lastReceipt w0 with Some l => sameReceipt l (pr_Receipt p) | None => false end); [by apply (t_at _ J), k_settled|]. apply t_lift_bind; [|by intros x w _ ->]. intros heads Hh.
  destruct (standsUnder _ _ _ _) eqn:Hst; [|by intros w ->|by intros w ->].
  eapply (t_at _ (F (w_lastReceipt w0) _ _)); [eapply stands_F; [exact Hh|exact (conj HJ (conj eq_refl (λ _, Hp)))|exact Hst]|]. t_step.
  eapply t_bind; [by apply t_mint|]. intros [e|]; [|by intros w Hw]. eapply t_bind; [apply t_anchored|]. intros []. apply k_settled.
Qed.

Definition sendable (resend : option pendingRequest) : Prop := ∀ p, resend = Some p → 1 ≤ rq_Ordinal (pq_Request p).

Lemma t_requestToSendAgain env : triple J (requestToSendAgain env) (λ resend w, sendable resend ∧ J w) (λ _, J).
Proof.
  unfold requestToSendAgain. apply t_get_bind. intros w0 HJ. apply (t_at _ J _ _ _ HJ). destruct (readPendingRequest _) as [[p|]|] eqn:Hp.
  - destruct (_ && _); [by apply readPendingRequest_pos in Hp as (? & _); intros w Hw; split; [intros q [= <-]|]|]. t_step. by intros w Hw.
  - by intros w Hw.
  - eapply t_bind; [apply t_keeps; [|done]|intros []; by intros w Hw]. apply k_quiet; [apply stable_J|]. intros w. destruct (pe_aside env); [|by repeat split].
    destruct (w_files w !! _); [apply quiet_files|by repeat split].
Qed.

Lemma t_choose cf env resend id canonical e last : sendable resend →
  triple (B True last) (choose_request cf env resend id canonical e) (λ q, B (1 ≤ rq_Ordinal q) last) (λ _, J).
Proof.
  intros Hr. unfold choose_request. destruct resend as [p|].
  - destruct (negb _); [t_step; intros w; apply B_J|]. intros w Hw. eapply B_weaken; [|exact Hw]. intros _. by apply Hr.
  - eapply (t_bind _ _ _ (λ q, B (1 ≤ rq_Ordinal q) last)); [|intros q; t_step; by intros w Hw].
    unfold buildRequest. apply t_get_bind. intros w0 HB. unfold Last. destruct (Z.eqb_spec (Z.of_nat (length (w_chain w0))) 0) as [E|E]; [intros w ->; by eapply B_J|].
    apply t_lift_bind; [|intros x w _ ->; by eapply B_J]. intros sig _ w ->. destruct HB as (H1 & H2 & _). split; [done|]. split; [done|]. unfold small. cbn. intros Hs.
    rewrite to_int64_small by lia. lia.
Qed.

Lemma t_hold env s w0 heads last r first : headRule env s last w0 = Ok heads →
  triple (B (1 ≤ LedgerOrdinal (rc r)) last) (hold_to_rule env (Some heads) last r first) (λ _, F last r (ws_KeyID (rc_sig r))) (λ _, J).
Proof.
  intros Hh. unfold hold_to_rule. apply t_get_bind. intros w HB. destruct (standsUnder _ _ _ _) eqn:Hst.
  - intros ? ->. by eapply stands_F.
  - apply (t_at _ J); [by eapply B_J|]. apply (t_conseq _ J _ _ (λ _ _, False) _ (λ _, J)); try done. unfold diverged. t_step. t_step. by intros w' Hw'.
  - apply (t_at _ J); [by eapply B_J|]. t_step. eapply (t_bind _ _ _ (λ _, J)); [|intros []; by intros w' Hw'].
    destruct a; [apply t_keeps; eauto with anchor|by intros w' Hw'].
Qed.

Lemma t_mint_answer cf env last r key mv : env_ok env → triple (F last r (pke_KeyID key)) (mint_answer cf env r key mv) (λ _, M r) (λ _, J).
Proof.
  intros He. unfold mint_answer. t_step. eapply (t_bind _ _ _ (λ _, F last r (pke_KeyID key))).
  { destruct a; [apply t_keeps; eauto with anchor|intros w Hw; exact Hw]. }
  intros []. t_step. eapply t_bind; [by apply t_mint|]. intros [head|]; [|by intros w Hw].
  eapply (t_bind _ _ _ (λ _, M r)); [|intros b; destruct (_ && _); [|by intros w Hw]].
  - intros w Hw. cbn. eapply (st_quiet _ (stable_M r)); [apply quiet_remove|done].
  - intros w Hw. cbn. eapply (st_quiet _ (stable_M r)); [by apply quiet_did|done].
Qed.

Lemma VerifyReceipt_fields r q key : VerifyReceipt r q key = Ok () → LedgerOrdinal (rc r) = rq_Ordinal q ∧ LedgerHash (rc r) = rq_Hash q ∧ ws_KeyID (rc_sig r) = pke_KeyID key.
Proof.
  unfold VerifyReceipt. destruct (negb (beq (IdentityID _) _)); [done|]. destruct (_ || _) eqn:E; [done|]. b2p.
  destruct (negb (beq (ws_SignatureProfile _) _)); [done|]. destruct (negb (beq (ws_Alg _) _)); [done|]. destruct (negb (beq (ws_KeyID _) _)) eqn:E'; [done|]. by b2p.
Qed.

Lemma k_exchange cf env resend last : cf_minter cf = true → env_ok env → sendable resend →
  triple (B True last) (exchange cf env resend last) (λ _, J) (λ _, J).
Proof.
  intros Hm He Hr. unfold exchange. t_step. destruct a as [key mv]. apply t_lift_bind; [|intros x w _; apply B_J]. intros [canonical e] _.
  apply t_lift_bind; [|intros x w _; apply B_J]. intros id _.
  destruct (match last with Some l => negb (beq (IdentityID (rc l)) []) && negb (beq (IdentityID (rc l)) id) | None => false end); [intros w; apply B_J|].
  apply t_get_bind. intros w0 HB. apply (t_at _ _ _ _ _ HB). apply t_lift_bind; [|intros x w _; apply B_J]. rewrite Hm. intros heads Hh.
  destruct (headRule env Asking last w0) as [h|] eqn:Eh; [|done]. injection Hh as <-. destruct (pe_ended env); [intros w; apply B_J|]. t_step.
  eapply t_bind; [by apply t_choose|]. intros q. t_step. destruct a0 as [r first]. t_step. destruct (VerifyReceipt r q key) as [[]|] eqn:Hv.
  - apply VerifyReceipt_fields in Hv as (Ho & _ & Hk). rewrite <- Ho. eapply t_bind; [by eapply t_hold|]. intros []. rewrite Hk.
    eapply t_bind; [by apply t_mint_answer|]. intros []. eapply t_bind; [apply t_anchored|]. intros []. apply t_keeps; eauto with anchor.
  - apply (t_conseq _ J _ _ (λ _, J) _ (λ _, J)); [|intros w; apply B_J|done|done]. eapply (t_bind _ _ _ (λ _, J)); [|intros []; by intros w Hw].
    destruct resend; [apply t_keeps; eauto with anchor|by intros w Hw].
Qed.

Lemma J_B w : J w → B True (w_lastReceipt w) w.
Proof. by intros H. Qed.

Lemma k_AnchorPass cf env : cf_minter cf = true → env_ok env → keeps J (AnchorPass cf env).
Proof.
  intros Hm He. unfold AnchorPass. apply t_get_bind. intros w0 HJ. apply (t_at _ J _ _ _ HJ). destruct (w_conflict w0); [by intros w Hw|].
  eapply t_bind; [by apply k_SettlePending|]. intros []. eapply t_bind; [apply t_requestToSendAgain|]. intros resend. apply t_pure. intros Hr.
  apply t_get_bind. intros w1 HJ1. apply (t_at _ _ _ _ _ (J_B _ HJ1)). t_step. destruct (_ && _); [intros w; apply B_J|]. by apply k_exchange.
Qed.
End Passes.
