(* ===== verification/AnchorRuns.v ===== *)
(** * Runs of the anchorer

    Passes under any environment, records landing between them and restarts, in
    any order.  What is minted stands at the next boot, and a receipt that was
    kept beside the ledger is minted once and never lost. *)

From stdpp Require Import gmap relations sorting.
From S2P Require Import Prelude Utf8 GoJson CanonicalJson CanonicalJsonFacts GoStruct Crypto Event Lines Chain Time Container SigEnvelope Witness WitnessKeys WitnessWire Anchor AnchorFacts AnchorInv.

Section Runs.
Context `{P : Primitives}.

(** What the store holds of the last head, when its projection is the record's. *)
Definition stored_ok (chain : list Event) (stored : option (Z * option Receipt)) : Prop :=
  match stored with
  | None => last_head chain = None
  | Some (seq, r) => ∃ l, r = Some l ∧ seq = LedgerOrdinal (rc l) ∧ last_head chain = Some (rc l)
  end.

Inductive astep : world → world → Prop :=
| a_pass cf env w : cf_minter cf = true → env_ok env → astep w (AnchorPass cf env w).1
| a_land w l : lands_ok w l → astep w (with_chain (w_chain w ++ l) (w_frozen w) w)
| a_restart w stored : stored_ok (w_chain w) stored → astep w (NewAnchorer stored w).

(** A record whose heads are in order, nothing minted yet, and an anchorer that
    read its last head. *)
Record started (w : world) : Prop := {
  sr_linked : linked 0 [] (w_chain w);
  sr_sorted : StronglySorted Z.lt (ordinal <$> heads_of (w_chain w));
  sr_range : Forall (λ hr, 1 ≤ ordinal hr < Z.of_nat (length (w_chain w))) (heads_of (w_chain w));
  sr_last : rc <$> w_lastReceipt w = last_head (w_chain w);
  sr_log : w_log w = [];
}.

Lemma started_J w : started w → J w.
Proof.
  intros [H1 H2 H3 H4 H5] Hs. split; [|by intros _]. split; try done.
  - intros l Hl. apply last_head_in. by rewrite <- H4, Hl.
  - intros r k b. rewrite H5. by intros Hin%not_elem_of_nil.
Qed.

Lemma restart_J w stored : stored_ok (w_chain w) stored → J w → J (NewAnchorer stored w).
Proof.
  intros Hst HJ Hs. unfold NewAnchorer. destruct stored as [[seq r]|].
  - destruct Hst as (l & -> & -> & Hl). assert (small (w_chain w)) as Hs' by (unfold NewAnchorer in Hs; by destruct (0 <? _)).
    destruct (HJ Hs') as [[C1 C2 C3 C4 C5] _]. destruct (last_head_in _ _ Hl) as (hr & Hin & Ehr). pose proof (proj1 (Forall_forall _ _) C4 _ Hin) as Hr.
    unfold ordinal in Hr. rewrite Ehr in Hr. rewrite (proj2 (Z.ltb_lt 0 _)) by lia. split; [|intros _; symmetry; exact Hl]. split; try done.
    cbn. intros l' [= <-]. by apply last_head_in.
  - destruct (HJ Hs) as [[C1 C2 C3 C4 C5] _]. split; [|intros _; symmetry; exact Hst]. by split.
Qed.

Lemma astep_J w w' : astep w w' → J w → J w'.
Proof.
  destruct 1 as [cf env w Hm He|w l Hl|w stored Hst]; intros HJ.
  - by apply keeps_world; [apply k_AnchorPass|].
  - by apply J_land.
  - by apply restart_J.
Qed.

Lemma run_J w w' : rtc astep w w' → J w → J w'.
Proof. induction 1; eauto using astep_J. Qed.


(** ** The record only grows *)

Definition grown (c : list Event) (w : world) : Prop := c `prefix_of` w_chain w.
Definition Rec (x : WitnessReceipt) (w : world) : Prop := small (w_chain w) → recorded (w_chain w) x.

Lemma stable_grown c : stable (grown c).
Proof. split; [intros w w' (E & _) H; unfold grown; by rewrite E|intros w l _ H; exact (prefix_app_r _ _ _ H)]. Qed.
Lemma stable_Rec x : stable (Rec x).
Proof. split; [intros w w' (E & _) H; unfold Rec; by rewrite E|]. intros w l _ H Hs. apply recorded_app, H. exact (small_prefix _ _ Hs). Qed.

Lemma grown_mint c env s r keyID : keeps (grown c) (MintWitnessed env s r keyID).
Proof.
  intros w H. unfold MintWitnessed. destruct (w_frozen w); [done|]. destruct (pe_mint env s), (pe_head env (w_chain w) r keyID); try done; exact (prefix_app_r _ _ _ H).
Qed.
Lemma grown_anchored c env r : keeps (grown c) (anchored env r).
Proof. by apply k_modify. Qed.

Hint Resolve stable_grown stable_Rec grown_mint grown_anchored stable_J : anchor.
Hint Resolve k_retireRequest k_retireReceipt k_writeReceipt k_writeRequest k_record k_refuse k_obtain_key k_needed k_ask k_diverged k_land : anchor.

Lemma grown_settle c cf env : env_ok env → keeps (grown c) (SettlePending cf env).
Proof. intros He. unfold SettlePending. go_keeps; eauto with anchor. Qed.
Lemma grown_request c env : keeps (grown c) (requestToSendAgain env).
Proof.
  unfold requestToSendAgain. go_keeps; eauto with anchor. apply k_modify. intros w H. destruct (pe_aside env); [|done]. by destruct (w_files w !! _).
Qed.
Lemma grown_exchange c cf env resend last : env_ok env → keeps (grown c) (exchange cf env resend last).
Proof.
  intros He. unfold exchange, choose_request, buildRequest, hold_to_rule, mint_answer. go_keeps; eauto with anchor. by apply k_modify.
Qed.
Lemma grown_pass c cf env : env_ok env → keeps (grown c) (AnchorPass cf env).
Proof. intros He. unfold AnchorPass. go_keeps; eauto using grown_settle, grown_request, grown_exchange with anchor. Qed.

Lemma recorded_grown c w x : recorded c x → grown c w → recorded (w_chain w) x.
Proof. intros H (l & E). rewrite E. by apply recorded_app. Qed.
Lemma small_grown c w : grown c w → small (w_chain w) → small c.
Proof. intros (l & E). rewrite E. apply small_prefix. Qed.

(** ** A receipt that was kept *)

Definition filed (r : Receipt) (at_ : bytes) (w : world) : Prop := w_files w !! PendingReceiptFileName = Some (pending_receipt_document r at_).
(** It is beside the ledger still, or in the record. *)
Definition kept (r : Receipt) (at_ : bytes) (w : world) : Prop := filed r at_ w ∨ recorded (w_chain w) (rc r).

(** The document of the receipt reads back. *)
Record readable (r : Receipt) (at_ : bytes) : Prop := {
  rd_wf : wf_receipt r; rd_id : IdentityID (rc r) ≠ []; rd_ord : 1 ≤ LedgerOrdinal (rc r); rd_hash : LedgerHash (rc r) ≠ [];
  rd_at : wf_text at_; rd_time : is_Some (time_Parse at_);
}.

Lemma t_and {A} Pre Pre' (m : AM A) Q Q' E E' : triple Pre m Q E → triple Pre' m Q' E' →
  triple (λ w, Pre w ∧ Pre' w) m (λ a w, Q a w ∧ Q' a w) (λ e w, E e w ∧ E' e w).
Proof. intros H H' w [Hw Hw']. specialize (H w Hw). specialize (H' w Hw'). by destruct (m w) as [? [?|?]]. Qed.

Lemma filed_mint r at_ env s r' keyID : keeps (filed r at_) (MintWitnessed env s r' keyID).
Proof. intros w H. unfold MintWitnessed. destruct (w_frozen w); [done|]. by destruct (pe_mint env s), (pe_head env (w_chain w) r' keyID). Qed.
Lemma filed_land r at_ env s paused : keeps (filed r at_) (land env s paused).
Proof. apply k_modify. intros w H. by destruct paused. Qed.

Lemma t_anchored_rec env r E : triple (M r) (anchored env r) (λ _, Rec (rc r)) E.
Proof. intros w HM Hs. destruct (HM Hs) as [_ Hl]. by apply last_head_in. Qed.
Lemma t_settled r at_ o : triple (Rec (rc r)) (ok ← retirePendingReceipt o; if ok : bool then mret () else throw ARetire) (λ _, Rec (rc r)) (λ _ w, small (w_chain w) → kept r at_ w).
Proof.
  assert (keeps (Rec (rc r)) (ok ← retirePendingReceipt o; if ok : bool then mret () else throw ARetire)) as Hk by (go_keeps; eauto with anchor).
  eapply t_conseq; [exact Hk|done|done|]. intros e w H Hs. right. by apply H.
Qed.

(** A receipt beside the ledger is settled, or still there. *)
Lemma settle_filed cf env r at_ w0 : cf_minter cf = true → env_ok env → readable r at_ → J w0 → small (w_chain w0) → filed r at_ w0 →
  triple (λ w, w = w0) (SettlePending cf env) (λ _, Rec (rc r)) (λ _ w, small (w_chain w) → kept r at_ w).
Proof.
  intros Hm He [R1 R2 R3 R4 R5 [t Ht]] HJ Hs Hf. unfold SettlePending. rewrite Hm. cbn [negb]. apply t_get_bind. intros ? ->.
  apply t_lift_bind; [|intros x w _ -> _; by left]. intros p Hp. unfold file in Hp. destruct (pe_read_receipt env); [|done].
  unfold filed in Hf. rewrite Hf, (pending_receipt_reads r at_ t) in Hp by done. injection Hp as <-. cbn [pr_Receipt].
  destruct (match w_lastReceipt w0 with Some l => sameReceipt l r | None => false end) eqn:Esame.
  - destruct (w_lastReceipt w0) as [l|] eqn:El; [|done]. apply sameReceipt_rc in Esame. apply (t_at _ (Rec (rc r))); [|apply t_settled].
    intros _. destruct (HJ Hs) as [Hc _]. rewrite <- Esame. by apply (co_recorded _ Hc).
  - apply t_lift_bind; [|intros x w _ -> _; by left]. intros heads Hh. destruct (standsUnder _ _ _ _) eqn:Hst; [|intros w -> _; by left|intros w -> _; by left].
    eapply (t_at _ (λ w, F (w_lastReceipt w0) r (ws_KeyID (rc_sig r)) w ∧ filed r at_ w)).
    { split; [|done]. eapply stands_F; [exact Hh|exact (conj HJ (conj eq_refl (λ _, R3)))|exact Hst]. }
    eapply t_bind; [apply t_keeps; [apply t_and; [apply k_land; [apply stable_F|done]|apply filed_land]|intros e w [_ ?] _; by left]|]. intros [].
    eapply t_bind; [eapply t_conseq; [apply (t_and _ _ _ _ _ _ _ (t_mint env Settling (w_lastReceipt w0) r (ws_KeyID (rc_sig r)) He) (filed_mint r at_ env Settling r (ws_KeyID (rc_sig r))))|done|by intros a w H; exact H|intros e w [_ ?] _; by left]|].
    intros [head|]; [|intros w [_ ?] _; by left]. eapply t_bind; [eapply t_conseq; [apply (t_anchored_rec env r)|by intros w [? _]|done|by intros e w H; exact H]|].
    intros []. apply t_settled.
Qed.

Lemma k_rec {A} x (m : AM A) : (∀ c, keeps (grown c) m) → keeps (Rec x) m.
Proof.
  intros H w Hr. specialize (H (w_chain w) w ltac:(by exists []; rewrite app_nil_r)). destruct (m w) as [w' [a|e]]; intros Hs; (eapply recorded_grown; [|exact H]); by eapply Hr, small_grown.
Qed.

(** The part of a pass after the settlement. *)
Lemma rec_after cf env x : env_ok env → keeps (Rec x) (resend ← requestToSendAgain env; w ← get; need ← needed cf env;
    if bool_decide (resend = None) && (((Last (w_chain w)).1 =? 0) || (to_int64 (u64 ((Last (w_chain w)).1 - w_lastAnchoredSeq w)) <? need)) then mret ()
    else exchange cf env resend (w_lastReceipt w)).
Proof. intros He. apply k_rec. intros c. go_keeps; eauto using grown_request, grown_exchange with anchor. Qed.

Lemma sorted_NoDup l : StronglySorted Z.lt l → NoDup l.
Proof. induction 1 as [|x l _ IH Hf]; constructor; [|done]. intros Hin. pose proof (proj1 (Forall_forall _ _) Hf _ Hin). lia. Qed.

(** From a state where it was kept, every step leaves it kept. *)
Lemma kept_pass cf env r at_ w : cf_minter cf = true → env_ok env → readable r at_ → J w → (small (w_chain w) → kept r at_ w) →
  small (w_chain (AnchorPass cf env w).1) → kept r at_ (AnchorPass cf env w).1.
Proof.
  intros Hm He Hr HJ Hk Hs'. assert (∀ w', Rec (rc r) w' → small (w_chain w') → kept r at_ w') as HR by (intros w' H Hs; right; by apply H).
  assert (small (w_chain w)) as Hs.
  { eapply small_grown; [|exact Hs']. apply keeps_world; [by apply grown_pass|]. exists []. by rewrite app_nil_r. }
  destruct (Hk Hs) as [Hf|Hrec].
  - revert Hs'. enough (triple (λ w0, w0 = w) (AnchorPass cf env) (λ _ w', small (w_chain w') → kept r at_ w') (λ _ w', small (w_chain w') → kept r at_ w')) as Ht.
    { specialize (Ht w eq_refl). by destruct (AnchorPass cf env w) as [? [?|?]]. }
    unfold AnchorPass. apply t_get_bind. intros ? ->. destruct (w_conflict w); [intros ? -> _; by left|].
    eapply t_bind; [by apply (settle_filed cf env r at_ w)|]. intros []. eapply t_conseq; [by apply rec_after|done|intros a; apply HR|intros e; apply HR].
  - apply HR; [|done]. apply keeps_world; [|by intros _]. apply k_rec. intros c. by apply grown_pass.
Qed.

Lemma kept_step w w' r at_ : astep w w' → readable r at_ → J w → (small (w_chain w) → kept r at_ w) → small (w_chain w') → kept r at_ w'.
Proof.
  destruct 1 as [cf env w Hm He|w l Hl|w stored Hst]; intros Hr HJ Hk Hs.
  - by apply kept_pass.
  - cbn in Hs. destruct (Hk (small_prefix _ _ Hs)) as [?|?]; [by left|right; by apply recorded_app].
  - unfold NewAnchorer in *. destruct stored as [[seq o]|]; [destruct (0 <? seq)|]; exact (Hk Hs).
Qed.

Lemma run_kept w w' r at_ : rtc astep w w' → readable r at_ → J w → (small (w_chain w) → kept r at_ w) → small (w_chain w') → kept r at_ w'.
Proof. induction 1 as [|w w1 w2 H1 _ IH]; [auto|]. intros Hr HJ Hk. apply IH; [done|by eapply astep_J|]. intros Hs. by eapply kept_step. Qed.

(** C16. A receipt that was kept beside the ledger is never lost and never
    minted twice: however passes, landing records and restarts follow, it is in
    its file still or a head of the record carries it, and no two heads of the
    record carry the same receipt. *)
Theorem kept_receipt_minted_once w0 w w' r at_ : started w0 → rtc astep w0 w → filed r at_ w → readable r at_ → rtc astep w w' → small (w_chain w') →
  (filed r at_ w' ∨ recorded (w_chain w') (rc r)) ∧ NoDup (hr_receipt <$> heads_of (w_chain w')).
Proof.
  intros H0 H1 Hf Hr H2 Hs. pose proof (run_J _ _ H1 (started_J _ H0)) as HJ. split; [by apply (run_kept w); [..|intros _; left|]|].
  destruct (run_J _ _ H2 HJ Hs) as [Hc _]. apply (NoDup_fmap_1 LedgerOrdinal). rewrite <- list_fmap_compose.
  apply sorted_NoDup, (co_sorted _ Hc).
Qed.
End Runs.
