(* ===== verification/AnchorAsk.v ===== *)
(** * What the anchorer asks, and when it falls silent

    An integrity conflict latches the anchorer until a restart; a request whose
    answer was lost is sent again, byte for byte, until it is answered. *)

From stdpp Require Import gmap relations sorting.
From S2P Require Import Prelude Utf8 GoJson CanonicalJson CanonicalJsonFacts GoStruct Crypto Event Lines Chain Time Container SigEnvelope Witness WitnessKeys WitnessWire Anchor AnchorFacts AnchorInv AnchorRuns.

Section Latch.
Context `{P : Primitives}.

(** ** The latch *)

Definition open (w : world) : Prop := w_conflict w = None.
(** An error that tells of a conflict comes with the conflict latched and told. *)
Definition latched (err : anchor_err) (w : world) : Prop :=
  ∀ e, err = AConflict e → w_conflict w = Some e ∧ ToldConflict e ∈ w_log w.
Definition calm {A} (m : AM A) : Prop := triple open m (λ _, open) latched.

Lemma c_bind {A C} (m : AM A) (f : A → AM C) : calm m → (∀ a, calm (f a)) → calm (m ≫= f).
Proof. apply t_bind. Qed.
Lemma c_get {A} (f : world → AM A) : (∀ w0, calm (f w0)) → calm (get ≫= f).
Proof. intros H w Hw. exact (H w w Hw). Qed.
Lemma c_ret {A} (a : A) : calm (mret a).
Proof. by intros w Hw. Qed.
Lemma c_throw {A} e : (∀ c, e ≠ AConflict c) → calm (throw e : AM A).
Proof. intros He w Hw c ->. by destruct (He c). Qed.
Lemma c_lift {X A} (f : X → anchor_err) (r : result X A) : (∀ x c, f x ≠ AConflict c) → calm (lift f r).
Proof. intros He w Hw. unfold lift. destruct r as [a|x]; [done|]. intros c Hc. by destruct (He x c). Qed.
Lemma c_modify f : (∀ w, w_conflict (f w) = w_conflict w) → calm (modify f).
Proof. intros H w Hw. cbn. unfold open. by rewrite H. Qed.
Lemma c_told {A} e : calm (_ ← recordIntegrityConflict e; throw (AConflict e) : AM A).
Proof.
  intros w Hw. unfold recordIntegrityConflict, modify, throw, mbind, AM_bind. cbn. rewrite Hw. intros c [= <-]. split; [done|]. cbn. apply elem_of_app. right. by constructor.
Qed.
Lemma c_retireRequest o : calm (retireRequest o).
Proof. apply c_modify. intros w. by destruct o. Qed.
Lemma c_retireReceipt o : calm (retirePendingReceipt o).
Proof. intros w Hw. cbn. by destruct o. Qed.
Lemma c_writeReceipt o r at_ : calm (writePendingReceipt o r at_).
Proof. by intros w Hw. Qed.
Lemma c_writeRequest o q at_ : calm (writePendingRequest o q at_).
Proof. unfold writePendingRequest. case_bool_decide; [apply c_ret|by apply c_modify]. Qed.
Lemma c_mint env s r keyID : calm (MintWitnessed env s r keyID).
Proof. intros w Hw. unfold MintWitnessed. destruct (w_frozen w); [done|]. by destruct (pe_mint env s), (pe_head env (w_chain w) r keyID). Qed.
Lemma c_keep_key env keyID m c : calm (keep_key env keyID m c).
Proof.
  intros w Hw. unfold keep_key. destruct (persistWitnessKey _ _ _ _ _ _ _) as [d res]. destruct res as [a|x]; cbn; [by destruct (_ && _)|]. by intros e [=].
Qed.

Ltac go_calm :=
  repeat lazymatch goal with
  | |- calm (get ≫= _) => apply c_get; intros ?
  | |- calm (_ ← recordIntegrityConflict _; throw _) => apply c_told
  | |- calm (mbind _ _) => apply c_bind; [|intros ?]
  | |- calm (mret _) => apply c_ret
  | |- calm (throw _) => apply c_throw; by intros ?
  | |- calm (lift _ _) => apply c_lift; by intros ??
  | |- calm (retireRequest _) => apply c_retireRequest
  | |- calm (retirePendingReceipt _) => apply c_retireReceipt
  | |- calm (writePendingReceipt _ _ _) => apply c_writeReceipt
  | |- calm (writePendingRequest _ _ _) => apply c_writeRequest
  | |- calm (MintWitnessed _ _ _ _) => apply c_mint
  | |- calm (keep_key _ _ _ _) => apply c_keep_key
  | |- calm (modify _) => apply c_modify; intros ?; try done
  | |- calm (let '(_, _) := ?x in _) => destruct x
  | |- calm (if ?b then _ else _) => destruct b
  | |- calm (match ?x with _ => _ end) => destruct x
  end.

Lemma c_AnchorPass cf env : calm (AnchorPass cf env).
Proof.
  unfold AnchorPass, SettlePending, requestToSendAgain, needed, exchange, obtain_key, choose_request, buildRequest, ask, hold_to_rule, diverged, mint_answer, anchored, refuseUnrecognised, land.
  go_calm; repeat case_match; done.
Qed.

(** C18. An integrity conflict silences the anchorer: a pass that ends in one has
    latched it and told the owner, and from then on no pass, whatever lands and
    whatever the witness would answer, changes anything until a restart. *)
Theorem conflict_silences cf env w w' e : AnchorPass cf env w = (w', Err (AConflict e)) →
  w_conflict w' = Some e ∧ ToldConflict e ∈ w_log w' ∧
  ∀ chain cf' env', AnchorPass cf' env' (with_chain chain (w_frozen w') w') = (with_chain chain (w_frozen w') w', Err (ALatched e)).
Proof.
  intros H. assert (open w) as Ho.
  { destruct (w_conflict w) as [c|] eqn:E; [|done]. unfold AnchorPass, get, mbind, AM_bind in H. by rewrite E in H. }
  pose proof (c_AnchorPass cf env w Ho) as Hl. rewrite H in Hl. destruct (Hl e eq_refl) as [H1 H2]. split; [done|]. split; [done|]. intros chain cf' env'.
  unfold AnchorPass, get, mbind, AM_bind. cbn [w_conflict with_chain]. by rewrite H1.
Qed.
End Latch.

Section Ask.
Context `{P : Primitives}.

(** ** The request that waits for its answer *)

Record awaiting (q : WitnessRequest) (w : world) : Prop := {
  aw_open : w_conflict w = None;
  aw_none : w_files w !! PendingReceiptFileName = None;
  aw_kept : ∃ p, readPendingRequest (Ok (w_files w !! PendingRequestFileName)) = Ok (Some p) ∧ pq_Request p = q;
  aw_fresh : w_lastAnchoredSeq w < rq_Ordinal q;
  aw_attests : attests (w_chain w) (rq_Ordinal q) (rq_Hash q);
  aw_linked : linked 0 [] (w_chain w);
}.

(** What of the state the wait depends on. *)
Lemma awaiting_agree q w w' : w_conflict w' = w_conflict w → w_files w' = w_files w → w_lastAnchoredSeq w' = w_lastAnchoredSeq w → w_chain w' = w_chain w →
  awaiting q w → awaiting q w'.
Proof. intros E1 E2 E3 E4 [H1 H2 H3 H4 H5 H6]. split; rewrite ?E1, ?E2, ?E3, ?E4; done. Qed.
Lemma awaiting_land q w l : lands_ok w l → awaiting q w → awaiting q (with_chain (w_chain w ++ l) (w_frozen w) w).
Proof. intros Hl [H1 H2 H3 H4 H5 H6]. split; cbn; try done; [by apply attests_app|by apply Hl]. Qed.

Lemma entryHashAt_attested ok chain n hash : linked 0 [] chain → attests chain n hash → 1 ≤ n → entryHashAt ok chain n = Some hash ∨ entryHashAt ok chain n = None.
Proof.
  intros Hl [Hn Hh] H1. destruct (entryHashAt ok chain n) as [h|] eqn:E; [|by right]. left. destruct (entryHashAt_ok _ _ _ _ Hl E) as (i & e & Hi & En & ->). f_equal.
  rewrite Hh. replace (Z.to_nat n) with (S i) by lia. by rewrite (take_S_r _ _ _ Hi), last_hash_snoc.
Qed.

(** A pass that finds it takes it up again. *)
Lemma taken_up q w env : awaiting q w → small (w_chain w) → pe_read_request env = true →
  ∃ p, requestToSendAgain env w = (w, Ok (Some p)) ∧ pq_Request p = q ∧ 1 ≤ rq_Ordinal q.
Proof.
  intros [H1 H2 (p & Hp & <-) H4 H5 H6] Hs Hr. exists p. destruct (readPendingRequest_pos _ _ Hp) as (Ho & E1 & E2). split; [|done]. unfold small in Hs. pose proof H5 as [Hn Hh].
  unfold requestToSendAgain, get, mbind, AM_bind, file. rewrite Hr, Hp, E1, u64_small by (unfold two64; lia).
  assert (holdsAsSent env p (w_chain w) = true) as ->.
  { unfold holdsAsSent, Last. rewrite E1, E2, u64_small by (unfold two64; lia). destruct (Z.eqb_spec (rq_Ordinal (pq_Request p)) (Z.of_nat (length (w_chain w)))) as [E|E].
    - rewrite Hh, E, Nat2Z.id, firstn_all. apply beq_refl.
    - destruct (entryHashAt_attested (pe_stream env Resending) _ _ _ H6 H5 Ho) as [-> | ->]; [apply beq_refl|done]. }
  unfold Last. cbn [fst]. rewrite (proj2 (Z.leb_gt _ _)), (proj2 (Z.ltb_ge _ _)) by lia. done.
Qed.

Lemma nothing_pending cf env w : w_files w !! PendingReceiptFileName = None →
  SettlePending cf env w = (w, Ok ()) ∨ ∃ e, SettlePending cf env w = (w, Err (APendingRead e)).
Proof.
  intros H. unfold SettlePending. destruct (negb (cf_minter cf)); [by left|]. unfold get, lift, mbind, AM_bind, file. rewrite H.
  destruct (pe_read_receipt env); cbn; [by left|right; by eexists].
Qed.

(** ** What a pass sends *)

(** The acts since [l0]: nothing, or the request and then nothing sent. *)
Definition sent_once (l0 : list act) (q : WitnessRequest) (w : world) : Prop :=
  ∃ rest, w_log w = l0 ++ Sent q :: rest ∧ ∀ q', Sent q' ∉ rest.
Definition asks (l0 : list act) (q : WitnessRequest) (err : anchor_err) (w : world) : Prop :=
  w_log w = l0 ∧ err ≠ ANoAnswer ∨ sent_once l0 q w ∧ (err = ANoAnswer → awaiting q w).
Definition waits (l0 : list act) (q : WitnessRequest) (w : world) : Prop := awaiting q w ∧ w_log w = l0.

Definition hushed (l0 : list act) (q : WitnessRequest) {A} (m : AM A) : Prop :=
  triple (sent_once l0 q) m (λ _, sent_once l0 q) (λ e w, sent_once l0 q w ∧ e ≠ ANoAnswer).

Lemma hushed_log l0 q (f : world → world) : (∀ w, w_log (f w) = w_log w ∨ ∃ a, w_log (f w) = w_log w ++ [a] ∧ ∀ q', a ≠ Sent q') → ∀ w, sent_once l0 q w → sent_once l0 q (f w).
Proof.
  intros H w (rest & E & Hn). destruct (H w) as [E'|(a & E' & Ha)]; unfold sent_once; rewrite E', E; [by exists rest|]. exists (rest ++ [a]). rewrite <- app_assoc. split; [done|].
  intros q' [Hin|Hin%list_elem_of_singleton]%elem_of_app; [by apply (Hn q')|]. by destruct (Ha q').
Qed.

Lemma h_bind {A C} l0 q (m : AM A) (f : A → AM C) : hushed l0 q m → (∀ a, hushed l0 q (f a)) → hushed l0 q (m ≫= f).
Proof. apply t_bind. Qed.
Lemma h_get {A} l0 q (f : world → AM A) : (∀ w0, hushed l0 q (f w0)) → hushed l0 q (get ≫= f).
Proof. intros H w Hw. exact (H w w Hw). Qed.
Lemma h_ret {A} l0 q (a : A) : hushed l0 q (mret a).
Proof. by intros w Hw. Qed.
Lemma h_throw {A} l0 q e : e ≠ ANoAnswer → hushed l0 q (throw e : AM A).
Proof. by intros He w Hw. Qed.
Lemma h_modify l0 q (f : world → world) : (∀ w, w_log (f w) = w_log w ∨ ∃ a, w_log (f w) = w_log w ++ [a] ∧ ∀ q', a ≠ Sent q') → hushed l0 q (modify f).
Proof. intros H w Hw. by apply hushed_log. Qed.
Lemma h_mint l0 q env s r keyID : hushed l0 q (MintWitnessed env s r keyID).
Proof.
  intros w Hw. unfold MintWitnessed. destruct (w_frozen w); [done|].
  assert (∀ c b, sent_once l0 q (did (Minted r keyID (w_chain w)) (with_chain c b w))) as H.
  { intros c b. apply (hushed_log _ _ (λ w', did (Minted r keyID (w_chain w)) (with_chain c b w'))); [|done]. intros w'. right. by eexists. }
  destruct (pe_mint env s), (pe_head env (w_chain w) r keyID); done || apply H.
Qed.
Lemma h_writeReceipt l0 q o r at_ : hushed l0 q (writePendingReceipt o r at_).
Proof. by intros w Hw. Qed.
Lemma h_retireReceipt l0 q o : hushed l0 q (retirePendingReceipt o).
Proof. intros w Hw. by destruct o. Qed.
Lemma h_retireRequest l0 q o : hushed l0 q (retireRequest o).
Proof. apply h_modify. intros w. left. by destruct o. Qed.
Lemma h_record l0 q e : hushed l0 q (recordIntegrityConflict e).
Proof. apply h_modify. intros w. destruct (w_conflict w); [by left|right]. by eexists. Qed.
Lemma h_refuse l0 q e : hushed l0 q (refuseUnrecognised e).
Proof. apply h_modify. intros w. destruct (bool_decide _); [by left|right]. by eexists. Qed.

Ltac go_hushed :=
  repeat lazymatch goal with
  | |- hushed _ _ (get ≫= _) => apply h_get; intros ?
  | |- hushed _ _ (mbind _ _) => apply h_bind; [|intros ?]
  | |- hushed _ _ (mret _) => apply h_ret
  | |- hushed _ _ (throw _) => apply h_throw; done
  | |- hushed _ _ (retireRequest _) => apply h_retireRequest
  | |- hushed _ _ (recordIntegrityConflict _) => apply h_record
  | |- hushed _ _ (refuseUnrecognised _) => apply h_refuse
  | |- hushed _ _ (retirePendingReceipt _) => apply h_retireReceipt
  | |- hushed _ _ (writePendingReceipt _ _ _) => apply h_writeReceipt
  | |- hushed _ _ (MintWitnessed _ _ _ _) => apply h_mint
  | |- hushed _ _ (modify _) => apply h_modify; intros ?
  | |- hushed _ _ (let '(_, _) := ?x in _) => destruct x
  | |- hushed _ _ (if ?b then _ else _) => destruct b
  | |- hushed _ _ (match ?x with _ => _ end) => destruct x
  end.

(** After the answer nothing more is sent. *)
Lemma h_answered l0 q cf env (resend : option pendingRequest) heads last r first req key mv : hushed l0 q
  (_ ← land env AtEnd (cf_pause cf);
   match VerifyReceipt r req key with
   | Err err =>
     _ ← (match resend with Some _ => retireRequest (pe_remove env BadReceipt) | None => mret () end);
     throw (AReceipt err)
   | Ok _ =>
     _ ← hold_to_rule env heads last r first;
     _ ← (if cf_minter cf then mint_answer cf env r key mv else mret ());
     _ ← anchored env r;
     retireRequest (pe_remove env AtEnd)
   end).
Proof.
  unfold hold_to_rule, diverged, mint_answer, anchored, land. go_hushed; try (by left); try (by (case_match; left)). right. by eexists.
Qed.

Lemma bind_modify {A} f (k : unit → AM A) w : (modify f ≫= k) w = k () (f w).
Proof. done. Qed.

Lemma bind_get {A} (k : world → AM A) w : (get ≫= k) w = k w w.
Proof. done. Qed.
Lemma bind_value {A C} (m : AM A) (k : A → AM C) w w' a : m w = (w', Ok a) → (m ≫= k) w = k a w'.
Proof. intros H. unfold mbind, AM_bind. by rewrite H. Qed.
Lemma bind_error {A C} (m : AM A) (k : A → AM C) w w' e : m w = (w', Err e) → (m ≫= k) w = (w', Err e).
Proof. intros H. unfold mbind, AM_bind. by rewrite H. Qed.

Lemma t_ask l0 q env : triple (waits l0 q) (ask env q) (λ _, sent_once l0 q) (asks l0 q).
Proof.
  intros w [Ha Hl]. unfold ask. case_bool_decide; [by left|]. rewrite bind_modify. set (w1 := did (Sent q) w).
  assert (sent_once l0 q w1) as H1 by (exists []; cbn; rewrite Hl; split; [done|]; by intros ??%not_elem_of_nil).
  destruct (Bookmark _ _) as [r first|e|]; [done| |by right; split; [|intros _; eapply awaiting_agree; [..|exact Ha]]].
  match goal with |- context [?m w1] => assert (hushed l0 q m) as Hh by go_hushed end. specialize (Hh w1 H1). cbn beta.
  match goal with |- context [?m w1] => destruct (m w1) as [w2 [x|x]] end; [done|]. right. destruct Hh as [? Hx]. by split.
Qed.

Lemma asks_quiet l0 q e w : waits l0 q w → e ≠ ANoAnswer → asks l0 q e w.
Proof. intros [_ Hl] He. by left. Qed.
Lemma a_lift {X A C} l0 q (f : X → anchor_err) (r : result X A) (k : A → AM C) Q : (∀ x, f x ≠ ANoAnswer) →
  (∀ a, r = Ok a → triple (waits l0 q) (k a) Q (asks l0 q)) → triple (waits l0 q) (lift f r ≫= k) Q (asks l0 q).
Proof. intros Hf Hk. apply t_lift_bind; [done|]. intros x w _ Hw. by apply asks_quiet. Qed.

Lemma w_obtain_key l0 q cf env : triple (waits l0 q) (obtain_key cf env) (λ _, waits l0 q) (asks l0 q).
Proof.
  unfold obtain_key. apply a_lift; [done|]. intros key _. destruct (cf_key_source cf); [|by intros w Hw]. apply a_lift; [done|]. intros m _. apply a_lift; [done|]. intros c _.
  eapply (t_bind _ _ _ (λ _, waits l0 q)); [|by intros [] w Hw]. intros w [Ha Hl]. unfold keep_key. destruct (persistWitnessKey _ _ _ _ _ _ _) as [d res].
  assert (waits l0 q (if validKeyIDFilename (pke_KeyID key) && pe_mkdir env then with_keys (Some d) w else w)) as Hw.
  { destruct (_ && _); [|done]. split; [|done]. by eapply awaiting_agree; [..|exact Ha]. }
  destruct res; [done|]. by apply asks_quiet.
Qed.

Lemma w_land l0 q env s paused : env_ok env → keeps (waits l0 q) (land env s paused).
Proof.
  intros He. apply k_modify. intros w [Ha Hl]. destruct paused; [done|]. split; [|done]. apply awaiting_land; [|done]. intros H. by apply (eo_lands _ He).
Qed.

Lemma w_exchange l0 cf env p last : env_ok env →
  triple (waits l0 (pq_Request p)) (exchange cf env (Some p) last) (λ _, sent_once l0 (pq_Request p)) (asks l0 (pq_Request p)).
Proof.
  intros He. unfold exchange. eapply t_bind; [apply w_obtain_key|]. intros [key mv]. apply a_lift; [done|]. intros [canonical e] _. apply a_lift; [done|]. intros id _.
  destruct (match last with Some l => negb (beq (IdentityID (rc l)) []) && negb (beq (IdentityID (rc l)) id) | None => false end); [intros w Hw; by apply asks_quiet|].
  apply t_get_bind. intros w0 Hw0. apply (t_at _ _ _ _ _ Hw0). apply a_lift; [done|]. intros heads _. destruct (pe_ended env); [intros w Hw; by apply asks_quiet|].
  eapply (t_bind _ _ _ (λ _, waits l0 (pq_Request p))); [intros w Hw; exact (w_land _ _ env Asking false He w Hw)|intros []].
  eapply (t_bind _ _ _ (λ req w, req = pq_Request p ∧ waits l0 (pq_Request p) w)).
  { unfold choose_request. destruct (negb _); [|by intros w Hw]. intros w [Ha Hl]. left. cbn. by destruct (pe_remove env Asking). }
  intros req. apply t_pure. intros ->. eapply t_bind; [apply t_ask|]. intros [r first]. eapply t_conseq; [exact (h_answered l0 (pq_Request p) cf env (Some p) heads last r first (pq_Request p) key mv)|done|done|]. intros x w [H1 H2]. right. by split.
Qed.

(** A pass while a request waits: it sends that one or none, and an answer lost
    again leaves it waiting. *)
Lemma pass_awaiting cf env q w w' res : env_ok env → awaiting q w → small (w_chain w) → pe_read_request env = true → AnchorPass cf env w = (w', res) →
  (w_log w' = w_log w ∨ sent_once (w_log w) q w') ∧ (res = Err ANoAnswer → sent_once (w_log w) q w' ∧ awaiting q w').
Proof.
  intros He Ha Hs Hr. destruct (taken_up q w env Ha Hs Hr) as (p & Ht & <- & _). unfold AnchorPass. rewrite bind_get, (aw_open _ _ Ha).
  destruct (nothing_pending cf env w (aw_none _ _ Ha)) as [Hn|(e & Hn)]; [rewrite (bind_value _ _ _ _ _ Hn)|rewrite (bind_error _ _ _ _ _ Hn); intros [= <- <-]; by split; [left|]].
  rewrite (bind_value _ _ _ _ _ Ht), bind_get.
  assert (∃ w1 n, needed cf env w = (w1, Ok n) ∧ waits (w_log w) (pq_Request p) w1) as (w1 & n & Hnd & Hw1).
  { unfold needed. destruct (Status (pe_status env)) as [c|]; [destruct (_ <? _)|]; (eexists _, _; split; [done|]; split; [by eapply awaiting_agree; [..|exact Ha]|done]). }
  rewrite (bind_value _ _ _ _ _ Hnd).
  rewrite bool_decide_eq_false_2 by done. cbn [andb]. pose proof (w_exchange (w_log w) cf env p (w_lastReceipt w) He w1 Hw1) as H. intros E. rewrite E in H.
  destruct res as [u|e]; [split; [by right|done]|]. destruct H as [[H1 H2]|[H1 H2]]; [split; [by left|by intros [= ->]]|]. split; [by right|]. intros [= ->]. auto.
Qed.

(** ** The first time it is asked *)

Lemma to_int64_nonpos z : -9223372036854775808 ≤ z ≤ 0 → to_int64 (u64 z) ≤ 0.
Proof.
  intros Hz. unfold to_int64, u64, two64. rewrite Zmod_mod. destruct (Z.eq_dec z 0) as [->|]; [done|].
  rewrite <- (Z.mod_unique_pos z _ (-1) (z + 18446744073709551616)) by lia. destruct (_ <? _) eqn:E; b2p; lia.
Qed.


(** Nothing is pending. *)
Record rested (w : world) : Prop := {
  rs_open : w_conflict w = None;
  rs_receipt : w_files w !! PendingReceiptFileName = None;
  rs_request : w_files w !! PendingRequestFileName = None;
  rs_linked : linked 0 [] (w_chain w);
  rs_seq : 0 ≤ w_lastAnchoredSeq w < 9223372036854775808;
}.
(** The request's document reads back. *)
Definition writable (q : WitnessRequest) : Prop := wf_request q ∧ rq_IdentityID q ≠ [] ∧ rq_Hash q ≠ [].

(** Ready to pose a request. *)
Record ready (l0 : list act) (w : world) : Prop := {
  re_open : w_conflict w = None; re_receipt : w_files w !! PendingReceiptFileName = None; re_linked : linked 0 [] (w_chain w);
  re_behind : w_lastAnchoredSeq w < Z.of_nat (length (w_chain w)); re_log : w_log w = l0;
}.
Definition posed (l0 : list act) (q : WitnessRequest) (w : world) : Prop := w_log w = l0 ∧ (writable q → small (w_chain w) → awaiting q w).
Definition unheard (l0 : list act) (err : anchor_err) (w : world) : Prop :=
  err = ANoAnswer → ∃ q, w_log w = l0 ++ [Sent q] ∧ (writable q → small (w_chain w) → awaiting q w).

Lemma u_lift {X A C} l0 (f : X → anchor_err) (r : result X A) (k : A → AM C) Q I : (∀ x, f x ≠ ANoAnswer) →
  (∀ a, r = Ok a → triple I (k a) Q (unheard l0)) → triple I (lift f r ≫= k) Q (unheard l0).
Proof. intros Hf Hk. apply t_lift_bind; [done|]. intros x w _ _ Hx. by destruct (Hf x). Qed.

Lemma r_obtain_key l0 cf env : triple (ready l0) (obtain_key cf env) (λ _, ready l0) (unheard l0).
Proof.
  unfold obtain_key. apply u_lift; [done|]. intros key _. destruct (cf_key_source cf); [|by intros w Hw]. apply u_lift; [done|]. intros m _. apply u_lift; [done|]. intros c _.
  eapply (t_bind _ _ _ (λ _, ready l0)); [|by intros [] w Hw]. intros w Hw. unfold keep_key. destruct (persistWitnessKey _ _ _ _ _ _ _) as [d res].
  destruct res; [|by intros [=]]. destruct (_ && _); [|done]. by destruct Hw.
Qed.

Lemma r_land l0 env s : env_ok env → triple (ready l0) (land env s false) (λ _, ready l0) (unheard l0).
Proof.
  intros He w [H1 H2 H3 H4 H5]. cbn. destruct (eo_lands _ He s _ H3) as [Hl _]. split; cbn; try done. rewrite length_app. lia.
Qed.

Lemma r_choose l0 cf env id canonical e : pe_w_request env ≠ NotWritten → wf_text (pe_at env) →
  triple (ready l0) (choose_request cf env None id canonical e) (λ q, posed l0 q) (unheard l0).
Proof.
  intros Hw Hat. unfold choose_request, buildRequest. eapply (t_bind _ _ _ (λ q w, ready l0 w ∧ rq_Ordinal q = to_int64 (Z.of_nat (length (w_chain w))) ∧ rq_Hash q = last_hash [] (w_chain w))).
  { apply t_get_bind. intros w0 Hr. unfold Last. destruct (_ =? 0); [intros w ->; by intros [=]|]. apply u_lift; [done|]. intros sig _ w ->. by split. }
  intros q. eapply (t_bind _ _ _ (λ _, posed l0 q)); [|by intros [] w H]. intros w ([H1 H2 H3 H4 H5] & Ho & Hh). unfold writePendingRequest. case_bool_decide as Hone.
  { split; [done|]. intros [Hq _]. destruct (tidy_canonical _ (wf_qkey _ Hq)) as (v & [Hv _] & _). by rewrite (one_value_text _ _ _ Hv) in Hone. }
  cbn [modify]. split; [done|]. intros (Hq & Hid & Hha) Hs. unfold small in Hs. cbn in Hs. rewrite to_int64_small in Ho by lia.
  assert (write_file (pe_w_request env) PendingRequestFileName (pending_request_document q (pe_at env)) (w_files w) =
          <[PendingRequestFileName := pending_request_document q (pe_at env)]> (w_files w)) as Ef by (by destruct (pe_w_request env)).
  split; cbn [with_files w_conflict w_files w_lastAnchoredSeq w_chain]; [done|..].
  - rewrite Ef, lookup_insert_ne by (vm_compute; discriminate). done.
  - eexists. rewrite Ef, lookup_insert_eq. split; [apply pending_request_reads; try done|done]. destruct (w_chain w); [cbn in *; done|]. cbn [length] in *. lia.
  - lia.
  - rewrite Ho, Hh. apply attests_last.
  - done.
Qed.

Lemma u_after {A} l0 (m : AM A) I Q : (∀ q, triple (sent_once l0 q) m Q (λ e w, sent_once l0 q w ∧ e ≠ ANoAnswer)) → (∀ w, I w → ∃ q, sent_once l0 q w) →
  triple I m (λ _ _, True) (unheard l0).
Proof.
  intros H HI w Hw. destruct (HI w Hw) as (q & Hq). specialize (H q w Hq). destruct (m w) as [w' [a|e]]; [done|]. destruct H as [_ Hne]. by intros ->.
Qed.

(** A request posed and not answered is the last thing done. *)
Lemma r_ask l0 q env : triple (posed l0 q) (ask env q) (λ _, sent_once l0 q) (unheard l0).
Proof.
  intros w [Hl Ha]. unfold ask. case_bool_decide; [by intros [=]|]. rewrite bind_modify. set (w1 := did (Sent q) w).
  assert (w_log w1 = l0 ++ [Sent q]) as El by (cbn; by rewrite Hl).
  assert (sent_once l0 q w1) as H1 by (exists []; split; [done|]; by intros ??%not_elem_of_nil).
  destruct (Bookmark _ _) as [r first|e|]; [done| |].
  - match goal with |- context [?m w1] => assert (hushed l0 q m) as Hh by go_hushed end. specialize (Hh w1 H1). cbn beta.
    match goal with |- context [?m w1] => destruct (m w1) as [w2 [x|x]] end; [done|]. destruct Hh as [_ Hx]. by intros ->.
  - intros _. exists q. split; [done|]. intros Hw Hs. eapply awaiting_agree; [..|by apply Ha]; done.
Qed.

Lemma r_exchange l0 cf env last : env_ok env → pe_w_request env ≠ NotWritten → wf_text (pe_at env) →
  triple (ready l0) (exchange cf env None last) (λ _ _, True) (unheard l0).
Proof.
  intros He Hw Hat. unfold exchange. eapply t_bind; [apply r_obtain_key|]. intros [key mv]. apply u_lift; [done|]. intros [canonical e] _. apply u_lift; [done|]. intros id _.
  destruct (match last with Some l => negb (beq (IdentityID (rc l)) []) && negb (beq (IdentityID (rc l)) id) | None => false end); [by intros w _ [=]|].
  apply t_get_bind. intros w0 Hw0. apply (t_at _ _ _ _ _ Hw0). apply u_lift; [done|]. intros heads _. destruct (pe_ended env); [by intros w _ [=]|].
  eapply t_bind; [by apply r_land|]. intros []. eapply t_bind; [by apply r_choose|]. intros q. eapply t_bind; [apply r_ask|]. intros [r first].
  eapply (u_after _ _ _ (λ _ _, True)); [intros q'; eapply t_conseq; [exact (h_answered l0 q' cf env None heads last r first q key mv)|done|done|done]|by intros w Hq; exists q].
Qed.

Lemma needed_at cf env w : ∃ w1 n, needed cf env w = (w1, Ok n) ∧ cf_interval cf ≤ n ∧ w_conflict w1 = w_conflict w ∧ w_files w1 = w_files w ∧ w_chain w1 = w_chain w ∧
  w_lastAnchoredSeq w1 = w_lastAnchoredSeq w ∧ w_log w1 = w_log w.
Proof.
  unfold needed. destruct (Status (pe_status env)) as [c|]; [destruct (Z.ltb_spec (cf_interval cf) c)|]; (eexists _, _; split; [done|]); repeat split; lia.
Qed.

Lemma pass_unheard cf env w w' : env_ok env → rested w → 1 ≤ cf_interval cf → pe_w_request env ≠ NotWritten → wf_text (pe_at env) →
  small (w_chain w') → AnchorPass cf env w = (w', Err ANoAnswer) → ∃ q, w_log w' = w_log w ++ [Sent q] ∧ (writable q → awaiting q w').
Proof.
  intros He [R1 R2 R3 R4 R5] Hi Hw Hat Hs' Hp. assert (small (w_chain w)) as Hs.
  { pose proof (proj1 (keeps_world _ _) (grown_pass (w_chain w) cf env He) w ltac:(by exists []; rewrite app_nil_r)) as Hg. rewrite Hp in Hg. by eapply small_grown. }
  enough (unheard (w_log w) ANoAnswer w') as Hu by (destruct (Hu eq_refl) as (q & E & Ha); exists q; auto).
  revert Hp. unfold AnchorPass. rewrite bind_get, R1. destruct (nothing_pending cf env w R2) as [Hn|(e & Hn)]; [rewrite (bind_value _ _ _ _ _ Hn)|by rewrite (bind_error _ _ _ _ _ Hn)].
  assert (requestToSendAgain env w = (w, Ok None)) as Hrq.
  { unfold requestToSendAgain. rewrite bind_get. unfold file. rewrite R3. destruct (pe_read_request env); [done|]. cbn -[PendingRequestFileName]. rewrite bind_modify. destruct (pe_aside env); [|done]. by rewrite R3. }
  rewrite (bind_value _ _ _ _ _ Hrq), bind_get. destruct (needed_at cf env w) as (w1 & n & Hnd & Hn1 & E1 & E2 & E3 & E4 & E5). rewrite (bind_value _ _ _ _ _ Hnd).
  rewrite bool_decide_eq_true_2 by done. cbn [andb Last fst]. destruct (_ || _) eqn:Ec; [done|]. b2p. unfold small in Hs.
  assert (ready (w_log w) w1) as Hr.
  { split; rewrite ?E1, ?E2, ?E3, ?E4, ?E5; try done. destruct (Z.lt_ge_cases (w_lastAnchoredSeq w) (Z.of_nat (length (w_chain w)))) as [|Hge]; [done|]. exfalso.
    enough (to_int64 (u64 (Z.of_nat (length (w_chain w)) - w_lastAnchoredSeq w)) ≤ 0) by lia. apply to_int64_nonpos. lia. }
  pose proof (r_exchange (w_log w) cf env (w_lastReceipt w) He Hw Hat w1 Hr) as Hx. intros Hp. by rewrite Hp in Hx.
Qed.

(** Passes that get no answer, and records that land. *)
Inductive unanswered : world → world → Prop :=
| un_pass cf env w w' : env_ok env → pe_read_request env = true → small (w_chain w) → AnchorPass cf env w = (w', Err ANoAnswer) → unanswered w w'
| un_land w l : lands_ok w l → unanswered w (with_chain (w_chain w ++ l) (w_frozen w) w).

Lemma unanswered_awaiting q w w' : rtc unanswered w w' → awaiting q w → awaiting q w'.
Proof.
  induction 1 as [|w w1 w2 H _ IH]; [done|]. intros Ha. apply IH. destruct H as [cf env w w1 He Hr Hs Hp|w l Hl].
  - by apply (pass_awaiting cf env q w w1 _ He Ha Hs Hr Hp).
  - by apply awaiting_land.
Qed.

End Ask.
