(* ===== verification/AnchorSamples.v ===== *)
(** * An exchange with a witness, evaluated

    A witness's key under a platform's signature, a record of one entry and the
    passes over it: the theorems on anchoring at concrete states. *)

From stdpp Require Import gmap relations sorting.
From S2P Require Import Prelude Utf8 GoJson CanonicalJson CanonicalJsonFacts GoStruct Crypto Event Lines Chain Time Container SigEnvelope Witness WitnessKeys WitnessWire Anchor AnchorFacts AnchorInv AnchorRuns AnchorAsk.

Definition ok_or_nil {E} (r : result E bytes) : bytes := match r with Ok c => c | Err _ => [] end.

(** ** Keys *)

Definition witness_id : bytes := bs "aiii_witness_1".
Definition key_of (keyID alg pub : bytes) : PublicKeyMaterial := mkKeyMaterial alg (b64_encode pub) (EnvelopeKeyFingerprint alg keyID (b64_encode pub)).
Definition witness_key : PublicKeyEnvelope :=
  mkKeyEnvelope 1 (bs "aiii.server_key.public") witness_id [] ProfileRoot [] [] [] [key_of witness_id SigAlg [9; 3]; key_of witness_id SLHAlg [9; 4]].
Definition witness_canonical : bytes := ok_or_nil (canonicalEnvelopeBytes witness_key).

Definition manifest_payload : bytes := ok_or_nil (CanonicalizeV1 (field_object
  [(bs "kind", json_string true witness_manifest_kind); (bs "schema_version", FormatInt 1); (bs "artifact_version", json_string true (bs "1"));
   (bs "artifact_hash", json_string true (SHA256Prefixed witness_canonical)); (bs "key_id", json_string true witness_id);
   (bs "signature_profile", json_string true ProfileRoot); (bs "expires_at", json_string true (bs "2030-01-01T00:00:00Z")); (bs "critical", bs "true")])).
Definition manifest_sig (alg pub : bytes) (mark : Z) : SignatureEntry :=
  let fp := EnvelopeKeyFingerprint alg (bs "root-1") (b64_encode pub) in
  let input := SignatureInput witness_manifest_kind ProfileRoot alg (bs "root-1") fp (SHA256Prefixed manifest_payload) in
  mkSigEntry alg (bs "root-1") fp (SHA256Prefixed input) (b64_encode (mark :: toy_hash input)).
Definition manifest_text : bytes :=
  field_object [(bs "artifact_kind", json_string true witness_manifest_kind); (bs "payload", manifest_payload);
    (bs "payload_sha256", json_string true (SHA256Prefixed manifest_payload));
    (bs "canonicalization", json_string true CanonicalizationV1); (bs "signature_profile", json_string true ProfileRoot);
    (bs "signatures", 91 :: comma_join (map sample_sig_text [manifest_sig SigAlg [9; 1] 7; manifest_sig SLHAlg [9; 2] 8]) ++ [93])].

Definition key_dir : gmap bytes bytes := {[ key_file_name witness_id := key_document manifest_text witness_canonical ]}.
Definition now0 : Z := match time_Parse (bs "2026-01-02T03:04:05Z") with Some t => t | None => 0 end.


(** ** The identity, and a receipt for the first record *)

Definition id_envelope : PublicKeyEnvelope :=
  mkKeyEnvelope 1 (bs "aiii.identity_key.public") (bs "id-1") [] ProfileFast [] [] [] [key_of (bs "id-1") SigAlg [9; 1]].
Definition id_canonical : bytes := ok_or_nil (canonicalEnvelopeBytes id_envelope).
Definition id_name : bytes := match DeriveIdentityID id_canonical id_envelope with Some i => i | None => [] end.

Definition first_receipt : Receipt :=
  let body := mkReceipt id_name (-1) ZeroLedgerHash 1 (EntryHash sample_first) (bs "2026-01-02T03:04:05Z") in
  let input := ReceiptSignatureInput body in
  mkSignedReceipt body (mkWitnessSig ProfileFast SigAlg witness_id (EnvelopeKeyFingerprint SigAlg witness_id (b64_encode [9; 3]))
    (SHA256Prefixed input) (b64_encode (7 :: toy_hash input))).

(** ** The ledger and the disk *)

Definition headed (chain : list Event) (r : Receipt) (keyID : bytes) : Event :=
  sample_next (Z.of_nat (length chain) + 1) (last_hash [] chain) EventSystemWitnessed (field_object [(bs "receipt", field_object
    [(bs "identity_id", json_string true (IdentityID (rc r))); (bs "previous_witnessed_ledger_ordinal", FormatInt (PreviousWitnessedLedgerOrdinal (rc r)));
     (bs "previous_witnessed_ledger_hash", json_string true (PreviousWitnessedLedgerHash (rc r))); (bs "ledger_ordinal", FormatInt (LedgerOrdinal (rc r)));
     (bs "ledger_hash", json_string true (LedgerHash (rc r))); (bs "witnessed_at", json_string true (WitnessedAt (rc r)));
     (bs "witness_key_id", json_string true keyID); (bs "witness_sig_b64", json_string true (ws_SigB64 (rc_sig r)))])]).
#[local] Instance WitnessReceipt_eq_dec : EqDecision WitnessReceipt.
Proof. solve_decision. Defined.
#[local] Instance headReceipt_eq_dec : EqDecision headReceipt.
Proof. solve_decision. Defined.
(** The ledger refuses a payload that would not read back. *)
Definition append_head (chain : list Event) (r : Receipt) (keyID : bytes) : option Event :=
  let e := headed chain r keyID in if bool_decide (head_receipt e = Some (head_receipt_of r keyID)) then Some e else None.

Definition served_hash : bytes :=
  field_object [(bs "witness_public_key_hash", json_string true (SHA256Prefixed witness_canonical)); (bs "key_id", json_string true witness_id)].
Definition anchor_env (a : option (Z * bytes)) (m : mint_outcome) : pass_env :=
  mkPassEnv now0 (bs "2026-01-02T03:04:06Z") true true true (λ _, Removed) Written Written Written (λ _, true) true true Written
    (λ _, inr (Some (mustMarshalEnv sample_authority))) (λ _, true) None (Some served_hash) (Some witness_canonical) (Some manifest_text) (Some (id_canonical, id_envelope)) false a (λ _, true)
    (λ _ _, []) (λ _, m) append_head.
Definition anchor_config : config := mkConfig true true true 1 true toy_pair.
Definition start : world := mkWorld [sample_first] false None ∅ 0 None None [] false [].

Lemma anchor_env_ok a m : env_ok (anchor_env a m).
Proof.
  split.
  - intros chain r keyID e. cbn [anchor_env pe_head]. unfold append_head. case_bool_decide as H; [|done]. intros [= <-]. repeat split; try done.
  - intros s chain H. cbn. by rewrite app_nil_r.
Qed.

Definition answered (m : mint_outcome) : world * result anchor_err unit := AnchorPass anchor_config (anchor_env (Some (201, receipt_document first_receipt)) m) start.

Lemma start_started : started start.
Proof. split; [by repeat split|by constructor|by constructor|reflexivity|reflexivity]. Qed.

(** A pass as a step of a run. *)
Lemma pass_run a m w : rtc astep w (AnchorPass anchor_config (anchor_env a m) w).1.
Proof. apply rtc_once, a_pass; [reflexivity|apply anchor_env_ok]. Qed.

Lemma answered_logs : w_log (answered Mints).1 !! 1%nat = Some (Minted first_receipt witness_id [sample_first]) ∧ small (w_chain (answered Mints).1).
Proof. split; vm_compute; reflexivity. Qed.


(** The mint fails; the next pass mints what was kept, and asks. *)
Definition unminted : world := (answered MintFails).1.
Definition settled : world := (AnchorPass anchor_config (anchor_env None Mints) unminted).1.

Lemma wf_text_sample s : Valid s && negb (existsb (Z.eqb 0) s) = true → wf_text s.
Proof. intros [H1 H2%negb_true_iff]%andb_true_iff. by split. Qed.

Lemma first_readable : readable first_receipt (bs "2026-01-02T03:04:06Z").
Proof.
  split; [split; [..|split]| | | | |]; try (apply wf_text_sample; vm_compute; reflexivity); vm_compute; try reflexivity; try congruence. by eexists.
Qed.
Lemma unminted_filed : filed first_receipt (bs "2026-01-02T03:04:06Z") unminted ∧ small (w_chain settled).
Proof. split; vm_compute; reflexivity. Qed.

Lemma kept_receipt_minted_once_witness : filed first_receipt (bs "2026-01-02T03:04:06Z") settled ∨ recorded (w_chain settled) (rc first_receipt).
Proof.
  exact (proj1 (kept_receipt_minted_once start unminted settled first_receipt _ start_started (pass_run _ _ start) (proj1 unminted_filed) first_readable
    (pass_run _ _ unminted) (proj2 unminted_filed))).
Defined.

(** The witness answers with a conflict. *)
Definition fork : ConflictError := mkConflict conflictMsgRollbackFork false false true.
Definition fork_reply : Z * bytes := (409, field_object [(bs "error", json_string true conflictMsgRollbackFork)]).
Definition forked : world := (AnchorPass anchor_config (anchor_env (Some fork_reply) Mints) start).1.

Lemma forked_pass : AnchorPass anchor_config (anchor_env (Some fork_reply) Mints) start = (forked, Err (AConflict fork)).
Proof.
  unfold forked. assert ((AnchorPass anchor_config (anchor_env (Some fork_reply) Mints) start).2 = Err (AConflict fork)) as E by (vm_compute; reflexivity).
  destruct (AnchorPass _ _ start) as [w res]. cbn [fst snd] in *. by rewrite E.
Qed.
Lemma conflict_silences_witness : AnchorPass anchor_config (anchor_env (Some (201, receipt_document first_receipt)) Mints) (with_chain [sample_first] (w_frozen forked) forked) =
  (with_chain [sample_first] (w_frozen forked) forked, Err (ALatched fork)).
Proof.
  exact (proj2 (proj2 (conflict_silences anchor_config (anchor_env (Some fork_reply) Mints) start forked fork forked_pass)) [sample_first] anchor_config _).
Defined.

(** The witness does not answer. *)
Definition unheard_once : world := (AnchorPass anchor_config (anchor_env None Mints) start).1.
Definition unheard_twice : world := (AnchorPass anchor_config (anchor_env None Mints) unheard_once).1.
Definition asked : WitnessRequest := match w_log unheard_once with [Sent q] => q | _ => zero_request end.

Lemma unheard_pass : AnchorPass anchor_config (anchor_env None Mints) start = (unheard_once, Err ANoAnswer).
Proof.
  unfold unheard_once. assert ((AnchorPass anchor_config (anchor_env None Mints) start).2 = Err ANoAnswer) as E by (vm_compute; reflexivity).
  destruct (AnchorPass _ _ start) as [w res]. cbn [fst snd] in *. by rewrite E.
Qed.
Lemma asked_wf : wf_request asked.
Proof.
  split.
  - apply wf_text_sample. vm_compute. reflexivity.
  - apply wf_text_sample. vm_compute. reflexivity.
  - vm_compute. reflexivity.
  - split; apply wf_text_sample; vm_compute; reflexivity.
  - vm_compute. reflexivity.
  - vm_compute. reflexivity.
  - vm_compute. discriminate.
Qed.
Lemma asked_writable : writable asked.
Proof. split; [exact asked_wf|]. split; vm_compute; discriminate. Qed.
Lemma start_rested : rested start.
Proof. split; done || (by repeat split). Qed.


(** The keys beside the ledger. *)
Definition loaded_sample : gmap bytes WitnessKeyMaterial :=
  match LoadWitnessKeys now0 (λ _, true) (Some key_dir) (Some sample_authority) with Ok k => k | Err _ => ∅ end.
Lemma loaded_sample_ok : LoadWitnessKeys now0 (λ _, true) (Some key_dir) (Some sample_authority) = Ok loaded_sample ∧ is_Some (loaded_sample !! witness_id).
Proof.
  split; [|vm_compute; by eexists]. unfold loaded_sample.
  assert ((match LoadWitnessKeys now0 (λ _, true) (Some key_dir) (Some sample_authority) with Ok _ => true | Err _ => false end) = true) as E by (vm_compute; reflexivity).
  by destruct (LoadWitnessKeys _ _ _ _).
Qed.
Lemma loaded_keys_vouched_witness : ∃ km, loaded_sample !! witness_id = Some km ∧ key_stands sample_authority witness_id km.
Proof.
  destruct (proj2 loaded_sample_ok) as [km H]. exists km. split; [exact H|].
  exact (proj2 (loaded_keys_vouched now0 (λ _, true) key_dir sample_authority loaded_sample (proj1 loaded_sample_ok) witness_id km H)).
Defined.
