(* ===== verification/IdentityEnvelope.v ===== *)
(** * internal/witness/identity.go: the envelope an identity is named by

    The envelope a key makes for itself at a second, the template the search
    fills instead of building it anew, the search for the second at which the
    envelope the record names was made, by several goroutines at once, and
    [EnsureIdentityEnvelope] over the row of the store that holds it. *)

From stdpp Require Import gmap relations.
From S2P Require Import Prelude Utf8 GoJson CanonicalJson CanonicalJsonFacts GoStruct Crypto Event Lines Chain Time Container SigEnvelope Witness GoStrings Composer WitnessKeys WitnessWire.

(** ** Times *)

Definition ns_per_second : Z := 1000000000.
Definition envelopeExpiry : Z := 100 * 365 * 24 * 3600 * ns_per_second.
Definition one_minute : Z := 60 * ns_per_second.
Definition enrollmentSlack : Z := 24 * 3600 * ns_per_second.
Definition maxRecoverySeconds : Z := 400 * 24 * 60 * 60.

(** [Format(time.RFC3339)] in UTC. *)
Definition format_RFC3339 (t : Z) : bytes :=
  let s := t mod ns_per_day / ns_per_second in
  format_date t ++ [84] ++ pad_int 2 (s / 3600) ++ [58] ++ pad_int 2 (s / 60 mod 60) ++ [58] ++ pad_int 2 (s mod 60) ++ [90].

(** [Truncate(time.Second)], and [Sub], which saturates at the ends of int64. *)
Definition truncate_second (t : Z) : Z := t - t mod ns_per_second.
Definition time_Sub (t u : Z) : Z := Z.max (-9223372036854775808) (Z.min 9223372036854775807 (t - u)).

(** ** The builder *)

Definition PublicKeyEnvelopeKind : bytes := bs "aiii.server_key.public".

Section Builder.
Context `{P : Primitives}.

Definition identity_key_id (key : KeyPair) : bytes := bs "aiii_identity_" ++ take 16 (Fingerprint key).

Definition identity_envelope (key : KeyPair) (created : Z) : PublicKeyEnvelope :=
  let keyID := identity_key_id key in
  mkKeyEnvelope 1 PublicKeyEnvelopeKind keyID (bs "identity") ProfileRoot
    (format_RFC3339 created) (format_RFC3339 (created - one_minute)) (format_RFC3339 (created + envelopeExpiry))
    [mkKeyMaterial SigAlg (PublicKeyB64 key) (EnvelopeKeyFingerprint SigAlg keyID (PublicKeyB64 key))].

Definition buildIdentityEnvelope (key : KeyPair) (created : Z) : result canon_err (bytes * PublicKeyEnvelope) :=
  let env := identity_envelope key created in
  canonical ← canonicalEnvelopeBytes env; mret (canonical, env).

(** ** The template *)

Record envelopeCandidates := mkCandidates { ec_p0 : bytes; ec_p1 : bytes; ec_p2 : bytes; ec_p3 : bytes; ec_fingerprint : bytes }.

(** [bytes.Count] for a separator that is not empty. *)
Definition Count (s sep : bytes) : nat := length (Split s sep) - 1.

(** One turn of the loop: what comes before the value in [rest], and what is
    left after it. *)
Definition cut_field (canonical rest field value : bytes) : option (bytes * bytes) :=
  let needle := [34] ++ field ++ [34; 58; 34] ++ value ++ [34] in
  at_ ← Index rest needle;
  if negb (Count canonical needle =? 1)%nat then None
  else
    let at_ := (at_ + (length field + 4))%nat in
    Some (take at_ rest, drop (at_ + length value) rest).

Definition candidate_canonical (c : envelopeCandidates) (created : Z) : bytes :=
  ec_p0 c ++ format_RFC3339 created ++ ec_p1 c ++ format_RFC3339 (created + envelopeExpiry) ++ ec_p2 c ++ format_RFC3339 (created - one_minute) ++ ec_p3 c.

(** [time.Date(2001, 2, 3, 4, 5, 6, 0, time.UTC)]. *)
Definition ref_time : Z := instant 2001 2 3 4 5 6 0 0.

Definition newEnvelopeCandidates (key : KeyPair) : option envelopeCandidates :=
  match buildIdentityEnvelope key ref_time with
  | Err _ => None
  | Ok (canonical, env) =>
    ml ← FindPublicKey env SigAlg;
    '(p0, rest) ← cut_field canonical canonical (bs "created_at") (format_RFC3339 ref_time);
    '(p1, rest) ← cut_field canonical rest (bs "expires_at") (format_RFC3339 (ref_time + envelopeExpiry));
    '(p2, rest) ← cut_field canonical rest (bs "not_before") (format_RFC3339 (ref_time - one_minute));
    let c := mkCandidates p0 p1 p2 rest (pkm_PublicKeyFingerprint ml) in
    if forallb (λ probe, match buildIdentityEnvelope key probe with Ok (want, _) => beq (candidate_canonical c probe) want | Err _ => false end)
         [ref_time + ns_per_second; ref_time + (97 * 24 * 3600 + 13) * ns_per_second]
    then Some c else None
  end.

(** ** The window *)

Record window := mkWindow { wi_pivot : Z; wi_below : Z; wi_above : Z }.
Definition wi_span (w : window) : Z := wi_below w + wi_above w.

Inductive build_err := BCanon (e : canon_err) | BNoKey.
Inductive recover_err := RBeforeBirth | RTooLong | RFailed (e : build_err) | RNotRebuilt | RNotFound.

Definition enrollment_window (born firstWitnessed : Z) : result recover_err window :=
  let from := truncate_second (born - enrollmentSlack) in
  let pivot := truncate_second firstWitnessed in
  let to := truncate_second (firstWitnessed + enrollmentSlack) in
  let below := time_Sub pivot from ÷ ns_per_second + 1 in
  let above := time_Sub to pivot ÷ ns_per_second in
  if below <=? 0 then Err RBeforeBirth
  else if maxRecoverySeconds <? below + above then Err RTooLong
  else Ok (mkWindow pivot below above).

(** From the pivot down, then above it. *)
Definition second (w : window) (i : Z) : Z :=
  if i <? wi_below w then wi_pivot w - i * ns_per_second else wi_pivot w + (i - wi_below w + 1) * ns_per_second.

Definition matches (key : KeyPair) (did : bytes) (c : option envelopeCandidates) (at_ : Z) : result build_err bool :=
  match c with
  | Some c => Ok (beq (identityIDFor (ec_fingerprint c) (candidate_canonical c at_)) did)
  | None =>
    '(canonical, env) ← map_err BCanon (buildIdentityEnvelope key at_);
    id ← of_option BNoKey (DeriveIdentityID canonical env);
    mret (beq id did)
  end.
End Builder.

(** ** The goroutines

    One step is one access to what they share: the load of [found] in the loop's
    condition, the swap, the recording of the first error. *)

Inductive worker := Loads (i : Z) | Tries (i : Z) | Fails | Finished.
Record search := mkSearch { sc_found : Z; sc_failed : option build_err; sc_workers : list worker }.

Section Search.
Variable try_at : Z → result build_err bool.   (** [matches] at the second of an index *)
Variable span workers : Z.

Definition CompareAndSwap (s : search) (new : Z) : Z := if sc_found s =? 0 then new else sc_found s.

Definition worker_step (s : search) (x : worker) : option (Z * option build_err * worker) :=
  match x with
  | Loads i => Some (sc_found s, sc_failed s, if (i <? span) && (sc_found s =? 0) then Tries i else Finished)
  | Tries i =>
    match try_at i with
    | Ok true => Some (CompareAndSwap s (i + 1), sc_failed s, Finished)
    | Ok false => Some (sc_found s, sc_failed s, Loads (i + workers))
    | Err e => Some (sc_found s, match sc_failed s with None => Some e | f => f end, Fails)
    end
  | Fails => Some (CompareAndSwap s (-1), sc_failed s, Finished)
  | Finished => None
  end.

(** The worker [w] takes a step. *)
Definition search_step (w : nat) (s : search) : option search :=
  x ← sc_workers s !! w;
  '(found, failed, x') ← worker_step s x;
  Some (mkSearch found failed (<[w := x']> (sc_workers s))).

Definition sstep (s s' : search) : Prop := ∃ w, search_step w s = Some s'.

Definition search_start : search := mkSearch 0 None (Loads <$> (Z.of_nat <$> seq 0 (Z.to_nat workers))).
End Search.

Section Recover.
Context `{P : Primitives}.

(** What is made of [found] when all have finished. *)
Definition conclude (key : KeyPair) (did : bytes) (w : window) (s : search) : result recover_err (bytes * PublicKeyEnvelope) :=
  let n := sc_found s in
  if 0 <? n then
    match buildIdentityEnvelope key (second w (n - 1)) with
    | Err e => Err (RFailed (BCanon e))
    | Ok (canonical, env) =>
      match DeriveIdentityID canonical env with
      | Some id => if beq id did then Ok (canonical, env) else Err RNotRebuilt
      | None => Err RNotRebuilt
      end
    end
  else if n <? 0 then match sc_failed s with Some e => Err (RFailed e) | None => Err RNotRebuilt end
  else Err RNotFound.

(** ** parseIdentityEnvelope *)

Definition decode_material_strict (prior : PublicKeyMaterial) (raw : bytes) : option PublicKeyMaterial :=
  ms ← struct_members true true [bs "alg"; bs "public_key_b64"; bs "public_key_fingerprint"] raw;
  alg ← field conv_string (pkm_Alg prior) (bs "alg") ms;
  key ← field conv_string (pkm_PublicKeyB64 prior) (bs "public_key_b64") ms;
  fp ← field conv_string (pkm_PublicKeyFingerprint prior) (bs "public_key_fingerprint") ms;
  Some (mkKeyMaterial alg key fp).

Definition decode_envelope_strict (raw : bytes) : option PublicKeyEnvelope :=
  ms ← struct_members false true [bs "v"; bs "kind"; bs "key_id"; bs "key_type"; bs "profile"; bs "created_at"; bs "not_before"; bs "expires_at"; bs "keys"] raw;
  v ← field conv_int 0 (bs "v") ms;
  kind ← field conv_string [] (bs "kind") ms;
  key ← field conv_string [] (bs "key_id") ms;
  ty ← field conv_string [] (bs "key_type") ms;
  profile ← field conv_string [] (bs "profile") ms;
  created ← field conv_string [] (bs "created_at") ms;
  nb ← field conv_string [] (bs "not_before") ms;
  ex ← field conv_string [] (bs "expires_at") ms;
  keys ← slice_field decode_material_strict (mkKeyMaterial [] [] []) (bs "keys") ms;
  if second_value raw then None else Some (mkKeyEnvelope v kind key ty profile created nb ex keys).

Definition parseIdentityEnvelope (canonical : bytes) : option (bytes * PublicKeyEnvelope) :=
  env ← decode_envelope_strict canonical;
  if negb (beq (pke_KeyType env) (bs "identity")) || negb (beq (pke_Kind env) PublicKeyEnvelopeKind) then None
  else _ ← FindPublicKey env SigAlg; Some (canonical, env).

(** ** EnsureIdentityEnvelope

    The row [witness_identity] is the state.  What the store answers, whether a
    statement succeeds, the clock and the outcome of the search are arguments. *)

Record ensure_env := mkEnsureEnv {
  en_enrollment : option (list bytes * Z * Z);   (** the identities the record names, its birth and first witness *)
  en_pending : result unit (option bytes);       (** the file of the receipt kept beside the ledger *)
  en_load : bool; en_reload : bool; en_save : bool;
  en_now : Z;
  en_recover : bytes → Z → Z → result recover_err (bytes * PublicKeyEnvelope);
}.

Inductive ensure_err := EEnrollment | EForked | EPending (e : pending_err) | ELoad | EStored | EIdentity | EBuild (e : canon_err) | ESave | EGone | EUnrecoverable | ERecover (e : recover_err).

(** [INSERT … ON CONFLICT DO NOTHING]. *)
Definition SaveWitnessEnvelope (ok : bool) (canonical : bytes) (row : option bytes) : option bytes * bool :=
  (if ok then Some (default canonical row) else row, ok).
Definition ReplaceWitnessEnvelope (ok : bool) (canonical : bytes) (row : option bytes) : option bytes * bool :=
  match row with
  | Some _ => (if ok then Some canonical else row, ok)
  | None => (None, false)
  end.

(** The identity the record or the kept receipt names, and since when. *)
Definition named (ids : list bytes) (first : Z) (pending : option pendingReceipt) : result ensure_err (option bytes * Z) :=
  match pending, ids with
  | None, _ => Ok (head ids, first)
  | Some p, [] => Ok (Some (pr_IdentityID p), pr_writtenAt p)
  | Some p, id :: _ => if beq id (pr_IdentityID p) then Ok (Some id, first) else Err EForked
  end.

(** What the stored envelope settles: the answer, or nothing. *)
Definition stored_answer (id : option bytes) (existing : option bytes) : result ensure_err (option (bytes * PublicKeyEnvelope)) :=
  match existing with
  | None => Ok None
  | Some raw =>
    match parseIdentityEnvelope raw, id with
    | None, None => Err EStored
    | None, Some _ => Ok None
    | Some found, None => Ok (Some found)
    | Some (canonical, env), Some id =>
      did ← of_option EIdentity (DeriveIdentityID canonical env);
      mret (if beq did id then Some (canonical, env) else None)
    end
  end.

Definition EnsureIdentityEnvelope (key : KeyPair) (en : ensure_env) (row : option bytes) : option bytes * result ensure_err (bytes * PublicKeyEnvelope) :=
  match en_enrollment en with
  | None => (row, Err EEnrollment)
  | Some (ids, born, first) =>
    if (1 <? length ids)%nat then (row, Err EForked)
    else match readPendingReceipt (en_pending en) with
    | Err e => (row, Err (EPending e))
    | Ok pending =>
      match named ids first pending with
      | Err e => (row, Err e)
      | Ok (id, first) =>
        if negb (en_load en) then (row, Err ELoad)
        else match stored_answer id row with
        | Err e => (row, Err e)
        | Ok (Some found) => (row, Ok found)
        | Ok None =>
          match id with
          | None =>
            match buildIdentityEnvelope key (en_now en) with
            | Err e => (row, Err (EBuild e))
            | Ok (canonical, _) =>
              let '(row', ok) := SaveWitnessEnvelope (en_save en) canonical row in
              if negb ok then (row', Err ESave)
              else if negb (en_reload en) then (row', Err ELoad)
              else match row' with
                   | None => (row', Err EGone)
                   | Some stored => (row', of_option EStored (parseIdentityEnvelope stored))
                   end
            end
          | Some id =>
            if IsZero born || IsZero first then (row, Err EUnrecoverable)
            else match en_recover en id born first with
            | Err e => (row, Err (ERecover e))
            | Ok (canonical, env) =>
              let '(row', ok) := match row with Some _ => ReplaceWitnessEnvelope (en_save en) canonical row | None => SaveWitnessEnvelope (en_save en) canonical row end in
              (row', if ok then Ok (canonical, env) else Err ESave)
            end
          end
        end
      end
    end
  end.
End Recover.
