(* ===== verification/IdentityFacts.v ===== *)
(** * The envelope is found again

    The template gives, byte for byte, what the builder gives; the goroutines of
    the search always end and miss nothing in their window, whatever their
    interleaving; and the envelope returned names the identity of the record. *)

From stdpp Require Import gmap relations list_numbers.
From S2P Require Import Prelude Utf8 GoJson CanonicalJson CanonicalJsonFacts GoStruct Marshal Crypto Event Lines Chain Time Container SigEnvelope Ledger LedgerFacts Witness GoStrings Composer WitnessKeys WitnessWire IdentityEnvelope.

(** ** Texts that are written as they are *)

Definition plain_char (c : Z) : Prop := 32 ≤ c < 127 ∧ c ≠ 34 ∧ c ≠ 92.

Lemma emit_plain s : Forall plain_char s → emitCanonicalJSONString s = 34 :: s ++ [34].
Proof.
  intros H. unfold emitCanonicalJSONString. do 2 f_equal. assert (Forall valid_rune s ∧ encode_runes s = s) as [Hv He].
  { clear -H. induction H as [|c s Hc _ [IH1 IH2]]; [done|]. split; [constructor; [unfold plain_char, valid_rune in *; lia|done]|].
    unfold encode_runes in *. cbn. rewrite EncodeRune_ascii, IH2 by (unfold plain_char in Hc; lia). done. }
  unfold runes. rewrite <- He at 1. rewrite decoded_encode_runes by done.
  rewrite <- list_fmap_compose. clear Hv He. induction H as [|c s Hc _ IH]; [done|]. cbn. rewrite IH. unfold emit_rune. destruct Hc as (Hc & H1 & H2).
  rewrite EncodeRune_ascii by lia. repeat (rewrite (proj2 (Z.eqb_neq _ _)) by lia). by rewrite (proj2 (Z.ltb_ge _ _)) by lia.
Qed.

Lemma uint_plain u : Forall plain_char (uint_bytes u).
Proof. induction u; cbn; constructor; try done; unfold plain_char; lia. Qed.
Lemma FormatUint_plain z : Forall plain_char (FormatUint z).
Proof. apply uint_plain. Qed.
Lemma pad_int_plain n z : Forall plain_char (pad_int n z).
Proof.
  unfold pad_int. apply Forall_app. split; [destruct (z <? 0); repeat constructor; lia|]. apply Forall_app. split; [|apply FormatUint_plain].
  apply Forall_replicate. unfold plain_char. lia.
Qed.
Lemma format_plain t : Forall plain_char (format_RFC3339 t).
Proof.
  unfold format_RFC3339, format_date. destruct (civil_year _) as [y yd]. destruct (civil_month _ _ _ _) as [m d].
  repeat first [apply pad_int_plain|apply Forall_nil_2|apply Forall_cons; split; [unfold plain_char; lia|]|apply Forall_app; split].
Qed.
Lemma plain_text s : Forall plain_char s → wf_text s.
Proof. intros H. apply wf_text_ascii. eapply Forall_impl; [exact H|]. unfold plain_char. lia. Qed.

Section Canonical.
Context `{PL : PrimitiveLaws}.
Variable key : KeyPair.
Hypothesis key_bytes : Forall is_byte (PublicKey key).

(** ** What the builder writes *)

Definition key_json : json :=
  JArr [JObj [(bs "alg", JStr SigAlg); (bs "public_key_b64", JStr (PublicKeyB64 key));
    (bs "public_key_fingerprint", JStr (EnvelopeKeyFingerprint SigAlg (identity_key_id key) (PublicKeyB64 key)))]].

Lemma wf_text_app a b : wf_text a → wf_text b → wf_text (a ++ b).
Proof. intros [H1 H2] [H3 H4]. split; [by rewrite Valid_app|]. by rewrite existsb_app, H2, H4. Qed.
Lemma wf_text_sha m : wf_text (SHA256Prefixed m).
Proof. apply wf_text_app; [by split|]. apply wf_text_hex, sha256_bytes. Qed.

Lemma wf_text_key_id : wf_text (identity_key_id key).
Proof.
  apply wf_text_app; [by split|]. apply wf_text_ascii, Forall_take. eapply Forall_impl; [apply hex_encode_ascii, sha256_bytes|]. cbn. lia.
Qed.
Lemma wf_text_b64 : wf_text (PublicKeyB64 key).
Proof. by apply Valid_b64. Qed.

Lemma tidy_wf s : wf_text s → tidy (json_string true s) (JStr s).
Proof. intros [H1 H2]. by apply tidy_string. Qed.

Definition envelope_json (t : Z) : list (bytes * json) :=
  [(bs "v", JNum (FormatInt 1)); (bs "kind", JStr PublicKeyEnvelopeKind); (bs "key_id", JStr (identity_key_id key)); (bs "key_type", JStr (bs "identity"));
   (bs "profile", JStr ProfileRoot); (bs "created_at", JStr (format_RFC3339 t)); (bs "not_before", JStr (format_RFC3339 (t - one_minute)));
   (bs "expires_at", JStr (format_RFC3339 (t + envelopeExpiry))); (bs "keys", key_json)].

Lemma tidy_material alg pub fp : wf_text alg → wf_text pub → wf_text fp → tidy (marshal_material (mkKeyMaterial alg pub fp))
  (JObj [(bs "alg", JStr alg); (bs "public_key_b64", JStr pub); (bs "public_key_fingerprint", JStr fp)]).
Proof.
  intros H1 H2 H3. apply (tidy_object [(bs "alg", json_string true alg); (bs "public_key_b64", json_string true pub); (bs "public_key_fingerprint", json_string true fp)] [JStr alg; JStr pub; JStr fp]).
  - repeat (constructor; [split; [reflexivity|by apply tidy_wf]|]). constructor.
  - doc_names.
Qed.

Lemma tidy_envelope t : tidy (mustMarshalEnv (identity_envelope key t)) (JObj (envelope_json t)).
Proof.
  pose proof wf_text_key_id as Hk. pose proof wf_text_b64 as Hb. assert (∀ x, wf_text (format_RFC3339 x)) as Hf by (intros x; apply plain_text, format_plain).
  unfold mustMarshalEnv, identity_envelope. cbn [pke_V pke_Kind pke_KeyID pke_KeyType pke_Profile pke_CreatedAt pke_NotBefore pke_ExpiresAt pke_Keys].
  match goal with |- tidy (field_object ?l) _ => pose proof (tidy_object l [JNum (FormatInt 1); JStr PublicKeyEnvelopeKind; JStr (identity_key_id key); JStr (bs "identity");
    JStr ProfileRoot; JStr (format_RFC3339 t); JStr (format_RFC3339 (t - one_minute)); JStr (format_RFC3339 (t + envelopeExpiry)); key_json]) as H end.
  cbn [fmap list_fmap fst zip zip_with] in H. apply H; [|doc_names].
  constructor; [split; [reflexivity|apply tidy_number; reflexivity]|].
  repeat (constructor; [split; [reflexivity|apply tidy_wf; first [done|apply Hf|by split]]|]). constructor; [split; [reflexivity|]|constructor].
  apply (tidy_array [_] [_]). constructor; [|constructor]. apply tidy_material; [by split|done|apply wf_text_sha].
Qed.

(** The members in their order. *)
Lemma sort_envelope (a b c d e f g h i : json) :
  sort_keys [(bs "v", a); (bs "kind", b); (bs "key_id", c); (bs "key_type", d); (bs "profile", e); (bs "created_at", f); (bs "not_before", g); (bs "expires_at", h); (bs "keys", i)] =
  [(bs "created_at", f); (bs "expires_at", h); (bs "key_id", c); (bs "key_type", d); (bs "keys", i); (bs "kind", b); (bs "not_before", g); (bs "profile", e); (bs "v", a)].
Proof. reflexivity. Qed.

(** The texts around the three times. *)
Definition part0 : bytes := js "{'created_at':'".
Definition part1 : bytes := js "','expires_at':'".
Definition pre2 : bytes := js "','key_id':" ++ emitCanonicalJSONString (identity_key_id key) ++ js ",'key_type':'identity','keys':" ++ emitCanonicalJSONValue key_json ++
  js ",'kind':'aiii.server_key.public',".
Definition part2 : bytes := pre2 ++ js "'not_before':'".
Definition part3 : bytes := js "','profile':'" ++ ProfileRoot ++ js "','v':1}".

Definition envelope_text (t : Z) : bytes :=
  part0 ++ format_RFC3339 t ++ part1 ++ format_RFC3339 (t + envelopeExpiry) ++ part2 ++ format_RFC3339 (t - one_minute) ++ part3.

Lemma builder_text t : buildIdentityEnvelope key t = Ok (envelope_text t, identity_envelope key t).
Proof.
  unfold buildIdentityEnvelope, canonicalEnvelopeBytes. rewrite (canonicalize_tidy _ _ (tidy_envelope t)). cbn [mbind result_bind mret]. do 2 f_equal.
  rewrite emit_obj. unfold envelope_json. rewrite sort_envelope. cbn [map fst snd]. unfold envelope_text, part0, part1, part2, pre2, part3.
  change (emitCanonicalJSONValue (JStr ?s)) with (emitCanonicalJSONString s). rewrite !(emit_plain (format_RFC3339 _)) by apply format_plain.
  generalize (format_RFC3339 t), (format_RFC3339 (t + envelopeExpiry)), (format_RFC3339 (t - one_minute)), (emitCanonicalJSONString (identity_key_id key)), (emitCanonicalJSONValue key_json).
  intros f0 f1 f2 k j. cbn [comma_join]. repeat (progress (rewrite <- ?app_assoc; cbn [app])). vm_compute. reflexivity.
Qed.

(** ** The template *)

Definition needle (field value : bytes) : bytes := [34] ++ field ++ [34; 58; 34] ++ value ++ [34].

Lemma Index_le a sub b : ∃ i, Index (a ++ sub ++ b) sub = Some i ∧ (i ≤ length a)%nat.
Proof.
  induction a as [|c a (i & IH & Hi)]; cbn [app].
  - exists 0%nat. split; [|lia]. pose proof (HasPrefix_app sub b) as H. destruct (sub ++ b); cbn [Index]; by rewrite H.
  - cbn [Index length]. destruct (HasPrefix _ _); [exists 0%nat; split; [done|lia]|]. rewrite IH. exists (S i). split; [done|lia].
Qed.

Lemma cut_at canonical s field value i x : Index s (needle field value) = Some i → cut_field canonical s field value = Some x →
  ∃ p r, x = (p, r) ∧ p ++ value ++ r = s ∧ length p = (i + (length field + 4))%nat.
Proof.
  unfold cut_field. intros Hi. change ([34] ++ field ++ [34; 58; 34] ++ value ++ [34]) with (needle field value). rewrite Hi. cbn [mbind option_bind].
  destruct (negb _); [done|]. intros [= <-]. eexists _, _. split; [done|]. pose proof (Index_Some _ _ _ Hi) as E.
  assert (∃ u v, s = u ++ needle field value ++ v ∧ length u = i) as (u & v & -> & Hl).
  { eexists _, _. split; [exact E|]. apply (f_equal length) in E. rewrite !length_app, length_drop, length_take in E. rewrite length_take. unfold needle in E. rewrite !length_app in E. cbn [length] in E. lia. }
  clear E. unfold needle. rewrite <- !app_assoc.
  set (w := u ++ [34] ++ field ++ [34; 58; 34]). assert (length w = (i + (length field + 4))%nat) as Hn by (unfold w; rewrite !length_app; cbn [length]; lia).
  assert (u ++ [34] ++ field ++ [34; 58; 34] ++ value ++ [34] ++ v = w ++ value ++ [34] ++ v) as -> by (unfold w; by rewrite <- !app_assoc).
  rewrite <- Hn, take_app_length, <- drop_drop, drop_app_length, drop_app_length. done.
Qed.

(** Two fillings of a hole, against two of another not before it, fix the hole. *)
Lemma same_hole (p q r r' f g : bytes) : p ++ f ++ r = q ++ f ++ r' → p ++ g ++ r = q ++ g ++ r' → (length p ≤ length q)%nat →
  length f = 20%nat → length g = 20%nat → f !! 18%nat ≠ g !! 18%nat → f !! 19%nat = Some 90 → (∀ k, (k < 19)%nat → f !! k ≠ Some 90) → p = q ∧ r = r'.
Proof.
  intros E1 E2 Hl Hf Hg Hd Hz Hn. destruct (decide (length p = length q)) as [E|E].
  { apply app_inj_1 in E1 as [-> E1]; [|done]. apply app_inj_1 in E1 as [_ ->]; done. }
  exfalso. destruct (decide (length p + 18 < length q)%nat) as [H|H].
  - apply Hd. transitivity (q !! (length p + 18)%nat).
    + rewrite <- (lookup_app_l q (f ++ r')), <- E1 by done. rewrite lookup_app_r by lia. rewrite lookup_app_l by lia. f_equal; lia.
    + rewrite <- (lookup_app_l q (g ++ r')), <- E2 by done. rewrite lookup_app_r by lia. rewrite lookup_app_l by lia. f_equal; lia.
  - apply (Hn (length p + 19 - length q)%nat); [lia|]. rewrite <- Hz. transitivity ((q ++ f ++ r') !! (length p + 19)%nat).
    + rewrite lookup_app_r by lia. rewrite lookup_app_l by lia. f_equal; lia.
    + rewrite <- E1. rewrite lookup_app_r by lia. rewrite lookup_app_l by lia. f_equal; lia.
Qed.

Definition fp : bytes := EnvelopeKeyFingerprint SigAlg (identity_key_id key) (PublicKeyB64 key).
Lemma find_identity_key t : FindPublicKey (identity_envelope key t) SigAlg = Some (mkKeyMaterial SigAlg (PublicKeyB64 key) fp).
Proof. unfold FindPublicKey, identity_envelope. cbn [pke_Keys find pkm_Alg]. by rewrite beq_refl. Qed.

(** The three cuts, whatever the times. *)
Lemma first_cut canonical f x p r : cut_field canonical (part0 ++ f ++ x) (bs "created_at") f = Some (p, r) → head x = Some 34 → p = part0 ∧ r = x.
Proof.
  intros Hc Hx. destruct x as [|q x]; [done|]. injection Hx as ->. assert (part0 ++ f ++ 34 :: x = [123] ++ needle (bs "created_at") f ++ x) as Et.
  { unfold needle. rewrite <- !app_assoc. reflexivity. }
  destruct (cut_at canonical (part0 ++ f ++ 34 :: x) (bs "created_at") f 1 (p, r)) as (p0 & r0 & [= <- <-] & E0 & L0); [|done|].
  { rewrite Et. cbn [app Index]. change (HasPrefix (123 :: _) (needle _ _)) with false. pose proof (HasPrefix_app (needle (bs "created_at") f) x) as H.
    destruct (needle (bs "created_at") f ++ x); cbn [Index]; by rewrite H. }
  apply app_inj_1 in E0 as [-> E0]; [|rewrite L0; reflexivity]. by apply app_inj_1 in E0 as [_ ->].
Qed.

Lemma next_cut canonical f x p r : cut_field canonical (part1 ++ f ++ x) (bs "expires_at") f = Some (p, r) → head x = Some 34 → p = part1 ∧ r = x.
Proof.
  intros Hc Hx. destruct x as [|q x]; [done|]. injection Hx as ->. assert (part1 ++ f ++ 34 :: x = [34; 44] ++ needle (bs "expires_at") f ++ x) as Et.
  { unfold needle. rewrite <- !app_assoc. reflexivity. }
  destruct (cut_at canonical (part1 ++ f ++ 34 :: x) (bs "expires_at") f 2 (p, r)) as (p0 & r0 & [= <- <-] & E0 & L0); [|done|].
  { rewrite Et. cbn [app Index]. change (HasPrefix (34 :: 44 :: _) (needle _ _)) with false. change (HasPrefix (44 :: _) (needle _ _)) with false.
    pose proof (HasPrefix_app (needle (bs "expires_at") f) x) as H. destruct (needle (bs "expires_at") f ++ x); cbn [Index]; by rewrite H. }
  apply app_inj_1 in E0 as [-> E0]; [|rewrite L0; reflexivity]. by apply app_inj_1 in E0 as [_ ->].
Qed.

Lemma last_cut canonical f p r : cut_field canonical (part2 ++ f ++ part3) (bs "not_before") f = Some (p, r) →
  p ++ f ++ r = part2 ++ f ++ part3 ∧ (length p ≤ length part2)%nat.
Proof.
  intros Hc. destruct (Index_le pre2 (needle (bs "not_before") f) (tail part3)) as (i & Hi & Hle).
  assert (pre2 ++ needle (bs "not_before") f ++ tail part3 = part2 ++ f ++ part3) as Et.
  { unfold part2, needle. rewrite <- !app_assoc. reflexivity. }
  rewrite Et in Hi. destruct (cut_at _ _ _ _ _ _ Hi Hc) as (p2 & r2 & [= <- <-] & E2 & L2). split; [done|]. rewrite L2.
  unfold part2. rewrite length_app. change (length (js "'not_before':'")) with 14%nat. change (length (bs "not_before")) with 10%nat. lia.
Qed.

(** The times the template is made and tried at. *)
Lemma ref_texts : let f := format_RFC3339 (ref_time - one_minute) in let g := format_RFC3339 (ref_time + ns_per_second - one_minute) in
  length f = 20%nat ∧ length g = 20%nat ∧ f !! 18%nat ≠ g !! 18%nat ∧ f !! 19%nat = Some 90 ∧ ∀ k, (k < 19)%nat → f !! k ≠ Some 90.
Proof.
  repeat split; try (vm_compute; reflexivity || discriminate). intros k Hk. do 19 (destruct k as [|k]; [vm_compute; discriminate|]). lia.
Qed.

Ltac next_field p r E := cbn [mbind option_bind]; match goal with |- context [cut_field ?a ?b ?c ?d] => destruct (cut_field a b c d) as [[p r]|] eqn:E; [|done] end.

Lemma template_parts c : newEnvelopeCandidates key = Some c → c = mkCandidates part0 part1 part2 part3 fp.
Proof.
  unfold newEnvelopeCandidates. rewrite builder_text, find_identity_key. cbn [mbind option_bind pkm_PublicKeyFingerprint].
  destruct ref_texts as (T1 & T2 & T3 & T4 & T5). next_field p0 r0 Ec.
  apply first_cut in Ec as [-> ->]; [|reflexivity]. next_field p1 r1 Ec1.
  apply next_cut in Ec1 as [-> ->]; [|reflexivity]. next_field p2 r2 Ec2.
  apply last_cut in Ec2 as [E2 L2]. cbn [mbind option_bind forallb]. rewrite builder_text.
  match goal with |- context [beq ?a ?b && ?d] => destruct (beq a b) eqn:Ep; [destruct d; [|done]|done] end. b2p. intros [= <-].
  unfold candidate_canonical, envelope_text in Ep. cbn [ec_p0 ec_p1 ec_p2 ec_p3] in Ep. do 4 apply app_inv_head in Ep.
  destruct (same_hole _ _ _ _ _ _ E2 Ep L2 T1 T2 T3 T4 T5) as [-> ->]. done.
Qed.

(** C21. The template the search fills is the builder: whenever it is taken up, it
    gives for every second, byte for byte, the envelope the builder makes. *)
Theorem template_is_builder c t : newEnvelopeCandidates key = Some c →
  buildIdentityEnvelope key t = Ok (candidate_canonical c t, identity_envelope key t) ∧
  DeriveIdentityID (candidate_canonical c t) (identity_envelope key t) = Some (identityIDFor (ec_fingerprint c) (candidate_canonical c t)).
Proof.
  intros ->%template_parts. split; [apply builder_text|]. unfold DeriveIdentityID. by rewrite find_identity_key.
Qed.
End Canonical.

(** ** The goroutines *)

Section SearchFacts.
Variable try_at : Z → result build_err bool.
Variable span workers : Z.
Hypothesis Hworkers : 0 < workers.

#[local] Abbreviation step := (sstep try_at span workers).
#[local] Abbreviation start := (search_start workers).

#[local] Instance worker_eq_dec : EqDecision worker.
Proof. solve_decision. Defined.

(** How many steps a goroutine has left. *)
Definition left (x : worker) : nat :=
  match x with
  | Loads i => 2 * Z.to_nat (span - i) + 1
  | Tries i => 2 * Z.to_nat (span - i)
  | Fails => 1
  | Finished => 0
  end%nat.
Definition steps_left (s : search) : nat := sum_list_with left (sc_workers s).

(** What the goroutine [w] has gone through. *)
Definition cleared (w i : Z) : Prop := ∀ j, 0 ≤ j < i → j mod workers = w → try_at j = Ok false.
Definition worker_ok (s : search) (w : nat) (x : worker) : Prop :=
  match x with
  | Loads i => 0 ≤ i ∧ i mod workers = Z.of_nat w ∧ cleared (Z.of_nat w) (Z.min i span)
  | Tries i => 0 ≤ i < span ∧ i mod workers = Z.of_nat w ∧ cleared (Z.of_nat w) i
  | Fails => is_Some (sc_failed s)
  | Finished => sc_found s ≠ 0 ∨ cleared (Z.of_nat w) span
  end.
Record search_ok (s : search) : Prop := {
  so_count : length (sc_workers s) = Z.to_nat workers;
  so_hit : 0 < sc_found s → 0 ≤ sc_found s - 1 < span ∧ try_at (sc_found s - 1) = Ok true;
  so_fail : sc_found s < 0 → is_Some (sc_failed s);
  so_failed : is_Some (sc_failed s) → ∃ i e, 0 ≤ i < span ∧ try_at i = Err e;
  so_workers w x : sc_workers s !! w = Some x → worker_ok s w x;
}.

Lemma start_ok : search_ok start.
Proof.
  split; cbn.
  - by rewrite !length_fmap, length_seq.
  - done.
  - done.
  - by intros [].
  - intros w x. rewrite !list_lookup_fmap. destruct (seq 0 _ !! w) as [k|] eqn:E; [|done]. apply lookup_seq in E as [-> Hw]. intros [= <-]. cbn.
    split; [lia|]. split; [apply Z.mod_small; lia|]. intros j Hj Hm. rewrite Z.mod_small in Hm; lia.
Qed.

Lemma worker_ok_mono s s' w x : worker_ok s w x → (is_Some (sc_failed s) → is_Some (sc_failed s')) → (sc_found s ≠ 0 → sc_found s' ≠ 0) → worker_ok s' w x.
Proof. destruct x; cbn; intros H Hf Hn; try done; [by auto|]. destruct H as [H|H]; [left; auto|by right]. Qed.

Lemma cleared_next w i : 0 ≤ i → i mod workers = w → cleared w i → try_at i = Ok false → cleared w (i + workers).
Proof.
  intros Hi Hm Hc Ht j Hj Hjm. destruct (Z.lt_ge_cases j i) as [|Hge]; [apply Hc; [lia|done]|]. replace j with i; [done|].
  assert ((j - i) mod workers = 0) as H by (rewrite Zminus_mod, Hjm, Hm, Z.sub_diag; apply Z.mod_0_l; lia). rewrite Z.mod_small in H by lia. lia.
Qed.

Lemma sum_insert_lt (f : worker → nat) l w x x' : l !! w = Some x → (f x' < f x)%nat → (sum_list_with f (<[w := x']> l) < sum_list_with f l)%nat.
Proof. revert w. induction l as [|y l IH]; intros [|w]; [done|done|intros [= ->]; simpl; lia|]. intros H Hf. specialize (IH w H Hf). simpl. fold (sum_list_with f). simpl in IH. lia. Qed.

Lemma search_step_ok s s' : step s s' → search_ok s → search_ok s' ∧ (steps_left s' < steps_left s)%nat.
Proof.
  intros (w & Hstep) [H1 H2 H3 H4 H5]. unfold search_step in Hstep. destruct (sc_workers s !! w) as [x|] eqn:Ew; [|done]. cbn [mbind option_bind] in Hstep.
  destruct (worker_step _ _ _ s x) as [[[found failed] x']|] eqn:Es; [|done]. injection Hstep as <-. pose proof (H5 _ _ Ew) as Hx.
  assert ((is_Some (sc_failed s) → is_Some failed) ∧ (sc_found s ≠ 0 → found ≠ 0) ∧ (left x' < left x)%nat ∧
    (0 < found → 0 ≤ found - 1 < span ∧ try_at (found - 1) = Ok true) ∧ (found < 0 → is_Some failed) ∧ (is_Some failed → ∃ i e, 0 ≤ i < span ∧ try_at i = Err e) ∧
    worker_ok (mkSearch found failed (<[w := x']> (sc_workers s))) w x') as (M1 & M2 & M3 & M4 & M5 & M6 & M7).
  { unfold worker_step, CompareAndSwap in Es. destruct x as [i|i| |]; cbn in Hx.
    - destruct Hx as (Hi & Hm & Hc). injection Es as <- <- <-. repeat (split; [done || (destruct (_ && _) eqn:E; cbn [left]; b2p; lia)|]).
      destruct (_ && _) eqn:E; b2p; cbn [worker_ok sc_found].
      + rewrite Z.min_l in Hc by lia. split; [lia|done].
      + apply andb_false_iff in E as [E|E]; b2p; [right; by rewrite Z.min_r in Hc by lia|by left].
    - destruct Hx as (Hi & Hm & Hc). destruct (try_at i) as [[]|e] eqn:Et; injection Es as <- <- <-; cbn [left].
      + destruct (Z.eqb_spec (sc_found s) 0) as [E|E]; repeat (split; [done || lia|]).
        * split; [intros _; replace (i + 1 - 1) with i by lia; done|]. split; [intros; exfalso; lia|]. split; [done|]. cbn. left. lia.
        * repeat (split; [done|]). by left.
      + do 6 (split; [done || lia|]). cbn [worker_ok]. split; [lia|]. split; [rewrite Z.add_mod, Z.mod_same, Z.add_0_r, Z.mod_mod by lia; done|].
        intros j Hj. apply (cleared_next _ i); done || lia.
      + assert (is_Some (match sc_failed s with None => Some e | f => f end)) as Hs by (destruct (sc_failed s); by eexists).
        split; [done|]. split; [done|]. split; [lia|]. split; [done|]. split; [done|]. split; [intros _; by exists i, e|done].
    - injection Es as <- <- <-. destruct (Z.eqb_spec (sc_found s) 0) as [E|E]; do 6 (split; [first [done|exact H4|cbn [left]; lia|intros; exact Hx|intros; exfalso; lia]|]); left; cbn; lia.
    - done. }
  split; [split; cbn [sc_workers sc_found sc_failed]; try done|].
  - by rewrite length_insert.
  - intros w' y. destruct (decide (w' = w)) as [->|Hne].
    + rewrite list_lookup_insert_eq by (by eapply lookup_lt_Some). by intros [= <-].
    + rewrite list_lookup_insert_ne by done. intros Hy. by eapply worker_ok_mono; [apply H5| |].
  - unfold steps_left. cbn [sc_workers]. by eapply sum_insert_lt.
Qed.

(** No schedule takes more steps than there are to take. *)
Lemma run_ok n s s' : nsteps step n s s' → search_ok s → search_ok s' ∧ (n + steps_left s' ≤ steps_left s)%nat.
Proof.
  induction 1 as [|n s s1 s2 H _ IH]; [by intros; split; [|lia]|]. intros Hs. destruct (search_step_ok _ _ H Hs) as [H1 H2]. destruct (IH H1) as [H3 H4]. split; [done|lia].
Qed.

(** Nobody waits: while a goroutine has not finished there is a step. *)
Lemma step_exists s w x : sc_workers s !! w = Some x → x ≠ Finished → ∃ s', step s s'.
Proof.
  intros Hw Hx. assert (∃ y, worker_step try_at span workers s x = Some y) as ([[f e] x'] & Hy).
  { destruct x as [i|i| |]; cbn; [by eexists| |by eexists|done]. destruct (try_at i) as [[]|]; by eexists. }
  exists (mkSearch f e (<[w := x']> (sc_workers s))), w. unfold search_step. rewrite Hw. cbn [mbind option_bind]. by rewrite Hy.
Qed.

Lemma stuck_finished s : (∀ s', ¬ step s s') → Forall (λ x, x = Finished) (sc_workers s).
Proof.
  intros H. apply Forall_lookup. intros w x Hw. destruct (decide (x = Finished)) as [|Hx]; [done|]. destruct (step_exists s w x Hw Hx) as [s' Hs]. by destruct (H s').
Qed.

(** When all have finished and none found it, it is not there. *)
Lemma finished_verdict s : search_ok s → Forall (λ x, x = Finished) (sc_workers s) → sc_found s = 0 → ∀ i, 0 ≤ i < span → try_at i = Ok false.
Proof.
  intros [H1 _ _ _ H5] Hf H0 i Hi. pose proof (Z.mod_pos_bound i workers Hworkers) as Hb.
  destruct (lookup_lt_is_Some_2 (sc_workers s) (Z.to_nat (i mod workers))) as [x Hx]; [rewrite H1; lia|].
  pose proof (H5 _ _ Hx) as Hok. rewrite (proj1 (Forall_lookup _ _) Hf _ _ Hx) in Hok. destruct Hok as [|Hc]; [done|]. apply Hc; [done|]. lia.
Qed.
End SearchFacts.

(** ** The window *)

Lemma format_seconds t t' : t / ns_per_second = t' / ns_per_second → format_RFC3339 t = format_RFC3339 t'.
Proof.
  assert (∀ t, t / ns_per_day = t / ns_per_second / 86400 ∧ t mod ns_per_day / ns_per_second = (t / ns_per_second) mod 86400) as H.
  { clear. intros t. change ns_per_day with (ns_per_second * 86400). split; [by rewrite Z.div_div|]. rewrite Z.rem_mul_r by done.
    rewrite Z.mul_comm, Z.div_add by done. rewrite (Z.div_small (_ mod _)); [lia|]. by apply Z.mod_pos_bound. }
  intros E. unfold format_RFC3339, format_date. destruct (H t) as [-> ->]. destruct (H t') as [-> ->]. by rewrite E.
Qed.

Lemma truncate_div t : truncate_second t = ns_per_second * (t / ns_per_second).
Proof. unfold truncate_second. rewrite (Z.div_mod t ns_per_second) at 1 by done. lia. Qed.

Section Recovered.
Context `{PL : PrimitiveLaws}.
Variable key : KeyPair.
Hypothesis key_bytes : Forall is_byte (PublicKey key).

Lemma same_second t : identity_envelope key (truncate_second t) = identity_envelope key t.
Proof.
  unfold identity_envelope. rewrite truncate_div.
  assert (∀ k, format_RFC3339 (ns_per_second * (t / ns_per_second) + ns_per_second * k) = format_RFC3339 (t + ns_per_second * k)) as H.
  { intros k. apply format_seconds. by rewrite <- Z.mul_add_distr_l, (Z.mul_comm _ (_ + _)), Z.div_mul, (Z.mul_comm _ k), Z.div_add. }
  pose proof (H 0) as H0. rewrite Z.mul_0_r, !Z.add_0_r in H0. pose proof (H (-60)) as H1. pose proof (H (100 * 365 * 24 * 3600)) as H2.
  rewrite H0. f_equal; [exact H1|exact H2].
Qed.

(** Differences of whole seconds, saturated. *)
Lemma Sub_seconds p f : let q := time_Sub (ns_per_second * p) (ns_per_second * f) ÷ ns_per_second in
  (-9223372036 ≤ p - f ≤ 9223372036 ∧ q = p - f) ∨ (9223372036 < p - f ∧ q = 9223372036) ∨ (p - f < -9223372036 ∧ q = -9223372036).
Proof.
  cbn. unfold time_Sub. rewrite <- Z.mul_sub_distr_l. unfold ns_per_second. destruct (Z.lt_ge_cases 9223372036 (p - f)) as [H|H].
  - right. left. split; [done|]. rewrite Z.min_l, Z.max_r by lia. reflexivity.
  - destruct (Z.lt_ge_cases (p - f) (-9223372036)) as [H'|H'].
    + right. right. split; [done|]. rewrite Z.min_r, Z.max_l by lia. reflexivity.
    + left. split; [lia|]. rewrite Z.min_r, Z.max_r by lia. by rewrite Z.mul_comm, Z.quot_mul.
Qed.

(** Every instant of the window has its index. *)
Lemma window_covers born first w t : enrollment_window born first = Ok w →
  truncate_second (born - enrollmentSlack) ≤ t < truncate_second (first + enrollmentSlack) + ns_per_second →
  ∃ i, 0 ≤ i < wi_span w ∧ second w i = truncate_second t.
Proof.
  unfold enrollment_window. rewrite !truncate_div. set (f := (born - enrollmentSlack) / ns_per_second). set (p := first / ns_per_second). set (u := (first + enrollmentSlack) / ns_per_second).
  set (x := t / ns_per_second). assert (p ≤ u) as Hpu by (apply Z.div_le_mono; [done|]; unfold enrollmentSlack, ns_per_second; lia).
  clearbody f p u. pose proof (Sub_seconds p f) as Hb. pose proof (Sub_seconds u p) as Ha. cbn zeta in Ha, Hb.
  set (below := _ ÷ _) in Hb |- *. set (above := _ ÷ _) in Ha |- *. clearbody below above.
  destruct (_ <=? 0) eqn:E1; [done|]. destruct (maxRecoverySeconds <? _) eqn:E2; [done|]. b2p. intros [= <-] Ht.
  assert (f ≤ x ≤ u) as Hx.
  { unfold x. split; [apply Z.div_le_lower_bound; [done|lia]|]. enough (t / ns_per_second < u + 1) by lia. apply Z.div_lt_upper_bound; [done|lia]. }
  clearbody x. unfold maxRecoverySeconds in E2. unfold wi_span, second. cbn [wi_pivot wi_below wi_above].
  assert (below = p - f ∧ above = u - p) as [-> ->] by lia.
  destruct (Z.le_gt_cases x p) as [H|H].
  - exists (p - x). split; [lia|]. rewrite (proj2 (Z.ltb_lt _ _)) by lia. lia.
  - exists (p - f + (x - p)). split; [lia|]. rewrite (proj2 (Z.ltb_ge _ _)) by lia. lia.
Qed.

(** What an instant's envelope is named. *)
Definition name_at (t : Z) : bytes := identityIDFor (fp key) (envelope_text key t).

Lemma built_name t canonical env : buildIdentityEnvelope key t = Ok (canonical, env) → DeriveIdentityID canonical env = Some (name_at t).
Proof. rewrite builder_text by done. intros [= <- <-]. unfold DeriveIdentityID. by rewrite find_identity_key. Qed.

Lemma matches_name did t : matches key did (newEnvelopeCandidates key) t = Ok (beq (name_at t) did).
Proof.
  unfold matches. destruct (newEnvelopeCandidates key) as [c|] eqn:E.
  - by apply template_parts in E as ->.
  - rewrite builder_text by done. cbn [map_err mbind result_bind]. rewrite (built_name t _ _ (builder_text key key_bytes t)). done.
Qed.

Lemma sum_bound (l : list worker) (f : worker → nat) m : Forall (λ x, (f x ≤ m)%nat) l → (sum_list_with f l ≤ length l * m)%nat.
Proof. induction 1 as [|x l Hx _ IH]; simpl; [lia|]. simpl in IH. lia. Qed.

Lemma start_steps span workers : (steps_left span (search_start workers) ≤ Z.to_nat workers * (2 * Z.to_nat span + 1))%nat.
Proof.
  unfold steps_left, search_start. cbn [sc_workers]. etransitivity; [apply (sum_bound _ _ (2 * Z.to_nat span + 1)%nat)|by rewrite !length_fmap, length_seq].
  apply Forall_lookup. intros w x. rewrite !list_lookup_fmap. destruct (seq 0 _ !! w) as [k|]; [|done]. intros [= <-]. cbn [left]. lia.
Qed.

(** What the search has found out when it cannot go on. *)
Definition recovered (did : bytes) (born first : Z) (res : result recover_err (bytes * PublicKeyEnvelope)) : Prop :=
  match res with
  | Ok (canonical, env) => ∃ t, buildIdentityEnvelope key t = Ok (canonical, env) ∧ DeriveIdentityID canonical env = Some did
  | Err RNotFound => ∀ t canonical env, truncate_second (born - enrollmentSlack) ≤ t < truncate_second (first + enrollmentSlack) + ns_per_second →
      buildIdentityEnvelope key t = Ok (canonical, env) → DeriveIdentityID canonical env ≠ Some did
  | Err _ => False
  end.

Lemma conclude_recovered did born first w workers s : enrollment_window born first = Ok w → 0 < workers →
  search_ok (λ i, matches key did (newEnvelopeCandidates key) (second w i)) (wi_span w) workers s → Forall (λ x, x = Finished) (sc_workers s) →
  recovered did born first (conclude key did w s).
Proof.
  intros Hw Hk Hs Hf. unfold conclude. destruct (Z.ltb_spec 0 (sc_found s)) as [Hp|Hp].
  - destruct (so_hit _ _ _ _ Hs Hp) as [_ Ht]. rewrite matches_name in Ht. injection Ht as Ht. b2p. destruct (buildIdentityEnvelope _ _) as [[canonical env]|] eqn:Eb.
    + rewrite (built_name _ _ _ Eb), Ht, beq_refl. exists (second w (sc_found s - 1)). split; [done|]. by rewrite (built_name _ _ _ Eb), Ht.
    + by rewrite builder_text in Eb by done.
  - destruct (Z.ltb_spec (sc_found s) 0) as [Hn|Hn].
    + exfalso. destruct (so_failed _ _ _ _ Hs (so_fail _ _ _ _ Hs Hn)) as (i & e & _ & He). by rewrite matches_name in He.
    + intros t canonical env Ht Hb. destruct (window_covers born first w t Hw Ht) as (i & Hi & Et).
      pose proof (finished_verdict _ _ _ Hk s Hs Hf ltac:(lia) i Hi) as Hv. cbn beta in Hv. rewrite matches_name, Et in Hv. injection Hv as Hv. b2p.
      rewrite (built_name _ _ _ Hb). intros [= E]. apply Hv. rewrite <- E. unfold name_at. f_equal.
      pose proof (builder_text key key_bytes t) as B1. pose proof (builder_text key key_bytes (truncate_second t)) as B2. unfold buildIdentityEnvelope in B1, B2. rewrite same_second in B2.
      destruct (canonicalEnvelopeBytes _) as [c|]; [|done]. injection B1 as <-. injection B2 as <-. done.
Qed.

(** C20. The search for a lost envelope decides: however many goroutines there are
    and however they interleave, it takes at most two steps for each of them and
    each second of the window and one more, no goroutine ever waits, and when
    none can go on the outcome is an envelope this key makes that names the
    identity asked for, or the verdict that the key made none at any instant of
    the window. *)
Theorem search_decides did born first w workers n s : enrollment_window born first = Ok w → 0 < workers →
  nsteps (sstep (λ i, matches key did (newEnvelopeCandidates key) (second w i)) (wi_span w) workers) n (search_start workers) s →
  (n ≤ Z.to_nat workers * (2 * Z.to_nat (wi_span w) + 1))%nat ∧
  ((∀ s', ¬ sstep (λ i, matches key did (newEnvelopeCandidates key) (second w i)) (wi_span w) workers s s') → recovered did born first (conclude key did w s)).
Proof.
  intros Hw Hk Hn. destruct (run_ok _ _ _ Hk n _ _ Hn (start_ok _ _ _ Hk)) as [Hs Hl]. split.
  - pose proof (start_steps (wi_span w) workers). lia.
  - intros Hstuck. eapply conclude_recovered; [done|done|exact Hs|]. by eapply stuck_finished.
Qed.

(** ** The envelope of the record *)

(** What [recoverIdentityEnvelope] can return. *)
Definition search_outcome (did : bytes) (born first : Z) (res : result recover_err (bytes * PublicKeyEnvelope)) : Prop :=
  match enrollment_window born first with
  | Err e => res = Err e
  | Ok w => ∃ workers s, let step := sstep (λ i, matches key did (newEnvelopeCandidates key) (second w i)) (wi_span w) workers in
      0 < workers ∧ rtc step (search_start workers) s ∧ (∀ s', ¬ step s s') ∧ res = conclude key did w s
  end.

Lemma outcome_names did born first canonical env : search_outcome did born first (Ok (canonical, env)) → DeriveIdentityID canonical env = Some did.
Proof.
  unfold search_outcome. destruct (enrollment_window born first) as [w|] eqn:Hw; [|done]. intros (workers & s & Hk & Hr & Hstuck & E).
  apply rtc_nsteps in Hr as [n Hn]. destruct (run_ok _ _ _ Hk n _ _ Hn (start_ok _ _ _ Hk)) as [Hs _].
  pose proof (conclude_recovered did born first w workers s Hw Hk Hs (stuck_finished _ _ _ s Hstuck)) as H. rewrite <- E in H. by destruct H as (t & _ & H).
Qed.

Lemma stored_answer_names id row canonical env : stored_answer id row = Ok (Some (canonical, env)) →
  row = Some canonical ∧ match id with Some id => DeriveIdentityID canonical env = Some id | None => True end.
Proof.
  unfold stored_answer. destruct row as [raw|]; [|done]. destruct (parseIdentityEnvelope raw) as [[c e]|] eqn:Ep; [|by destruct id].
  assert (c = raw) as -> by (unfold parseIdentityEnvelope in Ep; destruct (decode_envelope_strict raw); [|done]; cbn [mbind option_bind] in Ep; destruct (_ || _); [done|];
    destruct (FindPublicKey _ _); [|done]; by injection Ep as <- _).
  destruct id as [id|]; [|by intros [= <- <-]]. destruct (DeriveIdentityID raw e) as [d|] eqn:Ed; [|done]. cbn [of_option mbind result_bind mret].
  destruct (beq d id) eqn:E; [|done]. b2p. intros [= <- <-]. by rewrite Ed, E.
Qed.

(** C22. The envelope an identity goes by is the one its record names: when
    [EnsureIdentityEnvelope] returns one, it stands in the store's row, and it
    names every identity the record's receipts name and the one a receipt kept
    beside the ledger names, whether it was stored, rebuilt by the search or
    made anew. *)
Theorem envelope_names_record en row row' canonical env ids born first : en_enrollment en = Some (ids, born, first) →
  (∀ id first' r, en_recover en id born first' = Ok r → search_outcome id born first' (Ok r)) →
  EnsureIdentityEnvelope key en row = (row', Ok (canonical, env)) →
  row' = Some canonical ∧ (∀ id, id ∈ ids → DeriveIdentityID canonical env = Some id) ∧
  ∀ p, readPendingReceipt (en_pending en) = Ok (Some p) → DeriveIdentityID canonical env = Some (pr_IdentityID p).
Proof.
  intros He Hrec. unfold EnsureIdentityEnvelope. rewrite He. destruct (1 <? length ids)%nat eqn:El; [done|]. apply Nat.ltb_ge in El.
  destruct (readPendingReceipt _) as [pending|] eqn:Epd; [|done]. destruct (named ids first pending) as [[id first']|] eqn:En; [|done].
  destruct (negb (en_load en)); [done|]. intros H.
  enough (row' = Some canonical ∧ match id with Some id => DeriveIdentityID canonical env = Some id | None => True end) as [Hrow Hid].
  { split; [done|]. unfold named in En. split.
    - intros x Hx. destruct ids as [|y [|z ids]]; [by apply not_elem_of_nil in Hx| |cbn in El; lia]. apply list_elem_of_singleton in Hx as ->.
      destruct pending as [p|]; [destruct (beq y _) eqn:E; [|done]|]; by injection En as <- _.
    - intros p [= ->]. destruct ids as [|y ids]; [by injection En as <- _|]. destruct (beq y _) eqn:E; [|done]. b2p. injection En as <- _. by rewrite <- E. }
  destruct (stored_answer id row) as [[[c e]|]|] eqn:Es; [|..|done].
  - injection H as <- <- <-. by apply stored_answer_names in Es.
  - destruct id as [id|].
    + destruct (IsZero born || IsZero first'); [done|]. destruct (en_recover en id born first') as [[c e]|] eqn:Er; [|done]. apply Hrec, outcome_names in Er.
      destruct row as [raw|]; cbn in H; destruct (en_save en); cbn in H; try done; by injection H as <- <- <-.
    + destruct (buildIdentityEnvelope key (en_now en)) as [[c e]|]; [|done]. unfold SaveWitnessEnvelope in H. destruct (en_save en); cbn [negb] in H; [|done].
      destruct (negb (en_reload en)); [done|]. injection H as <- H. apply of_option_ok in H.
      assert (stored_answer None (Some (default c row)) = Ok (Some (canonical, env))) as Ha by (cbn; by rewrite H). by apply stored_answer_names in Ha.
Qed.
End Recovered.
