(* ===== verification/IdentitySamples.v ===== *)
(** * A lost envelope, found again

    The template, the search and [EnsureIdentityEnvelope] at a concrete key. *)

From stdpp Require Import gmap relations list_numbers.
From S2P Require Import Prelude Utf8 GoJson CanonicalJson CanonicalJsonFacts GoStruct Marshal Crypto Event Lines Chain Time Container SigEnvelope Ledger LedgerFacts Witness GoStrings Composer WitnessKeys WitnessWire IdentityEnvelope IdentityFacts.

Lemma toy_key_bytes : Forall is_byte (PublicKey toy_pair).
Proof. repeat (constructor; [unfold is_byte; cbn; lia|]). constructor. Qed.

Definition toy_template : envelopeCandidates := match newEnvelopeCandidates toy_pair with Some c => c | None => mkCandidates [] [] [] [] [] end.
Lemma toy_template_made : newEnvelopeCandidates toy_pair = Some toy_template.
Proof. vm_compute. reflexivity. Qed.

Lemma template_is_builder_witness : buildIdentityEnvelope toy_pair 0 = Ok (candidate_canonical toy_template 0, identity_envelope toy_pair 0).
Proof. exact (proj1 (template_is_builder toy_pair toy_key_bytes toy_template 0 toy_template_made)). Defined.

(** An identity enrolled in the second it was first witnessed. *)
Definition enrolled : Z := instant 2026 1 2 3 4 5 0 0.
Definition lost_id : bytes := identityIDFor (ec_fingerprint toy_template) (candidate_canonical toy_template enrolled).
Definition toy_window : window := match enrollment_window enrolled enrolled with Ok w => w | Err _ => mkWindow 0 0 0 end.
Lemma toy_window_ok : enrollment_window enrolled enrolled = Ok toy_window.
Proof. vm_compute. reflexivity. Qed.

Definition tried (i : Z) : result build_err bool := matches toy_pair lost_id (newEnvelopeCandidates toy_pair) (second toy_window i).
#[local] Abbreviation step := (sstep tried (wi_span toy_window) 1).

(** One goroutine, and its first try. *)
Definition hit : search := mkSearch 1 None [Finished].
Lemma tried_first : tried 0 = Ok true.
Proof. vm_compute. reflexivity. Qed.
Lemma search_run : nsteps step 2 (search_start 1) hit.
Proof.
  apply (nsteps_l _ _ _ (mkSearch 0 None [Tries 0])); [exists 0%nat; vm_compute; reflexivity|]. apply (nsteps_l _ _ _ hit); [|constructor].
  exists 0%nat. unfold search_step. cbn [sc_workers lookup list_lookup mbind option_bind worker_step]. by rewrite tried_first.
Qed.
Lemma search_stuck s' : ¬ step hit s'.
Proof. intros ([|w] & H); done. Qed.

Lemma search_decides_witness : (2 ≤ Z.to_nat 1 * (2 * Z.to_nat (wi_span toy_window) + 1))%nat ∧ recovered toy_pair lost_id enrolled enrolled (conclude toy_pair lost_id toy_window hit).
Proof.
  destruct (search_decides toy_pair toy_key_bytes lost_id enrolled enrolled toy_window 1 2 hit toy_window_ok eq_refl search_run) as [H1 H2].
  split; [exact H1|]. exact (H2 search_stuck).
Defined.

(** The row is lost, the record names the identity, and the search finds it. *)
Definition found_again : bytes * PublicKeyEnvelope := (candidate_canonical toy_template enrolled, identity_envelope toy_pair enrolled).
Definition lost_row : ensure_env :=
  mkEnsureEnv (Some ([lost_id], enrolled, enrolled)) (Ok None) true true true enrolled
    (λ id b f, if beq id lost_id && (b =? enrolled) && (f =? enrolled) then Ok found_again else Err RNotFound).

Lemma hit_concludes : conclude toy_pair lost_id toy_window hit = Ok found_again.
Proof. vm_compute. reflexivity. Qed.
Lemma lost_row_recovers id first r : en_recover lost_row id enrolled first = Ok r → search_outcome toy_pair id enrolled first (Ok r).
Proof.
  cbn [en_recover lost_row]. destruct (beq id lost_id) eqn:E1; [|done]. destruct (Z.eqb_spec first enrolled) as [->|]; [|by rewrite andb_false_r]. b2p. subst id.
  rewrite Z.eqb_refl. cbn [andb]. intros H. rewrite <- H, <- hit_concludes. unfold search_outcome. rewrite toy_window_ok. exists 1, hit. split; [done|]. split; [|split; [|done]].
  - apply rtc_nsteps. exists 2%nat. exact search_run.
  - exact search_stuck.
Qed.

Lemma envelope_names_record_witness : DeriveIdentityID found_again.1 found_again.2 = Some lost_id.
Proof.
  refine (proj1 (proj2 (envelope_names_record toy_pair toy_key_bytes lost_row None (Some found_again.1) found_again.1 found_again.2 [lost_id] enrolled enrolled eq_refl lost_row_recovers _)) lost_id _).
  - vm_compute. reflexivity.
  - constructor.
Defined.
